(* ===== verification/_CoqProject ===== *)
-Q . S2P
Prelude.v
JsBase.v
JsRegex.v
JsText.v
Uri.v
JsJson.v
JsLib.v
Zod.v
AssetId.v
Correlation.v
SqlRedaction.v
Memo.v
HttpClient.v
PolicyModel.v
PolicyRoles.v
PolicyValidate.v
PolicyValid.v
PolicyRego.v
PolicyRegoProofs.v
PolicyRegoSafety.v
PolicyKeycloak.v
PolicyPgDdl.v
PolicyPgProofs.v
PolicyDrift.v
PolicyDriftProofs.v
PolicyGrantLine.v
PolicyRoundTrip.v
SsoStore.v
SsoStoreProofs.v
SsoSchema.v
SsoEdit.v
Config.v
SsoPrText.v
Effects.v
StorePool.v
Services.v
PolicyProjection.v
PolicyCtl.v
QueryHistory.v
Pipeline.v
DataAssets.v
Decision.v
Threads.v
SsoPorts.v
Kube.v
KubeProofs.v
Listings.v
Ci.v
LicensePolicy.v
Vulnerabilities.v
WebTable.v
Console.v
Session.v
ApiClient.v
Translations.v
I18n.v
I18nGuard.v
Graph.v
Views.v
GraphSearch.v
GraphProofs.v
Flink.v
FlinkProofs.v
GithubApp.v
GithubSso.v
GithubSsoProofs.v
GithubAppProofs.v
SsoReconciler.v
SsoRoutes.v
Auth.v
SsoForm.v
Startup.v
Lakekeeper.v
LakekeeperProofs.v
ViewsProofs.v
SsoRouteProofs.v
StartupProofs.v
SsoReconcilerProofs.v
GithubLink.v
SsoSystem.v
