(* ===== verification/Prelude.v ===== *)
(** * Verification of the Beluga Manager

    The repository deploys a data platform (Trino, Flink, Kafka, Iceberg, Keycloak, OPA)
    and the Manager that governs it.  This library models the code of the Manager that
    decides something, under [src/manager]: the policy compiler
    ([packages/policy-compiler]), the server ([packages/domain-api/src]), the web console
    ([packages/web/src]) and the gates of the build ([scripts/ci]).

    ** The parts, and how they interact

    - The _policy compiler_ turns a declaration of roles, groups and resources into an OPA
      policy for Trino, realm roles for Keycloak and a GRANT script for PostgreSQL, and
      compares what it compiled with what a system reports.
      [PolicyModel] is [schema.ts], [compare.ts], [pgrole.ts], [accessType.ts] (with a
      declaration for the witnesses); [PolicyRoles] and [PolicyValidate] are [validate.ts];
      [PolicyRego], [PolicyKeycloak], [PolicyPgDdl] are [compiler/*.ts]; [PolicyDrift] is
      [drift.ts]; [PolicyCtl] is [bin/policyctl.ts] with its file effects;
      [PolicyProjection] is the summary of the policies the server shows, with the SHA-256
      of the artefacts.  The theorems are in [PolicyRegoSafety], [PolicyRegoProofs],
      [PolicyKeycloak], [PolicyPgProofs], [PolicyDriftProofs], [PolicyRoundTrip] and
      [PolicyCtl] ([PolicyValid], [PolicyGrantLine] hold lemmas).
    - The _change-request flow_ lets an administrator change who may enter an endpoint: a
      route builds the edited [sso.yaml], records the request, opens a pull request; a
      reconciler follows it to the cluster.  [SsoSchema] is [schema/sso.ts], [SsoEdit]
      [sso-change/editEngine.ts], [SsoPrText] [sso-change/prText.ts], [SsoStore]
      [store/ssoChangeStore.ts] and [StorePool] its connection pool, [SsoPorts] the
      interfaces between them, [SsoRoutes] [routes/ssoChanges.ts], [SsoReconciler]
      [sso-change/reconciler.ts] and [compensation.ts] (with the timer and the drain),
      [GithubApp] [sso-change/githubApp.ts].  The theorems are in [SsoEdit],
      [SsoStoreProofs], [StorePool], [SsoRouteProofs], [SsoReconcilerProofs],
      [GithubAppProofs]; [GithubLink] puts the flow on top of the client and [SsoSystem]
      runs any number of requests and ticks against one database, interleaved.
    - The _sources of the SSO file_: [GithubSso] is [adapters/sso/*.ts], the reader of
      GitHub and the one of a local checkout (theorems in [GithubSsoProofs]).
    - The _upstream clients_ under [adapters/upstream]: [HttpClient] is [httpClient.ts] and
      [tokenProvider.ts], [Memo] is [memo.ts], [SqlRedaction] is [sqlRedaction.ts];
      over them [Lakekeeper] is the Iceberg catalog (theorems in [LakekeeperProofs]) and
      [QueryHistory] the history of Trino's queries.  [Flink] is [adapters/flink/*.ts]
      (theorems in [FlinkProofs]).  [Zod] and [Uri] are the schema combinators and the
      percent-encoding they use.
    - The _readers of the cluster_: [Kube] is [adapters/kubeClient.ts], [kubeWorkload.ts],
      [kubeEvents.ts] and [sso-change/argocdReader.ts] (theorems in [KubeProofs]);
      [Services] is the registry of services and its routes.
    - _The other routes_: [Pipeline], [DataAssets] and [Listings] are the routes, schemas
      and fixtures of pipelines, data assets with the hand-over to Trino, resources,
      events and health.
    - _Judgements over the platform_: [Correlation] is [correlation/rules.ts], [Decision]
      [decision/*.ts] with its fixtures and routes; [AssetId] is [lib/assetId.ts] and
      [lib/pagination.ts].
    - _Authentication and start-up_: [Config] is [config.ts], [Auth] is [auth/*.ts],
      [Startup] is [wiring.ts], [server.ts], [adapters/runtime.ts],
      [adapters/upstream/config.ts] and [app.ts] (theorems in [StartupProofs]).
    - The _web console_: [Session] is [auth/*], [ApiClient] is [api/*], [SsoForm] the form
      of a change request, [Translations] and [I18n] are [i18n/*], [I18nGuard] the gate
      against texts outside the catalog, [Graph] and [GraphSearch] are
      [components/graph/layout.ts], [WebTable] the sorting of tables, [Console] the
      functions beside the views, [Views] the shell, its navigation and what the views
      compute (theorems in [GraphProofs], [ViewsProofs] and the files themselves).
    - The _gates of the build_: [Ci] is what they share, [LicensePolicy] and
      [Vulnerabilities] are [scripts/ci/*.mjs].

    Server and console meet in theorems over both: the request of the form is read by the
    route ([SsoForm]), the listing of the catalog source is what the query view chooses
    from ([ViewsProofs]).

    [JsBase], [JsRegex], [JsText], [JsJson], [JsLib] are the parts of JavaScript the sources
    use; [Effects] are programs as trees of calls to the outside, [Threads] such programs
    interleaved over shared fields.

    ** How the code is represented

    - A synchronous function is a Rocq function with the same name; a thrown error is
      [inl] of a [result].  An asynchronous method is a program ([Effects.prog]): one node
      per call to the outside, a branch for every answer, exceptions included.  Programs
      are inductive trees, so every handler ends after finitely many calls whatever is
      answered; theorems about [runs] quantify over all answers.
    - Fields that concurrent calls share are read and written by calls of their own, so a
      statement that holds for all answers holds under every interleaving; where the state
      matters, [Threads] and [SsoSystem] run the programs over it.  A component of the
      console, the pool of the store, the read that callers of a Kubernetes adapter share
      and the process itself are state machines, and their theorems hold for every
      sequence of events.
    - Requests that the code starts together ([Promise.all]) and that share nothing are made
      one after the other, all of them.
    - A string is a sequence of 8-bit characters; what the code matches character by
      character is ASCII.  A number is an integer [Z]; confidences are in hundredths; a date
      is its time in milliseconds, with [None] for an invalid one where that can occur.
    - An object used as a map is an association list in insertion order.
    - Regular expressions are those of the sources, run by the backtracking matcher of
      [JsRegex], whose fuel is the length of the input: [run_complete] shows that it is
      enough; a global match or a split takes one step more than there are characters.
    - Other fuels: the number of roles (the closure and the cycle search of [PolicyRoles],
      with their theorems of completeness), the nodes and edges of a graph (its search and
      its layers, [GraphProofs.layout_layers]), the depth four of the column types that
      are rendered, and the page limits that the sources have themselves ([GithubApp],
      [Kube], [Lakekeeper], ten pages).
    - Not under [src/], hence parameters: the YAML library, the diff and the URL parser of
      the edit engine ([EditLib]); [JSON.parse], [Number] and [Date.parse] ([JsLib]); the
      texts of dates and the order of [Intl] ([Intl]); the URL parser, [isIP], the file
      system and the key parser of the host ([Host]); the signature of the App token;
      [jwtVerify] of jose; the syntax tree of the TypeScript compiler; the network, the
      clock, npm and PostgreSQL's connection faults, as answers of calls.  No theorem
      assumes more of them than it says.

    ** What the theorems show

    - Compiled policies: masks never conflict and every sensitive column is masked; table
      access, PostgreSQL privileges and Keycloak roles are exactly the declared ones; no
      declared text escapes its line; applying and comparing shows no drift; policyctl
      writes nothing but compiled artefacts.  Privileges are those of the relations as
      PostgreSQL names them, so two declared tables that differ only in case are one
      relation ([PolicyPgProofs.case_twins_merge]), and the statement about drift is for
      tables that PostgreSQL keeps as they are spelled ([PolicyRoundTrip.kept_names];
      [capitals_drift] shows what happens to the others).
    - Change requests: nothing is written to GitHub but for an administrator, for a change
      built on the base that was read, after the audit row; stages follow their diagram,
      the history is append-only, a tick reaches every request; the same on the wire, with
      at most 28 requests before the deadline.  Every answer of the submit route comes with
      the call that justifies it and with what it left in the store
      ([SsoRouteProofs.refused], [answered]).
    - Sources and readers: what is served is one confirmed commit within its window, the
      window being that of the serving call, and a fresh base is one this very call
      confirmed; live reads go only where they are meant to; health is judged from the
      texts the cluster answered, pipelines and their stages are exactly what Flink said,
      and a catalog listing called complete was read to its last page in the run that
      produced it; concurrent readers share one read and nothing older.
    - Clients: slots, queues and caches keep their bounds, tokens do not leak, SQL text
      loses its literals, the starter SQL is one SELECT.
    - Start-up: in production the server is closed unless configured, except that a local
      source without a base domain is served the one of development; settings are in their
      bounds; the routes need a verified token of an administrator; what health reports is
      what was wired; a signal does not cut a tick short.
    - [Correlation], [Decision]: the links are those the entities, with distinct identifiers,
      warrant; the boundary around a provider answers unless the value it threw cannot
      even be described ([Decision.describing_throws]).
    - The console: no token outlives its session, a submit asks for what was previewed, an
      answer in the cache belongs to the request of its reader, links land on their
      target, the layout of a graph is layered and ends, a truncated list says so, every
      text is in both catalogs.
    - The gates: exit code 0 means what it should, for licenses and vulnerabilities.

    ** Not modelled

    What React draws (elements, styles, animation) and the widgets of third parties (React
    Flow, the SQL editor, react-query's own scheduling); Helm charts, GitOps values and
    shell scripts; the OpenAPI document and the descriptions of the schemas;
    [dev/mock-upstreams.mjs], a server for local development.  [deepFreeze] has no
    counterpart in a model without mutation. *)
From stdpp Require Export base decidable list strings gmap sorting pretty.
From Stdlib Require Export ZArith Lia.

(** ** Automation *)

Create HintDb beluga discriminated.

(** Case analysis on every [if]/[match] of the goal or of the hypotheses. *)
Ltac case_all := repeat (case_match || case_decide); simplify_eq/=.

(** Split a goal made of an equivalence. *)
Ltac iff := split; [intros ?|intros ?].

(** ** A fallible computation: [inl] carries what the code throws. *)

Declare Scope result_scope.
Delimit Scope result_scope with result.

Definition result (E A : Type) : Type := (E + A)%type.

Definition rbind {E A B} (m : result E A) (f : A -> result E B) : result E B :=
  match m with inl e => inl e | inr a => f a end.

Notation "'let!' x ':=' m 'in' k" := (rbind m (fun x => k))
  (at level 10, x pattern, m at level 100, k at level 200) : result_scope.

Fixpoint rmap {E A B} (f : A -> result E B) (l : list A) : result E (list B) :=
  match l with
  | [] => inr []
  | a :: l' => rbind (f a) (fun b => rbind (rmap f l') (fun bs => inr (b :: bs)))
  end.

Lemma rbind_inr {E A B} (m : result E A) (f : A -> result E B) b :
  rbind m f = inr b <-> exists a, m = inr a /\ f a = inr b.
Proof. destruct m; naive_solver. Qed.

Lemma rmap_inr {E A B} (f : A -> result E B) l bs :
  rmap f l = inr bs <-> Forall2 (fun a b => f a = inr b) l bs.
Proof.
  revert bs. induction l as [|a l IH]; intros bs; simpl.
  - split; [intros [= <-]; constructor | by intros ->%Forall2_nil_inv_l].
  - rewrite rbind_inr. setoid_rewrite rbind_inr. setoid_rewrite IH. split.
    + intros (b & ? & bs' & ? & [= <-]). by constructor.
    + intros (b & bs' & ? & ? & ->)%Forall2_cons_inv_l. eauto 10.
Qed.

(** ** Lists read as sets *)

Definition same_set {A} (l k : list A) : Prop := forall x, x ∈ l <-> x ∈ k.

#[export] Instance same_set_equivalence {A} : Equivalence (@same_set A).
Proof. unfold same_set. split; repeat intro; naive_solver. Qed.

#[export] Instance elem_of_same_set {A} (x : A) :
  Proper (same_set ==> iff) (fun l => x ∈ l).
Proof. intros l k H. apply H. Qed.

Lemma same_set_perm {A} (l k : list A) : l ≡ₚ k -> same_set l k.
Proof. intros H x. by rewrite H. Qed.

Lemma existsb_elem {A} (f : A -> bool) l :
  existsb f l = true <-> exists x, x ∈ l /\ f x = true.
Proof. rewrite existsb_exists. by setoid_rewrite list_elem_of_In. Qed.

Lemma forallb_elem {A} (f : A -> bool) l :
  forallb f l = true <-> forall x, x ∈ l -> f x = true.
Proof. rewrite forallb_forall. by setoid_rewrite list_elem_of_In. Qed.

Lemma elem_of_flat_map {A B} (f : A -> list B) l y :
  y ∈ flat_map f l <-> exists x, x ∈ l /\ y ∈ f x.
Proof.
  rewrite !list_elem_of_In, in_flat_map.
  by setoid_rewrite list_elem_of_In.
Qed.

Lemma elem_of_map {A B} (f : A -> B) l y :
  y ∈ map f l <-> exists x, x ∈ l /\ y = f x.
Proof.
  rewrite list_elem_of_In, in_map_iff. setoid_rewrite list_elem_of_In. naive_solver.
Qed.

Lemma elem_of_filterb {A} (f : A -> bool) l x :
  x ∈ List.filter f l <-> x ∈ l /\ f x = true.
Proof. by rewrite !list_elem_of_In, filter_In. Qed.

Lemma flat_map_nil {A B} (f : A -> list B) l :
  flat_map f l = [] <-> forall x, x ∈ l -> f x = [].
Proof.
  induction l as [|a l IH]; simpl; [set_solver|].
  rewrite app_nil, IH. set_solver.
Qed.

Lemma if_nil {A} (b : bool) (x : A) : (if b then [x] else []) = [] <-> b = false.
Proof. by destruct b. Qed.

Create Rewrite HintDb elems.
#[export] Hint Rewrite @elem_of_flat_map @elem_of_map @elem_of_filterb @flat_map_nil
  @existsb_elem @forallb_elem @if_nil @app_nil : elems.
