(* ===== verification/JsBase.v ===== *)
(** * The parts of the JavaScript runtime the sources use

    Strings, [Array.prototype.sort], [Set] and [Map] in insertion order,
    [join], [split], [JSON.stringify] of a string.  A JavaScript string is a
    [String.string]: a sequence of 8-bit characters.  Data the sources match
    character by character (names, identifiers, SQL keywords) is ASCII; the
    fixed message texts are the bytes of the source file. *)

From S2P Require Import Prelude.
From Stdlib Require Import Ascii.
From Stdlib Require String.
Open Scope string_scope.
Open Scope list_scope.
Open Scope Z_scope.

(** ** Strings *)

(** [a < b ? -1 : a > b ? 1 : 0]: order of the code units. *)
Definition str_ltb (a b : string) : bool := String.ltb a b.

Definition dq : string := String "034" EmptyString.
Definition lf : string := String "010" EmptyString.
Definition tab : string := String "009" EmptyString.
Definition bslash : string := String "092" EmptyString.

(** [arr.join(sep)] *)
Fixpoint join (sep : string) (l : list string) : string :=
  match l with
  | [] => EmptyString
  | [s] => s
  | s :: l' => s +:+ sep +:+ join sep l'
  end.

(** [s.split(c)] for a separator of one character. *)
Fixpoint split_char (c : ascii) (s : string) : list string :=
  match s with
  | EmptyString => [EmptyString]
  | String a s' =>
      if Ascii.eqb a c then EmptyString :: split_char c s'
      else match split_char c s' with
           | [] => [String a EmptyString]
           | w :: ws => String a w :: ws
           end
  end.

(** [s.includes(c)] for one character. *)
Fixpoint str_has (c : ascii) (s : string) : bool :=
  match s with
  | EmptyString => false
  | String a s' => Ascii.eqb a c || str_has c s'
  end.

(** [s.startsWith(p)] *)
Definition starts_with (p s : string) : bool := String.prefix p s.

(** [s.slice(n)] *)
Definition str_drop (n : nat) (s : string) : string :=
  String.substring n (String.length s - n) s.

(** [s.slice(0, n)] *)
Definition str_take (n : nat) (s : string) : string := String.substring 0 n s.

(** [s.replace(/x/g, f)] for a replacement character by character. *)
Fixpoint str_map (f : ascii -> string) (s : string) : string :=
  match s with
  | EmptyString => EmptyString
  | String a s' => f a +:+ str_map f s'
  end.

Definition ascii_lower (a : ascii) : ascii :=
  let n := N_of_ascii a in
  if ((65 <=? n) && (n <=? 90))%N then ascii_of_N (n + 32) else a.

Definition ascii_upper (a : ascii) : ascii :=
  let n := N_of_ascii a in
  if ((97 <=? n) && (n <=? 122))%N then ascii_of_N (n - 32) else a.

Definition str1 (a : ascii) : string := String a EmptyString.

(** [s.toLowerCase()], [s.toUpperCase()] on the ASCII letters. *)
Definition to_lower (s : string) : string := str_map (fun a => str1 (ascii_lower a)) s.
Definition to_upper (s : string) : string := str_map (fun a => str1 (ascii_upper a)) s.

Definition between (lo hi : N) (a : ascii) : bool :=
  let n := N_of_ascii a in ((lo <=? n) && (n <=? hi))%N.

Definition is_space (a : ascii) : bool :=
  let n := N_of_ascii a in ((9 <=? n) && (n <=? 13) || (n =? 32))%N.
Definition is_digit (a : ascii) : bool := between 48 57 a.
Definition is_alpha (a : ascii) : bool := between 65 90 a || between 97 122 a.

Fixpoint trim_start (s : string) : string :=
  match s with
  | EmptyString => EmptyString
  | String a s' => if is_space a then trim_start s' else s
  end.

Fixpoint trim_end (s : string) : string :=
  match s with
  | EmptyString => EmptyString
  | String a s' =>
      match trim_end s' with
      | EmptyString => if is_space a then EmptyString else str1 a
      | t => String a t
      end
  end.

(** [s.trim()] *)
Definition trim (s : string) : string := trim_end (trim_start s).

Definition str_all (p : ascii -> bool) (s : string) : bool :=
  forallb p (String.list_ascii_of_string s).

(** [JSON.stringify(s)]: quotes, backslashes and control characters escaped. *)
Definition hex_digit (n : N) : ascii :=
  ascii_of_N (if (n <? 10)%N then 48 + n else 87 + n).

Definition json_char (a : ascii) : string :=
  let n := N_of_ascii a in
  if (n =? 34)%N then bslash +:+ dq
  else if (n =? 92)%N then bslash +:+ bslash
  else if (n =? 8)%N then bslash +:+ "b"
  else if (n =? 9)%N then bslash +:+ "t"
  else if (n =? 10)%N then bslash +:+ "n"
  else if (n =? 12)%N then bslash +:+ "f"
  else if (n =? 13)%N then bslash +:+ "r"
  else if (n <? 32)%N then
    bslash +:+ "u00" +:+ str1 (hex_digit (n / 16)) +:+ str1 (hex_digit (n mod 16))
  else str1 a.

Definition json_string (s : string) : string := dq +:+ str_map json_char s +:+ dq.

(** ** [Array.prototype.sort]: stable, by a comparator *)

Section sort.
Context {A : Type} (c : A -> A -> Z).

Fixpoint sort_insert (x : A) (l : list A) : list A :=
  match l with
  | [] => [x]
  | y :: l' => if c x y <=? 0 then x :: y :: l' else y :: sort_insert x l'
  end.

Definition js_sort (l : list A) : list A := foldr sort_insert [] l.
End sort.

(** The comparator of the sources; the default comparator of [sort()] on strings. *)
Definition str_cmp (a b : string) : Z :=
  if str_ltb a b then -1 else if str_ltb b a then 1 else 0.

(** ** [Set]: distinct elements in insertion order *)

Section js_set.
Context {A : Type} `{EqDecision A}.

Definition set_add (x : A) (s : list A) : list A :=
  if decide (x ∈ s) then s else s ++ [x].

(** [new Set(l)], and [[...new Set(l)]]. *)
Definition set_of (l : list A) : list A := foldl (fun s x => set_add x s) [] l.
End js_set.

(** ** [Map]: an association list in insertion order, distinct keys *)

Section js_map.
Context {K V : Type} `{EqDecision K}.

Fixpoint map_get (k : K) (m : list (K * V)) : option V :=
  match m with
  | [] => None
  | (k', v) :: m' => if decide (k = k') then Some v else map_get k m'
  end.

Fixpoint map_set (k : K) (v : V) (m : list (K * V)) : list (K * V) :=
  match m with
  | [] => [(k, v)]
  | (k', v') :: m' => if decide (k = k') then (k', v) :: m' else (k', v') :: map_set k v m'
  end.

Definition map_delete (k : K) (m : list (K * V)) : list (K * V) :=
  List.filter (fun kv => negb (bool_decide (kv.1 = k))) m.

(** [new Map(entries)]: a later entry overwrites an earlier one. *)
Definition map_of (l : list (K * V)) : list (K * V) :=
  foldl (fun m kv => map_set kv.1 kv.2 m) [] l.

Definition map_has (k : K) (m : list (K * V)) : bool :=
  match map_get k m with Some _ => true | None => false end.
End js_map.

(** ** Lemmas: sorting *)

Section sort_lemmas.
Context {A : Type} (c : A -> A -> Z).

Lemma sort_insert_perm x l : sort_insert c x l ≡ₚ x :: l.
Proof. induction l as [|y l IH]; simpl; [done|]. case_match; [done|]. rewrite IH. constructor. Qed.

Lemma js_sort_perm l : js_sort c l ≡ₚ l.
Proof. induction l as [|x l IH]; simpl; [done|]. by rewrite sort_insert_perm, IH. Qed.

Lemma elem_of_js_sort x l : x ∈ js_sort c l <-> x ∈ l.
Proof. by rewrite js_sort_perm. Qed.

Lemma length_js_sort l : length (js_sort c l) = length l.
Proof. by rewrite js_sort_perm. Qed.

Lemma NoDup_js_sort l : NoDup (js_sort c l) <-> NoDup l.
Proof. by rewrite js_sort_perm. Qed.

Lemma js_sort_nil l : js_sort c l = [] <-> l = [].
Proof.
  split; [|by intros ->]. intros H. apply Permutation_nil. rewrite <-(js_sort_perm l). by rewrite H.
Qed.

Definition cmp_le (x y : A) : Prop := c x y <= 0.

Context (c_total : forall x y, 0 < c x y -> c y x <= 0).
Context (c_trans : forall x y z, c x y <= 0 -> c y z <= 0 -> c x z <= 0).

Lemma js_sort_sorted l : StronglySorted cmp_le (js_sort c l).
Proof.
  induction l as [|x l IH]; simpl; [constructor|].
  induction IH as [|y k Hk IHk Hy]; simpl; [repeat constructor|].
  case_match eqn:E; [apply Z.leb_le in E|apply Z.leb_gt in E].
  - constructor; [by constructor|]. constructor; [done|].
    eapply Forall_impl; [done|]. intros z Hz. by eapply c_trans.
  - constructor; [done|]. rewrite sort_insert_perm. constructor; [|done]. by apply c_total.
Qed.

(** Sorting depends only on the multiset when equal keys mean equal elements. *)
Lemma js_sort_canonical l k :
  (forall x y, x ∈ l -> y ∈ l -> c x y <= 0 -> c y x <= 0 -> x = y) ->
  l ≡ₚ k -> js_sort c l = js_sort c k.
Proof.
  intros Hanti HP. assert (js_sort c l ≡ₚ js_sort c k) as HP'
    by (rewrite !js_sort_perm; done).
  pose proof (js_sort_sorted l) as Hl. pose proof (js_sort_sorted k) as Hk.
  assert (forall x y, x ∈ js_sort c l -> y ∈ js_sort c l ->
    c x y <= 0 -> c y x <= 0 -> x = y) as Ha.
  { intros x y. rewrite !elem_of_js_sort. apply Hanti. }
  clear Hanti HP. revert HP' Ha. generalize dependent (js_sort c k).
  induction Hl as [|x l' Hl IH Hx]; intros k' Hk HP Ha.
  - apply Permutation_nil in HP. by rewrite HP.
  - destruct Hk as [|y k' Hk Hy].
    { apply symmetry, Permutation_nil in HP. done. }
    assert (x = y) as ->.
    { assert (y ∈ x :: l') as Hyl by (rewrite HP; left).
      assert (x ∈ y :: k') as Hxk by (rewrite <-HP; left).
      apply Ha; [left | done | |].
      - apply elem_of_cons in Hyl as [->|Hyl]; [|by rewrite Forall_forall in Hx; apply Hx].
        destruct (Z_le_gt_dec (c x x) 0); [done|]. apply c_total; lia.
      - apply elem_of_cons in Hxk as [->|Hxk]; [|by rewrite Forall_forall in Hy; apply Hy].
        destruct (Z_le_gt_dec (c y y) 0); [done|]. apply c_total; lia. }
    apply (inj (cons y)) in HP. f_equal. apply IH; [done|done|].
    intros a b Ha' Hb'. apply Ha; by right.
Qed.
End sort_lemmas.

(** ** Lemmas: the string order *)

Lemma str_ltb_compare a b : str_ltb a b = true <-> String.compare a b = Lt.
Proof. unfold str_ltb, String.ltb. destruct (String.compare a b); naive_solver. Qed.

Lemma compare_refl a : String.compare a a = Eq.
Proof. pose proof (String.compare_antisym a a). by destruct (String.compare a a). Qed.

Lemma compare_trans a b d : String.compare a b = Lt -> String.compare b d = Lt -> String.compare a d = Lt.
Proof.
  revert b d. induction a as [|x a IH]; intros [|y b] [|z d]; simpl; try done.
  unfold Ascii.compare.
  destruct (N.compare_spec (N_of_ascii x) (N_of_ascii y)) as [E|E|E]; try done;
  destruct (N.compare_spec (N_of_ascii y) (N_of_ascii z)) as [F|F|F]; try done;
  destruct (N.compare_spec (N_of_ascii x) (N_of_ascii z)) as [G|G|G]; try done; try lia.
  apply IH.
Qed.

Lemma compare_flip a b : String.compare a b = Gt <-> String.compare b a = Lt.
Proof. rewrite (String.compare_antisym b a). destruct (String.compare a b); naive_solver. Qed.

Lemma str_cmp_compare a b :
  str_cmp a b = match String.compare a b with Lt => -1 | Eq => 0 | Gt => 1 end.
Proof.
  unfold str_cmp, str_ltb, String.ltb. rewrite (String.compare_antisym b a).
  by destruct (String.compare a b).
Qed.

Lemma str_cmp_total a b : 0 < str_cmp a b -> str_cmp b a <= 0.
Proof.
  rewrite !str_cmp_compare, (String.compare_antisym b a).
  destruct (String.compare a b); simpl; lia.
Qed.

Lemma str_cmp_trans a b d : str_cmp a b <= 0 -> str_cmp b d <= 0 -> str_cmp a d <= 0.
Proof.
  rewrite !str_cmp_compare.
  destruct (String.compare a b) eqn:E; destruct (String.compare b d) eqn:F; try lia;
    try (apply String.compare_eq_iff in E as ->); try (apply String.compare_eq_iff in F as ->);
    rewrite ?E, ?F, ?compare_refl; try lia.
  by rewrite (compare_trans _ _ _ E F).
Qed.

Lemma str_cmp_antisym a b : str_cmp a b <= 0 -> str_cmp b a <= 0 -> a = b.
Proof.
  rewrite !str_cmp_compare, (String.compare_antisym b a).
  destruct (String.compare a b) eqn:E; simpl; try lia.
  intros _ _. by apply String.compare_eq_iff.
Qed.

Lemma str_cmp_0 a b : str_cmp a b = 0 <-> a = b.
Proof.
  rewrite str_cmp_compare. split.
  - destruct (String.compare a b) eqn:E; try lia. intros _. by apply String.compare_eq_iff.
  - intros ->. by rewrite compare_refl.
Qed.

#[export] Hint Resolve str_cmp_total str_cmp_trans str_cmp_antisym : beluga.

(** Sorting by a string key. *)
Lemma js_sort_key_canonical {A} (key : A -> string) l k :
  (forall x y, x ∈ l -> y ∈ l -> key x = key y -> x = y) -> l ≡ₚ k ->
  js_sort (fun x y => str_cmp (key x) (key y)) l = js_sort (fun x y => str_cmp (key x) (key y)) k.
Proof.
  intros Hinj. apply js_sort_canonical; eauto with beluga.
Qed.

Lemma js_sort_str_canonical l k : l ≡ₚ k -> js_sort str_cmp l = js_sort str_cmp k.
Proof. intros. apply js_sort_canonical; eauto with beluga. Qed.

(** ** Lemmas: string concatenation *)

Lemma str_app_cons a (s t : string) : String a s +:+ t = String a (s +:+ t).
Proof. reflexivity. Qed.

Lemma str_app_nil_l (s : string) : EmptyString +:+ s = s.
Proof. reflexivity. Qed.

#[export] Hint Rewrite str_app_cons str_app_nil_l : elems.

Lemma str_app_assoc (s t u : string) : (s +:+ t) +:+ u = s +:+ (t +:+ u).
Proof.
  induction s as [|a s IH]; [done|]. by rewrite !str_app_cons, IH.
Qed.

Lemma str_app_nil_r (s : string) : s +:+ EmptyString = s.
Proof. induction s as [|a s IH]; [done|]. by rewrite str_app_cons, IH. Qed.

Lemma str_map_app f s t : str_map f (s +:+ t) = str_map f s +:+ str_map f t.
Proof.
  induction s as [|a s IH]; [done|]. rewrite str_app_cons. simpl. by rewrite IH, str_app_assoc.
Qed.

Lemma str_ascii_app s t :
  String.list_ascii_of_string (s +:+ t) =
    String.list_ascii_of_string s ++ String.list_ascii_of_string t.
Proof. induction s as [|a s IH]; [done|]. rewrite str_app_cons. simpl. by rewrite IH. Qed.

(** ** Lemmas: sets and maps *)

Section js_set_lemmas.
Context {A : Type} `{EqDecision A}.
Implicit Types (l s : list A).

Lemma elem_of_set_add x y s : x ∈ set_add y s <-> x = y \/ x ∈ s.
Proof. unfold set_add. case_decide; set_solver. Qed.

Lemma NoDup_set_add x s : NoDup s -> NoDup (set_add x s).
Proof.
  unfold set_add. case_decide; [done|]. intros. apply NoDup_app.
  split; [done|]. split; [set_solver|]. apply NoDup_singleton.
Qed.

Lemma set_of_acc l s x :
  x ∈ foldl (fun s x => set_add x s) s l <-> x ∈ s \/ x ∈ l.
Proof.
  revert s. induction l as [|y l IH]; intros s; simpl; [set_solver|].
  rewrite IH, elem_of_set_add. set_solver.
Qed.

Lemma elem_of_set_of l x : x ∈ set_of l <-> x ∈ l.
Proof. unfold set_of. rewrite set_of_acc. set_solver. Qed.

Lemma NoDup_set_of l : NoDup (set_of l).
Proof.
  unfold set_of. assert (NoDup (@nil A)) as H by constructor. revert H. generalize (@nil A).
  induction l as [|y l IH]; intros s Hs; simpl; [done|]. by apply IH, NoDup_set_add.
Qed.

Lemma set_of_nil l : set_of l = [] <-> l = [].
Proof.
  split; [|by intros ->]. intros H. destruct l as [|x l]; [done|].
  exfalso. apply (not_elem_of_nil x). rewrite <-H. apply elem_of_set_of. left.
Qed.

Lemma set_of_acc_app s l :
  NoDup (s ++ l) -> foldl (fun s x => set_add x s) s l = s ++ l.
Proof.
  revert s. induction l as [|x l IH]; intros s; simpl; [by rewrite app_nil_r|].
  intros HN. unfold set_add. rewrite decide_False.
  - rewrite IH, <-app_assoc; [done|]. by rewrite <-app_assoc.
  - apply NoDup_app in HN as (_ & HN & _). intros Hx. eapply HN; [done|left].
Qed.

Lemma set_of_NoDup l : NoDup l -> set_of l = l.
Proof. apply (set_of_acc_app []). Qed.

(** [new Set(l).size === l.length] tests for duplicates. *)
Lemma set_of_length l : length (set_of l) = length l <-> NoDup l.
Proof.
  split; [|intros; by rewrite set_of_NoDup].
  intros HL. assert (set_of l ≡ₚ l) as <-; [|apply NoDup_set_of].
  apply submseteq_length_Permutation; [|by rewrite HL].
  apply NoDup_submseteq; [apply NoDup_set_of|]. intros x. by rewrite elem_of_set_of.
Qed.
End js_set_lemmas.

Section js_map_lemmas.
Context {K V : Type} `{EqDecision K}.
Implicit Types (m : list (K * V)).

Lemma map_get_set k v m k' :
  map_get k' (map_set k v m) = if decide (k' = k) then Some v else map_get k' m.
Proof.
  induction m as [|[k0 v0] m IH]; simpl; [done|].
  repeat (case_decide; simplify_eq/=; try done).
Qed.

Lemma map_get_elem k v m : NoDup m.*1 -> (k, v) ∈ m <-> map_get k m = Some v.
Proof.
  induction m as [|[k0 v0] m IH]; simpl; [set_solver|].
  rewrite NoDup_cons. intros [Hk Hm]. rewrite elem_of_cons.
  case_decide as E; [subst|rewrite <-IH by done; set_solver].
  split; [|by intros [= ->]; left]. intros [[= ->]|Hin]; [done|].
  exfalso. apply Hk. apply list_elem_of_fmap. by exists (k0, v).
Qed.

Lemma map_get_elem_of k v m : map_get k m = Some v -> (k, v) ∈ m.
Proof.
  induction m as [|[k0 v0] m IH]; simpl; [done|].
  case_decide; simplify_eq/=; [intros [= ->]; left | intros; right; auto].
Qed.

Lemma map_get_None k m : map_get k m = None <-> k ∉ m.*1.
Proof.
  induction m as [|[k0 v0] m IH]; simpl; [set_solver|].
  case_decide; simplify_eq/=; set_solver.
Qed.

Lemma map_set_keys k v m : (map_set k v m).*1 = set_add k m.*1.
Proof.
  induction m as [|[k0 v0] m IH]; csimpl; [done|]. unfold set_add in *.
  destruct (decide (k = k0)) as [->|E]; csimpl.
  - rewrite decide_True; [done|left].
  - rewrite IH. case_decide as F.
    + rewrite decide_True; [done|by right].
    + rewrite decide_False; [done|]. by intros [->|?]%elem_of_cons.
Qed.

Lemma NoDup_map_set k v m : NoDup m.*1 -> NoDup (map_set k v m).*1.
Proof. rewrite map_set_keys. apply NoDup_set_add. Qed.

Lemma NoDup_map_of l : NoDup (map_of (K:=K) (V:=V) l).*1.
Proof.
  unfold map_of. assert (NoDup (@nil (K * V)).*1) as H by constructor. revert H.
  generalize (@nil (K * V)). induction l as [|y l IH]; intros s Hs; simpl; [done|].
  by apply IH, NoDup_map_set.
Qed.

Lemma map_of_acc l m k :
  map_get k (foldl (fun m kv => map_set kv.1 kv.2 m) m l) =
    match map_get k (reverse l) with Some v => Some v | None => map_get k m end.
Proof.
  revert m. induction l as [|[k0 v0] l IH]; intros m; simpl; [done|].
  rewrite IH, map_get_set, reverse_cons. clear IH.
  induction (reverse l) as [|[k1 v1] r IHr]; simpl.
  - by destruct (decide (k = k0)).
  - by destruct (decide (k = k1)).
Qed.

Lemma map_get_of l k : map_get k (map_of (K:=K) (V:=V) l) = map_get k (reverse l).
Proof. unfold map_of. rewrite map_of_acc. by destruct (map_get k (reverse l)). Qed.

Lemma map_get_of_elem l k v : map_get k (map_of (K:=K) (V:=V) l) = Some v -> (k, v) ∈ l.
Proof. rewrite map_get_of. intros ?%map_get_elem_of. by apply elem_of_reverse. Qed.

Lemma map_get_of_None l k : map_get k (map_of (K:=K) (V:=V) l) = None <-> k ∉ l.*1.
Proof.
  rewrite map_get_of, map_get_None.
  assert ((reverse l).*1 = reverse l.*1) as -> by (by rewrite fmap_reverse).
  by rewrite elem_of_reverse.
Qed.
End js_map_lemmas.
