(* ===== verification/JsRegex.v ===== *)
(** * Regular expressions of the sources

    A backtracking matcher in the style of the ECMAScript semantics: ordered
    alternatives, greedy and lazy stars, numbered captures, an end anchor.  All
    the expressions the sources use start with [^], so a match is a match of a
    prefix, and [$] ends it.  [matches] is the declarative reading; [run_sound]
    and [run_complete] relate the two, whatever the matching priorities are. *)
From S2P Require Import Prelude JsBase.
From Stdlib Require Import Ascii.
From Stdlib Require String.
Open Scope list_scope.

Inductive re : Type :=
| Eps
| Chr (p : ascii -> bool)
| Cat (r1 r2 : re)
| Alt (r1 r2 : re)
| Star (greedy : bool) (r : re)
| Grp (n : nat) (r : re)
| Eol.

Abbreviation caps := (list (nat * list ascii)).

(** The matcher, in continuation-passing style.  A star iterates at most as
    many times as there are characters left, since an iteration that consumes
    nothing is rejected. *)
Section star.
Context {A : Type} (g : bool).
Context (body : list ascii -> caps -> (list ascii -> caps -> option A) -> option A).
Context (k : list ascii -> caps -> option A).

Fixpoint star (n : nat) (s : list ascii) (c : caps) : option A :=
  let again :=
    match n with
    | O => None
    | S n' => body s c (fun s' c' =>
        if (length s' <? length s)%nat then star n' s' c' else None)
    end in
  if g then match again with Some x => Some x | None => k s c end
  else match k s c with Some x => Some x | None => again end.
End star.

Fixpoint run {A} (r : re) (s : list ascii) (c : caps)
    (k : list ascii -> caps -> option A) : option A :=
  match r with
  | Eps => k s c
  | Chr p =>
      match s with
      | [] => None
      | a :: s' => if p a then k s' c else None
      end
  | Cat r1 r2 => run r1 s c (fun s' c' => run r2 s' c' k)
  | Alt r1 r2 =>
      match run r1 s c k with
      | Some x => Some x
      | None => run r2 s c k
      end
  | Star g r => star g (fun s c k => run r s c k) k (length s) s c
  | Grp n r =>
      run r s c (fun s' c' => k s' ((n, take (length s - length s') s) :: c'))
  | Eol => match s with [] => k s c | _ => None end
  end.

(** [re.exec(s)]: the captures of the match, [None] when there is none. *)
Definition exec (r : re) (s : string) : option caps :=
  run r (String.list_ascii_of_string s) [] (fun _ c => Some c).

(** [re.test(s)] *)
Definition test (r : re) (s : string) : bool :=
  match exec r s with Some _ => true | None => false end.

Definition capture (n : nat) (c : caps) : option string :=
  String.string_of_list_ascii <$> map_get n c.

(** ** Building blocks *)

Definition Plus (r : re) : re := Cat r (Star true r).
Definition Opt (r : re) : re := Alt r Eps.
Definition Any : re := Chr (fun a => negb (Ascii.eqb a "010"%char || Ascii.eqb a "013"%char)).

(** A literal, and a literal under the [i] flag. *)
Fixpoint lit_with (eq : ascii -> ascii -> bool) (s : string) : re :=
  match s with
  | EmptyString => Eps
  | String a s' => Cat (Chr (eq a)) (lit_with eq s')
  end.
Definition lit : string -> re := lit_with Ascii.eqb.
Definition ci_eqb (a b : ascii) : bool := Ascii.eqb (ascii_lower a) (ascii_lower b).
Definition lit_ci : string -> re := lit_with ci_eqb.

Definition WhiteSpace : re := Chr is_space.
Definition Digit : re := Chr is_digit.
Definition is_word_start (a : ascii) : bool := is_alpha a || Ascii.eqb a "_"%char.
Definition is_word (a : ascii) : bool := is_word_start a || is_digit a.

(** ** The declarative reading *)

(** [matches r s rest c c']: [r] matches [s] when [rest] follows, taking the
    captures [c] to [c']. *)
Inductive matches : re -> list ascii -> list ascii -> caps -> caps -> Prop :=
| m_eps rest c : matches Eps [] rest c c
| m_chr p a rest c : p a = true -> matches (Chr p) [a] rest c c
| m_cat r1 r2 s1 s2 rest c c1 c2 :
    matches r1 s1 (s2 ++ rest) c c1 -> matches r2 s2 rest c1 c2 ->
    matches (Cat r1 r2) (s1 ++ s2) rest c c2
| m_alt_l r1 r2 s rest c c' : matches r1 s rest c c' -> matches (Alt r1 r2) s rest c c'
| m_alt_r r1 r2 s rest c c' : matches r2 s rest c c' -> matches (Alt r1 r2) s rest c c'
| m_star_nil g r rest c : matches (Star g r) [] rest c c
| m_star_cons g r s1 s2 rest c c1 c2 :
    s1 <> [] -> matches r s1 (s2 ++ rest) c c1 -> matches (Star g r) s2 rest c1 c2 ->
    matches (Star g r) (s1 ++ s2) rest c c2
| m_grp n r s rest c c' : matches r s rest c c' -> matches (Grp n r) s rest c ((n, s) :: c')
| m_eol c : matches Eol [] [] c c.

Create HintDb regex discriminated.
#[export] Hint Constructors matches : regex.

(** ** Soundness *)

Lemma take_prefix {A} (s1 s2 : list A) : take (length (s1 ++ s2) - length s2) (s1 ++ s2) = s1.
Proof. rewrite length_app, Nat.add_sub. apply take_app_length. Qed.

Lemma run_sound {A} r s c (k : list ascii -> caps -> option A) x :
  run r s c k = Some x ->
  exists s1 s2 c', s = s1 ++ s2 /\ matches r s1 s2 c c' /\ k s2 c' = Some x.
Proof.
  revert A s c k x. induction r as [|p|r1 IH1 r2 IH2|r1 IH1 r2 IH2|g r IH|n r IH|];
    intros A s c k x; simpl.
  - exists [], s, c. eauto with regex.
  - destruct s as [|a s']; [done|]. case_match; [|done]. exists [a], s', c. eauto with regex.
  - intros (s1 & s2 & c1 & -> & H1 & (s3 & s4 & c2 & -> & H2 & Hk)%IH2)%IH1.
    exists (s1 ++ s3), s4, c2. rewrite <-app_assoc. eauto with regex.
  - case_match eqn:E.
    + intros [= ->]. apply IH1 in E as (s1 & s2 & c1 & -> & H1 & Hk). eauto 10 with regex.
    + intros (s1 & s2 & c1 & -> & H1 & Hk)%IH2. eauto 10 with regex.
  - generalize (length s) at 1. intros n. revert s c. induction n as [|n IHn]; intros s c H.
    + assert (k s c = Some x) as Hk by (simpl in H; by destruct g, (k s c)).
      exists [], s, c. eauto with regex.
    + simpl in H. match type of H with context [run r s c ?f] =>
        assert (run r s c f = Some x \/ k s c = Some x) as [E|E] end.
      { clear -H. repeat case_match; naive_solver. }
      * apply IH in E as (s1 & s2 & c1 & -> & H1 & Hk). case_match eqn:L; [|done].
        apply Nat.ltb_lt in L. apply IHn in Hk as (s3 & s4 & c2 & -> & H2 & Hk).
        exists (s1 ++ s3), s4, c2. rewrite <-app_assoc. split; [done|]. split; [|done].
        econstructor; [|done|done]. intros ->. simpl in L. lia.
      * exists [], s, c. eauto with regex.
  - intros (s1 & s2 & c1 & -> & H1 & Hk)%IH. rewrite take_prefix in Hk. eauto 10 with regex.
  - destruct s; [|done]. exists [], [], c. eauto with regex.
Qed.

(** ** Completeness *)

Lemma star_stop {A} g body (k : list ascii -> caps -> option A) n s c :
  k s c <> None -> star g body k n s c <> None.
Proof. destruct n, g; simpl; repeat case_match; naive_solver. Qed.

Lemma star_again {A} g body (k : list ascii -> caps -> option A) n s c :
  body s c (fun s' c' => if (length s' <? length s)%nat then star g body k n s' c' else None) <> None ->
  star g body k (S n) s c <> None.
Proof. simpl. destruct g; repeat case_match; naive_solver. Qed.

(** The two parts are proved together: [run] on any expression, and [star] with
    any number of iterations that covers the characters left. *)
Lemma run_star_complete r s rest c c' :
  matches r s rest c c' ->
  (forall A (k : list ascii -> caps -> option A),
    k rest c' <> None -> run r (s ++ rest) c k <> None) /\
  (forall g r0, r = Star g r0 -> forall A (k : list ascii -> caps -> option A) n,
    (length (s ++ rest) <= n)%nat -> k rest c' <> None ->
    star g (fun s c k => run r0 s c k) k n (s ++ rest) c <> None).
Proof.
  induction 1 as
    [|? ? ? ? Hp|r1 r2 s1 s2 rest c c1 c2 H1 IH1 H2 IH2|r1 r2 s rest c c' H IH|r1 r2 s rest c c' H IH
    |g r rest c|g r s1 s2 rest c c1 c2 Hne H1 IH1 H2 IH2|n r s rest c c' H IH|];
    (split; [intros A k Hk; simpl|intros g' r' [=]; subst; intros A k m Hm Hk]).
  - done.
  - by rewrite Hp.
  - rewrite <-app_assoc. apply IH1. by apply IH2.
  - pose proof (proj1 IH A k Hk). by destruct (run r1 (s ++ rest) c k).
  - pose proof (proj1 IH A k Hk). by destruct (run r1 (s ++ rest) c k).
  - by apply star_stop.
  - by apply star_stop.
  - destruct s1 as [|a s1]; [done|]. rewrite <-app_assoc. simpl length.
    apply star_again, IH1. rewrite (proj2 (Nat.ltb_lt _ _)) by (simpl; rewrite !length_app; lia).
    eapply IH2; [done| |done]. rewrite !length_app. lia.
  - destruct s1 as [|a s1]; [done|]. rewrite <-app_assoc in *. destruct m as [|m]; [simpl in Hm; lia|].
    apply star_again, IH1. rewrite (proj2 (Nat.ltb_lt _ _)) by (simpl; rewrite !length_app; lia).
    eapply IH2; [done| |done]. simpl in Hm. repeat rewrite length_app in *. lia.
  - apply IH. by rewrite take_prefix.
  - done.
Qed.

Lemma run_complete {A} r s rest c c' (k : list ascii -> caps -> option A) :
  matches r s rest c c' -> k rest c' <> None -> run r (s ++ rest) c k <> None.
Proof. intros H Hk. apply run_star_complete in H as [H _]. by apply H. Qed.

(** ** The two readings agree *)

Lemma exec_Some_matches r s c :
  exec r s = Some c ->
  exists s1 s2, String.list_ascii_of_string s = s1 ++ s2 /\ matches r s1 s2 [] c.
Proof.
  unfold exec. intros (s1 & s2 & c1 & -> & H & [= <-])%run_sound. eauto.
Qed.

Theorem test_iff r s :
  test r s = true <->
  exists s1 s2 c, String.list_ascii_of_string s = s1 ++ s2 /\ matches r s1 s2 [] c.
Proof.
  unfold test. split.
  - case_match eqn:E; [|done]. intros _. apply exec_Some_matches in E as (s1 & s2 & ? & ?). eauto.
  - intros (s1 & s2 & c & Hs & H). apply (run_complete _ _ _ _ _ (fun _ c => Some c)) in H; [|done].
    unfold exec. rewrite Hs. by case_match.
Qed.

(** ** The characters of a match *)

(** Every character the expression can match satisfies [p]. *)
Fixpoint re_within (p : ascii -> bool) (r : re) : Prop :=
  match r with
  | Eps | Eol => True
  | Chr q => forall a, q a = true -> p a = true
  | Cat r1 r2 | Alt r1 r2 => re_within p r1 /\ re_within p r2
  | Star _ r | Grp _ r => re_within p r
  end.

Lemma matches_within p r s rest c c' : re_within p r -> matches r s rest c c' -> forallb p s = true.
Proof.
  intros Hr H. revert Hr. induction H; cbn [re_within]; intros Hr; rewrite ?forallb_app; simpl; naive_solver (eauto using andb_true_intro).
Qed.

(** An expression that ends with [$] matches the whole string. *)
Lemma test_all_within p r s :
  re_within p r -> test (Cat r Eol) s = true -> str_all p s = true.
Proof.
  intros Hr (s1 & s2 & c & Hs & H)%test_iff. unfold str_all. rewrite Hs. inversion_clear H as [| |? ? t1 t2 ? ? ? ? H1 H2| | | | | |].
  inversion H2; subst. rewrite app_nil_r in *. rewrite app_nil_r. by eapply matches_within.
Qed.

(** ** What the building blocks match *)

Lemma matches_Chr_inv p s rest c c' :
  matches (Chr p) s rest c c' -> exists a, s = [a] /\ p a = true /\ c' = c.
Proof. inversion 1; subst. eauto. Qed.

Lemma matches_Cat_inv r1 r2 s rest c c' :
  matches (Cat r1 r2) s rest c c' ->
  exists s1 s2 c1, s = s1 ++ s2 /\ matches r1 s1 (s2 ++ rest) c c1 /\ matches r2 s2 rest c1 c'.
Proof. inversion 1; subst. eauto 10. Qed.

Lemma matches_Eps_inv s rest c c' : matches Eps s rest c c' -> s = [] /\ c' = c.
Proof. by inversion 1; subst. Qed.

Lemma matches_Eol_inv s rest c c' : matches Eol s rest c c' -> s = [] /\ rest = [] /\ c' = c.
Proof. by inversion 1; subst. Qed.

(** A star of a character class is a string over the class. *)
Lemma matches_Star_Chr g p s rest c c' :
  matches (Star g (Chr p)) s rest c c' <-> forallb p s = true /\ c' = c.
Proof.
  split.
  - remember (Star g (Chr p)) as r eqn:Er. induction 1 as
      [| | | | | |g' r s1 s2 rest c c1 c2 Hne H1 _ H2 IH2| |]; try done.
    injection Er as -> ->. apply matches_Chr_inv in H1 as (a & -> & Ha & ->).
    destruct (IH2 eq_refl) as [Hs ->]. simpl. by rewrite Ha.
  - intros [Hs ->]. induction s as [|a s IH]; [constructor|]. simpl in Hs.
    apply andb_prop in Hs as [Ha Hs]. apply (m_star_cons g (Chr p) [a] s rest c c c); [done| |auto].
    by constructor.
Qed.

Lemma matches_Alt_inv r1 r2 s rest c c' :
  matches (Alt r1 r2) s rest c c' -> matches r1 s rest c c' \/ matches r2 s rest c c'.
Proof. inversion 1; subst; auto. Qed.

Lemma matches_Grp_inv n r s rest c c' :
  matches (Grp n r) s rest c c' -> exists c1, matches r s rest c c1 /\ c' = (n, s) :: c1.
Proof. inversion 1; subst; eauto. Qed.

(** One or more characters of a class, and a literal. *)
Lemma matches_Plus_Chr p s rest c c' :
  matches (Plus (Chr p)) s rest c c' -> s <> [] /\ forallb p s = true /\ c' = c.
Proof.
  intros (s1 & s2 & c1 & -> & (a & -> & Ha & ->)%matches_Chr_inv & [H ->]%matches_Star_Chr)%matches_Cat_inv.
  cbn. by rewrite Ha, H.
Qed.

Lemma matches_lit w s rest c c' : matches (lit w) s rest c c' -> s = String.list_ascii_of_string w /\ c' = c.
Proof.
  revert s c. induction w as [|a w IH]; intros s c; [apply matches_Eps_inv|].
  intros (s1 & s2 & c1 & -> & (b & -> & <-%Ascii.eqb_eq & ->)%matches_Chr_inv & [-> ->]%IH)%matches_Cat_inv. done.
Qed.

(** ** Searching a text: [matchAll], [match], [split] by a text *)
(** [s.matchAll(re)] for an expression that matches no empty text: at most one
    match starts at each of the [length s] places. *)
Fixpoint match_all (fuel : nat) (r : re) (s : list ascii) : list caps :=
  match fuel with
  | O => []
  | S fuel =>
      match run r s [] (fun rest c => Some (rest, c)) with
      | Some (rest, c) => c :: match_all fuel r rest
      | None => match s with [] => [] | _ :: s' => match_all fuel r s' end
      end
  end.

Definition matchAll (r : re) (s : string) : list caps :=
  match_all (S (String.length s)) r (String.list_ascii_of_string s).

(** [s.match(re)?.[0]]: the first match. *)
Definition first_match (r : re) (s : string) : option string := head (matchAll (Grp 0 r) s) ≫= capture 0.

(** [s.split(pat)] for a pattern that is not empty; [skip]: how many characters of a
    separator are left to drop. *)
Fixpoint split_from (pat : string) (skip : nat) (s : string) : list string :=
  match s with
  | EmptyString => [EmptyString]
  | String a s' =>
      match skip with
      | S k => split_from pat k s'
      | O =>
          if starts_with pat s then EmptyString :: split_from pat (String.length pat - 1) s'
          else match split_from pat 0 s' with [] => [str1 a] | w :: ws => String a w :: ws end
      end
  end.

Definition split_text (pat s : string) : list string := split_from pat 0 s.
