(* ===== verification/JsText.v ===== *)
(** * More of the JavaScript string library

    [replaceAll], [includes], [indexOf], [encodeURIComponent], base64, and the
    greedy match of a character class to the end of the string. *)

From S2P Require Import Prelude JsBase JsRegex.
From Stdlib Require Import Ascii.
From Stdlib Require String.

(** ** [s.replaceAll(pat, rep)] for a pattern that is not empty *)

(** [skip]: how many characters of a match are left to drop. *)
Fixpoint replace_from (pat rep : string) (skip : nat) (s : string) : string :=
  match s with
  | EmptyString => EmptyString
  | String a s' =>
      match skip with
      | S k => replace_from pat rep k s'
      | O =>
          if starts_with pat s then rep +:+ replace_from pat rep (String.length pat - 1) s'
          else String a (replace_from pat rep 0 s')
      end
  end.

Definition replace_all (pat rep s : string) : string := replace_from pat rep 0 s.

(** ** [hay.includes(needle)], [/needle/i.test(hay)] *)

Fixpoint includes (needle hay : string) : bool :=
  starts_with needle hay ||
  match hay with EmptyString => false | String _ hay' => includes needle hay' end.

Definition includes_ci (needle hay : string) : bool := includes (to_lower needle) (to_lower hay).

(** [s.endsWith(c)] for one character. *)
Fixpoint ends_with (c : ascii) (s : string) : bool :=
  match s with
  | EmptyString => false
  | String a EmptyString => Ascii.eqb a c
  | String _ s' => ends_with c s'
  end.

(** ** [encodeURIComponent] *)

Definition uri_unreserved (a : ascii) : bool :=
  is_alpha a || is_digit a || str_has a "-_.!~*'()".

Definition hex_upper (n : N) : ascii := ascii_of_N (if (n <? 10)%N then 48 + n else 55 + n).

Definition percent (a : ascii) : string :=
  let n := N_of_ascii a in "%" +:+ str1 (hex_upper (n / 16)) +:+ str1 (hex_upper (n mod 16)).

Definition encodeURIComponent (s : string) : string :=
  str_map (fun a => if uri_unreserved a then str1 a else percent a) s.

(** ** base64 *)

Definition b64_alphabet : string := "ABCDEFGHIJKLMNOPQRSTUVWXYZabcdefghijklmnopqrstuvwxyz0123456789+/".

Definition b64_char (n : N) : string :=
  match String.get (N.to_nat n) b64_alphabet with Some a => str1 a | None => EmptyString end.

(** The value of a digit; [-] and [_] are the URL-safe [+] and [/]. *)
Definition b64_value (a : ascii) : option N :=
  let n := N_of_ascii a in
  if between 65 90 a then Some (n - 65)%N
  else if between 97 122 a then Some (n - 71)%N
  else if is_digit a then Some (n + 4)%N
  else if Ascii.eqb a "+" || Ascii.eqb a "-" then Some 62%N
  else if Ascii.eqb a "/" || Ascii.eqb a "_" then Some 63%N
  else None.

(** Three bytes are four digits. *)
Fixpoint b64_encode (l : list N) : string :=
  match l with
  | [] => EmptyString
  | [x] => b64_char (x / 4) +:+ b64_char (x mod 4 * 16) +:+ "=="
  | [x; y] => b64_char (x / 4) +:+ b64_char (x mod 4 * 16 + y / 16) +:+ b64_char (y mod 16 * 4) +:+ "="
  | x :: y :: z :: l' =>
      b64_char (x / 4) +:+ b64_char (x mod 4 * 16 + y / 16) +:+ b64_char (y mod 16 * 4 + z / 64) +:+
      b64_char (z mod 64) +:+ b64_encode l'
  end.

(** Four digits are three bytes; digits that do not fill a byte are dropped. *)
Fixpoint b64_bytes (l : list N) : list N :=
  match l with
  | a :: b :: c :: d :: l' =>
      ((a * 4 + b / 16) :: (b mod 16 * 16 + c / 4) :: (c mod 4 * 64 + d) :: b64_bytes l')%N
  | [a; b; c] => [a * 4 + b / 16; b mod 16 * 16 + c / 4]%N
  | [a; b] => [a * 4 + b / 16]%N
  | _ => []
  end.

Definition bytes_of (s : string) : list N := map N_of_ascii (String.list_ascii_of_string s).
Definition of_bytes (l : list N) : string := String.string_of_list_ascii (map ascii_of_N l).

(** [Buffer.from(s, "utf8").toString("base64")], [Buffer.from(s, "base64").toString("utf8")]:
    a string is its bytes; characters that are no digits are skipped. *)
Definition to_base64 (s : string) : string := b64_encode (bytes_of s).
Definition from_base64 (s : string) : string :=
  of_bytes (b64_bytes (omap b64_value (String.list_ascii_of_string s))).

(** ** Lemmas: [split] and [join] *)

Lemma str_has_app c s t : str_has c (s +:+ t) = str_has c s || str_has c t.
Proof. induction s as [|a s IH]; [done|]. rewrite str_app_cons. cbn [str_has]. by rewrite IH, orb_assoc. Qed.

Lemma split_one c s : str_has c s = false -> split_char c s = [s].
Proof.
  induction s as [|a s IH]; [done|]. cbn [str_has split_char]. intros [-> H]%orb_false_iff. by rewrite IH.
Qed.

Lemma split_app c s t : str_has c s = false -> split_char c (s +:+ String c t) = s :: split_char c t.
Proof.
  induction s as [|a s IH].
  - intros _. rewrite str_app_nil_l. cbn [split_char]. by rewrite Ascii.eqb_refl.
  - cbn [str_has]. intros [Ha H]%orb_false_iff. rewrite str_app_cons. cbn [split_char]. by rewrite Ha, IH.
Qed.

Lemma split_join c l :
  l <> [] -> (forall s, s ∈ l -> str_has c s = false) -> split_char c (join (str1 c) l) = l.
Proof.
  intros Hne Hl. induction l as [|s l IH]; [done|]. destruct l as [|t l].
  - apply split_one, Hl. left.
  - change (join (str1 c) (s :: t :: l)) with (s +:+ str1 c +:+ join (str1 c) (t :: l)).
    unfold str1 at 1. rewrite str_app_cons, str_app_nil_l, split_app by (apply Hl; left).
    f_equal. apply IH; [done|]. intros u Hu. apply Hl. by right.
Qed.

Lemma split_pieces c s t : t ∈ split_char c s -> str_has c t = false.
Proof.
  revert t. induction s as [|a s IH]; intros t; cbn [split_char].
  - intros ->%list_elem_of_singleton. done.
  - destruct (Ascii.eqb a c) eqn:Ea.
    + intros [->|Ht]%elem_of_cons; [done|auto].
    + destruct (split_char c s) as [|w ws].
      * intros ->%list_elem_of_singleton. cbn [str_has]. by rewrite Ea.
      * intros [->|Ht]%elem_of_cons; [|apply IH; by right].
        cbn [str_has]. rewrite Ea. apply IH. left.
Qed.

Lemma split_nonempty c s : split_char c s <> [].
Proof.
  destruct s as [|a s]; cbn [split_char]; [done|]. destruct (Ascii.eqb a c); [done|].
  by destruct (split_char c s).
Qed.

Lemma join_split_char c s : join (str1 c) (split_char c s) = s.
Proof.
  induction s as [|a s IH]; [done|]. cbn [split_char]. destruct (Ascii.eqb a c) eqn:Ea.
  - apply Ascii.eqb_eq in Ea as ->. pose proof (split_nonempty c s). destruct (split_char c s) as [|w ws]; [done|].
    change (join (str1 c) (EmptyString :: w :: ws)) with (EmptyString +:+ str1 c +:+ join (str1 c) (w :: ws)).
    by rewrite IH, str_app_nil_l.
  - pose proof (split_nonempty c s). destruct (split_char c s) as [|w ws]; [done|].
    destruct ws as [|w' ws]; [cbn [join] in *; by rewrite IH|].
    rewrite <-IH. reflexivity.
Qed.

(** ** Lemmas: a character class up to the end *)

Lemma star_chr_all {A} (p : ascii -> bool) (k : list ascii -> caps -> option A) s c x n :
  forallb p s = true -> (length s <= n)%nat -> k [] c = Some x ->
  star true (fun s c k => run (Chr p) s c k) k n s c = Some x.
Proof.
  revert n. induction s as [|a s IH]; intros n Hs Hn Hk.
  - destruct n; simpl; by rewrite ?Hk.
  - destruct n as [|n]; simpl in Hn; [lia|]. simpl in Hs. apply andb_true_iff in Hs as [Ha Hs].
    change (match run (Chr p) (a :: s) c (fun s' c' =>
        if (length s' <? length (a :: s))%nat then star true (fun s c k => run (Chr p) s c k) k n s' c' else None)
      with Some y => Some y | None => k (a :: s) c end = Some x).
    cbn [run]. rewrite Ha. rewrite (proj2 (Nat.ltb_lt _ _)) by (simpl; lia). rewrite IH; [done|done|lia|done].
Qed.

(** ** Lemmas: base64 *)

Lemma b64_char_value n : (n < 64)%N -> exists a, b64_char n = str1 a /\ b64_value a = Some n.
Proof.
  intros Hn. rewrite <-(N2Nat.id n). set (m := N.to_nat n).
  assert (m < 64)%nat as Hm by (unfold m; lia). clearbody m. clear n Hn.
  do 64 (destruct m as [|m]; [eexists; split; reflexivity|]). lia.
Qed.

Lemma three_bytes (l : list N) (P : list N -> Prop) :
  P [] -> (forall x, P [x]) -> (forall x y, P [x; y]) -> (forall x y z l, P l -> P (x :: y :: z :: l)) -> P l.
Proof.
  intros H0 H1 H2 H3. enough (forall n l, (length l <= n)%nat -> P l) by eauto.
  clear l. induction n as [|n IH]; intros l Hl; [destruct l; [done|simpl in Hl; lia]|].
  destruct l as [|x [|y [|z l]]]; [done..|]. apply H3, IH. simpl in Hl. lia.
Qed.

Definition digits (s : string) : list N := omap b64_value (String.list_ascii_of_string s).

Lemma digits_app s t : digits (s +:+ t) = digits s ++ digits t.
Proof. unfold digits. rewrite str_ascii_app. apply omap_app. Qed.

Lemma digits_char n : (n < 64)%N -> digits (b64_char n) = [n].
Proof. intros (a & -> & H)%b64_char_value. unfold digits. simpl. by rewrite H. Qed.

Ltac divmod := zify; Z.to_euclidean_division_equations; lia.

Lemma b64_roundtrip l : Forall (fun n => (n < 256)%N) l -> b64_bytes (digits (b64_encode l)) = l.
Proof.
  pattern l. apply three_bytes; clear l; cbn [b64_encode].
  - done.
  - intros x Hx. decompose_Forall. rewrite !digits_app, !digits_char by divmod. simpl.
    f_equal. divmod.
  - intros x y Hx. decompose_Forall. rewrite !digits_app, !digits_char by divmod. simpl.
    f_equal; [|f_equal]; divmod.
  - intros x y z l IH Hx. decompose_Forall. rewrite !digits_app, !digits_char by divmod.
    cbn [app b64_bytes]. rewrite IH by done. f_equal; [|f_equal; [|f_equal]]; divmod.
Qed.

Lemma bytes_roundtrip s : of_bytes (bytes_of s) = s.
Proof.
  unfold of_bytes, bytes_of. rewrite map_map, (map_ext _ id), map_id.
  - apply String.string_of_list_ascii_of_string.
  - apply ascii_N_embedding.
Qed.

Lemma base64_roundtrip s : from_base64 (to_base64 s) = s.
Proof.
  unfold from_base64, to_base64. rewrite <-(bytes_roundtrip s) at 2. f_equal.
  apply b64_roundtrip. unfold bytes_of. apply Forall_fmap, Forall_true. intros a. apply N_ascii_bounded.
Qed.

(** ** Lemmas: [replaceAll] *)

Lemma prefix_nil s : String.prefix EmptyString s = true.
Proof. by destruct s. Qed.

Lemma prefix_app p s : String.prefix p (p +:+ s) = true.
Proof.
  induction p as [|a p IH]; [apply prefix_nil|]. rewrite str_app_cons. cbn [String.prefix].
  by destruct (ascii_dec a a).
Qed.

Lemma starts_with_app p s : starts_with p (p +:+ s) = true.
Proof. apply prefix_app. Qed.

Lemma length_text s t : String.length (s +:+ t) = (String.length s + String.length t)%nat.
Proof. induction s as [|a s IH]; [by rewrite str_app_nil_l|]. rewrite str_app_cons. cbn. by rewrite IH. Qed.

Lemma str_app_inj (s t u : string) : s +:+ t = s +:+ u -> t = u.
Proof. induction s as [|a s IH]; [done|]. rewrite !str_app_cons. intros [=]. auto. Qed.

Lemma prefix_cons a p b s : String.prefix (String a p) (String b s) = Ascii.eqb a b && String.prefix p s.
Proof.
  cbn [String.prefix]. destruct (ascii_dec a b) as [<-|H]; [by rewrite Ascii.eqb_refl|].
  by rewrite (proj2 (Ascii.eqb_neq a b)).
Qed.

Lemma replace_skip pat rep p s :
  replace_from pat rep (String.length p) (p +:+ s) = replace_from pat rep 0 s.
Proof. induction p as [|a p IH]; [done|]. by rewrite str_app_cons. Qed.

Lemma replace_all_match a pat rep s :
  replace_all (String a pat) rep (String a pat +:+ s) = rep +:+ replace_all (String a pat) rep s.
Proof.
  unfold replace_all. rewrite str_app_cons. cbn [replace_from String.length].
  unfold starts_with. rewrite prefix_cons, Ascii.eqb_refl, prefix_app, Nat.sub_succ, Nat.sub_0_r. cbn [andb].
  by rewrite replace_skip.
Qed.

Lemma replace_all_other a pat rep b s :
  b <> a -> replace_all (String a pat) rep (String b s) = String b (replace_all (String a pat) rep s).
Proof.
  intros Hb. unfold replace_all. cbn [replace_from]. unfold starts_with.
  by rewrite prefix_cons, (proj2 (Ascii.eqb_neq a b)).
Qed.

(** A pattern of one character. *)
Lemma replace_all_char c rep s :
  replace_all (str1 c) rep s = str_map (fun a => if Ascii.eqb a c then rep else str1 a) s.
Proof.
  induction s as [|a s IH]; [done|]. cbn [str_map]. rewrite <-IH. destruct (Ascii.eqb a c) eqn:E.
  - apply Ascii.eqb_eq in E as ->. apply (replace_all_match c EmptyString).
  - apply Ascii.eqb_neq in E. by apply replace_all_other.
Qed.
