(* ===== verification/Uri.v ===== *)
(** * Components of a URL path

    What [encodeURIComponent] puts into a path is one segment of it, no dot segment
    unless the text is one, and decodes to the text. *)

From S2P Require Import Prelude JsBase JsText.
From Stdlib Require Import Ascii.
From Stdlib Require String.

Definition hex_value (a : ascii) : option N :=
  let n := N_of_ascii a in
  if between 48 57 a then Some (n - 48)%N
  else if between 65 70 a then Some (n - 55)%N
  else if between 97 102 a then Some (n - 87)%N
  else None.

(** [decodeURIComponent], on bytes; [None]: it throws. *)
Fixpoint decodeURIComponent (s : string) : option string :=
  match s with
  | EmptyString => Some EmptyString
  | String a s' =>
      if Ascii.eqb a "%" then
        match s' with
        | String x (String y s'') =>
            h ← hex_value x; l ← hex_value y; String (ascii_of_N (16 * h + l)) <$> decodeURIComponent s''
        | _ => None
        end
      else String a <$> decodeURIComponent s'
  end.

(** The segments a URL parser takes for [.] and [..]. *)
Definition dot_segment (s : string) : bool :=
  bool_decide (to_lower s ∈ ["."; "%2e"; ".."; ".%2e"; "%2e."; "%2e%2e"]).

Definition encode_uri_char (a : ascii) : string := if uri_unreserved a then str1 a else percent a.

(** A fact about every byte, by looking at all of them. *)
Definition all_bytes (p : ascii -> bool) : bool := forallb p (map (fun n => ascii_of_N (N.of_nat n)) (seq 0 256)).

Lemma all_bytes_spec p a : all_bytes p = true -> p a = true.
Proof.
  intros H. apply (proj1 (forallb_forall _ _) H). apply in_map_iff. exists (N.to_nat (N_of_ascii a)).
  rewrite N2Nat.id, ascii_N_embedding. split; [done|]. apply in_seq. pose proof (N_ascii_bounded a). lia.
Qed.

(** The code of a byte is read back as the byte. *)
Definition char_back (a : ascii) : bool :=
  match encode_uri_char a with
  | String x (String y (String z EmptyString)) =>
      Ascii.eqb x "%" && bool_decide ((h ← hex_value y; l ← hex_value z; Some (ascii_of_N (16 * h + l))) = Some a)
  | String x EmptyString => negb (Ascii.eqb x "%") && Ascii.eqb x a
  | _ => false
  end.

Lemma decode_encoded_char a s :
  decodeURIComponent (encode_uri_char a +:+ s) = String a <$> decodeURIComponent s.
Proof.
  pose proof (all_bytes_spec char_back a ltac:(by vm_compute)) as H. unfold char_back in H.
  destruct (encode_uri_char a) as [|x [|y [|z []]]]; try done; rewrite !str_app_cons, str_app_nil_l; cbn [decodeURIComponent].
  - apply andb_true_iff in H as [->%negb_true_iff ->%Ascii.eqb_eq]. done.
  - apply andb_true_iff in H as [-> H%bool_decide_eq_true]. destruct (hex_value y) as [h|]; [|done]. cbn in H |- *.
    destruct (hex_value z) as [l|]; [|done]. cbn in H |- *. by injection H as ->.
Qed.

Lemma encode_uri_map s : encodeURIComponent s = str_map encode_uri_char s.
Proof. done. Qed.

Lemma decode_encodeURIComponent s : decodeURIComponent (encodeURIComponent s) = Some s.
Proof.
  rewrite encode_uri_map. induction s as [|a s IH]; [done|]. cbn [str_map]. by rewrite decode_encoded_char, IH.
Qed.

Lemma encoded_has_no c s : all_bytes (fun a => negb (str_has c (encode_uri_char a))) = true -> str_has c (encodeURIComponent s) = false.
Proof.
  intros H. rewrite encode_uri_map. induction s as [|a s IH]; [done|]. cbn [str_map]. rewrite str_has_app, IH, orb_false_r.
  by apply (all_bytes_spec _ a) in H as H%negb_true_iff.
Qed.

Lemma encoded_no_slash s : str_has "/" (encodeURIComponent s) = false.
Proof. apply encoded_has_no. by vm_compute. Qed.

Lemma lower_char a c : ascii_lower a = c -> a = c \/ a = ascii_upper c.
Proof.
  intros <-. pose proof (all_bytes_spec (fun a => Ascii.eqb a (ascii_lower a) || Ascii.eqb a (ascii_upper (ascii_lower a))) a
    ltac:(by vm_compute)) as H. apply orb_true_iff in H as [H%Ascii.eqb_eq|H%Ascii.eqb_eq]; auto.
Qed.

Lemma to_lower_cons a s : to_lower (String a s) = String (ascii_lower a) (to_lower s).
Proof. done. Qed.

(** Every way to write a dot segment decodes to one. *)
Lemma dot_segment_decodes s : dot_segment s = true -> decodeURIComponent s = Some "." \/ decodeURIComponent s = Some "..".
Proof.
  unfold dot_segment. intros H%bool_decide_eq_true. rewrite !elem_of_cons, elem_of_nil in H.
  repeat destruct H as [H|H]; [..|done];
    repeat (destruct s as [|? s]; [done|]; rewrite to_lower_cons in H; injection H as Ha H; apply lower_char in Ha as [-> | ->]);
    (destruct s; [|done]); vm_compute; auto.
Qed.

(** An encoded text is a dot segment only if the text is. *)
Lemma encoded_dot_segment s : dot_segment (encodeURIComponent s) = true -> s = "." \/ s = "..".
Proof. intros H%dot_segment_decodes. rewrite decode_encodeURIComponent in H. by destruct H as [[= ->] | [= ->]]; auto. Qed.

Lemma dot_segment_first a s : Ascii.eqb a "." = false -> Ascii.eqb a "%" = false -> dot_segment (String a s) = false.
Proof.
  intros H1%Ascii.eqb_neq H2%Ascii.eqb_neq. apply bool_decide_eq_false. rewrite to_lower_cons, !elem_of_cons, elem_of_nil.
  intros H. repeat destruct H as [[= Ha _]|H]; [..|done]; apply lower_char in Ha as [-> | ->]; done.
Qed.
