(* ===== verification/JsJson.v ===== *)
(** * JSON values of untyped data ([unknown] in the sources) *)

From S2P Require Import Prelude JsBase.

(** An object keeps its keys in order. *)
#[warnings="-register-all"]
Inductive json :=
| JNull
| JBool (b : bool)
| JNum (n : Z)
| JStr (s : string)
| JArr (l : list json)
| JObj (l : list (string * json)).

(** [field(json, key)] of the sources: [undefined] off objects. *)
Definition field (j : json) (key : string) : option json :=
  match j with JObj l => map_get key l | _ => None end.

Definition ofield (j : option json) (key : string) : option json := j ≫= fun j => field j key.

Definition as_string (j : option json) : option string :=
  match j with Some (JStr s) => Some s | _ => None end.

(** [if (v)] *)
Definition truthy (j : option json) : bool :=
  match j with
  | None | Some JNull | Some (JBool false) | Some (JNum 0) | Some (JStr EmptyString) => false
  | _ => true
  end.

(** [v ?? d] *)
Definition nullish (j : option json) (d : json) : json :=
  match j with None | Some JNull => d | Some v => v end.

Definition as_num (j : option json) : option Z :=
  match j with Some (JNum n) => Some n | _ => None end.

Definition as_array (j : option json) : option (list json) :=
  match j with Some (JArr l) => Some l | _ => None end.

Definition JStrs (l : list string) : json := JArr (map JStr l).

(** [JSON.stringify] without indentation; numbers are integers. *)
Fixpoint json_text (j : json) : string :=
  match j with
  | JNull => "null"
  | JBool true => "true"
  | JBool false => "false"
  | JNum n => pretty n
  | JStr s => json_string s
  | JArr l => "[" +:+ join "," (map json_text l) +:+ "]"
  | JObj l => "{" +:+ join "," (map (fun kv : string * json => json_string kv.1 +:+ ":" +:+ json_text kv.2) l) +:+ "}"
  end.
