(* ===== verification/JsLib.v ===== *)
(** * Parsers of the JavaScript standard library

    [JSON.parse], [Number] and [Date.parse] read texts that come from outside the
    program.  The development is proved for any such functions: no theorem depends
    on how a text is read, only on what is done with the value. *)

From S2P Require Import Prelude JsBase JsJson.

(** A number; the values the sources compute with are integers. *)
Inductive jsnum := NaN | PosInf | NegInf | Fin (z : Z).

Class JsLib := {
  (** [None]: the parser throws *)
  JSON_parse : string -> option json;
  Number : string -> jsnum;
  (** [None]: [NaN] *)
  Date_parse : string -> option Z;
}.

(** [n > m] for an integer [m]. *)
Definition num_gt (n : jsnum) (m : Z) : bool :=
  match n with Fin z => m <? z | PosInf => true | NaN | NegInf => false end.

(** [Number.isFinite(n) && n > 0 ? n : undefined] *)
Definition finite_pos (n : jsnum) : option Z :=
  match n with Fin z => if 0 <? z then Some z else None | _ => None end.

(** [String(v)] of a JSON value. *)
Fixpoint String_of (j : json) : string :=
  match j with
  | JNull => "null"
  | JBool true => "true"
  | JBool false => "false"
  | JNum n => pretty n
  | JStr s => s
  | JArr l => join "," (map (fun x => match x with JNull => EmptyString | _ => String_of x end) l)
  | JObj _ => "[object Object]"
  end.

Definition String_opt (j : option json) : string :=
  match j with Some v => String_of v | None => "undefined" end.

(** The numeric value of a JSON value, and [a >= b]: strings are compared as
    strings, everything else as numbers. *)
Definition to_primitive (j : json) : json :=
  match j with JArr _ | JObj _ => JStr (String_of j) | _ => j end.

Definition to_number `{JsLib} (j : json) : jsnum :=
  match to_primitive j with
  | JNull | JBool false => Fin 0
  | JBool true => Fin 1
  | JNum n => Fin n
  | JStr s => Number s
  | _ => NaN
  end.

Definition num_ge (a b : jsnum) : bool :=
  match a, b with
  | NaN, _ | _, NaN => false
  | PosInf, _ | _, NegInf => true
  | NegInf, _ | _, PosInf => false
  | Fin x, Fin y => y <=? x
  end.

Definition js_ge `{JsLib} (a b : json) : bool :=
  match to_primitive a, to_primitive b with
  | JStr s, JStr t => negb (str_ltb s t)
  | _, _ => num_ge (to_number a) (to_number b)
  end.
