(* ===== verification/Zod.v ===== *)
(** * Parsers of untyped data, as zod schemas make them

    A schema is a function from a JSON value to the typed data, or to nothing. *)

From S2P Require Import Prelude JsBase JsJson.
Open Scope Z_scope.

Definition present1 (s : string) : bool := negb (String.eqb s EmptyString).

Definition is_object (j : json) : option (list (string * json)) := match j with JObj l => Some l | _ => None end.

(** A field that may be missing. *)
Definition opt_field {A} (p : json -> option A) (j : option json) : option (option A) :=
  match j with None => Some None | Some v => Some <$> p v end.

Definition string_of (j : json) : option string := match j with JStr s => Some s | _ => None end.
Definition string_min1 (j : json) : option string := s ← string_of j; if present1 s then Some s else None.
Definition number_of (j : json) : option Z := match j with JNum n => Some n | _ => None end.
Definition int_of (j : json) : option Z := match j with JNum n => if Z.abs n <=? 9007199254740991 then Some n else None | _ => None end.
Definition bool_of (j : json) : option bool := match j with JBool b => Some b | _ => None end.
Definition array_of {A} (p : json -> option A) (j : json) : option (list A) := match j with JArr l => mapM p l | _ => None end.

(** [z.array(p).min(1)] *)
Definition array_min1 {A} (p : json -> option A) (j : json) : option (list A) :=
  l ← array_of p j; match l with [] => None | _ => Some l end.

(** [z.record(z.string(), p)] *)
Definition record_with {A} (p : json -> option A) (j : json) : option (list (string * A)) :=
  l ← is_object j; mapM (fun kv : string * json => a ← p kv.2; Some (kv.1, a)) l.

Definition record_of : json -> option (list (string * string)) := record_with string_of.

(** [z.enum]: the values by their names. *)
Definition enum_of {A} (name : A -> string) (all : list A) (j : json) : option A :=
  s ← string_of j; List.find (fun a => String.eqb (name a) s) all.

(** [z.strictObject]: no other keys. *)
Definition strict (keys : list string) (j : json) : option unit :=
  l ← is_object j; if forallb (fun kv : string * json => bool_decide (kv.1 ∈ keys)) l then Some tt else None.

(** ** Lemmas *)

Lemma string_min1_spec j s : string_min1 j = Some s -> present1 s = true.
Proof. unfold string_min1. intros (s' & _ & H)%bind_Some. case_match; [|done]. by injection H as <-. Qed.

Lemma mapM_forallb {A B} (p : A -> option B) (q : B -> bool) l bs :
  (forall a b, p a = Some b -> q b = true) -> mapM p l = Some bs -> forallb q bs = true.
Proof.
  intros Hp. revert bs. induction l as [|a l IH]; intros bs; [by intros [= <-]|]. cbn.
  intros (b & Hb & (bs' & Hbs & [= <-])%bind_Some)%bind_Some. cbn. rewrite (Hp _ _ Hb). by apply IH.
Qed.

Lemma array_of_forallb {A} (p : json -> option A) (q : A -> bool) j l :
  (forall j a, p j = Some a -> q a = true) -> array_of p j = Some l -> forallb q l = true.
Proof. intros Hp. destruct j; try done. by apply mapM_forallb. Qed.

Lemma array_min1_nonempty {A} (p : json -> option A) j l : array_min1 p j = Some l -> l <> [].
Proof. unfold array_min1. intros (l' & _ & H)%bind_Some. destruct l'; [done|]. by injection H as <-. Qed.

Lemma mapM_keys {A B C} (p : A * B -> option (A * C)) l l' :
  (forall kv kv', p kv = Some kv' -> kv'.1 = kv.1) -> mapM p l = Some l' -> l'.*1 = l.*1.
Proof.
  intros Hp. revert l'. induction l as [|kv l IH]; intros l'; [by intros [= <-]|]. cbn.
  intros (kv' & Hkv & (t & Ht & [= <-])%bind_Some)%bind_Some. cbn. by rewrite (Hp _ _ Hkv), (IH _ Ht).
Qed.

(** The keys of a record are those of the object. *)
Lemma record_with_keys {A} (p : json -> option A) l r : record_with p (JObj l) = Some r -> r.*1 = l.*1.
Proof. intros H. eapply mapM_keys; [|exact H]. by intros kv kv' (a & _ & [= <-])%bind_Some. Qed.
