(* ===== verification/AssetId.v ===== *)
(** * [domain-api/src/lib/{assetId,pagination}.ts]

    Identifiers of data assets: the address of a catalog object, its segments
    percent-encoded and joined with dots, and the parser the live adapter uses to
    turn an identifier back into an address; and the pages of a listing. *)

From S2P Require Import Prelude JsBase JsRegex JsText.
From Stdlib Require Import Ascii.
From Stdlib Require String.

(** ** Identifiers *)

Inductive DataAssetKind := KTable | KTopic | KSchema | KCatalog.

#[export] Instance DataAssetKind_eq_dec : EqDecision DataAssetKind.
Proof. solve_decision. Defined.

Definition kind_name (k : DataAssetKind) : string :=
  match k with KTable => "table" | KTopic => "topic" | KSchema => "schema" | KCatalog => "catalog" end.

Definition encodeIdSegment (segment : string) : string :=
  replace_all "." "%2E" (replace_all "%" "%25" segment).

Definition decodeIdSegment (segment : string) : string :=
  replace_all "%25" "%" (replace_all "%2E" "." segment).

Definition deriveAssetId (kind : DataAssetKind) (segments : list string) : string :=
  "asset-" +:+ kind_name kind +:+ "-" +:+ join "." (map encodeIdSegment segments).

Definition MAX_ASSET_ID_LENGTH : nat := 256.

Definition unsafe_char (a : ascii) : bool :=
  let n := N_of_ascii a in ((n <? 32) || (n =? 127))%N || Ascii.eqb a "/" || Ascii.eqb a (ascii_of_N 92).

Definition isSafeUpstreamSegment (segment : string) : bool :=
  negb (String.eqb segment EmptyString) && negb (String.eqb segment ".") && negb (String.eqb segment "..") &&
  negb (existsb unsafe_char (String.list_ascii_of_string segment)).

Definition ASSET_ID : re :=
  Cat (lit "asset-") (Cat (Grp 1 (Alt (lit "catalog") (Alt (lit "schema") (lit "table"))))
    (Cat (lit "-") (Cat (Grp 2 (Plus Any)) Eol))).

(** [match[1] as "catalog" | "schema" | "table"] *)
Definition kind_of (s : string) : DataAssetKind :=
  if String.eqb s "catalog" then KCatalog else if String.eqb s "schema" then KSchema else KTable.

Definition min_segments (k : DataAssetKind) : nat :=
  match k with KCatalog => 1 | KSchema => 2 | _ => 3 end.

Definition parseAssetId (i : string) : option (DataAssetKind * list string) :=
  if (MAX_ASSET_ID_LENGTH <? String.length i)%nat then None
  else
    match exec ASSET_ID i with
    | None => None
    | Some c =>
        let kind := kind_of (default EmptyString (capture 1 c)) in
        let raw := default EmptyString (capture 2 c) in
        let segments := split_char "." raw in
        if existsb (String.eqb EmptyString) segments then None
        else
          let decoded := map decodeIdSegment segments in
          if negb (forallb isSafeUpstreamSegment decoded) then None
          else if (length segments <? min_segments kind)%nat ||
                  (bool_decide (kind = KCatalog) && negb (length segments =? 1)%nat) then None
          else Some (kind, decoded)
    end.

(** ** Pages *)

(** [items.slice(start, end)] for integers, which may be negative. *)
Definition slice {A} (l : list A) (start stop : Z) : list A :=
  let n := Z.of_nat (length l) in
  let clamp i := Z.to_nat (if i <? 0 then Z.max (n + i) 0 else Z.min i n) in
  take (clamp stop - clamp start) (drop (clamp start) l).

Definition paginate {A} (items : list A) (page pageSize : Z) : list A * nat :=
  let start := (page - 1) * pageSize in
  (slice items start (start + pageSize), length items).

(** ** The encoding of one segment *)

Definition encode_char (a : ascii) : string :=
  if Ascii.eqb a "%" then "%25" else if Ascii.eqb a "." then "%2E" else str1 a.

Lemma encode_str_map s : encodeIdSegment s = str_map encode_char s.
Proof.
  unfold encodeIdSegment. rewrite (replace_all_char "%"), (replace_all_char ".").
  induction s as [|a s IH]; [done|]. cbn [str_map]. rewrite str_map_app, IH. f_equal. unfold encode_char.
  destruct (Ascii.eqb a "%"); [done|]. unfold str1. cbn [str_map]. rewrite str_app_nil_r.
  by destruct (Ascii.eqb a ".").
Qed.

Lemma encode_cons a s : encodeIdSegment (String a s) = encode_char a +:+ encodeIdSegment s.
Proof. by rewrite !encode_str_map. Qed.

Lemma encoded_no_dot s : str_has "." (encodeIdSegment s) = false.
Proof.
  induction s as [|a s IH]; [done|]. rewrite encode_cons, str_has_app, IH, orb_false_r. unfold encode_char.
  destruct (Ascii.eqb a "%"); [done|]. destruct (Ascii.eqb a ".") eqn:E; [done|].
  unfold str1. cbn [str_has]. by rewrite E.
Qed.

Lemma percent_cons a s :
  replace_all "%" "%25" (String a s) =
    (if Ascii.eqb a "%" then "%25" else str1 a) +:+ replace_all "%" "%25" s.
Proof. by rewrite !(replace_all_char "%"). Qed.

(** What the first replacement of the decoder makes of an encoded segment: the
    dots are back, the percent signs are still encoded. *)
Lemma decode_dots s : replace_all "%2E" "." (encodeIdSegment s) = replace_all "%" "%25" s.
Proof.
  induction s as [|a s IH]; [done|]. rewrite encode_cons, percent_cons, <-IH. unfold encode_char.
  destruct (Ascii.eqb a "%") eqn:Ep; [|destruct (Ascii.eqb a ".") eqn:Ed].
  - change ("%25" +:+ encodeIdSegment s) with (String "%" (String "2" (String "5" (encodeIdSegment s)))).
    unfold replace_all at 1. cbn [replace_from]. unfold starts_with. rewrite !prefix_cons. cbn [Ascii.eqb andb Bool.eqb].
    change (String "%" (replace_all "%2E" "." (String "2" (String "5" (encodeIdSegment s)))) =
      "%25" +:+ replace_all "%2E" "." (encodeIdSegment s)).
    by rewrite !replace_all_other.
  - apply Ascii.eqb_eq in Ed as ->. apply (replace_all_match "%" "2E").
  - apply Ascii.eqb_neq in Ep. by apply replace_all_other.
Qed.

Lemma decode_percents s : replace_all "%25" "%" (replace_all "%" "%25" s) = s.
Proof.
  induction s as [|a s IH]; [done|]. rewrite percent_cons.
  destruct (Ascii.eqb a "%") eqn:Ep.
  - apply Ascii.eqb_eq in Ep as ->. etrans; [apply (replace_all_match "%" "25")|]. by rewrite IH.
  - apply Ascii.eqb_neq in Ep. change (replace_all "%25" "%" (String a (replace_all "%" "%25" s)) = String a s).
    rewrite replace_all_other by done. by rewrite IH.
Qed.

Lemma decode_encode s : decodeIdSegment (encodeIdSegment s) = s.
Proof. unfold decodeIdSegment. by rewrite decode_dots, decode_percents. Qed.

Lemma encode_nil s : encodeIdSegment s = EmptyString -> s = EmptyString.
Proof. intros H. by rewrite <-(decode_encode s), H. Qed.

(** ** The text of an identifier *)

Definition plain (a : ascii) : bool := negb (Ascii.eqb a "010" || Ascii.eqb a "013").

Lemma encoded_plain s :
  forallb plain (String.list_ascii_of_string s) = true ->
  forallb plain (String.list_ascii_of_string (encodeIdSegment s)) = true.
Proof.
  induction s as [|a s IH]; [done|]. rewrite encode_cons, str_ascii_app, forallb_app. simpl.
  intros [Ha Hs]%andb_true_iff. rewrite IH, andb_true_r by done.
  unfold encode_char. destruct (Ascii.eqb a "%"); [done|]. destruct (Ascii.eqb a "."); [done|]. simpl. by rewrite Ha.
Qed.

Lemma safe_plain s : isSafeUpstreamSegment s = true -> forallb plain (String.list_ascii_of_string s) = true.
Proof.
  unfold isSafeUpstreamSegment. intros [_ H]%andb_true_iff. apply negb_true_iff in H.
  apply forallb_forall. intros a Ha. unfold plain. apply negb_true_iff, orb_false_iff.
  assert (unsafe_char a = false) as Hu.
  { destruct (unsafe_char a) eqn:E; [|done]. rewrite <-H. symmetry. apply existsb_exists. eauto. }
  split; apply Ascii.eqb_neq; intros ->; vm_compute in Hu; done.
Qed.

Lemma safe_nonempty s : isSafeUpstreamSegment s = true -> s <> EmptyString.
Proof. by intros H ->. Qed.

Lemma join_plain l :
  (forall s, s ∈ l -> forallb plain (String.list_ascii_of_string s) = true) ->
  forallb plain (String.list_ascii_of_string (join "." l)) = true.
Proof.
  induction l as [|s l IH]; intros H; [done|]. destruct l as [|t l]; [apply H; left|].
  change (join "." (s :: t :: l)) with (s +:+ "." +:+ join "." (t :: l)).
  rewrite !str_ascii_app, !forallb_app. rewrite (H s) by left. rewrite IH; [done|].
  intros u Hu. apply H. by right.
Qed.

(** The regular expression on the text of an identifier. *)
Lemma exec_asset_id k raw :
  k <> KTopic -> raw <> EmptyString -> forallb plain (String.list_ascii_of_string raw) = true ->
  exists c, exec ASSET_ID ("asset-" +:+ kind_name k +:+ "-" +:+ raw) = Some c /\
    capture 1 c = Some (kind_name k) /\ capture 2 c = Some raw.
Proof.
  intros Hk Hr Hp. unfold exec. rewrite !str_ascii_app. unfold ASSET_ID.
  set (body := String.list_ascii_of_string raw) in *.
  assert (Hstar : forall c (kk : list ascii -> caps -> option caps) x, kk [] c = Some x ->
    run (Plus Any) body c kk = Some x).
  { intros c kk x Hx. unfold Plus. cbn [run].
    destruct raw as [|a raw]; [done|]. subst body. cbn [String.list_ascii_of_string forallb] in *.
    apply andb_true_iff in Hp as [Ha Hp]. unfold Any. cbn [run]. unfold plain in Ha. rewrite Ha.
    by apply (star_chr_all (fun a => negb (Ascii.eqb a "010" || Ascii.eqb a "013"))). }
  assert (Hcap : String.string_of_list_ascii body = raw) by apply String.string_of_list_ascii_of_string.
  destruct k; [|done|..]; cbn -[Plus run body]; repeat (progress cbn [run lit lit_with] || cbn -[run Plus body]);
    match goal with |- context [run (Plus Any) body ?c ?k] => rewrite (Hstar c k _ eq_refl) end;
    (eexists; split; [reflexivity|]); unfold capture; cbn -[body take Nat.sub];
    match goal with |- context [take (?n - length body) _] =>
      first [replace (n - length body)%nat with 5%nat by lia | replace (n - length body)%nat with 6%nat by lia
            |replace (n - length body)%nat with 7%nat by lia] end;
    (split; [done|]); cbn -[body take Nat.sub]; rewrite Nat.sub_0_r, take_ge by done;
    exact (f_equal Some Hcap).
Qed.

(** ** The round trip *)

Lemma existsb_false_elem {A} (f : A -> bool) l : (forall x, x ∈ l -> f x = false) -> existsb f l = false.
Proof.
  intros H. destruct (existsb f l) eqn:E; [|done]. apply existsb_elem in E as (x & Hx & Hf).
  by rewrite H in Hf.
Qed.

Lemma kind_of_name k : k <> KTopic -> kind_of (kind_name k) = k.
Proof. by destruct k. Qed.

(** How many segments an address of a kind has. *)
Definition address_length (k : DataAssetKind) (n : nat) : Prop :=
  k <> KTopic /\ (min_segments k <= n)%nat /\ (k = KCatalog -> n = 1%nat).

(** ** What is parsed *)

Lemma parse_length i k segs : parseAssetId i = Some (k, segs) -> address_length k (length segs).
Proof.
  unfold parseAssetId. case_match; [done|]. case_match; [|done]. cbv zeta. case_match; [done|].
  case_match; [done|]. case_match eqn:Hn; [done|]. intros [= <- <-]. rewrite length_map.
  apply orb_false_iff in Hn as [Hn%Nat.ltb_ge Hc]. split; [|split; [done|]].
  - unfold kind_of. by repeat case_match.
  - intros Hk. rewrite bool_decide_true in Hc by done. cbn [andb] in Hc.
    by apply negb_false_iff, Nat.eqb_eq in Hc.
Qed.

Lemma parse_safe i k segs s : parseAssetId i = Some (k, segs) -> s ∈ segs -> isSafeUpstreamSegment s = true.
Proof.
  unfold parseAssetId. case_match; [done|]. case_match; [|done]. cbv zeta. case_match; [done|].
  case_match eqn:Hs; [done|]. case_match; [done|]. intros [= <- <-] Hin.
  apply negb_false_iff in Hs. by eapply forallb_elem in Hs.
Qed.

Lemma parse_derived k segs :
  address_length k (length segs) -> (forall s, s ∈ segs -> isSafeUpstreamSegment s = true) ->
  (String.length (deriveAssetId k segs) <= MAX_ASSET_ID_LENGTH)%nat ->
  parseAssetId (deriveAssetId k segs) = Some (k, segs).
Proof.
  intros (Hk & Hmin & Hone) Hsafe Hlen. unfold parseAssetId.
  rewrite (proj2 (Nat.ltb_ge _ _) Hlen). unfold deriveAssetId.
  assert (segs <> []) as Hne by (intros ->; destruct k; simpl in Hmin; lia).
  set (raw := join "." (map encodeIdSegment segs)).
  assert (split_char "." raw = map encodeIdSegment segs) as Hsplit.
  { apply (split_join "."); [by destruct segs|]. intros s (t & _ & ->)%elem_of_map. apply encoded_no_dot. }
  destruct (exec_asset_id k raw) as (c & -> & -> & ->); [done| | |].
  - intros Hr. rewrite Hr in Hsplit. destruct segs as [|s segs]; [done|]. cbn [map split_char] in Hsplit.
    injection Hsplit as Hs _. symmetry in Hs. apply encode_nil in Hs as ->. by specialize (Hsafe EmptyString ltac:(left)).
  - apply join_plain. intros s (t & Ht & ->)%elem_of_map. by apply encoded_plain, safe_plain, Hsafe.
  - cbv [from_option id]; cbv zeta. rewrite kind_of_name, Hsplit, length_map, map_map by done.
    assert (map (fun x => decodeIdSegment (encodeIdSegment x)) segs = segs) as ->.
    { rewrite <-(map_id segs) at 2. apply map_ext. apply decode_encode. }
    rewrite existsb_false_elem.
    2:{ intros s (t & Ht & ->)%elem_of_map. destruct (encodeIdSegment t) eqn:He; [|done].
        apply encode_nil in He as ->. by specialize (Hsafe _ Ht). }
    rewrite (proj2 (forallb_elem _ _) Hsafe). cbn [negb].
    rewrite (proj2 (Nat.ltb_ge _ _) Hmin). cbn [orb].
    case_bool_decide as Hc; [|done]. by rewrite (Hone Hc).
Qed.

(** ** Theorems *)

(** Asset identifiers round trip: the identifier derived from an address parses
    back to exactly that address when the address is one the adapter may use (a
    catalog, schema or table with enough segments, each a plain name, at most 256
    characters in all) and to nothing otherwise than itself; and whatever text
    parses, its segments are plain names, so no identifier addresses the upstream
    with an empty, dot, control or separator segment. *)
Theorem asset_id_roundtrip k segs i k' segs' :
  (parseAssetId (deriveAssetId k segs) = Some (k, segs) <->
    address_length k (length segs) /\ (forall s, s ∈ segs -> isSafeUpstreamSegment s = true) /\
    (String.length (deriveAssetId k segs) <= MAX_ASSET_ID_LENGTH)%nat) /\
  (parseAssetId i = Some (k', segs') ->
    address_length k' (length segs') /\ forall s, s ∈ segs' -> isSafeUpstreamSegment s = true).
Proof.
  split; [split|].
  - intros H. split; [by eapply parse_length|]. split; [intros s; by eapply parse_safe|].
    unfold parseAssetId in H. case_match eqn:E; [done|]. by apply Nat.ltb_ge in E.
  - intros (H1 & H2 & H3). by apply parse_derived.
  - intros H. split; [by eapply parse_length|intros s; by eapply parse_safe].
Qed.

Lemma asset_id_roundtrip_witness :
  parseAssetId "asset-table-lake.a%2Eb.orders" = Some (KTable, ["lake"; "a.b"; "orders"]) /\
  deriveAssetId KTable ["lake"; "a.b"; "orders"] = "asset-table-lake.a%2Eb.orders" /\
  address_length KTable 3.
Proof.
  split; [vm_compute; reflexivity|]. split; [vm_compute; reflexivity|].
  apply (proj2 (asset_id_roundtrip KCatalog [] "asset-table-lake.a%2Eb.orders" KTable ["lake"; "a.b"; "orders"])).
  vm_compute. reflexivity.
Defined.

(** ** The pages of a listing *)

Lemma paginate_page {A} (items : list A) page size :
  1 <= page -> 1 <= size ->
  paginate items page size = (take (Z.to_nat size) (drop (Z.to_nat ((page - 1) * size)) items), length items).
Proof.
  intros Hp Hs. unfold paginate, slice. f_equal. set (n := Z.of_nat (length items)).
  assert (0 <= (page - 1) * size) by nia. rewrite (proj2 (Z.ltb_ge _ _)), (proj2 (Z.ltb_ge _ _)) by lia.
  destruct (Z_le_gt_dec n ((page - 1) * size)).
  - rewrite !drop_ge, !take_nil by lia. done.
  - replace (Z.to_nat (Z.min ((page - 1) * size) n)) with (Z.to_nat ((page - 1) * size)) by lia.
    destruct (Z_le_gt_dec ((page - 1) * size + size) n).
    + do 2 f_equal. lia.
    + rewrite !take_ge by (rewrite length_drop; lia). done.
Qed.

Lemma concat_pages {A} (l : list A) s n :
  concat (map (fun p => take s (drop (p * s) l)) (seq 0 n)) = take (n * s) l.
Proof.
  induction n as [|n IH]; [done|]. rewrite seq_S, map_app, concat_app, IH. cbn [map concat Nat.add].
  rewrite app_nil_r, take_take_drop. f_equal. lia.
Qed.

(** The pages put together are the listing. *)
Lemma paginate_cover {A} (items : list A) size :
  1 <= size ->
  concat (map (fun p => (paginate items (Z.of_nat p + 1) size).1) (seq 0 (length items))) = items.
Proof.
  intros Hs. rewrite (map_ext _ (fun p => take (Z.to_nat size) (drop (p * Z.to_nat size) items))).
  - rewrite concat_pages, take_ge; [done|nia].
  - intros p. rewrite paginate_page by lia. cbn [fst]. do 2 f_equal. nia.
Qed.
