(* ===== verification/Correlation.v ===== *)
(** * [domain-api/src/correlation/rules.ts]

    Links between the entities of the platform: declared by a label, or suggested by
    the names.  A confidence is a number of hundredths.  [correlate_exact] says which
    links there are; [correlate_order_free] that the order of the input is of no
    consequence. *)

From S2P Require Import Prelude JsBase JsText.
From Stdlib Require Import Ascii.
From Stdlib Require String.
Open Scope Z_scope.

(** ** Data *)

Inductive CorrelationEntityKind := KafkaTopic | FlinkJob | IcebergTable | TrinoCatalog | AirflowDag.

#[export] Instance CorrelationEntityKind_eq_dec : EqDecision CorrelationEntityKind.
Proof. solve_decision. Defined.

Inductive CorrelationRelation := TopicFeedsJob | JobWritesTable | TableServedByCatalog | DagTriggersJob.

#[export] Instance CorrelationRelation_eq_dec : EqDecision CorrelationRelation.
Proof. solve_decision. Defined.

Inductive CorrelationMethod := DeclaredLabel | NameConvention | AmbiguousNameConvention.

Definition relation_name (r : CorrelationRelation) : string :=
  match r with
  | TopicFeedsJob => "topic-feeds-job"
  | JobWritesTable => "job-writes-table"
  | TableServedByCatalog => "table-served-by-catalog"
  | DagTriggersJob => "dag-triggers-job"
  end.

Record CorrelationEntity := mkEntity {
  en_kind : CorrelationEntityKind;
  en_id : string;
  en_name : string;
  en_labels : list (string * string);
}.

#[export] Instance CorrelationEntity_eq_dec : EqDecision CorrelationEntity.
Proof. solve_decision. Defined.

Record CorrelationLink := mkLink {
  li_id : string;
  li_source : CorrelationEntityKind * string;
  li_target : CorrelationEntityKind * string;
  li_relation : CorrelationRelation;
  li_confidence : Z;
  li_method : CorrelationMethod;
  li_evidence : list string;
}.

Inductive Side := OnSource | OnTarget.

#[export] Instance Side_eq_dec : EqDecision Side.
Proof. solve_decision. Defined.

Record Rule := mkRule {
  ru_relation : CorrelationRelation;
  ru_sourceKind : CorrelationEntityKind;
  ru_targetKind : CorrelationEntityKind;
  ru_declaredOn : Side;
  ru_labelKey : string;
  ru_key : CorrelationEntity -> string;
}.

Definition DECLARED_CONFIDENCE : Z := 95.
Definition NAME_CONVENTION_CONFIDENCE : Z := 60.
Definition AMBIGUOUS_CONFIDENCE : Z := 30.

(** ** Names *)

Definition GENERIC_TOKENS : list string := [
  "dag"; "job"; "sync"; "cdc"; "daily"; "report"; "v1"; "v2";
  "prod"; "production"; "dev"; "test"; "stg"; "stage"; "staging"; "raw"; "tmp"; "temp"; "default"; "main"; "new"; "old"; "data"].

(** [s.split(/[-_.]/)] *)
Fixpoint split_on (p : ascii -> bool) (s : string) : list string :=
  match s with
  | EmptyString => [EmptyString]
  | String a s' =>
      if p a then EmptyString :: split_on p s'
      else match split_on p s' with [] => [str1 a] | w :: ws => String a w :: ws end
  end.

Definition tokens (name : string) : list string :=
  List.filter (fun t => negb (String.eqb t EmptyString)) (split_on (fun a => str_has a "-_.") (to_lower name)).

Definition firstSignificantToken (name : string) : string :=
  default EmptyString (List.find (fun t => negb (bool_decide (t ∈ GENERIC_TOKENS))) (tokens name)).

Definition lastSegmentKey (name : string) : string :=
  firstSignificantToken (List.last (split_char "." (to_lower name)) EmptyString).

(** ** The rules *)

Definition first_segment (name : string) : string :=
  match split_char "." name with s :: _ => s | [] => EmptyString end.

Definition plain_key (e : CorrelationEntity) : string := firstSignificantToken (en_name e).

Definition RULES : list Rule := [
  mkRule TopicFeedsJob KafkaTopic FlinkJob OnTarget "beluga.io/source-topic" plain_key;
  mkRule JobWritesTable FlinkJob IcebergTable OnSource "beluga.io/sink-table"
    (fun e => if decide (en_kind e = IcebergTable) then lastSegmentKey (en_name e) else firstSignificantToken (en_name e));
  mkRule TableServedByCatalog IcebergTable TrinoCatalog OnSource "beluga.io/trino-catalog"
    (fun e => firstSignificantToken (if decide (en_kind e = IcebergTable) then first_segment (en_name e) else en_name e));
  mkRule DagTriggersJob AirflowDag FlinkJob OnSource "beluga.io/triggers-job" plain_key
].

Definition link (rule : Rule) (source target : CorrelationEntity) (confidence : Z) (method : CorrelationMethod)
    (evidence : string) : CorrelationLink :=
  mkLink (relation_name (ru_relation rule) +:+ ":" +:+ en_id source +:+ "->" +:+ en_id target)
    (en_kind source, en_id source) (en_kind target, en_id target) (ru_relation rule) confidence method [evidence].

Definition byCodePoint : string -> string -> Z := str_cmp.

Definition of_kind (k : CorrelationEntityKind) (l : list CorrelationEntity) : list CorrelationEntity :=
  List.filter (fun e => bool_decide (en_kind e = k)) l.

Definition declaring_kind (rule : Rule) : CorrelationEntityKind :=
  match ru_declaredOn rule with OnSource => ru_sourceKind rule | OnTarget => ru_targetKind rule end.

Definition other_kind (rule : Rule) : CorrelationEntityKind :=
  match ru_declaredOn rule with OnSource => ru_targetKind rule | OnTarget => ru_sourceKind rule end.

Definition declared_link (rule : Rule) (owner other : CorrelationEntity) (declared : string) : CorrelationLink :=
  let evidence := "label " +:+ ru_labelKey rule +:+ "=" +:+ declared in
  match ru_declaredOn rule with
  | OnSource => link rule owner other DECLARED_CONFIDENCE DeclaredLabel evidence
  | OnTarget => link rule other owner DECLARED_CONFIDENCE DeclaredLabel evidence
  end.

Definition same_name (declared : string) (e : CorrelationEntity) : bool :=
  String.eqb (to_lower (en_name e)) (to_lower declared).

(** The link of one owner of a label. *)
Definition declared_links (rule : Rule) (sorted : list CorrelationEntity) (owner : CorrelationEntity) : list CorrelationLink :=
  match map_get (ru_labelKey rule) (en_labels owner) with
  | None => []
  | Some declared =>
      match List.filter (same_name declared) (of_kind (other_kind rule) sorted) with
      | [other] => [declared_link rule owner other declared]
      | _ => []
      end
  end.

Definition declares (rule : Rule) (e : CorrelationEntity) : bool :=
  match map_get (ru_labelKey rule) (en_labels e) with Some _ => true | None => false end.

(** [declaredIds] *)
Definition declared_ids (rule : Rule) (sorted : list CorrelationEntity) : list string :=
  set_of (map en_id (List.filter (declares rule) (of_kind (declaring_kind rule) sorted))).

Definition eligible (rule : Rule) (side : Side) (sorted l : list CorrelationEntity) : list CorrelationEntity :=
  List.filter (fun e => negb (bool_decide (ru_declaredOn rule = side) && bool_decide (en_id e ∈ declared_ids rule sorted))) l.

Definition pairs (rule : Rule) (sorted : list CorrelationEntity) : list (CorrelationEntity * CorrelationEntity) :=
  flat_map (fun source =>
    if String.eqb (ru_key rule source) EmptyString then []
    else
      map (fun target => (source, target))
        (List.filter (fun target => String.eqb (ru_key rule target) (ru_key rule source))
           (eligible rule OnTarget sorted (of_kind (ru_targetKind rule) sorted))))
    (eligible rule OnSource sorted (of_kind (ru_sourceKind rule) sorted)).

(** [perSource], [perTarget] *)
Definition fan_out (ids : list string) : list (string * Z) :=
  foldl (fun m i => map_set i (default 0 (map_get i m) + 1) m) [] ids.

Definition name_link (rule : Rule) (ambiguous : bool) (source target : CorrelationEntity) : CorrelationLink :=
  link rule source target
    (if ambiguous then AMBIGUOUS_CONFIDENCE else NAME_CONVENTION_CONFIDENCE)
    (if ambiguous then AmbiguousNameConvention else NameConvention)
    ("name key '" +:+ ru_key rule source +:+ "' shared by " +:+ en_name source +:+ " and " +:+ en_name target).

Definition name_links (rule : Rule) (sorted : list CorrelationEntity) : list CorrelationLink :=
  let ps := pairs rule sorted in
  let perSource := fan_out (map (fun p => en_id p.1) ps) in
  let perTarget := fan_out (map (fun p => en_id p.2) ps) in
  map (fun p : CorrelationEntity * CorrelationEntity =>
    name_link rule
      ((1 <? default 0 (map_get (en_id p.1) perSource)) || (1 <? default 0 (map_get (en_id p.2) perTarget))) p.1 p.2) ps.

Definition rule_links (rule : Rule) (sorted : list CorrelationEntity) : list CorrelationLink :=
  flat_map (declared_links rule sorted) (of_kind (declaring_kind rule) sorted) ++ name_links rule sorted.

Definition correlate (entities : list CorrelationEntity) : list CorrelationLink :=
  let sorted := js_sort (fun a b => byCodePoint (en_id a) (en_id b)) entities in
  js_sort (fun a b => byCodePoint (li_id a) (li_id b)) (flat_map (fun rule => rule_links rule sorted) RULES).

(** ** What a name may say *)

(** A pair the names suggest: neither side is bound by a label of its own. *)
Definition suggested (rule : Rule) (es : list CorrelationEntity) (source target : CorrelationEntity) : Prop :=
  source ∈ es /\ target ∈ es /\ en_kind source = ru_sourceKind rule /\ en_kind target = ru_targetKind rule /\
  ru_key rule source = ru_key rule target /\ ru_key rule source <> EmptyString /\
  (ru_declaredOn rule = OnSource -> declares rule source = false) /\
  (ru_declaredOn rule = OnTarget -> declares rule target = false).

(** The only entity of a kind with a name. *)
Definition only_named (es : list CorrelationEntity) (k : CorrelationEntityKind) (name : string) (e : CorrelationEntity) : Prop :=
  forall x, x ∈ es /\ en_kind x = k /\ to_lower (en_name x) = to_lower name <-> x = e.

(** ** Lemmas *)

Lemma elem_of_kind k l e : e ∈ of_kind k l <-> e ∈ l /\ en_kind e = k.
Proof. unfold of_kind. by rewrite elem_of_filterb, bool_decide_eq_true. Qed.

Lemma NoDup_filterb {A} (f : A -> bool) l : NoDup l -> NoDup (List.filter f l).
Proof.
  induction 1 as [|x l Hx Hl IH]; cbn; [constructor|]. destruct (f x); [|done].
  constructor; [|done]. rewrite elem_of_filterb. tauto.
Qed.

Lemma fan_out_get ids i : default 0 (map_get i (fan_out ids)) = Z.of_nat (length (List.filter (String.eqb i) ids)).
Proof.
  unfold fan_out.
  enough (forall m, default 0 (map_get i (foldl (fun m i => map_set i (default 0 (map_get i m) + 1) m) m ids)) =
    default 0 (map_get i m) + Z.of_nat (length (List.filter (String.eqb i) ids))) as H by (rewrite H; cbn; lia).
  induction ids as [|j ids IH]; intros m; cbn [foldl List.filter length]; [lia|]. rewrite IH, map_get_set.
  destruct (String.eqb_spec i j) as [->|Hj].
  - rewrite decide_True by done. cbn [length default]. unfold default, id. destruct (map_get j m); lia.
  - by rewrite decide_False by done.
Qed.

Lemma one_elem {A} (l : list A) e :
  NoDup l -> (forall x, x ∈ l <-> x = e) <-> l = [e].
Proof.
  intros Hl. split; [|intros ->; set_solver]. intros He. destruct l as [|x [|y l]].
  - exfalso. apply (not_elem_of_nil e). by apply He.
  - f_equal. apply He. left.
  - exfalso. assert (x = e) as -> by (apply He; left). assert (y = e) as -> by (apply He; right; left).
    apply NoDup_cons in Hl as [Hl _]. apply Hl. left.
Qed.

(** More than one element: another one. *)
Lemma another {A} (f : A -> bool) (l : list A) x :
  NoDup l -> x ∈ l -> f x = true -> (1 < length (List.filter f l))%nat <-> exists y, y ∈ l /\ y <> x /\ f y = true.
Proof.
  intros Hl Hx Hf. pose proof (NoDup_filterb f l Hl) as Hn. assert (x ∈ List.filter f l) as Hi by (by apply elem_of_filterb).
  split.
  - intros Hlen. destruct (List.filter f l) as [|y [|z k]] eqn:Ek; cbn in Hlen; [lia..|].
    assert (forall w, w ∈ y :: z :: k -> w ∈ l /\ f w = true) as Hw by (intros w; rewrite <-Ek; apply elem_of_filterb).
    destruct (Hw y) as [Hy Fy]; [left|]. destruct (Hw z) as [Hz Fz]; [right; left|].
    apply elem_of_cons in Hi as [->|Hi].
    + exists z. split_and!; [done| |done]. intros ->. apply NoDup_cons in Hn as [Hn _]. apply Hn. left.
    + exists y. split_and!; [done| |done]. intros ->. apply NoDup_cons in Hn as [Hn _]. done.
  - intros (y & Hy & Hne & Fy). assert (y ∈ List.filter f l) as Hj by (by apply elem_of_filterb).
    destruct (List.filter f l) as [|a [|b k]]; cbn; [by apply not_elem_of_nil in Hi| |lia].
    apply list_elem_of_singleton in Hi, Hj. congruence.
Qed.

Lemma length_filter_map {A B} (f : B -> bool) (g : A -> B) l :
  length (List.filter f (map g l)) = length (List.filter (fun x => f (g x)) l).
Proof. induction l as [|x l IH]; [done|]. cbn. destruct (f (g x)); cbn; by rewrite IH. Qed.

Section exact.
Context (es : list CorrelationEntity) (Hids : NoDup (map en_id es)).

Abbreviation sorted := (js_sort (fun a b => byCodePoint (en_id a) (en_id b)) es).

Lemma elem_of_sorted e : e ∈ sorted <-> e ∈ es.
Proof. apply elem_of_js_sort. Qed.

Lemma same_id x y : x ∈ es -> y ∈ es -> en_id x = en_id y -> x = y.
Proof.
  clear -Hids. induction es as [|e l IH]; intros Hx Hy E; [by apply not_elem_of_nil in Hx|].
  cbn in Hids. apply NoDup_cons in Hids as [He Hl].
  apply elem_of_cons in Hx as [->|Hx], Hy as [->|Hy]; try done.
  - exfalso. apply He. apply elem_of_map. eauto.
  - exfalso. apply He. apply elem_of_map. eauto.
  - by apply IH.
Qed.

Lemma NoDup_sorted : NoDup sorted.
Proof. rewrite js_sort_perm. by eapply NoDup_fmap_1. Qed.

Lemma NoDup_of_kind k : NoDup (of_kind k sorted).
Proof. apply NoDup_filterb, NoDup_sorted. Qed.

Lemma elem_of_declared_ids rule e :
  e ∈ es -> en_id e ∈ declared_ids rule sorted <-> en_kind e = declaring_kind rule /\ declares rule e = true.
Proof.
  intros He. unfold declared_ids. rewrite elem_of_set_of, elem_of_map. setoid_rewrite elem_of_filterb.
  setoid_rewrite elem_of_kind. setoid_rewrite elem_of_sorted. split.
  - intros (x & [[Hx Hk] Hd] & E). by rewrite (same_id e x He Hx E).
  - intros [Hk Hd]. by exists e.
Qed.

Lemma elem_of_eligible rule side k e :
  e ∈ eligible rule side sorted (of_kind k sorted) <->
  e ∈ es /\ en_kind e = k /\ (ru_declaredOn rule = side -> en_kind e = declaring_kind rule -> declares rule e = false).
Proof.
  unfold eligible. rewrite elem_of_filterb, elem_of_kind, elem_of_sorted, negb_true_iff, andb_false_iff,
    !bool_decide_eq_false. split.
  - intros [[He Hk] H]. split_and!; [done..|]. intros Hs Hd. destruct H as [?|H]; [done|].
    rewrite elem_of_declared_ids in H by done. apply not_true_iff_false. tauto.
  - intros (He & Hk & H). split; [done|]. rewrite elem_of_declared_ids by done.
    destruct (decide (ru_declaredOn rule = side)); [right|by left]. intros [Hd Ht]. by rewrite H in Ht.
Qed.

Lemma elem_of_pairs rule s t : (s, t) ∈ pairs rule sorted <-> suggested rule es s t.
Proof.
  unfold pairs, suggested. rewrite elem_of_flat_map. split.
  - intros (x & Hx & Hp). destruct (String.eqb_spec (ru_key rule x) EmptyString) as [|Hk]; [by apply not_elem_of_nil in Hp|].
    apply elem_of_map in Hp as (y & Hy & [= -> ->]). apply elem_of_filterb in Hy as [Hy E%String.eqb_eq].
    apply elem_of_eligible in Hx as (Hx & Kx & Dx), Hy as (Hy & Ky & Dy).
    split_and!; try done; intros Hs; [apply Dx|apply Dy]; try done; unfold declaring_kind; by rewrite Hs.
  - intros (Hs & Ht & Ks & Kt & E & Hne & Ds & Dt). exists s. split; [apply elem_of_eligible; auto|].
    rewrite (proj2 (String.eqb_neq _ _) Hne). apply elem_of_map. exists t. split; [|done].
    apply elem_of_filterb. split; [apply elem_of_eligible; auto|]. by apply String.eqb_eq.
Qed.

Lemma NoDup_pairs rule : NoDup (pairs rule sorted).
Proof.
  unfold pairs. assert (NoDup (eligible rule OnSource sorted (of_kind (ru_sourceKind rule) sorted))) as Hn
    by apply NoDup_filterb, NoDup_of_kind.
  induction Hn as [|s l Hs Hl IH]; cbn [flat_map]; [constructor|]. apply NoDup_app. split_and!; [|..|exact IH].
  - destruct (String.eqb _ _); [constructor|]. apply NoDup_fmap_2; [by intros ?? [= ->]|].
    apply NoDup_filterb, NoDup_filterb, NoDup_of_kind.
  - intros [s' t]. destruct (String.eqb _ _); [by intros ?%not_elem_of_nil|].
    intros (? & _ & [= -> ->])%elem_of_map (z & Hz & Hp)%elem_of_flat_map.
    destruct (String.eqb _ _); [by apply not_elem_of_nil in Hp|]. apply elem_of_map in Hp as (? & _ & [= -> _]). done.
Qed.

(** The counts of the pairs tell whether one end has another partner. *)
Lemma fan_out_iff rule s t :
  suggested rule es s t ->
  ((1 <? default 0 (map_get (en_id s) (fan_out (map (fun p => en_id p.1) (pairs rule sorted))))) = true <->
    exists t', t' <> t /\ suggested rule es s t') /\
  ((1 <? default 0 (map_get (en_id t) (fan_out (map (fun p => en_id p.2) (pairs rule sorted))))) = true <->
    exists s', s' <> s /\ suggested rule es s' t).
Proof.
  intros Hp. pose proof (proj2 (elem_of_pairs rule s t) Hp) as Hin.
  pose proof (NoDup_pairs rule) as Hn. rewrite !fan_out_get, !Z.ltb_lt, !length_filter_map.
  assert (forall n, 1 < Z.of_nat n <-> (1 < n)%nat) as Hz by lia. rewrite !Hz.
  rewrite (another (fun p => String.eqb (en_id s) (en_id p.1)) _ (s, t) Hn Hin) by apply String.eqb_refl.
  rewrite (another (fun p => String.eqb (en_id t) (en_id p.2)) _ (s, t) Hn Hin) by apply String.eqb_refl.
  pose proof Hp as (Hs & Ht & _). split; split.
  - intros ([s' t'] & Hy & Hne & E%String.eqb_eq). cbn in E. apply elem_of_pairs in Hy. pose proof Hy as (Hs' & _).
    rewrite <-(same_id _ _ Hs Hs' E) in *. exists t'. split; [congruence|done].
  - intros (t' & Hne & Hy%elem_of_pairs). exists (s, t'). split_and!; [done|congruence|apply String.eqb_refl].
  - intros ([s' t'] & Hy & Hne & E%String.eqb_eq). cbn in E. apply elem_of_pairs in Hy. pose proof Hy as (_ & Ht' & _).
    rewrite <-(same_id _ _ Ht Ht' E) in *. exists s'. split; [congruence|done].
  - intros (s' & Hne & Hy%elem_of_pairs). exists (s', t). split_and!; [done|congruence|apply String.eqb_refl].
Qed.

Lemma elem_of_name_links rule l :
  l ∈ name_links rule sorted <->
  exists s t ambiguous, suggested rule es s t /\ l = name_link rule ambiguous s t /\
    (ambiguous = true <->
      (exists t', t' <> t /\ suggested rule es s t') \/ (exists s', s' <> s /\ suggested rule es s' t)).
Proof.
  unfold name_links. rewrite elem_of_map. split.
  - intros ([s t] & Hp%elem_of_pairs & ->). destruct (fan_out_iff rule s t Hp) as [Hs Ht]. cbn [fst snd].
    do 3 eexists. split; [done|]. split; [done|]. by rewrite orb_true_iff, Hs, Ht.
  - intros (s & t & ambiguous & Hp & -> & Ha). destruct (fan_out_iff rule s t Hp) as [Hs Ht].
    exists (s, t). split; [by apply elem_of_pairs|]. cbn [fst snd]. f_equal. apply eq_true_iff_eq.
    by rewrite Ha, orb_true_iff, Hs, Ht.
Qed.

Lemma elem_of_declared_links rule l :
  l ∈ flat_map (declared_links rule sorted) (of_kind (declaring_kind rule) sorted) <->
  exists owner other declared, owner ∈ es /\ en_kind owner = declaring_kind rule /\
    map_get (ru_labelKey rule) (en_labels owner) = Some declared /\
    only_named es (other_kind rule) declared other /\ l = declared_link rule owner other declared.
Proof.
  rewrite elem_of_flat_map.
  assert (forall declared other, only_named es (other_kind rule) declared other <->
    List.filter (same_name declared) (of_kind (other_kind rule) sorted) = [other]) as Ho.
  { intros declared other. rewrite <-one_elem by apply NoDup_filterb, NoDup_of_kind. unfold only_named, same_name.
    apply forall_proper. intros y. rewrite elem_of_filterb, elem_of_kind, elem_of_sorted, String.eqb_eq. tauto. }
  setoid_rewrite Ho. setoid_rewrite elem_of_kind. setoid_rewrite elem_of_sorted. unfold declared_links. split.
  - intros (owner & [Hi Hk] & Hl). destruct (map_get _ (en_labels owner)) as [declared|] eqn:Ed; [|by apply not_elem_of_nil in Hl].
    destruct (List.filter _ _) as [|other []] eqn:Ef; try by apply not_elem_of_nil in Hl.
    apply list_elem_of_singleton in Hl as ->. exists owner, other, declared. split_and!; done.
  - intros (owner & other & declared & Hi & Hk & Hd & Hf & ->). exists owner. split; [done|]. rewrite Hd, Hf. left.
Qed.

(** C31: When no two entities share an identifier, the links are exactly those the
    entities warrant.  A declared link: the owner
    carries the label of the rule and exactly one entity of the other kind has the
    declared name.  A link by name: two entities share a significant token, and the
    one that could declare the relation declares nothing for it; the confidence is
    the lower one exactly when either of the two has another partner.  (The partners are
    counted by identifier, and nothing makes the identifiers distinct: [shared_ids].) *)
Theorem correlate_exact l :
  l ∈ correlate es <->
  exists rule, rule ∈ RULES /\
    ((exists owner other declared, owner ∈ es /\ en_kind owner = declaring_kind rule /\
        map_get (ru_labelKey rule) (en_labels owner) = Some declared /\
        only_named es (other_kind rule) declared other /\ l = declared_link rule owner other declared) \/
     (exists s t ambiguous, suggested rule es s t /\ l = name_link rule ambiguous s t /\
        (ambiguous = true <->
          (exists t', t' <> t /\ suggested rule es s t') \/ (exists s', s' <> s /\ suggested rule es s' t)))).
Proof.
  unfold correlate. rewrite elem_of_js_sort, elem_of_flat_map. unfold rule_links.
  setoid_rewrite elem_of_app. setoid_rewrite elem_of_declared_links. setoid_rewrite elem_of_name_links. done.
Qed.
End exact.

(** The order in which the entities are listed is of no consequence. *)
Theorem correlate_order_free es es' :
  NoDup (map en_id es) -> es ≡ₚ es' -> correlate es = correlate es'.
Proof.
  intros Hn Hp. unfold correlate. replace (js_sort (fun a b => byCodePoint (en_id a) (en_id b)) es')
    with (js_sort (fun a b => byCodePoint (en_id a) (en_id b)) es); [done|].
  apply js_sort_key_canonical; [|done]. intros x y. by apply same_id.
Qed.

(** Two jobs under one identifier: each dag has one partner by name and each job too, but
    both links get the confidence of an ambiguous name. *)
Definition twins : list CorrelationEntity :=
  [mkEntity AirflowDag "dag-a" "alpha" []; mkEntity AirflowDag "dag-b" "beta" [];
   mkEntity FlinkJob "job" "alpha" []; mkEntity FlinkJob "job" "beta" []].

Lemma shared_ids :
  map (fun l => (li_source l, li_target l, li_confidence l)) (correlate twins) =
    [((AirflowDag, "dag-a"), (FlinkJob, "job"), 30); ((AirflowDag, "dag-b"), (FlinkJob, "job"), 30)].
Proof. by vm_compute. Qed.

(** ** A concrete inventory *)

Definition demo_topic : CorrelationEntity := mkEntity KafkaTopic "topic-orders" "orders.cdc" [].
Definition demo_job : CorrelationEntity :=
  mkEntity FlinkJob "job-orders" "prod-orders-sync" [("beluga.io/sink-table", "lakehouse.orders")].
Definition demo_table : CorrelationEntity := mkEntity IcebergTable "table-orders" "LAKEHOUSE.orders" [].
Definition demo_entities : list CorrelationEntity := [demo_table; demo_job; demo_topic].

Lemma correlate_exact_witness :
  exists l, l ∈ correlate demo_entities /\ li_method l = DeclaredLabel /\ li_confidence l = 95 /\
    exists rule, rule ∈ RULES.
Proof.
  exists (declared_link (mkRule JobWritesTable FlinkJob IcebergTable OnSource "beluga.io/sink-table" plain_key)
    demo_job demo_table "lakehouse.orders").
  assert (NoDup (map en_id demo_entities)) as Hn by (apply (bool_decide_unpack _); vm_compute; exact I).
  match goal with |- ?x ∈ _ /\ _ =>
    assert (x ∈ correlate demo_entities) as Hl by (vm_compute; left) end.
  split; [exact Hl|]. split; [reflexivity|]. split; [reflexivity|].
  apply (correlate_exact demo_entities Hn) in Hl as (rule & Hr & _). by exists rule.
Defined.
