(* ===== verification/SqlRedaction.v ===== *)
(** * [domain-api/src/adapters/upstream/sqlRedaction.ts]

    The scanner that removes literals and comments from the SQL text of the query
    history.  The scanner works on the index [i]; here on the characters from [i]
    on, with the output so far (the last character first). *)

From S2P Require Import Prelude JsBase.
From Stdlib Require Import Ascii.
From Stdlib Require String.

Abbreviation text := (list ascii).

Definition SQ : ascii := "039".
Definition DQ : ascii := "034".
Definition NL : ascii := "010".

Definition number_char (a : ascii) : bool := is_digit a || is_alpha a || str_has a "_.".
Definition word_char (a : ascii) : bool := is_digit a || is_alpha a || str_has a "_$".

(** The loop over a quoted text, behind its opening quote: what it passes over, and
    the rest. *)
Fixpoint quoted (q : ascii) (s : text) : text * text :=
  match s with
  | [] => ([], [])
  | a :: s' =>
      if Ascii.eqb a q then
        match s' with
        | b :: s'' => if Ascii.eqb b q then let (l, r) := quoted q s'' in (a :: b :: l, r) else ([a], s')
        | [] => ([a], [])
        end
      else let (l, r) := quoted q s' in (a :: l, r)
  end.

(** [while (i < n && p(sql[i])) i++] *)
Fixpoint skip_while (p : ascii -> bool) (s : text) : text :=
  match s with
  | a :: s' => if p a then skip_while p s' else s
  | [] => []
  end.

(** Behind the next [*/], or the end. *)
Fixpoint skip_block (s : text) : text :=
  match s with
  | a :: s' =>
      match s' with
      | b :: s'' => if Ascii.eqb a "*" && Ascii.eqb b "/" then s'' else skip_block s'
      | [] => []
      end
  | [] => []
  end.

Definition starts (a : ascii) (s : text) : bool :=
  match s with b :: _ => Ascii.eqb b a | [] => false end.

(** [/[A-Za-z0-9_$]/.test(out.slice(-1))] *)
Definition after_word (out : text) : bool :=
  match out with a :: _ => word_char a | [] => false end.

Fixpoint redact_loop (fuel : nat) (out s : text) : text :=
  match fuel with
  | O => out
  | S fuel =>
      match s with
      | [] => out
      | ch :: s' =>
          if Ascii.eqb ch SQ then redact_loop fuel ("?"%char :: out) (quoted SQ s').2
          else if Ascii.eqb ch DQ then
            let (l, r) := quoted DQ s' in redact_loop fuel (rev (ch :: l) ++ out) r
          else if Ascii.eqb ch "-" && starts "-" s' then
            redact_loop fuel (" "%char :: out) (skip_while (fun a => negb (Ascii.eqb a NL)) s)
          else if Ascii.eqb ch "/" && starts "*" s' then
            redact_loop fuel (" "%char :: out) (skip_block (tail s'))
          else if is_digit ch && negb (after_word out) then
            redact_loop fuel ("?"%char :: out) (skip_while number_char s)
          else redact_loop fuel (ch :: out) s'
      end
  end.

Definition redactSqlLiterals (sql : string) : string :=
  let s := String.list_ascii_of_string sql in
  trim (String.string_of_list_ascii (rev (redact_loop (length s) [] s))).

(** ** The tokens of a text *)

(** What a text is made of.  A quote inside a quoted body is doubled in the text;
    the open forms are not closed before the end of the text. *)
Inductive token :=
| TLiteral (body : text)
| TIdent (body : text)
| TLine (body : text)
| TBlock (body : text)
| TNumber (a : ascii) (body : text)
| TChar (a : ascii)
| TOpenLiteral (body : text)
| TOpenIdent (body : text)
| TOpenBlock (body : text).

Definition double (q : ascii) (body : text) : text :=
  flat_map (fun a => if Ascii.eqb a q then [a; a] else [a]) body.

Definition source (t : token) : text :=
  match t with
  | TLiteral b => SQ :: double SQ b ++ [SQ]
  | TIdent b => DQ :: double DQ b ++ [DQ]
  | TLine b => "-"%char :: "-"%char :: b
  | TBlock b => "/"%char :: "*"%char :: b ++ ["*"%char; "/"%char]
  | TNumber a b => a :: b
  | TChar a => [a]
  | TOpenLiteral b => SQ :: double SQ b
  | TOpenIdent b => DQ :: double DQ b
  | TOpenBlock b => "/"%char :: "*"%char :: b
  end.

(** What is left of it. *)
Definition shown (t : token) : text :=
  match t with
  | TLiteral _ | TOpenLiteral _ | TNumber _ _ => ["?"%char]
  | TIdent _ | TOpenIdent _ | TChar _ => source t
  | TLine _ | TBlock _ | TOpenBlock _ => [" "%char]
  end.

(** Equal but for the contents of literals, numbers and comments. *)
Definition same_shape (t u : token) : Prop :=
  match t, u with
  | TLiteral _, TLiteral _ | TOpenLiteral _, TOpenLiteral _ | TNumber _ _, TNumber _ _
  | TLine _, TLine _ | TBlock _, TBlock _ | TOpenBlock _, TOpenBlock _ => True
  | _, _ => t = u
  end.

(** A block comment ends at the first [*/]. *)
Fixpoint no_close (s : text) : bool :=
  match s with
  | a :: s' => negb (Ascii.eqb a "*" && starts "/" s') && no_close s'
  | [] => true
  end.

Definition body_ok (t : token) : bool :=
  match t with
  | TLine b => forallb (fun a => negb (Ascii.eqb a NL)) b
  | TBlock b => no_close (b ++ ["*"%char])
  | TOpenBlock b => no_close b
  | TNumber a b => is_digit a && forallb number_char b
  | TChar a => negb (Ascii.eqb a SQ || Ascii.eqb a DQ)
  | _ => true
  end.

Definition starts_p (p : ascii -> bool) (s : text) : bool :=
  match s with b :: _ => p b | [] => false end.

Definition at_end (s : text) : bool := match s with [] => true | _ => false end.

(** [after]: the output ends with a word character; [rest]: the text behind the
    token. *)
Definition follows (after : bool) (t : token) (rest : text) : bool :=
  match t with
  | TLiteral _ => negb (starts SQ rest)
  | TIdent _ => negb (starts DQ rest)
  | TLine _ => starts NL rest || at_end rest
  | TNumber _ _ => negb after && negb (starts_p number_char rest)
  | TChar a =>
      (after || negb (is_digit a)) && negb (Ascii.eqb a "-" && starts "-" rest) &&
      negb (Ascii.eqb a "/" && starts "*" rest)
  | TBlock _ => true
  | TOpenLiteral _ | TOpenIdent _ | TOpenBlock _ => at_end rest
  end.

Definition sources (l : list token) : text := flat_map source l.
Definition output (l : list token) : text := flat_map shown l.

Fixpoint lexes (out : text) (l : list token) : bool :=
  match l with
  | [] => true
  | t :: l' => body_ok t && follows (after_word out) t (sources l') && lexes (rev (shown t) ++ out) l'
  end.

(** ** The scanner on one token *)

Lemma quoted_closed q b r :
  starts q r = false -> quoted q (double q b ++ q :: r) = (double q b ++ [q], r).
Proof.
  intros Hr. induction b as [|a b IH]; cbn [double flat_map app].
  - cbn [quoted]. rewrite Ascii.eqb_refl. destruct r as [|c r]; [done|]. cbn [starts] in Hr. by rewrite Hr.
  - fold (double q b). destruct (Ascii.eqb a q) eqn:E; cbn [app quoted]; rewrite E.
    + by rewrite IH.
    + by rewrite IH.
Qed.

Lemma quoted_open q b : quoted q (double q b) = (double q b, []).
Proof.
  induction b as [|a b IH]; [done|]. cbn [double flat_map]. fold (double q b).
  destruct (Ascii.eqb a q) eqn:E; cbn [app quoted]; rewrite E; by rewrite IH.
Qed.

Lemma skip_while_all p b r :
  forallb p b = true -> starts_p p r = false -> skip_while p (b ++ r) = r.
Proof.
  intros Hb Hr. induction b as [|a b IH]; cbn [app].
  - destruct r as [|c r]; [done|]. cbn [starts_p] in Hr. cbn [skip_while]. by rewrite Hr.
  - cbn [forallb] in Hb. apply andb_true_iff in Hb as [Ha Hb]. cbn [skip_while]. rewrite Ha. auto.
Qed.

Lemma skip_block_closed b r :
  no_close (b ++ ["*"%char]) = true -> skip_block (b ++ "*"%char :: "/"%char :: r) = r.
Proof.
  induction b as [|a b IH]; [done|]. cbn [app no_close skip_block]. intros [Ha Hb]%andb_true_iff.
  destruct b as [|c b]; cbn [app starts] in *.
  - rewrite andb_false_r. by apply IH.
  - apply negb_true_iff in Ha. rewrite Ha. by apply IH.
Qed.

Lemma skip_block_open b : no_close b = true -> skip_block b = [].
Proof.
  induction b as [|a b IH]; [done|]. cbn [no_close skip_block]. intros [Ha Hb]%andb_true_iff.
  destruct b as [|c b]; [done|]. cbn [starts] in Ha. apply negb_true_iff in Ha. rewrite Ha. auto.
Qed.

(** ** The scanner on a text of tokens *)

Lemma eqb_of_char a b : Ascii.eqb a b = true -> a = b.
Proof. apply Ascii.eqb_eq. Qed.

(** A digit is none of the characters the scanner tests for before. *)
Lemma digit_plain a :
  is_digit a = true ->
  Ascii.eqb a SQ = false /\ Ascii.eqb a DQ = false /\ Ascii.eqb a "-" = false /\ Ascii.eqb a "/" = false.
Proof. intros H. split_and!; apply Ascii.eqb_neq; intros ->; vm_compute in H; done. Qed.

Lemma at_end_nil r : at_end r = true -> r = [].
Proof. by destruct r. Qed.

(** One token is one iteration. *)
Lemma redact_token t r fuel out :
  body_ok t = true -> follows (after_word out) t r = true ->
  redact_loop (S fuel) out (source t ++ r) = redact_loop fuel (rev (shown t) ++ out) r.
Proof.
  intros Hb Hf. destruct t as [b|b|b|b|a b|a|b|b|b]; cbn [source shown body_ok follows app] in *.
  - apply negb_true_iff in Hf. cbn [redact_loop]. rewrite <-app_assoc. cbn [app].
    by rewrite (quoted_closed SQ).
  - apply negb_true_iff in Hf. cbn [redact_loop]. rewrite <-app_assoc. cbn [app].
    rewrite (quoted_closed DQ) by done. done.
  - cbn [redact_loop]. cbn [Ascii.eqb Bool.eqb andb starts SQ DQ]. f_equal.
    apply (skip_while_all _ ("-"%char :: "-"%char :: b) r); [done|]. destruct r as [|c r]; [done|].
    cbn [starts starts_p at_end] in *. rewrite orb_false_r in Hf. by rewrite Hf.
  - cbn [redact_loop]. cbn [Ascii.eqb Bool.eqb andb starts SQ DQ tail]. f_equal. rewrite <-app_assoc.
    by apply skip_block_closed.
  - apply andb_true_iff in Hb as [Ha Hb], Hf as [Haw Hf]. apply negb_true_iff in Hf.
    destruct (digit_plain a Ha) as (E1 & E2 & E3 & E4). cbn [redact_loop].
    rewrite E1, E2, E3, E4, Ha, Haw. cbn [andb]. f_equal.
    apply (skip_while_all number_char (a :: b)); [|done]. cbn [forallb]. unfold number_char at 1. by rewrite Ha.
  - apply negb_true_iff, orb_false_iff in Hb as [E1 E2]. apply andb_true_iff in Hf as [Hf E4].
    apply andb_true_iff in Hf as [Hd E3]. apply negb_true_iff in E3, E4. cbn [redact_loop].
    rewrite E1, E2, E3, E4. destruct (is_digit a); [|done]. rewrite orb_false_r in Hd. by rewrite Hd.
  - apply at_end_nil in Hf as ->. rewrite app_nil_r. cbn [redact_loop]. by rewrite (quoted_open SQ).
  - apply at_end_nil in Hf as ->. rewrite app_nil_r. cbn [redact_loop]. by rewrite (quoted_open DQ).
  - apply at_end_nil in Hf as ->. rewrite app_nil_r. cbn [redact_loop].
    cbn [Ascii.eqb Bool.eqb andb starts SQ DQ tail]. by rewrite skip_block_open.
Qed.

Lemma source_length t : (1 <= length (source t))%nat.
Proof. destruct t; simpl; lia. Qed.

Lemma redact_nil fuel out : redact_loop fuel out [] = out.
Proof. by destruct fuel. Qed.

(** As many iterations as there are characters are enough. *)
Lemma redact_tokens l fuel out :
  lexes out l = true -> (length (sources l) <= fuel)%nat ->
  redact_loop fuel out (sources l) = rev (output l) ++ out.
Proof.
  revert fuel out. induction l as [|t l IH]; intros fuel out; cbn [lexes sources output flat_map].
  - intros _ _. apply redact_nil.
  - fold (sources l) (output l). intros [[Hb Hf]%andb_true_iff Hl]%andb_true_iff. rewrite length_app.
    pose proof (source_length t). intros Hfuel. destruct fuel as [|fuel]; [lia|].
    rewrite redact_token, IH by (done || lia). by rewrite rev_app_distr, app_assoc.
Qed.

(** ** Every text is a text of tokens *)

Lemma quoted_spec q s :
  (exists b r, s = double q b ++ q :: r /\ starts q r = false) \/ (exists b, s = double q b).
Proof.
  enough (forall n s, (length s <= n)%nat ->
    (exists b r, s = double q b ++ q :: r /\ starts q r = false) \/ (exists b, s = double q b)) by eauto.
  clear s. induction n as [|n IH]; intros s Hs.
  { right. exists []. destruct s; [done|simpl in Hs; lia]. }
  destruct s as [|a s]; [right; by exists []|]. simpl in Hs. destruct (Ascii.eqb a q) eqn:Ea.
  - apply eqb_of_char in Ea as ->. destruct (starts q s) eqn:Hq.
    + destruct s as [|c s]; [done|]. apply eqb_of_char in Hq as ->. simpl in Hs.
      destruct (IH s) as [(b & r & -> & Hr)|(b & ->)]; [lia| |].
      * left. exists (q :: b), r. cbn [double flat_map]. by rewrite Ascii.eqb_refl.
      * right. exists (q :: b). cbn [double flat_map]. by rewrite Ascii.eqb_refl.
    + left. by exists [], s.
  - destruct (IH s) as [(b & r & -> & Hr)|(b & ->)]; [lia| |].
    + left. exists (a :: b), r. cbn [double flat_map]. by rewrite Ea.
    + right. exists (a :: b). cbn [double flat_map]. by rewrite Ea.
Qed.

Lemma skip_while_spec p s : exists b r, s = b ++ r /\ forallb p b = true /\ starts_p p r = false.
Proof.
  induction s as [|a s (b & r & -> & Hb & Hr)]; [by exists [], []|]. destruct (p a) eqn:Ha.
  - exists (a :: b), r. cbn [forallb]. by rewrite Ha.
  - by exists [], (a :: b ++ r).
Qed.

Lemma block_spec s :
  (exists b r, s = b ++ "*"%char :: "/"%char :: r /\ no_close (b ++ ["*"%char]) = true) \/ no_close s = true.
Proof.
  induction s as [|a s IH]; [by right|]. destruct (Ascii.eqb a "*" && starts "/" s) eqn:E.
  - apply andb_true_iff in E as [->%eqb_of_char Es]. destruct s as [|c s]; [done|].
    apply eqb_of_char in Es as ->. left. by exists [], s.
  - destruct IH as [(b & r & -> & Hb)|Hs].
    + left. exists (a :: b), r. split; [done|]. cbn [app no_close]. rewrite Hb, andb_true_r.
      apply negb_true_iff. destruct b; [cbn [app starts]; by rewrite andb_false_r|done].
    + right. cbn [no_close]. by rewrite E, Hs.
Qed.

Lemma first_token out s :
  s <> [] -> exists t r, s = source t ++ r /\ body_ok t = true /\ follows (after_word out) t r = true.
Proof.
  intros Hs. destruct s as [|ch s]; [done|]. clear Hs. destruct (Ascii.eqb ch SQ) eqn:E1.
  { apply eqb_of_char in E1 as ->. destruct (quoted_spec SQ s) as [(b & r & -> & Hr)|(b & ->)].
    - exists (TLiteral b), r. cbn [source follows]. rewrite Hr. cbn [app]. rewrite <-!app_assoc. done.
    - exists (TOpenLiteral b), []. cbn [source]. by rewrite app_nil_r. }
  destruct (Ascii.eqb ch DQ) eqn:E2.
  { apply eqb_of_char in E2 as ->. destruct (quoted_spec DQ s) as [(b & r & -> & Hr)|(b & ->)].
    - exists (TIdent b), r. cbn [source follows]. rewrite Hr. cbn [app]. rewrite <-!app_assoc. done.
    - exists (TOpenIdent b), []. cbn [source]. by rewrite app_nil_r. }
  destruct (Ascii.eqb ch "-" && starts "-" s) eqn:E3.
  { apply andb_true_iff in E3 as [->%eqb_of_char E3]. destruct s as [|c s]; [done|]. apply eqb_of_char in E3 as ->.
    destruct (skip_while_spec (fun a => negb (Ascii.eqb a NL)) s) as (b & r & -> & Hb & Hr).
    exists (TLine b), r. split_and!; [done..|]. destruct r as [|c r]; [done|]. cbn [follows starts starts_p] in *.
    apply negb_false_iff in Hr. by rewrite Hr. }
  destruct (Ascii.eqb ch "/" && starts "*" s) eqn:E4.
  { apply andb_true_iff in E4 as [->%eqb_of_char E4]. destruct s as [|c s]; [done|]. apply eqb_of_char in E4 as ->.
    destruct (block_spec s) as [(b & r & -> & Hb)|Hb].
    - exists (TBlock b), r. cbn [source app]. by rewrite <-app_assoc.
    - exists (TOpenBlock s), []. cbn [source app]. by rewrite app_nil_r. }
  destruct (is_digit ch && negb (after_word out)) eqn:E5.
  { apply andb_true_iff in E5 as [Hd Ha]. destruct (skip_while_spec number_char s) as (b & r & -> & Hb & Hr).
    exists (TNumber ch b), r. cbn [source body_ok follows app]. by rewrite Hd, Hb, Ha, Hr. }
  exists (TChar ch), s. cbn [source body_ok follows app]. rewrite E1, E2, E3, E4. split_and!; [done..|].
  rewrite !andb_true_r. destruct (after_word out), (is_digit ch); done.
Qed.

Lemma tokens_exist s : forall out, exists l, s = sources l /\ lexes out l = true.
Proof.
  enough (forall n s out, (length s <= n)%nat -> exists l, s = sources l /\ lexes out l = true) by eauto.
  clear s. induction n as [|n IH]; intros s out Hn.
  { exists []. destruct s; [done|simpl in Hn; lia]. }
  destruct s as [|a s]; [by exists []|].
  destruct (first_token out (a :: s)) as (t & r & E & Hb & Hf); [done|]. rewrite E in *. clear E a s.
  pose proof (source_length t). rewrite length_app in Hn.
  destruct (IH r (rev (shown t) ++ out)) as (l & -> & Hl); [lia|].
  exists (t :: l). split; [done|]. cbn [lexes]. by rewrite Hb, Hf, Hl.
Qed.

(** ** What a text shares with one of the same shape *)

Definition alike (r r' : text) : Prop :=
  match r, r' with
  | [], [] => True
  | a :: _, b :: _ => a = b \/ is_digit a = true /\ is_digit b = true
  | _, _ => False
  end.

Lemma starts_alike c r r' : is_digit c = false -> alike r r' -> starts c r = starts c r'.
Proof.
  intros Hc H. destruct r as [|a r], r' as [|b r']; try done. destruct H as [->|[Ha Hb]]; [done|]. cbn [starts].
  assert (forall d, is_digit d = true -> Ascii.eqb d c = false) as Hd.
  { intros d Hd. apply Ascii.eqb_neq. intros ->. congruence. }
  by rewrite !Hd.
Qed.

Lemma at_end_alike r r' : alike r r' -> at_end r = at_end r'.
Proof. by destruct r, r'. Qed.

Lemma number_alike r r' : alike r r' -> starts_p number_char r = starts_p number_char r'.
Proof.
  intros H. destruct r as [|a r], r' as [|b r']; try done. destruct H as [->|[Ha Hb]]; [done|].
  cbn [starts_p]. unfold number_char. by rewrite Ha, Hb.
Qed.

Lemma follows_alike after t t' r r' :
  same_shape t t' -> alike r r' -> follows after t r = true -> follows after t' r' = true.
Proof.
  intros Ht Hr H.
  assert (forall c, is_digit c = false -> starts c r' = starts c r) as Hs
    by (intros; symmetry; by apply starts_alike).
  assert (at_end r' = at_end r) as He by (symmetry; by apply at_end_alike).
  assert (starts_p number_char r' = starts_p number_char r) as Hn by (symmetry; by apply number_alike).
  destruct t, t'; cbn [same_shape] in Ht; simplify_eq; cbn [follows] in *; rewrite ?Hs, ?He, ?Hn by done; done.
Qed.

Lemma shown_shape t t' : same_shape t t' -> shown t' = shown t.
Proof. destruct t, t'; cbn [same_shape]; intros; by simplify_eq. Qed.

Lemma alike_sources l l' :
  Forall2 same_shape l l' -> forallb body_ok l = true -> forallb body_ok l' = true -> alike (sources l) (sources l').
Proof.
  intros H Hb Hb'. destruct H as [|t t' l l' Ht _]; [done|]. cbn [forallb] in *.
  apply andb_true_iff in Hb as [Hb _], Hb' as [Hb' _].
  destruct t, t'; cbn [same_shape] in Ht; simplify_eq; try (left; reflexivity).
  right. cbn [body_ok] in *. by apply andb_true_iff in Hb as [-> _], Hb' as [-> _].
Qed.

Lemma lexes_bodies out l : lexes out l = true -> forallb body_ok l = true.
Proof.
  revert out. induction l as [|t l IH]; intros out; [done|]. cbn [lexes forallb].
  intros [[-> _]%andb_true_iff H]%andb_true_iff. by rewrite (IH _ H).
Qed.

Lemma lexes_shape out l l' :
  Forall2 same_shape l l' -> forallb body_ok l' = true -> lexes out l = true -> lexes out l' = true.
Proof.
  intros H. revert out. induction H as [|t t' l l' Ht H IH]; intros out; [done|]. cbn [lexes forallb].
  intros [Hb' Hbs]%andb_true_iff [[Hb Hf]%andb_true_iff Hl]%andb_true_iff.
  rewrite Hb', (shown_shape t t'), IH by done. rewrite andb_true_r. cbn [andb].
  eapply follows_alike; [done| |done]. apply alike_sources; [done| |done]. by eapply lexes_bodies.
Qed.

Lemma output_shape l l' : Forall2 same_shape l l' -> output l' = output l.
Proof. induction 1 as [|t t' l l' Ht H IH]; [done|]. cbn [output flat_map]. by rewrite (shown_shape t t') by done; f_equal. Qed.

Lemma redact_string l :
  lexes [] l = true ->
  redactSqlLiterals (String.string_of_list_ascii (sources l)) = trim (String.string_of_list_ascii (output l)).
Proof.
  intros Hl. unfold redactSqlLiterals. rewrite String.list_ascii_of_string_of_list_ascii, redact_tokens by done.
  by rewrite app_nil_r, rev_involutive.
Qed.

(** ** Theorem *)

(** Redaction hides what it means to hide, on every SQL text: a text is a
    sequence of tokens, the scanner reads it to the end (as many iterations as
    characters are enough) and shows a question mark for each string literal and
    number, a blank for each comment, quoted identifiers and everything else
    verbatim; an unclosed literal or comment takes the rest of the text.  Any other
    contents of the literals, numbers and comments give the very same output. *)
Theorem redaction_hides sql :
  exists l, sql = String.string_of_list_ascii (sources l) /\
    redactSqlLiterals sql = trim (String.string_of_list_ascii (output l)) /\
    forall l', Forall2 same_shape l l' -> forallb body_ok l' = true ->
      redactSqlLiterals (String.string_of_list_ascii (sources l')) = redactSqlLiterals sql.
Proof.
  destruct (tokens_exist (String.list_ascii_of_string sql) []) as (l & E & Hl). exists l.
  assert (sql = String.string_of_list_ascii (sources l)) as Hsql
    by (by rewrite <-E, String.string_of_list_ascii_of_string).
  split; [done|]. split; [rewrite Hsql; by apply redact_string|]. intros l' H Hb.
  rewrite Hsql, redact_string, (redact_string l) by (done || by eapply lexes_shape).
  by rewrite (output_shape l l').
Qed.

Lemma redaction_hides_witness :
  redactSqlLiterals "select 12 -- x" = "select ?" /\
  exists l, redactSqlLiterals "select 12 -- x" = trim (String.string_of_list_ascii (output l)).
Proof.
  split; [vm_compute; reflexivity|].
  destruct (redaction_hides "select 12 -- x") as (l & _ & H & _). by exists l.
Defined.
