(* ===== verification/Memo.v ===== *)
(** * [domain-api/src/adapters/upstream/{memo,errors}.ts]

    The memo the upstream adapters share: single flight, a short time to live, an
    LRU bound on entries and weight.  The entries are objects shared between the
    map and the callbacks of their promises, so they live in a heap and the map
    holds their addresses; the map keeps its keys in insertion order, the least
    recently used first.  A promise that settles is one step of the model, at a
    time of its own. *)

From S2P Require Import Prelude JsBase.
From Stdlib Require Import QArith.
From Stdlib Require Qround.
Open Scope Z_scope.

(** ** Errors *)

Inductive UpstreamErrorKind :=
| Unreachable | TimedOut | Unauthenticated | Forbidden | NotFound | UpstreamFailed | Overloaded | Malformed.

#[export] Instance UpstreamErrorKind_eq_dec : EqDecision UpstreamErrorKind.
Proof. solve_decision. Defined.

Definition error_kind (k : UpstreamErrorKind) : string :=
  match k with
  | Unreachable => "unreachable" | TimedOut => "timeout" | Unauthenticated => "unauthenticated"
  | Forbidden => "forbidden" | NotFound => "not_found" | UpstreamFailed => "upstream_error"
  | Overloaded => "overloaded" | Malformed => "malformed"
  end.

(** What a load rejects with: an [UpstreamError], or another error. *)
Inductive LoadError :=
| UpstreamError (kind : UpstreamErrorKind) (upstream : string) (status : option Z)
| AnyError.

Definition UpstreamError_message (kind : UpstreamErrorKind) (upstream : string) (status : option Z) : string :=
  "Upstream '" +:+ upstream +:+ "' request failed: " +:+ error_kind kind +:+
  match status with Some s => " (HTTP " +:+ pretty s +:+ ")" | None => EmptyString end.

Definition describeUpstreamFailure (error : LoadError) (subject : string) : string :=
  match error with
  | UpstreamError (Forbidden | Unauthenticated) _ _ =>
      subject +:+ " is unavailable: the upstream did not accept Manager's service credential"
  | _ => subject +:+ " is currently unavailable"
  end.

(** ** Weights *)

(** The value of [o.weight?.(value) ?? 1]: a number, something else, or a throw. *)
Inductive Weight := WFinite (q : Q) | WPosInf | WNegInf | WNaN | WOther | WThrows.

(** [None] is [Infinity]. *)
Definition normalizeWeight (w : Weight) : option Z :=
  match w with
  | WFinite q => if Qle_bool 1 q then Some (Qround.Qceiling q) else Some 1
  | WPosInf => None
  | WNegInf | WNaN | WOther | WThrows => Some 1
  end.

Lemma normalizeWeight_pos w n : normalizeWeight w = Some n -> 1 <= n.
Proof.
  destruct w as [q| | | | |]; cbn [normalizeWeight]; intros H; simplify_eq; try lia.
  destruct (Qle_bool 1 q) eqn:E; simplify_eq; [|lia]. apply Qle_bool_iff in E.
  pose proof (Qround.Qceiling_resp_le _ _ E). by change (Qround.Qceiling 1) with 1 in *.
Qed.

(** ** The memo *)

Record MemoOptions := mkMemo { ttlMs : Z; negativeTtlMs : Z; maxEntries : Z; maxWeight : Z }.

(** The options of one call: its time to live, the weight of what it loads. *)
Record LoadOptions := mkLoad { lo_ttlMs : option Z; lo_weight : Weight }.

Record Entry := mkEntry { en_pending : bool; en_expires : Z; en_weight : Z }.

(** [cache], the heap of entries, [totalWeight]; the key and options the callbacks
    of a promise that has not settled close over. *)
Record MemoState := mkState {
  cache : list (string * nat);
  heap : gmap nat Entry;
  totalWeight : Z;
  loads : gmap nat (string * LoadOptions);
  next : nat;
}.

Definition empty_memo : MemoState := mkState [] ∅ 0 ∅ 0.

Definition with_cache (s : MemoState) (c : list (string * nat)) (w : Z) : MemoState :=
  mkState c (heap s) w (loads s) (next s).

Definition set_entry (s : MemoState) (e : nat) (x : Entry) : MemoState :=
  mkState (cache s) (<[e := x]> (heap s)) (totalWeight s) (loads s) (next s).

Definition weight_of (s : MemoState) (e : nat) : Z := from_option en_weight 0 (heap s !! e).

Definition isLive (s : MemoState) (key : string) (e : nat) : bool := bool_decide (map_get key (cache s) = Some e).

Definition link (s : MemoState) (key : string) (e : nat) : MemoState :=
  with_cache s (map_set key e (cache s)) (totalWeight s + weight_of s e).

Definition unlink (s : MemoState) (key : string) (e : nat) : MemoState :=
  if isLive s key e then with_cache s (map_delete key (cache s)) (totalWeight s - weight_of s e) else s.

Definition reweigh (s : MemoState) (key : string) (e : nat) (weight : Z) : MemoState :=
  if isLive s key e then
    set_entry (with_cache s (cache s) (totalWeight s + (weight - weight_of s e))) e
      (match heap s !! e with
       | Some x => mkEntry (en_pending x) (en_expires x) weight
       | None => mkEntry false 0 weight
       end)
  else s.

Section memo.
Context (options : MemoOptions).

Definition over (s : MemoState) : bool :=
  (maxEntries options <? Z.of_nat (length (cache s))) || (maxWeight options <? totalWeight s).

(** One iteration per entry at most. *)
Fixpoint evict_loop (fuel : nat) (s : MemoState) : MemoState :=
  match fuel with
  | O => s
  | S fuel =>
      if over s then
        match cache s with
        | [] => s
        | (key, e) :: _ => evict_loop fuel (unlink s key e)
        end
      else s
  end.

Definition evict (s : MemoState) : MemoState := evict_loop (length (cache s)) s.

Definition cacheable (error : LoadError) : bool :=
  match error with
  | UpstreamError k _ _ => negb (bool_decide (k = TimedOut)) && negb (bool_decide (k = Overloaded))
  | AnyError => false
  end.

Definition live_hit (now : Z) (s : MemoState) (key : string) : option nat :=
  match map_get key (cache s) with
  | Some e =>
      match heap s !! e with
      | Some x => if en_pending x || (now <? en_expires x) then Some e else None
      | None => None
      end
  | None => None
  end.

(** [cache.delete(key); cache.set(key, hit)] *)
Definition touch (s : MemoState) (key : string) (e : nat) : MemoState :=
  with_cache s (map_set key e (map_delete key (cache s))) (totalWeight s).

Definition start_load (s : MemoState) (key : string) (o : LoadOptions) : MemoState :=
  mkState (cache s) (<[next s := mkEntry true 0 1]> (heap s)) (totalWeight s)
    (<[next s := (key, o)]> (loads s)) (S (next s)).

(** The promise the call returns, named by its entry; whether [load] was called. *)
Definition memo (now : Z) (key : string) (o : LoadOptions) (s : MemoState) : MemoState * (nat * bool) :=
  match live_hit now s key with
  | Some e => (touch s key e, (e, false))
  | None =>
      let s1 := match map_get key (cache s) with Some e => unlink s key e | None => s end in
      let s2 := start_load s1 key o in
      (evict (link s2 key (next s)), (next s, true))
  end.

Inductive Outcome := Loaded | Rejected (error : LoadError).

Definition not_pending (s : MemoState) (e : nat) : MemoState :=
  match heap s !! e with
  | Some x => set_entry s e (mkEntry false (en_expires x) (en_weight x))
  | None => s
  end.

Definition expire_at (s : MemoState) (e : nat) (t : Z) : MemoState :=
  match heap s !! e with
  | Some x => set_entry s e (mkEntry (en_pending x) t (en_weight x))
  | None => s
  end.

Definition on_loaded (now : Z) (key : string) (e : nat) (o : LoadOptions) (s : MemoState) : MemoState :=
  let ttl := default (ttlMs options) (lo_ttlMs o) in
  match normalizeWeight (lo_weight o) with
  | Some weight =>
      if (ttl <=? 0) || (maxWeight options <? weight) then unlink s key e
      else evict (expire_at (reweigh s key e weight) e (now + ttl))
  | None => unlink s key e
  end.

Definition on_rejected (now : Z) (key : string) (e : nat) (error : LoadError) (s : MemoState) : MemoState :=
  if (0 <? negativeTtlMs options) && cacheable error then expire_at s e (now + negativeTtlMs options)
  else unlink s key e.

Definition forget_load (s : MemoState) (e : nat) : MemoState :=
  mkState (cache s) (heap s) (totalWeight s) (delete e (loads s)) (next s).

(** The promise of entry [e] settles: its callback runs, once. *)
Definition settle (now : Z) (e : nat) (outcome : Outcome) (s : MemoState) : MemoState :=
  match loads s !! e with
  | None => s
  | Some (key, o) =>
      let s1 := not_pending (forget_load s e) e in
      if isLive s1 key e then
        match outcome with
        | Loaded => on_loaded now key e o s1
        | Rejected error => on_rejected now key e error s1
        end
      else s1
  end.

Definition invalidate (key : string) (s : MemoState) : MemoState :=
  match map_get key (cache s) with Some e => unlink s key e | None => s end.

(** [stats().sum] *)
Definition weight_sum (s : MemoState) : Z := foldr (fun (ke : string * nat) t => weight_of s ke.2 + t) 0 (cache s).

(** ** Executions *)

Inductive MemoEvent :=
| Memo (now : Z) (key : string) (o : LoadOptions)
| Settle (now : Z) (e : nat) (outcome : Outcome)
| Invalidate (key : string).

Definition memo_step (ev : MemoEvent) (s : MemoState) : MemoState :=
  match ev with
  | Memo now key o => (memo now key o s).1
  | Settle now e outcome => settle now e outcome s
  | Invalidate key => invalidate key s
  end.

Definition memo_run (evs : list MemoEvent) (s : MemoState) : MemoState := foldl (fun s ev => memo_step ev s) s evs.
End memo.

(** ** Lemmas: the map *)

Lemma map_get_delete {V} k k' (m : list (string * V)) :
  map_get k' (map_delete k m) = if decide (k' = k) then None else map_get k' m.
Proof.
  unfold map_delete. induction m as [|[k0 v0] m IH]; cbn [List.filter map_get fst].
  - by case_decide.
  - destruct (decide (k0 = k)) as [->|Hk].
    + rewrite bool_decide_true by done. cbn [negb]. rewrite IH. by repeat case_decide.
    + rewrite bool_decide_false by done. cbn [negb map_get]. rewrite IH. repeat case_decide; congruence.
Qed.

Lemma elem_of_delete {V} k (m : list (string * V)) x : x ∈ map_delete k m <-> x ∈ m /\ x.1 <> k.
Proof.
  unfold map_delete. rewrite elem_of_filterb. rewrite negb_true_iff, bool_decide_eq_false. done.
Qed.

Lemma sublist_delete {V} k (m : list (string * V)) : sublist (map_delete k m) m.
Proof.
  unfold map_delete. induction m as [|kv m IH]; cbn [List.filter]; [constructor|].
  destruct (negb _); by constructor.
Qed.

Lemma map_delete_absent {V} k (m : list (string * V)) : k ∉ m.*1 -> map_delete k m = m.
Proof.
  unfold map_delete. induction m as [|[k0 v0] m IH]; [done|]. csimpl. intros Hk.
  rewrite bool_decide_false by set_solver. cbn [negb]. f_equal. apply IH. set_solver.
Qed.

Lemma map_set_absent {V} k v (m : list (string * V)) : k ∉ m.*1 -> map_set k v m = m ++ [(k, v)].
Proof.
  induction m as [|[k0 v0] m IH]; [done|]. csimpl. intros Hk. rewrite decide_False by set_solver.
  f_equal. apply IH. set_solver.
Qed.

(** A binding taken out of the map. *)
Lemma map_delete_perm {V} k v (m : list (string * V)) :
  NoDup m.*1 -> map_get k m = Some v -> m ≡ₚ (k, v) :: map_delete k m.
Proof.
  induction m as [|[k0 v0] m IH]; [done|]. csimpl. intros [Hk Hm]%NoDup_cons. unfold map_delete.
  cbn [List.filter fst]. case_decide as E.
  - subst. intros [= ->]. rewrite bool_decide_true by done. cbn [negb].
    fold (map_delete k0 m). by rewrite map_delete_absent.
  - intros H. rewrite bool_decide_false by congruence. cbn [negb]. fold (map_delete k m).
    rewrite (IH Hm H) at 1. apply perm_swap.
Qed.

(** ** The invariant *)

Definition entry_ok (s : MemoState) (ke : string * nat) : Prop :=
  exists x, heap s !! ke.2 = Some x /\ 1 <= en_weight x /\ (ke.2 < next s)%nat /\
    if en_pending x then exists o, loads s !! ke.2 = Some (ke.1, o) else loads s !! ke.2 = None.

(** Distinct keys, distinct entries, every linked entry alive, the total the sum. *)
Record memo_ok (s : MemoState) : Prop := {
  ok_keys : NoDup (cache s).*1;
  ok_entries : NoDup (cache s).*2;
  ok_entry : forall ke, ke ∈ cache s -> entry_ok s ke;
  ok_total : totalWeight s = weight_sum s;
  ok_loads : forall e l, loads s !! e = Some l -> (e < next s)%nat;
}.

Lemma weight_sum_perm s c c' :
  c ≡ₚ c' -> foldr (fun (ke : string * nat) t => weight_of s ke.2 + t) 0 c = foldr (fun (ke : string * nat) t => weight_of s ke.2 + t) 0 c'.
Proof. induction 1; simpl; lia. Qed.

Lemma memo_ok_unlink s key e : memo_ok s -> memo_ok (unlink s key e).
Proof.
  intros [Hk He Hen Ht Hl]. unfold unlink. destruct (isLive s key e) eqn:Hlive; [|done].
  apply bool_decide_eq_true in Hlive. pose proof (map_delete_perm _ _ _ Hk Hlive) as HP.
  split; cbn [with_cache cache heap totalWeight loads next].
  - eapply sublist_NoDup; [done|]. apply fmap_sublist, sublist_delete.
  - eapply sublist_NoDup; [done|]. apply fmap_sublist, sublist_delete.
  - intros ke [Hin _]%elem_of_delete. exact (Hen ke Hin).
  - rewrite Ht. unfold weight_sum. rewrite (weight_sum_perm s _ _ HP). simpl.
    change (weight_of (with_cache s _ _)) with (weight_of s). lia.
  - exact Hl.
Qed.

Lemma memo_ok_touch s key e : memo_ok s -> map_get key (cache s) = Some e -> memo_ok (touch s key e).
Proof.
  intros [Hk He Hen Ht Hl] Hg. pose proof (map_delete_perm _ _ _ Hk Hg) as HP.
  assert (map_set key e (map_delete key (cache s)) ≡ₚ cache s) as HP'.
  { rewrite map_set_absent; [rewrite Permutation_app_comm; by symmetry|].
    intros (ke & -> & [_ Hne]%elem_of_delete)%list_elem_of_fmap. done. }
  split; cbn [touch with_cache cache heap totalWeight loads next].
  - by rewrite HP'.
  - by rewrite HP'.
  - intros ke Hin. rewrite HP' in Hin. exact (Hen ke Hin).
  - rewrite Ht. exact (eq_sym (weight_sum_perm s _ _ HP')).
  - exact Hl.
Qed.

(** Changing an entry that is not linked, or not its weight. *)
Lemma weight_sum_ext s s' :
  cache s' = cache s -> (forall ke, ke ∈ cache s -> weight_of s' ke.2 = weight_of s ke.2) ->
  weight_sum s' = weight_sum s.
Proof.
  intros Hc Hw. unfold weight_sum. rewrite Hc. clear Hc. revert Hw. generalize (cache s). intros c.
  induction c as [|ke c IH]; intros Hw; [done|]. simpl.
  rewrite Hw by left. f_equal. apply IH. intros ke' Hin. apply Hw. by right.
Qed.

Lemma weight_of_set s e x e' :
  weight_of (set_entry s e x) e' = if decide (e' = e) then en_weight x else weight_of s e'.
Proof.
  unfold weight_of. cbn [set_entry heap]. case_decide; subst; [by rewrite lookup_insert_eq|].
  by rewrite lookup_insert_ne.
Qed.

(** ** The operations keep the invariant *)

Lemma unlink_length s key e : memo_ok s -> map_get key (cache s) = Some e ->
  length (cache s) = S (length (cache (unlink s key e))).
Proof.
  intros Hs Hg. unfold unlink, isLive. rewrite bool_decide_true by done. cbn [with_cache cache].
  exact (Permutation_length (map_delete_perm _ _ _ (ok_keys s Hs) Hg)).
Qed.

Lemma head_live s key e c : cache s = (key, e) :: c -> map_get key (cache s) = Some e.
Proof. intros ->. cbn [map_get]. by rewrite decide_True. Qed.

Section evict.
Context (o : MemoOptions) (He : 0 <= maxEntries o) (Hw : 0 <= maxWeight o).

Definition within (s : MemoState) : Prop :=
  Z.of_nat (length (cache s)) <= maxEntries o /\ totalWeight s <= maxWeight o.

Lemma not_over s : over o s = false -> within s.
Proof. unfold over, within. intros [?%Z.ltb_ge ?%Z.ltb_ge]%orb_false_iff. done. Qed.

(** What [evict] keeps, for any property the removal of an entry keeps. *)
Lemma evict_loop_ind (P : MemoState -> Prop) n s :
  (forall s key e, memo_ok s -> P s -> map_get key (cache s) = Some e -> P (unlink s key e)) ->
  memo_ok s -> P s -> P (evict_loop o n s).
Proof.
  intros HP. revert s. induction n as [|n IH]; intros s Hs Hp; cbn [evict_loop]; [done|].
  destruct (over o s); [|done]. destruct (cache s) as [|[key e] c] eqn:Hc; [done|].
  apply IH; [by apply memo_ok_unlink|]. apply HP; [done..|]. by eapply head_live.
Qed.

Lemma memo_ok_evict s : memo_ok s -> memo_ok (evict o s).
Proof. intros Hs. unfold evict. apply (evict_loop_ind memo_ok); [|done..]. intros. by apply memo_ok_unlink. Qed.

Lemma evict_within s : memo_ok s -> within (evict o s).
Proof.
  intros Hs. unfold evict. enough (forall n s, memo_ok s -> (length (cache s) <= n)%nat -> within (evict_loop o n s)) by eauto.
  clear s Hs. induction n as [|n IH]; intros s Hs Hn.
  - assert (cache s = []) as Hc by (destruct (cache s); [done|simpl in Hn; lia]).
    cbn [evict_loop]. unfold within. rewrite (ok_total s Hs). unfold weight_sum. rewrite Hc. simpl. lia.
  - cbn [evict_loop]. destruct (over o s) eqn:Ho; [|by apply not_over].
    destruct (cache s) as [|[key e] c] eqn:Hc.
    + unfold within. rewrite (ok_total s Hs). unfold weight_sum. rewrite Hc. simpl. lia.
    + apply IH; [by apply memo_ok_unlink|]. apply head_live in Hc as Hg.
      pose proof (unlink_length s key e Hs Hg) as Hl. rewrite Hc in Hl. simpl in *. lia.
Qed.
End evict.

Lemma memo_ok_start s key o : memo_ok s -> memo_ok (start_load s key o).
Proof.
  intros [Hk He Hen Ht Hl].
  assert (forall ke, ke ∈ cache s -> ke.2 <> next s) as Hne.
  { intros ke Hin E. destruct (Hen ke Hin) as (x & _ & _ & Hlt & _). lia. }
  split; cbn [start_load cache heap totalWeight loads next]; [done..| | |].
  - intros ke Hin. destruct (Hen ke Hin) as (x & Hx & Hw & Hlt & Hp). exists x.
    cbn [start_load heap loads next]. specialize (Hne ke Hin).
    rewrite !lookup_insert_ne by done. split_and!; [done|done|lia|done].
  - rewrite Ht. symmetry. apply weight_sum_ext; [done|]. intros ke Hin. unfold weight_of.
    cbn [start_load heap]. by rewrite lookup_insert_ne by (symmetry; auto).
  - intros e l. rewrite lookup_insert. case_decide; [lia|]. intros Hx%Hl. lia.
Qed.

Lemma memo_ok_link s key o :
  memo_ok s -> map_get key (cache s) = None -> memo_ok (link (start_load s key o) key (next s)).
Proof.
  intros Hs Hg. pose proof (memo_ok_start s key o Hs) as [Hk He Hen Ht Hl]. apply map_get_None in Hg.
  assert (forall ke, ke ∈ cache s -> ke.2 <> next s) as Hne.
  { intros ke Hin E. destruct (ok_entry s Hs ke Hin) as (x & _ & _ & Hlt & _). lia. }
  cbn [start_load cache] in *. unfold link. rewrite map_set_absent by done.
  split; cbn [with_cache start_load cache heap totalWeight loads next].
  - rewrite fmap_app, NoDup_app. csimpl. split_and!; [done|set_solver|apply NoDup_singleton].
  - rewrite fmap_app, NoDup_app. csimpl. split_and!; [done| |apply NoDup_singleton].
    intros e (ke & -> & Hin)%list_elem_of_fmap. rewrite list_elem_of_singleton. auto.
  - intros ke [Hin|Hke%list_elem_of_singleton]%elem_of_app; [exact (Hen ke Hin)|subst ke].
    exists (mkEntry true 0 1). cbn. rewrite !lookup_insert_eq. split_and!; [done|lia|lia|]. eauto.
  - cbn [start_load totalWeight] in Ht. rewrite Ht. unfold weight_sum at 2. cbn [with_cache cache].
    rewrite foldr_app. simpl. change (weight_of (with_cache _ _ _)) with (weight_of (start_load s key o)).
    unfold weight_sum. cbn [start_load cache]. generalize (weight_of (start_load s key o) (next s)). intros w.
    clear. generalize (cache s). intros c. induction c as [|ke c IH]; simpl in *; lia.
  - exact Hl.
Qed.

Lemma memo_ok_set s e x y :
  memo_ok s -> heap s !! e = Some y -> en_weight x = en_weight y ->
  en_pending x = en_pending y -> memo_ok (set_entry s e x).
Proof.
  intros [Hk He Hen Ht Hl] Hy Hw Hp. split; cbn [set_entry cache heap totalWeight loads next]; [done..| | |done].
  - intros ke Hin. destruct (Hen ke Hin) as (z & Hz & Hzw & Hlt & Hzp). unfold entry_ok.
    cbn [set_entry heap loads next]. destruct (decide (ke.2 = e)) as [E|E].
    + exists x. rewrite E in *. rewrite lookup_insert_eq. simplify_eq. rewrite Hp. split_and!; [done|lia|done..].
    + exists z. by rewrite lookup_insert_ne.
  - rewrite Ht. symmetry. apply weight_sum_ext; [done|]. intros ke _. rewrite weight_of_set.
    case_decide as E; [|done]. unfold weight_of. rewrite E, Hy. done.
Qed.

Lemma memo_ok_not_pending s e : memo_ok s -> memo_ok (not_pending (forget_load s e) e).
Proof.
  intros [Hk He Hen Ht Hl]. unfold not_pending. cbn [forget_load heap].
  assert (forall ke, ke ∈ cache s -> ke.2 <> e -> entry_ok (forget_load s e) ke) as Hother.
  { intros ke Hin Hne. destruct (Hen ke Hin) as (z & Hz & Hzw & Hlt & Hzp). exists z.
    cbn [forget_load heap loads next]. by rewrite lookup_delete_ne. }
  assert (forall e' l, delete e (loads s) !! e' = Some l -> (e' < next s)%nat) as Hl'.
  { intros e' l [_ H]%lookup_delete_Some. by eapply Hl. }
  destruct (heap s !! e) as [x|] eqn:Hx.
  - split; cbn [set_entry forget_load cache heap totalWeight loads next]; [done..| | |done].
    + intros ke Hin. destruct (decide (ke.2 = e)) as [E|E].
      * destruct (Hen ke Hin) as (z & Hz & Hzw & Hlt & _). rewrite E, Hx in Hz. injection Hz as <-.
        exists (mkEntry false (en_expires x) (en_weight x)). cbn [set_entry forget_load heap loads next].
        rewrite E in *. rewrite lookup_insert_eq, lookup_delete_eq. by split_and!.
      * destruct (Hother ke Hin E) as (z & Hz & Hrest). exists z. cbn [set_entry forget_load heap] in *.
        by rewrite lookup_insert_ne.
    + rewrite Ht. symmetry. apply weight_sum_ext; [done|]. intros ke _. rewrite weight_of_set.
      case_decide as E; [|done]. unfold weight_of. by rewrite E, Hx.
  - split; cbn [forget_load cache heap totalWeight loads next]; [done..| |done|done].
    intros ke Hin. apply Hother; [done|]. intros E. destruct (Hen ke Hin) as (z & Hz & _). congruence.
Qed.

Lemma live_entry s key e : memo_ok s -> map_get key (cache s) = Some e -> exists x, heap s !! e = Some x /\ 1 <= en_weight x.
Proof.
  intros Hs Hg%map_get_elem_of. destruct (ok_entry s Hs _ Hg) as (x & Hx & Hw & _). eauto.
Qed.

Lemma weight_sum_other s s' e (c : list (string * nat)) :
  (forall e', e' <> e -> weight_of s' e' = weight_of s e') -> e ∉ c.*2 ->
  foldr (fun (ke : string * nat) t => weight_of s' ke.2 + t) 0 c =
  foldr (fun (ke : string * nat) t => weight_of s ke.2 + t) 0 c.
Proof.
  intros Hf. induction c as [|ke c IH]; [done|]. csimpl. intros Hc. rewrite Hf by set_solver.
  rewrite IH by set_solver. done.
Qed.

Lemma memo_ok_reweigh s key e w : memo_ok s -> 1 <= w -> memo_ok (reweigh s key e w).
Proof.
  intros Hs Hw. unfold reweigh, isLive. case_bool_decide as Hg; [|done].
  destruct (live_entry s key e Hs Hg) as (x & Hx & _). rewrite Hx. destruct Hs as [Hk He Hen Ht Hl].
  split; cbn [set_entry with_cache cache heap totalWeight loads next]; [done..| | |done].
  - intros ke Hin. destruct (Hen ke Hin) as (z & Hz & Hzw & Hlt & Hzp). unfold entry_ok.
    cbn [set_entry with_cache heap loads next]. destruct (decide (ke.2 = e)) as [E|E].
    + eexists. rewrite E in *. rewrite lookup_insert_eq. simplify_eq. by split_and!.
    + exists z. by rewrite lookup_insert_ne.
  - pose proof (map_delete_perm _ _ _ Hk Hg) as HP.
    match goal with |- _ = weight_sum ?s' => set (s1 := s') end.
    change (weight_sum s1) with (foldr (fun (ke : string * nat) t => weight_of s1 ke.2 + t) 0 (cache s)).
    rewrite (weight_sum_perm s1 _ _ HP). cbn [foldr snd].
    assert (weight_of s1 e = w) as -> by (unfold s1; by rewrite weight_of_set, decide_True).
    rewrite (weight_sum_other s s1 e (map_delete key (cache s))).
    { rewrite Ht. unfold weight_sum. rewrite (weight_sum_perm s _ _ HP). cbn [foldr snd]. lia. }
    + intros e' Hne. unfold s1. rewrite weight_of_set. by rewrite decide_False.
    + rewrite HP in He. csimpl in He. by apply NoDup_cons in He as [? _].
Qed.

Lemma memo_ok_expire s e t : memo_ok s -> memo_ok (expire_at s e t).
Proof. intros Hs. unfold expire_at. destruct (heap s !! e) eqn:E; [|done]. by eapply memo_ok_set. Qed.

Lemma unlink_absent s key e : map_get key (cache s) = Some e -> map_get key (cache (unlink s key e)) = None.
Proof.
  intros Hg. unfold unlink, isLive. rewrite bool_decide_true by done. cbn [with_cache cache].
  rewrite map_get_delete. by rewrite decide_True.
Qed.

Lemma next_unlink s key e : next (unlink s key e) = next s.
Proof. unfold unlink. by destruct (isLive s key e). Qed.

Lemma memo_ok_step o ev s : memo_ok s -> memo_ok (memo_step o ev s).
Proof.
  intros Hs. destruct ev as [now key lo|now e outcome|key]; cbn [memo_step].
  - unfold memo. destruct (live_hit now s key) as [e|] eqn:Hh; cbn [fst].
    + apply memo_ok_touch; [done|]. unfold live_hit in Hh. repeat case_match; congruence.
    + apply memo_ok_evict. destruct (map_get key (cache s)) as [e|] eqn:Hg.
      * rewrite <-(next_unlink s key e). apply memo_ok_link; [by apply memo_ok_unlink|by apply unlink_absent].
      * by apply memo_ok_link.
  - unfold settle. destruct (loads s !! e) as [[key lo]|]; [|done]. cbv zeta.
    pose proof (memo_ok_not_pending s e Hs) as H1. destruct (isLive _ key e); [|done].
    destruct outcome as [|error].
    + unfold on_loaded. cbv zeta. destruct (normalizeWeight (lo_weight lo)) as [w|] eqn:Hw; [|by apply memo_ok_unlink].
      destruct (_ || _); [by apply memo_ok_unlink|].
      apply memo_ok_evict, memo_ok_expire, memo_ok_reweigh; [done|]. by eapply normalizeWeight_pos.
    + unfold on_rejected. destruct (_ && _); [by apply memo_ok_expire|by apply memo_ok_unlink].
  - unfold invalidate. destruct (map_get key (cache s)); [by apply memo_ok_unlink|done].
Qed.

Lemma memo_ok_empty : memo_ok empty_memo.
Proof. split; cbn; [constructor..| |done|]; [set_solver|]. by intros e l. Qed.

Lemma memo_ok_run o evs s : memo_ok s -> memo_ok (memo_run o evs s).
Proof. revert s. induction evs as [|ev evs IH]; intros s Hs; [done|]. cbn. by apply IH, memo_ok_step. Qed.

(** ** The bounds hold between any two operations *)

Section bounds.
Context (o : MemoOptions) (He : 0 <= maxEntries o) (Hw : 0 <= maxWeight o).

Lemma within_unlink s key e : memo_ok s -> within o s -> within o (unlink s key e).
Proof.
  intros Hs [Hn Ht]. destruct (isLive s key e) eqn:Hl; [|by unfold unlink; rewrite Hl].
  apply bool_decide_eq_true in Hl as Hg. pose proof (unlink_length s key e Hs Hg) as Hlen.
  destruct (live_entry s key e Hs Hg) as (x & Hx & Hpos). split; [lia|].
  unfold unlink. rewrite Hl. cbn [with_cache totalWeight]. unfold weight_of. rewrite Hx. simpl. lia.
Qed.

Lemma within_touch s key e : memo_ok s -> map_get key (cache s) = Some e -> within o s -> within o (touch s key e).
Proof.
  intros Hs Hg [Hn Ht]. split; [|done]. cbn [touch with_cache cache].
  rewrite map_set_absent, length_app by (by rewrite <-map_get_None, map_get_delete, decide_True).
  pose proof (Permutation_length (map_delete_perm _ _ _ (ok_keys s Hs) Hg)). simpl in *. lia.
Qed.

Lemma within_not_pending s e : within o s -> within o (not_pending (forget_load s e) e).
Proof. intros H. unfold not_pending. by destruct (heap _ !! e). Qed.

Lemma within_expire s e t : within o s -> within o (expire_at s e t).
Proof. intros H. unfold expire_at. by destruct (heap s !! e). Qed.

Lemma within_step ev s : memo_ok s -> within o s -> within o (memo_step o ev s).
Proof.
  intros Hs Hin. destruct ev as [now key lo|now e outcome|key]; cbn [memo_step].
  - unfold memo. destruct (live_hit now s key) as [e|] eqn:Hh; cbn [fst].
    + apply within_touch; [done| |done]. unfold live_hit in Hh. repeat case_match; congruence.
    + apply evict_within; [done..|]. destruct (map_get key (cache s)) as [e|] eqn:Hg.
      * rewrite <-(next_unlink s key e). apply memo_ok_link; [by apply memo_ok_unlink|by apply unlink_absent].
      * by apply memo_ok_link.
  - unfold settle. destruct (loads s !! e) as [[key lo]|]; [|done]. cbv zeta.
    pose proof (memo_ok_not_pending s e Hs) as H1. pose proof (within_not_pending s e Hin) as H2.
    destruct (isLive _ key e); [|done]. destruct outcome as [|error].
    + unfold on_loaded. cbv zeta. destruct (normalizeWeight (lo_weight lo)) as [w|] eqn:Hwt; [|by apply within_unlink].
      destruct (_ || _); [by apply within_unlink|].
      apply evict_within; [done..|]. apply memo_ok_expire, memo_ok_reweigh; [done|]. by eapply normalizeWeight_pos.
    + unfold on_rejected. destruct (_ && _); [by apply within_expire|by apply within_unlink].
  - unfold invalidate. destruct (map_get key (cache s)); [by apply within_unlink|done].
Qed.

Lemma within_run evs s : memo_ok s -> within o s -> within o (memo_run o evs s).
Proof.
  revert s. induction evs as [|ev evs IH]; intros s Hs Hin; [done|]. cbn.
  apply IH; [by apply memo_ok_step|by apply within_step].
Qed.
End bounds.

(** ** What the memo promises *)

(** For each key the promise a call may be given, with the time it is good until
    ([None] while it is loading); the loads under way. *)
Record Memory := mkMemory {
  known : string -> option (nat * option Z);
  loading : gmap nat (string * LoadOptions);
}.

(** The memo may forget anything at any time; it never makes anything up. *)
Definition forgets (a a' : string -> option (nat * option Z)) : Prop :=
  forall k v, a' k = Some v -> a k = Some v.

Definition usable (now : Z) (until : option Z) : Prop :=
  match until with None => True | Some t => now < t end.

Definition learn (a : string -> option (nat * option Z)) (key : string) (v : option (nat * option Z)) :=
  fun k => if decide (k = key) then v else a k.

(** Until when the outcome of a load may be given out. *)
Definition good_until (o : MemoOptions) (now : Z) (lo : LoadOptions) (outcome : Outcome) : option Z :=
  match outcome with
  | Loaded =>
      let ttl := default (ttlMs o) (lo_ttlMs lo) in if 0 <? ttl then Some (now + ttl) else None
  | Rejected error =>
      if (0 <? negativeTtlMs o) && cacheable error then Some (now + negativeTtlMs o) else None
  end.

(** One operation, with the answer of a call: the promise, and whether it loads. *)
Inductive spec_step (o : MemoOptions) : MemoEvent -> Memory -> Memory -> option (nat * bool) -> Prop :=
| spec_hit now key lo a a' e until :
    known a key = Some (e, until) -> usable now until -> forgets (known a) (known a') -> loading a' = loading a ->
    spec_step o (Memo now key lo) a a' (Some (e, false))
| spec_load now key lo a a' e :
    (forall e' until, known a key = Some (e', until) -> ~ usable now until) ->
    loading a !! e = None -> (forall k v, known a k = Some v -> v.1 <> e) ->
    forgets (learn (known a) key (Some (e, None))) (known a') ->
    loading a' = <[e := (key, lo)]> (loading a) ->
    spec_step o (Memo now key lo) a a' (Some (e, true))
| spec_settle now e outcome key lo a a' :
    loading a !! e = Some (key, lo) ->
    forgets (match known a key with
             | Some (e', None) =>
                 if decide (e' = e)
                 then learn (known a) key (t ← good_until o now lo outcome; Some (e, Some t))
                 else known a
             | _ => known a
             end) (known a') ->
    loading a' = delete e (loading a) ->
    spec_step o (Settle now e outcome) a a' None
| spec_settled now e outcome a a' :
    loading a !! e = None -> forgets (known a) (known a') -> loading a' = loading a ->
    spec_step o (Settle now e outcome) a a' None
| spec_invalidate key a a' :
    forgets (learn (known a) key None) (known a') -> loading a' = loading a ->
    spec_step o (Invalidate key) a a' None.

Definition view (s : MemoState) (key : string) : option (nat * option Z) :=
  e ← map_get key (cache s); x ← heap s !! e;
  Some (e, if en_pending x then None else Some (en_expires x)).

Definition memory (s : MemoState) : Memory := mkMemory (view s) (loads s).

Definition answer_of (o : MemoOptions) (ev : MemoEvent) (s : MemoState) : option (nat * bool) :=
  match ev with Memo now key lo => Some (memo o now key lo s).2 | _ => None end.

(** ** The memo keeps the promise *)

Lemma forgets_refl a : forgets a a.
Proof. by intros k v. Qed.

Lemma forgets_trans a b c : forgets a b -> forgets b c -> forgets a c.
Proof. intros H1 H2 k v H. by apply H1, H2. Qed.

Lemma forgets_learn a b key v : forgets a b -> forgets (learn a key v) (learn b key v).
Proof. intros H k w. unfold learn. case_decide; auto. Qed.

Lemma view_unlink s key e k :
  view (unlink s key e) k = if decide (k = key /\ isLive s key e = true) then None else view s k.
Proof.
  unfold unlink. destruct (isLive s key e) eqn:Hl.
  - unfold view. cbn [with_cache cache heap]. rewrite map_get_delete. repeat case_decide; naive_solver.
  - by rewrite decide_False by naive_solver.
Qed.

Lemma forgets_unlink s key e : forgets (view s) (view (unlink s key e)).
Proof. intros k v. rewrite view_unlink. by case_decide. Qed.

Lemma forgets_evict o s : memo_ok s -> forgets (view s) (view (evict o s)).
Proof.
  intros Hs. unfold evict. apply (evict_loop_ind o (fun s' => forgets (view s) (view s'))); [|done|apply forgets_refl].
  intros s' key e _ H _. eapply forgets_trans; [exact H|apply forgets_unlink].
Qed.

Lemma evict_loads o s : memo_ok s -> loads (evict o s) = loads s.
Proof.
  intros Hs. unfold evict. apply (evict_loop_ind o (fun s' => loads s' = loads s)); [|done..].
  intros s' key e _ <- _. unfold unlink. by destruct (isLive s' key e).
Qed.

Lemma view_touch s key e k : map_get key (cache s) = Some e -> view (touch s key e) k = view s k.
Proof.
  intros Hg. unfold view. cbn [touch with_cache cache heap]. rewrite map_get_set, map_get_delete.
  case_decide; [|done]. subst. by rewrite Hg.
Qed.

Lemma view_link s key lo :
  memo_ok s -> forall k, view (link (start_load s key lo) key (next s)) k = learn (view s) key (Some (next s, None)) k.
Proof.
  intros Hs k. unfold view, learn. cbn [link start_load with_cache cache heap]. rewrite map_get_set.
  case_decide; [cbn; by rewrite lookup_insert_eq|].
  destruct (map_get k (cache s)) as [e|] eqn:Hg; [|done]. cbn [mbind option_bind].
  rewrite lookup_insert_ne; [done|]. intros E. apply map_get_elem_of in Hg.
  destruct (ok_entry s Hs _ Hg) as (x & _ & _ & Hlt & _). simpl in Hlt. lia.
Qed.

Lemma view_entry s k v : memo_ok s -> view s k = Some v -> (v.1 < next s)%nat.
Proof.
  intros Hs. unfold view. destruct (map_get k (cache s)) as [e|] eqn:Hg; [|done]. cbn.
  apply map_get_elem_of in Hg. destruct (ok_entry s Hs _ Hg) as (x & Hx & _ & Hlt & _). simpl in Hx.
  rewrite Hx. cbn. by intros [= <-].
Qed.

(** The entry of a key, when it is live. *)
Lemma view_live s key e : map_get key (cache s) = Some e -> memo_ok s ->
  exists x, heap s !! e = Some x /\ view s key = Some (e, if en_pending x then None else Some (en_expires x)).
Proof.
  intros Hg Hs. destruct (live_entry s key e Hs Hg) as (x & Hx & _). exists x. split; [done|].
  unfold view. rewrite Hg. cbn. by rewrite Hx.
Qed.

Lemma live_hit_spec now s key : memo_ok s ->
  match live_hit now s key with
  | Some e => exists until, view s key = Some (e, until) /\ usable now until
  | None => forall e until, view s key = Some (e, until) -> ~ usable now until
  end.
Proof.
  intros Hs. unfold live_hit, view. destruct (map_get key (cache s)) as [e|]; cbn; [|done].
  destruct (heap s !! e) as [x|]; cbn; [|done]. destruct (en_pending x); cbn [orb].
  - by eexists.
  - destruct (now <? en_expires x) eqn:E.
    + apply Z.ltb_lt in E. by eexists.
    + apply Z.ltb_ge in E. intros e' until [= <- <-]. simpl. lia.
Qed.

Lemma refines_memo o now key lo s : memo_ok s ->
  spec_step o (Memo now key lo) (memory s) (memory (memo_step o (Memo now key lo) s)) (answer_of o (Memo now key lo) s).
Proof.
  intros Hs. pose proof (live_hit_spec now s key Hs) as Hhit. cbn [memo_step answer_of]. unfold memo.
  destruct (live_hit now s key) as [e|] eqn:Hh; cbn [fst snd].
  - destruct Hhit as (until & Hv & Hu). apply (spec_hit _ _ _ _ _ _ _ until); cbn; [done..| |done].
    intros k v. rewrite view_touch; [done|]. unfold live_hit in Hh. repeat case_match; congruence.
  - set (s1 := match map_get key (cache s) with Some e => unlink s key e | None => s end).
    assert (memo_ok s1 /\ map_get key (cache s1) = None /\ next s1 = next s /\ loads s1 = loads s /\
      forgets (view s) (view s1)) as (H1 & Hg & Hn & Hl & Hf).
    { unfold s1. destruct (map_get key (cache s)) as [e|] eqn:Hg; [|split_and!; try done; apply forgets_refl].
      split_and!; [by apply memo_ok_unlink|by apply unlink_absent|apply next_unlink| |apply forgets_unlink].
      unfold unlink. by destruct (isLive s key e). }
    rewrite <-Hn. pose proof (memo_ok_link s1 key lo H1 Hg) as H2.
    apply spec_load; cbn [memory known loading].
    + exact Hhit.
    + destruct (loads s !! next s1) as [l|] eqn:E; [|done]. apply (ok_loads s Hs) in E. lia.
    + intros k v Hv%view_entry; [lia|done].
    + eapply forgets_trans; [|by apply forgets_evict]. eapply forgets_trans; [apply forgets_learn, Hf|].
      intros k v Hv. by rewrite <-(view_link s1 key lo).
    + rewrite evict_loads by done. cbn [link with_cache start_load loads]. by rewrite Hl.
Qed.

(** The callback's entry is linked at the callback's key, if at all, and pending. *)
Lemma loading_linked s e key lo k :
  memo_ok s -> loads s !! e = Some (key, lo) -> map_get k (cache s) = Some e ->
  k = key /\ exists x, heap s !! e = Some x /\ en_pending x = true.
Proof.
  intros Hs Hl Hg. apply map_get_elem_of in Hg. destruct (ok_entry s Hs _ Hg) as (x & Hx & _ & _ & Hp). simpl in *.
  destruct (en_pending x) eqn:E; [|congruence]. destruct Hp as [lo' Hp]. split; [congruence|eauto].
Qed.

Lemma view_other s e x k : map_get k (cache s) <> Some e -> view (set_entry s e x) k = view s k.
Proof.
  intros Hne. unfold view. cbn [set_entry cache heap]. destruct (map_get k (cache s)) as [e'|]; [|done]. cbn.
  by rewrite lookup_insert_ne by congruence.
Qed.

Lemma view_not_pending s e k : map_get k (cache s) <> Some e -> view (not_pending (forget_load s e) e) k = view s k.
Proof.
  intros Hne. unfold not_pending. destruct (heap _ !! e); [by rewrite view_other|done].
Qed.

Lemma cache_not_pending s e : cache (not_pending (forget_load s e) e) = cache s.
Proof. unfold not_pending. by destruct (heap _ !! e). Qed.

Lemma loads_not_pending s e : loads (not_pending (forget_load s e) e) = delete e (loads s).
Proof. unfold not_pending. by destruct (heap _ !! e). Qed.

Lemma loads_unlink s key e : loads (unlink s key e) = loads s.
Proof. unfold unlink. by destruct (isLive s key e). Qed.

Lemma loads_expire s e t : loads (expire_at s e t) = loads s.
Proof. unfold expire_at. by destruct (heap s !! e). Qed.

Lemma loads_reweigh s key e w : loads (reweigh s key e w) = loads s.
Proof. unfold reweigh. by destruct (isLive s key e). Qed.

Lemma same_key s k k' e : memo_ok s -> map_get k (cache s) = Some e -> map_get k' (cache s) = Some e -> k = k'.
Proof.
  intros Hs H1%map_get_elem_of H2%map_get_elem_of. pose proof (ok_entries s Hs) as HN. revert HN H1 H2. clear.
  induction (cache s) as [|ke c IH]; [by intros _ ?%not_elem_of_nil|]. csimpl. intros [Hn HN]%NoDup_cons.
  assert (forall k, (k, e) ∈ c -> ke.2 <> e) as Hc.
  { intros k0 Hin E. apply Hn. rewrite E. apply list_elem_of_fmap. by exists (k0, e). }
  intros [<-|H1]%elem_of_cons [E|H2]%elem_of_cons; [congruence|by destruct (Hc _ H2)| |by apply IH].
  subst ke. by destruct (Hc _ H1).
Qed.

(** The live entry of a callback, unlinked or given a time to expire. *)
Lemma settle_unlink s key e a : memo_ok s -> map_get key (cache s) = Some e ->
  forgets (learn (view s) key a) (view (unlink (not_pending (forget_load s e) e) key e)).
Proof.
  intros Hs Hg k v. rewrite view_unlink. unfold isLive. rewrite cache_not_pending, bool_decide_true by done.
  unfold learn. case_decide as H; [done|]. rewrite decide_False by naive_solver.
  rewrite view_not_pending; [done|]. intros Hg'. apply H. split; [by eapply same_key|done].
Qed.

Lemma view_reweigh s key e w k : memo_ok s -> view (reweigh s key e w) k = view s k.
Proof.
  intros Hs. unfold reweigh, isLive. case_bool_decide as Hg; [|done].
  destruct (live_entry s key e Hs Hg) as (x & Hx & _). rewrite Hx. unfold view. cbn [set_entry with_cache cache heap].
  destruct (map_get k (cache s)) as [e'|]; [|done]. cbn.
  destruct (decide (e' = e)) as [->|E]; [by rewrite lookup_insert_eq, Hx|by rewrite lookup_insert_ne].
Qed.

Lemma view_expire s key e t k : memo_ok s -> map_get key (cache s) = Some e ->
  from_option en_pending true (heap s !! e) = false ->
  view (expire_at s e t) k = learn (view s) key (Some (e, Some t)) k.
Proof.
  intros Hs Hg Hp. unfold expire_at. destruct (heap s !! e) as [x|] eqn:Hx; [|done]. unfold learn.
  case_decide as Hk.
  - subst. unfold view. cbn [set_entry cache heap]. rewrite Hg. cbn. rewrite lookup_insert_eq. cbn in *. by rewrite Hp.
  - rewrite view_other; [done|]. intros Hg'. by destruct Hk; eapply same_key.
Qed.

Lemma not_pending_done s e :
  from_option en_pending false (heap (not_pending (forget_load s e) e) !! e) = false.
Proof.
  unfold not_pending. destruct (heap (forget_load s e) !! e) as [x|] eqn:Hx.
  - cbn [set_entry heap]. by rewrite lookup_insert_eq.
  - by rewrite Hx.
Qed.

(** Given a time to expire, after the callback cleared [pending]. *)
Lemma settle_expire s key e t s2 :
  memo_ok s -> memo_ok s2 -> map_get key (cache s) = Some e -> cache s2 = cache s ->
  (forall k, view s2 k = view (not_pending (forget_load s e) e) k) ->
  forgets (learn (view s) key (Some (e, Some t))) (view (expire_at s2 e t)).
Proof.
  intros Hs H2 Hg Hc Hv k v. rewrite <-Hc in Hg.
  assert (from_option en_pending true (heap s2 !! e) = false) as Hp.
  { destruct (view_live s2 key e Hg H2) as (x & Hx & Hvx). rewrite Hx. cbn. rewrite Hv in Hvx.
    pose proof (not_pending_done s e) as Hd. unfold view in Hvx. rewrite cache_not_pending, <-Hc, Hg in Hvx. cbn in Hvx.
    destruct (heap (not_pending (forget_load s e) e) !! e) as [y|]; cbn in *; [|done].
    rewrite Hd in Hvx. by destruct (en_pending x). }
  rewrite (view_expire s2 key) by done. unfold learn. case_decide as Hk; [done|]. rewrite Hv.
  rewrite view_not_pending; [done|]. rewrite <-Hc. intros Hg'. apply Hk. by eapply (same_key s2).
Qed.

Lemma cache_reweigh s key e w : cache (reweigh s key e w) = cache s.
Proof. unfold reweigh. by destruct (isLive s key e). Qed.

Lemma refines_settle o now e outcome s : memo_ok s ->
  spec_step o (Settle now e outcome) (memory s) (memory (memo_step o (Settle now e outcome) s)) None.
Proof.
  intros Hs. cbn [memo_step]. unfold settle. destruct (loads s !! e) as [[key lo]|] eqn:Hl.
  2:{ apply spec_settled; cbn; [done|apply forgets_refl|done]. }
  cbv zeta. pose proof (memo_ok_not_pending s e Hs) as H1.
  unfold isLive at 1. rewrite cache_not_pending. case_bool_decide as Hg.
  - destruct (loading_linked s e key lo key Hs Hl Hg) as (_ & x & Hx & Hp).
    assert (view s key = Some (e, None)) as Hv.
    { unfold view. rewrite Hg. cbn. rewrite Hx. cbn. by rewrite Hp. }
    apply (spec_settle _ _ _ _ key lo); cbn [memory known loading]; [done| |].
    + rewrite Hv, decide_True by done. destruct outcome as [|error]; cbn [good_until].
      * unfold on_loaded. cbv zeta. set (ttl := default (ttlMs o) (lo_ttlMs lo)).
        destruct (normalizeWeight (lo_weight lo)) as [w|] eqn:Hw; [|by apply settle_unlink].
        destruct (ttl <=? 0) eqn:Ht; cbn [orb]; [by apply settle_unlink|].
        destruct (maxWeight o <? w); [by apply settle_unlink|].
        apply Z.leb_gt in Ht. rewrite (proj2 (Z.ltb_lt 0 ttl)) by done. cbn [mbind option_bind].
        pose proof (memo_ok_reweigh _ key e w H1 (normalizeWeight_pos _ _ Hw)) as H2.
        eapply forgets_trans; [|by apply forgets_evict, memo_ok_expire].
        apply settle_expire; [done..| |].
        -- by rewrite cache_reweigh, cache_not_pending.
        -- intros k. by apply view_reweigh.
      * unfold on_rejected. destruct (_ && _); cbn [mbind option_bind]; [|by apply settle_unlink].
        apply settle_expire; [done..|by rewrite cache_not_pending|done].
    + destruct outcome as [|error].
      * unfold on_loaded. cbv zeta. destruct (normalizeWeight (lo_weight lo)) as [w|] eqn:Hw.
        2:{ by rewrite loads_unlink, loads_not_pending. }
        destruct (_ || _); [by rewrite loads_unlink, loads_not_pending|].
        rewrite evict_loads by (apply memo_ok_expire, memo_ok_reweigh; [done|by eapply normalizeWeight_pos]).
        by rewrite loads_expire, loads_reweigh, loads_not_pending.
      * unfold on_rejected. destruct (_ && _); by rewrite ?loads_expire, ?loads_unlink, loads_not_pending.
  - apply (spec_settle _ _ _ _ key lo); cbn [memory known loading]; [done| |by rewrite loads_not_pending].
    assert (forall k, map_get k (cache s) <> Some e) as Hno.
    { intros k Hg'. destruct (loading_linked s e key lo k Hs Hl Hg') as [-> _]. done. }
    assert (forgets (view s) (view (not_pending (forget_load s e) e))) as Hf.
    { intros k v. by rewrite view_not_pending. }
    unfold memory, known. destruct (view s key) as [[e' [u|]]|] eqn:Hv; [done| |done].
    case_decide as E; [|done]. subst. unfold view in Hv. destruct (map_get key (cache s)) eqn:Hg'; [|done]. cbn in Hv.
    destruct (heap s !! n); [|done]. cbn in Hv. injection Hv as -> _. by destruct (Hno key).
Qed.

Lemma refines_invalidate o key s : memo_ok s ->
  spec_step o (Invalidate key) (memory s) (memory (memo_step o (Invalidate key) s)) None.
Proof.
  intros Hs. cbn [memo_step]. unfold invalidate. apply spec_invalidate; cbn [memory known loading].
  - intros k v. unfold learn. destruct (map_get key (cache s)) as [e|] eqn:Hg.
    + rewrite view_unlink. unfold isLive. rewrite bool_decide_true by done. repeat case_decide; naive_solver.
    + case_decide as Hk; [subst; unfold view; by rewrite Hg|done].
  - destruct (map_get key (cache s)); [apply loads_unlink|done].
Qed.

(** ** Theorems *)

(** The memo refines its specification: whatever calls, settling promises and
    invalidations came before, and whatever was evicted, one more operation does
    what the abstract memory allows: a call is given the promise of a load for its
    own key that is still running (single flight) or whose outcome is not older
    than its time to live, or else starts a new load; only successes, and failures
    of the upstream itself, are ever remembered; nothing is made up, and a load
    that was evicted while pending changes nothing when it settles. *)
Theorem memo_refines o evs ev :
  spec_step o ev (memory (memo_run o evs empty_memo)) (memory (memo_run o (evs ++ [ev]) empty_memo))
    (answer_of o ev (memo_run o evs empty_memo)).
Proof.
  pose proof (memo_ok_run o evs empty_memo memo_ok_empty) as Hs. unfold memo_run at 2. rewrite foldl_app.
  fold (memo_run o evs empty_memo). cbn [foldl]. destruct ev.
  - by apply refines_memo.
  - by apply refines_settle.
  - by apply refines_invalidate.
Qed.

(** Memory is bounded: between any two operations there are at most
    [maxEntries] entries and at most [maxWeight] units, one entry per key, and the
    running total is exactly the sum of the weights of the live entries (the
    accounting invariant of the source). *)
Theorem memo_bounded o evs :
  0 <= maxEntries o -> 0 <= maxWeight o ->
  let s := memo_run o evs empty_memo in
  Z.of_nat (length (cache s)) <= maxEntries o /\ totalWeight s <= maxWeight o /\
  totalWeight s = weight_sum s /\ NoDup (cache s).*1.
Proof.
  intros He Hw s. pose proof (memo_ok_run o evs empty_memo memo_ok_empty) as Hs. fold s in Hs.
  destruct (within_run o He Hw evs empty_memo memo_ok_empty) as [H1 H2]; [by split|].
  split_and!; [done|done|apply Hs|apply Hs].
Qed.

Definition demo_options : MemoOptions := mkMemo 5000 2000 2 10.

Definition demo_events : list MemoEvent :=
  [Memo 0 "a" (mkLoad None (WFinite (7 # 2))); Memo 1 "b" (mkLoad None (WFinite 8)); Settle 2 0 Loaded;
   Memo 3 "a" (mkLoad None WNaN); Settle 4 1 Loaded].

Lemma memo_bounded_witness :
  cache (memo_run demo_options demo_events empty_memo) = [("a", 0%nat)] /\
  totalWeight (memo_run demo_options demo_events empty_memo) <= 10.
Proof.
  split; [vm_compute; reflexivity|].
  apply (memo_bounded demo_options demo_events); vm_compute; discriminate.
Defined.
