(* ===== verification/HttpClient.v ===== *)
(** * [domain-api/src/adapters/upstream/{httpClient,tokenProvider}.ts]

    The client of the upstream adapters: what its constructor refuses, how a
    request is prepared and a response classified, and the slots: a cap on the
    requests in flight and a bounded queue in front of it.  The URL parser and the
    network are parameters; a call is a thread that waits for a slot, sends, and
    gives the slot back. *)

From S2P Require Import Prelude JsBase JsRegex JsText JsJson JsLib Memo.
From Stdlib Require Import Ascii.
From Stdlib Require String.
Open Scope Z_scope.

(** ** Tokens *)

Definition token_char (a : ascii) : bool := is_alpha a || is_digit a || str_has a "-._~+/".

Definition TOKEN_PATTERN : re :=
  Cat (Cat (Plus (Chr token_char)) (Star true (Chr (fun a => Ascii.eqb a "=")))) Eol.

Definition normalizeToken (raw : option string) : option string :=
  match raw with
  | None => None
  | Some r => let token := trim r in if negb (String.eqb token EmptyString) && test TOKEN_PATTERN token then Some token else None
  end.

Definition staticTokenProvider (token : option string) : option string := normalizeToken token.

(** [None]: the file could not be read. *)
Definition fileTokenProvider (content : option string) : option string := normalizeToken content.

(** What [stat] and a read of the file say. *)
Record FileStat := mkStat { st_isFile : bool; st_mode : Z }.

Definition verifyTokenFile (stats : option FileStat) (content : option string) : result string (list string) :=
  match stats with
  | None => inl "does not exist or is not accessible"
  | Some st =>
      if negb (st_isFile st) then inl "is not a regular file"
      else
        match content with
        | None => inl "is not readable"
        | Some c =>
            if String.eqb (trim c) EmptyString then inl "is empty"
            else
              match normalizeToken (Some c) with
              | None => inl "does not contain a valid bearer token (content not shown)"
              | Some _ =>
                  inr (if negb (Z.land (st_mode st) 4 =? 0)
                       then ["is world-readable; restrict its permissions (e.g. 0400)"] else [])
              end
        end
  end.

(** ** The client *)

Definition DEFAULT_UPSTREAM_TIMEOUT_MS : Z := 2500.
Definition DEFAULT_MAX_BODY_BYTES : Z := 5 * 1024 * 1024.
Definition DEFAULT_MAX_CONCURRENT : Z := 8.
Definition DEFAULT_MAX_QUEUED : Z := 64.

(** [baseUrl] as the URL parser gives it. *)
Record Url := mkUrl { u_protocol : string; u_hostname : string; u_pathname : string }.

Record ClientOptions := mkClientOptions {
  o_upstream : string;
  o_base : Url;
  o_tokenProvider : bool;
  o_headers : list (string * string);
  o_timeoutMs : option Z;
  o_maxBodyBytes : option Z;
  o_maxConcurrent : option Z;
  o_maxQueued : option Z;
  o_allowInsecureBearer : bool;
}.

Record UpstreamHttpClient := mkClient {
  hc_options : ClientOptions;
  hc_timeoutMs : Z;
  hc_maxBodyBytes : Z;
  hc_maxConcurrent : Z;
  hc_maxQueued : Z;
}.

Definition LOOPBACK : list string := ["localhost"; "127.0.0.1"; "[::1]"].

Definition newClient (o : ClientOptions) : result string UpstreamHttpClient :=
  let base := o_base o in
  if negb (String.eqb (u_protocol base) "http:") && negb (String.eqb (u_protocol base) "https:") then
    inl ("Upstream '" +:+ o_upstream o +:+ "' base URL must be http(s)")
  else if o_tokenProvider o && String.eqb (u_protocol base) "http:" &&
          negb (bool_decide (u_hostname base ∈ LOOPBACK)) && negb (o_allowInsecureBearer o) then
    inl ("Upstream '" +:+ o_upstream o +:+
         "': refusing to send a bearer token over plain http (set allowInsecureBearer explicitly)")
  else
    inr (mkClient o
      (default DEFAULT_UPSTREAM_TIMEOUT_MS (o_timeoutMs o))
      (default DEFAULT_MAX_BODY_BYTES (o_maxBodyBytes o))
      (Z.max 1 (default DEFAULT_MAX_CONCURRENT (o_maxConcurrent o)))
      (Z.max 0 (default DEFAULT_MAX_QUEUED (o_maxQueued o)))).

(** ** Before the request *)

Record HttpRequest := mkHttpRequest {
  hr_pathname : string;
  hr_query : list (string * string);
  hr_headers : list (string * string);
}.

Fixpoint strip_slashes (s : string) : string :=
  match s with
  | EmptyString => EmptyString
  | String a s' =>
      match strip_slashes s' with
      | EmptyString => if Ascii.eqb a "/" then EmptyString else str1 a
      | t => String a t
      end
  end.

Definition budget_ms (c : UpstreamHttpClient) (now : Z) (deadlineAt : option Z) : Z :=
  match deadlineAt with Some d => Z.min (hc_timeoutMs c) (d - now) | None => hc_timeoutMs c end.

(** [normalize]: what the URL parser makes of a path; [token]: what the provider
    answers, when there is one. *)
Definition prepare (c : UpstreamHttpClient) (normalize : string -> string) (now : Z) (path : string)
    (query : list (string * option string)) (deadlineAt : option Z) (token : option string)
    : result UpstreamErrorKind HttpRequest :=
  if budget_ms c now deadlineAt <=? 0 then inl TimedOut
  else
    let expectedPath := strip_slashes (u_pathname (o_base (hc_options c))) +:+ path in
    if negb (String.eqb (normalize expectedPath) expectedPath) then inl Malformed
    else
      let params := omap (fun kv : string * option string => v ← kv.2; Some (kv.1, v)) query in
      let headers := foldl (fun m kv => map_set kv.1 kv.2 m) [("Accept", "application/json")] (o_headers (hc_options c)) in
      if o_tokenProvider (hc_options c) then
        match token with
        | Some t =>
            if String.eqb t EmptyString then inl Unauthenticated
            else inr (mkHttpRequest expectedPath params (map_set "Authorization" ("Bearer " +:+ t) headers))
        | None => inl Unauthenticated
        end
      else inr (mkHttpRequest expectedPath params headers).

(** ** The response *)

Inductive StreamEnd := StreamDone | StreamAborted | StreamFailed.

(** The body as it arrives: no body, or chunks of bytes and how the stream ends. *)
Record HttpResponse := mkHttpResponse {
  hs_status : Z;
  hs_content_length : option string;
  hs_body : option (list string * StreamEnd);
}.

Inductive FetchOutcome := FetchAborted | FetchFailed | Fetched (r : HttpResponse).

Inductive ReadError := BodyTooLarge | ReadAborted | ReadFailed.

(** The loop of [readCapped]: [chunks] so far, [total] bytes. *)
Fixpoint read_chunks (max : Z) (chunks : list string) (total : Z) (stream : list string) (stop : StreamEnd)
    : result ReadError (list string) :=
  match stream with
  | [] =>
      match stop with StreamDone => inr chunks | StreamAborted => inl ReadAborted | StreamFailed => inl ReadFailed end
  | value :: stream' =>
      let total' := total + Z.of_nat (String.length value) in
      if max <? total' then inl BodyTooLarge else read_chunks max (chunks ++ [value]) total' stream' stop
  end.

Definition readCapped (max : Z) (body : option (list string * StreamEnd)) : result ReadError (list string) :=
  match body with
  | None => inr []
  | Some (stream, stop) => read_chunks max [] 0 stream stop
  end.

Section send.
Context `{JsLib}.

Definition status_kind (status : Z) : option UpstreamErrorKind :=
  if status =? 401 then Some Unauthenticated
  else if status =? 403 then Some Forbidden
  else if status =? 404 then Some NotFound
  else if negb ((200 <=? status) && (status <=? 299)) then Some UpstreamFailed
  else None.

Definition declared (r : HttpResponse) : jsnum :=
  match hs_content_length r with Some s => Number s | None => Fin 0 end.

(** What [send] makes of the outcome of [fetch]: the kind of the error and the
    status it carries, or the JSON value. *)
Definition send (c : UpstreamHttpClient) (out : FetchOutcome) : result (UpstreamErrorKind * option Z) json :=
  match out with
  | FetchAborted => inl (TimedOut, None)
  | FetchFailed => inl (Unreachable, None)
  | Fetched r =>
      match status_kind (hs_status r) with
      | Some k => inl (k, Some (hs_status r))
      | None =>
          if num_gt (declared r) (hc_maxBodyBytes c) then inl (Malformed, Some (hs_status r))
          else
            match readCapped (hc_maxBodyBytes c) (hs_body r) with
            | inl BodyTooLarge => inl (Malformed, Some (hs_status r))
            | inl ReadAborted => inl (TimedOut, None)
            | inl ReadFailed => inl (Unreachable, None)
            | inr chunks =>
                match JSON_parse (join EmptyString chunks) with
                | Some j => inr j
                | None => inl (Malformed, Some (hs_status r))
                end
            end
      end
  end.
End send.

(** ** Slots *)

(** [inFlight], [waiters]; a waiter is the call it grants. *)
Record Slots := mkSlots { inFlight : Z; waiters : list nat }.

Inductive Acquired := Granted | Shed | Queued.

Section slots.
Context (maxConcurrent maxQueued : Z).

Definition acquire (i : nat) (s : Slots) : Slots * Acquired :=
  if inFlight s <? maxConcurrent then (mkSlots (inFlight s + 1) (waiters s), Granted)
  else if maxQueued <=? Z.of_nat (length (waiters s)) then (s, Shed)
  else (mkSlots (inFlight s) (waiters s ++ [i]), Queued).

(** The timer of a waiter fires. *)
Fixpoint splice (i : nat) (l : list nat) : list nat :=
  match l with [] => [] | j :: l' => if decide (i = j) then l' else j :: splice i l' end.

Definition expire (i : nat) (s : Slots) : Slots := mkSlots (inFlight s) (splice i (waiters s)).

(** [next] is granted the slot that is given back. *)
Definition release (s : Slots) : Slots * option nat :=
  match waiters s with
  | next :: rest => (mkSlots (inFlight s) rest, Some next)
  | [] => (mkSlots (inFlight s - 1) [], None)
  end.

(** The calls of one client: those that send, those that ended. *)
Record Calls := mkCalls { slots : Slots; sending : list nat; ended : list nat }.

Definition idle : Calls := mkCalls (mkSlots 0 []) [] [].

Inductive Label :=
| LGranted (i : nat)
| LShed (i : nat)
| LQueued (i : nat)
| LTimeout (i : nat)
| LDone (i : nat) (next : option nat).

Definition fresh (i : nat) (c : Calls) : Prop := (i ∉ sending c) /\ (i ∉ waiters (slots c)) /\ (i ∉ ended c).

(** A call comes and asks for a slot; the timer of a waiting call fires; the
    request of a sending call ends, and its [finally] gives the slot back. *)
Inductive call_step : Calls -> Label -> Calls -> Prop :=
| call_granted i c s' :
    fresh i c -> acquire i (slots c) = (s', Granted) -> call_step c (LGranted i) (mkCalls s' (i :: sending c) (ended c))
| call_shed i c s' :
    fresh i c -> acquire i (slots c) = (s', Shed) -> call_step c (LShed i) (mkCalls s' (sending c) (i :: ended c))
| call_queued i c s' :
    fresh i c -> acquire i (slots c) = (s', Queued) -> call_step c (LQueued i) (mkCalls s' (sending c) (ended c))
| call_timeout i c :
    i ∈ waiters (slots c) -> call_step c (LTimeout i) (mkCalls (expire i (slots c)) (sending c) (i :: ended c))
| call_done i c s' next :
    i ∈ sending c -> release (slots c) = (s', next) ->
    call_step c (LDone i next)
      (mkCalls s' (match next with Some j => j :: splice i (sending c) | None => splice i (sending c) end) (i :: ended c)).

Inductive calls_run : Calls -> list Label -> Calls -> Prop :=
| run_nil c : calls_run c [] c
| run_cons c l c' ls c'' : call_step c l c' -> calls_run c' ls c'' -> calls_run c (l :: ls) c''.
End slots.

(** ** Lemmas: slots *)

Lemma splice_perm i l : i ∈ l -> l ≡ₚ i :: splice i l.
Proof.
  induction l as [|j l IH]; [by intros ?%not_elem_of_nil|]. cbn [splice]. intros H.
  case_decide as E; [by subst|]. apply elem_of_cons in H as [?|H]; [done|].
  rewrite (IH H) at 1. apply perm_swap.
Qed.

Lemma length_splice i l : i ∈ l -> length l = S (length (splice i l)).
Proof. intros H. exact (Permutation_length (splice_perm i l H)). Qed.

(** The place of another waiter only gets better. *)
Lemma splice_before i j w1 w2 :
  i <> j -> i ∈ w1 ++ j :: w2 ->
  exists w1' w2', splice i (w1 ++ j :: w2) = w1' ++ j :: w2' /\ (length w1' <= length w1)%nat.
Proof.
  intros Hij. induction w1 as [|k w1 IH]; cbn [app splice].
  - intros _. rewrite decide_False by done. by exists [], (splice i w2).
  - case_decide as E; [exists w1, w2; split; [done|simpl; lia]|]. intros [?|H]%elem_of_cons; [done|].
    destruct (IH H) as (w1' & w2' & -> & Hl). exists (k :: w1'), w2'. split; [done|simpl; lia].
Qed.

Lemma perm_end {A} (a b c : list A) x : a ++ b ++ x :: c ≡ₚ x :: a ++ b ++ c.
Proof. rewrite !app_assoc. symmetry. apply Permutation_middle. Qed.

Lemma perm_mid {A} (a b c : list A) x : a ++ (b ++ [x]) ++ c ≡ₚ x :: a ++ b ++ c.
Proof. rewrite <-app_assoc. apply perm_end. Qed.

Section slot_proofs.
Context (maxConcurrent maxQueued : Z) (Hc : 1 <= maxConcurrent) (Hq : 0 <= maxQueued).

(** Every slot is a sending call; nobody waits while a slot is free. *)
Record slots_ok (c : Calls) : Prop := {
  ok_inFlight : inFlight (slots c) = Z.of_nat (length (sending c));
  ok_cap : inFlight (slots c) <= maxConcurrent;
  ok_queue : Z.of_nat (length (waiters (slots c))) <= maxQueued;
  ok_busy : waiters (slots c) <> [] -> inFlight (slots c) = maxConcurrent;
  ok_calls : NoDup (sending c ++ waiters (slots c) ++ ended c);
}.

Lemma slots_ok_idle : slots_ok idle.
Proof. split; cbn; [done|lia|lia|done|constructor]. Qed.

Lemma slots_ok_step c l c' : slots_ok c -> call_step maxConcurrent maxQueued c l c' -> slots_ok c'.
Proof.
  intros [Hi Hcap Hqu Hb Hn] Hstep. destruct Hstep as [i c s' Hf Ha|i c s' Hf Ha|i c s' Hf Ha|i c Hw|i c s' next Hs Hr].
  - unfold acquire in Ha. destruct (inFlight (slots c) <? maxConcurrent) eqn:E; [|by case_match].
    injection Ha as <-. apply Z.ltb_lt in E. split; cbn [slots sending ended inFlight waiters].
    + rewrite length_cons. lia.
    + lia.
    + done.
    + intros H. apply Hb in H. lia.
    + destruct Hf as (H1 & H2 & H3). apply NoDup_cons. split; [set_solver|done].
  - unfold acquire in Ha. destruct (inFlight (slots c) <? maxConcurrent); [done|].
    destruct (maxQueued <=? _); [|done]. injection Ha as <-. split; [done..|]. cbn [slots sending ended].
    destruct Hf as (H1 & H2 & H3). rewrite perm_end. apply NoDup_cons. split; [set_solver|done].
  - unfold acquire in Ha. destruct (inFlight (slots c) <? maxConcurrent) eqn:E; [done|].
    destruct (maxQueued <=? _) eqn:Eq; [done|]. injection Ha as <-. apply Z.ltb_ge in E. apply Z.leb_gt in Eq.
    split; cbn [slots sending ended inFlight waiters]; [done|done| |lia|].
    + rewrite length_app. simpl. lia.
    + destruct Hf as (H1 & H2 & H3). rewrite perm_mid. apply NoDup_cons. split; [set_solver|done].
  - pose proof (splice_perm i _ Hw) as HP. split; cbn [slots sending ended expire inFlight waiters]; [done|done| | |].
    + pose proof (length_splice i _ Hw). lia.
    + intros _. apply Hb. intros E. rewrite E in Hw. by apply not_elem_of_nil in Hw.
    + rewrite perm_end. eapply NoDup_Permutation_proper; [|exact Hn].
      revert HP. generalize (splice i (waiters (slots c))). intros w HP. rewrite HP. apply Permutation_middle.
  - pose proof (splice_perm i _ Hs) as HP. pose proof (length_splice i _ Hs) as HL. unfold release in Hr.
    destruct (waiters (slots c)) as [|next' rest] eqn:Ew; injection Hr as <- <-;
      split; cbn [slots sending ended inFlight waiters].
    + lia.
    + lia.
    + simpl. lia.
    + done.
    + rewrite HP in Hn. by rewrite (perm_end _ []).
    + rewrite length_cons. lia.
    + lia.
    + simpl in Hqu. lia.
    + intros _. apply Hb. done.
    + rewrite HP in Hn. rewrite perm_end. eapply NoDup_Permutation_proper; [|exact Hn].
      cbn [app]. apply perm_skip. by rewrite <-Permutation_middle.
Qed.

Lemma slots_ok_run c ls c' : slots_ok c -> calls_run maxConcurrent maxQueued c ls c' -> slots_ok c'.
Proof. intros Hs Hr. induction Hr as [|c l c' ls c'' Hl Hr IH]; [done|]. apply IH. by eapply slots_ok_step. Qed.
End slot_proofs.

(** How many slots were given back. *)
Definition done_count (ls : list Label) : nat :=
  length (List.filter (fun l => match l with LDone _ _ => true | _ => false end) ls).

Section fifo.
Context (maxConcurrent maxQueued : Z).

(** A waiter that does not time out gets a slot when those before it have. *)
Lemma waiter_position c ls c' i w1 w2 :
  calls_run maxConcurrent maxQueued c ls c' -> waiters (slots c) = w1 ++ i :: w2 -> LTimeout i ∉ ls ->
  (length w1 < done_count ls)%nat -> exists j, LDone j (Some i) ∈ ls.
Proof.
  intros Hr. revert w1 w2. induction Hr as [c|c l c' ls c'' Hl Hr IH]; intros w1 w2 Hw Ht Hd; [unfold done_count in Hd; simpl in Hd; lia|].
  assert (LTimeout i ∉ ls) as Ht' by set_solver.
  destruct Hl as [k c s' Hf Ha|k c s' Hf Ha|k c s' Hf Ha|k c Hk|k c s' next Hs Hrel].
  - unfold acquire in Ha. destruct (inFlight (slots c) <? maxConcurrent); [|by case_match]. injection Ha as <-.
    destruct (IH w1 w2 Hw Ht' Hd) as [j Hj]. exists j. by right.
  - unfold acquire in Ha. destruct (inFlight (slots c) <? maxConcurrent); [done|].
    destruct (maxQueued <=? _); [|done]. injection Ha as <-.
    destruct (IH w1 w2 Hw Ht' Hd) as [j Hj]. exists j. by right.
  - unfold acquire in Ha. destruct (inFlight (slots c) <? maxConcurrent); [done|].
    destruct (maxQueued <=? _); [done|]. injection Ha as <-.
    destruct (IH w1 (w2 ++ [k])) as [j Hj]; [|done|done|exists j; by right].
    cbn [slots waiters]. by rewrite Hw, <-app_assoc.
  - cbn [slots] in *. destruct (splice_before k i w1 w2) as (w1' & w2' & E & Hlen).
    + intros ->. apply Ht. left.
    + by rewrite <-Hw.
    + destruct (IH w1' w2') as [j Hj]; [|done|unfold done_count in *; simpl in *; lia|exists j; by right].
      cbn [expire waiters]. by rewrite Hw.
  - unfold release in Hrel. rewrite Hw in Hrel. destruct w1 as [|w w1]; cbn [app] in Hrel; injection Hrel as <- <-.
    + exists k. left.
    + destruct (IH w1 w2) as [j Hj]; [done|done|unfold done_count in *; simpl in *; lia|exists j; by right].
Qed.
End fifo.

Lemma newClient_bounds o hc : newClient o = inr hc -> 1 <= hc_maxConcurrent hc /\ 0 <= hc_maxQueued hc.
Proof.
  unfold newClient. destruct (_ && _); [done|]. destruct (_ && _); [done|]. intros [= <-].
  cbn [hc_maxConcurrent hc_maxQueued]. lia.
Qed.

(** ** Lemmas: the body *)

Lemma read_chunks_bound max stream stop : forall chunks total out,
  total = Z.of_nat (String.length (join EmptyString chunks)) -> total <= max ->
  read_chunks max chunks total stream stop = inr out ->
  Z.of_nat (String.length (join EmptyString out)) <= max.
Proof.
  assert (forall l s, join EmptyString (l ++ [s]) = join EmptyString l +:+ s) as Hj.
  { intros l s. induction l as [|t l IH]; [done|]. destruct l as [|u l]; [done|].
    change (join EmptyString ((t :: u :: l) ++ [s])) with (t +:+ EmptyString +:+ join EmptyString ((u :: l) ++ [s])).
    rewrite IH. change (join EmptyString (t :: u :: l)) with (t +:+ EmptyString +:+ join EmptyString (u :: l)).
    by rewrite !str_app_assoc. }
  assert (forall s t, String.length (s +:+ t) = (String.length s + String.length t)%nat) as Hl.
  { intros s t. induction s as [|a s IH]; [done|]. rewrite str_app_cons. cbn [String.length]. by rewrite IH. }
  induction stream as [|v stream IH]; intros chunks total out Ht Hle; cbn [read_chunks].
  - destruct stop; [|done..]. intros [= <-]. lia.
  - cbv zeta. destruct (max <? _) eqn:E; [done|]. apply Z.ltb_ge in E. apply IH; [|done].
    rewrite Hj, Hl. lia.
Qed.

Lemma map_get_set_same {V} (k : string) (v : V) m : map_get k (map_set k v m) = Some v.
Proof. rewrite map_get_set. by rewrite decide_True. Qed.

(** ** Theorems *)

(** Whatever calls come, time out and end, in whatever order, the client has at
    most [maxConcurrent] requests in flight, exactly one per sending call, its
    queue never exceeds [maxQueued], nobody waits while a slot is free, and no
    call is in two places at once. *)
Theorem slots_bounded o hc ls c :
  newClient o = inr hc -> calls_run (hc_maxConcurrent hc) (hc_maxQueued hc) idle ls c ->
  inFlight (slots c) = Z.of_nat (length (sending c)) /\ inFlight (slots c) <= hc_maxConcurrent hc /\
  Z.of_nat (length (waiters (slots c))) <= hc_maxQueued hc /\
  (inFlight (slots c) < hc_maxConcurrent hc -> waiters (slots c) = []) /\
  NoDup (sending c ++ waiters (slots c) ++ ended c).
Proof.
  intros Hn Hr. destruct (newClient_bounds o hc Hn) as [H1 H2].
  destruct (slots_ok_run _ _ H1 H2 _ _ _ (slots_ok_idle _ _ H1 H2) Hr) as [Hi Hcap Hqu Hb Hd].
  split_and!; [done..| |done]. intros Hf. destruct (waiters (slots c)) as [|w ws]; [done|].
  specialize (Hb ltac:(done)). lia.
Qed.

(** The queue is first come, first served: a call that waits and does not time
    out is granted a slot as soon as one more slot than there are calls before it
    in the queue was given back. *)
Theorem waiter_is_served o hc ls1 c1 ls2 c2 i w1 w2 :
  newClient o = inr hc ->
  calls_run (hc_maxConcurrent hc) (hc_maxQueued hc) idle ls1 c1 -> waiters (slots c1) = w1 ++ i :: w2 ->
  calls_run (hc_maxConcurrent hc) (hc_maxQueued hc) c1 ls2 c2 ->
  LTimeout i ∉ ls2 -> (length w1 < done_count ls2)%nat ->
  exists j, LDone j (Some i) ∈ ls2.
Proof. intros _ _ Hw Hr. by eapply waiter_position. Qed.

(** A request that carries a bearer token goes to the path the client was
    configured with and no other, over TLS or to this host unless the operator
    said otherwise, and the token cannot break out of its header. *)
Theorem bearer_is_safe o hc normalize now path query deadlineAt raw req :
  newClient o = inr hc -> o_tokenProvider o = true ->
  prepare hc normalize now path query deadlineAt (normalizeToken raw) = inr req ->
  (u_protocol (o_base o) = "https:" \/
   u_protocol (o_base o) = "http:" /\ (u_hostname (o_base o) ∈ LOOPBACK \/ o_allowInsecureBearer o = true)) /\
  normalize (hr_pathname req) = hr_pathname req /\
  hr_pathname req = strip_slashes (u_pathname (o_base o)) +:+ path /\
  0 < budget_ms hc now deadlineAt <= hc_timeoutMs hc /\
  exists token, normalizeToken raw = Some token /\ token <> EmptyString /\
    map_get "Authorization" (hr_headers req) = Some ("Bearer " +:+ token) /\
    str_all (fun a => token_char a || Ascii.eqb a "=") token = true.
Proof.
  intros Hn Ht. unfold newClient in Hn. destruct (negb _ && negb _) eqn:E1; [done|].
  destruct (_ && _) eqn:E2 in Hn; [done|]. injection Hn as <-. unfold prepare. cbn [hc_options].
  destruct (budget_ms _ _ _ <=? 0) eqn:Eb; [done|]. apply Z.leb_gt in Eb.
  destruct (String.eqb_spec (normalize (strip_slashes (u_pathname (o_base o)) +:+ path))
    (strip_slashes (u_pathname (o_base o)) +:+ path)) as [En|]; [|done]. cbn [negb]. rewrite Ht.
  destruct (normalizeToken raw) as [token|] eqn:Er; [|done].
  destruct (String.eqb_spec token EmptyString) as [|Hne]; [done|]. intros [= <-]. cbn [hr_pathname hr_headers].
  split_and!; [|done|done|done| |].
  - rewrite Ht in E2. destruct (String.eqb_spec (u_protocol (o_base o)) "http:"); [|destruct (String.eqb_spec (u_protocol (o_base o)) "https:"); [by left|done]].
    right. split; [done|]. case_bool_decide; [by left|]. right. by destruct (o_allowInsecureBearer o).
  - unfold budget_ms. cbn [hc_timeoutMs]. destruct deadlineAt; lia.
  - exists token. split_and!; [done|done|apply map_get_set_same|]. unfold normalizeToken in Er. destruct raw as [r|]; [|done].
    destruct (negb _ && test TOKEN_PATTERN (trim r)) eqn:E; [|done]. injection Er as <-.
    apply andb_true_iff in E as [_ E]. revert E. apply test_all_within. cbn.
    split_and!; intros a ->; [done|done|apply orb_true_r].
Qed.

(** A body is parsed only after a success status, and only when it is whole and
    within the limit; every other outcome is an error of a fixed kind. *)
Theorem send_bounded `{JsLib} hc out j :
  send hc out = inr j -> 0 <= hc_maxBodyBytes hc ->
  exists r chunks, out = Fetched r /\ 200 <= hs_status r <= 299 /\
    readCapped (hc_maxBodyBytes hc) (hs_body r) = inr chunks /\
    JSON_parse (join EmptyString chunks) = Some j /\
    Z.of_nat (String.length (join EmptyString chunks)) <= hc_maxBodyBytes hc.
Proof.
  unfold send. destruct out as [| |r]; [done..|]. destruct (status_kind (hs_status r)) eqn:Es; [done|].
  destruct (num_gt _ _); [done|]. destruct (readCapped _ _) as [[]|chunks] eqn:Er; [done..|].
  destruct (JSON_parse _) as [j'|] eqn:Ej; [|done]. intros [= <-] Hb. exists r, chunks. split_and!; try done.
  - unfold status_kind in Es. repeat case_match; try done. apply negb_false_iff, andb_true_iff in H3 as [?%Z.leb_le ?]. done.
  - unfold status_kind in Es. repeat case_match; try done. apply negb_false_iff, andb_true_iff in H3 as [? ?%Z.leb_le]. done.
  - unfold readCapped in Er. destruct (hs_body r) as [[stream stop]|]; [|injection Er as <-; done].
    by eapply read_chunks_bound in Er.
Qed.

(** ** Witnesses *)

Definition demo_options : ClientOptions :=
  mkClientOptions "trino" (mkUrl "https:" "trino" "/api/") true [] None None (Some 1) (Some 1) false.

Definition demo_client : UpstreamHttpClient := mkClient demo_options 2500 5242880 1 1.

Definition demo_waiting : Calls := mkCalls (mkSlots 1 [2%nat]) [1%nat] [].

Lemma demo_queue : calls_run 1 1 idle [LGranted 1; LQueued 2] demo_waiting.
Proof.
  econstructor; [apply (call_granted 1 1 1 idle (mkSlots 1 [])); [|reflexivity]; unfold fresh; cbn; set_solver|].
  econstructor; [|constructor].
  apply (call_queued 1 1 2 (mkCalls (mkSlots 1 []) [1%nat] []) (mkSlots 1 [2%nat])); [|reflexivity].
  unfold fresh; cbn; set_solver.
Qed.

Lemma slots_bounded_witness :
  inFlight (slots demo_waiting) = Z.of_nat (length (sending demo_waiting)) /\
  inFlight (slots demo_waiting) <= hc_maxConcurrent demo_client /\
  Z.of_nat (length (waiters (slots demo_waiting))) <= hc_maxQueued demo_client /\
  (inFlight (slots demo_waiting) < hc_maxConcurrent demo_client -> waiters (slots demo_waiting) = []) /\
  NoDup (sending demo_waiting ++ waiters (slots demo_waiting) ++ ended demo_waiting).
Proof. apply (slots_bounded demo_options demo_client [LGranted 1; LQueued 2]); [reflexivity|exact demo_queue]. Defined.

Lemma waiter_is_served_witness : exists j, LDone j (Some 2%nat) ∈ [LDone 1 (Some 2%nat)].
Proof.
  apply (waiter_is_served demo_options demo_client [LGranted 1; LQueued 2] demo_waiting
    [LDone 1 (Some 2%nat)] (mkCalls (mkSlots 1 []) [2%nat] [1%nat]) 2 [] []).
  - reflexivity.
  - exact demo_queue.
  - reflexivity.
  - econstructor; [|constructor].
    apply (call_done 1 1 1%nat demo_waiting (mkSlots 1 []) (Some 2%nat)); [left|reflexivity].
  - set_solver.
  - cbn. lia.
Defined.

Lemma bearer_is_safe_witness :
  exists req, prepare demo_client id 0 "/v1/info" [] None (normalizeToken (Some " abc== ")) = inr req /\
  ((u_protocol (o_base demo_options) = "https:" \/
    u_protocol (o_base demo_options) = "http:" /\
    (u_hostname (o_base demo_options) ∈ LOOPBACK \/ o_allowInsecureBearer demo_options = true)) /\
   id (hr_pathname req) = hr_pathname req /\
   hr_pathname req = strip_slashes (u_pathname (o_base demo_options)) +:+ "/v1/info" /\
   0 < budget_ms demo_client 0 None <= hc_timeoutMs demo_client /\
   exists token, normalizeToken (Some " abc== ") = Some token /\ token <> EmptyString /\
     map_get "Authorization" (hr_headers req) = Some ("Bearer " +:+ token) /\
     str_all (fun a => token_char a || Ascii.eqb a "=") token = true).
Proof.
  eexists. split; [vm_compute; reflexivity|].
  apply (bearer_is_safe demo_options demo_client id 0 "/v1/info" [] None (Some " abc== ")); reflexivity.
Defined.
