(* ===== verification/PolicyModel.v ===== *)
(** * Policy declarations: [policy-compiler/src/schema.ts], [compare.ts],
      [pgrole.ts], [accessType.ts]

    The types of a declaration as the compiler receives it after YAML parsing,
    the constraints the zod schemas add to the types ([min(1)]), the string
    comparator and the PostgreSQL name normalisation shared by the validator
    and the compilers. *)
From S2P Require Import Prelude JsBase.
From Stdlib Require Import Ascii.

(** ** Types *)

Inductive Privilege := Select | Insert | Update | Delete.
Inductive MaskKind := MaskHash | MaskPartial | MaskNull.
Inductive Engine := Trino | Postgres.
Inductive Classification := Public | Internal | Pii.

Inductive QueryOperation :=
| ExecuteQuery | AccessCatalog | ShowSchemas | ShowTables | ShowColumns
| ShowCreateTable | ShowFunctions | SetCatalogSessionProperty
| FilterCatalogs | FilterSchemas | FilterTables | FilterColumns.

(** [columnMask] is the object's own enumeration ([Object.entries]). *)
Record Grant := mkGrant {
  g_roles : list string;
  g_privileges : list Privilege;
  g_columnMask : option (list (string * MaskKind));
  g_rowFilter : option string;
  g_allowUnmasked : option bool;
}.

Record Resource := mkResource {
  r_resource : string;
  r_classification : Classification;
  r_grants : list Grant;
  r_sensitiveColumns : option (list string);
  r_engine : option Engine;
}.

Record Role := mkRole { ro_name : string; ro_includes : option (list string) }.
Record Group := mkGroup { gr_name : string; gr_roles : list string }.

Record CatalogGrant := mkCatalogGrant {
  cg_catalog : string;
  cg_roles : list string;
  cg_operations : list QueryOperation;
}.

Record PgLogin := mkPgLogin {
  l_name : string;
  l_memberOf : list string;
  l_database : string;
}.

Record Declaration := mkDeclaration {
  d_roles : list Role;
  d_groups : list Group;
  d_resources : list Resource;
  d_catalogGrants : option (list CatalogGrant);
  d_logins : option (list PgLogin);
}.

#[export] Instance Privilege_eq_dec : EqDecision Privilege.
Proof. solve_decision. Defined.
#[export] Instance MaskKind_eq_dec : EqDecision MaskKind.
Proof. solve_decision. Defined.
#[export] Instance Engine_eq_dec : EqDecision Engine.
Proof. solve_decision. Defined.
#[export] Instance Classification_eq_dec : EqDecision Classification.
Proof. solve_decision. Defined.
#[export] Instance QueryOperation_eq_dec : EqDecision QueryOperation.
Proof. solve_decision. Defined.

(** The spelling of the enums. *)
Definition privilege_name (p : Privilege) : string :=
  match p with
  | Select => "select" | Insert => "insert" | Update => "update" | Delete => "delete"
  end.

Definition mask_name (k : MaskKind) : string :=
  match k with MaskHash => "hash" | MaskPartial => "partial" | MaskNull => "null" end.

Definition engine_name (e : Engine) : string :=
  match e with Trino => "trino" | Postgres => "postgres" end.

Definition operation_name (o : QueryOperation) : string :=
  match o with
  | ExecuteQuery => "ExecuteQuery" | AccessCatalog => "AccessCatalog"
  | ShowSchemas => "ShowSchemas" | ShowTables => "ShowTables"
  | ShowColumns => "ShowColumns" | ShowCreateTable => "ShowCreateTable"
  | ShowFunctions => "ShowFunctions"
  | SetCatalogSessionProperty => "SetCatalogSessionProperty"
  | FilterCatalogs => "FilterCatalogs" | FilterSchemas => "FilterSchemas"
  | FilterTables => "FilterTables" | FilterColumns => "FilterColumns"
  end.

Definition DEPLOYED_CATALOG : string := "iceberg".

(** [res.engine ?? "trino"] *)
Definition engine_of (r : Resource) : Engine := default Trino (r_engine r).
(** [r.includes ?? []], [res.sensitiveColumns ?? []], [grant.columnMask ?? {}] *)
Definition includes_of (r : Role) : list string := default [] (ro_includes r).
Definition sensitive_of (r : Resource) : list string := default [] (r_sensitiveColumns r).
Definition mask_of (g : Grant) : list (string * MaskKind) := default [] (g_columnMask g).
(** [grant.allowUnmasked === true] *)
Definition opted_out (g : Grant) : bool := bool_decide (g_allowUnmasked g = Some true).

(** ** The constraints of the zod schemas on well-typed data *)

Definition nonempty {A} (l : list A) : bool := match l with [] => false | _ => true end.
Definition nonempty_str (s : string) : bool := negb (String.eqb s EmptyString).

Definition grantSchema (g : Grant) : bool :=
  nonempty (g_roles g) && nonempty (g_privileges g).

Definition resourceSchema (r : Resource) : bool :=
  nonempty_str (r_resource r) && forallb grantSchema (r_grants r) &&
  forallb nonempty_str (sensitive_of r).

Definition roleSchema (r : Role) : bool := nonempty_str (ro_name r).

Definition groupSchema (g : Group) : bool := nonempty_str (gr_name g) && nonempty (gr_roles g).

Definition catalogGrantSchema (c : CatalogGrant) : bool :=
  nonempty_str (cg_catalog c) && nonempty (cg_roles c) && nonempty (cg_operations c).

Definition pgLoginSchema (l : PgLogin) : bool :=
  nonempty_str (l_name l) && nonempty (l_memberOf l) && nonempty_str (l_database l).

(** [declarationSchema]; a mask record has distinct keys, as an object does. *)
Definition declarationSchema (d : Declaration) : bool :=
  forallb roleSchema (d_roles d) && forallb groupSchema (d_groups d) &&
  forallb resourceSchema (d_resources d) &&
  forallb catalogGrantSchema (default [] (d_catalogGrants d)) &&
  forallb pgLoginSchema (default [] (d_logins d)).

(** The keys of an object are distinct. *)
Definition masks_are_objects (d : Declaration) : Prop :=
  forall r g, r ∈ d_resources d -> g ∈ r_grants r -> NoDup (mask_of g).*1.

(** ** [compare.ts], [pgrole.ts] *)

Definition cmp (a b : string) : Z := str_cmp a b.

(** [name.replace(/-/g, "_").toLowerCase()] *)
Definition toPgRole (name : string) : string :=
  to_lower (str_map (fun a => if Ascii.eqb a "-"%char then "_" else str1 a) name).

(** A double-quoted identifier; no escaping. *)
Definition toPgLoginIdentifier (name : string) : string := dq +:+ name +:+ dq.

(** ** [accessType.ts] *)

Inductive PolicyAccessType := ReadOnly | Mutating.

Definition POLICY_OPERATION_ACCESS_TYPE (o : Privilege + QueryOperation) : PolicyAccessType :=
  match o with
  | inl Select => ReadOnly
  | inl Insert | inl Update | inl Delete => Mutating
  | inr SetCatalogSessionProperty => Mutating
  | inr _ => ReadOnly
  end.

(** ** Lemmas *)

Lemma ascii_lower_idem a : ascii_lower (ascii_lower a) = ascii_lower a.
Proof. by destruct a as [[] [] [] [] [] [] [] []]. Qed.

Lemma toPgRole_cons a s :
  toPgRole (String a s) =
    String (ascii_lower (if Ascii.eqb a "-"%char then "_"%char else a)) (toPgRole s).
Proof. unfold toPgRole, to_lower. simpl. by destruct (Ascii.eqb a "-"%char). Qed.

(** The normalisation is idempotent: a PostgreSQL name is its own role. *)
Lemma toPgRole_idem s : toPgRole (toPgRole s) = toPgRole s.
Proof.
  induction s as [|a s IH]; [done|]. rewrite !toPgRole_cons, IH. f_equal.
  by destruct a as [[] [] [] [] [] [] [] []].
Qed.

(** ** A declaration the witnesses evaluate

    Roles with inheritance, a group, a PII table with two masks and an opted-out
    auditor, a PostgreSQL table, a catalog grant and a LOGIN account. *)
Definition sample_masked : Grant :=
  mkGrant ["analyst"] [Select] (Some [("email", MaskHash); ("phone", MaskPartial)]) None None.
Definition sample_filtered : Grant :=
  mkGrant ["reader"] [Select] (Some [("email", MaskHash); ("phone", MaskPartial)]) (Some "region = 'eu'") None.
Definition sample_unmasked : Grant := mkGrant ["auditor"] [Select] None None (Some true).

Definition sample_pii : Resource :=
  mkResource "sales.customers" Pii [sample_masked; sample_filtered; sample_unmasked]
    (Some ["email"; "phone"]) None.

Definition sample_pg_grant : Grant := mkGrant ["reader"] [Insert; Select] None None None.
Definition sample_pg : Resource :=
  mkResource "public.orders" Internal [sample_pg_grant] None (Some Postgres).

Definition sample_group : Group := mkGroup "staff" ["analyst"].
Definition sample_login : PgLogin := mkPgLogin "kim-lee" ["analyst"] "shop".

Definition sample : Declaration :=
  mkDeclaration
    [mkRole "reader" None; mkRole "analyst" (Some ["reader"]); mkRole "auditor" None]
    [sample_group]
    [sample_pii; sample_pg]
    (Some [mkCatalogGrant "iceberg" ["reader"] [ExecuteQuery; AccessCatalog]])
    (Some [sample_login]).

Lemma sample_groups : NoDup (map gr_name (d_groups sample)).
Proof. apply (bool_decide_unpack _). reflexivity. Qed.

Lemma sample_masks : masks_are_objects sample.
Proof.
  intros r g Hr Hg. unfold sample in Hr. simpl in Hr.
  repeat (apply elem_of_cons in Hr as [->|Hr]); [..|by apply not_elem_of_nil in Hr]; simpl in Hg;
    repeat (apply elem_of_cons in Hg as [->|Hg]); try (by apply not_elem_of_nil in Hg);
    apply (bool_decide_unpack _); reflexivity.
Qed.
