(* ===== verification/PolicyRoles.v ===== *)
(** * Role inheritance: the graph part of [policy-compiler/src/validate.ts]

    [expandRoles], [holdersOf], the group holders and [findCycle], with their
    specification in terms of reachability in the [includes] graph. *)

From S2P Require Import Prelude JsBase PolicyModel.

(** ** Definitions *)

(** [new Map(d.roles.map((r) => [r.name, r]))] *)
Definition byName (d : Declaration) : list (string * Role) :=
  map_of (map (fun r => (ro_name r, r)) (d_roles d)).

(** [byName.get(name)?.includes ?? []] *)
Definition parents (d : Declaration) (name : string) : list string :=
  match map_get name (byName d) with Some r => includes_of r | None => [] end.

Definition role_names (d : Declaration) : list string := map ro_name (d_roles d).

(** The inner [walk] of [expandRoles], over the set [seen].  A call nests only
    under a fresh declared role, so one unit of fuel per role is enough. *)
Fixpoint expand_walk (d : Declaration) (fuel : nat) (name : string) (seen : list string)
    : list string :=
  match fuel with
  | O => seen
  | S fuel' =>
      if decide (name ∈ seen) then seen
      else foldl (fun seen parent => expand_walk d fuel' parent seen)
             (set_add name seen) (parents d name)
  end.

Definition expand_fuel (d : Declaration) : nat := S (length (d_roles d)).

Definition expandRoles (d : Declaration) (roleName : string) : list string :=
  js_sort str_cmp (expand_walk d (expand_fuel d) roleName []).

(** The roles that effectively hold [role]. *)
Definition holdersOf (d : Declaration) (role : string) : list string :=
  map ro_name
    (List.filter (fun r => bool_decide (role ∈ expandRoles d (ro_name r))) (d_roles d)).

Definition groupEffectiveRoles (d : Declaration) (g : Group) : list string :=
  set_of (flat_map (expandRoles d) (gr_roles g)).

Definition taggedGroupHolders (d : Declaration) (role : string) : list string :=
  map (fun g => "group:" +:+ gr_name g)
    (List.filter (fun g => bool_decide (role ∈ groupEffectiveRoles d g)) (d_groups d)).

Definition holdersOfIncludingGroups (d : Declaration) (role : string) : list string :=
  set_of (holdersOf d role ++ taggedGroupHolders d role).

Definition describeHolder (h : string) : string :=
  if starts_with "group:" h then "그룹 " +:+ str_drop 6 h else "롤 " +:+ h.

(** [findCycle]: the colours of the roles and the cycle found so far. *)
Inductive Colour := Visiting | Done.

Record CycleState := mkCycleState {
  cs_state : list (string * Colour);
  cs_cycle : option (list string);
}.

#[export] Instance Colour_eq_dec : EqDecision Colour.
Proof. solve_decision. Defined.

Definition set_colour (name : string) (c : Colour) (s : CycleState) : CycleState :=
  mkCycleState (map_set name c (cs_state s)) (cs_cycle s).

Fixpoint cycle_walk (d : Declaration) (fuel : nat) (name : string) (path : list string)
    (s : CycleState) : CycleState :=
  match fuel with
  | O => s
  | S fuel' =>
      match cs_cycle s with
      | Some _ => s
      | None =>
          match map_get name (cs_state s) with
          | Some Visiting => mkCycleState (cs_state s) (Some (path ++ [name]))
          | Some Done => s
          | None =>
              set_colour name Done
                (foldl (fun s parent => cycle_walk d fuel' parent (path ++ [name]) s)
                   (set_colour name Visiting s) (parents d name))
          end
      end
  end.

Definition findCycle (d : Declaration) : option (list string) :=
  cs_cycle (foldl (fun s r => cycle_walk d (expand_fuel d + 1) (ro_name r) [] s)
              (mkCycleState [] None) (d_roles d)).

(** ** Specification: the inheritance graph *)

(** [edge d x y]: [x] directly includes [y]. *)
Definition edge (d : Declaration) (x y : string) : Prop := y ∈ parents d x.

(** [inherits d x y]: a holder of [x] effectively has [y]. *)
Definition inherits (d : Declaration) : string -> string -> Prop := rtc (edge d).

Definition acyclic (d : Declaration) : Prop := forall x, ~ tc (edge d) x x.

(** ** Lemmas *)

Lemma parents_role d x y : y ∈ parents d x -> x ∈ role_names d.
Proof.
  unfold parents, role_names, byName. destruct (map_get x _) as [r|] eqn:E; [|by intros ?%not_elem_of_nil].
  intros _. apply map_get_of_elem in E. apply elem_of_map in E as (r' & Hr & [= -> ->]).
  apply elem_of_map. eauto.
Qed.

Lemma parents_nonrole d x : x ∉ role_names d -> parents d x = [].
Proof.
  intros Hx. destruct (parents d x) as [|y l] eqn:E; [done|].
  destruct Hx. apply (parents_role d x y). rewrite E. left.
Qed.

(** The roles not yet in [seen]: the measure of both walks. *)
Definition fresh (d : Declaration) (seen : list string) : list string :=
  List.filter (fun x => negb (bool_decide (x ∈ seen))) (role_names d).

Lemma elem_of_fresh d seen x : x ∈ fresh d seen <-> x ∈ role_names d /\ x ∉ seen.
Proof.
  unfold fresh. rewrite elem_of_filterb. by case_bool_decide; naive_solver.
Qed.

Lemma filter_length_le {A} (f g : A -> bool) l :
  (forall x, x ∈ l -> f x = true -> g x = true) ->
  (length (List.filter f l) <= length (List.filter g l))%nat.
Proof.
  induction l as [|x l IH]; simpl; [lia|]. intros H.
  assert (length (List.filter f l) <= length (List.filter g l))%nat
    by (apply IH; intros y Hy; apply H; by right).
  pose proof (H x (list_elem_of_here _ _)). destruct (f x), (g x); simpl; try lia.
Qed.

Lemma filter_length_lt {A} (f g : A -> bool) l x :
  (forall x, x ∈ l -> f x = true -> g x = true) -> x ∈ l -> f x = false -> g x = true ->
  (length (List.filter f l) < length (List.filter g l))%nat.
Proof.
  induction l as [|y l IH]; simpl; [by intros _ ?%not_elem_of_nil|]. intros H Hx Hf Hg.
  assert (length (List.filter f l) <= length (List.filter g l))%nat
    by (apply filter_length_le; intros z Hz; apply H; by right).
  apply elem_of_cons in Hx as [->|Hx].
  - rewrite Hf, Hg. simpl. lia.
  - assert (length (List.filter f l) < length (List.filter g l))%nat
      by (apply IH; [intros z Hz; apply H; by right|done..]).
    pose proof (H y (list_elem_of_here _ _)). destruct (f y), (g y); simpl; try lia.
Qed.

Lemma fresh_mono d s t : s ⊆ t -> (length (fresh d t) <= length (fresh d s))%nat.
Proof.
  intros H. apply filter_length_le. intros x _. do 2 case_bool_decide; simpl; try done.
  set_solver.
Qed.

Lemma fresh_add d s x :
  x ∈ role_names d -> x ∉ s -> (length (fresh d (set_add x s)) < length (fresh d s))%nat.
Proof.
  intros Hr Hs. apply (filter_length_lt _ _ _ x); [|done| |].
  - intros y _. do 2 case_bool_decide; simpl; try done.
    match goal with H : y ∉ _ |- _ => destruct H; apply elem_of_set_add; by right end.
  - rewrite bool_decide_true; [done|]. apply elem_of_set_add. by left.
  - by rewrite bool_decide_false.
Qed.

Lemma fresh_fuel d s : (length (fresh d s) < expand_fuel d)%nat.
Proof.
  unfold expand_fuel, fresh. apply Nat.lt_succ_r. rewrite <-(length_map ro_name).
  apply List.filter_length_le.
Qed.

(** What a walk guarantees: it keeps [seen], adds only what [name] inherits,
    and closes what it adds under [edge]. *)
Definition walk_post (d : Declaration) (roots seen seen' : list string) : Prop :=
  seen ⊆ seen' /\ (forall x, x ∈ roots -> x ∈ seen') /\
  (forall x, x ∈ seen' -> x ∈ seen \/ exists r, r ∈ roots /\ inherits d r x) /\
  (forall x y, x ∈ seen' -> x ∉ seen -> edge d x y -> y ∈ seen').

Lemma expand_walk_fold d fuel l seen :
  (forall name seen, (length (fresh d seen) < fuel)%nat ->
    walk_post d [name] seen (expand_walk d fuel name seen)) ->
  (length (fresh d seen) < fuel)%nat ->
  walk_post d l seen (foldl (fun seen p => expand_walk d fuel p seen) seen l).
Proof.
  intros Hw. revert seen. induction l as [|p l IH]; intros seen Hf; simpl.
  - split_and!; try set_solver.
  - destruct (Hw p seen Hf) as (H1 & H2 & H3 & H4).
    assert (length (fresh d (expand_walk d fuel p seen)) < fuel)%nat as Hf'
      by (pose proof (fresh_mono d _ _ H1); lia).
    destruct (IH _ Hf') as (I1 & I2 & I3 & I4). split_and!.
    + set_solver.
    + intros x [->|Hx]%elem_of_cons; [|by apply I2]. apply I1, H2. set_solver.
    + intros x Hx. apply I3 in Hx as [Hx|(r & Hr & Hx)]; [|set_solver].
      apply H3 in Hx as [Hx|(r & Hr & Hx)]; set_solver.
    + intros x y Hx Hn He. destruct (decide (x ∈ expand_walk d fuel p seen)) as [Hx'|Hx'].
      * apply I1. by eapply H4.
      * by eapply I4.
Qed.

Lemma expand_walk_post d fuel name seen :
  (length (fresh d seen) < fuel)%nat ->
  walk_post d [name] seen (expand_walk d fuel name seen).
Proof.
  revert name seen. induction fuel as [|fuel IH]; intros name seen Hf; [lia|]. simpl.
  case_decide as Hin.
  { split_and!; set_solver. }
  destruct (decide (name ∈ role_names d)) as [Hr|Hr].
  - pose proof (fresh_add d seen name Hr Hin).
    destruct (expand_walk_fold d fuel (parents d name) (set_add name seen) IH) as (H1 & H2 & H3 & H4);
      [lia|]. unfold subseteq, list_subseteq in H1.
    setoid_rewrite elem_of_set_add in H1. setoid_rewrite elem_of_set_add in H3.
    setoid_rewrite elem_of_set_add in H4. split_and!.
    + intros x Hx. apply H1. by right.
    + intros x ->%list_elem_of_singleton. apply H1. by left.
    + intros x Hx. apply H3 in Hx as [[->|Hx]|(r & Hr' & Hx)]; [|by left|].
      * right. exists name. split; [set_solver|]. apply rtc_refl.
      * right. exists name. split; [set_solver|]. by eapply rtc_l.
    + intros x y Hx Hn He. destruct (decide (x = name)) as [->|Hne]; [by apply H2|].
      eapply H4; [done| |done]. naive_solver.
  - rewrite (parents_nonrole d name) by done. simpl. split_and!.
    + intros x Hx. apply elem_of_set_add. by right.
    + intros x ->%list_elem_of_singleton. apply elem_of_set_add. by left.
    + intros x [->|Hx]%elem_of_set_add; [|by left]. right. exists name.
      split; [set_solver|apply rtc_refl].
    + intros x y [->|Hx]%elem_of_set_add Hn He; [|done].
      unfold edge in He. by apply parents_role in He.
Qed.

(** [expandRoles] computes exactly the inherited roles. *)
Lemma elem_of_expandRoles d r x : x ∈ expandRoles d r <-> inherits d r x.
Proof.
  unfold expandRoles. rewrite elem_of_js_sort.
  destruct (expand_walk_post d (expand_fuel d) r []) as (_ & H2 & H3 & H4); [apply fresh_fuel|].
  split.
  - intros Hx. apply H3 in Hx as [Hx|(r' & ->%list_elem_of_singleton & Hx)]; [|done].
    by apply not_elem_of_nil in Hx.
  - assert (forall a, inherits d a x -> a ∈ expand_walk d (expand_fuel d) r [] ->
      x ∈ expand_walk d (expand_fuel d) r []) as Hcl.
    { induction 1 as [|a b c Hab Hbc IH]; [done|]. intros Ha. apply IH.
      eapply H4; [done|apply not_elem_of_nil|done]. }
    intros Hi. apply (Hcl r); [done|]. apply H2. set_solver.
Qed.

Lemma elem_of_holdersOf d role h :
  h ∈ holdersOf d role <-> h ∈ role_names d /\ inherits d h role.
Proof.
  unfold holdersOf, role_names. rewrite !elem_of_map. setoid_rewrite elem_of_filterb.
  setoid_rewrite bool_decide_eq_true. setoid_rewrite elem_of_expandRoles. naive_solver.
Qed.

Lemma elem_of_groupEffectiveRoles d g x :
  x ∈ groupEffectiveRoles d g <-> exists r, r ∈ gr_roles g /\ inherits d r x.
Proof.
  unfold groupEffectiveRoles. rewrite elem_of_set_of, elem_of_flat_map.
  by setoid_rewrite elem_of_expandRoles.
Qed.

Lemma elem_of_holdersOfIncludingGroups d role h :
  h ∈ holdersOfIncludingGroups d role <->
  h ∈ holdersOf d role \/
  exists g, g ∈ d_groups d /\ role ∈ groupEffectiveRoles d g /\ h = "group:" +:+ gr_name g.
Proof.
  unfold holdersOfIncludingGroups, taggedGroupHolders.
  rewrite elem_of_set_of, elem_of_app, elem_of_map. setoid_rewrite elem_of_filterb.
  setoid_rewrite bool_decide_eq_true. naive_solver.
Qed.

#[export] Hint Rewrite elem_of_expandRoles elem_of_holdersOf elem_of_groupEffectiveRoles : elems.

(** ** [findCycle]: soundness and completeness *)

(** A reported path: consecutive edges that come back to a role they left. *)
Definition cycle_ok (d : Declaration) (c : list string) : Prop :=
  Sorted (edge d) c /\ exists l1 x l2, c = l1 ++ x :: l2 ++ [x].

Definition colour (s : CycleState) (x : string) : option Colour := map_get x (cs_state s).

(** Between two calls: the visiting roles are the path, the done roles are
    closed under [edge] and on no cycle. *)
Definition cycle_inv (d : Declaration) (path : list string) (s : CycleState) : Prop :=
  (forall x, colour s x = Some Visiting <-> x ∈ path) /\
  (forall x y, colour s x = Some Done -> edge d x y -> colour s y = Some Done) /\
  (forall x, colour s x = Some Done -> ~ tc (edge d) x x).

Definition uncoloured (d : Declaration) (s : CycleState) : nat :=
  length (fresh d (cs_state s).*1).

Definition cycle_post (d : Declaration) (path targets : list string) (s s' : CycleState) : Prop :=
  match cs_cycle s' with
  | Some c => cycle_ok d c
  | None =>
      cycle_inv d path s' /\ (forall x, x ∈ targets -> colour s' x = Some Done) /\
      (forall x, colour s x = Some Done -> colour s' x = Some Done) /\
      (uncoloured d s' <= uncoloured d s)%nat
  end.

Lemma Sorted_snoc {A} (R : relation A) l x y :
  Sorted R (l ++ [x]) -> R x y -> Sorted R ((l ++ [x]) ++ [y]).
Proof.
  intros Hl HR. induction l as [|z l IH]; simpl in *; [by repeat constructor|].
  apply Sorted_inv in Hl as [Hl Hz]. constructor; [by apply IH|].
  destruct l as [|w l]; simpl in *; inversion Hz; by constructor.
Qed.

Lemma Sorted_tc {A} (R : relation A) x l y : Sorted R (x :: l ++ [y]) -> tc R x y.
Proof.
  revert x. induction l as [|z l IH]; intros x [Hl Hx]%Sorted_inv; simpl in *; inversion Hx.
  - by apply tc_once.
  - eapply tc_l; [done|]. by apply IH.
Qed.

Lemma Sorted_app_r {A} (R : relation A) l k : Sorted R (l ++ k) -> Sorted R k.
Proof. induction l as [|x l IH]; simpl; [done|]. by intros [? _]%Sorted_inv; auto. Qed.

Lemma cycle_ok_cyclic d c : cycle_ok d c -> exists x, x ∈ c /\ tc (edge d) x x.
Proof.
  intros [Hs (l1 & x & l2 & ->)]. exists x. split; [set_solver|].
  by apply Sorted_app_r, Sorted_tc in Hs.
Qed.

Lemma colour_set s n c x :
  colour (set_colour n c s) x = if decide (x = n) then Some c else colour s x.
Proof. apply map_get_set. Qed.

Lemma uncoloured_set d s n c : (uncoloured d (set_colour n c s) <= uncoloured d s)%nat.
Proof.
  unfold uncoloured, set_colour. simpl. rewrite map_set_keys. apply fresh_mono.
  intros x Hx. apply elem_of_set_add. by right.
Qed.

Lemma uncoloured_role d s n c :
  n ∈ role_names d -> colour s n = None ->
  (uncoloured d (set_colour n c s) < uncoloured d s)%nat.
Proof.
  unfold uncoloured, set_colour, colour. intros Hn Hc%map_get_None. simpl.
  rewrite map_set_keys. by apply fresh_add.
Qed.

Section cycle_walks.
Context (d : Declaration) (fuel : nat).

Definition walk_ok : Prop := forall name path s,
  cs_cycle s = None -> (uncoloured d s < fuel)%nat -> cycle_inv d path s ->
  Sorted (edge d) (path ++ [name]) ->
  cycle_post d path [name] s (cycle_walk d fuel name path s).

Lemma cycle_walk_stop name path s c :
  cs_cycle s = Some c -> cycle_walk d fuel name path s = s.
Proof. intros H. destruct fuel; simpl; [done|]. by rewrite H. Qed.

Lemma cycle_fold_stop l path s c :
  cs_cycle s = Some c -> foldl (fun s p => cycle_walk d fuel p path s) s l = s.
Proof.
  intros H. induction l as [|p l IH]; simpl; [done|]. by rewrite (cycle_walk_stop p path s c).
Qed.

Lemma cycle_fold_post l path s :
  walk_ok -> cs_cycle s = None -> (uncoloured d s < fuel)%nat -> cycle_inv d path s ->
  (forall p, p ∈ l -> Sorted (edge d) (path ++ [p])) ->
  cycle_post d path l s (foldl (fun s p => cycle_walk d fuel p path s) s l).
Proof.
  intros Hw. revert s. induction l as [|p l IH]; intros s Hc Hf Hi Hs; simpl.
  { unfold cycle_post. rewrite Hc. split_and!; [done|by intros x ?%not_elem_of_nil|done|lia]. }
  pose proof (Hw p path s Hc Hf Hi (Hs p (list_elem_of_here _ _))) as Hp.
  unfold cycle_post in Hp. destruct (cs_cycle (cycle_walk d fuel p path s)) as [c|] eqn:E.
  { rewrite (cycle_fold_stop _ _ _ c) by done. unfold cycle_post. by rewrite E. }
  destruct Hp as (Hi' & Hd & Hm & Hu).
  specialize (IH _ E ltac:(lia) Hi' (fun q Hq => Hs q (list_elem_of_further _ _ _ Hq))).
  unfold cycle_post in *. case_match; [done|]. destruct IH as (Hi'' & Hd' & Hm' & Hu').
  split_and!; [done| |auto|lia]. intros x [->|Hx]%elem_of_cons; [|by apply Hd'].
  apply Hm', Hd. set_solver.
Qed.
End cycle_walks.

(** Entering a role: it becomes the end of the path. *)
Lemma cycle_inv_enter d path s n :
  colour s n = None -> cycle_inv d path s ->
  cycle_inv d (path ++ [n]) (set_colour n Visiting s).
Proof.
  intros Hn (Hv & Hd & Ha). split_and!.
  - intros x. rewrite colour_set. case_decide as E; [subst; set_solver|].
    rewrite Hv. set_solver.
  - intros x y. rewrite !colour_set. destruct (decide (x = n)); [done|]. intros Hx He.
    specialize (Hd _ _ Hx He). case_decide; [congruence|done].
  - intros x. rewrite colour_set. case_decide; [done|]. apply Ha.
Qed.

(** Leaving a role all of whose parents are done. *)
Lemma cycle_inv_leave d path s n :
  n ∉ path -> (forall p, edge d n p -> colour s p = Some Done) ->
  cycle_inv d (path ++ [n]) s -> cycle_inv d path (set_colour n Done s).
Proof.
  intros Hn Hp (Hv & Hd & Ha).
  assert (colour s n = Some Visiting) as Hcn by (apply Hv; set_solver).
  assert (forall x y, tc (edge d) x y -> colour s x = Some Done -> colour s y = Some Done) as Hcl.
  { intros x y. induction 1; eauto. }
  split_and!.
  - intros x. rewrite colour_set. case_decide as E; [by subst; split|]. rewrite Hv. set_solver.
  - intros x y. rewrite !colour_set. destruct (decide (y = n)); [done|].
    case_decide; [subst; auto|]. apply Hd.
  - intros x. rewrite colour_set. case_decide as E; [subst|by apply Ha].
    intros _ Hc. assert (colour s n = Some Done); [|congruence].
    inversion Hc; subst; [by apply Hp|]. eapply Hcl; [done|]. by apply Hp.
Qed.

Lemma cycle_walk_post d fuel : walk_ok d fuel.
Proof.
  induction fuel as [|fuel IH]; intros n path s Hc Hf Hi Hs; [lia|]. simpl. rewrite Hc.
  change (map_get n (cs_state s)) with (colour s n).
  destruct (colour s n) as [[]|] eqn:Hn.
  - unfold cycle_post. simpl. split; [done|]. apply Hi in Hn.
    apply list_elem_of_split in Hn as (l1 & l2 & ->). exists l1, n, l2. by rewrite <-app_assoc.
  - unfold cycle_post. rewrite Hc. split_and!; [done| |done|lia].
    by intros x ->%list_elem_of_singleton.
  - assert (n ∉ path) as Hnp by (rewrite <-(proj1 Hi); congruence).
    set (s1 := set_colour n Visiting s).
    assert (cycle_post d (path ++ [n]) (parents d n) s1
      (foldl (fun s p => cycle_walk d fuel p (path ++ [n]) s) s1 (parents d n))) as Hp.
    { destruct (decide (n ∈ role_names d)) as [Hr|Hr].
      - apply cycle_fold_post; [done|done| |by apply cycle_inv_enter|].
        + pose proof (uncoloured_role d s n Visiting Hr Hn). unfold s1. lia.
        + intros p Hp. by apply Sorted_snoc.
      - rewrite parents_nonrole by done. unfold cycle_post, s1. simpl. rewrite Hc.
        split_and!; [by apply cycle_inv_enter|by intros x ?%not_elem_of_nil|done|lia]. }
    set (s2 := foldl _ s1 _) in *. unfold cycle_post in *. simpl.
    destruct (cs_cycle s2); [done|]. destruct Hp as (Hi2 & Hd2 & Hm2 & Hu2). split_and!.
    + by apply cycle_inv_leave.
    + intros x ->%list_elem_of_singleton. rewrite colour_set. by rewrite decide_True.
    + intros x Hx. rewrite colour_set. case_decide; [done|]. apply Hm2. unfold s1.
      rewrite colour_set. by rewrite decide_False.
    + pose proof (uncoloured_set d s2 n Done). pose proof (uncoloured_set d s n Visiting).
      unfold s1 in *. lia.
Qed.

Lemma findCycle_post d :
  match findCycle d with
  | Some c => cycle_ok d c
  | None => acyclic d
  end.
Proof.
  unfold findCycle.
  assert (foldl (fun s r => cycle_walk d (expand_fuel d + 1) (ro_name r) [] s)
            (mkCycleState [] None) (d_roles d) =
          foldl (fun s p => cycle_walk d (expand_fuel d + 1) p [] s)
            (mkCycleState [] None) (role_names d)) as ->.
  { unfold role_names. generalize (mkCycleState [] None). induction (d_roles d); simpl; auto. }
  pose proof (cycle_fold_post d (expand_fuel d + 1) (role_names d) [] (mkCycleState [] None)
    (cycle_walk_post _ _) eq_refl) as H.
  assert (uncoloured d (mkCycleState [] None) < expand_fuel d + 1)%nat as Hfu.
  { pose proof (fresh_fuel d []) as Hf.
    change (length (fresh d [])) with (uncoloured d (mkCycleState [] None)) in Hf. lia. }
  unfold cycle_post in H. case_match.
  - apply H; [done| |].
    + by split_and!; [intros x; split; [done|intros ?%not_elem_of_nil]|..].
    + intros p _. by repeat constructor.
  - destruct H as ((_ & _ & Ha) & Hd & _).
    + done.
    + by split_and!; [intros x; split; [done|intros ?%not_elem_of_nil]|..].
    + intros p _. by repeat constructor.
    + intros x Hx. apply (Ha x); [|done]. apply Hd.
      inversion Hx; subst; by eapply parents_role.
Qed.

(** The validator reports a cycle exactly when the inheritance graph has
    one: [findCycle] neither misses a cycle nor invents one. *)
Theorem findCycle_None_iff d : findCycle d = None <-> acyclic d.
Proof.
  pose proof (findCycle_post d) as H. destruct (findCycle d) as [c|]; [|done].
  split; [done|]. intros Ha. apply cycle_ok_cyclic in H as (x & _ & Hx). by destruct (Ha x).
Qed.
