(* ===== verification/PolicyValidate.v ===== *)
(** * [policy-compiler/src/validate.ts]: [validateDeclaration]

    The checks in the order of the source, one definition per block; each
    returns the errors the block pushes.  [validateDeclaration_iff] reads the
    conjunction of the checks as propositions. *)

From S2P Require Import Prelude JsBase JsRegex PolicyModel PolicyRoles.
From Stdlib Require Import Ascii.
From Stdlib Require String.

(** ** Patterns *)

Definition any_of (l : list re) : re :=
  match l with [] => Chr (fun _ => false) | r :: l' => foldl Alt r l' end.
Definition seq (l : list re) : re := foldr Cat Eps l.

Definition WS : re := Star true WhiteSpace.
Definition WS1 : re := Plus WhiteSpace.

Definition IDENT : re :=
  seq [Chr is_word_start; Star true (Chr is_word);
       Opt (seq [lit "."; Chr is_word_start; Star true (Chr is_word)])].
Definition NUMBER : re :=
  seq [Opt (lit "-"); Plus Digit; Opt (seq [lit "."; Plus Digit])].
Definition STRING : re :=
  seq [lit "'";
       Star true (Chr (fun a => negb (Ascii.eqb a "'"%char || Ascii.eqb a "092"%char)));
       lit "'"].
Definition SESSION : re := lit_ci "current_user".
Definition VALUE : re := any_of [NUMBER; STRING; SESSION].
Definition IN_LIST : re :=
  seq [lit "("; WS; VALUE; Star true (seq [WS; lit ","; WS; VALUE]); WS; lit ")"].
Definition COMPARISON : re :=
  any_of [lit "<>"; lit "!="; lit "<="; lit ">="; lit "="; lit "<"; lit ">"].
Definition TERM : re :=
  Alt (seq [IDENT; WS; COMPARISON; WS; VALUE]) (seq [IDENT; WS1; lit_ci "IN"; WS; IN_LIST]).
Definition chain (connective : string) : re :=
  seq [WS; TERM; Star true (seq [WS1; lit_ci connective; WS1; TERM]); WS; Eol].
Definition AND_CHAIN : re := chain "AND".
Definition OR_CHAIN : re := chain "OR".
Definition ROW_FILTER_MAX_LENGTH : nat := 200.

Definition IDENTIFIER : re := seq [Chr is_word_start; Star true (Chr is_word); Eol].
Definition is_name_char (a : ascii) : bool := is_word a || Ascii.eqb a "-"%char.
Definition ROLE_NAME : re := seq [Chr is_word_start; Star true (Chr is_name_char); Eol].
Definition LOGIN_NAME : re := ROLE_NAME.

Record ValidationError := mkError { code : string; message : string }.

#[export] Instance ValidationError_eq_dec : EqDecision ValidationError.
Proof. solve_decision. Defined.

Definition err_if (b : bool) (c m : string) : list ValidationError :=
  if b then [mkError c m] else [].

(** [${n}] of a count. *)
Definition show (n : nat) : string := pretty (N.of_nat n).

(** ** The blocks of [validateDeclaration] *)

Section blocks.
Context (d : Declaration).

Definition known (role : string) : bool := bool_decide (role ∈ role_names d).

Definition checkCycle : list ValidationError :=
  match findCycle d with
  | Some cycle =>
      [mkError "CYCLIC_INHERITANCE" ("롤 상속에 순환이 있다: " +:+ join " -> " cycle)]
  | None => []
  end.

Definition checkRole (r : Role) : list ValidationError :=
  err_if (negb (test ROLE_NAME (ro_name r))) "INVALID_IDENTIFIER"
    ("롤 이름 '" +:+ ro_name r +:+ "'이 올바른 형식이 아니다([A-Za-z_][A-Za-z0-9_-]*)") ++
  flat_map (fun parent =>
    err_if (negb (known parent)) "UNKNOWN_ROLE"
      ("롤 '" +:+ ro_name r +:+ "'이 없는 롤 '" +:+ parent +:+ "'을 상속한다") ++
    err_if (negb (test ROLE_NAME parent)) "INVALID_IDENTIFIER"
      ("롤 '" +:+ ro_name r +:+ "'의 includes 항목 '" +:+ parent +:+ "'이 올바른 형식이 아니다"))
    (includes_of r).

(** The roles grouped by PostgreSQL name, in a [Map]. *)
Definition byPgRole : list (string * list string) :=
  foldl (fun m r =>
      let pg := toPgRole (ro_name r) in
      map_set pg (default [] (map_get pg m) ++ [ro_name r]) m) [] (d_roles d).

Definition by_key {V} (a b : string * V) : Z := cmp a.1 b.1.

Definition checkPgCollisions : list ValidationError :=
  flat_map (fun e : string * list string =>
    err_if (1 <? length e.2)%nat "ROLE_NAME_COLLISION"
      ("롤 이름 " +:+ join ", " (map (fun n => "'" +:+ n +:+ "'") (js_sort cmp e.2)) +:+
       "이(가) 모두 PG 롤 '" +:+ e.1 +:+
       "'로 정규화된다 — 하나를 다른 이름으로 바꿔야 한다"))
    (js_sort by_key byPgRole).

Definition checkGroup (g : Group) : list ValidationError :=
  err_if (negb (test ROLE_NAME (gr_name g))) "INVALID_IDENTIFIER"
    ("그룹 이름 '" +:+ gr_name g +:+ "'이 올바른 형식이 아니다([A-Za-z_][A-Za-z0-9_-]*)") ++
  flat_map (fun role =>
    err_if (negb (known role)) "UNKNOWN_ROLE"
      ("그룹 '" +:+ gr_name g +:+ "'이 없는 롤 '" +:+ role +:+ "'을 참조한다") ++
    err_if (negb (test ROLE_NAME role)) "INVALID_IDENTIFIER"
      ("그룹 '" +:+ gr_name g +:+ "'의 롤 항목 '" +:+ role +:+ "'이 올바른 형식이 아니다"))
    (gr_roles g).

Definition resource_key (res : Resource) : string :=
  engine_name (engine_of res) +:+ ":" +:+ r_resource res.

Definition count_map (keys : list string) : list (string * nat) :=
  foldl (fun m k => map_set k (default 0%nat (map_get k m) + 1)%nat m) [] keys.

Definition resourceOccurrences : list (string * nat) :=
  count_map (map resource_key (d_resources d)).

Definition checkDuplicateResources : list ValidationError :=
  flat_map (fun e : string * nat =>
    err_if (1 <? e.2)%nat "DUPLICATE_RESOURCE"
      ("리소스 '" +:+ nth 1 (split_char ":"%char e.1) EmptyString +:+ "'이 선언에서 " +:+
       show e.2 +:+ "번 나온다 — 그랜트를 한 엔트리로 합쳐야 한다(엔트리를 나누면 서로의 그랜트가 비교되지 않아 마스킹 충돌 검사를 우회한다)"))
    (js_sort by_key resourceOccurrences).

Definition rowFilterOk (f : string) : bool :=
  (test AND_CHAIN f || test OR_CHAIN f) && (String.length f <=? ROW_FILTER_MAX_LENGTH)%nat.

(** The sensitive columns the grant leaves unmasked. *)
Definition uncovered (res : Resource) (grant : Grant) : list string :=
  List.filter (fun c => negb (bool_decide (c ∈ (mask_of grant).*1))) (sensitive_of res).

Definition is_pii (res : Resource) : bool := bool_decide (r_classification res = Pii).
Definition is_pg (res : Resource) : bool := bool_decide (r_engine res = Some Postgres).
Definition is_some {A} (o : option A) : bool := match o with Some _ => true | None => false end.

Definition checkGrant (res : Resource) (grant : Grant) : list ValidationError :=
  err_if (is_pg res && is_some (g_columnMask grant)) "POSTGRES_UNSUPPORTED_MASK"
    ("PostgreSQL 리소스 '" +:+ r_resource res +:+
     "'는 columnMask를 지원하지 않는다 — 표준 테이블 GRANT만 컴파일한다") ++
  err_if (is_pg res && is_some (g_rowFilter grant)) "POSTGRES_UNSUPPORTED_ROW_FILTER"
    ("PostgreSQL 리소스 '" +:+ r_resource res +:+
     "'는 rowFilter를 지원하지 않는다 — 표준 테이블 GRANT만 컴파일한다") ++
  flat_map (fun role =>
    err_if (negb (known role)) "UNKNOWN_ROLE"
      ("리소스 '" +:+ r_resource res +:+ "'가 없는 롤 '" +:+ role +:+ "'을 참조한다") ++
    err_if (negb (test ROLE_NAME role)) "INVALID_IDENTIFIER"
      ("리소스 '" +:+ r_resource res +:+ "'의 그랜트 롤 '" +:+ role +:+
       "'이 올바른 형식이 아니다"))
    (g_roles grant) ++
  flat_map (fun col =>
    err_if (negb (test IDENTIFIER col)) "INVALID_IDENTIFIER"
      ("리소스 '" +:+ r_resource res +:+ "'의 columnMask 키 '" +:+ col +:+
       "'이 식별자가 아니다"))
    (mask_of grant).*1 ++
  match g_rowFilter grant with
  | Some f =>
      err_if (negb (rowFilterOk f)) "ROW_FILTER_REJECTED"
        ("리소스 '" +:+ r_resource res +:+
         "'의 rowFilter가 허용 문법이 아니다. AND와 OR을 섞을 수 없으며, 괄호는 미지원된다: " +:+ f)
  | None => []
  end ++
  err_if (is_pii res && bool_decide (Select ∈ g_privileges grant) && negb (opted_out grant) &&
          (0 <? length (uncovered res grant))%nat) "PII_UNMASKED"
    ("PII 리소스 '" +:+ r_resource res +:+ "'의 민감 컬럼 " +:+
     join ", " (uncovered res grant) +:+ "이(가) 마스킹되지 않은 채 select에 노출된다 (롤: " +:+
     join ", " (g_roles grant) +:+ ")").

(** The holders of a grant: of each of its roles, groups included. *)
Definition grantHolders (grant : Grant) : list string :=
  set_of (flat_map (holdersOfIncludingGroups d) (g_roles grant)).

Definition resourceUnmasked (res : Resource) : list string :=
  set_of (flat_map (fun g => flat_map (holdersOfIncludingGroups d) (g_roles g))
            (List.filter opted_out (r_grants res))).

Record MaskEntry := mkMaskEntry { me_grant : Grant; me_holders : list string; me_kind : MaskKind }.

Definition maskedBy (res : Resource) : list (string * list MaskEntry) :=
  foldl (fun m grant =>
      foldl (fun m (ck : string * MaskKind) =>
          map_set ck.1
            (default [] (map_get ck.1 m) ++ [mkMaskEntry grant (grantHolders grant) ck.2]) m)
        m (mask_of grant)) [] (r_grants res).

(** The two inner loops [i < j]. *)
Fixpoint ordered_pairs {A} (l : list A) : list (A * A) :=
  match l with
  | [] => []
  | a :: l' => map (pair a) l' ++ ordered_pairs l'
  end.

Definition maskOverlap (res : Resource) (a b : MaskEntry) : list string :=
  let overlap := List.filter (fun h => bool_decide (h ∈ me_holders b)) (me_holders a) in
  if negb (opted_out (me_grant a))
  then List.filter (fun h => negb (bool_decide (h ∈ resourceUnmasked res))) overlap
  else overlap.

Definition checkMaskPair (res : Resource) (col : string) (ab : MaskEntry * MaskEntry)
    : list ValidationError :=
  let (a, b) := ab in
  if bool_decide (me_kind a = me_kind b) then []
  else if negb (Bool.eqb (opted_out (me_grant a)) (opted_out (me_grant b))) then []
  else err_if (0 <? length (maskOverlap res a b))%nat "CONFLICTING_MASK"
    ("리소스 '" +:+ r_resource res +:+ "'의 컬럼 '" +:+ col +:+ "'을 롤 [" +:+
     join ", " (g_roles (me_grant a)) +:+ "] 그랜트와 롤 [" +:+
     join ", " (g_roles (me_grant b)) +:+ "] 그랜트가 서로 다른 방식(" +:+
     mask_name (me_kind a) +:+ "/" +:+ mask_name (me_kind b) +:+
     ")으로 마스킹하며, 그 보유자가 겹친다(" +:+
     join ", " (map describeHolder (js_sort cmp (set_of (maskOverlap res a b)))) +:+
     ") — OPA가 평가 시 eval_conflict_error를 낸다").

Definition checkMaskConflicts (res : Resource) : list ValidationError :=
  flat_map (fun e : string * list MaskEntry =>
      flat_map (checkMaskPair res e.1) (ordered_pairs e.2))
    (js_sort by_key (maskedBy res)).

Definition resourceNameOk (name : string) : bool :=
  let parts := split_char "."%char name in
  (length parts =? 2)%nat && forallb (test IDENTIFIER) parts.

Definition checkResource (res : Resource) : list ValidationError :=
  err_if (negb (resourceNameOk (r_resource res))) "INVALID_IDENTIFIER"
    ("리소스 '" +:+ r_resource res +:+
     "'는 'schema.table' 형식이어야 하며 두 부분 모두 식별자([A-Za-z_][A-Za-z0-9_]*)여야 한다") ++
  flat_map (fun col =>
    err_if (negb (test IDENTIFIER col)) "INVALID_IDENTIFIER"
      ("리소스 '" +:+ r_resource res +:+ "'의 sensitiveColumns 항목 '" +:+ col +:+
       "'이 식별자가 아니다")) (sensitive_of res) ++
  err_if (is_pii res && (length (sensitive_of res) =? 0)%nat) "PII_NO_SENSITIVE_COLUMNS"
    ("PII 리소스 '" +:+ r_resource res +:+
     "'에 sensitiveColumns가 없다 — 무엇을 가려야 하는지 선언하지 않으면 마스킹을 강제할 수 없다") ++
  flat_map (checkGrant res) (r_grants res) ++
  checkMaskConflicts res.

Definition catalogGrants : list CatalogGrant := default [] (d_catalogGrants d).
Definition logins : list PgLogin := default [] (d_logins d).

Definition checkCatalogGrant (cg : CatalogGrant) : list ValidationError :=
  err_if (negb (String.eqb (cg_catalog cg) DEPLOYED_CATALOG)) "UNSUPPORTED_CATALOG"
    ("카탈로그 그랜트가 '" +:+ cg_catalog cg +:+ "'를 참조하지만 이 프로젝트는 '" +:+
     DEPLOYED_CATALOG +:+
     "' 카탈로그 하나만 배포한다(src/schema.ts의 DEPLOYED_CATALOG). 두 번째 카탈로그가 실제로 배포되면 그 상수를 먼저 바꿀 것") ++
  flat_map (fun role =>
    err_if (negb (known role)) "UNKNOWN_ROLE"
      ("카탈로그 그랜트 '" +:+ cg_catalog cg +:+ "'가 없는 롤 '" +:+ role +:+ "'을 참조한다") ++
    err_if (negb (test ROLE_NAME role)) "INVALID_IDENTIFIER"
      ("카탈로그 그랜트 '" +:+ cg_catalog cg +:+ "'의 롤 '" +:+ role +:+
       "'이 올바른 형식이 아니다"))
    (cg_roles cg).

(** [JSON.stringify([catalog, op])]; [JSON.parse] of it gives the pair back,
    which the entry keeps next to its key. *)
Definition catalog_op_key (catalog : string) (op : QueryOperation) : string :=
  "[" +:+ json_string catalog +:+ "," +:+ json_string (operation_name op) +:+ "]".

Definition catalog_ops : list (string * QueryOperation) :=
  flat_map (fun cg => map (pair (cg_catalog cg)) (cg_operations cg)) catalogGrants.

Definition catalogGrantOpOccurrences : list (string * ((string * QueryOperation) * nat)) :=
  foldl (fun m (co : string * QueryOperation) =>
      let k := catalog_op_key co.1 co.2 in
      map_set k (co, (default 0%nat (snd <$> map_get k m) + 1)%nat) m) [] catalog_ops.

Definition checkDuplicateCatalogGrants : list ValidationError :=
  flat_map (fun e : string * ((string * QueryOperation) * nat) =>
    let '(_, ((catalog, op), count)) := e in
    err_if (1 <? count)%nat "DUPLICATE_CATALOG_GRANT"
      ("카탈로그 '" +:+ catalog +:+ "'의 오퍼레이션 '" +:+ operation_name op +:+
       "'이 catalogGrants에서 " +:+ show count +:+
       "번 선언된다 — 같은 (카탈로그, 오퍼레이션) 조합을 여러 엔트리로 나누면 동일하거나 겹치는 allow 규칙이 중복 방출된다. 한 엔트리로 합칠 것"))
    (js_sort by_key catalogGrantOpOccurrences).

Definition declaredPgRoles : list string := set_of (map (fun r => toPgRole (ro_name r)) (d_roles d)).

Definition checkLogin (login : PgLogin) : list ValidationError :=
  err_if (negb (test LOGIN_NAME (l_name login))) "INVALID_IDENTIFIER"
    ("LOGIN 계정 이름 '" +:+ l_name login +:+
     "'이 올바른 형식이 아니다([A-Za-z_][A-Za-z0-9_-]*)") ++
  err_if (negb (test IDENTIFIER (l_database login))) "INVALID_IDENTIFIER"
    ("LOGIN 계정 '" +:+ l_name login +:+ "'의 database '" +:+ l_database login +:+
     "'이 올바른 형식이 아니다([A-Za-z_][A-Za-z0-9_]*)") ++
  err_if (bool_decide (l_name login ∈ declaredPgRoles)) "LOGIN_NAME_COLLISION"
    ("LOGIN 계정 이름 '" +:+ l_name login +:+
     "'이 선언된 롤의 PG 롤 이름과 같다 — 레거시 특권 롤 별칭과 충돌한다") ++
  flat_map (fun role =>
    err_if (negb (known role)) "UNKNOWN_ROLE"
      ("LOGIN 계정 '" +:+ l_name login +:+ "'이 없는 롤 '" +:+ role +:+
       "'을 참조한다(memberOf)")) (l_memberOf login).

Definition validateDeclaration : list ValidationError :=
  checkCycle ++
  flat_map checkRole (d_roles d) ++
  checkPgCollisions ++
  flat_map checkGroup (d_groups d) ++
  checkDuplicateResources ++
  flat_map checkResource (d_resources d) ++
  flat_map checkCatalogGrant catalogGrants ++
  checkDuplicateCatalogGrants ++
  flat_map checkLogin logins.
End blocks.
