(* ===== verification/PolicyValid.v ===== *)
(** * What an empty error list of [validateDeclaration] guarantees

    [validated d] unfolds into the facts the compilers rely on: the names match
    their patterns, every referenced role is declared, role names are distinct
    up to PostgreSQL normalisation, a table is declared once per engine, a
    sensitive column of a PII table is masked, masks do not conflict. *)

From S2P Require Import Prelude JsBase JsRegex PolicyModel PolicyRoles PolicyValidate.
From Stdlib Require Import Ascii.
From Stdlib Require String.

Definition validated (d : Declaration) : Prop := validateDeclaration d = [].

(** ** Reading the error lists *)

Lemma err_if_nil b c m : err_if b c m = [] <-> b = false.
Proof. apply if_nil. Qed.

Lemma negb_false b : negb b = false <-> b = true.
Proof. by destruct b. Qed.

Lemma known_true d x : known d x = true <-> x ∈ role_names d.
Proof. apply bool_decide_eq_true. Qed.

#[export] Hint Rewrite err_if_nil negb_false known_true : elems.

Ltac errs H := autorewrite with elems in H.

(** ** Words and patterns *)

Definition word_ok (rest : ascii -> bool) (s : string) : Prop :=
  exists a t, s = String a t /\ is_word_start a = true /\ str_all rest t = true.

(** The shape shared by [IDENTIFIER], [ROLE_NAME] and [LOGIN_NAME]. *)
Lemma test_word p q s :
  test (seq [Chr p; Star true (Chr q); Eol]) s = true <->
  exists a t, s = String a t /\ p a = true /\ str_all q t = true.
Proof.
  rewrite test_iff. split.
  - intros (s1 & s2 & c & Hs & H). unfold seq in H. simpl in H.
    apply matches_Cat_inv in H as (u1 & u2 & c1 & -> & H1 & H2).
    apply matches_Cat_inv in H2 as (u3 & u4 & c2 & -> & H2 & H3).
    apply matches_Cat_inv in H3 as (u5 & u6 & c3 & -> & H3 & H4).
    apply matches_Eps_inv in H4 as [-> ->].
    apply matches_Chr_inv in H1 as (a & -> & Ha & ->).
    apply matches_Star_Chr in H2 as [Hq ->].
    apply matches_Eol_inv in H3 as (-> & E & ->). simpl in E. subst s2.
    destruct s as [|b t]; [done|]. simpl in Hs. rewrite !app_nil_r in Hs.
    injection Hs as -> Ht. exists a, t. unfold str_all. by rewrite Ht.
  - intros (a & t & -> & Ha & Ht). exists (a :: String.list_ascii_of_string t), [], [].
    rewrite app_nil_r. split; [done|].
    apply (m_cat _ _ [a] _ _ _ []); [by constructor|].
    rewrite <-(app_nil_r (String.list_ascii_of_string t)). apply (m_cat _ _ _ [] _ _ []);
      [by apply matches_Star_Chr|].
    apply (m_cat _ _ [] [] _ _ []); constructor.
Qed.

Lemma test_IDENTIFIER s : test IDENTIFIER s = true <-> word_ok is_word s.
Proof. apply test_word. Qed.

Lemma test_ROLE_NAME s : test ROLE_NAME s = true <-> word_ok is_name_char s.
Proof. apply test_word. Qed.

Lemma word_ok_chars q s :
  word_ok q s -> (forall a, is_word_start a = true -> q a = true) -> str_all q s = true.
Proof. intros (a & t & -> & Ha & Ht) Hq. unfold str_all in *. simpl. by rewrite Hq, Ht. Qed.

Lemma is_word_start_word a : is_word_start a = true -> is_word a = true.
Proof. unfold is_word. intros ->. done. Qed.

Lemma is_word_name a : is_word a = true -> is_name_char a = true.
Proof. unfold is_name_char. intros ->. done. Qed.

(** ** Grouping by key in a [Map] *)

Lemma count_map_get (keys : list string) (m : list (string * nat)) k :
  map_get k (foldl (fun m k => map_set k (default 0%nat (map_get k m) + 1)%nat m) m keys) =
    match length (List.filter (fun x => bool_decide (x = k)) keys) with
    | O => map_get k m
    | n => Some (default 0%nat (map_get k m) + n)%nat
    end.
Proof.
  revert m. induction keys as [|x keys IH]; intros m; simpl; [done|].
  rewrite IH, map_get_set. destruct (decide (k = x)) as [->|Hne].
  - rewrite bool_decide_true by done. simpl.
    destruct (length _); simpl; f_equal; lia.
  - by rewrite bool_decide_false by done.
Qed.

(** No key is counted twice exactly when the keys are distinct. *)
Lemma filter_eq_length_NoDup {A} `{EqDecision A} (l : list A) :
  (forall x, (length (List.filter (fun y => bool_decide (y = x)) l) <= 1)%nat) -> NoDup l.
Proof.
  induction l as [|x l IH]; intros H; constructor.
  - intros Hx. specialize (H x). simpl in H. rewrite bool_decide_true in H by done. simpl in H.
    assert (x ∈ List.filter (fun y => bool_decide (y = x)) l) as Hf
      by (apply elem_of_filterb; by rewrite bool_decide_true).
    destruct (List.filter _ l); [by apply not_elem_of_nil in Hf|simpl in H; lia].
  - apply IH. intros y. specialize (H y). simpl in H.
    destruct (bool_decide (x = y)); simpl in H; lia.
Qed.

Lemma NoDup_filter_eq_length {A} `{EqDecision A} (l : list A) x :
  NoDup l -> (length (List.filter (fun y => bool_decide (y = x)) l) <= 1)%nat.
Proof.
  induction 1 as [|y l Hy _ IH]; simpl; [lia|]. case_bool_decide as E; [|done]. subst. simpl.
  destruct (List.filter _ l) as [|z k] eqn:Ef; [simpl; lia|]. destruct Hy.
  assert (z ∈ List.filter (fun y => bool_decide (y = x)) l) as Hz by (rewrite Ef; left).
  apply elem_of_filterb in Hz as [Hz Hb]. by apply bool_decide_eq_true in Hb as ->.
Qed.

Lemma count_map_NoDup (keys : list string) :
  (forall k n, map_get k (count_map keys) = Some n -> (n <= 1)%nat) <-> NoDup keys.
Proof.
  unfold count_map. setoid_rewrite count_map_get. simpl. split.
  - intros H. apply filter_eq_length_NoDup. intros x. specialize (H x).
    destruct (length _); [lia|]. by apply H.
  - intros H k n. pose proof (NoDup_filter_eq_length keys k H). destruct (length _); [done|].
    intros [= <-]. done.
Qed.

(** A fold that only grows the list stored under a key. *)
Definition group_step {A V} (key : A -> string) (val : A -> V) (m : list (string * list V)) (a : A) :=
  map_set (key a) (default [] (map_get (key a) m) ++ [val a]) m.

Lemma group_get {A V} (key : A -> string) (val : A -> V) l m k :
  default [] (map_get k (foldl (group_step key val) m l)) =
    default [] (map_get k m) ++ map val (List.filter (fun a => bool_decide (key a = k)) l).
Proof.
  revert m. induction l as [|a l IH]; intros m; simpl; [by rewrite app_nil_r|].
  rewrite IH. unfold group_step at 1. rewrite map_get_set. destruct (decide (k = key a)) as [->|Hne].
  - rewrite bool_decide_true by done. simpl. by rewrite <-app_assoc.
  - by rewrite bool_decide_false by done.
Qed.

Lemma foldl_keys_NoDup {A V} (f : list (string * V) -> A -> list (string * V)) l m :
  (forall m a, NoDup m.*1 -> NoDup (f m a).*1) -> NoDup m.*1 -> NoDup (foldl f m l).*1.
Proof. intros Hf. revert m. induction l as [|a l IH]; simpl; auto. Qed.

Lemma NoDup_count_map (keys : list string) : NoDup (count_map keys).*1.
Proof. apply foldl_keys_NoDup; [|constructor]. intros. by apply NoDup_map_set. Qed.

Lemma NoDup_group {A V} (key : A -> string) (val : A -> V) l :
  NoDup (foldl (group_step key val) [] l).*1.
Proof. apply foldl_keys_NoDup; [|constructor]. intros. by apply NoDup_map_set. Qed.

(** ** The facts *)

Lemma NoDup_map_inj {A B} (f : A -> B) l x y :
  NoDup (map f l) -> x ∈ l -> y ∈ l -> f x = f y -> x = y.
Proof.
  intros HN. induction l as [|z l IH]; [by intros ?%not_elem_of_nil|].
  simpl in HN. apply NoDup_cons in HN as [Hz HN].
  intros [->|Hx]%elem_of_cons [->|Hy]%elem_of_cons E; [done| | |auto];
    destruct Hz; apply elem_of_map; eauto.
Qed.

Lemma flat_map_nil_elem {A B} (f : A -> list B) l x : flat_map f l = [] -> x ∈ l -> f x = [].
Proof. rewrite flat_map_nil. auto. Qed.

Lemma sorted_flat_map_nil {A B} (c : A -> A -> Z) (f : A -> list B) l x :
  flat_map f (js_sort c l) = [] -> x ∈ l -> f x = [].
Proof. intros H Hx. eapply flat_map_nil_elem; [done|]. by apply elem_of_js_sort. Qed.

Section facts.
Context (d : Declaration) (Hv : validated d).

Lemma validated_parts :
  checkCycle d = [] /\ flat_map (checkRole d) (d_roles d) = [] /\ checkPgCollisions d = [] /\
  flat_map (checkGroup d) (d_groups d) = [] /\ checkDuplicateResources d = [] /\
  flat_map (checkResource d) (d_resources d) = [] /\
  flat_map (checkCatalogGrant d) (catalogGrants d) = [] /\
  checkDuplicateCatalogGrants d = [] /\ flat_map (checkLogin d) (logins d) = [].
Proof. unfold validated, validateDeclaration in Hv. by rewrite !app_nil in Hv. Qed.

Lemma validated_acyclic : acyclic d.
Proof.
  destruct validated_parts as (H & _). unfold checkCycle in H.
  pose proof (findCycle_post d) as Hp. by destruct (findCycle d).
Qed.

Lemma validated_role_name x : x ∈ role_names d -> word_ok is_name_char x.
Proof.
  intros (r & Hr & ->)%elem_of_map. destruct validated_parts as (_ & H & _).
  eapply flat_map_nil_elem in H; [|done]. unfold checkRole in H.
  apply test_ROLE_NAME. errs H. apply H.
Qed.

Lemma validated_pg_names : NoDup (map (fun r => toPgRole (ro_name r)) (d_roles d)).
Proof.
  destruct validated_parts as (_ & _ & H & _). apply filter_eq_length_NoDup. intros x.
  unfold checkPgCollisions in H.
  change (byPgRole d) with
    (foldl (group_step (fun r => toPgRole (ro_name r)) ro_name) [] (d_roles d)) in H.
  pose proof (group_get (fun r => toPgRole (ro_name r)) ro_name (d_roles d) [] x) as Hg.
  simpl in Hg.
  assert (length (List.filter (fun y => bool_decide (y = x))
            (map (fun r => toPgRole (ro_name r)) (d_roles d))) =
          length (map ro_name (List.filter (fun a => bool_decide (toPgRole (ro_name a) = x)) (d_roles d))))
    as ->.
  { rewrite length_map. clear. induction (d_roles d); simpl; [done|]. case_bool_decide; simpl; auto. }
  rewrite <-Hg. destruct (map_get x _) as [names|] eqn:E; simpl; [|lia].
  apply map_get_elem_of in E. eapply sorted_flat_map_nil in H; [|done].
  errs H. apply Nat.ltb_ge in H. done.
Qed.

Lemma validated_role_names_NoDup : NoDup (role_names d).
Proof.
  pose proof validated_pg_names as H. unfold role_names.
  rewrite <-(map_map ro_name toPgRole) in H. by apply NoDup_fmap_1 in H.
Qed.

Lemma validated_resource_keys : NoDup (map resource_key (d_resources d)).
Proof.
  destruct validated_parts as (_ & _ & _ & _ & H & _). apply count_map_NoDup. intros k n Hk.
  apply map_get_elem_of in Hk. eapply sorted_flat_map_nil in H; [|done].
  errs H. apply Nat.ltb_ge in H. done.
Qed.

(** A table is declared at most once per engine. *)
Lemma validated_resource_unique r1 r2 :
  r1 ∈ d_resources d -> r2 ∈ d_resources d -> engine_of r1 = engine_of r2 ->
  r_resource r1 = r_resource r2 -> r1 = r2.
Proof.
  intros H1 H2 He Hr. apply (NoDup_map_inj resource_key (d_resources d)); try done.
  - apply validated_resource_keys.
  - unfold resource_key. by rewrite He, Hr.
Qed.

Lemma validated_group_role g role :
  g ∈ d_groups d -> role ∈ gr_roles g -> role ∈ role_names d.
Proof.
  intros Hg Hr. destruct validated_parts as (_ & _ & _ & H & _).
  eapply flat_map_nil_elem in H; [|done]. unfold checkGroup in H. errs H.
  destruct H as [_ H]. specialize (H _ Hr). errs H. naive_solver.
Qed.

Lemma validated_resource res : res ∈ d_resources d -> checkResource d res = [].
Proof.
  intros Hr. destruct validated_parts as (_ & _ & _ & _ & _ & H & _).
  by eapply flat_map_nil_elem in H.
Qed.

Lemma validated_grant res g : res ∈ d_resources d -> g ∈ r_grants res -> checkGrant d res g = [].
Proof.
  intros Hr Hg. pose proof (validated_resource _ Hr) as H. unfold checkResource in H.
  rewrite !app_nil in H. destruct H as (_ & _ & _ & H & _). by eapply flat_map_nil_elem in H.
Qed.

Lemma validated_grant_role res g role :
  res ∈ d_resources d -> g ∈ r_grants res -> role ∈ g_roles g -> role ∈ role_names d.
Proof.
  intros Hr Hg Hro. pose proof (validated_grant _ _ Hr Hg) as H. unfold checkGrant in H.
  rewrite !app_nil in H. destruct H as (_ & _ & H & _).
  eapply flat_map_nil_elem in H; [|done]. errs H. naive_solver.
Qed.

Lemma validated_masks_sensitive res g col :
  res ∈ d_resources d -> g ∈ r_grants res -> r_classification res = Pii ->
  Select ∈ g_privileges g -> opted_out g = false -> col ∈ sensitive_of res ->
  col ∈ (mask_of g).*1.
Proof.
  intros Hr Hg Hp Hs Ho Hc. pose proof (validated_grant _ _ Hr Hg) as H. unfold checkGrant in H.
  rewrite !app_nil in H. destruct H as (_ & _ & _ & _ & _ & H). errs H.
  unfold is_pii in H. rewrite !bool_decide_true, Ho in H by done. simpl in H.
  apply Nat.ltb_ge in H. destruct (decide (col ∈ (mask_of g).*1)) as [?|Hn]; [done|].
  assert (col ∈ uncovered res g) as Hu.
  { apply elem_of_filterb. by rewrite bool_decide_false. }
  destruct (uncovered res g); [by apply not_elem_of_nil in Hu|simpl in H; lia].
Qed.

Lemma validated_name_split res :
  res ∈ d_resources d ->
  exists s t, split_char "."%char (r_resource res) = [s; t] /\
    word_ok is_word s /\ word_ok is_word t.
Proof.
  intros Hr. pose proof (validated_resource _ Hr) as H. unfold checkResource in H.
  rewrite !app_nil in H. destruct H as (H & _). errs H. unfold resourceNameOk in H.
  apply andb_prop in H as [Hl H]. apply Nat.eqb_eq in Hl.
  destruct (split_char _ _) as [|s [|t []]]; try done. simpl in H.
  rewrite !andb_true_iff in H. destruct H as (Hs & Ht & _).
  exists s, t. by rewrite <-!test_IDENTIFIER.
Qed.

Lemma validated_catalog cg : cg ∈ catalogGrants d -> cg_catalog cg = DEPLOYED_CATALOG.
Proof.
  intros Hc. destruct validated_parts as (_ & _ & _ & _ & _ & _ & H & _).
  eapply flat_map_nil_elem in H; [|done]. unfold checkCatalogGrant in H. errs H.
  destruct H as [H _]. by apply String.eqb_eq in H.
Qed.

Lemma validated_catalog_role cg role :
  cg ∈ catalogGrants d -> role ∈ cg_roles cg -> role ∈ role_names d.
Proof.
  intros Hc Hr. destruct validated_parts as (_ & _ & _ & _ & _ & _ & H & _).
  eapply flat_map_nil_elem in H; [|done]. unfold checkCatalogGrant in H. errs H.
  destruct H as [_ H]. specialize (H _ Hr). errs H. naive_solver.
Qed.

Lemma validated_login login :
  login ∈ logins d ->
  word_ok is_name_char (l_name login) /\ word_ok is_word (l_database login) /\
  (forall r, r ∈ role_names d -> toPgRole r <> l_name login) /\
  (forall r, r ∈ l_memberOf login -> r ∈ role_names d).
Proof.
  intros Hl. destruct validated_parts as (_ & _ & _ & _ & _ & _ & _ & _ & H).
  eapply flat_map_nil_elem in H; [|done]. unfold checkLogin in H. errs H.
  destruct H as (Hn & Hd & Hc & Hm).
  apply bool_decide_eq_false in Hc. unfold declaredPgRoles in Hc.
  rewrite elem_of_set_of, elem_of_map in Hc. split_and!.
  - by apply test_ROLE_NAME.
  - by apply test_IDENTIFIER.
  - intros r (ro & Hro & ->)%elem_of_map E. destruct Hc. eauto.
  - intros r Hr. specialize (Hm r Hr). by errs Hm.
Qed.
End facts.
