(* ===== verification/PolicyRego.v ===== *)
(** * [policy-compiler/src/compiler/rego.ts]: the OPA policy

    [compileRego] emits text.  The text is assembled from rules ([RegoRule])
    rendered one by one, in the order of the source; the rules are also what the
    theorems read: [fires] is the meaning of a rule body on a request, [allow],
    [rowFilters] and [columnMasks] the answers OPA derives from the rules. *)

From S2P Require Import Prelude JsBase PolicyModel PolicyRoles.
From Stdlib Require Import Ascii.
From Stdlib Require String.
Open Scope result_scope.

(** ** Helpers of the source *)

Definition MASK_EXPR (k : MaskKind) (col : string) : string :=
  match k with
  | MaskHash => "to_hex(sha256(cast(" +:+ col +:+ " as varbinary)))"
  | MaskPartial => "concat(substr(" +:+ col +:+ ", 1, 2), '***')"
  | MaskNull => "null"
  end.

Inductive ResourceShape := ShNone | ShCatalog | ShSchema | ShTable | ShCatalogSessionProperty.

Definition OPERATION_RESOURCE_SHAPE (o : QueryOperation) : ResourceShape :=
  match o with
  | ExecuteQuery => ShNone
  | AccessCatalog | ShowSchemas | FilterCatalogs => ShCatalog
  | ShowTables | FilterSchemas | ShowFunctions => ShSchema
  | ShowColumns | ShowCreateTable | FilterTables | FilterColumns => ShTable
  | SetCatalogSessionProperty => ShCatalogSessionProperty
  end.

(** [CATALOG_GUARD_PATH]; [None] for the shape without a resource. *)
Definition CATALOG_GUARD_PATH (s : ResourceShape) : option string :=
  match s with
  | ShNone => None
  | ShCatalog => Some "input.action.resource.catalog.name"
  | ShSchema => Some "input.action.resource.schema.catalogName"
  | ShTable => Some "input.action.resource.table.catalogName"
  | ShCatalogSessionProperty => Some "input.action.resource.catalogSessionProperty.catalogName"
  end.

(** The two shapes of [SYSTEM_METADATA_SCHEMA_GUARD_PATH]. *)
Inductive MetadataShape := MdSchema | MdTable.

Definition SYSTEM_METADATA_SCHEMA_GUARD_PATH (s : MetadataShape) : string :=
  match s with
  | MdSchema => "input.action.resource.schema.schemaName"
  | MdTable => "input.action.resource.table.schemaName"
  end.

Definition md_catalog_path (s : MetadataShape) : string :=
  match s with
  | MdSchema => "input.action.resource.schema.catalogName"
  | MdTable => "input.action.resource.table.catalogName"
  end.

(** [value.replace(/[\r\n]+/g, " ")] *)
Fixpoint sanitize_from (in_run : bool) (s : string) : string :=
  match s with
  | EmptyString => EmptyString
  | String a s' =>
      if Ascii.eqb a "010"%char || Ascii.eqb a "013"%char then
        (if in_run then sanitize_from true s' else String " "%char (sanitize_from true s'))
      else String a (sanitize_from false s')
  end.
Definition sanitizeComment : string -> string := sanitize_from false.

(** [lastIndexOf(".")] and the two slices around it. *)
Definition splitResource (resource : string) : result string (string * string) :=
  match rev (split_char "."%char resource) with
  | [] | [_] => inl ("리소스는 'schema.table' 형식이어야 한다: " +:+ resource)
  | table :: schema => inr (join "." (rev schema), table)
  end.

Definition operationOf (p : Privilege) : string :=
  match p with
  | Select => "SelectFromColumns"
  | Insert => "InsertIntoTable"
  | Update => "UpdateTableColumns"
  | Delete => "DeleteFromTable"
  end.

(** ** Rules and their text *)

Inductive Guard :=
| Equal (path value : string)
| OneOf (path : string) (values : list string).

Inductive Head := Allow | RowFilter (expr : string) | ColumnMask (expr : string).

Record RegoRule := mkRule {
  ru_comment : string;
  ru_head : Head;
  ru_guards : list Guard;
  ru_members : list string;
  ru_excluded : option (list string);
}.

Definition json_set (l : list string) : string := "{" +:+ join ", " (map json_string l) +:+ "}".

Definition render_guard (g : Guard) : string :=
  match g with
  | Equal p v => tab +:+ p +:+ " == " +:+ json_string v
  | OneOf p vs => tab +:+ p +:+ " in " +:+ json_set vs
  end.

Definition render_head (h : Head) : string :=
  match h with
  | Allow => "allow if {"
  | RowFilter e => "rowFilters contains {" +:+ json_string "expression" +:+ ": " +:+ json_string e +:+ "} if {"
  | ColumnMask e => "columnMask := {" +:+ json_string "expression" +:+ ": " +:+ json_string e +:+ "} if {"
  end.

Definition render_rule (r : RegoRule) : list string :=
  ["# " +:+ ru_comment r; render_head (ru_head r)] ++
  map render_guard (ru_guards r) ++
  [tab +:+ "some g in groups"; tab +:+ "g in " +:+ json_set (ru_members r)] ++
  match ru_excluded r with
  | Some l => [tab +:+ "every ug in groups { not ug in " +:+ json_set l +:+ " }"]
  | None => []
  end ++
  ["}"; EmptyString].

Definition rego_header : list string :=
  ["# 자동 생성 — 직접 수정하지 말 것. 원천: policies/*.yaml";
   "package trino"; EmptyString; "import rego.v1"; EmptyString; "default allow := false";
   EmptyString;
   "# 요청자의 그룹 (Trino OPA 입력의 실제 경로 — 라이브 실측: identity 키는 groups/user 뿐)";
   "groups := object.get(input, [" +:+ json_string "context" +:+ ", " +:+ json_string "identity" +:+
     ", " +:+ json_string "groups" +:+ "], [])";
   EmptyString].

(** ** The rules of a declaration *)

Definition op_path : string := "input.action.operation".

Section rules.
Context (d : Declaration).

Definition trino_resources : list Resource :=
  js_sort (fun a b => cmp (r_resource a) (r_resource b))
    (List.filter (fun r => bool_decide (engine_of r = Trino)) (d_resources d)).

(** The effective holders of a list of roles, sorted. *)
Definition effective (roles : list string) : list string :=
  js_sort cmp (set_of (flat_map (holdersOf d) roles)).

Definition unmaskedGroups (res : Resource) : list string :=
  js_sort cmp
    (set_of (flat_map (fun g => flat_map (holdersOf d) (g_roles g))
               (List.filter opted_out (r_grants res)))).

Definition by_roles (a b : Grant) : Z := cmp (join "," (g_roles a)) (join "," (g_roles b)).

Definition table_guards (kind schema table : string) : list Guard :=
  [Equal ("input.action.resource." +:+ kind +:+ ".catalogName") DEPLOYED_CATALOG;
   Equal ("input.action.resource." +:+ kind +:+ ".schemaName") schema;
   Equal ("input.action.resource." +:+ kind +:+ ".tableName") table].

(** [null] when the grant opted out itself or no grant of the resource did. *)
Definition unmaskedGuard (res : Resource) (grant : Grant) : option (list string) :=
  if negb (opted_out grant) && (0 <? length (unmaskedGroups res))%nat
  then Some (unmaskedGroups res) else None.

Definition allow_rules (res : Resource) (schema table : string) (grant : Grant) : list RegoRule :=
  let eff := effective (g_roles grant) in
  map (fun priv =>
    mkRule (sanitizeComment (r_resource res) +:+ " — " +:+ privilege_name priv +:+ " (" +:+
            join ", " (map sanitizeComment eff) +:+ ")")
      Allow (Equal op_path (operationOf priv) :: table_guards "table" schema table) eff None)
    (js_sort (fun a b => cmp (privilege_name a) (privilege_name b)) (g_privileges grant)).

Definition row_filter_rules (res : Resource) (schema table : string) (grant : Grant) : list RegoRule :=
  match g_rowFilter grant with
  | Some f =>
      if String.eqb f EmptyString then []
      else [mkRule (sanitizeComment (r_resource res) +:+ " — 행 필터") (RowFilter f)
              (table_guards "table" schema table) (g_roles grant) (unmaskedGuard res grant)]
  | None => []
  end.

(** [Object.entries(m).sort()]: the pairs are compared as their text [col,kind]. *)
Definition mask_entry_text (ck : string * MaskKind) : string := ck.1 +:+ "," +:+ mask_name ck.2.

Definition mask_rules (res : Resource) (schema table : string) (grant : Grant) : list RegoRule :=
  map (fun ck : string * MaskKind =>
    mkRule (sanitizeComment (r_resource res) +:+ "." +:+ sanitizeComment ck.1 +:+ " — 마스킹(" +:+
            mask_name ck.2 +:+ ")")
      (ColumnMask (MASK_EXPR ck.2 ck.1))
      (table_guards "column" schema table ++ [Equal "input.action.resource.column.columnName" ck.1])
      (g_roles grant) (unmaskedGuard res grant))
    (js_sort (fun a b => cmp (mask_entry_text a) (mask_entry_text b)) (mask_of grant)).

Definition resource_rules (res : Resource) : result string (list RegoRule) :=
  let! (schema, table) := splitResource (r_resource res) in
  inr (flat_map (fun grant =>
         allow_rules res schema table grant ++ row_filter_rules res schema table grant ++
         mask_rules res schema table grant)
       (js_sort by_roles (r_grants res))).

(** The comment of a catalog grant without any known role. *)
Definition effective_comment (eff : list string) : string :=
  if (0 <? length eff)%nat then join ", " (map sanitizeComment eff)
  else "알 수 없는 롤 — 검증 우회".

Definition system_catalog_operations : list (QueryOperation * string) :=
  [(AccessCatalog, "input.action.resource.catalog.name");
   (FilterCatalogs, "input.action.resource.catalog.name");
   (ShowSchemas, "input.action.resource.catalog.name");
   (FilterSchemas, "input.action.resource.schema.catalogName")].

Definition system_metadata_operations : list (string * MetadataShape) :=
  [("ShowTables", MdSchema); ("FilterTables", MdTable); ("ShowColumns", MdTable);
   ("FilterColumns", MdTable); ("SelectFromColumns", MdTable)].

Definition catalog_op_rule (cg : CatalogGrant) (eff : list string) (op : QueryOperation) : RegoRule :=
  mkRule ("카탈로그 " +:+ sanitizeComment (cg_catalog cg) +:+ " — " +:+ operation_name op +:+ " (" +:+
          effective_comment eff +:+ ")")
    Allow
    (Equal op_path (operation_name op) ::
     match CATALOG_GUARD_PATH (OPERATION_RESOURCE_SHAPE op) with
     | None => []
     | Some path => [Equal path (cg_catalog cg)]
     end) eff None.

Definition information_schema_rule (cg : CatalogGrant) (eff : list string) : RegoRule :=
  mkRule ("카탈로그 " +:+ sanitizeComment (cg_catalog cg) +:+ " — information_schema SELECT (" +:+
          effective_comment eff +:+ ", SHOW TABLES/COLUMNS 등이 내부적으로 요구)")
    Allow
    [Equal op_path "SelectFromColumns";
     Equal "input.action.resource.table.catalogName" (cg_catalog cg);
     Equal "input.action.resource.table.schemaName" "information_schema"] eff None.

Definition system_rules (eff : list string) : list RegoRule :=
  map (fun op : QueryOperation * string =>
    mkRule ("Trino 내장 system 카탈로그 — " +:+ operation_name op.1 +:+ " (" +:+
            effective_comment eff +:+ ", Superset 메타데이터 검증용)")
      Allow [Equal op_path (operation_name op.1); Equal op.2 "system"] eff None)
    system_catalog_operations ++
  map (fun op : string * MetadataShape =>
    mkRule ("Trino 내장 system 메타데이터 — " +:+ op.1 +:+ " (" +:+ effective_comment eff +:+
            ", metadata/jdbc만; runtime 제외)")
      Allow [Equal op_path op.1; Equal (md_catalog_path op.2) "system";
             OneOf (SYSTEM_METADATA_SCHEMA_GUARD_PATH op.2) ["jdbc"; "metadata"]] eff None)
    system_metadata_operations.

Definition catalog_rules (cg : CatalogGrant) : list RegoRule :=
  let eff := effective (cg_roles cg) in
  map (catalog_op_rule cg eff)
    (js_sort (fun a b => cmp (operation_name a) (operation_name b)) (cg_operations cg)) ++
  [information_schema_rule cg eff] ++
  (if bool_decide (AccessCatalog ∈ cg_operations cg) then system_rules eff else []).

Definition rego_rules : result string (list RegoRule) :=
  let! tables := rmap resource_rules trino_resources in
  inr (mjoin tables ++
       flat_map catalog_rules
         (js_sort (fun a b => cmp (cg_catalog a) (cg_catalog b)) (default [] (d_catalogGrants d)))).

Definition compileRego : result string string :=
  let! rules := rego_rules in
  inr (join lf (rego_header ++ flat_map render_rule rules)).
End rules.

(** ** What the rules answer *)

(** A request: the groups of the token, and the strings found under the paths
    of the input document. *)
Record Input := mkInput { in_groups : list string; in_at : string -> option string }.

Definition guard_holds (i : Input) (g : Guard) : bool :=
  match g with
  | Equal p v => bool_decide (in_at i p = Some v)
  | OneOf p vs => match in_at i p with Some v => bool_decide (v ∈ vs) | None => false end
  end.

Definition fires (i : Input) (r : RegoRule) : bool :=
  forallb (guard_holds i) (ru_guards r) &&
  existsb (fun g => bool_decide (g ∈ ru_members r)) (in_groups i) &&
  match ru_excluded r with
  | Some l => forallb (fun ug => negb (bool_decide (ug ∈ l))) (in_groups i)
  | None => true
  end.

Definition is_allow (r : RegoRule) : bool := match ru_head r with Allow => true | _ => false end.

Definition allow (rules : list RegoRule) (i : Input) : bool :=
  existsb (fun r => is_allow r && fires i r) rules.

Definition columnMasks (rules : list RegoRule) (i : Input) : list string :=
  flat_map (fun r => match ru_head r with
                     | ColumnMask e => if fires i r then [e] else []
                     | _ => []
                     end) rules.

Definition rowFilters (rules : list RegoRule) (i : Input) : list string :=
  flat_map (fun r => match ru_head r with
                     | RowFilter e => if fires i r then [e] else []
                     | _ => []
                     end) rules.
