(* ===== verification/PolicyRegoProofs.v ===== *)
(** * What the emitted OPA policy guarantees for a validated declaration *)
From S2P Require Import Prelude JsBase JsRegex PolicyModel PolicyRoles PolicyValidate PolicyValid PolicyRego.
From Stdlib Require Import Ascii.
From Stdlib Require String.

(** ** Requesters and requests *)

(** Whoever the declaration itself says holds roles together: the holder of one
    role, or a member of one group.  Keycloak expands composites when it issues
    the token, so the groups claim is closed under inheritance. *)
Inductive Requester := ByRole (role : string) | ByGroup (g : Group).

Definition declared (d : Declaration) (q : Requester) : Prop :=
  match q with
  | ByRole role => role ∈ role_names d
  | ByGroup g => g ∈ d_groups d
  end.

Definition token (d : Declaration) (q : Requester) : list string :=
  match q with
  | ByRole role => expandRoles d role
  | ByGroup g => groupEffectiveRoles d g
  end.

(** The name under which the validator counts a requester as a holder. *)
Definition holder_tag (q : Requester) : string :=
  match q with
  | ByRole role => role
  | ByGroup g => "group:" +:+ gr_name g
  end.

Definition paths (l : list (string * string)) (p : string) : option string := map_get p l.

Definition table_request (T : list string) (op catalog schema table : string) : Input :=
  mkInput T (paths
    [(op_path, op); ("input.action.resource.table.catalogName", catalog);
     ("input.action.resource.table.schemaName", schema);
     ("input.action.resource.table.tableName", table)]).

Definition column_request (T : list string) (catalog schema table col : string) : Input :=
  mkInput T (paths
    [(op_path, "GetColumnMask"); ("input.action.resource.column.catalogName", catalog);
     ("input.action.resource.column.schemaName", schema);
     ("input.action.resource.column.tableName", table);
     ("input.action.resource.column.columnName", col)]).

(** The grant [g] of [res] is held by someone in the token. *)
Definition held (T : list string) (g : Grant) : Prop := exists r, r ∈ g_roles g /\ r ∈ T.

(** Someone in the token holds a grant of [res] that opted out of masking. *)
Definition opted_out_of (T : list string) (res : Resource) : Prop :=
  exists g, g ∈ r_grants res /\ opted_out g = true /\ held T g.

(** ** Tokens *)

Lemma token_closed d q x y : x ∈ token d q -> inherits d x y -> y ∈ token d q.
Proof.
  destruct q as [role|g]; simpl; autorewrite with elems.
  - intros. by etrans.
  - intros (r & Hr & Hx) Hy. exists r. split; [done|]. by etrans.
Qed.

(** Any role of a token is held under the requester's tag. *)
Lemma token_holder d q role :
  declared d q -> role ∈ role_names d ->
  role ∈ token d q -> holder_tag q ∈ holdersOfIncludingGroups d role.
Proof.
  intros Hq Hr Ht. apply elem_of_holdersOfIncludingGroups. destruct q as [r|g]; simpl in *.
  - left. apply elem_of_holdersOf. by autorewrite with elems in Ht.
  - right. eauto.
Qed.

(** A role name never looks like the tag of a group. *)
Lemma role_not_tag d role name :
  validated d -> role ∈ role_names d -> role <> "group:" +:+ name.
Proof.
  intros Hv Hr ->. apply (validated_role_name d Hv) in Hr as (a & t & E & Ha & Ht).
  injection E as <- <-. done.
Qed.

(** Under a tag, a declared requester really holds the role; two groups of one
    name would share a tag. *)
Lemma holder_token d q role :
  validated d -> NoDup (map gr_name (d_groups d)) -> declared d q ->
  holder_tag q ∈ holdersOfIncludingGroups d role -> role ∈ token d q.
Proof.
  intros Hv Hg Hq [Hh|(g & Hg' & Hr & E)]%elem_of_holdersOfIncludingGroups; destruct q as [r|g0]; simpl in *.
  - apply elem_of_holdersOf in Hh as [_ Hh]. by autorewrite with elems.
  - apply elem_of_holdersOf in Hh as [Hh _]. by destruct (role_not_tag d _ (gr_name g0) Hv Hh).
  - by destruct (role_not_tag d r (gr_name g) Hv Hq).
  - assert (gr_name g0 = gr_name g) as En.
    { change ("group:" +:+ gr_name g0 = "group:" +:+ gr_name g) in E. by injection E. }
    assert (g0 = g) as -> by (by apply (NoDup_map_inj gr_name (d_groups d))). done.
Qed.

(** ** Holders and grants *)

Lemma elem_of_effective d roles x :
  x ∈ effective d roles <-> exists r, r ∈ roles /\ x ∈ holdersOf d r.
Proof. unfold effective. by rewrite elem_of_js_sort, elem_of_set_of, elem_of_flat_map. Qed.

Lemma elem_of_unmaskedGroups d res x :
  x ∈ unmaskedGroups d res <->
  exists g r, g ∈ r_grants res /\ opted_out g = true /\ r ∈ g_roles g /\ x ∈ holdersOf d r.
Proof.
  unfold unmaskedGroups. rewrite elem_of_js_sort, elem_of_set_of, elem_of_flat_map.
  setoid_rewrite elem_of_filterb. setoid_rewrite elem_of_flat_map. naive_solver.
Qed.

(** For a token, membership in the effective holders is holding a role itself. *)
Lemma token_effective d q roles :
  (forall r, r ∈ roles -> r ∈ role_names d) ->
  (exists x, x ∈ token d q /\ x ∈ effective d roles) <-> (exists r, r ∈ roles /\ r ∈ token d q).
Proof.
  intros Hk. setoid_rewrite elem_of_effective. setoid_rewrite elem_of_holdersOf. split.
  - intros (x & Hx & r & Hr & _ & Hi). exists r. split; [done|]. by eapply token_closed.
  - intros (r & Hr & Ht). exists r. split; [done|]. exists r. split_and!; auto. apply rtc_refl.
Qed.

Lemma token_unmasked d q res :
  validated d -> res ∈ d_resources d ->
  (exists x, x ∈ token d q /\ x ∈ unmaskedGroups d res) <-> opted_out_of (token d q) res.
Proof.
  intros Hv Hres. setoid_rewrite elem_of_unmaskedGroups. unfold opted_out_of, held. split.
  - intros (x & Hx & g & r & Hg & Ho & Hr & Hh). apply elem_of_holdersOf in Hh as [_ Hi].
    exists g. split_and!; [done..|]. exists r. split; [done|]. by eapply token_closed.
  - intros (g & Hg & Ho & r & Hr & Ht). exists r. split; [done|]. exists g, r. split_and!; try done.
    apply elem_of_holdersOf. split; [by eapply validated_grant_role|apply rtc_refl].
Qed.

(** ** Which rules a declaration has *)

Lemma join_split c s : join (str1 c) (split_char c s) = s.
Proof.
  induction s as [|a s IH]; [done|]. simpl. destruct (Ascii.eqb_spec a c) as [->|Hne].
  - destruct (split_char c s) as [|w ws] eqn:E; [by destruct s; simpl in E; repeat case_match|].
    change (EmptyString +:+ (str1 c +:+ join (str1 c) (w :: ws)) = String c s). by rewrite IH.
  - destruct (split_char c s) as [|w ws] eqn:E; [by destruct s; simpl in E; repeat case_match|].
    rewrite <-IH. destruct ws; [done|]. simpl. by rewrite !str_app_cons.
Qed.

Lemma validated_splitResource d res :
  validated d -> res ∈ d_resources d ->
  exists s t, splitResource (r_resource res) = inr (s, t) /\ r_resource res = s +:+ ("." +:+ t) /\
    word_ok is_word s /\ word_ok is_word t.
Proof.
  intros Hv Hr. destruct (validated_name_split d Hv res Hr) as (s & t & E & Hs & Ht).
  exists s, t. unfold splitResource. rewrite E. split_and!; [done| |done..].
  rewrite <-(join_split "."%char (r_resource res)), E. done.
Qed.

Definition resource_rule (d : Declaration) (r : RegoRule) (res : Resource) (g : Grant)
    (schema table : string) : Prop :=
  res ∈ d_resources d /\ engine_of res = Trino /\ splitResource (r_resource res) = inr (schema, table) /\
  g ∈ r_grants res /\
  (r ∈ allow_rules d res schema table g \/ r ∈ row_filter_rules d res schema table g \/
   r ∈ mask_rules d res schema table g).

Lemma elem_of_rego_rules d rules r :
  rego_rules d = inr rules ->
  r ∈ rules <->
  (exists res g schema table, resource_rule d r res g schema table) \/
  (exists cg, cg ∈ catalogGrants d /\ r ∈ catalog_rules d cg).
Proof.
  unfold rego_rules, catalogGrants. rewrite rbind_inr. intros (tables & Ht & [= <-]).
  apply rmap_inr in Ht. rewrite elem_of_app, elem_of_flat_map. setoid_rewrite elem_of_js_sort.
  assert (r ∈ mjoin tables <-> exists res rs, res ∈ trino_resources d /\ resource_rules d res = inr rs /\ r ∈ rs)
    as ->.
  { induction Ht as [|res rs l k Hx Ht IH]; simpl; [set_solver|].
    rewrite elem_of_app, IH. split.
    - intros [H|(res' & rs' & H1 & H2 & H3)]; [exists res, rs; set_solver|exists res', rs'; set_solver].
    - intros (res' & rs' & [->|H1]%elem_of_cons & H2 & H3); [left; congruence|right; eauto]. }
  unfold trino_resources, resource_rule, resource_rules. f_equiv.
  setoid_rewrite elem_of_js_sort. setoid_rewrite elem_of_filterb. setoid_rewrite bool_decide_eq_true.
  setoid_rewrite rbind_inr. split.
  - intros (res & rs & [Hr He] & ([schema table] & Hs & [= <-]) & Hin).
    apply elem_of_flat_map in Hin as (g & Hg & Hin). rewrite elem_of_js_sort in Hg.
    rewrite !elem_of_app in Hin. exists res, g, schema, table. done.
  - intros (res & g & schema & table & Hr & He & Hs & Hg & Hin).
    exists res. eexists. split; [done|]. split; [eexists (schema, table); done|].
    apply elem_of_flat_map. exists g. rewrite elem_of_js_sort, !elem_of_app. done.
Qed.

(** ** When a rule fires *)

Lemma some_eq {A} (x y : A) : Some x = Some y <-> x = y.
Proof. split; congruence. Qed.

(** Evaluates the guards of a rule on a request with known paths. *)
Ltac eval_guards := cbn; rewrite ?andb_true_iff, ?bool_decide_eq_true, ?some_eq.

Lemma column_guards T c s t col s' t' col' :
  forallb (guard_holds (column_request T c s t col))
    (table_guards "column" s' t' ++ [Equal "input.action.resource.column.columnName" col']) = true <->
  c = DEPLOYED_CATALOG /\ s = s' /\ t = t' /\ col = col'.
Proof. eval_guards. naive_solver. Qed.

Lemma table_guards_hold T op c s t op' s' t' :
  forallb (guard_holds (table_request T op c s t))
    (Equal op_path op' :: table_guards "table" s' t') = true <->
  op = op' /\ c = DEPLOYED_CATALOG /\ s = s' /\ t = t'.
Proof. eval_guards. naive_solver. Qed.

Definition mask_rule (d : Declaration) (res : Resource) (schema table : string) (g : Grant)
    (ck : string * MaskKind) : RegoRule :=
  mkRule (sanitizeComment (r_resource res) +:+ "." +:+ sanitizeComment ck.1 +:+ " — 마스킹(" +:+
          mask_name ck.2 +:+ ")")
    (ColumnMask (MASK_EXPR ck.2 ck.1))
    (table_guards "column" schema table ++ [Equal "input.action.resource.column.columnName" ck.1])
    (g_roles g) (unmaskedGuard d res g).

Lemma elem_of_mask_rules d res s t g r :
  r ∈ mask_rules d res s t g <-> exists ck, ck ∈ mask_of g /\ r = mask_rule d res s t g ck.
Proof.
  unfold mask_rules. rewrite elem_of_map. setoid_rewrite elem_of_js_sort. done.
Qed.

Lemma existsb_held (T roles : list string) :
  existsb (fun g => bool_decide (g ∈ roles)) T = true <-> exists r, r ∈ roles /\ r ∈ T.
Proof. rewrite existsb_elem. setoid_rewrite bool_decide_eq_true. naive_solver. Qed.

Lemma unmaskedGuard_holds d q res g :
  validated d -> res ∈ d_resources d ->
  match unmaskedGuard d res g with
  | Some l => forallb (fun ug => negb (bool_decide (ug ∈ l))) (token d q)
  | None => true
  end = true <->
  opted_out g = true \/ ~ opted_out_of (token d q) res.
Proof.
  intros Hv Hr. rewrite <-(token_unmasked d q res Hv Hr). unfold unmaskedGuard.
  destruct (opted_out g); simpl; [naive_solver|].
  destruct (0 <? length (unmaskedGroups d res))%nat eqn:E.
  - rewrite forallb_elem. setoid_rewrite negb_true_iff. setoid_rewrite bool_decide_eq_false. split.
    + intros H. right. intros (x & Hx & Hu). by apply (H x).
    + intros H x Hx Hu. destruct H as [E'|H]; [discriminate E'|]. apply H. eauto.
  - apply Nat.ltb_ge in E. destruct (unmaskedGroups d res); [|simpl in E; lia].
    split; [|done]. intros _. right. intros (x & _ & ?%not_elem_of_nil). done.
Qed.

(** A mask rule fires for its column, for the holders of its grant; a grant that
    did not opt out leaves alone whoever holds a grant that did. *)
Lemma fires_mask d q res s t g ck c s' t' col :
  validated d -> res ∈ d_resources d ->
  fires (column_request (token d q) c s' t' col) (mask_rule d res s t g ck) = true <->
  (c = DEPLOYED_CATALOG /\ s' = s /\ t' = t /\ col = ck.1) /\ held (token d q) g /\
  (opted_out g = true \/ ~ opted_out_of (token d q) res).
Proof.
  intros Hv Hr. unfold fires, mask_rule.
  rewrite !andb_true_iff. cbn [ru_guards ru_members ru_excluded].
  rewrite column_guards. cbn [in_groups column_request].
  rewrite existsb_held, unmaskedGuard_holds by done. unfold held. naive_solver.
Qed.

Definition row_filter_rule (d : Declaration) (res : Resource) (schema table : string) (g : Grant)
    (f : string) : RegoRule :=
  mkRule (sanitizeComment (r_resource res) +:+ " — 행 필터") (RowFilter f)
    (table_guards "table" schema table) (g_roles g) (unmaskedGuard d res g).

Lemma elem_of_row_filter_rules d res s t g r :
  r ∈ row_filter_rules d res s t g <->
  exists f, g_rowFilter g = Some f /\ f <> EmptyString /\ r = row_filter_rule d res s t g f.
Proof.
  unfold row_filter_rules. destruct (g_rowFilter g) as [f|]; [|set_solver].
  destruct (String.eqb_spec f EmptyString) as [->|Hne]; [set_solver|].
  rewrite list_elem_of_singleton. naive_solver.
Qed.

Lemma catalog_rules_allow d cg r : r ∈ catalog_rules d cg -> ru_head r = Allow.
Proof.
  unfold catalog_rules, system_rules. rewrite !elem_of_app.
  intros [Hin|[Hin|Hin]].
  - by apply elem_of_map in Hin as (op & _ & ->).
  - by apply list_elem_of_singleton in Hin as ->.
  - case_match; [|by apply not_elem_of_nil in Hin].
    by apply elem_of_app in Hin as [Hin|Hin]; apply elem_of_map in Hin as (op & _ & ->).
Qed.

(** The mask expressions a request gets. *)
Lemma elem_of_columnMasks d q rules c s t col e :
  validated d -> rego_rules d = inr rules ->
  e ∈ columnMasks rules (column_request (token d q) c s t col) <->
  exists res g kind, res ∈ d_resources d /\ engine_of res = Trino /\
    splitResource (r_resource res) = inr (s, t) /\ g ∈ r_grants res /\ (col, kind) ∈ mask_of g /\
    e = MASK_EXPR kind col /\ c = DEPLOYED_CATALOG /\ held (token d q) g /\
    (opted_out g = true \/ ~ opted_out_of (token d q) res).
Proof.
  intros Hv Hrules. unfold columnMasks. rewrite elem_of_flat_map.
  setoid_rewrite (elem_of_rego_rules d rules _ Hrules). split.
  - intros (r & [(res & g & s' & t' & Hr & He & Hs & Hg & Hin)|(cg & Hcg & Hin)] & Hf).
    + destruct Hin as [Hin|[Hin|Hin]].
      * apply elem_of_map in Hin as (p & _ & ->). by apply not_elem_of_nil in Hf.
      * apply elem_of_row_filter_rules in Hin as (f & _ & _ & ->). by apply not_elem_of_nil in Hf.
      * apply elem_of_mask_rules in Hin as ([col' kind] & Hck & ->). simpl in Hf.
        destruct (fires _ _) eqn:Hfire; [|by apply not_elem_of_nil in Hf].
        apply list_elem_of_singleton in Hf as ->. apply fires_mask in Hfire; [|done..].
        destruct Hfire as ((-> & -> & -> & E) & Hh & Ho). simpl in E. subst col'.
        exists res, g, kind. done.
    + rewrite (catalog_rules_allow _ _ _ Hin) in Hf. by apply not_elem_of_nil in Hf.
  - intros (res & g & kind & Hr & He & Hs & Hg & Hck & -> & -> & Hh & Ho).
    exists (mask_rule d res s t g (col, kind)). split.
    + left. exists res, g, s, t. split_and!; try done. right. right.
      apply elem_of_mask_rules. eauto.
    + simpl. rewrite (proj2 (fires_mask d q res s t g (col, kind) _ _ _ _ Hv Hr)); [left|done].
Qed.

(** ** The emitted policy does not depend on the order of the declaration *)
Lemma filterb_perm {A} (f : A -> bool) l k : l ≡ₚ k -> List.filter f l ≡ₚ List.filter f k.
Proof.
  induction 1 as [|x l k _ IH|x y l|l k m _ IH1 _ IH2]; simpl; [done| | |by etrans].
  - destruct (f x); by rewrite IH.
  - destruct (f x), (f y); done || constructor.
Qed.

(** A sorted set depends only on its elements. *)
Lemma sorted_set_canonical (l k : list string) :
  same_set l k -> js_sort cmp (set_of l) = js_sort cmp (set_of k).
Proof.
  intros H. apply js_sort_str_canonical, NoDup_Permutation; [apply NoDup_set_of..|].
  intros x. by rewrite !elem_of_set_of, (H x).
Qed.

Lemma flat_map_same_set {A B} (f g : A -> list B) l :
  (forall x, x ∈ l -> same_set (f x) (g x)) -> same_set (flat_map f l) (flat_map g l).
Proof.
  intros H y. rewrite !elem_of_flat_map. split; intros (x & Hx & Hy); exists x;
    (split; [done|]); by apply (H x Hx).
Qed.

Lemma map_of_perm {V} (l k : list (string * V)) x :
  NoDup l.*1 -> l ≡ₚ k -> map_get x (map_of l) = map_get x (map_of k).
Proof.
  intros HN HP. assert (NoDup k.*1) as HN' by (by rewrite <-HP).
  destruct (map_get x (map_of k)) as [v|] eqn:E.
  - apply map_get_of_elem in E. rewrite <-HP in E.
    destruct (map_get x (map_of l)) as [v'|] eqn:E'.
    + apply map_get_of_elem in E'. apply map_get_elem in E, E'; [|done..]. congruence.
    + apply map_get_of_None in E'. destruct E'. apply list_elem_of_fmap. by exists (x, v).
  - apply map_get_of_None in E. apply map_get_of_None. by rewrite HP.
Qed.

Section order.
Context (d1 d2 : Declaration).
Context (Hroles : d_roles d1 ≡ₚ d_roles d2) (HN : NoDup (role_names d1)).

Lemma parents_perm x : parents d1 x = parents d2 x.
Proof using Hroles HN.
  unfold parents, byName. erewrite map_of_perm; [done| |by rewrite Hroles].
  unfold role_names in HN. revert HN. by rewrite <-list_fmap_compose.
Qed.

Lemma inherits_perm x y : inherits d1 x y <-> inherits d2 x y.
Proof using Hroles HN.
  unfold inherits, edge.
  split; induction 1; try apply rtc_refl; (eapply rtc_l; [|done]);
    [rewrite <-parents_perm|rewrite parents_perm]; done.
Qed.

Lemma holdersOf_perm role : same_set (holdersOf d1 role) (holdersOf d2 role).
Proof using Hroles HN.
  intros x. rewrite !elem_of_holdersOf, inherits_perm. unfold role_names. by rewrite Hroles.
Qed.

Lemma effective_perm roles : effective d1 roles = effective d2 roles.
Proof using Hroles HN.
  apply sorted_set_canonical, flat_map_same_set. intros. apply holdersOf_perm.
Qed.

Lemma unmaskedGroups_perm res : unmaskedGroups d1 res = unmaskedGroups d2 res.
Proof using Hroles HN.
  apply sorted_set_canonical, flat_map_same_set. intros g _.
  apply flat_map_same_set. intros. apply holdersOf_perm.
Qed.

Lemma resource_rules_perm res : resource_rules d1 res = resource_rules d2 res.
Proof using Hroles HN.
  unfold resource_rules. destruct (splitResource _) as [|[s t]]; [done|]. simpl. f_equal.
  apply flat_map_ext. intros g. unfold allow_rules, row_filter_rules, mask_rules, unmaskedGuard.
  by rewrite effective_perm, unmaskedGroups_perm.
Qed.

Lemma catalog_rules_perm cg : catalog_rules d1 cg = catalog_rules d2 cg.
Proof using Hroles HN. unfold catalog_rules. by rewrite effective_perm. Qed.

Lemma rego_rules_perm :
  trino_resources d1 = trino_resources d2 -> d_catalogGrants d1 = d_catalogGrants d2 ->
  rego_rules d1 = rego_rules d2.
Proof using Hroles HN.
  intros Ht Hc. unfold rego_rules. rewrite Ht, Hc.
  assert (forall l, rmap (resource_rules d1) l = rmap (resource_rules d2) l) as ->.
  { induction l as [|r l IH]; simpl; [done|]. by rewrite resource_rules_perm, IH. }
  destruct (rmap _ _); [done|]. simpl. f_equal. f_equal.
  apply flat_map_ext, catalog_rules_perm.
Qed.
End order.

(** The emitted policy is the same text whatever the order in which a
    validated declaration lists its roles and its resources. *)
Theorem compileRego_order d1 d2 :
  validated d1 -> d_roles d1 ≡ₚ d_roles d2 -> d_resources d1 ≡ₚ d_resources d2 ->
  d_catalogGrants d1 = d_catalogGrants d2 -> compileRego d1 = compileRego d2.
Proof.
  intros Hv Hro Hre Hc. unfold compileRego.
  rewrite (rego_rules_perm d1 d2 Hro (validated_role_names_NoDup d1 Hv)); [done| |done].
  apply js_sort_key_canonical; [|by apply filterb_perm].
  intros x y. rewrite !elem_of_filterb, !bool_decide_eq_true. intros [Hx Ex] [Hy Ey] E.
  apply (validated_resource_unique d1 Hv); congruence.
Qed.

Definition sample_reversed : Declaration :=
  mkDeclaration (reverse (d_roles sample)) (d_groups sample) (reverse (d_resources sample))
    (d_catalogGrants sample) (d_logins sample).

Lemma compileRego_order_witness : compileRego sample = compileRego sample_reversed.
Proof.
  apply (compileRego_order sample sample_reversed);
    [vm_compute; reflexivity|symmetry; apply reverse_Permutation..|reflexivity].
Defined.

(** ** The text of the OPA policy: one line per rendered line

    Every name the declaration contributes goes through [JSON.stringify] or
    [sanitizeComment], so no name can start a line of its own: the lines of the
    emitted text are the rendered lines, also for a declaration the validator
    would reject. *)
(** ** Strings on one line *)

Definition LF : ascii := "010"%char.
Definition one_line (s : string) : Prop := str_has LF s = false.

Lemma one_line_app s t : one_line s -> one_line t -> one_line (s +:+ t).
Proof.
  unfold one_line. induction s as [|a s IH]; [done|]. rewrite str_app_cons. simpl.
  rewrite !orb_false_iff. naive_solver.
Qed.

Lemma one_line_join sep (l : list string) :
  one_line sep -> (forall s, s ∈ l -> one_line s) -> one_line (join sep l).
Proof.
  intros Hs Hl. induction l as [|s l IH]; [done|]. simpl. destruct l as [|t l].
  - apply Hl. left.
  - repeat apply one_line_app; [apply Hl; left|done|]. apply IH. intros. apply Hl. by right.
Qed.

Lemma one_line_map f s : (forall a, one_line (f a)) -> one_line (str_map f s).
Proof. intros Hf. induction s; simpl; [done|]. by apply one_line_app. Qed.

Lemma one_line_json_char a : one_line (json_char a).
Proof. by destruct a as [[] [] [] [] [] [] [] []]. Qed.

Lemma one_line_json s : one_line (json_string s).
Proof.
  unfold json_string. repeat apply one_line_app; [done| |done].
  apply one_line_map, one_line_json_char.
Qed.

Lemma one_line_json_set l : one_line (json_set l).
Proof.
  unfold json_set. repeat apply one_line_app; try done. apply one_line_join; [done|].
  intros s (x & _ & ->)%elem_of_map. apply one_line_json.
Qed.

Lemma one_line_sanitize s : one_line (sanitizeComment s).
Proof.
  unfold sanitizeComment. generalize false as b. induction s as [|a s IH]; intros b; [done|]. simpl.
  destruct (Ascii.eqb a "010"%char || _) eqn:E; [destruct b; [apply IH|]|].
  - unfold one_line. simpl. apply IH.
  - apply orb_false_iff in E as [E _]. unfold one_line. simpl. unfold LF. rewrite E. apply IH.
Qed.

Create HintDb line discriminated.
#[local] Hint Resolve one_line_json one_line_json_set one_line_sanitize : line.

Lemma enum_lines :
  (forall p, one_line (privilege_name p)) /\ (forall k, one_line (mask_name k)) /\
  (forall o, one_line (operation_name o)).
Proof. by split_and!; intros []. Qed.

Ltac lines :=
  repeat first [done | apply enum_lines | solve [auto with line] | apply one_line_app].

(** Splitting the joined lines gives the lines back. *)
Lemma split_char_app c s t :
  str_has c s = false -> split_char c (s +:+ String c t) = s :: split_char c t.
Proof.
  induction s as [|a s IH]; intros H.
  - rewrite str_app_nil_l. simpl. by rewrite Ascii.eqb_refl.
  - simpl in H. apply orb_false_iff in H as [Ha H]. rewrite str_app_cons. simpl. by rewrite Ha, IH.
Qed.

Lemma split_char_none c s : str_has c s = false -> split_char c s = [s].
Proof.
  induction s as [|a s IH]; [done|]. simpl. intros [Ha H]%orb_false_iff. by rewrite Ha, IH.
Qed.

Lemma split_join_lines l :
  l <> [] -> (forall s, s ∈ l -> one_line s) -> split_char LF (join lf l) = l.
Proof.
  induction l as [|s l IH]; [done|]. intros _ Hl. simpl. destruct l as [|t l].
  - apply split_char_none. apply Hl. left.
  - change (lf +:+ join lf (t :: l)) with (String LF EmptyString +:+ join lf (t :: l)).
    rewrite str_app_cons, str_app_nil_l, split_char_app by (apply Hl; left).
    f_equal. apply IH; [done|]. intros u Hu. apply Hl. by right.
Qed.

(** ** Rules whose lines are lines *)

Definition guard_line (g : Guard) : Prop :=
  match g with Equal p _ | OneOf p _ => one_line p end.

Definition rule_line (r : RegoRule) : Prop :=
  one_line (ru_comment r) /\ Forall guard_line (ru_guards r).

Lemma render_rule_lines r s : rule_line r -> s ∈ render_rule r -> one_line s.
Proof.
  intros [Hc Hg]. unfold render_rule. rewrite !elem_of_app.
  intros [Hin|[Hin|[Hin|[Hin|Hin]]]].
  - repeat (apply elem_of_cons in Hin as [->|Hin]); [lines| |by apply not_elem_of_nil in Hin].
    destruct (ru_head r); simpl; lines.
  - apply elem_of_map in Hin as (g & Hin & ->). rewrite Forall_forall in Hg.
    specialize (Hg g Hin). destruct g; simpl in *; lines.
  - repeat (apply elem_of_cons in Hin as [->|Hin]); [done| |by apply not_elem_of_nil in Hin].
    lines.
  - destruct (ru_excluded r); [|by apply not_elem_of_nil in Hin].
    apply list_elem_of_singleton in Hin as ->. lines.
  - repeat (apply elem_of_cons in Hin as [->|Hin]); [done..|by apply not_elem_of_nil in Hin].
Qed.

Lemma comment_list_line (l : list string) : one_line (join ", " (map sanitizeComment l)).
Proof.
  apply one_line_join; [done|]. intros s (x & _ & ->)%elem_of_map. apply one_line_sanitize.
Qed.

Lemma effective_comment_line l : one_line (effective_comment l).
Proof. unfold effective_comment. destruct (0 <? _)%nat; [apply comment_list_line|done]. Qed.

#[local] Hint Resolve comment_list_line effective_comment_line : line.

Lemma resource_rules_line d res rs r : resource_rules d res = inr rs -> r ∈ rs -> rule_line r.
Proof.
  unfold resource_rules. rewrite rbind_inr. intros ([s t] & _ & [= <-]).
  rewrite elem_of_flat_map. setoid_rewrite elem_of_app. setoid_rewrite elem_of_app.
  intros (g & _ & [Hin|[Hin|Hin]]).
  - apply elem_of_map in Hin as (p & _ & ->). split; simpl; [lines|by repeat constructor].
  - unfold row_filter_rules in Hin. destruct (g_rowFilter g); [|by apply not_elem_of_nil in Hin].
    destruct (String.eqb _ _); [by apply not_elem_of_nil in Hin|].
    apply list_elem_of_singleton in Hin as ->. split; simpl; [lines|by repeat constructor].
  - apply elem_of_map in Hin as ([c k] & _ & ->). split; simpl; [lines|by repeat constructor].
Qed.

Lemma catalog_rules_line d cg r : r ∈ catalog_rules d cg -> rule_line r.
Proof.
  unfold catalog_rules, system_rules. rewrite !elem_of_app. intros [Hin|[Hin|Hin]].
  - apply elem_of_map in Hin as (op & _ & ->). split; simpl; [lines|]. by destruct op; repeat constructor.
  - apply list_elem_of_singleton in Hin as ->. split; simpl; [lines|by repeat constructor].
  - case_bool_decide; [|by apply not_elem_of_nil in Hin].
    apply elem_of_app in Hin as [Hin|Hin]; apply elem_of_map in Hin as ([op p] & Hop & ->).
    + split; simpl; [lines|].
      repeat (apply elem_of_cons in Hop as [[= -> ->]|Hop]);
        [by repeat constructor..|by apply not_elem_of_nil in Hop].
    + repeat (apply elem_of_cons in Hop as [[= -> ->]|Hop]);
        [split; simpl; [lines|by repeat constructor]..|by apply not_elem_of_nil in Hop].
Qed.

(** C37: the lines of the emitted policy are the header and the rendered lines of
    the rules, for every declaration the compiler accepts, validated or not: no
    role, resource, column or filter of the declaration can add a line, so none
    can add a rule or leave a comment. *)
Theorem compileRego_lines d out :
  compileRego d = inr out ->
  exists rules, rego_rules d = inr rules /\
    split_char LF out = rego_header ++ flat_map render_rule rules.
Proof.
  unfold compileRego. rewrite rbind_inr. intros (rules & Hr & E). exists rules. split; [done|].
  assert (out = join lf (rego_header ++ flat_map render_rule rules)) as -> by congruence.
  apply split_join_lines; [done|]. intros s [Hs|Hs]%elem_of_app.
  { repeat (apply elem_of_cons in Hs as [->|Hs]); [done..|by apply not_elem_of_nil in Hs]. }
  apply elem_of_flat_map in Hs as (r & Hin & Hs). apply (render_rule_lines r); [|done].
  unfold rego_rules in Hr. rewrite rbind_inr in Hr. destruct Hr as (tables & Ht & [= <-]).
  apply elem_of_app in Hin as [Hin|Hin].
  - apply rmap_inr in Ht. revert Hin. induction Ht as [|res rs l k Hx Ht IH]; simpl.
    + by intros ?%not_elem_of_nil.
    + intros [Hin|Hin]%elem_of_app; [by eapply resource_rules_line|auto].
  - apply elem_of_flat_map in Hin as (cg & _ & Hin). by eapply catalog_rules_line.
Qed.

Lemma compileRego_lines_witness :
  exists out, compileRego sample = inr out /\
    exists rules, rego_rules sample = inr rules /\ split_char LF out = rego_header ++ flat_map render_rule rules.
Proof.
  destruct (compileRego sample) as [e|out] eqn:E; [vm_compute in E; discriminate E|].
  exists out. split; [reflexivity|]. apply (compileRego_lines sample out E).
Defined.
