(* ===== verification/PolicyRegoSafety.v ===== *)
(** * The guarantees of the emitted OPA policy

    For a validated declaration and a requester it declares: masks never
    conflict, a sensitive column of a PII table is masked unless the requester
    opted out, and table access is exactly what the grants say. *)

From S2P Require Import Prelude JsBase PolicyModel PolicyRoles PolicyValidate PolicyValid PolicyRego PolicyRegoProofs.
From Stdlib Require Import Ascii.
From Stdlib Require String.

(** ** The pairs the validator compares *)

Lemma elem_of_ordered_pairs {A} (l : list A) a b :
  a ∈ l -> b ∈ l -> a <> b -> (a, b) ∈ ordered_pairs l \/ (b, a) ∈ ordered_pairs l.
Proof.
  induction l as [|c l IH]; [by intros ?%not_elem_of_nil|]. simpl.
  setoid_rewrite elem_of_app. setoid_rewrite elem_of_map.
  intros [->|Ha]%elem_of_cons [->|Hb]%elem_of_cons Hne; [done| | |].
  - left. left. eauto.
  - right. left. eauto.
  - destruct (IH Ha Hb Hne); auto.
Qed.

Definition entries (d : Declaration) (grant : Grant) : list (string * MaskEntry) :=
  map (fun ck : string * MaskKind => (ck.1, mkMaskEntry grant (grantHolders d grant) ck.2))
    (mask_of grant).

Lemma maskedBy_group d res :
  maskedBy d res = foldl (group_step fst snd) [] (flat_map (entries d) (r_grants res)).
Proof.
  unfold maskedBy. generalize (@nil (string * list MaskEntry)).
  induction (r_grants res) as [|g l IH]; intros m; [done|]. simpl. rewrite IH, foldl_app. f_equal.
  unfold entries. clear. revert m.
  induction (mask_of g) as [|ck mk IH]; intros m; simpl; [done|]. by rewrite IH.
Qed.

(** The entries of a column, in one list under the column's key. *)
Lemma maskedBy_col d res col :
  exists l, forall g kind, g ∈ r_grants res -> (col, kind) ∈ mask_of g ->
    (col, l) ∈ maskedBy d res /\ mkMaskEntry g (grantHolders d g) kind ∈ l.
Proof.
  pose proof (group_get fst snd (flat_map (entries d) (r_grants res)) [] col) as Hg.
  rewrite <-maskedBy_group in Hg.
  exists (default [] (map_get col (maskedBy d res))). intros g kind Hin Hck.
  assert (mkMaskEntry g (grantHolders d g) kind ∈ default [] (map_get col (maskedBy d res))) as Hl.
  { rewrite Hg. simpl. apply elem_of_map. exists (col, mkMaskEntry g (grantHolders d g) kind).
    split; [|done]. apply elem_of_filterb. rewrite bool_decide_true by done. split; [|done].
    apply elem_of_flat_map. exists g. split; [done|]. apply elem_of_map. by exists (col, kind). }
  split; [|done]. destruct (map_get col _) as [l|] eqn:E; [|by apply not_elem_of_nil in Hl].
  by apply map_get_elem_of.
Qed.

Section conflict.
Context (d : Declaration) (Hv : validated d).
Context (q : Requester) (Hq : declared d q) (Hg : NoDup (map gr_name (d_groups d))).

Lemma held_tag res g :
  res ∈ d_resources d -> g ∈ r_grants res -> held (token d q) g -> holder_tag q ∈ grantHolders d g.
Proof using Hv Hq.
  intros Hr Hin (r & Hr1 & Hr2). unfold grantHolders. rewrite elem_of_set_of, elem_of_flat_map.
  exists r. split; [done|]. apply token_holder; [done| |done]. by eapply validated_grant_role.
Qed.

Lemma tag_unmasked res :
  holder_tag q ∈ resourceUnmasked d res -> opted_out_of (token d q) res.
Proof using Hv Hq Hg.
  unfold resourceUnmasked. rewrite elem_of_set_of, elem_of_flat_map.
  setoid_rewrite elem_of_filterb. setoid_rewrite elem_of_flat_map.
  intros (g & [Hin Ho] & r & Hr & Ht). exists g. split_and!; [done..|]. exists r.
  split; [done|]. by apply holder_token.
Qed.

(** A compared pair whose both sides reach the requester has one kind. *)
Lemma pair_same_kind res col a b :
  res ∈ d_resources d -> checkMaskPair d res col (a, b) = [] ->
  opted_out (me_grant a) = opted_out (me_grant b) ->
  holder_tag q ∈ me_holders a -> holder_tag q ∈ me_holders b ->
  (opted_out (me_grant a) = true \/ ~ opted_out_of (token d q) res) ->
  me_kind a = me_kind b.
Proof using Hv Hq Hg.
  intros Hr Hc Ho Ha Hb Hu. unfold checkMaskPair in Hc. case_bool_decide as Hk; [done|].
  rewrite Ho, Bool.eqb_reflx in Hc. simpl in Hc. apply err_if_nil, Nat.ltb_ge in Hc.
  assert (holder_tag q ∈ maskOverlap d res a b) as Hin.
  { unfold maskOverlap. cbv zeta.
    assert (holder_tag q ∈ List.filter (fun h => bool_decide (h ∈ me_holders b)) (me_holders a)) as Hf
      by (apply elem_of_filterb; by rewrite bool_decide_true).
    destruct (opted_out (me_grant a)) eqn:E; simpl; [done|]. apply elem_of_filterb. split; [done|].
    rewrite bool_decide_false; [done|]. intros ?%tag_unmasked. naive_solver. }
  destruct (maskOverlap d res a b); [by apply not_elem_of_nil in Hin|simpl in Hc; lia].
Qed.

Lemma masks_same_kind res col g1 g2 k1 k2 :
  res ∈ d_resources d -> NoDup (mask_of g1).*1 ->
  g1 ∈ r_grants res -> g2 ∈ r_grants res -> (col, k1) ∈ mask_of g1 -> (col, k2) ∈ mask_of g2 ->
  held (token d q) g1 -> held (token d q) g2 ->
  (opted_out g1 = true \/ ~ opted_out_of (token d q) res) ->
  (opted_out g2 = true \/ ~ opted_out_of (token d q) res) -> k1 = k2.
Proof using Hv Hq Hg.
  intros Hr HN H1 H2 M1 M2 T1 T2 O1 O2.
  assert (opted_out g1 = opted_out g2) as Ho.
  { destruct (opted_out g1) eqn:E1, (opted_out g2) eqn:E2; try done.
    - destruct O2 as [?|[]]; [done|]. by exists g1.
    - destruct O1 as [?|[]]; [done|]. by exists g2. }
  destruct (maskedBy_col d res col) as [l Hl].
  destruct (Hl g1 k1 H1 M1) as [Hin L1]. destruct (Hl g2 k2 H2 M2) as [_ L2].
  set (a := mkMaskEntry g1 (grantHolders d g1) k1) in *.
  set (b := mkMaskEntry g2 (grantHolders d g2) k2) in *.
  pose proof (held_tag res g1 Hr H1 T1) as Ta. pose proof (held_tag res g2 Hr H2 T2) as Tb.
  destruct (decide (k1 = k2)) as [|Hne]; [done|].
  pose proof (validated_resource d Hv res Hr) as Hc. unfold checkResource in Hc. errs Hc.
  destruct Hc as (_ & _ & _ & _ & Hc). unfold checkMaskConflicts in Hc.
  eapply sorted_flat_map_nil in Hc; [|done]. simpl in Hc. rewrite flat_map_nil in Hc.
  destruct (elem_of_ordered_pairs l a b L1 L2) as [Hp|Hp]; [intros E; injection E; done| |];
    apply Hc in Hp.
  - by apply (pair_same_kind res col a b).
  - symmetry. by apply (pair_same_kind res col b a).
Qed.
End conflict.

(** Two grants of one table: the table is one resource of the declaration. *)
Lemma same_table d r1 r2 s t :
  validated d -> r1 ∈ d_resources d -> r2 ∈ d_resources d -> engine_of r1 = Trino -> engine_of r2 = Trino ->
  splitResource (r_resource r1) = inr (s, t) -> splitResource (r_resource r2) = inr (s, t) -> r1 = r2.
Proof.
  intros Hv H1 H2 E1 E2 S1 S2. apply (validated_resource_unique d Hv); try done; [congruence|].
  destruct (validated_splitResource d r1 Hv H1) as (? & ? & S1' & -> & _).
  destruct (validated_splitResource d r2 Hv H2) as (? & ? & S2' & -> & _). congruence.
Qed.

(** C1: for a validated declaration with distinct group names, no requester of
    the declaration gets two different mask expressions for one column: OPA never
    raises [eval_conflict_error] on [columnMask]. *)
Theorem masks_agree d q rules c s t col e1 e2 :
  validated d -> masks_are_objects d -> NoDup (map gr_name (d_groups d)) -> declared d q ->
  rego_rules d = inr rules ->
  e1 ∈ columnMasks rules (column_request (token d q) c s t col) ->
  e2 ∈ columnMasks rules (column_request (token d q) c s t col) -> e1 = e2.
Proof.
  intros Hv Hm Hg Hq Hr He1 He2. rewrite elem_of_columnMasks in He1, He2 by done.
  destruct He1 as (r1 & g1 & k1 & R1 & E1 & S1 & G1 & M1 & -> & _ & T1 & O1).
  destruct He2 as (r2 & g2 & k2 & R2 & E2 & S2 & G2 & M2 & -> & _ & T2 & O2).
  assert (r1 = r2) as -> by (by apply (same_table d r1 r2 s t)).
  assert (k1 = k2) as ->; [|done].
  apply (masks_same_kind d Hv q Hq Hg r2 col g1 g2); eauto.
Qed.

(** C4: a requester who can select from a PII table through some grant, and who
    holds no grant that opted out of masking, gets a mask for every sensitive
    column, with an expression one of the grants declares. *)
Theorem pii_masked d q rules res s t g col :
  validated d -> rego_rules d = inr rules ->
  res ∈ d_resources d -> engine_of res = Trino -> r_classification res = Pii ->
  splitResource (r_resource res) = inr (s, t) -> col ∈ sensitive_of res ->
  g ∈ r_grants res -> Select ∈ g_privileges g -> held (token d q) g ->
  ~ opted_out_of (token d q) res ->
  exists kind, (col, kind) ∈ mask_of g /\
    MASK_EXPR kind col ∈ columnMasks rules (column_request (token d q) DEPLOYED_CATALOG s t col).
Proof.
  intros Hv Hrules Hr He Hp Hs Hc Hg Hsel Hh Hn.
  assert (opted_out g = false) as Ho.
  { destruct (opted_out g) eqn:E; [|done]. destruct Hn. by exists g. }
  pose proof (validated_masks_sensitive d Hv res g col Hr Hg Hp Hsel Ho Hc) as Hin.
  apply elem_of_map in Hin as ([col' kind] & Hm & ->). exists kind. split; [done|].
  apply elem_of_columnMasks; [done..|]. exists res, g, kind. split_and!; auto.
Qed.

(** ** Table access *)

Lemma allow_rule_fires d q res g s t p op c s' t' :
  validated d -> res ∈ d_resources d -> g ∈ r_grants res ->
  fires (table_request (token d q) op c s' t')
    (mkRule (sanitizeComment (r_resource res) +:+ " — " +:+ privilege_name p +:+ " (" +:+
       join ", " (map sanitizeComment (effective d (g_roles g))) +:+ ")") Allow
       (Equal op_path (operationOf p) :: table_guards "table" s t) (effective d (g_roles g)) None) = true <->
  op = operationOf p /\ c = DEPLOYED_CATALOG /\ s' = s /\ t' = t /\ held (token d q) g.
Proof.
  intros Hv Hr Hg. unfold fires. cbn [ru_guards ru_members ru_excluded].
  rewrite !andb_true_iff, table_guards_hold. cbn [in_groups table_request].
  rewrite existsb_elem. setoid_rewrite bool_decide_eq_true. unfold held.
  rewrite <-(token_effective d q (g_roles g)) by (intros; by eapply validated_grant_role).
  naive_solver.
Qed.

Definition table_op (op : string) : Prop := exists p, op = operationOf p.

Lemma at_op T op c s t : in_at (table_request T op c s t) op_path = Some op.
Proof. done. Qed.
Lemma at_catalog T op c s t :
  in_at (table_request T op c s t) "input.action.resource.table.catalogName" = Some c.
Proof. done. Qed.
Lemma at_schema T op c s t :
  in_at (table_request T op c s t) "input.action.resource.table.schemaName" = Some s.
Proof. done. Qed.
Lemma at_schema_catalog T op c s t :
  in_at (table_request T op c s t) "input.action.resource.schema.catalogName" = None.
Proof. done. Qed.

(** Reads the guards of a rule on a table request. *)
Ltac read_guards H :=
  cbn [ru_guards forallb guard_holds md_catalog_path SYSTEM_METADATA_SCHEMA_GUARD_PATH fst snd] in H;
  rewrite ?at_op, ?at_catalog, ?at_schema, ?at_schema_catalog, ?andb_true_iff, ?bool_decide_eq_true,
    ?some_eq in H.

(** The rules of a catalog grant that can fire on a table operation. *)
Lemma catalog_rules_table d cg T p c s t r :
  cg_catalog cg = DEPLOYED_CATALOG -> r ∈ catalog_rules d cg ->
  fires (table_request T (operationOf p) c s t) r = true ->
  p = Select /\ (exists x, x ∈ effective d (cg_roles cg) /\ x ∈ T) /\
  (c = DEPLOYED_CATALOG /\ s = "information_schema" \/
   c = "system" /\ s ∈ ["jdbc"; "metadata"] /\ AccessCatalog ∈ cg_operations cg).
Proof.
  intros Hc. unfold catalog_rules, system_rules. rewrite !elem_of_app.
  intros Hin Hf. unfold fires in Hf. rewrite !andb_true_iff in Hf. destruct Hf as ((Hgd & Hm) & _).
  assert (ru_members r = effective d (cg_roles cg)) as Em.
  { destruct Hin as [Hin|[Hin|Hin]].
    - by apply elem_of_map in Hin as (op & _ & ->).
    - by apply list_elem_of_singleton in Hin as ->.
    - case_bool_decide; [|by apply not_elem_of_nil in Hin].
      by apply elem_of_app in Hin as [Hin|Hin]; apply elem_of_map in Hin as (op & _ & ->). }
  rewrite Em, existsb_elem in Hm. setoid_rewrite bool_decide_eq_true in Hm. cbn [in_groups] in Hm.
  assert (exists x, x ∈ effective d (cg_roles cg) /\ x ∈ T) as Hx by naive_solver.
  destruct Hin as [Hin|[Hin|Hin]].
  - apply elem_of_map in Hin as (op & _ & ->). exfalso. destruct p, op; discriminate Hgd.
  - apply list_elem_of_singleton in Hin as ->. unfold information_schema_rule in Hgd. read_guards Hgd.
    rewrite Hc in Hgd.
    destruct Hgd as (Hp & -> & -> & _). split_and!; auto. by destruct p.
  - case_bool_decide; [|by apply not_elem_of_nil in Hin].
    apply elem_of_app in Hin as [Hin|Hin]; apply elem_of_map in Hin as ([op md] & Hop & ->).
    + exfalso. cbn in Hgd. destruct p, op; discriminate Hgd.
    + unfold system_metadata_operations in Hop.
      repeat (apply elem_of_cons in Hop as [[= -> ->]|Hop]); [..|by apply not_elem_of_nil in Hop];
        read_guards Hgd; destruct Hgd as (Hp & Hcat & Hsch & _);
        try (destruct p; discriminate Hp); try discriminate Hcat.
      split_and!; auto. by destruct p.
Qed.

(** C6: table access is deny by default and exactly the grants: outside the
    [information_schema] of the deployed catalog, a table operation on it is
    allowed exactly when the token holds a role of a grant of that table with the
    privilege. *)
Theorem allow_table_iff d q rules p s t :
  validated d -> rego_rules d = inr rules -> s <> "information_schema" ->
  allow rules (table_request (token d q) (operationOf p) DEPLOYED_CATALOG s t) = true <->
  exists res g, res ∈ d_resources d /\ engine_of res = Trino /\
    splitResource (r_resource res) = inr (s, t) /\ g ∈ r_grants res /\
    p ∈ g_privileges g /\ held (token d q) g.
Proof.
  intros Hv Hrules Hs. unfold allow. rewrite existsb_elem.
  setoid_rewrite (elem_of_rego_rules d rules _ Hrules). setoid_rewrite andb_true_iff. split.
  - intros (r & [(res & g & s' & t' & Hr & He & Hsp & Hg & Hin)|(cg & Hcg & Hin)] & Ha & Hf).
    + destruct Hin as [Hin|[Hin|Hin]].
      * apply elem_of_map in Hin as (p' & Hp & ->). rewrite elem_of_js_sort in Hp.
        apply allow_rule_fires in Hf as (Ep & _ & -> & -> & Hh); [|done..].
        assert (p' = p) as -> by (by destruct p', p). by exists res, g.
      * by apply elem_of_row_filter_rules in Hin as (f & _ & _ & ->).
      * by apply elem_of_mask_rules in Hin as (ck & _ & ->).
    + apply (catalog_rules_table d cg) in Hf; [|by eapply validated_catalog|done].
      by destruct Hf as (_ & _ & [[_ ?]|[? _]]).
  - intros (res & g & Hr & He & Hsp & Hg & Hp & Hh). eexists.
    split; [left|split; [|by apply (allow_rule_fires d q res g s t p)]]; [|done].
    exists res, g, s, t. split_and!; [done..|]. left. apply elem_of_map. exists p.
    split; [by rewrite elem_of_js_sort|done].
Qed.

(** In Trino's [system] catalog the policy allows nothing but selecting from
    the [jdbc] and [metadata] schemas: [system.runtime] and its procedures stay
    out of reach of every declaration, whatever the token holds. *)
Theorem system_catalog_closed d rules T p s t :
  validated d -> rego_rules d = inr rules ->
  allow rules (table_request T (operationOf p) "system" s t) = true ->
  p = Select /\ (s = "jdbc" \/ s = "metadata").
Proof.
  intros Hv Hrules. unfold allow. rewrite existsb_elem.
  setoid_rewrite (elem_of_rego_rules d rules _ Hrules). setoid_rewrite andb_true_iff.
  intros (r & [(res & g & s' & t' & Hr & He & Hsp & Hg & Hin)|(cg & Hcg & Hin)] & Ha & Hf).
  - exfalso. destruct Hin as [Hin|[Hin|Hin]].
    + apply elem_of_map in Hin as (p' & _ & ->). unfold fires in Hf. cbn [ru_guards] in Hf.
      rewrite !andb_true_iff, table_guards_hold in Hf. by destruct Hf as (((_ & ? & _) & _) & _).
    + by apply elem_of_row_filter_rules in Hin as (f & _ & _ & ->).
    + by apply elem_of_mask_rules in Hin as (ck & _ & ->).
  - apply (catalog_rules_table d cg) in Hf; [|by eapply validated_catalog|done].
    destruct Hf as (-> & _ & [[? _]|(_ & Hsch & _)]); [done|]. split; [done|]. set_solver.
Qed.

(** ** On the sample *)

Definition sample_rules : list RegoRule :=
  match rego_rules sample with inr rules => rules | inl _ => [] end.

Lemma sample_rego : rego_rules sample = inr sample_rules.
Proof. reflexivity. Qed.

Lemma sample_valid : validated sample.
Proof. vm_compute. reflexivity. Qed.

Lemma masks_agree_witness :
  let i := column_request (token sample (ByGroup sample_group)) "iceberg" "sales" "customers" "email" in
  columnMasks sample_rules i <> [] /\
  forall e1 e2, e1 ∈ columnMasks sample_rules i -> e2 ∈ columnMasks sample_rules i -> e1 = e2.
Proof.
  split; [vm_compute; discriminate|]. intros e1 e2.
  apply (masks_agree sample (ByGroup sample_group) sample_rules);
    [exact sample_valid|exact sample_masks|exact sample_groups|left|exact sample_rego].
Defined.

Lemma pii_masked_witness :
  exists kind, ("email", kind) ∈ mask_of sample_masked /\
    MASK_EXPR kind "email" ∈
      columnMasks sample_rules (column_request (token sample (ByGroup sample_group)) "iceberg" "sales" "customers" "email").
Proof.
  apply (pii_masked sample (ByGroup sample_group) sample_rules sample_pii "sales" "customers" sample_masked "email");
    [exact sample_valid|exact sample_rego|left|reflexivity|reflexivity|reflexivity|left|left|left| |].
  - exists "analyst". split; [left|]. apply (bool_decide_unpack _). vm_compute. reflexivity.
  - intros (g & Hg & Ho & r & Hr & Ht).
    repeat (apply elem_of_cons in Hg as [->|Hg]; [try discriminate Ho|]); [|by apply not_elem_of_nil in Hg].
    apply list_elem_of_singleton in Hr as ->. revert Ht. apply (bool_decide_unpack _). vm_compute. reflexivity.
Defined.

Lemma allow_table_iff_witness :
  allow sample_rules (table_request (token sample (ByRole "auditor")) "SelectFromColumns" "iceberg" "sales" "customers")
    = true <->
  exists res g, res ∈ d_resources sample /\ engine_of res = Trino /\
    splitResource (r_resource res) = inr ("sales", "customers") /\ g ∈ r_grants res /\
    Select ∈ g_privileges g /\ held (token sample (ByRole "auditor")) g.
Proof.
  apply (allow_table_iff sample (ByRole "auditor") sample_rules Select);
    [exact sample_valid|exact sample_rego|discriminate].
Defined.

Lemma system_catalog_closed_witness :
  Select = Select /\ ("metadata" = "jdbc" \/ "metadata" = "metadata").
Proof.
  apply (system_catalog_closed sample sample_rules ["reader"] Select "metadata" "tables");
    [exact sample_valid|exact sample_rego|vm_compute; reflexivity].
Defined.

(** ** Two groups of one name *)

(** Two groups named [team]: one holds both masking roles, the other holds the
    role that opted out. *)
Definition twin_groups : Declaration :=
  mkDeclaration
    [mkRole "r1" None; mkRole "r2" None; mkRole "u" None]
    [mkGroup "team" ["r1"; "r2"]; mkGroup "team" ["u"]]
    [mkResource "s.t" Pii
       [mkGrant ["r1"] [Select] (Some [("c", MaskHash)]) None None;
        mkGrant ["r2"] [Select] (Some [("c", MaskNull)]) None None;
        mkGrant ["u"] [Select] None None (Some true)] (Some ["c"]) None]
    None None.

(** Distinct group names are needed: [validateDeclaration] accepts two groups
    of one name, counts them as one holder, and then lets a conflicting mask
    through: a member of the first group gets two expressions for one column. *)
Theorem twin_groups_conflict :
  validateDeclaration twin_groups = [] /\
  exists rules, rego_rules twin_groups = inr rules /\
    columnMasks rules
      (column_request (groupEffectiveRoles twin_groups (mkGroup "team" ["r1"; "r2"])) "iceberg" "s" "t" "c") =
      [MASK_EXPR MaskHash "c"; MASK_EXPR MaskNull "c"].
Proof. split; [vm_compute; reflexivity|]. eexists. split; [reflexivity|]. vm_compute. reflexivity. Qed.
