(* ===== verification/PolicyKeycloak.v ===== *)
(** * [policy-compiler/src/compiler/keycloak.ts]: realm roles and groups *)

From S2P Require Import Prelude JsBase PolicyModel PolicyRoles PolicyValidate PolicyValid.

Record KeycloakRole := mkKeycloakRole { kr_name : string; kr_composite : bool; kr_composites : list string }.
Record KeycloakGroup := mkKeycloakGroup { kg_name : string; kg_realmRoles : list string }.
Record KeycloakSpec := mkKeycloakSpec { k_realmRoles : list KeycloakRole; k_groups : list KeycloakGroup }.

(** The array's default [sort()] compares strings by code unit, as [cmp] does. *)
Definition compileKeycloak (d : Declaration) : KeycloakSpec :=
  mkKeycloakSpec
    (js_sort (fun a b => cmp (kr_name a) (kr_name b))
       (map (fun r => mkKeycloakRole (ro_name r) (0 <? length (includes_of r))%nat
                        (js_sort cmp (includes_of r))) (d_roles d)))
    (js_sort (fun a b => cmp (kg_name a) (kg_name b))
       (map (fun g => mkKeycloakGroup (gr_name g) (js_sort cmp (gr_roles g))) (d_groups d))).

(** ** What Keycloak issues *)

(** Keycloak expands composites when it issues a token: from the roles of a user
    it follows the composites of the realm roles. *)
Definition composite_edge (k : KeycloakSpec) (x y : string) : Prop :=
  exists r, r ∈ k_realmRoles k /\ kr_name r = x /\ kr_composite r = true /\ y ∈ kr_composites r.

Definition issued (k : KeycloakSpec) (roles : list string) (x : string) : Prop :=
  exists r, r ∈ roles /\ rtc (composite_edge k) r x.

Lemma elem_of_realmRoles d r :
  r ∈ k_realmRoles (compileKeycloak d) <->
  exists ro, ro ∈ d_roles d /\
    r = mkKeycloakRole (ro_name ro) (0 <? length (includes_of ro))%nat (js_sort cmp (includes_of ro)).
Proof. unfold compileKeycloak. simpl. by rewrite elem_of_js_sort, elem_of_map. Qed.

Lemma elem_of_groups d g :
  g ∈ k_groups (compileKeycloak d) <->
  exists gr, gr ∈ d_groups d /\ g = mkKeycloakGroup (gr_name gr) (js_sort cmp (gr_roles gr)).
Proof. unfold compileKeycloak. simpl. by rewrite elem_of_js_sort, elem_of_map. Qed.

Lemma byName_get d x r :
  NoDup (role_names d) -> map_get x (byName d) = Some r <-> r ∈ d_roles d /\ ro_name r = x.
Proof.
  intros HN. unfold byName. split.
  - intros H%map_get_of_elem. by apply elem_of_map in H as (r' & Hr & [= -> ->]).
  - intros [Hr <-]. destruct (map_get (ro_name r) _) as [r'|] eqn:E.
    + apply map_get_of_elem, elem_of_map in E as (r2 & Hr2 & [= E ->]). f_equal.
      by apply (NoDup_map_inj ro_name (d_roles d)).
    + apply map_get_of_None in E. destruct E. apply list_elem_of_fmap.
      exists (ro_name r, r). split; [done|]. apply elem_of_map. eauto.
Qed.

Lemma composite_edge_iff d x y :
  NoDup (role_names d) -> composite_edge (compileKeycloak d) x y <-> edge d x y.
Proof.
  intros HN. unfold composite_edge, edge, parents. setoid_rewrite elem_of_realmRoles. split.
  - intros (r & (ro & Hr & ->) & <- & _ & Hy). simpl in *.
    assert (map_get (ro_name ro) (byName d) = Some ro) as -> by (by apply byName_get).
    by rewrite elem_of_js_sort in Hy.
  - intros Hy. destruct (map_get x (byName d)) as [ro|] eqn:E; [|by apply not_elem_of_nil in Hy].
    apply byName_get in E as [Hr <-]; [|done]. eexists. split; [eauto|]. simpl.
    rewrite elem_of_js_sort. split_and!; try done. apply Nat.ltb_lt.
    destruct (includes_of ro); [by apply not_elem_of_nil in Hy|simpl; lia].
Qed.

(** C18: the composites the compiler emits are the inheritance of the declaration:
    the token Keycloak issues to a member of a group carries exactly the group's
    effective roles, so the OPA policy sees every inherited role. *)
Theorem keycloak_token d g x :
  validated d -> g ∈ d_groups d ->
  (exists kg, kg ∈ k_groups (compileKeycloak d) /\ kg_name kg = gr_name g /\
     issued (compileKeycloak d) (kg_realmRoles kg) x /\ same_set (kg_realmRoles kg) (gr_roles g)) <->
  x ∈ groupEffectiveRoles d g.
Proof.
  intros Hv Hg. pose proof (validated_role_names_NoDup d Hv) as HN.
  assert (forall a b, rtc (composite_edge (compileKeycloak d)) a b <-> inherits d a b) as Hi.
  { intros a b. split; induction 1; try apply rtc_refl;
      (eapply rtc_l; [by apply composite_edge_iff|done]). }
  rewrite elem_of_groupEffectiveRoles. unfold issued. setoid_rewrite Hi. split.
  - intros (kg & _ & _ & (r & Hr & Hx) & Hs). exists r. by rewrite <-(Hs r).
  - intros (r & Hr & Hx). eexists. split; [apply elem_of_groups; eauto|].
    unfold same_set. simpl. setoid_rewrite elem_of_js_sort. eauto 10.
Qed.

Lemma keycloak_token_witness :
  (exists kg, kg ∈ k_groups (compileKeycloak sample) /\ kg_name kg = "staff" /\
     issued (compileKeycloak sample) (kg_realmRoles kg) "reader" /\ same_set (kg_realmRoles kg) ["analyst"]) <->
  "reader" ∈ groupEffectiveRoles sample sample_group.
Proof. apply (keycloak_token sample sample_group "reader"); [vm_compute; reflexivity|left]. Defined.
