(* ===== verification/PolicyPgDdl.v ===== *)
(** * [policy-compiler/src/compiler/pgddl.ts]: the PostgreSQL script

    The script is a list of lines.  The [GRANT] lines are rendered from the
    statements [PgGrant], which the theorems read: [pg_effects] are those statements with
    the names PostgreSQL makes of theirs, [reaches] is role membership after them, [may] a
    table privilege and [connects] the [CONNECT] privilege a role has through them. *)

From S2P Require Import Prelude JsBase JsRegex PolicyModel PolicyRoles PolicyValidate PolicyValid PolicyRegoProofs.
From Stdlib Require Import Ascii.
From Stdlib Require String.

Definition PRIV_SQL (p : Privilege) : string :=
  match p with
  | Select => "SELECT" | Insert => "INSERT" | Update => "UPDATE" | Delete => "DELETE"
  end.

(** [PRIVILEGE_ORDER.indexOf(p)] *)
Definition PRIVILEGE_ORDER (p : Privilege) : Z :=
  match p with Select => 0 | Insert => 1 | Update => 2 | Delete => 3 end.

(** ** Statements *)

Inductive PgGrant :=
| GInherit (parent child : string)
| GSchema (schema role : string)
| GTable (privs : list Privilege) (table role : string)
| GSequences (schema role : string)
| GMember (role login : string)
| GConnect (database role : string).

Definition render_grant (g : PgGrant) : string :=
  match g with
  | GInherit parent child => "GRANT " +:+ parent +:+ " TO " +:+ child +:+ ";"
  | GSchema schema role => "GRANT USAGE ON SCHEMA " +:+ schema +:+ " TO " +:+ role +:+ ";"
  | GTable privs table role =>
      "GRANT " +:+ join ", " (map PRIV_SQL privs) +:+ " ON TABLE " +:+ table +:+ " TO " +:+ role +:+ ";"
  | GSequences schema role =>
      "GRANT USAGE, SELECT ON ALL SEQUENCES IN SCHEMA " +:+ schema +:+ " TO " +:+ role +:+ ";"
  | GMember role login => "GRANT " +:+ role +:+ " TO " +:+ toPgLoginIdentifier login +:+ ";"
  | GConnect database role => "GRANT CONNECT ON DATABASE " +:+ database +:+ " TO " +:+ role +:+ ";"
  end.

Section script.
Context (d : Declaration).

Definition pg_roles : list Role := js_sort (fun a b => cmp (ro_name a) (ro_name b)) (d_roles d).

Definition create_role_lines (r : Role) : list string :=
  ["DO $$"; "BEGIN";
   "  IF NOT EXISTS (SELECT FROM pg_roles WHERE rolname = '" +:+ toPgRole (ro_name r) +:+ "') THEN";
   "    CREATE ROLE " +:+ toPgRole (ro_name r) +:+ " WITH NOLOGIN INHERIT;";
   "  END IF;"; "END $$;"].

Definition inherit_grants : list PgGrant :=
  flat_map (fun r =>
    map (fun parent => GInherit (toPgRole parent) (toPgRole (ro_name r)))
      (js_sort cmp (includes_of r))) pg_roles.

Definition pg_resources : list Resource :=
  js_sort (fun a b => cmp (r_resource a) (r_resource b)) (List.filter is_pg (d_resources d)).

(** [res.resource.split(".")[0]] *)
Definition schema_of (res : Resource) : string :=
  nth 0 (split_char "."%char (r_resource res)) EmptyString.

Definition schemas : list string := js_sort cmp (set_of (map schema_of pg_resources)).

(** One pass of the loop fills both maps; the sequences keep the roles of the
    grants with [insert]. *)
Definition grants_insert (g : Grant) : bool := bool_decide (Insert ∈ g_privileges g).

Definition add_roles (keep : Grant -> bool) (s : list string) (res : Resource) : list string :=
  foldl (fun s g => foldl (fun s role => if keep g then set_add role s else s) s (g_roles g))
    s (r_grants res).

Definition roles_by_schema (keep : Grant -> bool) : list (string * list string) :=
  foldl (fun m res =>
      map_set (schema_of res) (add_roles keep (default [] (map_get (schema_of res) m)) res) m)
    [] pg_resources.

Definition schemaRoles : list (string * list string) := roles_by_schema (fun _ => true).
Definition sequenceRoles : list (string * list string) := roles_by_schema grants_insert.

Definition roles_of (m : list (string * list string)) (schema : string) : list string :=
  js_sort cmp (default [] (map_get schema m)).

Definition schema_grants : list PgGrant :=
  flat_map (fun schema => map (fun role => GSchema schema (toPgRole role)) (roles_of schemaRoles schema))
    schemas.

Definition by_grant_roles (a b : Grant) : Z := cmp (join "," (g_roles a)) (join "," (g_roles b)).

Definition table_grants : list PgGrant :=
  flat_map (fun res =>
    flat_map (fun grant =>
      map (fun role =>
          GTable (js_sort (fun a b => PRIVILEGE_ORDER a - PRIVILEGE_ORDER b) (g_privileges grant))
            (r_resource res) (toPgRole role))
        (js_sort cmp (g_roles grant)))
      (js_sort by_grant_roles (r_grants res))) pg_resources.

Definition sequence_grants : list PgGrant :=
  flat_map (fun schema =>
    map (fun role => GSequences schema (toPgRole role)) (roles_of sequenceRoles schema)) schemas.

Definition pg_logins : list PgLogin := js_sort (fun a b => cmp (l_name a) (l_name b)) (logins d).

Definition create_login_lines (l : PgLogin) : list string :=
  ["  IF NOT EXISTS (SELECT FROM pg_roles WHERE rolname = '" +:+ l_name l +:+ "') THEN";
   "    CREATE ROLE " +:+ toPgLoginIdentifier (l_name l) +:+ " WITH LOGIN INHERIT;";
   "  END IF;"].

Definition member_grants : list PgGrant :=
  flat_map (fun l => map (fun role => GMember (toPgRole role) (l_name l)) (js_sort cmp (l_memberOf l)))
    pg_logins.

(** The policy roles with a table grant. *)
Definition postgresGrantRoles : list string :=
  set_of (flat_map (fun res => flat_map g_roles (r_grants res)) pg_resources).

(** The roles each database's logins reach, through [includes]. *)
Definition rolesByDatabase : list (string * list string) :=
  foldl (fun m l =>
      map_set (l_database l)
        (foldl (fun s role => foldl (fun s x => set_add x s) s (expandRoles d role))
           (default [] (map_get (l_database l) m)) (l_memberOf l)) m)
    [] pg_logins.

Definition databases : list string := js_sort cmp rolesByDatabase.*1.

Definition connect_grants : list PgGrant :=
  flat_map (fun database =>
    map (fun role => GConnect database (toPgRole role))
      (js_sort cmp
         (List.filter (fun r => bool_decide (r ∈ default [] (map_get database rolesByDatabase)))
            postgresGrantRoles)))
    databases.

Definition login_lines : list string :=
  if (0 <? length pg_logins)%nat then
    [EmptyString; "-- 4. LOGIN 계정 (D20, LDAP uid — 하이픈 보존, toPgRole() 미적용)"; "DO $$"; "BEGIN"] ++
    flat_map create_login_lines pg_logins ++
    ["END $$;"; EmptyString; "-- 5. LOGIN 계정을 정책 롤에 바인딩"] ++
    map render_grant member_grants ++
    (if (0 <? length postgresGrantRoles)%nat && (0 <? length databases)%nat then
       [EmptyString; "-- 6. CONNECT 권한 (테이블 그랜트 + 해당 DB의 LOGIN memberOf 교집합에서 유도)"] ++
       map render_grant connect_grants
     else [])
  else [].

Definition pg_lines : list string :=
  ["-- 자동 생성 — 직접 수정하지 말 것. 원천: policies/*.yaml"; EmptyString;
   "-- 1. 권한 롤 (NOLOGIN, 상속 가능)"] ++
  flat_map create_role_lines pg_roles ++
  [EmptyString; "-- 2. 롤 상속 (D19)"] ++
  map render_grant inherit_grants ++
  [EmptyString; "-- 3. 스키마 및 테이블 권한 (allow-by-role, 명시적 GRANT만)"] ++
  map render_grant schema_grants ++ map render_grant table_grants ++
  map render_grant sequence_grants ++ login_lines ++ [EmptyString].

Definition compilePgDdl : string := join lf pg_lines.

(** The statements of the script, in order. *)
Definition pg_grants : list PgGrant :=
  inherit_grants ++ schema_grants ++ table_grants ++ sequence_grants ++
  (if (0 <? length pg_logins)%nat then
     member_grants ++
     (if (0 <? length postgresGrantRoles)%nat && (0 <? length databases)%nat then connect_grants else [])
   else []).
End script.

(** ** The names PostgreSQL makes of those of the script

    A name is kept up to 63 bytes, and one without quotes is folded to lower case
    ([pgrole.ts], which folds the roles itself); the script quotes the logins only. *)

Definition pg_quoted (s : string) : string := String.substring 0 63 s.
Definition pg_ident (s : string) : string := pg_quoted (to_lower s).
Definition pg_relation (t : string) : string := join "." (map pg_ident (split_char "."%char t)).

Definition pg_effect (g : PgGrant) : PgGrant :=
  match g with
  | GInherit parent child => GInherit (pg_ident parent) (pg_ident child)
  | GSchema schema role => GSchema (pg_ident schema) (pg_ident role)
  | GTable privs table role => GTable privs (pg_relation table) (pg_ident role)
  | GSequences schema role => GSequences (pg_ident schema) (pg_ident role)
  | GMember role login => GMember (pg_ident role) (pg_quoted login)
  | GConnect database role => GConnect (pg_ident database) (pg_ident role)
  end.

Definition pg_effects (d : Declaration) : list PgGrant := map pg_effect (pg_grants d).

(** ** What the script grants *)

(** [member s x y]: role [x] is granted role [y] (a quoted and an unquoted name
    denote the same role when their text agrees). *)
Definition member (s : list PgGrant) (x y : string) : Prop := GInherit y x ∈ s \/ GMember y x ∈ s.

Definition reaches (s : list PgGrant) : string -> string -> Prop := rtc (member s).

Definition may (s : list PgGrant) (who : string) (p : Privilege) (table : string) : Prop :=
  exists r privs, reaches s who r /\ GTable privs table r ∈ s /\ p ∈ privs.

Definition connects (s : list PgGrant) (who database : string) : Prop :=
  exists r, reaches s who r /\ GConnect database r ∈ s.

Definition uses_schema (s : list PgGrant) (who schema : string) : Prop :=
  exists r, reaches s who r /\ GSchema schema r ∈ s.
