(* ===== verification/PolicyPgProofs.v ===== *)
(** * What the PostgreSQL script grants, and to whom *)

From S2P Require Import Prelude JsBase JsRegex PolicyModel PolicyRoles PolicyValidate PolicyValid PolicyKeycloak PolicyPgDdl.
From Stdlib Require Import Ascii.
From Stdlib Require String.

(** ** Filling a map of sets *)

Section fill.
Context {A : Type} (key : A -> string) (f : list string -> A -> list string).
Context (Q : A -> string -> Prop).
Context (Hf : forall s a x, x ∈ f s a <-> x ∈ s \/ Q a x).

Definition fill (m : list (string * list string)) (a : A) : list (string * list string) :=
  map_set (key a) (f (default [] (map_get (key a) m)) a) m.

Lemma fill_get l m k x :
  x ∈ default [] (map_get k (foldl fill m l)) <->
  x ∈ default [] (map_get k m) \/ exists a, a ∈ l /\ key a = k /\ Q a x.
Proof using Hf.
  revert m. induction l as [|a l IH]; intros m; simpl; [set_solver|].
  rewrite IH. unfold fill at 1. rewrite map_get_set. setoid_rewrite elem_of_cons.
  destruct (decide (k = key a)) as [->|Hne]; simpl; [rewrite Hf|]; naive_solver.
Qed.

Lemma fill_keys l m k :
  k ∈ (foldl fill m l).*1 <-> k ∈ m.*1 \/ exists a, a ∈ l /\ key a = k.
Proof using Type.
  clear Q Hf. revert m. induction l as [|a l IH]; intros m; simpl; [set_solver|].
  rewrite IH. unfold fill at 1. rewrite map_set_keys, elem_of_set_add.
  setoid_rewrite elem_of_cons. naive_solver.
Qed.
End fill.

Lemma elem_of_add_roles keep s res x :
  x ∈ add_roles keep s res <->
  x ∈ s \/ exists g, g ∈ r_grants res /\ keep g = true /\ x ∈ g_roles g.
Proof.
  unfold add_roles. revert s. induction (r_grants res) as [|g l IH]; intros s; simpl; [set_solver|].
  rewrite IH. assert (forall r0 s, x ∈ foldl (fun s role => if keep g then set_add role s else s) s r0 <->
    x ∈ s \/ keep g = true /\ x ∈ r0) as ->.
  { clear. induction r0 as [|r r0 IH]; intros s; simpl; [set_solver|]. rewrite IH.
    destruct (keep g); [rewrite elem_of_set_add|]; set_solver. }
  setoid_rewrite elem_of_cons. naive_solver.
Qed.

Section exact.
Context (d : Declaration).

Lemma elem_of_pg_resources res : res ∈ pg_resources d <-> res ∈ d_resources d /\ is_pg res = true.
Proof. unfold pg_resources. by rewrite elem_of_js_sort, elem_of_filterb. Qed.

Lemma elem_of_roles_by_schema keep schema x :
  x ∈ roles_of (roles_by_schema d keep) schema <->
  exists res g, res ∈ pg_resources d /\ schema_of res = schema /\ g ∈ r_grants res /\
    keep g = true /\ x ∈ g_roles g.
Proof.
  unfold roles_of. rewrite elem_of_js_sort.
  change (roles_by_schema d keep) with (foldl (fill schema_of (add_roles keep)) [] (pg_resources d)).
  rewrite (fill_get schema_of (add_roles keep) _ (elem_of_add_roles keep)). set_solver.
Qed.

Lemma elem_of_postgresGrantRoles x :
  x ∈ postgresGrantRoles d <->
  exists res g, res ∈ pg_resources d /\ g ∈ r_grants res /\ x ∈ g_roles g.
Proof.
  unfold postgresGrantRoles. rewrite elem_of_set_of, elem_of_flat_map.
  setoid_rewrite elem_of_flat_map. naive_solver.
Qed.

Lemma elem_of_pg_logins l : l ∈ pg_logins d <-> l ∈ logins d.
Proof. apply elem_of_js_sort. Qed.

(** The roles a login reaches in the declaration. *)
Definition login_has (l : PgLogin) (x : string) : Prop :=
  exists m, m ∈ l_memberOf l /\ inherits d m x.

Definition add_reachable (s : list string) (l : PgLogin) : list string :=
  foldl (fun s role => foldl (fun s x => set_add x s) s (expandRoles d role)) s (l_memberOf l).

Lemma elem_of_add_reachable s l x : x ∈ add_reachable s l <-> x ∈ s \/ login_has l x.
Proof.
  unfold add_reachable, login_has. revert s.
  induction (l_memberOf l) as [|m k IH]; intros s; simpl; [set_solver|].
  rewrite IH, set_of_acc, elem_of_expandRoles. setoid_rewrite elem_of_cons. naive_solver.
Qed.

Lemma rolesByDatabase_fill : rolesByDatabase d = foldl (fill l_database add_reachable) [] (pg_logins d).
Proof. done. Qed.

Lemma rolesByDatabase_get db x :
  x ∈ default [] (map_get db (rolesByDatabase d)) <->
  exists l, l ∈ logins d /\ l_database l = db /\ login_has l x.
Proof.
  rewrite rolesByDatabase_fill, (fill_get l_database add_reachable login_has elem_of_add_reachable).
  setoid_rewrite elem_of_pg_logins. set_solver.
Qed.

Lemma elem_of_databases db : db ∈ databases d <-> exists l, l ∈ logins d /\ l_database l = db.
Proof.
  unfold databases. rewrite elem_of_js_sort, rolesByDatabase_fill, fill_keys.
  setoid_rewrite elem_of_pg_logins. split; [|eauto]. intros [?%not_elem_of_nil|?]; done.
Qed.

(** ** The statements of each section *)

Lemma elem_of_inherit_grants st :
  st ∈ inherit_grants d <->
  exists r parent, r ∈ d_roles d /\ parent ∈ includes_of r /\
    st = GInherit (toPgRole parent) (toPgRole (ro_name r)).
Proof.
  unfold inherit_grants, pg_roles. rewrite elem_of_flat_map.
  setoid_rewrite elem_of_map. repeat setoid_rewrite elem_of_js_sort.
  naive_solver.
Qed.

Lemma elem_of_schema_grants st :
  st ∈ schema_grants d <->
  exists res g role, res ∈ pg_resources d /\ g ∈ r_grants res /\ role ∈ g_roles g /\
    st = GSchema (schema_of res) (toPgRole role).
Proof.
  unfold schema_grants, schemas, schemaRoles. rewrite elem_of_flat_map.
  setoid_rewrite (elem_of_js_sort cmp). setoid_rewrite elem_of_set_of.
  setoid_rewrite elem_of_map. setoid_rewrite elem_of_roles_by_schema. split.
  - intros (s & (r0 & Hr0 & ->) & role & (res & g & Hr & E & Hg & _ & Hro) & ->).
    exists res, g, role. split_and!; [done..|]. by rewrite E.
  - intros (res & g & role & Hr & Hg & Hro & ->). exists (schema_of res). split; [eauto|].
    exists role. split; [|done]. by exists res, g.
Qed.

Lemma elem_of_table_grants st :
  st ∈ table_grants d <->
  exists res g role, res ∈ pg_resources d /\ g ∈ r_grants res /\ role ∈ g_roles g /\
    st = GTable (js_sort (fun a b => PRIVILEGE_ORDER a - PRIVILEGE_ORDER b) (g_privileges g))
           (r_resource res) (toPgRole role).
Proof.
  unfold table_grants. rewrite elem_of_flat_map. setoid_rewrite elem_of_flat_map.
  setoid_rewrite elem_of_map. setoid_rewrite (elem_of_js_sort cmp).
  setoid_rewrite (elem_of_js_sort by_grant_roles). naive_solver.
Qed.

Lemma elem_of_sequence_grants st :
  st ∈ sequence_grants d ->
  exists res g role, res ∈ pg_resources d /\ g ∈ r_grants res /\ grants_insert g = true /\
    role ∈ g_roles g /\ st = GSequences (schema_of res) (toPgRole role).
Proof.
  unfold sequence_grants, sequenceRoles. rewrite elem_of_flat_map. setoid_rewrite elem_of_map.
  setoid_rewrite elem_of_roles_by_schema.
  intros (s & _ & role & (res & g & Hr & <- & Hg & Hk & Hro) & ->). by exists res, g, role.
Qed.

Lemma elem_of_member_grants st :
  st ∈ member_grants d <->
  exists l role, l ∈ logins d /\ role ∈ l_memberOf l /\ st = GMember (toPgRole role) (l_name l).
Proof.
  unfold member_grants. rewrite elem_of_flat_map. setoid_rewrite elem_of_map.
  setoid_rewrite (elem_of_js_sort cmp). setoid_rewrite elem_of_pg_logins. naive_solver.
Qed.

Lemma elem_of_connect_grants st :
  st ∈ connect_grants d <->
  exists role l, role ∈ postgresGrantRoles d /\ l ∈ logins d /\ login_has l role /\
    st = GConnect (l_database l) (toPgRole role).
Proof.
  unfold connect_grants. rewrite elem_of_flat_map. setoid_rewrite elem_of_databases.
  setoid_rewrite elem_of_map.
  setoid_rewrite (elem_of_js_sort cmp). setoid_rewrite elem_of_filterb.
  setoid_rewrite bool_decide_eq_true. setoid_rewrite rolesByDatabase_get. split.
  - intros (db & _ & role & [Hp (l & Hl & <- & Hh)] & ->). by exists role, l.
  - intros (role & l & Hp & Hl & Hh & ->). exists (l_database l). split; [eauto|].
    exists role. split; [|done]. split; [done|]. by exists l.
Qed.

Lemma elem_of_pg_grants st :
  st ∈ pg_grants d <->
  st ∈ inherit_grants d \/ st ∈ schema_grants d \/ st ∈ table_grants d \/ st ∈ sequence_grants d \/
  st ∈ member_grants d \/ st ∈ connect_grants d.
Proof.
  unfold pg_grants. rewrite !elem_of_app. do 4 f_equiv.
  assert (forall x, x ∈ connect_grants d ->
    (0 <? length (pg_logins d))%nat = true /\
    (0 <? length (postgresGrantRoles d))%nat && (0 <? length (databases d))%nat = true) as Hc.
  { intros x (role & l & Hp & Hl & _ & _)%elem_of_connect_grants.
    assert (l_database l ∈ databases d) as Hdb by (apply elem_of_databases; eauto).
    apply elem_of_pg_logins in Hl.
    destruct (pg_logins d); [by apply not_elem_of_nil in Hl|].
    destruct (postgresGrantRoles d); [by apply not_elem_of_nil in Hp|].
    destruct (databases d); [by apply not_elem_of_nil in Hdb|done]. }
  assert (forall x, x ∈ member_grants d -> (0 <? length (pg_logins d))%nat = true) as Hm.
  { intros x (l & _ & Hl & _)%elem_of_member_grants. apply elem_of_pg_logins in Hl.
    destruct (pg_logins d); [by apply not_elem_of_nil in Hl|done]. }
  split.
  - destruct (0 <? length (pg_logins d))%nat; [|by intros ?%not_elem_of_nil].
    rewrite elem_of_app. destruct (_ && _); set_solver.
  - intros [Hin|Hin].
    + rewrite (Hm _ Hin). set_solver.
    + destruct (Hc _ Hin) as [-> ->]. set_solver.
Qed.
End exact.

(** ** Membership in the script is inheritance in the declaration *)

Section membership.
Context (d : Declaration) (Hv : validated d).

Lemma toPgRole_inj x y :
  x ∈ role_names d -> y ∈ role_names d -> toPgRole x = toPgRole y -> x = y.
Proof using Hv.
  intros (r1 & H1 & ->)%elem_of_map (r2 & H2 & ->)%elem_of_map E. f_equal.
  by apply (NoDup_map_inj (fun r => toPgRole (ro_name r)) (d_roles d)); [apply validated_pg_names|..].
Qed.

Lemma validated_include r parent :
  r ∈ d_roles d -> parent ∈ includes_of r -> parent ∈ role_names d.
Proof using Hv.
  intros Hr Hp. destruct (validated_parts d Hv) as (_ & H & _).
  eapply flat_map_nil_elem in H; [|done]. unfold checkRole in H. errs H.
  destruct H as [_ H]. specialize (H _ Hp). errs H. naive_solver.
Qed.

Lemma edge_known x y : edge d x y -> x ∈ role_names d /\ y ∈ role_names d.
Proof using Hv.
  intros H. split; [by eapply parents_role|]. unfold edge, parents in H.
  destruct (map_get x (byName d)) as [r|] eqn:E; [|by apply not_elem_of_nil in H].
  apply byName_get in E as [Hr _]; [|by apply validated_role_names_NoDup].
  by apply (validated_include r).
Qed.

Lemma inherits_known x y : inherits d x y -> x ∈ role_names d -> y ∈ role_names d.
Proof using Hv. induction 1 as [|x y z Hxy _ IH]; [done|]. intros _. by apply IH, (edge_known x y). Qed.

Lemma GInherit_edge y x :
  GInherit y x ∈ pg_grants d <-> exists a b, edge d a b /\ x = toPgRole a /\ y = toPgRole b.
Proof using Hv.
  rewrite elem_of_pg_grants, elem_of_inherit_grants. split.
  - intros [(r & p & Hr & Hp & [= -> ->])|[H|[H|[H|[H|H]]]]].
    + exists (ro_name r), p. split; [|done]. unfold edge, parents.
      assert (map_get (ro_name r) (byName d) = Some r) as ->; [|done].
      by apply byName_get; [apply validated_role_names_NoDup|].
    + by apply elem_of_schema_grants in H as (? & ? & ? & _ & _ & _ & ?).
    + by apply elem_of_table_grants in H as (? & ? & ? & _ & _ & _ & ?).
    + by apply elem_of_sequence_grants in H as (? & ? & ? & _ & _ & _ & _ & ?).
    + by apply elem_of_member_grants in H as (? & ? & _ & _ & ?).
    + by apply elem_of_connect_grants in H as (? & ? & _ & _ & _ & ?).
  - intros (a & b & He & -> & ->). left. unfold edge, parents in He.
    destruct (map_get a (byName d)) as [r|] eqn:E; [|by apply not_elem_of_nil in He].
    apply byName_get in E as [Hr <-]; [|by apply validated_role_names_NoDup]. eauto.
Qed.

Lemma GMember_iff y x :
  GMember y x ∈ pg_grants d <->
  exists l m, l ∈ logins d /\ m ∈ l_memberOf l /\ x = l_name l /\ y = toPgRole m.
Proof using Type.
  rewrite elem_of_pg_grants, elem_of_member_grants. split.
  - intros [H|[H|[H|[H|[(l & m & Hl & Hm & [= -> ->])|H]]]]]; [..|eauto 10|].
    + by apply elem_of_inherit_grants in H as (? & ? & _ & _ & ?).
    + by apply elem_of_schema_grants in H as (? & ? & ? & _ & _ & _ & ?).
    + by apply elem_of_table_grants in H as (? & ? & ? & _ & _ & _ & ?).
    + by apply elem_of_sequence_grants in H as (? & ? & ? & _ & _ & _ & _ & ?).
    + by apply elem_of_connect_grants in H as (? & ? & _ & _ & _ & ?).
  - intros (l & m & Hl & Hm & -> & ->). do 4 right. left. eauto.
Qed.

Lemma GTable_iff privs table r :
  GTable privs table r ∈ pg_grants d <->
  exists res g role, res ∈ pg_resources d /\ g ∈ r_grants res /\ role ∈ g_roles g /\
    privs = js_sort (fun a b => PRIVILEGE_ORDER a - PRIVILEGE_ORDER b)%Z (g_privileges g) /\
    table = r_resource res /\ r = toPgRole role.
Proof using Type.
  rewrite elem_of_pg_grants, elem_of_table_grants. split.
  - intros [H|[H|[(res & g & role & Hr & Hg & Hro & [= -> -> ->])|[H|[H|H]]]]]; [..|eauto 10| | |].
    + by apply elem_of_inherit_grants in H as (? & ? & _ & _ & ?).
    + by apply elem_of_schema_grants in H as (? & ? & ? & _ & _ & _ & ?).
    + by apply elem_of_sequence_grants in H as (? & ? & ? & _ & _ & _ & _ & ?).
    + by apply elem_of_member_grants in H as (? & ? & _ & _ & ?).
    + by apply elem_of_connect_grants in H as (? & ? & _ & _ & _ & ?).
  - intros (res & g & role & Hr & Hg & Hro & -> & -> & ->). do 2 right. left. eauto 10.
Qed.

Lemma GConnect_iff db r :
  GConnect db r ∈ pg_grants d <->
  exists l role, l ∈ logins d /\ l_database l = db /\ login_has d l role /\
    role ∈ postgresGrantRoles d /\ r = toPgRole role.
Proof using Type.
  rewrite elem_of_pg_grants, elem_of_connect_grants. split.
  - intros [H|[H|[H|[H|[H|(role & l & Hp & Hl & Hh & [= -> ->])]]]]]; [..|eauto 10].
    + by apply elem_of_inherit_grants in H as (? & ? & _ & _ & ?).
    + by apply elem_of_schema_grants in H as (? & ? & ? & _ & _ & _ & ?).
    + by apply elem_of_table_grants in H as (? & ? & ? & _ & _ & _ & ?).
    + by apply elem_of_sequence_grants in H as (? & ? & ? & _ & _ & _ & _ & ?).
    + by apply elem_of_member_grants in H as (? & ? & _ & _ & ?).
  - intros (l & role & Hl & <- & Hh & Hp & ->). do 5 right. eauto 10.
Qed.

(** From a policy role, membership is inheritance. *)
Lemma reaches_role x r :
  x ∈ role_names d ->
  reaches (pg_grants d) (toPgRole x) r <-> exists y, inherits d x y /\ r = toPgRole y.
Proof using Hv.
  intros Hx. split.
  - intros H. remember (toPgRole x) as a eqn:Ea. revert x Hx Ea.
    induction H as [a|a b c Hab _ IH]; intros x Hx ->; [exists x; split; [apply rtc_refl|done]|].
    destruct Hab as [(u & w & He & Eu & ->)%GInherit_edge|(l & m & Hl & _ & En & _)%GMember_iff].
    + destruct (edge_known u w He) as [Hu Hw]. apply toPgRole_inj in Eu as ->; [|done..].
      destruct (IH w Hw eq_refl) as (y & Hy & ->). exists y. split; [by eapply rtc_l|done].
    + destruct (validated_login d Hv l Hl) as (_ & _ & Hn & _). by destruct (Hn x Hx).
  - intros (y & Hy & ->). induction Hy as [x|x y z Hxy _ IH]; [apply rtc_refl|].
    destruct (edge_known x y Hxy) as [_ Hy]. eapply rtc_l; [|by apply IH].
    left. apply GInherit_edge. eauto.
Qed.

(** A login reaches itself and what its roles inherit. *)
Lemma reaches_login l r :
  l ∈ logins d -> reaches (pg_grants d) (l_name l) r <->
  r = l_name l \/
  exists l' y, l' ∈ logins d /\ l_name l' = l_name l /\ login_has d l' y /\ r = toPgRole y.
Proof using Hv.
  intros Hl. destruct (validated_login d Hv l Hl) as (_ & _ & Hn & _). split.
  - intros H. inversion H as [|a b c Hab Hbc]; subst; [by left|right].
    destruct Hab as [(u & w & He & Eu & ->)%GInherit_edge|(l' & m & Hl' & Hm & En & ->)%GMember_iff].
    + destruct (edge_known u w He) as [Hu _]. by destruct (Hn u Hu).
    + destruct (validated_login d Hv l' Hl') as (_ & _ & _ & Hk).
      apply reaches_role in Hbc as (y & Hy & ->); [|by apply Hk]. exists l', y. unfold login_has. eauto 10.
  - intros [->|(l' & y & Hl' & En & (m & Hm & Hy) & ->)]; [apply rtc_refl|].
    destruct (validated_login d Hv l' Hl') as (_ & _ & _ & Hk). eapply rtc_l.
    + right. apply GMember_iff. exists l', m. split_and!; eauto.
    + apply reaches_role; eauto.
Qed.
End membership.

(** By the names as the script writes them. *)
Lemma script_privileges d l p table :
  validated d -> l ∈ logins d ->
  may (pg_grants d) (l_name l) p table <->
  exists l' res g role, l' ∈ logins d /\ l_name l' = l_name l /\ login_has d l' role /\
    res ∈ d_resources d /\ is_pg res = true /\ r_resource res = table /\ g ∈ r_grants res /\
    role ∈ g_roles g /\ p ∈ g_privileges g.
Proof.
  intros Hv Hl. unfold may. setoid_rewrite (reaches_login d Hv l _ Hl).
  setoid_rewrite GTable_iff. setoid_rewrite elem_of_pg_resources. split.
  - intros (r & privs & Hr & (res & g & role & [Hres Hpg] & Hg & Hro & -> & -> & ->) & Hp).
    rewrite elem_of_js_sort in Hp.
    assert (role ∈ role_names d) as Hk by (by eapply validated_grant_role).
    destruct Hr as [E|(l' & y & Hl' & En & Hy & E)].
    { destruct (validated_login d Hv l Hl) as (_ & _ & Hn & _). by destruct (Hn role Hk). }
    assert (role = y) as <-.
    { destruct Hy as (m & Hm & Hi). apply (toPgRole_inj d Hv); [done| |done].
      apply (inherits_known d Hv m); [done|]. destruct (validated_login d Hv l' Hl') as (_ & _ & _ & H). auto. }
    by exists l', res, g, role.
  - intros (l' & res & g & role & Hl' & En & Hh & Hres & Hpg & <- & Hg & Hro & Hp).
    exists (toPgRole role), (js_sort (fun a b => PRIVILEGE_ORDER a - PRIVILEGE_ORDER b)%Z (g_privileges g)).
    split; [right; eauto 10|]. rewrite elem_of_js_sort. split; [|done]. by exists res, g, role.
Qed.

(** ** The names PostgreSQL keeps *)

Definition short (s : string) : Prop := (String.length s <= 63)%nat.

(** No role or login has a name that PostgreSQL cuts off. *)
Definition short_names (d : Declaration) : Prop :=
  (forall x, x ∈ role_names d -> short x) /\ (forall l, l ∈ logins d -> short (l_name l)).

Lemma substring_all n s : (String.length s <= n)%nat -> String.substring 0 n s = s.
Proof.
  revert n. induction s as [|a s IH]; intros [|n] Hl; cbn in *; try done; [lia|]. f_equal. apply IH. lia.
Qed.

Lemma pg_ident_role x : short x -> pg_ident (toPgRole x) = toPgRole x.
Proof.
  intros Hx. unfold pg_ident, pg_quoted. assert (to_lower (toPgRole x) = toPgRole x) as ->.
  { clear. induction x as [|a x IH]; [done|]. rewrite toPgRole_cons. unfold to_lower in *. cbn [str_map str1 String.append].
    rewrite IH. f_equal. by destruct a as [[] [] [] [] [] [] [] []]. }
  apply substring_all. assert (String.length (toPgRole x) = String.length x) as ->; [|exact Hx].
  clear. induction x as [|a x IH]; [done|]. rewrite toPgRole_cons. cbn. by rewrite IH.
Qed.

Section effects.
Context (d : Declaration) (Hv : validated d) (Hs : short_names d).

Lemma member_effects x y : member (pg_effects d) x y <-> member (pg_grants d) x y.
Proof using Hv Hs.
  assert (forall b, b ∈ role_names d -> pg_ident (toPgRole b) = toPgRole b) as Hi
    by (intros b Hb; by apply pg_ident_role, Hs).
  assert (forall a b, GInherit a b ∈ pg_grants d -> pg_effect (GInherit a b) = GInherit a b) as H1.
  { intros a b (u & w & He & -> & ->)%(GInherit_edge d Hv). destruct (edge_known d Hv u w He). cbn. by rewrite !Hi. }
  assert (forall a b, GMember a b ∈ pg_grants d -> pg_effect (GMember a b) = GMember a b) as H2.
  { intros a b (l & m & Hl & Hm & -> & ->)%GMember_iff. destruct (validated_login d Hv l Hl) as (_ & _ & _ & Hk).
    cbn. rewrite Hi by auto. unfold pg_quoted. by rewrite substring_all by (by apply Hs). }
  unfold member, pg_effects. rewrite !elem_of_map. split.
  - intros [(st & Hst & E)|(st & Hst & E)]; destruct st; try discriminate E; [left|right].
    + rewrite (H1 _ _ Hst) in E. by injection E as -> ->.
    + rewrite (H2 _ _ Hst) in E. by injection E as -> ->.
  - intros [Hst|Hst]; [left|right]; eexists; split; [exact Hst|by rewrite H1|exact Hst|by rewrite H2].
Qed.

Lemma reaches_effects x y : reaches (pg_effects d) x y <-> reaches (pg_grants d) x y.
Proof using Hv Hs. split; apply rtc_subrel; intros a b; apply member_effects. Qed.

Lemma GTable_effects privs table r :
  GTable privs table r ∈ pg_effects d <-> exists t, GTable privs t r ∈ pg_grants d /\ pg_relation t = table.
Proof using Hv Hs.
  assert (forall t role, GTable privs t role ∈ pg_grants d -> pg_ident role = role) as Hr.
  { intros t role (res & g & x & [Hres _]%elem_of_pg_resources & Hg & Hx & _ & _ & ->)%GTable_iff.
    apply pg_ident_role, Hs. by eapply validated_grant_role. }
  unfold pg_effects. rewrite elem_of_map. split.
  - intros (st & Hst & E). destruct st; try discriminate E. injection E as -> -> ->. exists table0.
    by rewrite (Hr _ _ Hst).
  - intros (t & Ht & <-). exists (GTable privs t r). split; [done|]. cbn. by rewrite (Hr _ _ Ht).
Qed.

Lemma may_effects who p table :
  may (pg_effects d) who p table <-> exists t, may (pg_grants d) who p t /\ pg_relation t = table.
Proof using Hv Hs.
  unfold may. setoid_rewrite reaches_effects. setoid_rewrite GTable_effects. naive_solver.
Qed.
End effects.

(** C15: for a validated declaration with names PostgreSQL does not cut off, a LOGIN
    account has a privilege on a table of the database after the script exactly when the
    declaration grants it, on a resource whose name folds to that of the table, to a role
    the account's [memberOf] inherits: nothing is lost and nothing else is added. *)
Theorem pg_privileges_exact d l p table :
  validated d -> short_names d -> l ∈ logins d ->
  may (pg_effects d) (l_name l) p table <->
  exists l' res g role, l' ∈ logins d /\ l_name l' = l_name l /\ login_has d l' role /\
    res ∈ d_resources d /\ is_pg res = true /\ pg_relation (r_resource res) = table /\ g ∈ r_grants res /\
    role ∈ g_roles g /\ p ∈ g_privileges g.
Proof.
  intros Hv Hs Hl. rewrite (may_effects d Hv Hs). setoid_rewrite (script_privileges d l p _ Hv Hl). naive_solver.
Qed.

(** A LOGIN account that has a table privilege after the script can use it:
    it also has USAGE on the table's schema and CONNECT on the database of its
    own entry, through [includes] too. *)
Theorem pg_privilege_usable d l p table :
  validated d -> short_names d -> l ∈ logins d -> NoDup (map l_name (logins d)) ->
  may (pg_effects d) (l_name l) p table ->
  connects (pg_effects d) (l_name l) (pg_ident (l_database l)) /\
  exists res, res ∈ d_resources d /\ pg_relation (r_resource res) = table /\
    uses_schema (pg_effects d) (l_name l) (pg_ident (schema_of res)).
Proof.
  intros Hv Hs Hl HN (t & Ht & <-)%(may_effects d Hv Hs).
  apply (script_privileges d l p t Hv Hl) in Ht as (l' & res & g & role & Hl' & En & Hh & Hres & Hpg & <- & Hg & Hro & Hp).
  assert (l' = l) as -> by (by apply (NoDup_map_inj l_name (logins d))).
  assert (pg_ident (toPgRole role) = toPgRole role) as Er by (apply pg_ident_role, Hs; by eapply validated_grant_role).
  assert (reaches (pg_effects d) (l_name l) (toPgRole role)) as Hreach
    by (apply (reaches_effects d Hv Hs), reaches_login; eauto 10).
  assert (res ∈ pg_resources d) as Hin by (by apply elem_of_pg_resources). split.
  - exists (toPgRole role). split; [done|]. apply elem_of_map. exists (GConnect (l_database l) (toPgRole role)).
    split; [|cbn; by rewrite Er]. apply GConnect_iff. exists l, role.
    split_and!; try done. apply elem_of_postgresGrantRoles. eauto.
  - exists res. split_and!; [done..|]. exists (toPgRole role). split; [done|]. apply elem_of_map.
    exists (GSchema (schema_of res) (toPgRole role)). split; [|cbn; by rewrite Er].
    apply elem_of_pg_grants. right. left. apply elem_of_schema_grants. by exists res, g, role.
Qed.

(** CONNECT on a database goes only to a role that has a table grant and
    that a LOGIN account of this database reaches. *)
Theorem connect_only_where_used d db r :
  validated d -> GConnect db r ∈ pg_grants d ->
  exists l privs table, l ∈ logins d /\ l_database l = db /\
    reaches (pg_grants d) (l_name l) r /\ GTable privs table r ∈ pg_grants d.
Proof.
  intros Hv (l & role & Hl & <- & Hh & Hp & ->)%GConnect_iff.
  apply elem_of_postgresGrantRoles in Hp as (res & g & Hres & Hg & Hro).
  exists l. do 2 eexists. split_and!; [done..| |].
  - apply reaches_login; eauto 10.
  - apply GTable_iff. exists res, g, role. by split_and!.
Qed.

(** ** On the sample *)

Lemma sample_valid_pg : validated sample.
Proof. vm_compute. reflexivity. Qed.

Lemma sample_short : short_names sample.
Proof.
  split; intros x Hx; (repeat (apply elem_of_cons in Hx as [->|Hx]; [unfold short; cbn; lia|])); by apply not_elem_of_nil in Hx.
Qed.

Lemma sample_may : may (pg_effects sample) "kim-lee" Select "public.orders".
Proof.
  exists "reader", [Select; Insert]. split_and!; [|by vm_compute; do 2 right; left|left].
  eapply rtc_l; [right; vm_compute; do 4 right; left|].
  eapply rtc_l; [left; vm_compute; left|]. apply rtc_refl.
Qed.

Lemma pg_privileges_exact_witness :
  may (pg_effects sample) "kim-lee" Insert "public.orders" <->
  exists l' res g role, l' ∈ logins sample /\ l_name l' = "kim-lee" /\ login_has sample l' role /\
    res ∈ d_resources sample /\ is_pg res = true /\ pg_relation (r_resource res) = "public.orders" /\ g ∈ r_grants res /\
    role ∈ g_roles g /\ Insert ∈ g_privileges g.
Proof. apply (pg_privileges_exact sample sample_login Insert "public.orders"); [exact sample_valid_pg|exact sample_short|left]. Defined.

Lemma pg_privilege_usable_witness :
  connects (pg_effects sample) "kim-lee" "shop" /\
  exists res, res ∈ d_resources sample /\ pg_relation (r_resource res) = "public.orders" /\
    uses_schema (pg_effects sample) "kim-lee" (pg_ident (schema_of res)).
Proof.
  apply (pg_privilege_usable sample sample_login Select "public.orders");
    [exact sample_valid_pg|exact sample_short|left|apply NoDup_singleton|exact sample_may].
Defined.

(** Two resources whose names differ in case validate side by side and are one table: the
    login of the second may delete what only the first lets it delete. *)
Definition twin : Resource :=
  mkResource "public.Orders" Internal [mkGrant ["reader"] [Delete] None None None] None (Some Postgres).

Definition case_twins : Declaration :=
  mkDeclaration (d_roles sample) (d_groups sample)
    [sample_pg; twin] None (Some [sample_login]).

Lemma case_twins_merge :
  validated case_twins /\ may (pg_effects case_twins) "kim-lee" Delete "public.orders" /\
  forall res g, res ∈ d_resources case_twins -> r_resource res = "public.orders" -> g ∈ r_grants res -> Delete ∉ g_privileges g.
Proof.
  split; [vm_compute; reflexivity|]. split.
  - assert (short_names case_twins) as Hs by apply sample_short.
    apply (may_effects case_twins); [vm_compute; reflexivity|exact Hs|]. exists "public.Orders". split; [|reflexivity].
    exists "reader", [Delete]. split_and!; [|by vm_compute; do 2 right; left|left].
    eapply rtc_l; [right; vm_compute; do 5 right; left|]. eapply rtc_l; [left; vm_compute; left|]. apply rtc_refl.
  - intros res g [->|[->|[]%not_elem_of_nil]%elem_of_cons]%elem_of_cons; [|discriminate]. intros _.
    intros [->|[]%not_elem_of_nil]%elem_of_cons. apply (bool_decide_unpack _). reflexivity.
Qed.

Lemma connect_only_where_used_witness :
  exists l privs table, l ∈ logins sample /\ l_database l = "shop" /\
    reaches (pg_grants sample) (l_name l) "reader" /\ GTable privs table "reader" ∈ pg_grants sample.
Proof.
  apply (connect_only_where_used sample "shop" "reader"); [exact sample_valid_pg|].
  vm_compute. do 5 right. left.
Defined.
