(* ===== verification/PolicyDrift.v ===== *)
(** * [policy-compiler/src/drift.ts] and [compiler/index.ts]

    [compileAll] and [diffState], the comparison of the compiled artifacts with
    the state an adapter read. *)

From S2P Require Import Prelude JsBase JsRegex PolicyModel PolicyRoles PolicyValidate PolicyRego PolicyKeycloak PolicyPgDdl.
From Stdlib Require Import Ascii.
From Stdlib Require String.
Open Scope result_scope.

(** ** [compileAll] *)

Record Artifacts := mkArtifacts { keycloak : KeycloakSpec; rego : string; pgddl : string }.

Definition compileAll (d : Declaration) : result string Artifacts :=
  match validateDeclaration d with
  | [] =>
      let! r := compileRego d in
      inr (mkArtifacts (compileKeycloak d) r (compilePgDdl d))
  | errors =>
      inl ("선언 검증 실패:" +:+ lf +:+
           join lf (map (fun e => "  [" +:+ code e +:+ "] " +:+ message e) errors))
  end.

(** ** Data of [drift.ts] *)

Inductive DriftKind := Unapplied | Manual | Mismatch.

Definition kind_name (k : DriftKind) : string :=
  match k with Unapplied => "unapplied" | Manual => "manual" | Mismatch => "mismatch" end.

Record DriftItem := mkItem { di_kind : DriftKind; di_target : string; di_detail : string }.

Inductive DriftCategory := CatKeycloakRoles | CatKeycloakGroups | CatPgGrants.

Record DriftReport := mkReport { items : list DriftItem; checked : list DriftCategory }.

(** [Partial<ActualState>]: [None] is a slice the adapter did not read.  The
    groups are an object: its own keys, in order. *)
Record ActualState := mkActual {
  a_keycloakRoles : option (list string);
  a_keycloakGroups : option (list (string * list string));
  a_pgGrants : option (list string);
}.

(** ** Keycloak *)

Definition diffKeycloakRoles (desired : Artifacts) (actualRoles : list string) : list DriftItem :=
  let desiredNames := map kr_name (k_realmRoles (keycloak desired)) in
  flat_map (fun name =>
    if decide (name ∈ set_of actualRoles) then []
    else [mkItem Unapplied ("keycloak.role/" +:+ name) "선언됨, 실제 없음"]) desiredNames ++
  flat_map (fun name =>
    if decide (name ∈ set_of desiredNames) then []
    else [mkItem Manual ("keycloak.role/" +:+ name) "실제에만 존재 — 수동 변경 의심"]) actualRoles.

Definition sorted_names (l : list string) : string := join "," (js_sort cmp l).

Definition diffKeycloakGroups (desired : Artifacts) (actualGroups : list (string * list string))
    : list DriftItem :=
  let groups := k_groups (keycloak desired) in
  let desiredGroupNames := set_of (map kg_name groups) in
  flat_map (fun g =>
    match map_get (kg_name g) actualGroups with
    | None => [mkItem Unapplied ("keycloak.group/" +:+ kg_name g) "선언됨, 실제 없음"]
    | Some actualRolesOfGroup =>
        let want := sorted_names (kg_realmRoles g) in
        let have := sorted_names actualRolesOfGroup in
        if String.eqb want have then []
        else [mkItem Mismatch ("keycloak.group/" +:+ kg_name g)
                ("롤 구성이 다르다 — 선언: [" +:+ want +:+ "], 실제: [" +:+ have +:+ "]")]
    end) groups ++
  flat_map (fun name =>
    if decide (name ∈ desiredGroupNames) then []
    else [mkItem Manual ("keycloak.group/" +:+ name) "실제에만 존재 — 수동 변경 의심"])
    actualGroups.*1.

(** ** PostgreSQL *)

Record ParsedGrant := mkParsed { pg_table : string; pg_role : string; pg_privileges : list string }.

(** Removes every double quote. *)
Definition stripQuotes (ident : string) : string :=
  str_map (fun a => if Ascii.eqb a "034"%char then EmptyString else str1 a) ident.

Definition NonSpace : re := Chr (fun a => negb (is_space a)).

Definition GRANT_LINE_RE : re :=
  seq [lit_ci "GRANT"; WS1; Grp 1 (Cat Any (Star false Any)); WS1; lit_ci "ON"; WS1;
       Opt (seq [lit_ci "TABLE"; WS1]); Grp 2 (Plus NonSpace); WS1; lit_ci "TO"; WS1;
       Grp 3 (Cat NonSpace (Star false NonSpace));
       Opt (Grp 4 (seq [WS1; lit_ci "WITH"; WS1; lit_ci "GRANT"; WS1; lit_ci "OPTION"]));
       Opt (lit ";"); Eol].

Definition parsePrivileges (raw : string) : list string :=
  set_of (List.filter (fun p => (0 <? String.length p)%nat)
            (map (fun p => to_upper (trim p)) (split_char ","%char raw))).

(** A group that took part captures at least one character, so the truthiness
    test on [grantOption] is a test for [undefined]. *)
Definition parseGrantLine (line : string) : option ParsedGrant :=
  match exec GRANT_LINE_RE (trim line) with
  | None => None
  | Some m =>
      match capture 1 m, capture 2 m, capture 3 m with
      | Some rawPrivileges, Some rawTable, Some rawRole =>
          let privileges := parsePrivileges rawPrivileges in
          Some (mkParsed (stripQuotes rawTable) (stripQuotes rawRole)
                  (match capture 4 m with
                   | Some _ => set_add "GRANT OPTION" privileges
                   | None => privileges
                   end))
      | _, _, _ => None
      end
  end.

Definition grant_key (g : ParsedGrant) : string := pg_table g +:+ "/" +:+ pg_role g.

Definition merge_step (m : list (string * ParsedGrant)) (g : ParsedGrant) : list (string * ParsedGrant) :=
  match map_get (grant_key g) m with
  | Some e =>
      map_set (grant_key g)
        (mkParsed (pg_table e) (pg_role e)
           (foldl (fun s p => set_add p s) (pg_privileges e) (pg_privileges g))) m
  | None => map_set (grant_key g) g m
  end.

(** The merged map; the lines handed to [onUnparsed] are [unparsed lines]. *)
Definition mergeGrantLines (lines : list string) : list (string * ParsedGrant) :=
  foldl (fun m line =>
    match parseGrantLine line with None => m | Some g => merge_step m g end) [] lines.

Definition unparsed (lines : list string) : list string :=
  List.filter (fun line => match parseGrantLine line with None => true | Some _ => false end) lines.

Definition formatPrivileges (privileges : list string) : string := join ", " (js_sort cmp privileges).

Definition privilegesEqual (a b : list string) : bool :=
  (length a =? length b)%nat && forallb (fun p => bool_decide (p ∈ b)) a.

Definition desiredPgGrants (desired : Artifacts) : list (string * ParsedGrant) :=
  mergeGrantLines (split_char "010"%char (pgddl desired)).

Definition unparsed_item (line : string) : DriftItem :=
  mkItem Manual "pg.grant/unparsed"
    ("해석할 수 없는 실제 GRANT 문장 — 수동 검토 필요: " +:+ trim line).

Definition desired_item (actualByKey : list (string * ParsedGrant)) (e : string * ParsedGrant)
    : list DriftItem :=
  match map_get e.1 actualByKey with
  | None =>
      [mkItem Unapplied ("pg.grant/" +:+ e.1)
         ("선언됨, 실제 없음 — " +:+ formatPrivileges (pg_privileges e.2))]
  | Some a =>
      if privilegesEqual (pg_privileges a) (pg_privileges e.2) then []
      else [mkItem Mismatch ("pg.grant/" +:+ e.1)
              ("권한 집합이 다르다 — 선언: [" +:+ formatPrivileges (pg_privileges e.2) +:+
               "], 실제: [" +:+ formatPrivileges (pg_privileges a) +:+ "]")]
  end.

Definition actual_item (desiredByKey : list (string * ParsedGrant)) (e : string * ParsedGrant)
    : list DriftItem :=
  if map_has e.1 desiredByKey then []
  else [mkItem Manual ("pg.grant/" +:+ e.1)
          ("실제에만 존재 — 수동 변경 의심 (" +:+ formatPrivileges (pg_privileges e.2) +:+ ")")].

Definition diffPgGrants (desired : Artifacts) (actualGrants : list string) : list DriftItem :=
  let desiredByKey := desiredPgGrants desired in
  let actualByKey := mergeGrantLines actualGrants in
  map unparsed_item (unparsed actualGrants) ++
  flat_map (desired_item actualByKey) desiredByKey ++
  flat_map (actual_item desiredByKey) actualByKey.

(** ** [diffState] *)

Definition item_key (i : DriftItem) : string := kind_name (di_kind i) +:+ "|" +:+ di_target i.

Definition item_cmp (a b : DriftItem) : Z :=
  let c := cmp (item_key a) (item_key b) in
  if (c =? 0)%Z then cmp (di_detail a) (di_detail b) else c.

Definition when {A B} (o : option A) (f : A -> list B) : list B :=
  match o with Some a => f a | None => [] end.

Definition diffState (desired : Artifacts) (actual : ActualState) : DriftReport :=
  mkReport
    (js_sort item_cmp
       (when (a_keycloakRoles actual) (diffKeycloakRoles desired) ++
        when (a_keycloakGroups actual) (diffKeycloakGroups desired) ++
        when (a_pgGrants actual) (diffPgGrants desired)))
    (when (a_keycloakRoles actual) (fun _ => [CatKeycloakRoles]) ++
     when (a_keycloakGroups actual) (fun _ => [CatKeycloakGroups]) ++
     when (a_pgGrants actual) (fun _ => [CatPgGrants])).

Example parse_1 :
  parseGrantLine ("  grant select,  INSERT on " +:+ dq +:+ "public" +:+ dq +:+ ".orders to r_1 WITH GRANT OPTION;") =
    Some (mkParsed "public.orders" "r_1" ["SELECT"; "INSERT"; "GRANT OPTION"]).
Proof. vm_compute. reflexivity. Qed.

Example parse_2 : parseGrantLine "GRANT USAGE ON SCHEMA s TO r;" = None.
Proof. vm_compute. reflexivity. Qed.
