(* ===== verification/PolicyDriftProofs.v ===== *)
(** * What an empty drift report means *)

From S2P Require Import Prelude JsBase JsRegex PolicyModel PolicyRoles PolicyValidate PolicyValid PolicyRegoProofs PolicyKeycloak PolicyPgDdl PolicyDrift.
From Stdlib Require Import Ascii.
From Stdlib Require String.

(** ** Merged grant lines *)

(** Some line of [lines] is a grant on [key], respectively of [p] on [key]. *)
Definition grants_key (lines : list string) (key : string) : Prop :=
  exists line g, line ∈ lines /\ parseGrantLine line = Some g /\ grant_key g = key.

Definition grants (lines : list string) (key p : string) : Prop :=
  exists line g, line ∈ lines /\ parseGrantLine line = Some g /\ grant_key g = key /\ p ∈ pg_privileges g.

Definition privs (o : option ParsedGrant) : list string :=
  match o with Some g => pg_privileges g | None => [] end.

Definition parsed (lines : list string) : list ParsedGrant := omap parseGrantLine lines.

Lemma elem_of_parsed lines g : g ∈ parsed lines <-> exists line, line ∈ lines /\ parseGrantLine line = Some g.
Proof. apply list_elem_of_omap. Qed.

Lemma mergeGrantLines_parsed lines : mergeGrantLines lines = foldl merge_step [] (parsed lines).
Proof.
  unfold mergeGrantLines, parsed. generalize (@nil (string * ParsedGrant)).
  induction lines as [|line lines IH]; intros m; simpl; [done|].
  destruct (parseGrantLine line); simpl; by rewrite IH.
Qed.

Lemma merge_step_get m g k :
  map_get k (merge_step m g) =
    if decide (k = grant_key g) then
      Some (match map_get k m with
            | Some e => mkParsed (pg_table e) (pg_role e)
                          (foldl (fun s p => set_add p s) (pg_privileges e) (pg_privileges g))
            | None => g
            end)
    else map_get k m.
Proof.
  unfold merge_step. destruct (map_get (grant_key g) m) as [e|] eqn:E; rewrite map_get_set;
    (case_decide as Hk; [subst k; by rewrite E|done]).
Qed.

Lemma merge_privs gs m k p :
  p ∈ privs (map_get k (foldl merge_step m gs)) <->
  p ∈ privs (map_get k m) \/ exists g, g ∈ gs /\ grant_key g = k /\ p ∈ pg_privileges g.
Proof.
  revert m. induction gs as [|g gs IH]; intros m; simpl; [set_solver|].
  rewrite IH, merge_step_get. setoid_rewrite elem_of_cons.
  case_decide as Hk; [subst k|naive_solver]. simpl.
  destruct (map_get (grant_key g) m) as [e|]; simpl; rewrite ?set_of_acc, ?elem_of_nil; naive_solver.
Qed.

Lemma merge_present gs m k :
  map_has k (foldl merge_step m gs) = true <->
  map_has k m = true \/ exists g, g ∈ gs /\ grant_key g = k.
Proof.
  revert m. induction gs as [|g gs IH]; intros m; simpl; [set_solver|].
  rewrite IH. unfold map_has at 1. rewrite merge_step_get. setoid_rewrite elem_of_cons.
  fold (map_has k m). case_decide as Hk; [subst k; naive_solver|]. unfold map_has. naive_solver.
Qed.

Lemma merge_keys_NoDup gs m : NoDup m.*1 -> NoDup (foldl merge_step m gs).*1.
Proof.
  apply foldl_keys_NoDup. intros m' g H. unfold merge_step.
  destruct (map_get _ _); by apply NoDup_map_set.
Qed.

Lemma parse_NoDup line g : parseGrantLine line = Some g -> NoDup (pg_privileges g).
Proof.
  unfold parseGrantLine. destruct (exec _ _) as [m|]; [|done].
  destruct (capture 1 m), (capture 2 m), (capture 3 m); try done. intros [= <-]. simpl.
  destruct (capture 4 m); [apply NoDup_set_add|]; apply NoDup_set_of.
Qed.

Lemma foldl_set_add_NoDup {A} `{EqDecision A} (l s : list A) :
  NoDup s -> NoDup (foldl (fun s p => set_add p s) s l).
Proof. revert s. induction l as [|x l IH]; intros s Hs; simpl; [done|]. by apply IH, NoDup_set_add. Qed.

Lemma merge_privs_NoDup gs m k :
  (forall g, g ∈ gs -> NoDup (pg_privileges g)) -> (forall k, NoDup (privs (map_get k m))) ->
  NoDup (privs (map_get k (foldl merge_step m gs))).
Proof.
  revert m. induction gs as [|g gs IH]; intros m Hg Hm; simpl; [done|].
  apply IH; [intros; apply Hg; by right|]. intros k'. rewrite merge_step_get.
  case_decide; [|done]. specialize (Hm k'). specialize (Hg g (list_elem_of_here _ _)).
  destruct (map_get k' m); simpl in *; [by apply foldl_set_add_NoDup|done].
Qed.

Section merged.
Context (lines : list string).

Lemma merged_privs k p : p ∈ privs (map_get k (mergeGrantLines lines)) <-> grants lines k p.
Proof.
  rewrite mergeGrantLines_parsed, merge_privs. setoid_rewrite elem_of_parsed. unfold grants. simpl.
  rewrite elem_of_nil. naive_solver.
Qed.

Lemma merged_has k : map_has k (mergeGrantLines lines) = true <-> grants_key lines k.
Proof.
  rewrite mergeGrantLines_parsed, merge_present. setoid_rewrite elem_of_parsed.
  unfold grants_key, map_has. simpl. naive_solver.
Qed.

Lemma merged_keys : NoDup (mergeGrantLines lines).*1.
Proof. rewrite mergeGrantLines_parsed. apply merge_keys_NoDup. constructor. Qed.

Lemma merged_NoDup k : NoDup (privs (map_get k (mergeGrantLines lines))).
Proof.
  rewrite mergeGrantLines_parsed. apply merge_privs_NoDup; [|intros; constructor].
  intros g (line & _ & H)%elem_of_parsed. by eapply parse_NoDup.
Qed.

Lemma merged_elem k g :
  (k, g) ∈ mergeGrantLines lines <-> map_get k (mergeGrantLines lines) = Some g.
Proof. apply map_get_elem, merged_keys. Qed.
End merged.

Lemma map_has_get {V} k (m : list (string * V)) : map_has k m = true <-> exists v, map_get k m = Some v.
Proof. unfold map_has. destruct (map_get k m); naive_solver. Qed.

Lemma privilegesEqual_iff (a b : list string) :
  NoDup a -> NoDup b -> privilegesEqual a b = true <-> same_set a b.
Proof.
  intros Ha Hb. unfold privilegesEqual. rewrite andb_true_iff, Nat.eqb_eq, forallb_elem.
  setoid_rewrite bool_decide_eq_true. split.
  - intros [Hl Hs] x. split; [apply Hs|].
    assert (a ≡ₚ b) as Hp; [|by rewrite Hp].
    apply submseteq_length_Permutation; [|by rewrite Hl]. by apply NoDup_submseteq.
  - intros H. split; [|intros x; apply H]. apply Permutation_length, NoDup_Permutation; auto.
Qed.

Lemma map_nil_iff {A B} (f : A -> B) l : map f l = [] <-> l = [].
Proof. by destruct l. Qed.

Lemma unparsed_nil lines :
  unparsed lines = [] <-> forall line, line ∈ lines -> exists g, parseGrantLine line = Some g.
Proof.
  unfold unparsed. induction lines as [|l lines IH]; simpl; [set_solver|].
  setoid_rewrite elem_of_cons. destruct (parseGrantLine l) eqn:E; [rewrite IH; naive_solver|].
  split; [done|]. intros H. destruct (H l) as [g Hg]; [by left|]. congruence.
Qed.

Lemma desired_items_nil actual desired :
  let A := mergeGrantLines actual in
  let D := mergeGrantLines desired in
  flat_map (desired_item A) D = [] <->
  forall k, map_has k D = true ->
    map_has k A = true /\ same_set (privs (map_get k A)) (privs (map_get k D)).
Proof.
  intros A D. rewrite flat_map_nil. setoid_rewrite map_has_get. split.
  - intros H k [g Hg]. specialize (H (k, g) (proj2 (merged_elem desired k g) Hg)).
    unfold desired_item in H. simpl in H. destruct (map_get k A) as [a|] eqn:E; [|done].
    destruct (privilegesEqual _ _) eqn:Ep; [|done]. split; [eauto|]. rewrite Hg.
    apply privilegesEqual_iff in Ep; [done|..].
    + pose proof (merged_NoDup actual k) as HN. unfold A in E. by rewrite E in HN.
    + pose proof (merged_NoDup desired k) as HN. unfold D in Hg. by rewrite Hg in HN.
  - intros H [k g] Hin. apply merged_elem in Hin. fold D in Hin. unfold desired_item. simpl.
    destruct (H k) as [[a Ha] Hs]; [eauto|]. rewrite Ha. rewrite Ha, Hin in Hs.
    assert (privilegesEqual (pg_privileges a) (pg_privileges g) = true) as ->; [|done].
    apply privilegesEqual_iff; [..|done].
    + pose proof (merged_NoDup actual k) as HN. unfold A in Ha. by rewrite Ha in HN.
    + pose proof (merged_NoDup desired k) as HN. unfold D in Hin. by rewrite Hin in HN.
Qed.

Lemma actual_items_nil actual desired :
  let A := mergeGrantLines actual in
  let D := mergeGrantLines desired in
  flat_map (actual_item D) A = [] <-> forall k, map_has k A = true -> map_has k D = true.
Proof.
  intros A D. rewrite flat_map_nil. split.
  - intros H k [g Hg]%map_has_get. specialize (H (k, g) (proj2 (merged_elem actual k g) Hg)).
    unfold actual_item in H. simpl in H. by destruct (map_has k D).
  - intros H [k g] Hin. apply merged_elem in Hin. unfold actual_item. simpl.
    rewrite H; [done|]. apply map_has_get. eauto.
Qed.

Lemma diffPgGrants_parts desired actual :
  let script := split_char "010"%char (pgddl desired) in
  diffPgGrants desired actual = [] <->
  (forall line, line ∈ actual -> exists g, parseGrantLine line = Some g) /\
  (forall k, grants_key script k ->
     grants_key actual k /\ forall p, grants actual k p <-> grants script k p) /\
  (forall k, grants_key actual k -> grants_key script k).
Proof.
  cbv zeta. unfold diffPgGrants, desiredPgGrants. cbv zeta.
  rewrite !app_nil, map_nil_iff, unparsed_nil, desired_items_nil, actual_items_nil.
  unfold same_set. setoid_rewrite merged_has. setoid_rewrite merged_privs. done.
Qed.

Lemma grants_has lines k p : grants lines k p -> grants_key lines k.
Proof. intros (line & g & Hl & Hp & Hk & _). by exists line, g. Qed.

(** The PostgreSQL comparison finds nothing exactly when every actual line
    is understood and the actual lines grant, per table and role, the privileges
    the script grants: no privilege hides in an unreadable line, in a second line
    on the same table and role, or in another spelling. *)
Theorem diffPgGrants_nil desired actual :
  let script := split_char "010"%char (pgddl desired) in
  diffPgGrants desired actual = [] <->
  (forall line, line ∈ actual -> exists g, parseGrantLine line = Some g) /\
  (forall key, grants_key actual key <-> grants_key script key) /\
  (forall key p, grants actual key p <-> grants script key p).
Proof.
  cbv zeta. rewrite diffPgGrants_parts. cbv zeta. split.
  - intros (Hu & Hd & Ha). split_and!; [done|naive_solver|]. intros k p. split; intros H.
    + apply (Hd k); [|done]. by eapply Ha, grants_has.
    + apply (Hd k); [|done]. by eapply grants_has.
  - intros (Hu & Hk & Hp). split_and!; [done| |]; naive_solver.
Qed.

(** ** The report does not depend on the order of the state *)

Definition item_le (a b : DriftItem) : Prop := (item_cmp a b <= 0)%Z.

Lemma str_cmp_flip a b : str_cmp b a = (- str_cmp a b)%Z.
Proof.
  rewrite !str_cmp_compare. pose proof (compare_flip a b). pose proof (compare_flip b a).
  pose proof (String.compare_eq_iff a b). pose proof (String.compare_eq_iff b a).
  destruct (String.compare a b) eqn:E, (String.compare b a) eqn:E'; naive_solver.
Qed.

Lemma item_cmp_le a b :
  (item_cmp a b <= 0)%Z <->
  (str_cmp (item_key a) (item_key b) < 0)%Z \/
  item_key a = item_key b /\ (str_cmp (di_detail a) (di_detail b) <= 0)%Z.
Proof.
  unfold item_cmp, cmp. destruct (Z.eqb_spec (str_cmp (item_key a) (item_key b)) 0) as [E|E].
  - pose proof E as E'. apply str_cmp_0 in E'. split; [auto|]. intros [?|[_ ?]]; [lia|done].
  - split; [intros; left; lia|]. intros [?|[E' _]]; [lia|]. by apply str_cmp_0 in E'.
Qed.

Lemma item_cmp_total a b : (0 < item_cmp a b)%Z -> (item_cmp b a <= 0)%Z.
Proof.
  unfold item_cmp, cmp. rewrite (str_cmp_flip (item_key a)), (str_cmp_flip (di_detail a)).
  destruct (Z.eqb_spec (str_cmp (item_key a) (item_key b)) 0) as [E|E];
    destruct (Z.eqb_spec (- str_cmp (item_key a) (item_key b)) 0); lia.
Qed.

Lemma item_cmp_trans a b c : (item_cmp a b <= 0 -> item_cmp b c <= 0 -> item_cmp a c <= 0)%Z.
Proof.
  rewrite !item_cmp_le. intros [H1|[E1 H1]] [H2|[E2 H2]].
  - left. pose proof (str_cmp_trans (item_key a) (item_key b) (item_key c)).
    assert (str_cmp (item_key a) (item_key c) <> 0)%Z; [|lia]. intros E%str_cmp_0.
    rewrite E, (str_cmp_flip (item_key b) (item_key c)) in H1. lia.
  - left. by rewrite <-E2.
  - left. by rewrite E1.
  - right. split; [congruence|]. by eapply str_cmp_trans.
Qed.

Lemma item_key_inj a b : item_key a = item_key b -> di_kind a = di_kind b /\ di_target a = di_target b.
Proof.
  destruct a as [k t x], b as [k' t' y]. unfold item_key. simpl.
  destruct k, k'; intros E; try discriminate E; (split; [done|]); by injection E.
Qed.

Lemma item_cmp_antisym a b : (item_cmp a b <= 0)%Z -> (item_cmp b a <= 0)%Z -> a = b.
Proof.
  rewrite !item_cmp_le. rewrite (str_cmp_flip (item_key a)), (str_cmp_flip (di_detail a)).
  intros [H1|[E1 H1]] [H2|[E2 H2]]; try lia.
  - rewrite E2 in H1. assert (str_cmp (item_key a) (item_key a) = 0)%Z by (by apply str_cmp_0). lia.
  - rewrite E1 in H2. assert (str_cmp (item_key b) (item_key b) = 0)%Z by (by apply str_cmp_0). lia.
  - apply item_key_inj in E1 as [Ek Et].
    assert (di_detail a = di_detail b) as Ed by (apply str_cmp_0; lia).
    destruct a, b; simpl in *; congruence.
Qed.

Lemma items_canonical l k : l ≡ₚ k -> js_sort item_cmp l = js_sort item_cmp k.
Proof.
  apply js_sort_canonical; [apply item_cmp_total|apply item_cmp_trans|].
  intros. by apply item_cmp_antisym.
Qed.

Lemma cmp_sort_perm (l k : list string) : l ≡ₚ k -> js_sort cmp l = js_sort cmp k.
Proof. apply js_sort_str_canonical. Qed.

Lemma flat_map_perm {A B} (f g : A -> list B) l k :
  (forall x, f x = g x) -> l ≡ₚ k -> flat_map f l ≡ₚ flat_map g k.
Proof.
  intros Hfg HP. rewrite (flat_map_ext f g Hfg). induction HP; simpl; [done| | |by etrans].
  - by f_equiv.
  - rewrite !app_assoc. f_equiv. apply Permutation_app_comm.
Qed.

Lemma roles_perm desired l k : l ≡ₚ k -> diffKeycloakRoles desired l ≡ₚ diffKeycloakRoles desired k.
Proof.
  intros HP. unfold diffKeycloakRoles. cbv zeta. f_equiv; apply flat_map_perm; try done.
  intros x. apply decide_ext. by rewrite !elem_of_set_of, HP.
Qed.

(** Two group objects with the same keys and, per key, the same roles. *)
Definition same_groups (l k : list (string * list string)) : Prop :=
  NoDup l.*1 /\ NoDup k.*1 /\ forall name, option_Forall2 (≡ₚ) (map_get name l) (map_get name k).

Lemma map_get_is_Some {V} k (m : list (string * V)) : is_Some (map_get k m) <-> k ∈ m.*1.
Proof.
  pose proof (map_get_None k m) as H. destruct (map_get k m) as [v|] eqn:E.
  - split; [|eauto]. intros _. destruct (decide (k ∈ m.*1)) as [?|Hn]; [done|].
    apply H in Hn. done.
  - split; [by intros []|]. intros Hk. destruct (proj1 H eq_refl Hk).
Qed.

Lemma same_keys_perm {V W} (l : list (string * V)) (k : list (string * W)) :
  NoDup l.*1 -> NoDup k.*1 -> (forall x, is_Some (map_get x l) <-> is_Some (map_get x k)) -> l.*1 ≡ₚ k.*1.
Proof. intros H1 H2 H. apply NoDup_Permutation; [done..|]. intros x. by rewrite <-!map_get_is_Some. Qed.

Lemma groups_perm desired l k :
  same_groups l k -> diffKeycloakGroups desired l ≡ₚ diffKeycloakGroups desired k.
Proof.
  intros (Hl & Hk & H). unfold diffKeycloakGroups. cbv zeta. f_equiv; apply flat_map_perm; try done.
  - intros g. destruct (H (kg_name g)) as [a b Hab|]; [|done].
    unfold sorted_names. by rewrite (cmp_sort_perm a b Hab).
  - apply same_keys_perm; [done..|]. intros x. destruct (H x); split; intros; eauto; by destruct H1.
Qed.

Section pg_order.
Context (l k : list string) (HP : l ≡ₚ k).

#[local] Abbreviation A := (mergeGrantLines l).
#[local] Abbreviation B := (mergeGrantLines k).

Lemma grants_perm key p : grants l key p <-> grants k key p.
Proof using HP. unfold grants. by setoid_rewrite HP. Qed.

Lemma merged_privs_perm key : privs (map_get key A) ≡ₚ privs (map_get key B).
Proof using HP.
  apply NoDup_Permutation; [apply merged_NoDup..|]. intros p. by rewrite !merged_privs, grants_perm.
Qed.

Lemma merged_has_perm key : map_has key A = map_has key B.
Proof using HP.
  apply eq_bool_prop_intro. rewrite !Is_true_true. rewrite !merged_has.
  unfold grants_key. by setoid_rewrite HP.
Qed.

Lemma format_perm (a b : list string) : a ≡ₚ b -> formatPrivileges a = formatPrivileges b.
Proof using Type. intros H. unfold formatPrivileges. by rewrite (cmp_sort_perm a b H). Qed.

Lemma desired_item_perm e : desired_item A e = desired_item B e.
Proof using HP.
  unfold desired_item. pose proof (merged_privs_perm e.1) as Hp. pose proof (merged_has_perm e.1) as Hh.
  unfold map_has in Hh. destruct (map_get e.1 A) as [a|], (map_get e.1 B) as [b|]; try done.
  simpl in Hp. rewrite (format_perm _ _ Hp). unfold privilegesEqual.
  rewrite (Permutation_length Hp).
  assert (forallb (fun p => bool_decide (p ∈ pg_privileges e.2)) (pg_privileges a) =
          forallb (fun p => bool_decide (p ∈ pg_privileges e.2)) (pg_privileges b)) as ->; [|done].
  apply eq_bool_prop_intro. rewrite !Is_true_true, !forallb_elem. by setoid_rewrite Hp.
Qed.

(** An entry of a map, read through its key. *)
Lemma actual_items_keys D (m : list (string * ParsedGrant)) :
  NoDup m.*1 ->
  flat_map (actual_item D) m =
    flat_map (fun key => if map_has key D then []
                else [mkItem Manual ("pg.grant/" +:+ key)
                        ("실제에만 존재 — 수동 변경 의심 (" +:+ formatPrivileges (privs (map_get key m)) +:+ ")")])
      m.*1.
Proof using Type.
  intros HN. assert (forall e, e ∈ m -> map_get e.1 m = Some e.2) as Hm.
  { intros [key g] He. by apply map_get_elem. }
  revert Hm. generalize m at 1 3 5 as m'. induction m' as [|e m' IH]; intros Hm; [done|]. csimpl.
  unfold actual_item at 1. rewrite (Hm e) by left. f_equal. apply IH. intros; apply Hm; by right.
Qed.

Lemma actual_items_perm D : flat_map (actual_item D) A ≡ₚ flat_map (actual_item D) B.
Proof using HP.
  rewrite !actual_items_keys by apply merged_keys. apply flat_map_perm.
  - intros key. by rewrite (format_perm _ _ (merged_privs_perm key)).
  - apply same_keys_perm; [apply merged_keys..|]. intros x.
    pose proof (merged_has_perm x) as H. unfold map_has in H.
    destruct (map_get x A), (map_get x B); try done; split; intros []; done.
Qed.
End pg_order.

Lemma pg_perm desired l k : l ≡ₚ k -> diffPgGrants desired l ≡ₚ diffPgGrants desired k.
Proof.
  intros HP. unfold diffPgGrants. cbv zeta. f_equiv; [|f_equiv].
  - apply fmap_Permutation, filterb_perm, HP.
  - apply flat_map_perm; [|done]. intros e. by apply desired_item_perm.
  - by apply actual_items_perm.
Qed.

(** The report is a function of the state as a set: the order in which the
    adapters return roles, group members, groups and grant lines does not change
    it, so an unchanged system never shows a difference between two runs. *)
Theorem diffState_order desired a b :
  option_Forall2 (≡ₚ) (a_keycloakRoles a) (a_keycloakRoles b) ->
  option_Forall2 same_groups (a_keycloakGroups a) (a_keycloakGroups b) ->
  option_Forall2 (≡ₚ) (a_pgGrants a) (a_pgGrants b) ->
  diffState desired a = diffState desired b.
Proof.
  intros Hr Hg Hp. unfold diffState. f_equal.
  - apply items_canonical. f_equiv; [|f_equiv].
    + destruct Hr; simpl; [by apply roles_perm|done].
    + destruct Hg; simpl; [by apply groups_perm|done].
    + destruct Hp; simpl; [by apply pg_perm|done].
  - f_equal; [by destruct Hr|]. f_equal; [by destruct Hg|by destruct Hp].
Qed.

Definition sample_artifacts : Artifacts :=
  match compileAll sample with inr a => a | inl _ => mkArtifacts (mkKeycloakSpec [] []) EmptyString EmptyString end.

Lemma diffState_order_witness :
  let a := mkActual (Some ["reader"; "rogue"]) None (Some ["GRANT SELECT ON public.orders TO reader"; "REVOKE x"]) in
  let b := mkActual (Some ["rogue"; "reader"]) None (Some ["REVOKE x"; "GRANT SELECT ON public.orders TO reader"]) in
  length (items (diffState sample_artifacts a)) = 5%nat /\
  diffState sample_artifacts a = diffState sample_artifacts b.
Proof.
  split; [vm_compute; reflexivity|].
  apply diffState_order; repeat constructor.
Defined.
