(* ===== verification/PolicyGrantLine.v ===== *)
(** * Reading back a [GRANT] line

    [GRANT_LINE_RE] on the lines of the script: a table grant is read back field
    by field, every other line is rejected. *)

From S2P Require Import Prelude JsBase JsRegex PolicyModel PolicyValidate PolicyValid PolicyRegoProofs PolicyPgDdl PolicyDrift.
From Stdlib Require Import Ascii.
From Stdlib Require String.
Open Scope list_scope.

Abbreviation chars := String.list_ascii_of_string.
Abbreviation SP := " "%char.

Definition nonspace (l : list ascii) : Prop := forallb (fun a => negb (is_space a)) l = true.

(** ** The matcher on the shapes of the expression *)

Section run.
Context {A : Type}.
Implicit Types (k : list ascii -> caps -> option A) (c : caps) (s : list ascii).

(** One space, then a character that is not a space. *)
Lemma run_WS1 k b s c : is_space b = false -> run WS1 (SP :: b :: s) c k = k (b :: s) c.
Proof. intros Hb. simpl. rewrite Hb. by destruct (length s). Qed.

Lemma run_WS1_none k b s c : is_space b = false -> run WS1 (b :: s) c k = None.
Proof. intros Hb. simpl. by rewrite Hb. Qed.

Lemma run_WS1_nil k c : run WS1 [] c k = None.
Proof. done. Qed.

(** A lazy star of a class runs to the first place where the rest matches. *)
Lemma run_lazy p u v c k x :
  forallb p u = true ->
  (forall u1 a u2, u = u1 ++ a :: u2 -> k (a :: u2 ++ v) c = None) -> k v c = Some x ->
  forall n, (length (u ++ v) <= n)%nat ->
  star false (fun s c k => run (Chr p) s c k) k n (u ++ v) c = Some x.
Proof.
  induction u as [|a u IH]; intros Hp Hk Hv n Hn.
  - simpl. destruct n; simpl; by rewrite Hv.
  - destruct n as [|n]; [simpl in Hn; lia|]. simpl in Hp. apply andb_prop in Hp as [Ha Hp].
    cbn [star app]. rewrite (Hk [] a u eq_refl). cbn [run]. rewrite Ha.
    rewrite (proj2 (Nat.ltb_lt _ _)) by (simpl; lia). apply IH; [done| |done|simpl in Hn; lia].
    intros u1 b u2 ->. apply (Hk (a :: u1)). done.
Qed.

(** A greedy star of a class stops where the class does. *)
Lemma run_greedy p u b v c k x :
  forallb p u = true -> p b = false -> k (b :: v) c = Some x ->
  forall n, (length (u ++ b :: v) <= n)%nat ->
  star true (fun s c k => run (Chr p) s c k) k n (u ++ b :: v) c = Some x.
Proof.
  induction u as [|a u IH]; intros Hp Hb Hk n Hn.
  - destruct n; simpl; rewrite ?Hb; done.
  - destruct n as [|n]; [simpl in Hn; lia|]. simpl in Hp. apply andb_prop in Hp as [Ha Hp].
    cbn [star app run]. rewrite Ha. rewrite (proj2 (Nat.ltb_lt _ _)) by (simpl; lia).
    rewrite IH; [done..|]. simpl in Hn. lia.
Qed.
End run.

(** A space of the privileges is never followed by the [ON] of the statement. *)
Fixpoint quiet (l : list ascii) : bool :=
  match l with
  | [] => true
  | a :: l' =>
      (if is_space a then
         Ascii.eqb a SP && match l' with
                           | b :: _ => negb (is_space b) && negb (ci_eqb "O"%char b)
                           | [] => false
                           end
       else true) && quiet l'
  end.

Definition on_rest : re :=
  seq [WS1; lit_ci "ON"; WS1;
       Opt (seq [lit_ci "TABLE"; WS1]); Grp 2 (Plus NonSpace); WS1; lit_ci "TO"; WS1;
       Grp 3 (Cat NonSpace (Star false NonSpace));
       Opt (Grp 4 (seq [WS1; lit_ci "WITH"; WS1; lit_ci "GRANT"; WS1; lit_ci "OPTION"]));
       Opt (lit ";"); Eol].

Lemma quiet_none {A} u1 a u2 v c (k : list ascii -> caps -> option A) :
  quiet (u1 ++ a :: u2) = true -> run on_rest (a :: u2 ++ v) c k = None.
Proof.
  intros Hq. assert (quiet (a :: u2) = true) as Hq'.
  { clear -Hq. induction u1 as [|b u1 IH]; [done|]. simpl in Hq. apply andb_prop in Hq as [_ Hq]. auto. }
  clear Hq. unfold on_rest, seq. cbn [foldr run]. cbn [quiet] in Hq'.
  destruct (is_space a) eqn:Ea; [|by apply (run_WS1_none (A:=A))].
  destruct u2 as [|b u2]; [by rewrite andb_false_r in Hq'|].
  rewrite !andb_true_iff, !negb_true_iff in Hq'. destruct Hq' as ((Ha & Hb & Ho) & _).
  apply Ascii.eqb_eq in Ha as ->. change ((b :: u2) ++ v) with (b :: (u2 ++ v)).
  etrans; [apply (run_WS1 (A:=A) _ b _ _ Hb)|]. simpl. by rewrite Ho.
Qed.

(** ** A table grant is read back *)

Definition any_char (a : ascii) : bool := negb (Ascii.eqb a "010"%char || Ascii.eqb a "013"%char).
Definition word_char (a : ascii) : bool := negb (is_space a) && negb (Ascii.eqb a ";"%char).

Lemma word_char_nonspace l : forallb word_char l = true -> nonspace l.
Proof.
  unfold nonspace. rewrite !forallb_elem. intros H x Hx. specialize (H x Hx).
  by apply andb_prop in H as [? _].
Qed.

(** The end of the line: the role, then [;]. *)
Lemma run_role b r c :
  forallb word_char (b :: r) = true ->
  run (seq [Grp 3 (Cat NonSpace (Star false NonSpace));
            Opt (Grp 4 (seq [WS1; lit_ci "WITH"; WS1; lit_ci "GRANT"; WS1; lit_ci "OPTION"]));
            Opt (lit ";"); Eol]) ((b :: r) ++ [";"%char]) c (fun _ c => Some c) =
    Some ((3%nat, b :: r) :: c).
Proof.
  intros Hw. simpl in Hw. apply andb_prop in Hw as [Hb Hr].
  unfold seq. cbn [foldr run NonSpace app]. apply andb_prop in Hb as [Hb _]. rewrite Hb.
  apply run_lazy; [by apply word_char_nonspace| | |done].
  - intros u1 a u2 ->. rewrite forallb_app in Hr. apply andb_prop in Hr as [_ Hr].
    simpl in Hr. apply andb_prop in Hr as [Ha _]. apply andb_prop in Ha as [Ha Hs].
    apply negb_true_iff in Ha, Hs. cbn [Opt run foldr app]. 
    rewrite run_WS1_none by done. cbn [run lit lit_with]. rewrite Ascii.eqb_sym, Hs.
    by destruct u2.
  - change (b :: r ++ [";"%char]) with ((b :: r) ++ [";"%char]). by rewrite take_prefix.
Qed.

(** The table, between [TABLE] and [TO]. *)
Definition role_tail (r : list ascii) : list ascii := SP :: "T"%char :: "O"%char :: SP :: r ++ [";"%char].
Definition table_tail (t r : list ascii) : list ascii :=
  SP :: "O"%char :: "N"%char :: SP :: "T"%char :: "A"%char :: "B"%char :: "L"%char :: "E"%char :: SP ::
  t ++ role_tail r.

Definition table_rest : re :=
  seq [Grp 2 (Plus NonSpace); WS1; lit_ci "TO"; WS1;
       Grp 3 (Cat NonSpace (Star false NonSpace));
       Opt (Grp 4 (seq [WS1; lit_ci "WITH"; WS1; lit_ci "GRANT"; WS1; lit_ci "OPTION"]));
       Opt (lit ";"); Eol].

Lemma take_capture {A} (l1 l2 l : list A) : l = l1 ++ l2 -> take (length l - length l2) l = l1.
Proof. intros ->. apply take_prefix. Qed.

Lemma run_table a t b r c :
  nonspace (a :: t) -> forallb word_char (b :: r) = true ->
  run table_rest ((a :: t) ++ role_tail (b :: r)) c (fun _ c => Some c) =
    Some ((3%nat, b :: r) :: (2%nat, a :: t) :: c).
Proof.
  intros Ht Hw. unfold nonspace in Ht. simpl in Ht. apply andb_prop in Ht as [Ha Ht].
  unfold table_rest, seq. cbn [foldr run Plus NonSpace app]. rewrite Ha.
  unfold role_tail at 2. apply run_greedy; [done|done| |done].
  rewrite (take_capture (a :: t) (role_tail (b :: r))) by done.
  simpl in Hw. pose proof Hw as Hb. apply andb_prop in Hb as [Hb _]. apply andb_prop in Hb as [Hb _].
  apply negb_true_iff in Hb. rewrite run_WS1 by done. cbn [app].
  cbn [lit_ci lit_with run ci_eqb]. rewrite run_WS1 by done. exact (run_role b r _ Hw).
Qed.

Lemma exec_grant p0 P a t b r :
  is_space p0 = false -> forallb any_char (p0 :: P) = true -> quiet P = true ->
  nonspace (a :: t) -> forallb word_char (b :: r) = true ->
  run GRANT_LINE_RE (chars "GRANT " ++ (p0 :: P) ++ table_tail (a :: t) (b :: r)) [] (fun _ c => Some c) =
    Some [(3%nat, b :: r); (2%nat, a :: t); (1%nat, p0 :: P)].
Proof.
  intros Hp0 HP Hq Ht Hw.
  change GRANT_LINE_RE with (Cat (lit_ci "GRANT") (Cat WS1 (Cat (Grp 1 (Cat Any (Star false Any))) on_rest))).
  cbn [run lit_ci lit_with ci_eqb String.list_ascii_of_string app].
  rewrite run_WS1 by done. simpl in HP. apply andb_prop in HP as [H0 HP].
  cbn [run Any]. unfold any_char in H0. rewrite H0. apply run_lazy; [done| | |done].
  - intros u1 a' u2 ->. by apply quiet_none with (u1 := u1).
  - rewrite (take_capture (p0 :: P) (table_tail (a :: t) (b :: r))) by done.
    unfold on_rest, seq, table_tail. cbn [foldr run]. rewrite run_WS1 by done.
    cbn [run lit_ci lit_with]. change (ci_eqb "O" "O") with true. change (ci_eqb "N" "N") with true.
    cbv iota. rewrite run_WS1 by done. unfold nonspace in Ht. simpl in Ht. pose proof Ht as Ha.
    apply andb_prop in Ha as [Ha _]. apply negb_true_iff in Ha.
    change ((a :: t) ++ role_tail (b :: r)) with (a :: (t ++ role_tail (b :: r))).
    unfold Opt at 1. cbn [run].
    change (ci_eqb "T" "T") with true. change (ci_eqb "A" "A") with true.
    change (ci_eqb "B" "B") with true. change (ci_eqb "L" "L") with true.
    change (ci_eqb "E" "E") with true. cbv iota. rewrite run_WS1 by done.
    match goal with |- match ?m with _ => _ end = _ =>
      change m with (run table_rest ((a :: t) ++ role_tail (b :: r)) [(1%nat, p0 :: P)] (fun _ c => Some c)) end.
    by rewrite run_table.
Qed.

(** ** The strings *)

Lemma trim_end_last s a : is_space a = false -> trim_end (s +:+ str1 a) = s +:+ str1 a.
Proof.
  intros Ha. induction s as [|b s IH]; simpl; [by rewrite Ha|].
  rewrite str_app_cons. simpl. rewrite IH. by destruct s.
Qed.

Lemma trim_id a s b :
  is_space a = false -> is_space b = false -> trim (String a (s +:+ str1 b)) = String a (s +:+ str1 b).
Proof.
  intros Ha Hb. unfold trim. simpl. rewrite Ha.
  change (String a (s +:+ str1 b)) with (String a s +:+ str1 b). by apply trim_end_last.
Qed.

Lemma trim_grant s : trim ("GRANT " +:+ s +:+ ";") = "GRANT " +:+ s +:+ ";".
Proof.
  pose proof (trim_id "G"%char ("RANT " +:+ s) ";"%char eq_refl eq_refl) as H.
  by rewrite str_app_assoc in H.
Qed.

(** The first character of a trimmed text. *)
Lemma trim_head a s : is_space a = false -> exists t, trim (String a s) = String a t.
Proof.
  intros Ha. unfold trim. simpl. rewrite Ha. simpl. rewrite Ha. destruct (trim_end s); eauto.
Qed.

Lemma split_space c s w ws :
  Ascii.eqb SP c = false -> split_char c s = w :: ws -> split_char c (String SP s) = String SP w :: ws.
Proof. intros Hc E. cbn [split_char]. by rewrite Hc, E. Qed.

Lemma privileges_split p l :
  split_char ","%char (join ", " (map PRIV_SQL (p :: l))) =
    PRIV_SQL p :: map (fun q => String SP (PRIV_SQL q)) l.
Proof.
  revert p. induction l as [|q l IH]; intros p; [by destruct p|].
  change (join ", " (map PRIV_SQL (p :: q :: l))) with
    (PRIV_SQL p +:+ String ","%char (String SP (join ", " (map PRIV_SQL (q :: l))))).
  rewrite split_char_app by (by destruct p). f_equal. by apply split_space.
Qed.

Lemma parsePrivileges_join p l :
  parsePrivileges (join ", " (map PRIV_SQL (p :: l))) = set_of (map PRIV_SQL (p :: l)).
Proof.
  unfold parsePrivileges. rewrite privileges_split. f_equal.
  assert (forall l, List.filter (fun p => (0 <? String.length p)%nat)
    (map (fun p => to_upper (trim p)) (map (fun q => String SP (PRIV_SQL q)) l)) = map PRIV_SQL l) as H.
  { clear. induction l as [|q l IH]; [done|]. simpl. rewrite IH. by destruct q. }
  simpl. rewrite H. by destruct p.
Qed.

(** The characters of the privileges are on one line and never look like [ON]. *)
Lemma privileges_chars p l :
  exists p0 P, chars (join ", " (map PRIV_SQL (p :: l))) = p0 :: P /\ is_space p0 = false /\
    ci_eqb "O"%char p0 = false /\ forallb any_char (p0 :: P) = true /\ quiet P = true.
Proof.
  revert p. induction l as [|q l IH]; intros p; [destruct p; simpl; eauto 10|].
  destruct (IH q) as (q0 & Q & E & Hs & Ho & Ha & Hq).
  change (join ", " (map PRIV_SQL (p :: q :: l))) with
    (PRIV_SQL p +:+ String ","%char (String SP (join ", " (map PRIV_SQL (q :: l))))).
  rewrite str_ascii_app. cbn [String.list_ascii_of_string]. rewrite E.
  assert (forallb any_char (","%char :: SP :: q0 :: Q) = true) as Ha' by (simpl; done).
  assert (quiet (","%char :: SP :: q0 :: Q) = true) as Hq'.
  { simpl. rewrite Hs. simpl. by rewrite Ho, Hq. }
  destruct p; simpl; do 2 eexists; split_and!; try reflexivity; simpl in *;
    rewrite ?Hs, ?Ho, ?Ha', ?Hq; try done; apply Ha'.
Qed.

Definition no_quote (s : string) : Prop := forallb (fun a => negb (Ascii.eqb a "034"%char)) (chars s) = true.

Lemma stripQuotes_id s : no_quote s -> stripQuotes s = s.
Proof.
  unfold no_quote, stripQuotes. induction s as [|a s IH]; [done|].
  cbn [String.list_ascii_of_string forallb str_map]. intros [Ha Hs]%andb_prop.
  apply negb_true_iff in Ha. rewrite Ha, (IH Hs). done.
Qed.

Lemma grant_captures r t p :
  let c := [(3%nat, r); (2%nat, t); (1%nat, p)] in
  capture 1 c = Some (String.string_of_list_ascii p) /\ capture 2 c = Some (String.string_of_list_ascii t) /\
  capture 3 c = Some (String.string_of_list_ascii r) /\ capture 4 c = None.
Proof. done. Qed.

(** A table grant of the script is read back as written: [parseGrantLine]
    inverts the rendering, privileges without their repetitions. *)
Lemma parse_table_line p privs table role :
  nonspace (chars table) -> table <> EmptyString -> no_quote table ->
  forallb word_char (chars role) = true -> role <> EmptyString -> no_quote role ->
  parseGrantLine (render_grant (GTable (p :: privs) table role)) =
    Some (mkParsed table role (set_of (map PRIV_SQL (p :: privs)))).
Proof.
  intros Ht Ht0 Htq Hr Hr0 Hrq. cbn [render_grant]. set (P := join ", " (map PRIV_SQL (p :: privs))).
  assert ("GRANT " +:+ P +:+ " ON TABLE " +:+ table +:+ " TO " +:+ role +:+ ";" =
          "GRANT " +:+ (P +:+ " ON TABLE " +:+ table +:+ " TO " +:+ role) +:+ ";") as ->
    by (by rewrite !str_app_assoc).
  unfold parseGrantLine. rewrite trim_grant. unfold exec. rewrite !str_ascii_app, <-!app_assoc.
  destruct (privileges_chars p privs) as (p0 & P' & E & Hs & _ & Ha & Hq).
  destruct table as [|a t]; [done|]. destruct role as [|b r]; [done|]. fold P in E. rewrite E.
  change (chars " ON TABLE " ++ chars (String a t) ++ chars " TO " ++ chars (String b r) ++ chars ";")
    with (table_tail (a :: chars t) (b :: chars r)).
  rewrite exec_grant by done. rewrite <-E.
  change (a :: chars t) with (chars (String a t)). change (b :: chars r) with (chars (String b r)).
  destruct (grant_captures (chars (String b r)) (chars (String a t)) (chars P)) as (-> & -> & -> & ->).
  rewrite !String.string_of_list_ascii_of_string, !stripQuotes_id by done.
  unfold P. by rewrite parsePrivileges_join.
Qed.

(** ** The other lines are rejected *)

(** The words of a text. *)
Fixpoint tokens (l : list ascii) : list (list ascii) :=
  match l with
  | [] => []
  | a :: l' =>
      if is_space a then tokens l'
      else match l' with
           | [] => [[a]]
           | b :: _ =>
               if is_space b then [a] :: tokens l'
               else match tokens l' with
                    | w :: ws => (a :: w) :: ws
                    | [] => [[a]]
                    end
           end
  end.

Lemma tokens_space l c k : is_space c = true -> tokens (l ++ c :: k) = tokens l ++ tokens k.
Proof.
  intros Hc. induction l as [|a l IH]; [simpl; by rewrite Hc|].
  destruct l as [|b l].
  - simpl. rewrite Hc. by destruct (is_space a).
  - cbn [app] in *. cbn [tokens] in *. destruct (is_space a); [done|].
    destruct (is_space b) eqn:Eb; [by rewrite IH|].
    rewrite IH. destruct l as [|b' l]; [done|]. destruct (is_space b'); [done|].
    destruct (tokens (b' :: l)); done.
Qed.

Definition spaces (w : list ascii) : Prop := w <> [] /\ forallb is_space w = true.

Lemma tokens_sep l w k : spaces w -> tokens (l ++ w ++ k) = tokens l ++ tokens k.
Proof.
  intros [Hne Hw]. destruct w as [|c w]; [done|]. simpl in Hw. apply andb_prop in Hw as [Hc Hw].
  change ((c :: w) ++ k) with (c :: (w ++ k)). rewrite tokens_space by done. f_equal.
  clear Hne. induction w as [|b w IH]; [done|]. simpl in Hw. apply andb_prop in Hw as [Hb Hw].
  cbn [app tokens]. rewrite Hb. auto.
Qed.

Lemma tokens_word u : u <> [] -> nonspace u -> tokens u = [u].
Proof.
  unfold nonspace. induction u as [|a u IH]; [done|]. intros _ Hu. cbn [forallb] in Hu.
  apply andb_prop in Hu as [Ha Hu]. apply negb_true_iff in Ha. cbn [tokens]. rewrite Ha.
  destruct u as [|b u]; [done|]. pose proof Hu as Hu'. cbn [forallb] in Hu'.
  apply andb_prop in Hu' as [Hb _]. apply negb_true_iff in Hb. rewrite Hb.
  by rewrite IH.
Qed.

(** A word read without regard to case. *)
Definition ci (w : string) (s : list ascii) : Prop :=
  Forall2 (fun a b => ci_eqb a b = true) (chars w) s.

Lemma matches_lit_ci w s rest c c' : matches (lit_ci w) s rest c c' -> ci w s /\ c' = c.
Proof.
  unfold ci, lit_ci. revert s c. induction w as [|a w IH]; intros s c H; simpl in H.
  - apply matches_Eps_inv in H as [-> ->]. by repeat constructor.
  - apply matches_Cat_inv in H as (s1 & s2 & c1 & -> & H1 & H2).
    apply matches_Chr_inv in H1 as (b & -> & Hb & ->). apply IH in H2 as [H2 ->].
    split; [|done]. by constructor.
Qed.

Lemma ci_word w s :
  ci w s -> forallb is_alpha (chars w) = true -> w <> EmptyString -> s <> [] /\ nonspace s.
Proof.
  unfold ci, nonspace. intros H Hw Hne. split; [destruct w; [done|]; by inversion H|].
  clear Hne. revert Hw. induction H as [|a b l k Hab _ IH]; [done|]. simpl.
  intros [Ha Hl]%andb_prop. rewrite IH by done. rewrite andb_true_r.
  clear -Hab Ha. unfold ci_eqb in Hab. apply Ascii.eqb_eq in Hab.
  destruct a as [[] [] [] [] [] [] [] []]; try discriminate Ha;
    destruct b as [[] [] [] [] [] [] [] []]; (discriminate Hab || reflexivity).
Qed.

Lemma matches_WS1 s rest c c' : matches WS1 s rest c c' -> spaces s /\ c' = c.
Proof.
  intros (s1 & s2 & c1 & -> & H1 & H2)%matches_Cat_inv.
  apply matches_Chr_inv in H1 as (a & -> & Ha & ->). apply matches_Star_Chr in H2 as [H2 ->].
  split; [|done]. split; [done|]. simpl. by rewrite Ha, H2.
Qed.

Lemma matches_words g s rest c c' :
  matches (Cat NonSpace (Star g NonSpace)) s rest c c' -> (s <> [] /\ nonspace s) /\ c' = c.
Proof.
  intros (s1 & s2 & c1 & -> & H1 & H2)%matches_Cat_inv.
  apply matches_Chr_inv in H1 as (a & -> & Ha & ->). apply matches_Star_Chr in H2 as [H2 ->].
  split; [|done]. split; [done|]. unfold nonspace. simpl. by rewrite Ha, H2.
Qed.

Definition grant_tail (tl : list (list ascii)) : Prop :=
  (exists r, tl = [r]) \/ exists r w g o, tl = [r; w; g; o] /\ ci "GRANT" g.

Lemma matches_semi s rest c c' : matches (Cat (Opt (lit ";")) (Cat Eol Eps)) s rest c c' ->
  nonspace s /\ rest = [].
Proof.
  intros (s1 & s2 & c1 & -> & H1 & H2)%matches_Cat_inv.
  apply matches_Cat_inv in H2 as (s3 & s4 & c2 & -> & H2 & H3).
  apply matches_Eps_inv in H3 as [-> ->]. apply matches_Eol_inv in H2 as (-> & Hrest & ->).
  simpl in Hrest. subst rest.
  apply matches_Alt_inv in H1 as [H1|H1].
  - apply matches_Cat_inv in H1 as (s3 & s4 & c3 & -> & H1 & H3).
    apply matches_Eps_inv in H3 as [-> ->]. apply matches_Chr_inv in H1 as (a & -> & Ha & ->).
    apply Ascii.eqb_eq in Ha as <-. done.
  - by apply matches_Eps_inv in H1 as [-> ->].
Qed.

Lemma nonspace_app l k : nonspace (l ++ k) <-> nonspace l /\ nonspace k.
Proof. unfold nonspace. rewrite forallb_app. apply andb_true_iff. Qed.

Lemma tail_tokens s c c' :
  matches (seq [Grp 3 (Cat NonSpace (Star false NonSpace));
            Opt (Grp 4 (seq [WS1; lit_ci "WITH"; WS1; lit_ci "GRANT"; WS1; lit_ci "OPTION"]));
            Opt (lit ";"); Eol]) s [] c c' -> grant_tail (tokens s).
Proof.
  unfold seq. cbn [foldr]. intros H. apply matches_Cat_inv in H as (r & s2 & c1 & -> & Hr & H).
  apply matches_Grp_inv in Hr as (c2 & Hr & ->). apply matches_words in Hr as [[Hr0 Hr] ->].
  apply matches_Cat_inv in H as (go & semi & c3 & -> & Hg & H). apply matches_semi in H as [Hs _].
  apply matches_Alt_inv in Hg as [Hg|Hg].
  - apply matches_Grp_inv in Hg as (c4 & Hg & ->).
    apply matches_Cat_inv in Hg as (w1 & x & c5 & -> & H1 & Hg).
    apply matches_Cat_inv in Hg as (wi & x1 & c6 & -> & H2 & Hg).
    apply matches_Cat_inv in Hg as (w2 & x2 & c7 & -> & H3 & Hg).
    apply matches_Cat_inv in Hg as (gr & x3 & c8 & -> & H4 & Hg).
    apply matches_Cat_inv in Hg as (w3 & x4 & c9 & -> & H5 & Hg).
    apply matches_Cat_inv in Hg as (op & x5 & c10 & -> & H6 & Hg).
    apply matches_Eps_inv in Hg as [-> ->]. rewrite !app_nil_r.
    apply matches_WS1 in H1 as [H1 ->], H3 as [H3 ->], H5 as [H5 ->].
    apply matches_lit_ci in H2 as [H2 ->], H4 as [H4 ->], H6 as [H6 ->].
    destruct (ci_word _ _ H2), (ci_word _ _ H4), (ci_word _ _ H6); try done.
    right. exists r, wi, gr, (op ++ semi). split; [|done].
    rewrite <-!app_assoc, !tokens_sep by done. rewrite !tokens_word; try done.
    + by destruct op.
    + by apply nonspace_app.
  - apply matches_Eps_inv in Hg as [-> ->]. left. exists (r ++ semi). simpl. apply tokens_word.
    + by destruct r.
    + by apply nonspace_app.
Qed.

(** The word before the table of a line that is read is [ON] or [TABLE]. *)
Lemma grant_shape s c :
  exec GRANT_LINE_RE s = Some c ->
  exists pre kw t to tl, tokens (chars s) = pre ++ [kw; t; to] ++ tl /\
    (ci "ON" kw \/ ci "TABLE" kw) /\ grant_tail tl.
Proof.
  intros (s1 & s2 & E & H)%exec_Some_matches.
  assert (s2 = []) as ->.
  { unfold GRANT_LINE_RE, seq in H. cbn [foldr] in H.
    do 13 apply matches_Cat_inv in H as (? & ? & ? & -> & _ & H). by apply matches_semi in H as [_ ->]. }
  rewrite E, app_nil_r. clear E.
  unfold GRANT_LINE_RE, seq in H. cbn [foldr] in H.
  apply matches_Cat_inv in H as (g & x & c1 & -> & Hg & H).
  apply matches_Cat_inv in H as (w1 & x1 & c2 & -> & H1 & H).
  apply matches_Cat_inv in H as (p & x2 & c3 & -> & _ & H).
  apply matches_Cat_inv in H as (w2 & x3 & c4 & -> & H2 & H).
  apply matches_Cat_inv in H as (on & x4 & c5 & -> & Hon & H).
  apply matches_Cat_inv in H as (w3 & x5 & c6 & -> & H3 & H).
  apply matches_Cat_inv in H as (tb & x6 & c7 & -> & Htb & H).
  apply matches_Cat_inv in H as (t & x7 & c8 & -> & Ht & H).
  apply matches_Cat_inv in H as (w5 & x8 & c9 & -> & H5 & H).
  apply matches_Cat_inv in H as (to & x9 & c10 & -> & Hto & H).
  apply matches_Cat_inv in H as (w6 & x10 & c11 & -> & H6 & H).
  apply tail_tokens in H.
  apply matches_WS1 in H1 as [H1 _], H2 as [H2 _], H3 as [H3 _], H5 as [H5 _], H6 as [H6 _].
  apply matches_lit_ci in Hg as [Hg _], Hon as [Hon _], Hto as [Hto _].
  apply matches_Grp_inv in Ht as (c12 & Ht & _). apply matches_words in Ht as [[Ht0 Ht] _].
  destruct (ci_word _ _ Hg), (ci_word _ _ Hon), (ci_word _ _ Hto); try done.
  rewrite (tokens_sep g), (tokens_sep p), (tokens_sep on) by done.
  apply matches_Alt_inv in Htb as [Htb|Htb].
  - apply matches_Cat_inv in Htb as (ta & w4 & c13 & -> & Hta & Hw4).
    apply matches_Cat_inv in Hw4 as (w4' & e & c14 & -> & Hw4 & He).
    apply matches_Eps_inv in He as [-> ->]. apply matches_WS1 in Hw4 as [Hw4 _].
    apply matches_lit_ci in Hta as [Hta _]. destruct (ci_word _ _ Hta); [done..|].
    rewrite app_nil_r, <-app_assoc, (tokens_sep ta), (tokens_sep t), (tokens_sep to) by done.
    exists (tokens g ++ tokens p ++ tokens on), ta, t, to, (tokens x10).
    rewrite (tokens_word ta), (tokens_word t), (tokens_word to) by done.
    split; [by rewrite <-!app_assoc|auto].
  - apply matches_Eps_inv in Htb as [-> ->]. cbn [app].
    rewrite (tokens_sep t), (tokens_sep to) by done.
    exists (tokens g ++ tokens p), on, t, to, (tokens x10).
    rewrite (tokens_word on), (tokens_word t), (tokens_word to) by done.
    split; [by rewrite <-!app_assoc|auto].
Qed.

Lemma not_grant s pre kw t to r :
  tokens (chars s) = pre ++ [kw; t; to; r] -> ~ ci "ON" kw -> ~ ci "TABLE" kw -> ~ ci "GRANT" to ->
  exec GRANT_LINE_RE s = None.
Proof.
  intros E Hon Htab Hto. destruct (exec GRANT_LINE_RE s) as [c|] eqn:Ex; [|done]. exfalso.
  apply grant_shape in Ex as (pre' & kw' & t' & to' & tl & E' & Hkw & Htl). rewrite E in E'.
  destruct Htl as [(r' & ->)|(r' & w & g & o & -> & Hg)].
  - apply app_inj_2 in E' as [_ [= -> _ _ _]]; [|done]. by destruct Hkw.
  - rewrite app_assoc in E'. apply app_inj_2 in E' as [_ [= _ _ -> _]]; [|done]. done.
Qed.

Lemma exec_none s t a :
  trim s = String a t -> ci_eqb "G"%char a = false -> parseGrantLine s = None.
Proof. intros E Ha. unfold parseGrantLine. rewrite E. unfold exec. simpl. by rewrite Ha. Qed.

Lemma parse_blank : parseGrantLine EmptyString = None.
Proof. reflexivity. Qed.

(** A statement without [ON TABLE]: its words before [TO] are [X] and [t]. *)
Lemma parse_other X kw t r :
  (X = EmptyString \/ exists Y, X = Y +:+ " ") ->
  kw ∈ ["GRANT"; "SCHEMA"; "DATABASE"] ->
  nonspace (chars t) -> t <> EmptyString -> nonspace (chars r) ->
  trim (X +:+ kw +:+ " " +:+ t +:+ " TO " +:+ r +:+ ";") = X +:+ kw +:+ " " +:+ t +:+ " TO " +:+ r +:+ ";" ->
  parseGrantLine (X +:+ kw +:+ " " +:+ t +:+ " TO " +:+ r +:+ ";") = None.
Proof.
  intros HX Hkw Ht Ht0 Hr Htrim. unfold parseGrantLine. rewrite Htrim. clear Htrim.
  assert (chars kw <> [] /\ nonspace (chars kw) /\ ~ ci "ON" (chars kw) /\ ~ ci "TABLE" (chars kw))
    as (Hk0 & Hk & Hon & Htab).
  { repeat (apply elem_of_cons in Hkw as [->|Hkw]); [..|by apply not_elem_of_nil in Hkw];
      (split_and!; [done|done| |]; intros HF;
       (pose proof (Forall2_length _ _ _ HF) as HL; discriminate HL) ||
       (apply Forall2_cons in HF as [HF _]; discriminate HF)). }
  assert (forall k, tokens (chars X ++ k) = tokens (chars X) ++ tokens k) as HXt.
  { intros k. destruct HX as [->|[Y ->]]; [done|].
    rewrite str_ascii_app. change (chars " ") with [SP].
    rewrite (tokens_space (chars Y) SP []), <-app_assoc by done.
    change ([SP] ++ k) with (SP :: k). by rewrite tokens_space, app_nil_r by done. }
  rewrite (not_grant _ (tokens (chars X)) (chars kw) (chars t) (chars "TO") (chars r ++ [";"%char])); try done.
  - rewrite !str_ascii_app, HXt. f_equal. rewrite tokens_sep by done.
    change (chars " TO ") with ([SP] ++ chars "TO" ++ [SP]). rewrite <-!app_assoc.
    rewrite (tokens_sep (chars t)), (tokens_sep (chars "TO")) by done.
    rewrite !tokens_word; try done.
    + by destruct (chars r).
    + apply nonspace_app. done.
    + by destruct t.
  - intros HF. apply Forall2_length in HF. discriminate HF.
Qed.
