(* ===== verification/PolicyRoundTrip.v ===== *)
(** * Compile, apply, compare: no drift

    The state an adapter reads back from a system on which the artifacts were
    applied has no difference with the artifacts. *)

From S2P Require Import Prelude JsBase JsRegex PolicyModel PolicyRoles PolicyValidate PolicyValid PolicyRegoProofs PolicyRego PolicyKeycloak PolicyPgDdl PolicyPgProofs PolicyDrift PolicyDriftProofs PolicyGrantLine.
From Stdlib Require Import Ascii.
From Stdlib Require String.
Open Scope list_scope.

(** ** Names without spaces, quotes and semicolons *)

Definition plain_char (a : ascii) : bool := word_char a && negb (Ascii.eqb a "034"%char).
Definition plain (s : string) : Prop := s <> EmptyString /\ forallb plain_char (chars s) = true.

Lemma forallb_impl {A} (p q : A -> bool) l :
  (forall a, p a = true -> q a = true) -> forallb p l = true -> forallb q l = true.
Proof. rewrite !forallb_elem. auto. Qed.

Lemma plain_word_chars s : plain s -> forallb word_char (chars s) = true.
Proof. intros [_ H]. revert H. apply forallb_impl. by intros a [? _]%andb_prop. Qed.

Lemma plain_no_quote s : plain s -> no_quote s.
Proof. intros [_ H]. revert H. apply forallb_impl. by intros a [_ ?]%andb_prop. Qed.

Lemma plain_nonspace s : plain s -> nonspace (chars s).
Proof. intros H. by apply word_char_nonspace, plain_word_chars. Qed.

Lemma nonspace_one_line s : nonspace (chars s) -> one_line s.
Proof.
  unfold nonspace, one_line. induction s as [|a s IH]; [done|]. simpl. intros [Ha Hs]%andb_prop.
  rewrite IH by done. rewrite orb_false_r. destruct (Ascii.eqb_spec a LF) as [->|]; done.
Qed.

Lemma plain_line s : plain s -> one_line s.
Proof. intros H. by apply nonspace_one_line, plain_nonspace. Qed.

Lemma name_char_plain a : is_name_char a = true -> plain_char a = true.
Proof. by destruct a as [[] [] [] [] [] [] [] []]. Qed.

Lemma name_plain s : word_ok is_name_char s -> plain s.
Proof.
  intros H. split; [by destruct H as (a & t & -> & _)|].
  apply word_ok_chars in H; [|intros; by apply is_word_name, is_word_start_word].
  revert H. apply forallb_impl, name_char_plain.
Qed.

Lemma word_name s : word_ok is_word s -> word_ok is_name_char s.
Proof.
  intros (a & t & -> & Ha & Ht). exists a, t. split_and!; [done..|].
  revert Ht. apply forallb_impl, is_word_name.
Qed.

Lemma toPgRole_plain s : word_ok is_name_char s -> plain (toPgRole s).
Proof.
  intros H. split.
  - destruct H as (a & t & -> & _). by rewrite toPgRole_cons.
  - apply word_ok_chars in H; [|intros; by apply is_word_name, is_word_start_word].
    unfold str_all in H. induction s as [|a s IH]; [done|]. rewrite toPgRole_cons.
    simpl in H. apply andb_prop in H as [Ha H]. simpl. rewrite (IH H), andb_true_r.
    clear -Ha. by destruct a as [[] [] [] [] [] [] [] []].
Qed.

Lemma plain_dot s t : plain s -> plain t -> plain (s +:+ ("." +:+ t)).
Proof.
  intros [Hs0 Hs] [Ht0 Ht]. split; [by destruct s|].
  rewrite !str_ascii_app, !forallb_app, Hs, Ht. done.
Qed.

#[local] Hint Resolve plain_line plain_nonspace : line.

Section names.
Context (d : Declaration) (Hv : validated d).

Lemma role_plain x : x ∈ role_names d -> plain (toPgRole x).
Proof using Hv. intros. by apply toPgRole_plain, (validated_role_name d Hv). Qed.

Lemma resource_plain res : res ∈ d_resources d -> plain (r_resource res) /\ plain (schema_of res).
Proof using Hv.
  intros Hr. destruct (validated_name_split d Hv res Hr) as (s & t & E & Hs & Ht).
  unfold schema_of. rewrite E. simpl. rewrite <-(join_split "."%char (r_resource res)), E.
  split; [|by apply name_plain, word_name]. apply plain_dot; by apply name_plain, word_name.
Qed.
End names.

(** ** The lines of the script *)

Lemma one_line_lit s t : one_line s -> one_line t -> one_line (s +:+ t).
Proof. apply one_line_app. Qed.

(** A line of the script is one line, and is read back only as a table grant. *)
Definition script_line (l : string) : Prop := one_line l /\ parseGrantLine l = None.

Lemma parse_other_line X kw t r l Z :
  l = X +:+ kw +:+ " " +:+ t +:+ " TO " +:+ r +:+ ";" -> l = "GRANT " +:+ Z +:+ ";" ->
  (X = EmptyString \/ exists Y, X = Y +:+ " ") -> one_line X -> kw ∈ ["GRANT"; "SCHEMA"; "DATABASE"] ->
  plain t -> nonspace (chars r) -> script_line l.
Proof.
  intros -> EZ HX HXl Hkw Ht Hr. split.
  - assert (one_line kw) by (repeat (apply elem_of_cons in Hkw as [->|Hkw]; [done|]); by apply not_elem_of_nil in Hkw).
    repeat apply one_line_app; try done; auto using plain_line, nonspace_one_line.
  - apply parse_other; auto using plain_nonspace; [by destruct Ht|]. rewrite EZ. apply trim_grant.
Qed.

(** A line whose first word is not [GRANT]. *)
Lemma other_line l a t :
  one_line l -> trim_start l = String a t -> is_space a = false -> ci_eqb "G"%char a = false ->
  script_line l.
Proof.
  intros Hl E Hs Ha. split; [done|].
  destruct (trim_head a t Hs) as [t' E']. apply (exec_none l t' a); [|done].
  rewrite <-E'. unfold trim. rewrite E. cbn [trim_start]. by rewrite Hs.
Qed.

Lemma quoted_nonspace s : plain s -> nonspace (chars (toPgLoginIdentifier s)).
Proof.
  intros H. unfold toPgLoginIdentifier. rewrite !str_ascii_app. apply nonspace_app. split; [done|].
  apply nonspace_app. split; [by apply plain_nonspace|done].
Qed.

Ltac plain_lines := repeat first [done | apply plain_line; done | apply one_line_app].

Ltac stmt := first [done | by auto | set_solver | cbn [render_grant]; by rewrite !str_app_assoc].

Section lines.
Context (d : Declaration) (Hv : validated d).

Lemma create_role_script r l : r ∈ d_roles d -> l ∈ create_role_lines r -> script_line l.
Proof using Hv.
  intros Hr Hl. assert (plain (toPgRole (ro_name r))) as Hp.
  { apply (role_plain d Hv), elem_of_map. eauto. }
  unfold create_role_lines in Hl.
  repeat (apply elem_of_cons in Hl as [->|Hl]);
    [eapply other_line; [plain_lines|reflexivity|done|done]..|by apply not_elem_of_nil in Hl].
Qed.

Lemma login_plain l : l ∈ logins d -> plain (l_name l) /\ plain (l_database l).
Proof using Hv.
  intros Hl. destruct (validated_login d Hv l Hl) as (Hn & Hd & _).
  split; apply name_plain; [done|by apply word_name].
Qed.

Lemma create_login_script l s : l ∈ logins d -> s ∈ create_login_lines l -> script_line s.
Proof using Hv.
  intros Hl Hs. destruct (login_plain l Hl) as [Hp _].
  pose proof (nonspace_one_line _ (quoted_nonspace _ Hp)). unfold create_login_lines in Hs.
  repeat (apply elem_of_cons in Hs as [->|Hs]);
    [eapply other_line; [plain_lines|reflexivity|done|done]..|by apply not_elem_of_nil in Hs].
Qed.

(** The statements that are not table grants. *)
Lemma other_grant_script st :
  st ∈ inherit_grants d \/ st ∈ schema_grants d \/ st ∈ sequence_grants d \/
  st ∈ member_grants d \/ st ∈ connect_grants d -> script_line (render_grant st).
Proof using Hv.
  assert (forall x, plain x -> nonspace (chars x)) as Hns by apply plain_nonspace.
  assert (forall res g role, res ∈ pg_resources d -> g ∈ r_grants res -> role ∈ g_roles g ->
    plain (schema_of res) /\ plain (toPgRole role)) as Hres.
  { intros res g role [Hr _]%elem_of_pg_resources Hg Hro. split; [by apply (resource_plain d Hv)|].
    apply (role_plain d Hv). by eapply validated_grant_role. }
  intros [H|[H|[H|[H|H]]]].
  - apply elem_of_inherit_grants in H as (r & p & Hr & Hp & ->).
    assert (plain (toPgRole p)) by (apply (role_plain d Hv); by eapply validated_include).
    assert (plain (toPgRole (ro_name r))) by (apply (role_plain d Hv), elem_of_map; eauto).
    apply (parse_other_line EmptyString "GRANT" (toPgRole p) (toPgRole (ro_name r)) _
      (toPgRole p +:+ " TO " +:+ toPgRole (ro_name r)));
      [..|left; done| | | |]; stmt.
  - apply elem_of_schema_grants in H as (res & g & role & Hr & Hg & Hro & ->).
    destruct (Hres _ _ _ Hr Hg Hro).
    apply (parse_other_line "GRANT USAGE ON " "SCHEMA" (schema_of res) (toPgRole role) _
      ("USAGE ON SCHEMA " +:+ schema_of res +:+ " TO " +:+ toPgRole role));
      [..|right; by exists "GRANT USAGE ON"| | | |]; stmt.
  - apply elem_of_sequence_grants in H as (res & g & role & Hr & Hg & _ & Hro & ->).
    destruct (Hres _ _ _ Hr Hg Hro).
    apply (parse_other_line "GRANT USAGE, SELECT ON ALL SEQUENCES IN " "SCHEMA" (schema_of res) (toPgRole role) _
      ("USAGE, SELECT ON ALL SEQUENCES IN SCHEMA " +:+ schema_of res +:+ " TO " +:+ toPgRole role));
      [..|right; by exists "GRANT USAGE, SELECT ON ALL SEQUENCES IN"| | | |]; stmt.
  - apply elem_of_member_grants in H as (l & role & Hl & Hm & ->).
    destruct (login_plain l Hl) as [Hp _]. pose proof (quoted_nonspace _ Hp).
    assert (plain (toPgRole role)).
    { apply (role_plain d Hv). destruct (validated_login d Hv l Hl) as (_ & _ & _ & Hk). auto. }
    apply (parse_other_line EmptyString "GRANT" (toPgRole role) (toPgLoginIdentifier (l_name l)) _
      (toPgRole role +:+ " TO " +:+ toPgLoginIdentifier (l_name l)));
      [..|left; done| | | |]; stmt.
  - apply elem_of_connect_grants in H as (role & l & Hp & Hl & _ & ->).
    destruct (login_plain l Hl) as [_ Hdb].
    apply elem_of_postgresGrantRoles in Hp as (res & g & Hr & Hg & Hro).
    destruct (Hres _ _ _ Hr Hg Hro).
    apply (parse_other_line "GRANT CONNECT ON " "DATABASE" (l_database l) (toPgRole role) _
      ("CONNECT ON DATABASE " +:+ l_database l +:+ " TO " +:+ toPgRole role));
      [..|right; by exists "GRANT CONNECT ON"| | | |]; stmt.
Qed.

Lemma table_grant_line st : st ∈ table_grants d -> one_line (render_grant st).
Proof using Hv.
  intros (res & g & role & Hr & Hg & Hro & ->)%elem_of_table_grants.
  apply elem_of_pg_resources in Hr as [Hr _]. destruct (resource_plain d Hv res Hr) as [Ht _].
  assert (plain (toPgRole role)) by (apply (role_plain d Hv); by eapply validated_grant_role).
  cbn [render_grant]. repeat apply one_line_app; try done; try by apply plain_line.
  apply one_line_join; [done|]. intros s (p & _ & ->)%elem_of_map. by destruct p.
Qed.

(** Every line of the script is a table grant or is not read at all. *)
Lemma pg_lines_script l :
  l ∈ pg_lines d -> script_line l \/ exists st, st ∈ table_grants d /\ l = render_grant st.
Proof using Hv.
  assert (script_line EmptyString) as H0 by done.
  assert (forall x, x ∈ pg_roles d -> x ∈ d_roles d) as Hro
    by (intros x; unfold pg_roles; by rewrite elem_of_js_sort).
  assert (forall s, (exists t, s = "-- " +:+ t) -> one_line s -> script_line s) as Hc.
  { intros s [t ->] Hs. by eapply other_line; [|reflexivity|..]. }
  unfold pg_lines, login_lines. rewrite !elem_of_app, !elem_of_map.
  intros [Hl|[Hl|[Hl|[Hl|[Hl|[Hl|[Hl|[Hl|[Hl|Hl]]]]]]]]].
  - left. repeat (apply elem_of_cons in Hl as [->|Hl]); [..|by apply not_elem_of_nil in Hl]; try done;
      apply Hc; try done; by eexists.
  - left. apply elem_of_flat_map in Hl as (r & Hr & Hl). by apply (create_role_script r); auto.
  - left. repeat (apply elem_of_cons in Hl as [->|Hl]); [..|by apply not_elem_of_nil in Hl]; try done;
      apply Hc; try done; by eexists.
  - left. destruct Hl as (st & Hst & ->). apply other_grant_script. auto.
  - left. repeat (apply elem_of_cons in Hl as [->|Hl]); [..|by apply not_elem_of_nil in Hl]; try done;
      apply Hc; try done; by eexists.
  - left. destruct Hl as (st & Hst & ->). apply other_grant_script. auto.
  - right. eauto.
  - left. destruct Hl as (st & Hst & ->). apply other_grant_script. auto.
  - left. destruct (0 <? length (pg_logins d))%nat; [|by apply not_elem_of_nil in Hl].
    rewrite !elem_of_app, !elem_of_map in Hl. destruct Hl as [Hl|[Hl|[Hl|[Hl|Hl]]]].
    + repeat (apply elem_of_cons in Hl as [->|Hl]); [..|by apply not_elem_of_nil in Hl]; try done;
        try (eapply other_line; [done|reflexivity|done|done]).
    + apply elem_of_flat_map in Hl as (r & Hr & Hl). apply (create_login_script r); [|done].
      by apply elem_of_pg_logins.
    + repeat (apply elem_of_cons in Hl as [->|Hl]); [..|by apply not_elem_of_nil in Hl]; try done;
        try (eapply other_line; [done|reflexivity|done|done]).
    + destruct Hl as (st & Hst & ->). apply other_grant_script. auto.
    + destruct (_ && _); [|by apply not_elem_of_nil in Hl].
      rewrite !elem_of_app, !elem_of_map in Hl. destruct Hl as [Hl|(st & Hst & ->)].
      * repeat (apply elem_of_cons in Hl as [->|Hl]); [..|by apply not_elem_of_nil in Hl]; try done;
          try (eapply other_line; [done|reflexivity|done|done]).
      * apply other_grant_script. auto.
  - left. apply list_elem_of_singleton in Hl as ->. done.
Qed.
End lines.

(** ** What the lines of a table grant say *)

(** The table privileges the script grants, by key and SQL name. *)
Definition script_grants (d : Declaration) (key p : string) : Prop :=
  exists privs table role pr, GTable privs table role ∈ table_grants d /\
    key = table +:+ "/" +:+ role /\ pr ∈ privs /\ p = PRIV_SQL pr.

(** One row per privilege, as [information_schema.role_table_grants] lists grants. *)
Definition grant_rows (sts : list PgGrant) : list string :=
  flat_map (fun st => match st with
                      | GTable privs table role => map (fun p => render_grant (GTable [p] table role)) privs
                      | _ => []
                      end) sts.

(** What the database lists after the script: the catalogue has the names PostgreSQL
    made of those in the script. *)
Definition pg_rows (d : Declaration) : list string := grant_rows (map pg_effect (table_grants d)).

(** The declaration writes every PostgreSQL name as PostgreSQL keeps it. *)
Definition kept_names (d : Declaration) : Prop :=
  short_names d /\ forall res, res ∈ pg_resources d -> pg_relation (r_resource res) = r_resource res.

Lemma kept_rows d : validated d -> kept_names d -> pg_rows d = grant_rows (table_grants d).
Proof.
  intros Hv [Hs Hk]. unfold pg_rows. f_equal.
  assert (forall st, st ∈ table_grants d -> pg_effect st = st) as H.
  { intros st (res & g & role & Hr & Hg & Hro & ->)%elem_of_table_grants. cbn [pg_effect].
    rewrite (Hk res Hr), pg_ident_role; [done|]. apply Hs. eapply validated_grant_role; [done| |done..].
    by apply elem_of_pg_resources in Hr as [Hr _]. }
  revert H. induction (table_grants d) as [|st l IH]; intros H; [done|]. cbn [map].
  rewrite IH by (intros; apply H; by right). by rewrite H by left.
Qed.

Section grants.
Context (d : Declaration) (Hv : validated d) (Hz : declarationSchema d = true).

Lemma table_grant_shape st :
  st ∈ table_grants d ->
  exists p privs table role, st = GTable (p :: privs) table role /\ plain table /\ plain role.
Proof using Hv Hz.
  intros (res & g & role & Hr & Hg & Hro & ->)%elem_of_table_grants.
  apply elem_of_pg_resources in Hr as [Hr _].
  assert (g_privileges g <> []) as Hne.
  { unfold declarationSchema in Hz. rewrite !andb_true_iff in Hz. destruct Hz as ((((_ & _) & H) & _) & _).
    rewrite forallb_elem in H. specialize (H res Hr). unfold resourceSchema in H.
    rewrite !andb_true_iff, forallb_elem in H. destruct H as ((_ & H) & _). specialize (H g Hg).
    unfold grantSchema in H. rewrite andb_true_iff in H. by destruct H as [_ H], (g_privileges g). }
  destruct (js_sort (fun a b => PRIVILEGE_ORDER a - PRIVILEGE_ORDER b)%Z (g_privileges g)) as [|p privs] eqn:E.
  { by apply js_sort_nil in E. }
  exists p, privs, (r_resource res), (toPgRole role). split_and!; [done| |].
  - by apply (resource_plain d Hv).
  - apply (role_plain d Hv). by eapply validated_grant_role.
Qed.

Lemma parse_render p privs table role :
  plain table -> plain role ->
  parseGrantLine (render_grant (GTable (p :: privs) table role)) =
    Some (mkParsed table role (set_of (map PRIV_SQL (p :: privs)))).
Proof using Type.
  intros Ht Hr. apply parse_table_line; auto using plain_nonspace, plain_no_quote, plain_word_chars;
    [by destruct Ht|by destruct Hr].
Qed.

Lemma script_grants_iff key p : grants (pg_lines d) key p <-> script_grants d key p.
Proof using Hv Hz.
  unfold grants, script_grants. split.
  - intros (line & g & Hl & Hp & <- & Hin).
    apply (pg_lines_script d Hv) in Hl as [[_ Hn]|(st & Hst & ->)]; [congruence|].
    destruct (table_grant_shape st Hst) as (p0 & ps & table & role & -> & Ht & Hr).
    rewrite parse_render in Hp by done. injection Hp as <-. simpl in Hin.
    apply elem_of_set_of, (elem_of_map PRIV_SQL (p0 :: ps)) in Hin as (pr & Hin & ->).
    by exists (p0 :: ps), table, role, pr.
  - intros (privs & table & role & pr & Hst & -> & Hpr & ->).
    destruct (table_grant_shape _ Hst) as (p0 & ps & t & r & [= -> -> ->] & Ht & Hr).
    exists (render_grant (GTable (p0 :: ps) t r)). eexists. split_and!; [|by apply parse_render|done|].
    + unfold pg_lines. rewrite !elem_of_app, !elem_of_map. do 6 right. left. eauto.
    + apply elem_of_set_of, elem_of_map. eauto.
Qed.

Lemma rows_parse line :
  line ∈ grant_rows (table_grants d) <->
  exists privs table role p, GTable privs table role ∈ table_grants d /\ p ∈ privs /\
    line = render_grant (GTable [p] table role).
Proof using Type.
  unfold grant_rows. rewrite elem_of_flat_map. split.
  - intros (st & Hst & Hl). destruct st as [| |privs table role| | |]; try by apply not_elem_of_nil in Hl.
    apply elem_of_map in Hl as (p & Hp & ->). by exists privs, table, role, p.
  - intros (privs & table & role & p & Hst & Hp & ->). eexists. split; [done|].
    apply elem_of_map. eauto.
Qed.

Lemma row_parsed privs table role p :
  GTable privs table role ∈ table_grants d ->
  parseGrantLine (render_grant (GTable [p] table role)) = Some (mkParsed table role [PRIV_SQL p]).
Proof using Hv Hz.
  intros Hst. destruct (table_grant_shape _ Hst) as (p0 & ps & t & r & [= -> -> ->] & Ht & Hr).
  by rewrite parse_render.
Qed.

Lemma rows_grants key p : grants (grant_rows (table_grants d)) key p <-> script_grants d key p.
Proof using Hv Hz.
  unfold grants, script_grants. setoid_rewrite rows_parse. split.
  - intros (line & g & (privs & table & role & pr & Hst & Hpr & ->) & Hp & <- & Hin).
    rewrite (row_parsed privs) in Hp by done. injection Hp as <-. simpl in Hin.
    apply list_elem_of_singleton in Hin as ->. by exists privs, table, role, pr.
  - intros (privs & table & role & pr & Hst & -> & Hpr & ->).
    exists (render_grant (GTable [pr] table role)). eexists.
    split_and!; [by exists privs, table, role, pr|by apply (row_parsed privs)|done|left].
Qed.

(** Every key comes with a privilege. *)
Lemma key_privilege lines key :
  (forall line g, line ∈ lines -> parseGrantLine line = Some g -> pg_privileges g <> []) ->
  grants_key lines key <-> exists p, grants lines key p.
Proof using Type.
  intros Hne. unfold grants_key, grants. split.
  - intros (line & g & Hl & Hp & Hk). specialize (Hne line g Hl Hp).
    destruct (pg_privileges g) as [|p l] eqn:E; [done|]. exists p, line, g. rewrite E.
    split_and!; [done..|left].
  - intros (p & line & g & Hl & Hp & Hk & _). by exists line, g.
Qed.

Lemma script_key key : grants_key (pg_lines d) key <-> exists p, script_grants d key p.
Proof using Hv Hz.
  setoid_rewrite <-script_grants_iff. apply key_privilege. intros line g Hl Hp.
  apply (pg_lines_script d Hv) in Hl as [[_ Hn]|(st & Hst & ->)]; [congruence|].
  destruct (table_grant_shape st Hst) as (p0 & ps & table & role & -> & Ht & Hr).
  rewrite parse_render in Hp by done. injection Hp as <-.
  change (set_of (map PRIV_SQL (p0 :: ps)) <> []). by rewrite set_of_nil.
Qed.

Lemma rows_key key : grants_key (grant_rows (table_grants d)) key <-> exists p, script_grants d key p.
Proof using Hv Hz.
  setoid_rewrite <-rows_grants. apply key_privilege. intros line g Hl Hp.
  apply rows_parse in Hl as (privs & table & role & pr & Hst & _ & ->).
  rewrite (row_parsed privs) in Hp by done. by injection Hp as <-.
Qed.

Lemma script_split : split_char LF (compilePgDdl d) = pg_lines d.
Proof using Hv.
  apply split_join_lines; [done|]. intros s Hs.
  apply (pg_lines_script d Hv) in Hs as [[Hs _]|(st & Hst & ->)]; [done|]. by apply (table_grant_line d Hv).
Qed.
End grants.

Lemma roles_clean d r p : diffKeycloakRoles (mkArtifacts (compileKeycloak d) r p) (role_names d) = [].
Proof.
  unfold diffKeycloakRoles. cbn [keycloak]. cbv zeta.
  assert (forall x, x ∈ map kr_name (k_realmRoles (compileKeycloak d)) <-> x ∈ role_names d) as H.
  { intros x. unfold role_names. rewrite !elem_of_map. setoid_rewrite elem_of_realmRoles. naive_solver. }
  apply app_nil. rewrite !flat_map_nil.
  split; intros x Hx; (rewrite decide_True; [done|]); apply elem_of_set_of, H; [|done].
  by apply H, H.
Qed.

Lemma groups_clean d r p :
  NoDup (map gr_name (d_groups d)) ->
  diffKeycloakGroups (mkArtifacts (compileKeycloak d) r p)
    (map (fun g => (gr_name g, gr_roles g)) (d_groups d)) = [].
Proof.
  intros HN. unfold diffKeycloakGroups. cbn [keycloak]. cbv zeta.
  assert ((map (fun g => (gr_name g, gr_roles g)) (d_groups d)).*1 = map gr_name (d_groups d)) as E.
  { rewrite <-list_fmap_compose. done. }
  apply app_nil. rewrite !flat_map_nil. split.
  - intros kg (g & Hg & ->)%elem_of_groups. simpl.
    assert (map_get (gr_name g) (map (fun g => (gr_name g, gr_roles g)) (d_groups d)) = Some (gr_roles g)) as ->.
    { apply map_get_elem; [by rewrite E|]. apply elem_of_map. eauto. }
    unfold sorted_names. rewrite (cmp_sort_perm (js_sort cmp (gr_roles g)) (gr_roles g)) by apply js_sort_perm.
    by rewrite String.eqb_refl.
  - rewrite E. intros x (g & Hg & ->)%elem_of_map. rewrite decide_True; [done|].
    apply elem_of_set_of, elem_of_map. eexists. split; [apply elem_of_groups; eauto|done].
Qed.


Lemma sample_kept : kept_names sample.
Proof.
  split; [exact sample_short|]. intros res [Hr Hp]%elem_of_pg_resources.
  repeat (apply elem_of_cons in Hr as [->|Hr]; [first [reflexivity|discriminate Hp]|]). by apply not_elem_of_nil in Hr.
Qed.

(** A table declared with a capital letter drifts for ever: the database lists the
    folded name, so the grant reads as missing and as made by hand. *)
Lemma capitals_drift :
  exists d a, declarationSchema d = true /\ compileAll d = inr a /\
    map di_kind (items (diffState a (mkActual None None (Some (pg_rows d))))) = [Manual; Unapplied].
Proof.
  exists (mkDeclaration (d_roles sample) (d_groups sample) [twin] None (Some [sample_login])).
  eexists. split_and!; [reflexivity|vm_compute; reflexivity|vm_compute; reflexivity].
Qed.


(** [compileAll] produces artifacts exactly for the declarations the
    validator accepts; in particular no accepted declaration makes a compiler
    throw. *)
Theorem compileAll_iff d : (exists a, compileAll d = inr a) <-> validateDeclaration d = [].
Proof.
  unfold compileAll. destruct (validateDeclaration d) eqn:Hv; [|naive_solver].
  split; [done|]. intros _. fold (validated d) in Hv. unfold compileRego, rego_rules.
  assert (forall l, (forall res, res ∈ l -> res ∈ d_resources d) ->
    exists t, rmap (resource_rules d) l = inr t) as H.
  { induction l as [|res l IH]; intros Hl; simpl; [by exists []|].
    destruct (validated_splitResource d res Hv) as (s & t & E & _); [apply Hl; left|].
    unfold resource_rules at 1. rewrite E. simpl.
    destruct IH as [rs ->]; [intros; apply Hl; by right|]. simpl. eauto. }
  destruct (H (trino_resources d)) as [t ->].
  { intros res. unfold trino_resources. rewrite elem_of_js_sort, elem_of_filterb. by intros [? _]. }
  simpl. eauto.
Qed.
