(* ===== verification/SsoStore.v ===== *)
(** * [domain-api/src/store/ssoChangeStore.ts]: the audit and state store

    The two tables, the partial unique index of the migration, and one function
    per method of [PgSsoChangeStore] with its SQL.  A method runs one statement
    or one transaction; [Fault] says where the connection fails, so that a commit
    whose acknowledgement is lost is an outcome like any other.  Transactions are
    atomic: submits are serialized by the advisory lock, a transition locks its row. *)

From S2P Require Import Prelude JsBase JsJson.
From Stdlib Require String.

(** ** Data *)

Inductive ChangeStage := Submitted | PrOpen | UnknownRecovering | Merged | Applied | Rejected | Failed.
Inductive EventStage := Stage (s : ChangeStage) | Denied | Previewed.

#[export] Instance ChangeStage_eq_dec : EqDecision ChangeStage.
Proof. solve_decision. Defined.
#[export] Instance EventStage_eq_dec : EqDecision EventStage.
Proof. solve_decision. Defined.

Definition CHANGE_STAGES : list ChangeStage :=
  [Submitted; PrOpen; UnknownRecovering; Merged; Applied; Rejected; Failed].

Definition stage_name (s : ChangeStage) : string :=
  match s with
  | Submitted => "submitted" | PrOpen => "pr_open" | UnknownRecovering => "unknown_recovering"
  | Merged => "merged" | Applied => "applied" | Rejected => "rejected" | Failed => "failed"
  end.

Definition ACTIVE_STAGES : list ChangeStage := [Submitted; PrOpen; UnknownRecovering].
Definition OPEN_STAGES : list ChangeStage := ACTIVE_STAGES ++ [Merged].

(** A row of [sso_change_requests]; times in microseconds. *)
Record RequestRow := mkRow {
  id : string;
  stage : ChangeStage;
  file_path : string;
  endpoint : string;
  idempotency_key : string;
  payload_sha256 : string;
  base_blob_sha : string;
  source_commit_sha : string;
  patch : list string;
  actor_sub : string;
  actor_username : option string;
  branch : string;
  pr_number : option Z;
  pr_url : option string;
  merge_commit_sha : option string;
  created_at : Z;
  updated_at : Z;
}.

(** What callers see: times as JavaScript dates, in milliseconds, and the
    optimistic version, which keeps the microseconds of [updated_at]. *)
Record ChangeRecord := mkChange {
  cr_id : string;
  cr_stage : ChangeStage;
  cr_filePath : string;
  cr_endpoint : string;
  cr_idempotencyKey : string;
  cr_payloadSha256 : string;
  cr_baseBlobSha : string;
  cr_sourceCommitSha : string;
  cr_patch : list string;
  cr_actorSub : string;
  cr_actorUsername : option string;
  cr_branch : string;
  cr_prNumber : option Z;
  cr_prUrl : option string;
  cr_mergeCommitSha : option string;
  cr_createdAt : Z;
  cr_updatedAt : Z;
  cr_version : Z;
}.

Definition toRecord (r : RequestRow) : ChangeRecord :=
  mkChange (id r) (stage r) (file_path r) (endpoint r) (idempotency_key r) (payload_sha256 r)
    (base_blob_sha r) (source_commit_sha r) (patch r) (actor_sub r) (actor_username r) (branch r)
    (pr_number r) (pr_url r) (merge_commit_sha r) (created_at r / 1000)%Z (updated_at r / 1000)%Z
    (updated_at r).

(** A row of [sso_change_event], less its generated columns. *)
Record NewEvent := mkEvent {
  ev_requestId : option string;
  ev_stage : EventStage;
  ev_actorSub : string;
  ev_actorUsername : option string;
  ev_endpoint : option string;
  ev_idempotencyKey : option string;
  ev_baseBlobSha : option string;
  ev_payloadSha256 : option string;
  ev_prNumber : option Z;
  ev_prUrl : option string;
  ev_mergeCommitSha : option string;
  ev_reason : option string;
  ev_detail : option json;
}.

Record SubmitInput := mkSubmit {
  si_filePath : string;
  si_endpoint : string;
  si_idempotencyKey : string;
  si_payloadSha256 : string;
  si_baseBlobSha : string;
  si_sourceCommitSha : string;
  si_allowedGroups : list string;
  si_actorSub : string;
  si_actorUsername : option string;
  si_branch : string;
  si_reason : option string;
}.

Record TransitionFields := mkFields {
  tf_prNumber : option Z;
  tf_prUrl : option string;
  tf_mergeCommitSha : option string;
}.

Definition no_fields : TransitionFields := mkFields None None None.

(** [te_actor] is the pair of [actorSub] and [actorUsername] when given. *)
Record TransitionEvent := mkTEvent {
  te_reason : option string;
  te_detail : option json;
  te_actor : option (string * option string);
}.

Inductive StoreErrorCode := OPEN_REQUEST_EXISTS | IDEMPOTENCY_MISMATCH | IDEMPOTENCY_KEY_COLLISION | UNAVAILABLE.

#[export] Instance StoreErrorCode_eq_dec : EqDecision StoreErrorCode.
Proof. solve_decision. Defined.

(** ** The database *)

Record Db := mkDb { requests : list RequestRow; events : list NewEvent }.

(** The connection fails before anything is committed, or while the commit (or
    the rollback) is acknowledged. *)
Inductive Fault := NoFault | FaultBefore | FaultAtCommit.

Definition active (r : RequestRow) : bool := bool_decide (stage r ∈ ACTIVE_STAGES).

(** The first row satisfying a condition, [rows[0]]. *)
Definition select_one (p : RequestRow -> bool) (db : Db) : option RequestRow := List.find p (requests db).

Definition by_key (key : string) (r : RequestRow) : bool := String.eqb (idempotency_key r) key.
Definition by_id (i : string) (r : RequestRow) : bool := String.eqb (id r) i.
Definition by_branch (b : string) (r : RequestRow) : bool := String.eqb (branch r) b.
Definition active_on (f : string) (r : RequestRow) : bool := String.eqb (file_path r) f && active r.

Definition exists_row (p : RequestRow -> bool) (db : Db) : bool := existsb p (requests db).

(** The constraint a row would violate next to the rows of [l]: the primary key,
    the unique key, the partial unique index. *)
Definition violated (row : RequestRow) (l : list RequestRow) : option string :=
  if existsb (by_id (id row)) l then Some "sso_change_requests_pkey"
  else if existsb (by_key (idempotency_key row)) l then Some "sso_change_requests_idempotency_key_key"
  else if active row && existsb (active_on (file_path row)) l then Some "sso_change_requests_one_active_per_file"
  else None.

Definition insert_request (row : RequestRow) (db : Db) : result string Db :=
  match violated row (requests db) with
  | Some c => inl c
  | None => inr (mkDb (requests db ++ [row]) (events db))
  end.

Definition insert_event (e : NewEvent) (db : Db) : Db := mkDb (requests db) (events db ++ [e]).

(** The answer of a transaction: a lost acknowledgement is an error, whatever was
    committed. *)
Definition finish {A} (f : Fault) (db : Db) (r : result StoreErrorCode A) : Db * result StoreErrorCode A :=
  match f with FaultAtCommit => (db, inl UNAVAILABLE) | _ => (db, r) end.

Definition read {A} (f : Fault) (r : A) : result StoreErrorCode A :=
  match f with NoFault => inr r | _ => inl UNAVAILABLE end.

(** ** The methods *)

Definition recordEvent (f : Fault) (e : NewEvent) (db : Db) : Db * result StoreErrorCode unit :=
  match f with
  | FaultBefore => (db, inl UNAVAILABLE)
  | _ => finish f (insert_event e db) (inr tt)
  end.

Definition findByKey (f : Fault) (key : string) (db : Db) : result StoreErrorCode (option ChangeRecord) :=
  read f (toRecord <$> select_one (by_key key) db).

Definition get (f : Fault) (i : string) (db : Db) : result StoreErrorCode (option ChangeRecord) :=
  read f (toRecord <$> select_one (by_id i) db).

Definition findByBranch (f : Fault) (b : string) (db : Db) : result StoreErrorCode (option ChangeRecord) :=
  read f (toRecord <$> select_one (by_branch b) db).

(** The inserted row: [gen_random_uuid()] and [now()] are the server's. *)
Definition submitted_row (now : Z) (uuid : string) (i : SubmitInput) : RequestRow :=
  mkRow uuid Submitted (si_filePath i) (si_endpoint i) (si_idempotencyKey i) (si_payloadSha256 i)
    (si_baseBlobSha i) (si_sourceCommitSha i) (si_allowedGroups i) (si_actorSub i) (si_actorUsername i)
    (si_branch i) None None None now now.

Definition submitted_event (row : RequestRow) (i : SubmitInput) : NewEvent :=
  mkEvent (Some (id row)) (Stage Submitted) (si_actorSub i) (si_actorUsername i) (Some (si_endpoint i))
    (Some (si_idempotencyKey i)) (Some (si_baseBlobSha i)) (Some (si_payloadSha256 i)) None None None
    (si_reason i)
    (Some (JObj [("branch", JStr (si_branch i)); ("sourceCommitSha", JStr (si_sourceCommitSha i));
                 ("allowedGroups", JStrs (si_allowedGroups i))])).

(** A unique violation of the [one_active] index is the backstop's answer; any
    other database error is unavailability. *)
Definition insert_error (constraint : string) : StoreErrorCode :=
  if bool_decide (constraint = "sso_change_requests_one_active_per_file") then OPEN_REQUEST_EXISTS else UNAVAILABLE.

Definition submit (f : Fault) (now : Z) (uuid : string) (i : SubmitInput) (db : Db)
    : Db * result StoreErrorCode (ChangeRecord * bool) :=
  match f with
  | FaultBefore => (db, inl UNAVAILABLE)
  | _ =>
      match select_one (by_key (si_idempotencyKey i)) db with
      | Some found =>
          finish f db
            (if String.eqb (payload_sha256 found) (si_payloadSha256 i) then inr (toRecord found, true)
             else inl IDEMPOTENCY_MISMATCH)
      | None =>
          if exists_row (by_branch (si_branch i)) db then finish f db (inl IDEMPOTENCY_KEY_COLLISION)
          else if exists_row (active_on (si_filePath i)) db then finish f db (inl OPEN_REQUEST_EXISTS)
          else
            let row := submitted_row now uuid i in
            match insert_request row db with
            | inl constraint => (db, inl (insert_error constraint))
            | inr db' => finish f (insert_event (submitted_event row i) db') (inr (toRecord row, false))
            end
      end
  end.

Definition by_created_desc (a b : RequestRow) : Z := (created_at b - created_at a)%Z.
Definition by_updated_desc (a b : RequestRow) : Z := (updated_at b - updated_at a)%Z.

(** [ORDER BY] leaves the order of equal times open; here it is insertion order. *)
Definition listOpen (f : Fault) (limit : nat) (db : Db) : result StoreErrorCode (list ChangeRecord) :=
  read f (map toRecord (take limit (js_sort by_created_desc
    (List.filter (fun r => bool_decide (stage r ∈ OPEN_STAGES)) (requests db))))).

Definition listRecentTerminal (f : Fault) (sinceMs : Z) (limit : nat) (db : Db)
    : result StoreErrorCode (list ChangeRecord) :=
  read f (map toRecord (take limit (js_sort by_updated_desc
    (List.filter (fun r => bool_decide (stage r ∈ [Failed; Rejected]) && (sinceMs * 1000 <=? updated_at r)%Z)
       (requests db))))).

Definition coalesce {A} (a b : option A) : option A := match a with Some _ => a | None => b end.

Definition updated_row (now : Z) (s : ChangeStage) (t : TransitionFields) (r : RequestRow) : RequestRow :=
  mkRow (id r) s (file_path r) (endpoint r) (idempotency_key r) (payload_sha256 r) (base_blob_sha r)
    (source_commit_sha r) (patch r) (actor_sub r) (actor_username r) (branch r)
    (coalesce (tf_prNumber t) (pr_number r)) (coalesce (tf_prUrl t) (pr_url r))
    (coalesce (tf_mergeCommitSha t) (merge_commit_sha r)) (created_at r) now.

Definition transition_event (row : RequestRow) (e : TransitionEvent) : NewEvent :=
  mkEvent (Some (id row)) (Stage (stage row))
    (match te_actor e with Some (sub, _) => sub | None => actor_sub row end)
    (match te_actor e with Some (_, name) => name | None => actor_username row end)
    (Some (endpoint row)) (Some (idempotency_key row)) (Some (base_blob_sha row)) (Some (payload_sha256 row))
    (pr_number row) (pr_url row) (merge_commit_sha row) (te_reason e) (te_detail e).

(** The row the [UPDATE] selects. *)
Definition cas_match (i : string) (expected : ChangeStage) (version : option Z) (r : RequestRow) : bool :=
  by_id i r && bool_decide (stage r = expected) &&
  match version with Some v => (updated_at r =? v)%Z | None => true end.

Fixpoint replace_row (p : RequestRow -> bool) (new : RequestRow) (l : list RequestRow) : list RequestRow :=
  match l with
  | [] => []
  | r :: l' => if p r then new :: l' else r :: replace_row p new l'
  end.

(** An update that enters an active stage is checked against the partial index. *)
Definition update_violates (new : RequestRow) (db : Db) : bool :=
  active new && existsb (fun r => negb (by_id (id new) r) && active_on (file_path new) r) (requests db).

Definition transition (f : Fault) (now : Z) (i : string) (expected s : ChangeStage) (t : TransitionFields)
    (e : TransitionEvent) (version : option Z) (db : Db) : Db * result StoreErrorCode (option ChangeRecord) :=
  match f with
  | FaultBefore => (db, inl UNAVAILABLE)
  | _ =>
      match select_one (cas_match i expected version) db with
      | None => finish f db (inr None)
      | Some r =>
          let row := updated_row now s t r in
          if update_violates row db then (db, inl UNAVAILABLE)
          else
            finish f
              (insert_event (transition_event row e)
                 (mkDb (replace_row (cas_match i expected version) row (requests db)) (events db)))
              (inr (Some (toRecord row)))
      end
  end.

(** ** The reconciler lease *)

(** What the lease does around [fn]: whether [fn] ran, and whether the connection
    is destroyed (which drops the session lock) rather than returned. *)
Inductive LeaseOutcome (E : Type) := LeaseStoreError | LeaseNotHeld | LeaseRan (r : result E unit).
Arguments LeaseStoreError {E}.
Arguments LeaseNotHeld {E}.
Arguments LeaseRan {E} r.

(** [connect]: a connection is available; [lock]: the answer of
    [pg_try_advisory_lock], [None] when the query fails; [conn_error]: the
    connection died during [fn]; [unlock]: [pg_advisory_unlock] succeeded. *)
Definition withReconcilerLease {E} (connect : bool) (lock : option bool) (conn_error unlock : bool)
    (fn : result E unit) : LeaseOutcome E * bool :=
  if negb connect then (LeaseStoreError, false)
  else
    match lock with
    | None => (LeaseStoreError, conn_error)
    | Some false => (LeaseNotHeld, conn_error)
    | Some true => (LeaseRan fn, conn_error || negb unlock)
    end.
