(* ===== verification/SsoStoreProofs.v ===== *)
(** * The invariants of the audit store

    Whatever sequence of submits, transitions and events runs, and wherever the
    connection fails: keys, branches and active files stay unique, the history is
    only appended to, and every stage of every request is on the record. *)

From S2P Require Import Prelude JsBase JsJson SsoStore.
From Stdlib Require String.

(** ** Reading the searches *)

Lemma select_one_Some p db r : select_one p db = Some r -> r ∈ requests db /\ p r = true.
Proof. unfold select_one. intros [Hin Hp]%find_some. by rewrite list_elem_of_In. Qed.

Lemma select_one_None p db r : select_one p db = None -> r ∈ requests db -> p r = false.
Proof. unfold select_one. rewrite list_elem_of_In. intros H. by apply find_none. Qed.

Lemma exists_row_false p db : exists_row p db = false <-> forall r, r ∈ requests db -> p r = false.
Proof.
  unfold exists_row. rewrite <-not_true_iff_false, existsb_elem. split.
  - intros H r Hr. destruct (p r) eqn:E; [|done]. destruct H. eauto.
  - intros H (r & Hr & Hp). rewrite H in Hp by done. done.
Qed.

Lemma by_key_iff k r : by_key k r = true <-> idempotency_key r = k.
Proof. apply String.eqb_eq. Qed.
Lemma by_id_iff i r : by_id i r = true <-> id r = i.
Proof. apply String.eqb_eq. Qed.
Lemma by_branch_iff b r : by_branch b r = true <-> branch r = b.
Proof. apply String.eqb_eq. Qed.
Lemma active_on_iff f r : active_on f r = true <-> file_path r = f /\ active r = true.
Proof. unfold active_on. by rewrite andb_true_iff, String.eqb_eq. Qed.
Lemma cas_match_iff i s v r :
  cas_match i s v r = true <->
  id r = i /\ stage r = s /\ match v with Some t => updated_at r = t | None => True end.
Proof.
  unfold cas_match. rewrite !andb_true_iff, by_id_iff, bool_decide_eq_true.
  destruct v; rewrite ?Z.eqb_eq; naive_solver.
Qed.

(** ** The invariant *)

Record store_ok (db : Db) : Prop := mkOk {
  ok_ids : NoDup (map id (requests db));
  ok_keys : NoDup (map idempotency_key (requests db));
  ok_branches : NoDup (map branch (requests db));
  ok_one_active : NoDup (map file_path (List.filter active (requests db)));
  ok_audited : forall r, r ∈ requests db ->
    exists e, e ∈ events db /\ ev_requestId e = Some (id r) /\ ev_stage e = Stage (stage r) /\
      ev_idempotencyKey e = Some (idempotency_key r) /\ ev_payloadSha256 e = Some (payload_sha256 r);
}.

Definition empty_db : Db := mkDb [] [].

Lemma empty_ok : store_ok empty_db.
Proof. split; simpl; try constructor. by intros r ?%not_elem_of_nil. Qed.

(** The fields of a request that no update writes. *)
Definition same_request (r r' : RequestRow) : Prop :=
  id r' = id r /\ file_path r' = file_path r /\ endpoint r' = endpoint r /\
  idempotency_key r' = idempotency_key r /\ payload_sha256 r' = payload_sha256 r /\
  base_blob_sha r' = base_blob_sha r /\ source_commit_sha r' = source_commit_sha r /\
  patch r' = patch r /\ actor_sub r' = actor_sub r /\ actor_username r' = actor_username r /\
  branch r' = branch r /\ created_at r' = created_at r.

Lemma same_request_refl r : same_request r r.
Proof. by unfold same_request. Qed.

Lemma same_request_trans r1 r2 r3 : same_request r1 r2 -> same_request r2 r3 -> same_request r1 r3.
Proof. unfold same_request. intuition congruence. Qed.

(** ** Updating one row *)

Section replace.
Context (p : RequestRow -> bool) (new : RequestRow).

Lemma replace_row_split l r :
  List.find p l = Some r ->
  exists l1 l2, l = l1 ++ r :: l2 /\ replace_row p new l = l1 ++ new :: l2 /\ p r = true.
Proof using Type.
  induction l as [|a l IH]; simpl; [done|]. destruct (p a) eqn:E.
  - intros [= ->]. by exists [], l.
  - intros (l1 & l2 & -> & -> & Hp)%IH. by exists (a :: l1), l2.
Qed.
End replace.

Lemma map_replace {A} (f : RequestRow -> A) l1 l2 (r new : RequestRow) :
  f new = f r -> map f (l1 ++ new :: l2) = map f (l1 ++ r :: l2).
Proof. intros H. rewrite !map_app. simpl. by rewrite H. Qed.

(** ** Operations *)

Inductive store_op :=
| OpSubmit (f : Fault) (now : Z) (uuid : string) (i : SubmitInput)
| OpTransition (f : Fault) (now : Z) (i : string) (expected s : ChangeStage) (t : TransitionFields)
    (e : TransitionEvent) (version : option Z)
| OpEvent (f : Fault) (e : NewEvent).

Definition exec_op (op : store_op) (db : Db) : Db :=
  match op with
  | OpSubmit f now uuid i => (submit f now uuid i db).1
  | OpTransition f now i expected s t e v => (transition f now i expected s t e v db).1
  | OpEvent f e => (recordEvent f e db).1
  end.

Definition exec_ops (ops : list store_op) (db : Db) : Db := foldl (fun db op => exec_op op db) db ops.

(** What an operation does to the tables: nothing, an event, a new request with
    its event, or one update with its event. *)
Inductive db_step (db : Db) : Db -> Prop :=
| st_none : db_step db db
| st_event e : db_step db (mkDb (requests db) (events db ++ [e]))
| st_insert row e :
    (forall r, r ∈ requests db -> id r <> id row) ->
    (forall r, r ∈ requests db -> idempotency_key r <> idempotency_key row) ->
    (forall r, r ∈ requests db -> branch r <> branch row) ->
    (forall r, r ∈ requests db -> active r = true -> file_path r <> file_path row) ->
    stage row = Submitted -> ev_requestId e = Some (id row) -> ev_stage e = Stage (stage row) ->
    ev_idempotencyKey e = Some (idempotency_key row) -> ev_payloadSha256 e = Some (payload_sha256 row) ->
    db_step db (mkDb (requests db ++ [row]) (events db ++ [e]))
| st_update l1 r l2 row e :
    requests db = l1 ++ r :: l2 -> same_request r row ->
    (active row = true -> forall r', r' ∈ l1 ++ l2 -> id r' <> id r -> active r' = true ->
       file_path r' <> file_path row) ->
    ev_requestId e = Some (id row) -> ev_stage e = Stage (stage row) ->
    ev_idempotencyKey e = Some (idempotency_key row) -> ev_payloadSha256 e = Some (payload_sha256 row) ->
    db_step db (mkDb (l1 ++ row :: l2) (events db ++ [e])).

Lemma finish_fst {A} f db (r : result StoreErrorCode A) : (finish f db r).1 = db.
Proof. by destruct f. Qed.

Lemma false_neq {A} (p : A -> bool) x : p x = false -> p x <> true.
Proof. by intros ->. Qed.

Lemma insert_step now uuid i db :
  select_one (by_key (si_idempotencyKey i)) db = None ->
  exists_row (by_branch (si_branch i)) db = false ->
  exists_row (active_on (si_filePath i)) db = false ->
  existsb (by_id uuid) (requests db) = false ->
  db_step db (mkDb (requests db ++ [submitted_row now uuid i])
                (events db ++ [submitted_event (submitted_row now uuid i) i])).
Proof.
  intros Ek Eb Ea Ei. rewrite exists_row_false in Eb, Ea.
  pose proof (proj1 (exists_row_false (by_id uuid) db) Ei) as Ei'.
  apply (st_insert db (submitted_row now uuid i)); try done; simpl.
  - intros r Hr E. eapply false_neq; [by apply Ei'|]. by apply by_id_iff.
  - intros r Hr E. eapply false_neq; [by eapply select_one_None|]. by apply by_key_iff.
  - intros r Hr E. eapply false_neq; [by apply Eb|]. by apply by_branch_iff.
  - intros r Hr Hact E. eapply false_neq; [by apply Ea|]. by apply active_on_iff.
Qed.

Lemma submit_step f now uuid i db : db_step db (submit f now uuid i db).1.
Proof.
  unfold submit. destruct f; [|apply st_none|];
    (destruct (select_one (by_key (si_idempotencyKey i)) db) eqn:Ek; [rewrite finish_fst; apply st_none|];
     destruct (exists_row (by_branch (si_branch i)) db) eqn:Eb; [rewrite finish_fst; apply st_none|];
     destruct (exists_row (active_on (si_filePath i)) db) eqn:Ea; [rewrite finish_fst; apply st_none|];
     unfold insert_request, violated;
     destruct (existsb (by_id _) _) eqn:Ei; [apply st_none|];
     destruct (existsb (by_key _) _); [apply st_none|]; destruct (_ && _); [apply st_none|];
     rewrite finish_fst; by apply (insert_step now uuid i db)).
Qed.

Lemma transition_step f now i expected s t e v db :
  db_step db (transition f now i expected s t e v db).1.
Proof.
  unfold transition. destruct f; [|apply st_none|];
    (destruct (select_one _ db) as [r|] eqn:Er; [|rewrite finish_fst; apply st_none];
     destruct (update_violates _ db) eqn:Eu; [apply st_none|]; rewrite finish_fst;
     destruct (replace_row_split _ (updated_row now s t r) _ _ Er) as (l1 & l2 & E & -> & Hp);
     apply (st_update db l1 r l2 (updated_row now s t r)); try done).
  all: intros Hact r' Hr' Hne Hact' Hf; unfold update_violates in Eu; rewrite Hact in Eu; simpl in Eu.
  all: change (exists_row (fun r0 => negb (by_id (id r) r0) && active_on (file_path r) r0) db = false) in Eu.
  all: rewrite exists_row_false in Eu.
  all: assert (r' ∈ requests db) as Hin by (rewrite E; set_solver).
  all: specialize (Eu r' Hin); eapply false_neq; [exact Eu|]; cbv beta.
  all: rewrite andb_true_iff, negb_true_iff, active_on_iff; split; [|done].
  all: apply not_true_iff_false; by rewrite by_id_iff.
Qed.

Lemma exec_op_step op db : db_step db (exec_op op db).
Proof.
  destruct op as [f now uuid i|f now i x s t e v|f e]; simpl.
  - apply submit_step.
  - apply transition_step.
  - unfold recordEvent. destruct f; [apply st_event|constructor|apply st_event].
Qed.

(** ** The invariant is preserved *)

Lemma NoDup_snoc {A} (l : list A) x : NoDup l -> x ∉ l -> NoDup (l ++ [x]).
Proof. intros Hl Hx. apply NoDup_app. split; [done|]. split; [set_solver|]. apply NoDup_singleton. Qed.

Lemma filter_active_update l1 r l2 row :
  NoDup (map file_path (List.filter active (l1 ++ r :: l2))) ->
  file_path row = file_path r ->
  (active row = true -> forall r', r' ∈ l1 ++ l2 -> active r' = true -> file_path r' <> file_path row) ->
  NoDup (map file_path (List.filter active (l1 ++ row :: l2))).
Proof.
  intros HN Hf Hrow. rewrite List.filter_app, map_app in *. simpl in *.
  assert (NoDup (map file_path (List.filter active l1) ++ map file_path (List.filter active l2))) as HN'.
  { destruct (active r); simpl in HN; [|done]. apply NoDup_app in HN as (H1 & H2 & H3).
    apply NoDup_cons in H3 as [H3 H4]. apply NoDup_app. split_and!; [done| |done]. set_solver. }
  destruct (active row) eqn:Ea; simpl; [|done].
  apply NoDup_app in HN' as (H1 & H2 & H3). apply NoDup_app. split_and!; [done| |].
  - intros x Hx [->|Hx2]%elem_of_cons; [|by eapply H2].
    apply elem_of_map in Hx as (r' & Hr' & E). apply elem_of_filterb in Hr' as [Hr' Ha].
    eapply Hrow; [done| |done|by symmetry]. set_solver.
  - apply NoDup_cons. split; [|done]. intros Hx.
    apply elem_of_map in Hx as (r' & Hr' & E). apply elem_of_filterb in Hr' as [Hr' Ha].
    eapply Hrow; [done| |done|by symmetry]. set_solver.
Qed.

Lemma step_ok db db' : store_ok db -> db_step db db' -> store_ok db'.
Proof.
  intros [H1 H2 H3 H4 H5] [|e|row e Hi Hk Hb Ha Hs E1 E2 E3 E4|l1 r l2 row e E Hsame Ha E1 E2 E3 E4].
  - done.
  - split; simpl; auto. intros r Hr. destruct (H5 r Hr) as (e' & He & H). exists e'. set_solver.
  - split; simpl.
    + rewrite map_app. apply NoDup_snoc; [done|]. intros (r & Hr & E)%elem_of_map. by apply (Hi r Hr).
    + rewrite map_app. apply NoDup_snoc; [done|]. intros (r & Hr & E)%elem_of_map. by apply (Hk r Hr).
    + rewrite map_app. apply NoDup_snoc; [done|]. intros (r & Hr & E)%elem_of_map. by apply (Hb r Hr).
    + rewrite List.filter_app, map_app. simpl. destruct (active row); simpl; [|by rewrite app_nil_r].
      apply NoDup_snoc; [done|]. intros (r & Hr & E)%elem_of_map.
      apply elem_of_filterb in Hr as [Hr Hact]. by apply (Ha r Hr Hact).
    + intros r [Hr| ->%list_elem_of_singleton]%elem_of_app.
      * destruct (H5 r Hr) as (e' & He & H). exists e'. set_solver.
      * exists e. split; [set_solver|done].
  - destruct Hsame as (S1 & S2 & S3 & S4 & S5 & S6 & S7 & S8 & S9 & S10 & S11 & S12).
    rewrite E in *. split; simpl.
    + by rewrite (map_replace id l1 l2 r row).
    + by rewrite (map_replace idempotency_key l1 l2 r row).
    + by rewrite (map_replace branch l1 l2 r row).
    + apply (filter_active_update l1 r l2); [done..|]. intros Hact r' Hr' Ha'. apply Ha; [done..| |done].
      intros Eid. rewrite map_app in H1. simpl in H1. apply NoDup_app in H1 as (_ & HN1 & HN2).
      apply NoDup_cons in HN2 as [HN2 _]. apply elem_of_app in Hr' as [Hr'|Hr'].
      * apply (HN1 (id r')); [apply elem_of_map; eauto|]. rewrite Eid. left.
      * apply HN2. rewrite <-Eid. apply elem_of_map. eauto.
    + intros r' [Hr'|[->|Hr']%elem_of_cons]%elem_of_app.
      * destruct (H5 r') as (e' & He & H); [set_solver|]. exists e'. set_solver.
      * exists e. split; [set_solver|done].
      * destruct (H5 r') as (e' & He & H); [set_solver|]. exists e'. set_solver.
Qed.

Lemma exec_ops_ok ops db : store_ok db -> store_ok (exec_ops ops db).
Proof.
  unfold exec_ops. revert db. induction ops as [|op ops IH]; intros db H; simpl; [done|].
  apply IH. by eapply step_ok, exec_op_step.
Qed.

(** C11: whatever operations run, on whatever failing connection, the store keeps
    its invariant: request ids, idempotency keys and branches are unique, a file
    has at most one active request, and the current stage of every request is on
    the audit record with the request's key and payload. *)
Theorem store_invariant ops : store_ok (exec_ops ops empty_db).
Proof. apply exec_ops_ok, empty_ok. Qed.

(** ** History *)

(** [added] is what was appended; a request whose stage changed has its event there. *)
Definition continues (db db' : Db) : Prop :=
  exists added, events db' = events db ++ added /\
    forall r, r ∈ requests db -> exists r', r' ∈ requests db' /\ same_request r r' /\
      (stage r' <> stage r -> exists e, e ∈ added /\ ev_requestId e = Some (id r) /\ ev_stage e = Stage (stage r')).

Lemma continues_refl db : continues db db.
Proof.
  exists []. rewrite app_nil_r. split; [done|]. intros r Hr. exists r.
  split_and!; [done|apply same_request_refl|done].
Qed.

Lemma step_continues db db' : db_step db db' -> continues db db'.
Proof.
  intros [|e|row e _ _ _ _ _ _ _ _ _|l1 r0 l2 row e E Hs _ E1 E2 _ _].
  - apply continues_refl.
  - exists [e]. split; [done|]. intros r Hr. exists r. split_and!; [done|apply same_request_refl|done].
  - exists [e]. split; [done|]. intros r Hr. exists r.
    split_and!; [set_solver|apply same_request_refl|done].
  - exists [e]. split; [done|]. rewrite E. intros r Hr. simpl.
    apply elem_of_app in Hr as [Hr|[->|Hr]%elem_of_cons].
    + exists r. split_and!; [set_solver|apply same_request_refl|done].
    + exists row. split_and!; [set_solver|done|]. intros _. exists e. split; [left|].
      destruct Hs as (Hid & _). by rewrite E1, Hid.
    + exists r. split_and!; [set_solver|apply same_request_refl|done].
Qed.

Lemma continues_trans db1 db2 db3 : continues db1 db2 -> continues db2 db3 -> continues db1 db3.
Proof.
  intros (a & Ea & Ha) (b & Eb & Hb). exists (a ++ b). split; [by rewrite Eb, Ea, app_assoc|].
  intros r Hr. destruct (Ha r Hr) as (r2 & H2 & S2 & Q2). destruct (Hb r2 H2) as (r3 & H3 & S3 & Q3).
  exists r3. split_and!; [done|by eapply same_request_trans|]. intros Hne.
  destruct (decide (stage r3 = stage r2)) as [Es|Hn].
  - destruct Q2 as (e & He & Hid & Hst); [congruence|]. exists e. rewrite Es. set_solver.
  - destruct (Q3 Hn) as (e & He & Hid & Hst). exists e.
    destruct S2 as (Hid2 & _). rewrite <-Hid2. set_solver.
Qed.

Lemma exec_ops_continues ops db : continues db (exec_ops ops db).
Proof.
  unfold exec_ops. revert db. induction ops as [|op ops IH]; intros db; simpl; [apply continues_refl|].
  eapply continues_trans; [|apply IH]. apply step_continues, exec_op_step.
Qed.

(** The history is append-only and complete: the events already written stay
    as they are, a request keeps its key, payload, base, patch, actor and branch
    forever, and no request changes stage without an event that says so. *)
Theorem history_append_only ops db :
  exists added, events (exec_ops ops db) = events db ++ added /\
    forall r, r ∈ requests db -> exists r', r' ∈ requests (exec_ops ops db) /\ same_request r r' /\
      (stage r' <> stage r -> exists e, e ∈ added /\ ev_requestId e = Some (id r) /\ ev_stage e = Stage (stage r')).
Proof. apply exec_ops_continues. Qed.

(** ** Idempotency *)

Lemma select_key_unique db r :
  NoDup (map idempotency_key (requests db)) -> r ∈ requests db ->
  select_one (by_key (idempotency_key r)) db = Some r.
Proof.
  intros HN Hr. unfold select_one. induction (requests db) as [|a l IH]; [by apply not_elem_of_nil in Hr|].
  simpl in *. apply NoDup_cons in HN as [Ha HN]. apply elem_of_cons in Hr as [->|Hr].
  - by rewrite (proj2 (by_key_iff _ _) eq_refl).
  - destruct (by_key _ a) eqn:E; [|auto]. apply by_key_iff in E. destruct Ha. rewrite E.
    apply elem_of_map. eauto.
Qed.

(** Once a request is committed (also when the client saw only an error), a
    submit with its key never creates another one, whatever ran in between: with
    the same payload it answers with the request, with another payload it is
    refused, and neither touches the database. *)
Theorem submit_replay ops db r now uuid i :
  store_ok db -> r ∈ requests db -> si_idempotencyKey i = idempotency_key r ->
  let db' := exec_ops ops db in
  exists r', r' ∈ requests db' /\ same_request r r' /\
    submit NoFault now uuid i db' =
      (db', if String.eqb (payload_sha256 r) (si_payloadSha256 i)
            then inr (toRecord r', true) else inl IDEMPOTENCY_MISMATCH).
Proof.
  intros Hok Hr Hk db'. destruct (exec_ops_continues ops db) as (added & _ & H).
  destruct (H r Hr) as (r' & Hr' & Hs & _). exists r'. split_and!; [done..|].
  pose proof (exec_ops_ok ops db Hok) as Hok'. fold db' in Hok', Hr'.
  destruct Hs as (_ & _ & _ & Ek & Ep & _). unfold submit. rewrite Hk, <-Ek.
  rewrite (select_key_unique db' r') by (done || apply Hok'). simpl. by rewrite Ep.
Qed.

(** A submit either commits one request with its event or changes nothing. *)
Lemma submit_inserts f now uuid i db :
  (submit f now uuid i db).1 <> db ->
  (submit f now uuid i db).1 =
    mkDb (requests db ++ [submitted_row now uuid i])
      (events db ++ [submitted_event (submitted_row now uuid i) i]).
Proof.
  unfold submit. destruct f; [|done|];
    (destruct (select_one (by_key (si_idempotencyKey i)) db); [by rewrite finish_fst|];
     destruct (exists_row (by_branch (si_branch i)) db); [by rewrite finish_fst|];
     destruct (exists_row (active_on (si_filePath i)) db); [by rewrite finish_fst|];
     unfold insert_request; destruct (violated _ _); [done|]; by rewrite finish_fst).
Qed.

(** A submit answers [replay = false] only when it committed a new request,
    which was then the only active one of its file; every refusal leaves the
    database as it was. *)
Theorem submit_outcomes now uuid i db db' r :
  store_ok db -> submit NoFault now uuid i db = (db', r) ->
  match r with
  | inr (rec, false) =>
      rec = toRecord (submitted_row now uuid i) /\
      db' = mkDb (requests db ++ [submitted_row now uuid i])
              (events db ++ [submitted_event (submitted_row now uuid i) i]) /\
      forall q, q ∈ requests db -> active q = true -> file_path q <> si_filePath i
  | inr (rec, true) =>
      db' = db /\ exists q, q ∈ requests db /\ rec = toRecord q /\
        idempotency_key q = si_idempotencyKey i /\ payload_sha256 q = si_payloadSha256 i
  | inl IDEMPOTENCY_MISMATCH =>
      db' = db /\ exists q, q ∈ requests db /\ idempotency_key q = si_idempotencyKey i /\
        payload_sha256 q <> si_payloadSha256 i
  | inl IDEMPOTENCY_KEY_COLLISION => db' = db /\ exists q, q ∈ requests db /\ branch q = si_branch i
  | inl OPEN_REQUEST_EXISTS =>
      db' = db /\ exists q, q ∈ requests db /\ active q = true /\ file_path q = si_filePath i
  | inl UNAVAILABLE => db' = db /\ exists q, q ∈ requests db /\ id q = uuid
  end.
Proof.
  intros Hok. unfold submit. cbn [finish].
  destruct (select_one (by_key (si_idempotencyKey i)) db) as [q|] eqn:Ek.
  { apply select_one_Some in Ek as [Hq Hk]. apply by_key_iff in Hk.
    destruct (String.eqb_spec (payload_sha256 q) (si_payloadSha256 i)) as [E|E]; intros [= <- <-]; eauto 10. }
  destruct (exists_row (by_branch (si_branch i)) db) eqn:Eb.
  { intros [= <- <-]. split; [done|]. unfold exists_row in Eb. rewrite existsb_elem in Eb.
    destruct Eb as (q & Hq & Hb). apply by_branch_iff in Hb. eauto. }
  destruct (exists_row (active_on (si_filePath i)) db) eqn:Ea.
  { intros [= <- <-]. split; [done|]. unfold exists_row in Ea. rewrite existsb_elem in Ea.
    destruct Ea as (q & Hq & Ha). apply active_on_iff in Ha as [Hf Ha]. eauto. }
  unfold insert_request. destruct (violated _ _) as [c|] eqn:Ev.
  - intros [= <- <-]. unfold violated in Ev. destruct (existsb (by_id _) _) eqn:Ei.
    + injection Ev as <-. simpl. split; [done|]. rewrite existsb_elem in Ei.
      destruct Ei as (q & Hq & Hi). apply by_id_iff in Hi. eauto.
    + exfalso. destruct (existsb (by_key _) _) eqn:Ek'.
      * apply existsb_elem in Ek' as (q & Hq & Hk). simpl in Hk.
        by rewrite (select_one_None _ _ _ Ek Hq) in Hk.
      * unfold exists_row in Ea. simpl in Ev. by rewrite Ea in Ev.
  - intros [= <- <-]. split_and!; [done..|]. intros q Hq Hact Hf. rewrite exists_row_false in Ea.
    eapply false_neq; [by apply Ea|]. by apply active_on_iff.
Qed.

(** ** Compare and set *)

(** A transition is a compare-and-set with its audit row in one step: it
    answers with a record exactly when a request with this id still has the
    expected stage (and version, when one is given); then only this request
    changes, and one event with the new stage is added; otherwise nothing
    changes, not even the history. *)
Theorem transition_cas now i expected s t e v db :
  store_ok db ->
  let (db', r) := transition NoFault now i expected s t e v db in
  match r with
  | inr (Some rec) =>
      exists l1 q l2, requests db = l1 ++ q :: l2 /\ id q = i /\ stage q = expected /\
        match v with Some ver => updated_at q = ver | None => True end /\
        requests db' = l1 ++ updated_row now s t q :: l2 /\ rec = toRecord (updated_row now s t q) /\
        events db' = events db ++ [transition_event (updated_row now s t q) e] /\
        forall q', q' ∈ l1 ++ l2 -> id q' <> i
  | inr None =>
      db' = db /\ forall q, q ∈ requests db -> id q = i ->
        stage q <> expected \/ match v with Some ver => updated_at q <> ver | None => False end
  | inl _ =>
      db' = db /\ s ∈ ACTIVE_STAGES /\
      exists q q', q ∈ requests db /\ q' ∈ requests db /\ id q = i /\ id q' <> i /\
        file_path q' = file_path q /\ active q' = true
  end.
Proof.
  intros Hok. unfold transition.
  destruct (select_one (cas_match i expected v) db) as [q|] eqn:E; simpl.
  - destruct (replace_row_split _ (updated_row now s t q) _ _ E) as (l1 & l2 & El & -> & Hp).
    apply cas_match_iff in Hp as (Hid & Hst & Hv). destruct (update_violates _ db) eqn:Eu; simpl.
    + split; [done|]. unfold update_violates in Eu. apply andb_prop in Eu as [Ha Hx]. simpl in Hx.
      unfold active in Ha. apply bool_decide_eq_true in Ha. split; [done|].
      apply existsb_elem in Hx as (q' & Hq' & Hx).
      rewrite andb_true_iff, negb_true_iff, active_on_iff in Hx. destruct Hx as (Hne & Hf & Hact).
      exists q, q'. rewrite El. split_and!; try done; [set_solver|by rewrite <-El|].
      intros E'. rewrite <-Hid in E'. by apply by_id_iff in E'; rewrite E' in Hne.
    + exists l1, q, l2. split_and!; try done. intros q' Hq' Eq.
      pose proof (ok_ids db Hok) as HN. rewrite El, map_app in HN. simpl in HN.
      apply NoDup_app in HN as (_ & HN1 & HN2). apply NoDup_cons in HN2 as [HN2 _].
      apply elem_of_app in Hq' as [Hq'|Hq'].
      * apply (HN1 (id q')); [apply elem_of_map; eauto|]. rewrite Eq, Hid. left.
      * apply HN2. rewrite Hid, <-Eq. apply elem_of_map. eauto.
  - split; [done|]. intros q Hq Hid. pose proof (select_one_None _ _ _ E Hq) as Hf.
    apply not_true_iff_false in Hf. rewrite cas_match_iff in Hf.
    destruct (decide (stage q = expected)); [right|by left].
    destruct v as [ver|]; [|by destruct Hf]. intros Hver. by destruct Hf.
Qed.

(** ** Concrete runs *)

Definition demo_input (key payload : string) : SubmitInput :=
  mkSubmit "gitops/values/sso.yaml" "flink" key payload "b0" "c0" ["admins"] "u-1" (Some "ann")
    ("manager/sso/" +:+ key) None.

Definition demo_row : RequestRow := submitted_row 1000 "r-1" (demo_input "k1" "p1").
Definition demo_db : Db := exec_ops [OpSubmit NoFault 1000 "r-1" (demo_input "k1" "p1")] empty_db.

Lemma demo_ok : store_ok demo_db.
Proof. apply exec_ops_ok, empty_ok. Qed.

Lemma submit_replay_witness :
  exists r', submit NoFault 9000 "r-2" (demo_input "k1" "p1")
    (exec_ops [OpTransition FaultAtCommit 5000 "r-1" Submitted PrOpen no_fields (mkTEvent None None None) None] demo_db)
  = (exec_ops [OpTransition FaultAtCommit 5000 "r-1" Submitted PrOpen no_fields (mkTEvent None None None) None] demo_db,
     inr (toRecord r', true)).
Proof.
  destruct (submit_replay
    [OpTransition FaultAtCommit 5000 "r-1" Submitted PrOpen no_fields (mkTEvent None None None) None]
    demo_db demo_row 9000 "r-2" (demo_input "k1" "p1")) as (r' & _ & _ & H).
  - exact demo_ok.
  - vm_compute. left.
  - reflexivity.
  - exists r'. exact H.
Defined.

Lemma submit_outcomes_witness :
  exists q, q ∈ requests demo_db /\ active q = true /\ file_path q = "gitops/values/sso.yaml".
Proof.
  pose proof (submit_outcomes 9000 "r-2" (demo_input "k2" "p2") demo_db demo_db (inl OPEN_REQUEST_EXISTS) demo_ok
    eq_refl) as [_ H].
  exact H.
Defined.

Lemma transition_cas_witness :
  let t := transition NoFault 5000 "r-1" Submitted Rejected no_fields (mkTEvent (Some "cancelled") None None)
             (Some 1000) demo_db in
  requests t.1 = [updated_row 5000 Rejected no_fields demo_row] /\ length (events t.1) = 2%nat.
Proof.
  intros t. pose proof (transition_cas 5000 "r-1" Submitted Rejected no_fields
    (mkTEvent (Some "cancelled") None None) (Some 1000) demo_db demo_ok) as H.
  split; [vm_compute; reflexivity|].
  destruct H as (l1 & q & l2 & _ & _ & _ & _ & _ & _ & He & _). exact (f_equal length He).
Defined.
