(* ===== verification/SsoSchema.v ===== *)
(** * [domain-api/src/schema/sso.ts]: the sso.yaml schemas and [resolveSsoFile]

    The raw file is decoded from the parsed YAML by [rawSsoFileSchema]: strict
    objects, the refinements of the zod schemas.  [ssoConfigSchema] is the list of
    its issues on the resolved configuration.  The WHATWG URL parser is a
    parameter. *)

From S2P Require Import Prelude JsBase JsJson JsRegex PolicyValidate.
From Stdlib Require Import Ascii.
From Stdlib Require String.
Open Scope result_scope.

(** ** Names and hosts *)

Definition AlphaNum : re := Chr (fun a => is_alpha a || is_digit a).
Definition AlphaNumDash : re := Chr (fun a => is_alpha a || is_digit a || Ascii.eqb a "-"%char).

(** [r{0,n}] *)
Fixpoint upto (n : nat) (r : re) : re :=
  match n with O => Eps | S n' => Alt (Cat r (upto n' r)) Eps end.

Definition labelRegex : re := seq [AlphaNum; Opt (seq [upto 61 AlphaNumDash; AlphaNum]); Eol].

Definition isValidDnsName (val : string) : bool :=
  negb (String.length val =? 0)%nat && (String.length val <=? 253)%nat &&
  forallb (test labelRegex) (split_char "."%char val).

(** [/^[a-z0-9-]+$/] *)
Definition group_re : re :=
  seq [Plus (Chr (fun a => between 97 122 a || is_digit a || Ascii.eqb a "-"%char)); Eol].
Definition allowedGroupSchema (s : string) : bool := test group_re s.

Inductive SsoEndpointMode := GatewayOidc | AppOidc | ModeNone.

#[export] Instance SsoEndpointMode_eq_dec : EqDecision SsoEndpointMode.
Proof. solve_decision. Defined.

Definition mode_name (m : SsoEndpointMode) : string :=
  match m with GatewayOidc => "gateway-oidc" | AppOidc => "app-oidc" | ModeNone => "none" end.

Definition mode_of (s : string) : option SsoEndpointMode :=
  if String.eqb s "gateway-oidc" then Some GatewayOidc
  else if String.eqb s "app-oidc" then Some AppOidc
  else if String.eqb s "none" then Some ModeNone else None.

Record SsoEndpoint := mkEndpoint {
  ep_name : string;
  ep_host : string;
  ep_mode : SsoEndpointMode;
  ep_clientId : string;
  ep_protectedPathPrefixes : list string;
  ep_bypassPathPrefixes : list string;
  ep_redirectPath : string;
  ep_logoutPath : option string;
  ep_allowedGroups : option (list string);
}.

#[export] Instance SsoEndpoint_eq_dec : EqDecision SsoEndpoint.
Proof. solve_decision. Defined.

(** The raw file; [RawSsoFile] without its outer [sso] key. *)
Record RawSsoFile := mkRaw {
  rw_realm : string;
  rw_issuerHost : string;
  rw_issuer : option string;
  rw_endpoints : list SsoEndpoint;
}.

#[export] Instance RawSsoFile_eq_dec : EqDecision RawSsoFile.
Proof. solve_decision. Defined.

Record SsoConfig := mkConfig {
  cf_realm : string;
  cf_issuerHost : string;
  cf_issuer : string;
  cf_endpoints : list SsoEndpoint;
}.

(** ** Decoding *)

(** A strict object: no key outside [keys]. *)
Definition strict (keys : list string) (j : json) : option (list (string * json)) :=
  match j with
  | JObj l => if forallb (fun kv : string * json => bool_decide (kv.1 ∈ keys)) l then Some l else None
  | _ => None
  end.

Definition guard_str (p : string -> bool) (o : option string) : option string :=
  match o with Some s => if p s then Some s else None | None => None end.

(** An optional key: absent, or present with a value of the type. *)
Definition optional {A} (dec : json -> option A) (o : option json) : option (option A) :=
  match o with
  | None => Some None
  | Some j => match dec j with Some a => Some (Some a) | None => None end
  end.

Definition dec_str (p : string -> bool) (j : json) : option string := guard_str p (as_string (Some j)).

Fixpoint all_some {A B} (f : A -> option B) (l : list A) : option (list B) :=
  match l with
  | [] => Some []
  | a :: l' => match f a, all_some f l' with Some b, Some bs => Some (b :: bs) | _, _ => None end
  end.

Definition dec_list {A} (dec : json -> option A) (j : json) : option (list A) :=
  match j with JArr l => all_some dec l | _ => None end.

Definition dnsHostSchema (s : string) : bool := isValidDnsName s.
Definition pathPrefixSchema (s : string) : bool := starts_with "/" s.
Definition redirectPathSchema (s : string) : bool := String.eqb s EmptyString || starts_with "/" s.
Definition logoutPathSchema (s : string) : bool := redirectPathSchema s.
Definition nonempty_string (s : string) : bool := negb (String.eqb s EmptyString).
Definition any_string (s : string) : bool := true.

Definition endpoint_keys : list string :=
  ["name"; "host"; "mode"; "clientId"; "protectedPathPrefixes"; "bypassPathPrefixes"; "redirectPath";
   "logoutPath"; "allowedGroups"].

Definition rawSsoEndpointSchema (j : json) : option SsoEndpoint :=
  l ← strict endpoint_keys j;
  name ← map_get "name" l ≫= dec_str nonempty_string;
  host ← map_get "host" l ≫= dec_str dnsHostSchema;
  mode ← (map_get "mode" l ≫= dec_str any_string) ≫= mode_of;
  clientId ← map_get "clientId" l ≫= dec_str any_string;
  prot ← map_get "protectedPathPrefixes" l ≫= dec_list (dec_str pathPrefixSchema);
  bypass ← map_get "bypassPathPrefixes" l ≫= dec_list (dec_str pathPrefixSchema);
  redirect ← map_get "redirectPath" l ≫= dec_str redirectPathSchema;
  logout ← optional (dec_str logoutPathSchema) (map_get "logoutPath" l);
  groups ← optional (dec_list (dec_str allowedGroupSchema)) (map_get "allowedGroups" l);
  Some (mkEndpoint name host mode clientId prot bypass redirect logout groups).

(** ** URLs *)

(** What the source reads of a parsed URL. *)
Record Url := mkUrl { u_protocol : string; u_hostname : string; u_host : string; u_pathname : string }.

Fixpoint drop_trailing_slashes (s : string) : string :=
  match s with
  | EmptyString => EmptyString
  | String a s' =>
      match drop_trailing_slashes s' with
      | EmptyString => if Ascii.eqb a "/"%char then EmptyString else str1 a
      | t => String a t
      end
  end.

(** An issue of a schema: of a field (with zod's own message), or of a refinement. *)
Inductive Issue := FieldIssue (path : list string) | CustomIssue (path : list string) (message : string).

Inductive ResolveError :=
| BadBaseDomain (baseDomain : string)
| RawInvalid
| MixedForms (fqdnForm : bool) (offenders : list string)
| Invalid (issues : list Issue).

Section schema.
(** [new URL(s)]; [None] when it throws. *)
Context (parseUrl : string -> option Url).

Definition httpsUrlSchema (s : string) : bool :=
  match parseUrl s with Some u => String.eqb (u_protocol u) "https:" | None => false end.

Definition rawSsoFileSchema (j : json) : option RawSsoFile :=
  outer ← strict ["sso"] j;
  l ← map_get "sso" outer ≫= strict ["realm"; "issuerHost"; "issuer"; "endpoints"];
  realm ← map_get "realm" l ≫= dec_str nonempty_string;
  issuerHost ← map_get "issuerHost" l ≫= dec_str dnsHostSchema;
  issuer ← optional (dec_str httpsUrlSchema) (map_get "issuer" l);
  endpoints ← map_get "endpoints" l ≫= dec_list rawSsoEndpointSchema;
  Some (mkRaw realm issuerHost issuer endpoints).

Definition blank (s : string) : bool := String.eqb (trim s) EmptyString.
Definition blank_opt (o : option string) : bool := match o with Some s => blank s | None => true end.

Definition custom (b : bool) (path message : string) : list Issue :=
  if b then [CustomIssue [path] message] else [].

Definition quoted (s : string) : string := dq +:+ s +:+ dq.

Definition group_issues (e : SsoEndpoint) (groups : list string) : list Issue :=
  if negb (bool_decide (ep_mode e = GatewayOidc)) then
    custom true "allowedGroups" ("Endpoint " +:+ quoted (ep_name e) +:+ " with mode " +:+ quoted (mode_name (ep_mode e)) +:+
      " must not set allowedGroups (gateway-oidc only)")
  else if (length groups =? 0)%nat then
    custom true "allowedGroups" ("Endpoint " +:+ quoted (ep_name e) +:+
      " allowedGroups must not be empty (omit the field for no group check)")
  else
    custom (negb (length (set_of groups) =? length groups)%nat) "allowedGroups"
      ("Endpoint " +:+ quoted (ep_name e) +:+ " allowedGroups must not contain duplicates") ++
    custom (negb (bool_decide ("admins" ∈ groups))) "allowedGroups"
      ("Endpoint " +:+ quoted (ep_name e) +:+ " allowedGroups must include " +:+ quoted "admins" +:+ " (anti lock-out)").

(** The issues of [ssoEndpointSchema]'s refinement. *)
Definition endpoint_issues (e : SsoEndpoint) : list Issue :=
  custom (bool_decide (ep_mode e ∈ [GatewayOidc; AppOidc]) && blank (ep_clientId e)) "clientId"
    ("Endpoint " +:+ quoted (ep_name e) +:+ " with mode " +:+ quoted (mode_name (ep_mode e)) +:+
     " must have a non-empty clientId") ++
  match ep_allowedGroups e with Some g => group_issues e g | None => [] end ++
  (if bool_decide (ep_mode e = GatewayOidc) then
     custom (length (ep_protectedPathPrefixes e) =? 0)%nat "protectedPathPrefixes"
       ("Gateway-OIDC endpoint " +:+ quoted (ep_name e) +:+ " must have non-empty protectedPathPrefixes") ++
     custom (blank (ep_redirectPath e)) "redirectPath"
       ("Gateway-OIDC endpoint " +:+ quoted (ep_name e) +:+ " must have a non-empty redirectPath") ++
     custom (blank_opt (ep_logoutPath e)) "logoutPath"
       ("Gateway-OIDC endpoint " +:+ quoted (ep_name e) +:+ " must have a non-empty logoutPath")
   else []).

(** The loop of [ssoConfigSchema] over the names, from index [i]. *)
Fixpoint duplicate_names (i : nat) (seen : list string) (l : list SsoEndpoint) : list Issue :=
  match l with
  | [] => []
  | e :: l' =>
      if bool_decide (ep_name e ∈ seen) then
        CustomIssue ["endpoints"; show i; "name"] ("Duplicate endpoint name " +:+ quoted (ep_name e)) ::
        duplicate_names (S i) seen l'
      else duplicate_names (S i) (ep_name e :: seen) l'
  end.

Definition issuer_issues (c : SsoConfig) : list Issue :=
  match parseUrl (cf_issuer c) with
  | None => []
  | Some u =>
      let expected := "/realms/" +:+ cf_realm c in
      custom (negb (String.eqb (u_hostname u) (cf_issuerHost c)) && negb (String.eqb (u_host u) (cf_issuerHost c)))
        "issuer" ("Issuer host " +:+ quoted (u_host u) +:+ " does not match issuerHost " +:+ quoted (cf_issuerHost c)) ++
      custom (negb (String.eqb (u_pathname u) expected) &&
              negb (String.eqb (drop_trailing_slashes (u_pathname u)) expected))
        "issuer" ("Issuer path " +:+ quoted (u_pathname u) +:+ " does not match expected path " +:+ quoted expected)
  end.

(** The issues of [ssoConfigSchema] on typed data: the field schemas first, the
    refinement of the object only when they all hold; likewise per endpoint. *)
Definition endpoint_fields_ok (e : SsoEndpoint) : bool :=
  nonempty_string (ep_name e) && dnsHostSchema (ep_host e) &&
  forallb pathPrefixSchema (ep_protectedPathPrefixes e) && forallb pathPrefixSchema (ep_bypassPathPrefixes e) &&
  redirectPathSchema (ep_redirectPath e) &&
  match ep_logoutPath e with Some p => logoutPathSchema p | None => true end &&
  match ep_allowedGroups e with Some g => forallb allowedGroupSchema g | None => true end.

Definition under (i : nat) (x : Issue) : Issue :=
  match x with
  | FieldIssue p => FieldIssue ("endpoints" :: show i :: p)
  | CustomIssue p m => CustomIssue ("endpoints" :: show i :: p) m
  end.

Fixpoint endpoints_issues (i : nat) (l : list SsoEndpoint) : list Issue :=
  match l with
  | [] => []
  | e :: l' =>
      map (under i) (if endpoint_fields_ok e then endpoint_issues e else [FieldIssue []]) ++
      endpoints_issues (S i) l'
  end.

Definition field_issue (ok : bool) (path : string) : list Issue := if ok then [] else [FieldIssue [path]].

Definition field_issues (c : SsoConfig) : list Issue :=
  field_issue (nonempty_string (cf_realm c)) "realm" ++
  field_issue (dnsHostSchema (cf_issuerHost c)) "issuerHost" ++
  field_issue (httpsUrlSchema (cf_issuer c)) "issuer" ++
  endpoints_issues 0 (cf_endpoints c).

Definition ssoConfigSchema (c : SsoConfig) : list Issue :=
  match field_issues c with
  | [] => issuer_issues c ++ duplicate_names 0 [] (cf_endpoints c)
  | issues => issues
  end.

Definition dotted (h : string) : bool := str_has "."%char h.

Definition qualify (baseDomain host : string) : string :=
  if dotted host then host else host +:+ "." +:+ baseDomain.

Definition qualified_endpoint (baseDomain : string) (e : SsoEndpoint) : SsoEndpoint :=
  mkEndpoint (ep_name e) (qualify baseDomain (ep_host e)) (ep_mode e) (ep_clientId e)
    (ep_protectedPathPrefixes e) (ep_bypassPathPrefixes e) (ep_redirectPath e) (ep_logoutPath e)
    (ep_allowedGroups e).

Fixpoint endpoint_hosts (i : nat) (l : list SsoEndpoint) : list (string * string) :=
  match l with
  | [] => []
  | e :: l' => ("endpoints." +:+ show i +:+ ".host", ep_host e) :: endpoint_hosts (S i) l'
  end.

Definition hosts (r : RawSsoFile) : list (string * string) :=
  ("issuerHost", rw_issuerHost r) :: endpoint_hosts 0 (rw_endpoints r).

Definition has_issuer (r : RawSsoFile) : bool := match rw_issuer r with Some _ => true | None => false end.

(** Both forms in one file: the paths that do not have the form of the file. *)
Definition mixed_forms (r : RawSsoFile) : option (list string) :=
  let dots := List.filter (fun h : string * string => dotted h.2) (hosts r) in
  if has_issuer r then
    if (length dots =? length (hosts r))%nat then None
    else Some (List.filter (fun h : string * string => negb (dotted h.2)) (hosts r)).*1
  else if (length dots =? 0)%nat then None else Some dots.*1.

Definition resolved_config (r : RawSsoFile) (baseDomain : string) : SsoConfig :=
  let fqdnIssuerHost := qualify baseDomain (rw_issuerHost r) in
  mkConfig (rw_realm r) fqdnIssuerHost
    (default ("https://" +:+ fqdnIssuerHost +:+ "/realms/" +:+ rw_realm r) (rw_issuer r))
    (map (qualified_endpoint baseDomain) (rw_endpoints r)).

Definition resolveSsoFile (raw : json) (baseDomain : string) : result ResolveError SsoConfig :=
  if negb (isValidDnsName baseDomain) || negb (dotted baseDomain) then inl (BadBaseDomain baseDomain)
  else
    match rawSsoFileSchema raw with
    | None => inl RawInvalid
    | Some r =>
        match mixed_forms r with
        | Some offenders => inl (MixedForms (has_issuer r) offenders)
        | None =>
            let c := resolved_config r baseDomain in
            match ssoConfigSchema c with
            | [] => inr c
            | issues => inl (Invalid issues)
            end
        end
    end.
End schema.

(** ** What a resolved configuration guarantees *)

Lemma custom_nil b p m : custom b p m = [] <-> b = false.
Proof. apply if_nil. Qed.

Lemma duplicate_names_nil i seen l :
  duplicate_names i seen l = [] -> NoDup (map ep_name l) /\ forall e, e ∈ l -> ep_name e ∉ seen.
Proof.
  revert i seen. induction l as [|e l IH]; intros i seen; simpl.
  - split; [constructor|]. by intros e ?%not_elem_of_nil.
  - case_bool_decide as Hs; [done|]. intros [HN Hl]%IH. split.
    + constructor; [|done]. intros (e' & He & E)%elem_of_map. apply (Hl e' He). rewrite E. left.
    + intros e' [->|He]%elem_of_cons; [done|]. intros Hin. apply (Hl e' He). by right.
Qed.

Lemma endpoints_issues_nil i l :
  endpoints_issues i l = [] -> forall e, e ∈ l -> endpoint_fields_ok e = true /\ endpoint_issues e = [].
Proof.
  revert i. induction l as [|e l IH]; intros i; simpl; [by intros _ e ?%not_elem_of_nil|].
  intros [Hm Hl]%app_nil e' [->|He]%elem_of_cons; [|by eapply IH].
  destruct (endpoint_fields_ok e); [|done]. split; [done|]. by destruct (endpoint_issues e).
Qed.

(** What the group rules of an endpoint say. *)
Lemma group_issues_nil e g :
  group_issues e g = [] ->
  ep_mode e = GatewayOidc /\ g <> [] /\ NoDup g /\ "admins" ∈ g.
Proof.
  unfold group_issues. case_bool_decide as Hm; [|done]. simpl. destruct g as [|x g]; [done|].
  cbn [length Nat.eqb]. intros [Hd Ha]%app_nil. apply custom_nil in Hd, Ha.
  apply negb_false_iff in Hd, Ha. apply Nat.eqb_eq in Hd.
  split_and!; [done|done|by apply set_of_length|by apply bool_decide_eq_true in Ha].
Qed.

Section resolved.
Context (parseUrl : string -> option Url).

Lemma resolved_valid raw baseDomain c :
  resolveSsoFile parseUrl raw baseDomain = inr c -> ssoConfigSchema parseUrl c = [].
Proof.
  unfold resolveSsoFile. destruct (_ || _); [done|].
  destruct (rawSsoFileSchema parseUrl raw) as [r|]; [|done]. destruct (mixed_forms r); [done|].
  destruct (ssoConfigSchema _ _) eqn:E; [|done]. by intros [= <-].
Qed.

Lemma config_valid_parts c :
  ssoConfigSchema parseUrl c = [] ->
  NoDup (map ep_name (cf_endpoints c)) /\
  forall e, e ∈ cf_endpoints c -> endpoint_fields_ok e = true /\ endpoint_issues e = [].
Proof.
  unfold ssoConfigSchema. destruct (field_issues parseUrl c) eqn:Ef; [|done].
  intros [_ E]%app_nil. split; [by eapply duplicate_names_nil|].
  unfold field_issues in Ef. rewrite !app_nil in Ef. destruct Ef as (_ & _ & _ & Ef).
  by eapply endpoints_issues_nil.
Qed.

(** A configuration that is served has one endpoint per name, hosts that
    are DNS names, and never locks the administrators out: a group list, where
    there is one, is non-empty, without duplicates and contains [admins], and
    only a gateway endpoint has one. *)
Theorem resolved_groups raw baseDomain c e g :
  resolveSsoFile parseUrl raw baseDomain = inr c ->
  NoDup (map ep_name (cf_endpoints c)) /\
  (e ∈ cf_endpoints c -> isValidDnsName (ep_host e) = true /\
     (ep_allowedGroups e = Some g ->
        ep_mode e = GatewayOidc /\ g <> [] /\ NoDup g /\ "admins" ∈ g /\
        forall x, x ∈ g -> allowedGroupSchema x = true)).
Proof.
  intros Hc%resolved_valid%config_valid_parts. destruct Hc as [HN Hall]. split; [done|].
  intros He. destruct (Hall e He) as [Ho Hi]. unfold endpoint_fields_ok in Ho.
  rewrite !andb_true_iff in Ho. destruct Ho as ((((((_ & Hh) & _) & _) & _) & _) & Hgr).
  split; [done|]. intros Eg. rewrite Eg in Hgr. unfold endpoint_issues in Hi. rewrite Eg in Hi.
  rewrite !app_nil in Hi. destruct Hi as (_ & Hi & _). apply group_issues_nil in Hi as (? & ? & ? & ?).
  split_and!; [done..|]. by rewrite forallb_elem in Hgr.
Qed.
End resolved.

(** A small configuration in label form, and a URL parser that knows its issuer. *)
Definition demo_url (s : string) : option Url :=
  if String.eqb s "https://sso.example.org/realms/beluga"
  then Some (mkUrl "https:" "sso.example.org" "sso.example.org" "/realms/beluga") else None.

Definition demo_endpoint (groups : list string) : json :=
  JObj [("name", JStr "flink"); ("host", JStr "flink"); ("mode", JStr "gateway-oidc");
        ("clientId", JStr "apisix-gateway"); ("protectedPathPrefixes", JStrs ["/*"]);
        ("bypassPathPrefixes", JStrs []); ("redirectPath", JStr "/.apisix/redirect");
        ("logoutPath", JStr "/logout"); ("allowedGroups", JStrs groups)].

Definition demo_file (groups : list string) : json :=
  JObj [("sso", JObj [("realm", JStr "beluga"); ("issuerHost", JStr "sso");
                      ("endpoints", JArr [demo_endpoint groups])])].

Definition demo_resolved (groups : list string) : SsoEndpoint :=
  mkEndpoint "flink" "flink.example.org" GatewayOidc "apisix-gateway" ["/*"] [] "/.apisix/redirect"
    (Some "/logout") (Some groups).

Definition demo_config : SsoConfig :=
  mkConfig "beluga" "sso.example.org" "https://sso.example.org/realms/beluga"
    [demo_resolved ["admins"; "engineers"]].

Lemma resolved_groups_witness :
  resolveSsoFile demo_url (demo_file ["admins"; "engineers"]) "example.org" = inr demo_config /\
  "admins" ∈ ["admins"; "engineers"].
Proof.
  split; [vm_compute; reflexivity|].
  destruct (resolved_groups demo_url (demo_file ["admins"; "engineers"]) "example.org" demo_config
    (demo_resolved ["admins"; "engineers"]) ["admins"; "engineers"]) as [_ H]; [vm_compute; reflexivity|].
  destruct H as [_ Hg]; [left|]. apply Hg. reflexivity.
Defined.
