(* ===== verification/SsoEdit.v ===== *)
(** * [domain-api/src/sso-change/editEngine.ts]: the server-enforced edit

    [validatePatch] and [buildChange].  The YAML Document API, SHA-256 and the
    diff are third-party: the class [EditLib].  [edit] stands for the calls that
    replace the [allowedGroups] node of one endpoint in a document; nothing is
    assumed about it, since [buildChange] re-reads and compares what it did. *)

From S2P Require Import Prelude JsBase JsJson JsRegex PolicyValidate SsoSchema.
From Stdlib Require Import Ascii.
From Stdlib Require String.
Open Scope result_scope.

Definition SSO_FILE_PATH : string := "gitops/values/sso.yaml".
Definition EDITABLE_ENDPOINTS : list string := ["flink"; "filer"].
Definition REQUIRED_GROUP : string := "admins".

Inductive RejectionCode := PATCH_REJECTED | NO_EFFECTIVE_CHANGE.

#[export] Instance RejectionCode_eq_dec : EqDecision RejectionCode.
Proof. solve_decision. Defined.

Record ChangeRejection := mkRejection { rej_code : RejectionCode; rej_message : string }.

Record Patch := mkPatch { pa_endpoint : string; pa_allowedGroups : list json }.

Record BuiltChange := mkChangeBuilt {
  bc_endpoint : string;
  bc_before : option (list string);
  bc_after : list string;
  bc_editedText : string;
  bc_diff : string;
  bc_payloadSha256 : string;
}.

Definition reject {A} (m : string) : result ChangeRejection A := inl (mkRejection PATCH_REJECTED m).

(** ** [validatePatch] *)

(** One entry of the list, at index [i]. *)
Definition validateEntry (knownGroups : list string) (i : nat) (entry : json) : result ChangeRejection string :=
  match entry with
  | JStr s =>
      if negb (allowedGroupSchema s) then
        reject ("allowedGroups[" +:+ show i +:+ "]: " +:+ dq +:+ s +:+ dq +:+ " must match [a-z0-9-]+")
      else if negb (bool_decide (s ∈ knownGroups)) then
        reject ("allowedGroups[" +:+ show i +:+ "]: unknown group " +:+ dq +:+ s +:+ dq +:+ " (not in policies/groups.yaml)")
      else inr s
  | _ => reject ("allowedGroups[" +:+ show i +:+ "]: must be a string")
  end.

Fixpoint validateEntries (knownGroups : list string) (i : nat) (l : list json)
    : result ChangeRejection (list string) :=
  match l with
  | [] => inr []
  | entry :: l' =>
      let! s := validateEntry knownGroups i entry in
      let! rest := validateEntries knownGroups (S i) l' in
      inr (s :: rest)
  end.

Definition validatePatch (p : Patch) (knownGroups : list string) : result ChangeRejection (list string) :=
  if negb (bool_decide (pa_endpoint p ∈ EDITABLE_ENDPOINTS)) then
    reject ("endpoint: " +:+ dq +:+ pa_endpoint p +:+ dq +:+ " is not editable (allowed: " +:+
            join ", " EDITABLE_ENDPOINTS +:+ ")")
  else if (length (pa_allowedGroups p) =? 0)%nat then reject "allowedGroups: must be a non-empty list"
  else
    let! groups := validateEntries knownGroups 0 (pa_allowedGroups p) in
    if negb (length (set_of groups) =? length groups)%nat then reject "allowedGroups: must not contain duplicates"
    else if negb (bool_decide (REQUIRED_GROUP ∈ groups)) then
      reject ("allowedGroups: must include " +:+ dq +:+ REQUIRED_GROUP +:+ dq +:+ " (anti lock-out)")
    else inr groups.

Definition sameSet (a b : list string) : bool :=
  (length a =? length b)%nat && forallb (fun x => bool_decide (x ∈ b)) a.

(** ** [buildChange] *)

(** [endpoints.find((e) => e.name === name)] *)
Definition find_endpoint (name : string) (r : RawSsoFile) : option SsoEndpoint :=
  List.find (fun e => String.eqb (ep_name e) name) (rw_endpoints r).

Definition with_groups (g : list string) (e : SsoEndpoint) : SsoEndpoint :=
  mkEndpoint (ep_name e) (ep_host e) (ep_mode e) (ep_clientId e) (ep_protectedPathPrefixes e)
    (ep_bypassPathPrefixes e) (ep_redirectPath e) (ep_logoutPath e) (Some g).

(** The assignment to the first endpoint of that name. *)
Fixpoint set_groups (name : string) (g : list string) (l : list SsoEndpoint) : list SsoEndpoint :=
  match l with
  | [] => []
  | e :: l' => if String.eqb (ep_name e) name then with_groups g e :: l' else e :: set_groups name g l'
  end.

Definition expected_file (r : RawSsoFile) (name : string) (g : list string) : RawSsoFile :=
  mkRaw (rw_realm r) (rw_issuerHost r) (rw_issuer r) (set_groups name g (rw_endpoints r)).

(** What [buildChange] throws: a rejection, or an error of a library. *)
Inductive BuildError := BuildRejected (r : ChangeRejection) | Thrown (m : string).

Definition as_build {A} (r : result ChangeRejection A) : result BuildError A :=
  match r with inl e => inl (BuildRejected e) | inr a => inr a end.

Definition rejected {A} (m : string) : result BuildError A := as_build (reject m).

(** The third-party code the edit relies on. *)
Class EditLib := {
  el_doc : Type;
  (** [yaml.parseDocument]; [None] when the document has errors. *)
  parseDocument : string -> option el_doc;
  toJS : el_doc -> json;
  (** [doc.toString({ lineWidth: 0 })] *)
  render : el_doc -> string;
  (** [yaml.parse]; [None] when it throws. *)
  yamlParse : string -> option json;
  edit : el_doc -> string -> list string -> result string el_doc;
  sha256 : string -> string;
  sha1 : string -> string;
  createTwoFilesPatch : string -> string -> string;
  (** [new URL(s)]; [None] when it throws. *)
  parseUrl : string -> option Url;
}.

Section build.
Context `{EditLib}.

Definition payloadSha256 (p : Patch) : string :=
  sha256 (json_text (JObj [("endpoint", JStr (pa_endpoint p)); ("allowedGroups", JArr (pa_allowedGroups p))])).

Fixpoint after_equals (s : string) : string :=
  match s with
  | String a s' => if Ascii.eqb a "="%char then after_equals s' else s
  | EmptyString => s
  end.

(** [diff.replace(/^=+\n/, "")] *)
Definition strip_separator (s : string) : string :=
  match s with
  | String a s' =>
      if Ascii.eqb a "="%char then
        match after_equals s' with
        | String b t => if Ascii.eqb b "010"%char then t else s
        | EmptyString => s
        end
      else s
  | EmptyString => s
  end.

Definition buildChange (baseText baseDomain : string) (groupNames : list string) (patch : Patch)
    : result BuildError BuiltChange :=
  let! after := as_build (validatePatch patch groupNames) in
  match parseDocument baseText with
  | None => rejected "base sso.yaml is not valid YAML"
  | Some d =>
      match rawSsoFileSchema parseUrl (toJS d) with
      | None => rejected "base sso.yaml does not satisfy the SSO schema"
      | Some baseParsed =>
          match find_endpoint (pa_endpoint patch) baseParsed with
          | None => rejected ("endpoint: " +:+ dq +:+ pa_endpoint patch +:+ dq +:+ " does not exist in sso.yaml")
          | Some endpointObj =>
              let before := ep_allowedGroups endpointObj in
              if match before with Some b => sameSet b after | None => false end then
                inl (BuildRejected (mkRejection NO_EFFECTIVE_CHANGE "allowedGroups is unchanged (same set of groups)"))
              else if negb (String.eqb (render d) baseText) then
                rejected "sso.yaml formatting cannot be preserved by the editor; refusing to rewrite it"
              else
                let! d' := (match edit d (pa_endpoint patch) after with
                            | inl m => rejected m
                            | inr d' => inr d'
                            end) in
                let editedText := render d' in
                match yamlParse editedText with
                | None => inl (Thrown "edited sso.yaml does not parse")
                | Some editedObj =>
                    match rawSsoFileSchema parseUrl editedObj with
                    | None => rejected "edited sso.yaml does not satisfy the SSO schema"
                    | Some editedParsed =>
                        if negb (bool_decide (expected_file baseParsed (pa_endpoint patch) after = editedParsed)) then
                          rejected ("the edit changed something other than allowedGroups of " +:+ dq +:+
                                    pa_endpoint patch +:+ dq)
                        else
                          match resolveSsoFile parseUrl editedObj baseDomain with
                          | inl _ => rejected "edited sso.yaml violates the SSO rules"
                          | inr _ =>
                              inr (mkChangeBuilt (pa_endpoint patch) before after editedText
                                     (strip_separator (createTwoFilesPatch baseText editedText))
                                     (payloadSha256 (mkPatch (pa_endpoint patch) (map JStr after))))
                          end
                    end
                end
          end
      end
  end.
End build.

(** ** [validatePatch] accepts exactly the well-formed lists *)

Lemma validateEntry_inr known i j s :
  validateEntry known i j = inr s <-> j = JStr s /\ allowedGroupSchema s = true /\ s ∈ known.
Proof.
  unfold validateEntry, reject. destruct j as [|b|n|s'|l|l];
    try (split; [done|by intros (? & _ & _)]).
  destruct (allowedGroupSchema s') eqn:E; cbn [negb].
  - case_bool_decide as Hk; cbn [negb].
    + split; [by intros [= <-]|]. by intros ([= <-] & _ & _).
    + split; [done|]. intros ([= ->] & _ & Hin). done.
  - split; [done|]. intros ([= ->] & Hs & _). congruence.
Qed.

Lemma validateEntries_inr known i l groups :
  validateEntries known i l = inr groups <->
  l = map JStr groups /\ forall s, s ∈ groups -> allowedGroupSchema s = true /\ s ∈ known.
Proof.
  revert i groups. induction l as [|j l IH]; intros i groups; simpl.
  - split; [intros [= <-]; split; [done|by intros s ?%not_elem_of_nil]|].
    intros [E _]. by destruct groups.
  - rewrite rbind_inr. setoid_rewrite validateEntry_inr. setoid_rewrite rbind_inr. setoid_rewrite IH. split.
    + intros (s & (-> & Hs & Hk) & rest & (-> & Hr) & [= <-]). split; [done|]. set_solver.
    + destruct groups as [|s rest]; [by intros []|]. simpl. intros [[= -> ->] Hall].
      exists s. split; [split; [done|]; apply Hall; left|]. exists rest. split; [|done].
      split; [done|]. intros x Hx. apply Hall. by right.
Qed.

(** The server accepts a patch exactly when it names an editable endpoint
    and a list of distinct known group names that keeps the administrators in;
    the accepted list is the submitted one, in its order. *)
Theorem validatePatch_iff p known groups :
  validatePatch p known = inr groups <->
  pa_endpoint p ∈ EDITABLE_ENDPOINTS /\ pa_allowedGroups p = map JStr groups /\
  NoDup groups /\ REQUIRED_GROUP ∈ groups /\
  forall s, s ∈ groups -> allowedGroupSchema s = true /\ s ∈ known.
Proof.
  unfold validatePatch, reject. case_bool_decide as He; simpl; [|naive_solver].
  destruct (pa_allowedGroups p) as [|j l] eqn:El.
  { simpl. split; [done|]. intros (_ & E & _ & Ha & _). destruct groups; [|done]. by apply not_elem_of_nil in Ha. }
  change ((length (j :: l) =? 0)%nat) with false. cbv iota. rewrite rbind_inr.
  setoid_rewrite validateEntries_inr. split.
  - intros (gs & (-> & Hall) & Hgs). destruct (length (set_of gs) =? length gs)%nat eqn:Ed; simpl in Hgs; [|done].
    case_bool_decide as Ha; simpl in Hgs; [|done]. injection Hgs as <-.
    split_and!; [done..| |done|done]. by apply Nat.eqb_eq, set_of_length in Ed.
  - intros (_ & E & HN & Ha & Hall). exists groups. split; [done|].
    rewrite (proj2 (Nat.eqb_eq _ _)) by (by apply set_of_length). simpl. by rewrite bool_decide_true.
Qed.

(** ** [buildChange] changes one field of one endpoint *)

Lemma set_groups_others name g l e :
  ep_name e <> name -> e ∈ set_groups name g l <-> e ∈ l.
Proof.
  intros Hne. induction l as [|a l IH]; [done|]. simpl. rewrite elem_of_cons.
  destruct (String.eqb_spec (ep_name a) name) as [E|E].
  - rewrite elem_of_cons. split; (intros [->|?]; [|by right]); [|congruence].
    exfalso. apply Hne. by rewrite <-E.
  - rewrite elem_of_cons, IH. done.
Qed.

Lemma set_groups_names name g l : map ep_name (set_groups name g l) = map ep_name l.
Proof.
  induction l as [|a l IH]; [done|]. simpl. destruct (String.eqb _ _); simpl; [done|]. by rewrite IH.
Qed.

Lemma find_set_groups name g l e :
  List.find (fun e => String.eqb (ep_name e) name) l = Some e ->
  List.find (fun e => String.eqb (ep_name e) name) (set_groups name g l) = Some (with_groups g e).
Proof.
  induction l as [|a l IH]; [done|]. simpl. destruct (String.eqb (ep_name a) name) eqn:E.
  - intros [= ->]. simpl. by rewrite E.
  - simpl. rewrite E. apply IH.
Qed.

(** C8: whatever the YAML library does, a change that is built differs from the
    base file in nothing but the [allowedGroups] of the named endpoint: read back
    from its text, the edited file has the validated list there, the same realm,
    issuer and endpoints, and it resolves; the base rendered unchanged. *)
Theorem buildChange_sound `{EditLib} baseText baseDomain groupNames patch c :
  buildChange baseText baseDomain groupNames patch = inr c ->
  validatePatch patch groupNames = inr (bc_after c) /\
  exists d base obj edited cfg,
    parseDocument baseText = Some d /\ render d = baseText /\ rawSsoFileSchema parseUrl (toJS d) = Some base /\
    yamlParse (bc_editedText c) = Some obj /\ rawSsoFileSchema parseUrl obj = Some edited /\
    resolveSsoFile parseUrl obj baseDomain = inr cfg /\
    rw_realm edited = rw_realm base /\ rw_issuerHost edited = rw_issuerHost base /\
    rw_issuer edited = rw_issuer base /\ map ep_name (rw_endpoints edited) = map ep_name (rw_endpoints base) /\
    (exists e, find_endpoint (pa_endpoint patch) base = Some e /\ bc_before c = ep_allowedGroups e /\
       find_endpoint (pa_endpoint patch) edited = Some (with_groups (bc_after c) e)) /\
    (forall e, ep_name e <> pa_endpoint patch -> e ∈ rw_endpoints edited <-> e ∈ rw_endpoints base).
Proof.
  unfold buildChange. rewrite rbind_inr. intros (after & Hval & Hb). unfold as_build in Hval.
  destruct (validatePatch patch groupNames) as [|a] eqn:Ev; [done|]. injection Hval as ->.
  destruct (parseDocument baseText) as [d|] eqn:Ed; [|done].
  destruct (rawSsoFileSchema parseUrl (toJS d)) as [base|] eqn:Eb; [|done].
  destruct (find_endpoint _ base) as [e|] eqn:Ee; [|done].
  destruct (match ep_allowedGroups e with Some b => sameSet b after | None => false end); [done|].
  destruct (String.eqb_spec (render d) baseText) as [Er|]; [|done]. simpl in Hb.
  rewrite rbind_inr in Hb. destruct Hb as (d' & _ & Hb).
  destruct (yamlParse (render d')) as [obj|] eqn:Ey; [|done].
  destruct (rawSsoFileSchema parseUrl obj) as [edited|] eqn:Ed'; [|done].
  case_bool_decide as Hx; simpl in Hb; [|done].
  destruct (resolveSsoFile parseUrl obj baseDomain) as [|cfg] eqn:Ec; [done|]. injection Hb as <-. simpl.
  split; [done|]. exists d, base, obj, edited, cfg. subst edited.
  split_and!; try done; simpl.
  - apply set_groups_names.
  - exists e. split_and!; [done..|]. unfold find_endpoint in *. simpl. by apply find_set_groups.
  - intros e' He'. by apply set_groups_others.
Qed.

(** A document type whose text is the group list of one endpoint. *)
Definition demo_lib : EditLib :=
  {| el_doc := list string;
     parseDocument s := Some (split_char ","%char s);
     toJS := demo_file;
     render := join ",";
     yamlParse s := Some (demo_file (split_char ","%char s));
     edit _ _ g := inr g;
     sha256 s := s;
     sha1 s := s;
     createTwoFilesPatch a b := "--- " +:+ a +:+ lf +:+ "+++ " +:+ b;
     parseUrl := demo_url |}.

Definition demo_patch : Patch := mkPatch "flink" [JStr "admins"; JStr "engineers"].

Lemma buildChange_sound_witness :
  exists c, @buildChange demo_lib "admins" "example.org" ["admins"; "engineers"] demo_patch = inr c /\
    validatePatch demo_patch ["admins"; "engineers"] = inr (bc_after c).
Proof.
  eexists. split; [vm_compute; reflexivity|].
  edestruct (@buildChange_sound demo_lib "admins" "example.org" ["admins"; "engineers"] demo_patch) as [H _];
    [vm_compute; reflexivity|]. exact H.
Defined.
