(* ===== verification/Config.v ===== *)
(** * [domain-api/src/config.ts]

    The settings of the server, read from its environment.  A value that is not
    acceptable is a [ConfigError]: [inl] with its message.  The WHATWG URL parser,
    [isIP] and the file system of the host are parameters; [Number] of a text that
    is not an integer may be taken as [NaN], which the checks refuse alike. *)

From S2P Require Import Prelude JsBase JsRegex JsText JsJson JsLib PolicyValidate SsoSchema HttpClient.
From Stdlib Require Import Ascii.
From Stdlib Require String.
Open Scope Z_scope.
Open Scope result_scope.

(** ** The host *)

Definition Env : Type := string -> option string.

Record WebUrl := mkWebUrl {
  w_protocol : string;
  w_username : string;
  w_password : string;
  w_hostname : string;
  w_port : string;
  w_pathname : string;
  w_search : string;
  w_hash : string;
  w_origin : string;
}.

Class Host := {
  (** [new URL(s)]; [None] when it throws *)
  new_URL : string -> option WebUrl;
  (** [new URL(path, base)] *)
  new_URL_at : string -> string -> option WebUrl;
  isIP : string -> bool;
  existsSync : string -> bool;
  (** [fs.accessSync(path, R_OK)] does not throw *)
  accessSync : string -> bool;
  (** [fs.readFileSync(path)]; [None] when it throws *)
  readFileSync : string -> option string;
  (** [statSync(path)]; [None] when it throws *)
  statSync : string -> option FileStat;
  (** the path of gitops/values/sso.yaml next to the running package *)
  bundled_sso_yaml : string;
  (** [path.resolve(path.dirname(p), rel)] *)
  path_beside : string -> string -> string;
  (** the text is a private key [createPrivateKey] accepts *)
  isPrivateKey : string -> bool;
}.

(** ** Reading the environment *)

(** [env[name]?.trim()], and [""] taken as unset *)
Definition trimmed (env : Env) (name : string) : option string := trim <$> env name.

Definition present (v : option string) : option string :=
  match v with Some s => if String.eqb s EmptyString then None else Some s | None => None end.

Definition isProduction (env : Env) : bool := bool_decide (env "NODE_ENV" = Some "production").

Section config.
Context `{JsLib} `{Host}.

Definition intEnv (env : Env) (name : string) (fallback min max : Z) : result string Z :=
  match present (trimmed env name) with
  | None => inr fallback
  | Some raw =>
      match Number raw with
      | Fin value =>
          if (value <? min) || (max <? value)
          then inl (name +:+ " must be an integer between " +:+ pretty min +:+ " and " +:+ pretty max)
          else inr value
      | _ => inl (name +:+ " must be an integer between " +:+ pretty min +:+ " and " +:+ pretty max)
      end
  end.

Definition nonempty (s : string) : bool := negb (String.eqb s EmptyString).

Definition has_credentials (u : WebUrl) : bool := nonempty (w_username u) || nonempty (w_password u).

(** A URL with a path, a query or a fragment. *)
Definition has_location (u : WebUrl) : bool :=
  (negb (String.eqb (w_pathname u) "/") && nonempty (w_pathname u)) || nonempty (w_search u) || nonempty (w_hash u).

(** ** Flink *)

Record FlinkAdapterConfig := mkFlinkConfig {
  fc_baseUrl : string;
  fc_timeoutMs : Z;
  fc_jobNamePrefix : string;
  fc_cacheTtlMs : Z;
  fc_snapshotBudgetMs : Z;
  fc_maxConcurrency : Z;
  fc_maxQueue : Z;
}.

Definition DEFAULT_FLINK_TIMEOUT_MS : Z := 2000.
Definition MAX_TIMEOUT_MS : Z := 30000.
Definition DEFAULT_FLINK_CACHE_TTL_MS : Z := 5000.
Definition MIN_CACHE_TTL_MS : Z := 1000.
Definition DEFAULT_FLINK_SNAPSHOT_BUDGET_MS : Z := 5000.
Definition DEFAULT_FLINK_MAX_CONCURRENCY : Z := 8.
Definition DEFAULT_FLINK_MAX_QUEUE : Z := 64.
Definition DEFAULT_FLINK_JOB_NAME_PREFIX : string := "beluga-".

Definition flink_url (raw : string) : result string WebUrl :=
  match new_URL raw with
  | None => inl "BELUGA_FLINK_REST_URL is not a valid URL"
  | Some url =>
      if negb (String.eqb (w_protocol url) "http:") && negb (String.eqb (w_protocol url) "https:")
      then inl "BELUGA_FLINK_REST_URL must use http or https"
      else if has_credentials url then inl "BELUGA_FLINK_REST_URL must not embed credentials"
      else if has_location url then inl "BELUGA_FLINK_REST_URL must be a bare origin (no path, query or fragment)"
      else inr url
  end.

Definition allowNoCache (env : Env) : bool := bool_decide (trimmed env "BELUGA_FLINK_ALLOW_NO_CACHE" = Some "true").

Definition loadFlinkAdapterConfig (env : Env) : result string (option FlinkAdapterConfig) :=
  match present (trimmed env "BELUGA_FLINK_REST_URL") with
  | None => inr None
  | Some raw =>
      let! url := flink_url raw in
      let! timeoutMs := intEnv env "BELUGA_FLINK_TIMEOUT_MS" DEFAULT_FLINK_TIMEOUT_MS 1 MAX_TIMEOUT_MS in
      let! cacheTtlMs := intEnv env "BELUGA_FLINK_CACHE_TTL_MS" DEFAULT_FLINK_CACHE_TTL_MS
                           (if allowNoCache env then 0 else MIN_CACHE_TTL_MS) 60000 in
      let! snapshotBudgetMs := intEnv env "BELUGA_FLINK_SNAPSHOT_BUDGET_MS" DEFAULT_FLINK_SNAPSHOT_BUDGET_MS 1 60000 in
      let! maxQueue := intEnv env "BELUGA_FLINK_MAX_QUEUE" DEFAULT_FLINK_MAX_QUEUE 0 1024 in
      let! maxConcurrency := intEnv env "BELUGA_FLINK_MAX_CONCURRENCY" DEFAULT_FLINK_MAX_CONCURRENCY 1 32 in
      inr (Some (mkFlinkConfig (w_origin url) timeoutMs
        (default DEFAULT_FLINK_JOB_NAME_PREFIX (env "BELUGA_FLINK_JOB_NAME_PREFIX"))
        cacheTtlMs snapshotBudgetMs maxConcurrency maxQueue))
  end.

(** ** The base domain *)

Definition DEFAULT_BASE_DOMAIN : string := "local.beluga.internal".

Definition realm_path : re :=
  Cat (Cat (lit "/realms/") (Plus (Chr (fun a => negb (Ascii.eqb a "/"))))) Eol.

Definition issuer_fails (issuer why : string) : string :=
  "OIDC_ISSUER " +:+ dq +:+ issuer +:+ dq +:+ " cannot yield BASE_DOMAIN: " +:+ why +:+
  " (expected https://sso.<baseDomain>/realms/<realm>)".

Definition baseDomainFromIssuer (issuer : string) : result string string :=
  match new_URL issuer with
  | None => inl (issuer_fails issuer "not a URL")
  | Some url =>
      if negb (String.eqb (w_protocol url) "https:") then inl (issuer_fails issuer "protocol is not https")
      else if has_credentials url || nonempty (w_port url) || nonempty (w_search url) || nonempty (w_hash url)
      then inl (issuer_fails issuer "credentials, port, query or fragment present")
      else if negb (test realm_path (w_pathname url)) then inl (issuer_fails issuer "path is not /realms/<realm>")
      else
        let labels := split_char "." (w_hostname url) in
        match labels with
        | first :: rest =>
            if (length labels <? 3)%nat || negb (String.eqb first "sso")
            then inl (issuer_fails issuer "host is not sso.<baseDomain>")
            else
              let domain := join "." rest in
              if negb (isValidDnsName domain)
              then inl (issuer_fails issuer "derived domain is not a valid DNS name")
              else inr domain
        | [] => inl (issuer_fails issuer "host is not sso.<baseDomain>")
        end
  end.

Definition no_base_domain : string :=
  "BASE_DOMAIN (or an OIDC_ISSUER of the form https://sso.<baseDomain>/realms/<realm>) must be set when NODE_ENV=production".

Definition resolveBaseDomain (env : Env) : result string string :=
  match present (trimmed env "BASE_DOMAIN") with
  | Some explicit =>
      if negb (isValidDnsName explicit) || negb (str_has "." explicit)
      then inl ("BASE_DOMAIN " +:+ dq +:+ explicit +:+ dq +:+ " is not a valid multi-label DNS name")
      else inr explicit
  | None =>
      if negb (isProduction env) then inr DEFAULT_BASE_DOMAIN
      else
        match present (trimmed env "OIDC_ISSUER") with
        | Some issuer => baseDomainFromIssuer issuer
        | None => inl no_base_domain
        end
  end.

(** ** The SSO file *)

Record SsoAdapterConfig := mkSsoConfig {
  sc_filePath : option string;
  sc_isProduction : bool;
  sc_baseDomain : option string;
  sc_groupsFilePath : option string;
}.

Definition resolveDefaultSsoConfigPath : option string :=
  if existsSync bundled_sso_yaml then Some bundled_sso_yaml else None.

Definition loadSsoAdapterConfig (env : Env) : SsoAdapterConfig :=
  match present (trimmed env "SSO_CONFIG_FILE") with
  | Some explicitPath => mkSsoConfig (Some explicitPath) (isProduction env) None None
  | None =>
      if isProduction env then mkSsoConfig None true None None
      else mkSsoConfig resolveDefaultSsoConfigPath false None None
  end.

(** ** The audit store *)

Record AuditDbConfig := mkAuditDb {
  ad_host : string;
  ad_port : Z;
  ad_database : string;
  ad_user : string;
  ad_passwordFile : string;
  ad_sslCaFile : string;
}.

Definition required_db (env : Env) (name : string) : result string string :=
  match present (trimmed env name) with
  | Some value => inr value
  | None => inl (name +:+ " must be set when MANAGER_DB_HOST is set")
  end.

Definition loadAuditDbConfig (env : Env) : result string (option AuditDbConfig) :=
  match present (trimmed env "MANAGER_DB_HOST") with
  | None => inr None
  | Some host =>
      if negb (isValidDnsName host) then inl "MANAGER_DB_HOST must be a DNS host name"
      else
        let! port := intEnv env "MANAGER_DB_PORT" 5432 1 65535 in
        let! database := required_db env "MANAGER_DB_NAME" in
        let! passwordFile := required_db env "MANAGER_DB_PASSWORD_FILE" in
        let! sslCaFile := required_db env "MANAGER_DB_SSL_CA_FILE" in
        inr (Some (mkAuditDb host port database (default EmptyString (trimmed env "MANAGER_DB_USER"))
          passwordFile sslCaFile))
  end.

Definition loadSsoWriteEnabled (env : Env) : result string bool :=
  match present (trimmed env "SSO_WRITE_ENABLED") with
  | None => inr false
  | Some raw =>
      if String.eqb raw "false" then inr false
      else if String.eqb raw "true" then inr true
      else inl ("SSO_WRITE_ENABLED must be " +:+ dq +:+ "true" +:+ dq +:+ " or " +:+ dq +:+ "false" +:+ dq)
  end.

(** ** GitHub and Kubernetes *)

Record GithubAppConfig := mkGithubApp { ga_appId : string; ga_installationId : string; ga_privateKeyFile : string }.

Definition all_digits : re := Cat (Plus Digit) Eol.

Definition loadGithubAppConfig (env : Env) : option GithubAppConfig :=
  let appId := default EmptyString (trimmed env "GITHUB_APP_ID") in
  let installationId := default EmptyString (trimmed env "GITHUB_APP_INSTALLATION_ID") in
  let privateKeyFile := default EmptyString (trimmed env "GITHUB_APP_PRIVATE_KEY_FILE") in
  if negb (test all_digits appId) || negb (test all_digits installationId) || String.eqb privateKeyFile EmptyString
  then None else Some (mkGithubApp appId installationId privateKeyFile).

Record KubeApiConfig := mkKubeApi { ka_apiUrl : string; ka_tokenFile : string; ka_caFile : string }.

Definition loadKubeApiConfig (env : Env) : result string (option KubeApiConfig) :=
  let raw := default EmptyString (trimmed env "KUBE_API_URL") in
  let tokenFile := default EmptyString (trimmed env "KUBE_API_TOKEN_FILE") in
  let caFile := default EmptyString (trimmed env "KUBE_API_CA_FILE") in
  if negb (nonempty raw && nonempty tokenFile && nonempty caFile) then inr None
  else
    match new_URL raw with
    | None => inl "KUBE_API_URL is not a valid URL"
    | Some url =>
        if negb (String.eqb (w_protocol url) "https:") then inl "KUBE_API_URL must use https"
        else if has_credentials url || has_location url
        then inl "KUBE_API_URL must be a bare origin (no credentials, path, query or fragment)"
        else inr (Some (mkKubeApi (w_origin url) tokenFile caFile))
    end.

(** ** The reconciler and the server *)

Definition loadReconcileIntervalMs (env : Env) : result string Z :=
  intEnv env "SSO_RECONCILE_INTERVAL_MS" 30000 5000 3600000.

Definition loadListenHost (env : Env) : result string (option string) :=
  match present (env "LISTEN_HOST") with
  | None => inr None
  | Some raw =>
      if negb (isIP raw) && negb (isValidDnsName raw)
      then inl "LISTEN_HOST must be an IP address or a DNS host name" else inr (Some raw)
  end.
End config.
