(* ===== verification/SsoPrText.v ===== *)
(** * [domain-api/src/sso-change/prText.ts]: commit message and pull request text *)

From S2P Require Import Prelude JsBase PolicyRegoProofs.
From Stdlib Require Import Ascii.
From Stdlib Require String.

(** The class [\u0000-\u001F\u007F\s] on ASCII. *)
Definition is_control (a : ascii) : bool :=
  let n := N_of_ascii a in ((n <? 32) || (n =? 127))%N || is_space a.

(** [text.replace(class+, SP)]: one space per run. *)
Fixpoint squeeze (in_run : bool) (s : string) : string :=
  match s with
  | EmptyString => EmptyString
  | String a s' =>
      if is_control a then (if in_run then squeeze true s' else String " "%char (squeeze true s'))
      else String a (squeeze false s')
  end.

Definition oneLine (text : string) : string := trim (squeeze false text).

Definition MARKDOWN : string := "\`*_{}[]<>()#+-.!|~@&:".

Definition escapeMarkdown (text : string) : string :=
  str_map (fun a => if str_has a MARKDOWN then bslash +:+ str1 a else str1 a) (oneLine text).

Definition prTitle (endpoint : string) : string :=
  "chore(gitops): update allowedGroups of " +:+ endpoint +:+ " via Manager".

Definition commitMessage (endpoint : string) (username : option string) (sub : string) : string :=
  "chore(sso): " +:+ endpoint +:+ " allowedGroups via Manager" +:+ lf +:+ lf +:+
  "Requested-by: " +:+ oneLine (default "unknown" username) +:+ " (" +:+ oneLine sub +:+ ")".

(** [reason.replace(/`/g, EMPTY).replace(/\r\n?/g, LF)] *)
Fixpoint normalize_newlines (s : string) : string :=
  match s with
  | EmptyString => EmptyString
  | String a s' =>
      if Ascii.eqb a "013"%char then
        match s' with
        | String b s'' =>
            if Ascii.eqb b "010"%char then String "010"%char (normalize_newlines s'')
            else String "010"%char (normalize_newlines s')
        | EmptyString => lf
        end
      else String a (normalize_newlines s')
  end.

Definition strip_backticks (s : string) : string :=
  str_map (fun a => if Ascii.eqb a "`"%char then EmptyString else str1 a) s.

(** An empty reason is falsy, like a missing one. *)
Definition reason_text (reason : option string) : string :=
  match reason with
  | Some r => if String.eqb r EmptyString then "(none given)" else normalize_newlines (strip_backticks r)
  | None => "(none given)"
  end.

Record PrBodyInput := mkPrBody {
  pb_username : option string;
  pb_sub : string;
  pb_reason : option string;
  pb_baseBlobSha : string;
  pb_sourceCommitSha : string;
  pb_diff : string;
}.

Definition body_head (i : PrBodyInput) : list string :=
  ["Requested through Beluga Manager (ADR-0009). Review like any other change; the Manager never merges.";
   EmptyString;
   "Requested-by: " +:+ escapeMarkdown (default "unknown" (pb_username i)) +:+ " (" +:+ escapeMarkdown (pb_sub i) +:+ ")";
   "Base-blob-sha: " +:+ pb_baseBlobSha i;
   "Source-commit-sha: " +:+ pb_sourceCommitSha i;
   EmptyString;
   "Reason:";
   "```text"].

Definition prBody (i : PrBodyInput) : string :=
  join lf (body_head i ++ [reason_text (pb_reason i); "```"; EmptyString; "````diff"; pb_diff i; "````"]).

(** ** One line *)

Lemma one_line_squeeze b s : one_line (squeeze b s).
Proof.
  revert b. induction s as [|a s IH]; intros b; [done|]. cbn [squeeze].
  destruct (is_control a) eqn:E; [destruct b; [apply IH|]|].
  - unfold one_line. cbn [str_has]. apply IH.
  - unfold one_line. cbn [str_has]. rewrite IH, orb_false_r.
    destruct (Ascii.eqb_spec a LF) as [->|]; done.
Qed.

Lemma one_line_trim_start s : one_line s -> one_line (trim_start s).
Proof.
  unfold one_line. induction s as [|a s IH]; [done|]. cbn [str_has trim_start]. intros H.
  destruct (is_space a); [|done]. apply orb_false_iff in H as [_ H]. auto.
Qed.

Lemma one_line_trim_end s : one_line s -> one_line (trim_end s).
Proof.
  unfold one_line. induction s as [|a s IH]; [done|]. cbn [str_has trim_end]. intros [Ha H]%orb_false_iff.
  specialize (IH H). destruct (trim_end s) as [|b t]; [destruct (is_space a); simpl; by rewrite ?Ha|].
  cbn [str_has] in *. by rewrite Ha.
Qed.

Lemma one_line_oneLine s : one_line (oneLine s).
Proof. apply one_line_trim_end, one_line_trim_start, one_line_squeeze. Qed.

Lemma one_line_escape s : one_line (escapeMarkdown s).
Proof.
  unfold escapeMarkdown. pose proof (one_line_oneLine s) as H. revert H. generalize (oneLine s). clear.
  intros s. unfold one_line at 1. induction s as [|a s IH]; [done|]. cbn [str_has]. intros [Ha H]%orb_false_iff.
  cbn [str_map]. apply one_line_app; [|auto].
  assert (one_line (str1 a)) as H1 by (unfold one_line, str1; cbn [str_has]; by rewrite Ha).
  destruct (str_has a MARKDOWN); [|done]. by apply one_line_app.
Qed.

(** Whatever the user name and subject of the token contain, the commit
    message is a subject, an empty line and one trailer: no further trailer can be
    smuggled in. *)
Theorem commitMessage_lines endpoint username sub :
  str_has LF endpoint = false ->
  split_char LF (commitMessage endpoint username sub) =
    ["chore(sso): " +:+ endpoint +:+ " allowedGroups via Manager"; EmptyString;
     "Requested-by: " +:+ oneLine (default "unknown" username) +:+ " (" +:+ oneLine sub +:+ ")"].
Proof.
  intros He.
  set (t := "Requested-by: " +:+ oneLine (default "unknown" username) +:+ " (" +:+ oneLine sub +:+ ")").
  set (h := "chore(sso): " +:+ endpoint +:+ " allowedGroups via Manager").
  assert (commitMessage endpoint username sub = join lf [h; EmptyString; t]) as ->.
  { unfold commitMessage, h, t. simpl. by rewrite !str_app_assoc. }
  apply split_join_lines; [done|]. intros s Hs.
  repeat (apply elem_of_cons in Hs as [->|Hs]); [..|by apply not_elem_of_nil in Hs].
  - repeat apply one_line_app; done.
  - done.
  - repeat apply one_line_app; try done; apply one_line_oneLine.
Qed.

(** ** The fences of the body *)

Definition BACKTICK : ascii := "`"%char.

Lemma strip_no_backtick s : str_has BACKTICK (strip_backticks s) = false.
Proof.
  unfold strip_backticks. induction s as [|a s IH]; [done|]. cbn [str_map].
  destruct (Ascii.eqb_spec a BACKTICK) as [->|Hne]; [by rewrite str_app_nil_l|].
  unfold BACKTICK in *. rewrite (proj2 (Ascii.eqb_neq a "`"%char)) by done.
  change (str1 a +:+ ?x) with (String a x). cbn [str_has].
  rewrite IH. rewrite (proj2 (Ascii.eqb_neq a "`"%char)) by done. done.
Qed.

Lemma newlines_no_backtick s : str_has BACKTICK s = false -> str_has BACKTICK (normalize_newlines s) = false.
Proof.
  assert (forall n s, (String.length s <= n)%nat -> str_has BACKTICK s = false ->
    str_has BACKTICK (normalize_newlines s) = false) as H; [|by apply (H (String.length s))].
  clear. induction n as [|n IH]; intros s Hn Hs; [by destruct s; [|simpl in Hn; lia]|].
  destruct s as [|a s]; [done|]. cbn [str_has normalize_newlines String.length] in *.
  apply orb_false_iff in Hs as [Ha Hs]. destruct (Ascii.eqb a "013"%char).
  - destruct s as [|b s]; [done|]. cbn [str_has String.length] in *.
    apply orb_false_iff in Hs as [Hb Hs]. destruct (Ascii.eqb b "010"%char); cbn [str_has].
    + apply IH; [lia|done].
    + apply IH; [simpl; lia|]. cbn [str_has]. by rewrite Hb, Hs.
  - cbn [str_has]. rewrite Ha. apply IH; [lia|done].
Qed.

(** No piece of a split string contains a character the string does not. *)
Lemma split_char_no c d s l : str_has c s = false -> l ∈ split_char d s -> str_has c l = false.
Proof.
  revert l. induction s as [|a s IH]; intros l Hs Hl; [by apply list_elem_of_singleton in Hl as ->|].
  cbn [str_has split_char] in *. apply orb_false_iff in Hs as [Ha Hs].
  destruct (Ascii.eqb a d); [by apply elem_of_cons in Hl as [->|Hl]; auto|].
  destruct (split_char d s) as [|w ws]; [apply list_elem_of_singleton in Hl as ->; cbn; by rewrite Ha|].
  apply elem_of_cons in Hl as [->|Hl]; [|apply IH; [done|by right]].
  cbn [str_has]. rewrite Ha. apply IH; [done|left].
Qed.

Lemma reason_no_backtick reason : str_has BACKTICK (reason_text reason) = false.
Proof.
  destruct reason as [r|]; [|done]. simpl. destruct (String.eqb r EmptyString); [done|].
  apply newlines_no_backtick, strip_no_backtick.
Qed.

(** The reason stays inside its code block: no line of it can close the
    fence, whatever the requester typed. *)
Theorem reason_cannot_close_fence reason l :
  l ∈ split_char LF (reason_text reason) -> str_has BACKTICK l = false.
Proof. intros Hl. eapply split_char_no; [|done]. apply reason_no_backtick. Qed.

Lemma commitMessage_lines_witness :
  split_char LF (commitMessage "flink" (Some ("eve" +:+ lf +:+ "Signed-off-by: root")) "u-1") =
    ["chore(sso): flink allowedGroups via Manager"; EmptyString;
     "Requested-by: eve Signed-off-by: root (u-1)"].
Proof. apply (commitMessage_lines "flink" (Some ("eve" +:+ lf +:+ "Signed-off-by: root")) "u-1"). reflexivity. Defined.

Lemma reason_cannot_close_fence_witness : str_has BACKTICK "text" = false.
Proof.
  apply (reason_cannot_close_fence (Some ("```" +:+ lf +:+ "text")) "text"). vm_compute. right. left.
Defined.
