(* ===== verification/Effects.v ===== *)
(** * Programs with effects

    A handler of the server is a tree of effects: each node is one call to the
    outside (the store, GitHub, ArgoCD, the clock, the log) and has a branch per
    answer.  The trees are inductive, so a handler ends after finitely many calls
    whatever the answers are.  [runs] says which traces a handler has; [always]
    is the proof rule for what holds of every call it makes, given the calls and
    answers before it. *)

From S2P Require Import Prelude.

Section effects.
Context {Op : Type} {Ans : Op -> Type}.

Inductive prog (A : Type) : Type :=
| Ret (a : A)
| Vis (e : Op) (k : Ans e -> prog A).

Arguments Ret {A} a.
Arguments Vis {A} e k.

(** One call with its answer. *)
Inductive call :=
| Did (e : Op) (r : Ans e).

Local Abbreviation trace := (list call).

Definition perform (e : Op) : prog (Ans e) := Vis e Ret.

Fixpoint bind {A B} (p : prog A) (f : A -> prog B) : prog B :=
  match p with
  | Ret a => f a
  | Vis e k => Vis e (fun r => bind (k r) f)
  end.

(** A loop over a list, for its effects. *)
Fixpoint each {A} (l : list A) (f : A -> prog unit) : prog unit :=
  match l with
  | [] => Ret tt
  | a :: l' => bind (f a) (fun _ => each l' f)
  end.

(** ** Runs *)

Fixpoint runs {A} (p : prog A) (t : trace) (a : A) : Prop :=
  match p with
  | Ret b => t = [] /\ a = b
  | Vis e k =>
      match t with
      | [] => False
      | c :: t' => exists r, c = Did e r /\ runs (k r) t' a
      end
  end.

Lemma runs_bind {A B} (p : prog A) (f : A -> prog B) t b :
  runs (bind p f) t b <-> exists t1 t2 a, t = t1 ++ t2 /\ runs p t1 a /\ runs (f a) t2 b.
Proof.
  revert t. induction p as [a|e k IH]; intros t; cbn [bind runs].
  - split; [intros H; by exists [], t, a|]. by intros (t1 & t2 & a' & -> & (-> & ->) & H).
  - split.
    + destruct t as [|c t]; [done|]. intros (r & -> & (t1 & t2 & a & -> & H1 & H2)%IH).
      exists (Did e r :: t1), t2, a. split_and!; [done|by exists r|done].
    + intros (t1 & t2 & a & -> & H1 & H2). destruct t1 as [|c t1]; [done|]. destruct H1 as (r & -> & H1).
      exists r. split; [done|]. apply IH. eauto 10.
Qed.

(** Every program runs: for every way of answering there is a trace. *)
Fixpoint answer {A} (oracle : trace -> forall e, Ans e) (h : trace) (p : prog A) : trace * A :=
  match p with
  | Ret a => ([], a)
  | Vis e k =>
      let r := oracle h e in
      let (t, a) := answer oracle (h ++ [Did e r]) (k r) in (Did e r :: t, a)
  end.

Lemma answer_runs {A} oracle h (p : prog A) : runs p (answer oracle h p).1 (answer oracle h p).2.
Proof.
  revert h. induction p as [a|e k IH]; intros h; cbn [answer]; [done|].
  specialize (IH (oracle h e) (h ++ [Did e (oracle h e)])).
  destruct (answer _ _ (k _)) as [t a]. by exists (oracle h e).
Qed.

(** ** What holds of every call *)

(** [ok h e] for each call [e] made after the calls [h] (the last one first), and
    [post h a] at the end. *)
Fixpoint always {A} (ok : trace -> Op -> Prop) (post : trace -> A -> Prop) (h : trace) (p : prog A) : Prop :=
  match p with
  | Ret a => post h a
  | Vis e k => ok h e /\ forall r, always ok post (Did e r :: h) (k r)
  end.

Lemma always_bind {A B} ok (mid : trace -> A -> Prop) (post : trace -> B -> Prop) h p f :
  always ok mid h p -> (forall h' a, mid h' a -> always ok post h' (f a)) -> always ok post h (bind p f).
Proof.
  intros Hp Hf. revert h Hp. induction p as [a|e k IH]; intros h; cbn [always bind]; [auto|].
  intros [He Hk]. split; [done|]. intros r. apply IH, Hk.
Qed.

Lemma always_mono {A} (ok ok' : trace -> Op -> Prop) (post post' : trace -> A -> Prop) h p :
  always ok post h p -> (forall h e, ok h e -> ok' h e) -> (forall h a, post h a -> post' h a) ->
  always ok' post' h p.
Proof.
  intros Hp Hok Hpost. revert h Hp. induction p as [a|e k IH]; intros h; cbn [always]; [auto|].
  intros [He Hk]. split; [auto|]. intros r. apply IH, Hk.
Qed.

(** The history only grows. *)
Lemma always_grows {A} ok post h (p : prog A) :
  always ok post h p ->
  always (fun h' e => ok h' e /\ exists l, h' = l ++ h) (fun h' a => post h' a /\ exists l, h' = l ++ h) h p.
Proof.
  enough (forall h0, (exists l, h0 = l ++ h) -> always ok post h0 p ->
    always (fun h' e => ok h' e /\ exists l, h' = l ++ h)
      (fun h' a => post h' a /\ exists l, h' = l ++ h) h0 p) as Hall.
  { apply Hall. by exists []. }
  induction p as [a|e k IH]; intros h0 [l ->]; cbn [always]; [eauto|].
  intros [He Hk]. split; [eauto|]. intros r. apply IH; [|apply Hk]. by exists (Did e r :: l).
Qed.

Lemma runs_each {A} (l : list A) (f : A -> prog unit) t u :
  runs (each l f) t u <-> exists ts, t = concat ts /\ Forall2 (fun a t => runs (f a) t tt) l ts.
Proof.
  destruct u. revert t. induction l as [|a l IH]; intros t; cbn [each runs].
  - split; [intros [-> _]; exists []; by split; [|constructor]|].
    by intros (ts & -> & ->%Forall2_nil_inv_l).
  - rewrite runs_bind. split.
    + intros (t1 & t2 & [] & -> & H1 & (ts & -> & H2)%IH). exists (t1 :: ts). split; [done|by constructor].
    + intros (ts & -> & (t1 & ts' & H1 & H2 & ->)%Forall2_cons_inv_l).
      exists t1, (concat ts'), tt. split_and!; [done..|]. apply IH. eauto.
Qed.

Lemma always_each {A} ok (inv : trace -> Prop) (l : list A) f h :
  inv h -> (forall h a, a ∈ l -> inv h -> always ok (fun h' _ => inv h') h (f a)) ->
  always ok (fun h' _ => inv h') h (each l f).
Proof.
  revert h. induction l as [|a l IH]; intros h Hh Hf; cbn [each]; [done|].
  eapply always_bind; [apply Hf; [left|done]|]. intros h1 u Hi. apply IH; [exact Hi|].
  intros h2 b Hb. apply Hf. by right.
Qed.

(** One step of [always], by the shape of the program. *)

Lemma always_perform {B} ok (post : trace -> B -> Prop) h (e : Op) f :
  ok h e -> (forall r, always ok post (Did e r :: h) (f r)) -> always ok post h (bind (perform e) f).
Proof. done. Qed.

Lemma always_last ok h (e : Op) (post : trace -> Ans e -> Prop) :
  ok h e -> (forall r, post (Did e r :: h) r) -> always ok post h (perform e).
Proof. done. Qed.

Lemma always_ret {A B} ok (post : trace -> B -> Prop) h (a : A) f :
  always ok post h (f a) -> always ok post h (bind (Ret a) f).
Proof. done. Qed.

Lemma always_assoc {A B C} ok (post : trace -> C -> Prop) h (p : prog A) (f : A -> prog B) g :
  always ok post h (bind p (fun a => bind (f a) g)) -> always ok post h (bind (bind p f) g).
Proof.
  revert h. induction p as [a|e k IH]; intros h; cbn [bind always]; [done|].
  intros [He Hk]. split; [done|]. intros r. by apply IH.
Qed.

Definition ok_call (ok : trace -> Op -> Prop) (h : trace) (c : call) : Prop :=
  match c with Did e _ => ok h e end.

Lemma always_post {A} ok post h (p : prog A) t a :
  always ok post h p -> runs p t a -> post (rev t ++ h) a.
Proof.
  revert h t. induction p as [b|e k IH]; intros h t; cbn [always runs]; [by intros ? [-> ->]|].
  intros [_ Hp]. destruct t as [|c t]; [done|]. intros (r & -> & Hr). cbn [rev].
  rewrite <-app_assoc. exact (IH r _ t (Hp r) Hr).
Qed.

Lemma always_calls {A} ok post h (p : prog A) t a t1 c t2 :
  always ok post h p -> runs p t a -> t = t1 ++ c :: t2 -> ok_call ok (rev t1 ++ h) c.
Proof.
  revert h t t1. induction p as [b|e k IH]; intros h t t1; cbn [always runs].
  - intros _ [-> _] Et. by destruct t1.
  - intros [He Hp]. destruct t as [|c' t]; [done|]. intros (r & -> & Hr) Et.
    destruct t1 as [|c1 t1]; injection Et as <- Et; [done|]. cbn [rev].
    rewrite <-app_assoc. exact (IH r _ t t1 (Hp r) Hr Et).
Qed.

End effects.

Arguments prog {Op} Ans A.
Arguments call {Op} Ans.
Arguments Ret {Op Ans A} a.
Arguments Vis {Op Ans A} e k.
Arguments Did {Op Ans} e r.
Abbreviation trace Ans := (list (call Ans)).

(** ** Programs that may throw *)

Declare Scope prog_scope.
Delimit Scope prog_scope with prog.

(** An exception of [p] is the exception of the whole. *)
Definition bind_ok {Op} {Ans : Op -> Type} {X A B} (p : prog Ans (result X A)) (f : A -> prog Ans (result X B))
    : prog Ans (result X B) :=
  bind p (fun r => match r with inl x => Ret (inl x) | inr a => f a end).

(** [await x := p in k]: [k] sees the outcome of [p], also an exception;
    [attempt x := p in k]: [k] sees the value. *)
Notation "'await' x ':=' p 'in' k" := (bind p (fun x => k))
  (at level 10, x pattern, p at level 100, k at level 200) : prog_scope.
Notation "'attempt' x ':=' p 'in' k" := (bind_ok p (fun x => k))
  (at level 10, x pattern, p at level 100, k at level 200) : prog_scope.

(** [try { p } catch (x) { handler(x) }] *)
Definition catch {Op} {Ans : Op -> Type} {X A} (p : prog Ans (result X A)) (handler : X -> prog Ans (result X A))
    : prog Ans (result X A) :=
  bind p (fun r => match r with inl x => handler x | inr a => Ret (inr a) end).

(** An exception of [p] ends the whole; its value goes on. *)
Lemma always_bind_ok {Op} {Ans : Op -> Type} {X A B} ok (mid : trace Ans -> result X A -> Prop)
    (post : trace Ans -> result X B -> Prop) h p f :
  always ok mid h p -> (forall h' x, mid h' (inl x) -> post h' (inl x)) ->
  (forall h' a, mid h' (inr a) -> always ok post h' (f a)) -> always ok post h (bind_ok p f).
Proof. intros Hp Hx Ha. eapply always_bind; [exact Hp|]. intros h' [x|a] Hm; [by apply Hx|by apply Ha]. Qed.

(** ** A program over an implementation of its calls *)

Section link.
Context {Op1 Op2 : Type} {Ans1 : Op1 -> Type} {Ans2 : Op2 -> Type}.
Context (impl : forall e : Op1, prog Ans2 (Ans1 e)).

(** Every call of [p] is what its implementation does. *)
Fixpoint link {A} (p : prog Ans1 A) : prog Ans2 A :=
  match p with
  | Ret a => Ret a
  | Vis e k => bind (impl e) (fun r => link (k r))
  end.

(** The calls below one call. *)
Definition does (c : call Ans1) (t : trace Ans2) : Prop := match c with Did e r => runs (impl e) t r end.

Lemma runs_link {A} (p : prog Ans1 A) t a :
  runs (link p) t a <-> exists t1 ts, runs p t1 a /\ t = concat ts /\ Forall2 does t1 ts.
Proof.
  revert t. induction p as [b|e k IH]; intros t; cbn [link].
  - split.
    + intros [-> ->]. exists [], []. split_and!; [done|done|constructor].
    + intros (t1 & ts & [-> ->] & -> & ->%Forall2_nil_inv_l). done.
  - rewrite runs_bind. split.
    + intros (u & v & r & -> & Hu & (t1 & ts & Hr & -> & Hd)%IH).
      exists (Did e r :: t1), (u :: ts). split_and!; [by exists r|done|by constructor].
    + intros (t1 & ts & Hr & -> & Hd). cbn [runs] in Hr. destruct t1 as [|c t1]; [done|].
      destruct Hr as (r & -> & Hr). apply Forall2_cons_inv_l in Hd as (u & ts' & Hu & Hd & ->).
      exists u, (concat ts'), r. split_and!; [done|exact Hu|]. apply IH. eauto.
Qed.

(** A call below belongs to one call of the program. *)
Lemma does_split (t1 : trace Ans1) ts t u1 d u2 :
  Forall2 does t1 ts -> t = concat ts -> t = u1 ++ d :: u2 ->
  exists v1 c v2 ts1 w1 w2, t1 = v1 ++ c :: v2 /\ Forall2 does v1 ts1 /\
    does c (w1 ++ d :: w2) /\ u1 = concat ts1 ++ w1.
Proof.
  intros H -> E. revert u1 E. induction H as [|c u t1 ts Hc Hts IH]; intros u1 E; cbn [concat] in E.
  - by destruct u1.
  - destruct (decide (length u1 < length u)%nat) as [Hl|Hl].
    + assert (u = u1 ++ take (length u - length u1) (d :: u2)) as Eu.
      { rewrite <-(take_app_length u (concat ts)) at 1. rewrite E, take_app. by rewrite take_ge by lia. }
      destruct (length u - length u1)%nat as [|n] eqn:En; [lia|]. cbn [take] in Eu.
      exists [], c, t1, [], u1, (take n u2). split_and!; [done|constructor| |done]. by rewrite <-Eu.
    + assert (u1 = u ++ drop (length u) u1) as Eu.
      { rewrite <-(take_app_length u (concat ts)) at 1. rewrite E, take_app.
        replace (length u - length u1)%nat with 0%nat by lia. cbn [take]. rewrite app_nil_r. by rewrite take_drop. }
      rewrite Eu, <-app_assoc in E. apply app_inv_head in E.
      destruct (IH _ E) as (v1 & c' & v2 & ts1 & w1 & w2 & -> & Hv & Hd & Ew).
      exists (c :: v1), c', v2, (u :: ts1), w1, w2. split_and!; [done|by constructor|done|].
      rewrite Eu, Ew. cbn [concat]. by rewrite app_assoc.
Qed.
End link.

(** Programs over the left or the right of two sets of calls. *)
Section sum.
Context {Op1 Op2 : Type} {Ans1 : Op1 -> Type} {Ans2 : Op2 -> Type}.

Definition SumAns (e : Op1 + Op2) : Type := match e with inl e => Ans1 e | inr e => Ans2 e end.

Fixpoint lift {A} (p : prog Ans2 A) : prog SumAns A :=
  match p with
  | Ret a => Ret a
  | Vis e k => Vis (Ans:=SumAns) (inr e) (fun r => lift (k r))
  end.

Definition right_call (c : call Ans2) : call SumAns := match c with Did e r => Did (Ans:=SumAns) (inr e) r end.

Lemma runs_lift {A} (p : prog Ans2 A) t a : runs (lift p) t a <-> exists u, t = map right_call u /\ runs p u a.
Proof.
  revert t. induction p as [b|e k IH]; intros t; cbn [lift runs].
  - split; [intros [-> ->]; by exists []|]. by intros (u & -> & -> & ->).
  - split.
    + destruct t as [|c t]; [done|]. intros (r & -> & (u & -> & Hu)%IH). exists (Did e r :: u).
      split; [done|]. by exists r.
    + intros (u & -> & Hu). destruct u as [|c u]; [done|]. destruct Hu as (r & -> & Hu). exists r.
      split; [done|]. apply IH. eauto.
Qed.
End sum.

(** ** Walking through a program *)

Ltac head_of t := match t with ?f _ => head_of f | _ => t end.

(** Unfold the operation a program starts with. *)
Ltac unfold_op t :=
  let f := head_of t in
  lazymatch f with
  | @bind => fail
  | @perform => fail
  | @Ret => fail
  | @Vis => fail
  | @each => fail
  | _ => progress unfold f
  end.

(** One step of [always] on the goal; [walk] takes all of them and leaves the
    obligations of the calls (and of the end) as goals. *)
Ltac walk_step :=
  lazymatch goal with
  | |- always _ _ _ (Ret _) => cbn [always fst snd]
  | |- always _ _ _ (match ?x with _ => _ end) => destruct x eqn:?
  | |- always _ _ _ (perform _) => apply always_last; [|intros ?]
  | |- always _ _ _ (bind (perform _) _) => apply always_perform; [|intros ?]
  | |- always _ _ _ (bind (Ret _) _) => apply always_ret; cbn [fst snd]
  | |- always _ _ _ (bind (bind _ _) _) => apply always_assoc
  | |- always _ _ _ (bind (match ?x with _ => _ end) _) => destruct x eqn:?
  | |- always _ _ _ (bind ?p _) => unfold_op p; cbv beta iota
  | |- always _ _ _ ?p => unfold_op p; cbv beta iota
  end.

Ltac walk := repeat walk_step.

(** A call in a history given as a list. *)
Ltac found := lazymatch goal with |- _ ∈ _ => first [assumption | left | right; found] end.
