(* ===== verification/StorePool.v ===== *)
(** * The connections of the audit store: [store/ssoChangeStore.ts]

    The pool of the PostgreSQL store is rebuilt when its CA changes or a certificate is
    refused, and readiness is the outcome of a probe that is kept for five seconds.  The
    operations on top of it are in [SsoStore].  A step is what runs between two awaits;
    the clock, the CA file and the new pool are answers the step is given. *)

From S2P Require Import Prelude JsBase JsText JsJson Effects Config.
From Stdlib Require Import Ascii.
From Stdlib Require String.
Open Scope Z_scope.
Open Scope prog_scope.

Inductive AuditStoreStatus := StoreOk | StoreUnavailable | StoreUnknown.

Definition READY_CACHE_MS : Z := 5000.
Definition POOL_MAX : Z := 4.
Definition CONNECT_TIMEOUT_MS : Z := 3000.
Definition STATEMENT_TIMEOUT_MS : Z := 5000.

(** ** Errors of the driver *)

Definition TLS_VERIFICATION_CODES : list string :=
  ["UNABLE_TO_GET_ISSUER_CERT_LOCALLY"; "UNABLE_TO_VERIFY_LEAF_SIGNATURE"; "SELF_SIGNED_CERT_IN_CHAIN"; "DEPTH_ZERO_SELF_SIGNED_CERT";
   "CERT_HAS_EXPIRED"; "CERT_NOT_YET_VALID"; "ERR_TLS_CERT_ALTNAME_INVALID"].

Definition isTlsVerificationError (error : json) : bool :=
  match field error "code" with Some (JStr code) => bool_decide (code ∈ TLS_VERIFICATION_CODES) | _ => false end.

Definition isPgError (error : json) (code : string) : bool :=
  match field error "code" with Some (JStr c) => String.eqb c code | _ => false end.

(** ** The pool and the probe *)

(** [this.probing]: none; a query is under way; or its outcome is kept and the promise is
    about to be dropped. *)
Inductive Probe := NoProbe | Asking | Settling.

(** A pool is the number of pools made before it. *)
Record Store := mkStore {
  st_pool : option nat;
  st_poolFingerprint : option string;
  st_readyAt : Z;
  st_lastReady : bool;
  st_known : bool;
  st_probing : Probe;
  st_made : nat;
}.

Definition new_store : Store := mkStore None None 0 false false NoProbe 0.

(** What a step does to the outside, and what it answers. *)
Inductive Effect :=
| Made (pool : nat) (fingerprint : option string)
| Ended (pool : nat)
| Used (pool : nat) (fingerprint : option string)
| Asked (pool : nat) (fingerprint : option string)
| Told (ok : bool) (at_ : Z)
| Cached (ok : bool) (now : Z)
| Joined
| Reported (s : AuditStoreStatus)
| Refused.

(** What the world answers while a step runs: the fingerprint of the CA, whether the pool
    can be made, and the clock, twice. *)
Record World := mkWorld { w_fingerprint : option string; w_makes : bool; w_now : Z; w_later : Z }.

Definition set_pool (p : option nat) (s : Store) : Store :=
  mkStore p (st_poolFingerprint s) (st_readyAt s) (st_lastReady s) (st_known s) (st_probing s) (st_made s).

Definition set_probing (p : Probe) (s : Store) : Store :=
  mkStore (st_pool s) (st_poolFingerprint s) (st_readyAt s) (st_lastReady s) (st_known s) p (st_made s).

Definition discardPool (s : Store) : Store * list Effect :=
  (set_pool None s, match st_pool s with Some p => [Ended p] | None => [] end).

(** The pool, or [None]: it could not be made. *)
Definition getPool (w : World) (s : Store) : Store * list Effect * option nat :=
  let '(s, ended) :=
    match st_pool s with
    | Some _ => if bool_decide (w_fingerprint w = st_poolFingerprint s) then (s, []) else discardPool s
    | None => (s, [])
    end in
  match st_pool s with
  | Some p => (s, ended, Some p)
  | None =>
      if w_makes w then
        let p := st_made s in
        (mkStore (Some p) (w_fingerprint w) (st_readyAt s) (st_lastReady s) (st_known s) (st_probing s) (S p),
         ended ++ [Made p (w_fingerprint w)], Some p)
      else (s, ended, None)
  end.

(** The outcome of a probe. *)
Definition tell (ok : bool) (now : Z) (s : Store) : Store * list Effect :=
  (mkStore (st_pool s) (st_poolFingerprint s) now ok true Settling (st_made s), [Told ok now]).

(** [probe()] up to its query. *)
Definition probe (w : World) (s : Store) : Store * list Effect :=
  let '(s, done, pool) := getPool w s in
  match pool with
  | Some p => (set_probing Asking s, done ++ [Asked p (w_fingerprint w)])
  | None => let (s, told) := tell false (w_later w) s in (s, done ++ told)
  end.

Definition fresh (now : Z) (s : Store) : bool := st_known s && (now - st_readyAt s <? READY_CACHE_MS).

Definition ready (w : World) (s : Store) : Store * list Effect :=
  if fresh (w_now w) s then (s, [Cached (st_lastReady s) (w_now w)])
  else match st_probing s with NoProbe => probe w s | _ => (s, [Joined]) end.

Definition status (w : World) (s : Store) : Store * list Effect :=
  let '(s, done) := if fresh (w_now w) s then (s, []) else ready w s in
  (s, done ++ [Reported (if negb (st_known s) then StoreUnknown else if st_lastReady s then StoreOk else StoreUnavailable)]).

(** The rest of [probe()] when its query has answered. *)
Definition probe_answered (error : option json) (now : Z) (s : Store) : Store * list Effect :=
  match error with
  | None => tell true now s
  | Some e =>
      let '(s, ended) := if isTlsVerificationError e then discardPool s else (s, []) in
      let (s, told) := tell false now s in (s, ended ++ told)
  end.

(** [run(fn)] up to its queries, and when they fail with an error of the driver. *)
Definition run (w : World) (s : Store) : Store * list Effect :=
  let '(s, done, pool) := getPool w s in
  (s, done ++ [match pool with Some p => Used p (w_fingerprint w) | None => Refused end]).

Definition run_failed (error : json) (s : Store) : Store * list Effect :=
  let '(s, ended) := if isTlsVerificationError error then discardPool s else (s, []) in (s, ended ++ [Refused]).

(** ** Steps *)

Inductive Event :=
| CallReady (w : World)
| CallStatus (w : World)
| CallRun (w : World)
| RunFailed (error : json)
| ProbeAnswered (error : option json) (now : Z)
| ProbeDropped.

(** A query answers only when one is under way; [finally] follows the outcome. *)
Definition enabled (e : Event) (s : Store) : bool :=
  match e, st_probing s with
  | ProbeAnswered _ _, Asking | ProbeDropped, Settling => true
  | ProbeAnswered _ _, _ | ProbeDropped, _ => false
  | _, _ => true
  end.

Definition step (e : Event) (s : Store) : Store * list Effect :=
  match e with
  | CallReady w => ready w s
  | CallStatus w => status w s
  | CallRun w => run w s
  | RunFailed error => run_failed error s
  | ProbeAnswered error now => probe_answered error now s
  | ProbeDropped => (set_probing NoProbe s, [])
  end.

(** The states of a store and all it did, the last last. *)
Inductive reached : Store -> list Effect -> Prop :=
| reached_new : reached new_store []
| reached_step s done e s' fx : reached s done -> enabled e s = true -> step e s = (s', fx) -> reached s' (done ++ fx).

(** ** [createPgPool] *)

Inductive PoOp := PoRead (path : string) | PoStat (path : string).
Definition PoAns (e : PoOp) : Type := match e with PoRead _ => result string string | PoStat _ => result string string end.
Definition podo (e : PoOp) : prog PoAns (PoAns e) := perform e.

Record PgPoolConfig := mkPgPool {
  pp_host : string; pp_port : Z; pp_database : string; pp_user : string; pp_passwordFile : string;
  pp_ca : string; pp_servername : string; pp_rejectUnauthorized : bool;
  pp_max : Z; pp_connectionTimeoutMillis : Z; pp_statement_timeout : Z; pp_idleTimeoutMillis : Z; pp_application_name : string;
}.

(** [s.replace(/[\r\n]+$/, "")] *)
Fixpoint strip_eol (s : string) : string :=
  match s with
  | EmptyString => EmptyString
  | String a s' =>
      match strip_eol s' with
      | EmptyString => if Ascii.eqb a "010" || Ascii.eqb a "013" then EmptyString else str1 a
      | t => String a t
      end
  end.

Definition readPassword (passwordFile : string) : prog PoAns (result string string) :=
  attempt raw := podo (PoRead passwordFile) in
  let password := strip_eol raw in
  Ret (if String.eqb password EmptyString then inl "audit DB password file is empty" else inr password).

Definition createPgPool (config : AuditDbConfig) : prog PoAns (result string PgPoolConfig) :=
  if String.eqb (ad_user config) EmptyString then Ret (inl "MANAGER_DB_USER is not set (Secret manager-db-writer missing?)")
  else
    attempt _ := readPassword (ad_passwordFile config) in
    attempt ca := podo (PoRead (ad_sslCaFile config)) in
    Ret (if String.eqb (trim ca) EmptyString then inl "audit DB CA file is empty"
         else inr (mkPgPool (ad_host config) (ad_port config) (ad_database config) (ad_user config) (ad_passwordFile config)
                     ca (ad_host config) true POOL_MAX CONNECT_TIMEOUT_MS STATEMENT_TIMEOUT_MS 30000 "beluga-manager")).

(** The text of the modification time. *)
Definition caFingerprint (caFile : string) : prog PoAns (option string) :=
  await m := podo (PoStat caFile) in
  Ret (match m with inr t => Some t | inl _ => None end).

(** ** Lemmas: what was done, and the state *)

(** The outcome of the last probe that was told, and when. *)
Fixpoint told_from (acc : option (bool * Z)) (done : list Effect) : option (bool * Z) :=
  match done with [] => acc | Told ok t :: rest => told_from (Some (ok, t)) rest | _ :: rest => told_from acc rest end.
Definition last_told (done : list Effect) : option (bool * Z) := told_from None done.

(** A query of a probe that has not answered. *)
Fixpoint asking_from (acc : bool) (done : list Effect) : bool :=
  match done with [] => acc | Asked _ _ :: rest => asking_from true rest | Told _ _ :: rest => asking_from false rest | _ :: rest => asking_from acc rest end.
Definition in_flight (done : list Effect) : bool := asking_from false done.

(** The pool that was made and not ended, with the CA it trusts. *)
Fixpoint live_from (acc : option (nat * option string)) (done : list Effect) : option (nat * option string) :=
  match done with [] => acc | Made p f :: rest => live_from (Some (p, f)) rest | Ended _ :: rest => live_from None rest | _ :: rest => live_from acc rest end.
Definition live (done : list Effect) : option (nat * option string) := live_from None done.

Definition pools_made (done : list Effect) : nat :=
  length (List.filter (fun x => match x with Made _ _ => true | _ => false end) done).

Lemma told_app acc l k : told_from acc (l ++ k) = told_from (told_from acc l) k.
Proof. revert acc. induction l as [|[] l IH]; intros acc; cbn; auto. Qed.
Lemma asking_app acc l k : asking_from acc (l ++ k) = asking_from (asking_from acc l) k.
Proof. revert acc. induction l as [|[] l IH]; intros acc; cbn; auto. Qed.
Lemma live_app acc l k : live_from acc (l ++ k) = live_from (live_from acc l) k.
Proof. revert acc. induction l as [|[] l IH]; intros acc; cbn; auto. Qed.
Lemma made_app l k : pools_made (l ++ k) = (pools_made l + pools_made k)%nat.
Proof. unfold pools_made. by rewrite List.filter_app, length_app. Qed.

(** What justifies an effect, by what was done before. *)
Definition justified (before : list Effect) (x : Effect) : Prop :=
  match x with
  | Made p _ => live before = None /\ p = pools_made before
  | Ended p => exists f, live before = Some (p, f)
  | Used p f => live before = Some (p, f)
  | Asked p f => live before = Some (p, f) /\ in_flight before = false
  | Cached ok now => exists t, last_told before = Some (ok, t) /\ now - t < READY_CACHE_MS
  | Reported StoreOk => exists t, last_told before = Some (true, t)
  | Reported StoreUnavailable => exists t, last_told before = Some (false, t)
  | Reported StoreUnknown => last_told before = None
  | Told _ _ | Joined | Refused => True
  end.

Fixpoint all_justified (before : list Effect) (fx : list Effect) : Prop :=
  match fx with [] => True | x :: fx => justified before x /\ all_justified (before ++ [x]) fx end.

Lemma all_justified_app before l k : all_justified before (l ++ k) <-> all_justified before l /\ all_justified (before ++ l) k.
Proof.
  revert before. induction l as [|x l IH]; intros before; cbn; [rewrite app_nil_r; tauto|]. rewrite IH, <-app_assoc. cbn. tauto.
Qed.

(** The state remembers what was done. *)
Record remembers (done : list Effect) (s : Store) : Prop := {
  rm_told : last_told done = if st_known s then Some (st_lastReady s, st_readyAt s) else None;
  rm_asking : in_flight done = match st_probing s with Asking => true | _ => false end;
  rm_live : live done = (fun p => (p, st_poolFingerprint s)) <$> st_pool s;
  rm_made : pools_made done = st_made s;
}.

(** A step is sound: its effects are justified, and remembered. *)
Definition sound (done : list Effect) (out : Store * list Effect) : Prop :=
  all_justified done out.2 /\ remembers (done ++ out.2) out.1.

Ltac unremember := unfold last_told, in_flight, live in *; rewrite ?told_app, ?asking_app, ?live_app, ?made_app, ?app_nil_r in *.

Lemma discard_sound done s : remembers done s -> sound done (discardPool s).
Proof.
  intros [Rt Ra Rl Rm]. unfold discardPool, sound. cbn [fst snd]. destruct (st_pool s) as [p|] eqn:Ep; cbn in Rl.
  - split; [cbn; eauto|]. constructor; unremember; cbn; rewrite ?Rt, ?Ra, ?Rm; try done.
  - split; [done|]. rewrite app_nil_r. by constructor.
Qed.

Lemma getPool_sound done w s :
  remembers done s ->
  sound done (getPool w s).1 /\
  match (getPool w s).2 with
  | Some p => live (done ++ (getPool w s).1.2) = Some (p, w_fingerprint w)
  | None => True
  end /\ in_flight (done ++ (getPool w s).1.2) = in_flight done.
Proof.
  intros R. unfold getPool.
  set (first := match st_pool s with Some _ => _ | None => _ end).
  assert (sound done first /\ in_flight (done ++ first.2) = in_flight done /\
    forall p, st_pool first.1 = Some p -> w_fingerprint w = st_poolFingerprint first.1) as ([J R1] & Ai & Hp).
  { unfold first. destruct (st_pool s) as [p|] eqn:Ep; [case_bool_decide|].
    - split_and!; [split; cbn [fst snd]; [done|by rewrite app_nil_r]|by rewrite app_nil_r|done].
    - split_and!; [by apply discard_sound| |done]. unfold discardPool. cbn [snd]. rewrite Ep. unremember. done.
    - split_and!; [split; cbn [fst snd]; [done|by rewrite app_nil_r]|by rewrite app_nil_r|cbn; congruence]. }
  destruct first as [s1 ended]. cbn [fst snd] in *. destruct (st_pool s1) as [p|] eqn:Ep.
  - cbn [fst snd]. split; [done|]. split; [|done]. rewrite (rm_live _ _ R1), Ep. cbn. by rewrite (Hp p).
  - destruct (w_makes w); cbn [fst snd]; [|split; [done|done]]. destruct R1 as [Rt Ra Rl Rm]. rewrite Ep in Rl. cbn in Rl. split.
    + split; [apply all_justified_app; split; [done|]; cbn; split; [split; [done|by rewrite Rm]|done]|].
      cbn [fst snd]. rewrite app_assoc. constructor; unremember; cbn; rewrite ?Rt, ?Ra, ?Rm; try done. lia.
    + rewrite app_assoc. split; [by unremember|]. unremember. cbn. done.
Qed.

Lemma sound_app done l fx s' :
  all_justified done l -> sound (done ++ l) (s', fx) -> sound done (s', l ++ fx).
Proof.
  intros Hl [Hj Hr]. cbn [fst snd] in *. rewrite <-app_assoc in Hr. split; [|done]. by apply all_justified_app.
Qed.

Lemma set_probing_remembers done p s : remembers done s -> in_flight done = match p with Asking => true | _ => false end -> remembers done (set_probing p s).
Proof. intros [Rt Ra Rl Rm] Hp. by constructor. Qed.

Lemma tell_sound done ok now s : remembers done s -> sound done (tell ok now s).
Proof.
  intros [Rt Ra Rl Rm]. split; [done|]. cbn [fst snd tell]. constructor; unremember; cbn; rewrite ?Rl, ?Rm; try done.
Qed.

Lemma probe_sound done w s : remembers done s -> in_flight done = false -> sound done (probe w s).
Proof.
  intros R Hf. unfold probe. destruct (getPool_sound done w s R) as ([J R1] & Hlive & Hfl).
  destruct (getPool w s) as [[s1 d1] [p|]]; cbn [fst snd] in *.
  - split; cbn [fst snd]; [apply all_justified_app; split; [done|]; cbn; by rewrite Hlive, Hfl|]. rewrite app_assoc.
    destruct R1 as [Rt Ra Rl Rm]. constructor; unremember; cbn; rewrite ?Rt, ?Rl, ?Rm; done.
  - pose proof (tell_sound _ false (w_later w) _ R1) as T. destruct (tell false (w_later w) s1) as [s2 told]. by apply sound_app.
Qed.

Lemma ready_sound done w s : remembers done s -> sound done (ready w s).
Proof.
  intros R. pose proof R as [Rt Ra Rl Rm]. unfold ready. destruct (fresh (w_now w) s) eqn:F.
  - apply andb_true_iff in F as [K F]. apply Z.ltb_lt in F. rewrite K in Rt. split; cbn [fst snd].
    + split; [|done]. exists (st_readyAt s). done.
    + constructor; unremember; cbn; rewrite ?Rt, ?Ra, ?Rl, ?Rm, ?K; done.
  - destruct (st_probing s) eqn:P; [by apply probe_sound| |]; (split; [done|]; cbn [fst snd]; constructor; unremember; cbn; rewrite ?Rt, ?Ra, ?Rl, ?Rm, ?P; done).
Qed.

Lemma status_sound done w s : remembers done s -> sound done (status w s).
Proof.
  intros R. unfold status.
  assert (sound done (if fresh (w_now w) s then (s, []) else ready w s)) as [J R1].
  { destruct (fresh (w_now w) s); [split; [done|by rewrite app_nil_r]|by apply ready_sound]. }
  destruct (if fresh (w_now w) s then (s, []) else ready w s) as [s1 d1]. cbn [fst snd] in *.
  pose proof R1 as [Rt Ra Rl Rm]. split; cbn [fst snd].
  - apply all_justified_app. split; [done|]. split; [|done]. cbn. rewrite Rt.
    destruct (st_known s1); cbn [negb]; [|done]. destruct (st_lastReady s1); eauto.
  - rewrite app_assoc. constructor; unremember; cbn; rewrite ?Rt, ?Ra, ?Rl, ?Rm; done.
Qed.

Lemma distrust_sound done (b : bool) s : remembers done s -> sound done (if b then discardPool s else (s, [])).
Proof. intros R. destruct b; [by apply discard_sound|split; [done|by rewrite app_nil_r]]. Qed.

Lemma answered_sound done error now s : remembers done s -> sound done (probe_answered error now s).
Proof.
  intros R. unfold probe_answered. destruct error as [e|]; [|by apply tell_sound].
  pose proof (distrust_sound done (isTlsVerificationError e) s R) as [J R1].
  destruct (if isTlsVerificationError e then discardPool s else (s, [])) as [s1 ended]. cbn [fst snd] in *.
  pose proof (tell_sound _ false now _ R1) as T. destruct (tell false now s1) as [s2 told]. by apply sound_app.
Qed.

Lemma pool_run_sound done w s : remembers done s -> sound done (run w s).
Proof.
  intros R. unfold run. destruct (getPool_sound done w s R) as ([J R1] & Hlive & _).
  destruct (getPool w s) as [[s1 d1] pool]; cbn [fst snd] in *. pose proof R1 as [Rt Ra Rl Rm]. split; cbn [fst snd].
  - apply all_justified_app. split; [done|]. by destruct pool.
  - rewrite app_assoc. constructor; unremember; destruct pool; cbn; rewrite ?Rt, ?Ra, ?Rl, ?Rm; done.
Qed.

Lemma run_failed_sound done error s : remembers done s -> sound done (run_failed error s).
Proof.
  intros R. unfold run_failed. pose proof (distrust_sound done (isTlsVerificationError error) s R) as [J R1].
  destruct (if isTlsVerificationError error then discardPool s else (s, [])) as [s1 ended]. cbn [fst snd] in *.
  pose proof R1 as [Rt Ra Rl Rm]. split; cbn [fst snd]; [by apply all_justified_app|].
  rewrite app_assoc. constructor; unremember; cbn; rewrite ?Rt, ?Ra, ?Rl, ?Rm; done.
Qed.

Lemma step_sound done e s : remembers done s -> enabled e s = true -> sound done (step e s).
Proof.
  intros R En. destruct e; cbn [step]; auto using ready_sound, status_sound, pool_run_sound, run_failed_sound, answered_sound.
  split; cbn [fst snd]; [done|]. rewrite app_nil_r. apply set_probing_remembers; [done|]. rewrite (rm_asking _ _ R).
  cbn in En. by destruct (st_probing s).
Qed.

Lemma reached_sound s done : reached s done -> all_justified [] done /\ remembers done s.
Proof.
  induction 1 as [|s done e s' fx _ [J R] En E]; [by split|]. pose proof (step_sound _ _ _ R En) as [J' R']. rewrite E in *. cbn [fst snd] in *.
  split; [apply all_justified_app; by split|done].
Qed.

Lemma all_justified_at before l x r : all_justified before (l ++ x :: r) -> justified (before ++ l) x.
Proof. rewrite all_justified_app. cbn. tauto. Qed.

(** C34: The audit store, whatever is called and whatever the clock, the files and the
    database answer: it reports ready (or not) only what the last finished probe found,
    and answers from the cache only within five seconds of it; at most one probe queries
    at a time; queries run on the one live pool, made for the CA that was just read; a
    pool is ended once, and a new one only made when none is live; and a refused
    certificate leaves no pool. *)
Theorem store_is_honest s done :
  reached s done ->
  (forall before x after, done = before ++ x :: after -> justified before x) /\
  (forall error, isTlsVerificationError error = true ->
     live (done ++ (run_failed error s).2) = None /\ forall now, live (done ++ (probe_answered (Some error) now s).2) = None).
Proof.
  intros [J R]%reached_sound. split; [intros before x after ->; by apply (all_justified_at [] before x after)|].
  intros error Ht. pose proof (run_failed_sound _ error _ R) as [_ R1]. split.
  - rewrite (rm_live _ _ R1). unfold run_failed. by rewrite Ht.
  - intros now. pose proof (answered_sound _ (Some error) now _ R) as [_ R2]. rewrite (rm_live _ _ R2). unfold probe_answered. by rewrite Ht.
Qed.

Lemma store_is_honest_witness :
  let w := mkWorld (Some "ca1") true 10 10 in
  let done := [Made 0 (Some "ca1"); Asked 0 (Some "ca1"); Told true 20; Reported StoreOk] in
  let s1 := mkStore (Some 0%nat) (Some "ca1") 0 false false Asking 1 in
  let s2 := mkStore (Some 0%nat) (Some "ca1") 20 true true Settling 1 in
  reached s2 done /\ justified (firstn 3 done) (Reported StoreOk).
Proof.
  intros w done s1 s2. assert (reached s2 done) as R.
  { apply (reached_step s2 (firstn 3 done) (CallStatus (mkWorld (Some "ca1") true 30 30)) s2 [Reported StoreOk]); [|reflexivity|reflexivity].
    apply (reached_step s1 (firstn 2 done) (ProbeAnswered None 20) s2 [Told true 20]); [|reflexivity|reflexivity].
    apply (reached_step new_store [] (CallReady w) s1 (firstn 2 done)); [constructor|reflexivity|reflexivity]. }
  split; [exact R|]. exact (proj1 (store_is_honest _ _ R) (firstn 3 done) (Reported StoreOk) [] eq_refl).
Defined.

(** ** A pool verifies what it connects to *)

Lemma strip_eol_spec s : strip_eol s <> EmptyString -> exists a, a <> "010"%char /\ a <> "013"%char /\ a ∈ String.list_ascii_of_string s.
Proof.
  induction s as [|a s IH]; cbn [strip_eol]; [done|]. destruct (strip_eol s) eqn:E.
  - destruct (Ascii.eqb a "010" || Ascii.eqb a "013") eqn:F; [done|]. intros _. apply orb_false_iff in F as [F1%Ascii.eqb_neq F2%Ascii.eqb_neq].
    exists a. split_and!; [done|done|left].
  - intros _. destruct IH as (b & ? & ? & ?); [done|]. exists b. split_and!; [done|done|by right].
Qed.

(** A pool is only made for a named user, with a password that is not empty and a CA that
    is not blank, and it always verifies the certificate of the configured host. *)
Lemma pool_verifies config t pool :
  runs (createPgPool config) t (inr pool) ->
  pp_rejectUnauthorized pool = true /\ pp_servername pool = ad_host config /\ pp_host pool = ad_host config /\
  pp_user pool <> EmptyString /\ trim (pp_ca pool) <> EmptyString /\
  exists raw, Did (Ans:=PoAns) (PoRead (ad_passwordFile config)) (inr raw) ∈ t /\ strip_eol raw <> EmptyString /\
    Did (Ans:=PoAns) (PoRead (ad_sslCaFile config)) (inr (pp_ca pool)) ∈ t.
Proof.
  unfold createPgPool. destruct (String.eqb_spec (ad_user config) EmptyString); [by intros []|].
  unfold bind_ok, readPassword. cbn. destruct t as [|c t]; [done|]. intros ([m|raw] & -> & Hr); [by destruct Hr|].
  cbn in Hr. destruct (String.eqb_spec (strip_eol raw) EmptyString); [by destruct Hr|]. cbn in Hr.
  destruct t as [|c t]; [done|]. destruct Hr as ([m|ca] & -> & [-> Hr]); [done|]. cbn in Hr.
  destruct (String.eqb_spec (trim ca) EmptyString); [done|]. injection Hr as ->. cbn. split_and!; try done.
  exists raw. split_and!; [left|done|right; left].
Qed.
