(* ===== verification/Services.v ===== *)
(** * The service catalogue: [adapters/{registry,stubAdapter,types}.ts],
    [schema/{service,health,envelope}.ts], [stub-data/services.ts], [lib/envelope.ts],
    [routes/services.ts] of domain-api/src

    The registry resolves every service through its adapter.  An adapter's
    [getMetadata], [getVersion] and [getHealth], which the registry starts together,
    are one program; the deadline is a call that tells whether the timer was first. *)

From S2P Require Import Prelude JsBase JsJson AssetId Effects.
From Stdlib Require Import Ascii.
From Stdlib Require String.
Open Scope Z_scope.
Open Scope prog_scope.

(** ** Data *)

Inductive HealthStatus := Healthy | Degraded | Stale | Unknown | Unavailable.

#[export] Instance HealthStatus_eq_dec : EqDecision HealthStatus.
Proof. solve_decision. Defined.

Definition status_name (s : HealthStatus) : string :=
  match s with
  | Healthy => "healthy" | Degraded => "degraded" | Stale => "stale" | Unknown => "unknown" | Unavailable => "unavailable"
  end.

Inductive ServiceType := TKafka | TFlink | TIceberg | TTrino | TAirflow | TSuperset | TKubernetes | TObservability.

#[export] Instance ServiceType_eq_dec : EqDecision ServiceType.
Proof. solve_decision. Defined.

Inductive CapabilityCategory :=
| CStreaming | CProcessing | CLakehouse | CQuery | CBi | COrchestration | CStorage | CObservability.

#[export] Instance CapabilityCategory_eq_dec : EqDecision CapabilityCategory.
Proof. solve_decision. Defined.

Record KeyMetric := mkMetric { km_name : string; km_value : string; km_unit : option string }.

#[export] Instance KeyMetric_eq_dec : EqDecision KeyMetric.
Proof. solve_decision. Defined.

Record AdapterMetadata := mkMetadata {
  am_endpoint : option string;
  am_capabilities : list string;
  am_capabilityCategories : list CapabilityCategory;
  am_namespace : option string;
  am_workloadRef : option string;
  am_keyMetrics : list KeyMetric;
  am_dependencies : list string;
}.

Record AdapterHealth := mkHealth { ah_status : HealthStatus; ah_lastCheckedAt : string; ah_staleAfterMs : Z }.

#[export] Instance AdapterMetadata_eq_dec : EqDecision AdapterMetadata.
Proof. solve_decision. Defined.

#[export] Instance AdapterHealth_eq_dec : EqDecision AdapterHealth.
Proof. solve_decision. Defined.

Record Service := mkService {
  sv_id : string;
  sv_name : string;
  sv_type : ServiceType;
  sv_version : option string;
  sv_health : AdapterHealth;
  sv_metadata : AdapterMetadata;
}.

#[export] Instance Service_eq_dec : EqDecision Service.
Proof. solve_decision. Defined.

(** ** Warnings *)

Record ListWarning := mkWarning { lw_code : string; lw_message : string; lw_serviceId : option string }.

(** [status.toUpperCase()] *)
Definition status_code (s : HealthStatus) : string :=
  match s with
  | Healthy => "HEALTHY" | Degraded => "DEGRADED" | Stale => "STALE" | Unknown => "UNKNOWN" | Unavailable => "UNAVAILABLE"
  end.

Definition healthWarning (status : HealthStatus) (label : string) (serviceId : option string) : option ListWarning :=
  match status with
  | Healthy => None
  | _ => Some (mkWarning (status_code status) (label +:+ " status is " +:+ status_name status) serviceId)
  end.

Record Listing (A : Type) := mkListing {
  ls_data : list A;
  ls_total : nat;
  ls_page : Z;
  ls_pageSize : Z;
  ls_warnings : option (list ListWarning);
}.
Arguments mkListing {A}.
Arguments ls_data {A}.
Arguments ls_total {A}.
Arguments ls_warnings {A}.

Definition buildListEnvelope {A} (data : list A) (total : nat) (page pageSize : Z) (warnings : list ListWarning)
    : Listing A :=
  mkListing data total page pageSize (match warnings with [] => None | _ => Some warnings end).

(** ** [stub-data/services.ts] *)

Definition stub_service (i name : string) (ty : ServiceType) (version : option string) (status : HealthStatus)
    (endpoint : option string) (capabilities : list string) (categories : list CapabilityCategory)
    (namespace workloadRef : option string) (metrics : list KeyMetric) (deps : list string)
    (checked : string) (staleAfterMs : Z) : Service :=
  mkService i name ty version (mkHealth status checked staleAfterMs)
    (mkMetadata endpoint capabilities categories namespace workloadRef metrics deps).

Definition services : list Service := [
  stub_service "svc-trino" "Trino" TTrino (Some "483") Healthy (Some "https://trino.local.beluga.internal")
    ["query.execute"; "catalog.list"; "schema.browse"] [CQuery] (Some "data-platform") None [] ["svc-iceberg"]
    "2026-09-21T05:50:00.000Z" 120000;
  stub_service "svc-airflow" "Airflow" TAirflow (Some "3.2.0") Healthy (Some "https://airflow.local.beluga.internal")
    ["dag.list"; "dagrun.list"] [COrchestration] None None [] ["svc-trino"]
    "2026-09-21T05:49:00.000Z" 300000;
  stub_service "svc-iceberg" "Iceberg (Lakekeeper Catalog)" TIceberg (Some "0.9.0") Healthy
    (Some "https://catalog.local.beluga.internal")
    ["catalog.list"; "table.metadata"] [CLakehouse] (Some "data-platform") None [] ["svc-flink"]
    "2026-09-21T05:48:00.000Z" 120000;
  stub_service "svc-kafka" "Kafka" TKafka (Some "3.9.1") Degraded None
    ["topic.list"; "topic.describe"; "consumer-group.list"] [CStreaming] None None [] []
    "2026-09-21T05:50:00.000Z" 60000;
  stub_service "svc-flink" "Flink" TFlink (Some "2.1.0") Stale None
    ["job.list"; "job.metrics"] [CProcessing] (Some "data-platform") (Some "flink-cluster")
    [mkMetric "CPU" "850" (Some "m"); mkMetric "Memory" "2" (Some "Gi")] ["svc-kafka"]
    "2026-09-21T04:00:00.000Z" 60000;
  stub_service "svc-superset" "Superset" TSuperset (Some "6.1.0") Healthy (Some "https://superset.local.beluga.internal")
    ["dashboard.list"; "chart.list"] [CBi] None None [] ["svc-trino"]
    "2026-09-21T05:47:00.000Z" 120000;
  stub_service "svc-kubernetes" "Kubernetes" TKubernetes None Unknown None
    ["pod.list"; "namespace.list"; "event.list"] [] None None [] []
    "2026-09-21T05:45:00.000Z" 120000;
  stub_service "svc-observability" "Observability Stack" TObservability None Unavailable None
    ["metrics.query"] [CObservability] None None [] []
    "2026-09-21T05:30:00.000Z" 60000
].

(** ** Adapters *)

Section registry.
Context {Op : Type} {Ans : Op -> Type}.
(** [setTimeout] of the deadline, and whether it fired before the adapter was done *)
Context (deadline : string -> Z -> prog Ans bool) (log : string -> prog Ans unit).

Record ServiceAdapter := mkAdapter {
  sa_id : string;
  sa_name : string;
  sa_type : ServiceType;
  sa_contractVersion : Z;
  (** [Promise.all([getMetadata(), getVersion(), getHealth()])] *)
  sa_fetch : prog Ans (result string (AdapterMetadata * option string * AdapterHealth));
}.

Definition createStubAdapter (svc : Service) : ServiceAdapter :=
  mkAdapter (sv_id svc) (sv_name svc) (sv_type svc) 1 (Ret (inr (sv_metadata svc, sv_version svc, sv_health svc))).

(** ** The registry *)

Definition SUPPORTED_ADAPTER_CONTRACT_VERSIONS : list Z := [1].
Definition DEFAULT_ADAPTER_TIMEOUT_MS : Z := 3000.
Definition NEVER_CHECKED_AT : string := "1970-01-01T00:00:00.000Z".

Inductive RegistryError := UnsupportedAdapterVersion (i : string) (v : Z) | DuplicateAdapter (i : string).

(** [entries]: a map in insertion order; the identity of an entry is the one its
    adapter had when it was registered. *)
Definition Registry : Type := list (string * ServiceAdapter).

Definition register (entries : Registry) (adapter : ServiceAdapter) : result RegistryError Registry :=
  if negb (bool_decide (sa_contractVersion adapter ∈ SUPPORTED_ADAPTER_CONTRACT_VERSIONS))
  then inl (UnsupportedAdapterVersion (sa_id adapter) (sa_contractVersion adapter))
  else if map_has (sa_id adapter) entries then inl (DuplicateAdapter (sa_id adapter))
  else inr (map_set (sa_id adapter) adapter entries).

Fixpoint register_all (entries : Registry) (adapters : list ServiceAdapter) : result RegistryError Registry :=
  match adapters with
  | [] => inr entries
  | a :: rest => match register entries a with inl e => inl e | inr entries' => register_all entries' rest end
  end.

Definition newRegistry (adapters : list ServiceAdapter) : result RegistryError Registry := register_all [] adapters.

Definition unknown_service (a : ServiceAdapter) : Service :=
  mkService (sa_id a) (sa_name a) (sa_type a) None (mkHealth Unknown NEVER_CHECKED_AT 0)
    (mkMetadata None [] [] None None [] []).

Definition resolve (timeoutMs : Z) (a : ServiceAdapter) : prog Ans Service :=
  await fetched := sa_fetch a in
  await late := deadline (sa_id a) timeoutMs in
  match fetched, late with
  | inr (metadata, version, health), false =>
      Ret (mkService (sa_id a) (sa_name a) (sa_type a) version health metadata)
  | _, _ =>
      await _ := log ("Adapter '" +:+ sa_id a +:+ "' failed; degrading to unknown") in Ret (unknown_service a)
  end.

(** [Promise.all] of programs that share nothing. *)
Fixpoint all_of {A B} (f : A -> prog Ans B) (l : list A) : prog Ans (list B) :=
  match l with
  | [] => Ret []
  | a :: l' => await b := f a in await bs := all_of f l' in Ret (b :: bs)
  end.

Definition of_type (type : option ServiceType) (a : ServiceAdapter) : bool :=
  match type with None => true | Some t => bool_decide (sa_type a = t) end.

Definition listServices (entries : Registry) (timeoutMs : Z) (type : option ServiceType) : prog Ans (list Service) :=
  all_of (resolve timeoutMs) (List.filter (of_type type) (map snd entries)).

Definition getService (entries : Registry) (timeoutMs : Z) (i : string) : prog Ans (option Service) :=
  match map_get i entries with
  | Some a => await s := resolve timeoutMs a in Ret (Some s)
  | None => Ret None
  end.

(** ** [routes/services.ts] *)

Definition of_status (status : option HealthStatus) (s : Service) : bool :=
  match status with None => true | Some x => bool_decide (ah_status (sv_health s) = x) end.

Definition service_warning (s : Service) : option ListWarning :=
  healthWarning (ah_status (sv_health s)) (sv_name s) (Some (sv_id s)).

Definition listRoute (entries : Registry) (timeoutMs page pageSize : Z) (type : option ServiceType)
    (status : option HealthStatus) : prog Ans (Listing Service) :=
  await services := listServices entries timeoutMs type in
  let filtered := List.filter (of_status status) services in
  let (pageItems, total) := paginate filtered page pageSize in
  Ret (buildListEnvelope pageItems total page pageSize (omap service_warning pageItems)).

Definition getByIdRoute (entries : Registry) (timeoutMs : Z) (i : string) : prog Ans (string + Service) :=
  await found := getService entries timeoutMs i in
  match found with
  | Some s => Ret (inr s)
  | None => Ret (inl ("Service '" +:+ i +:+ "' was not found"))
  end.
End registry.
Arguments ServiceAdapter {Op} Ans.
Arguments Registry {Op} Ans.
