(* ===== verification/PolicyProjection.v ===== *)
(** * The policy summary: domain-api's [schema/policy.ts], [stub-data/policies.ts],
      [routes/policies.ts], and what it summarises

    The Domain API serves a checked-in projection of a policy declaration instead of
    compiling it.  [projection_of] is the projection its drift test computes from the
    declaration and the compiled artefacts, [platform_declaration] the declaration it
    was made from. *)
From S2P Require Import Prelude JsBase JsText JsJson AssetId PolicyModel PolicyRoles PolicyValidate PolicyRego PolicyKeycloak.
From S2P Require Import PolicyPgDdl PolicyDrift Services.
From Stdlib Require Import Ascii.
From Stdlib Require String.
Open Scope Z_scope.

(** ** SHA-256 of a byte string ([createHash("sha256")] of the standard library)

    The function of FIPS 180-4, on bytes; executable, so that the hashes the program
    records can be recomputed. *)

Section sha256.
Local Open Scope N_scope.

(** Words of 32 bits. *)
Definition word (x : N) : N := N.land x 4294967295.
Definition add (x y : N) : N := word (x + y).
Definition rotr (n x : N) : N := N.lor (N.shiftr x n) (word (N.shiftl x (32 - n))).
Definition flip (x : N) : N := N.lxor x 4294967295.

Definition Ch (x y z : N) : N := N.lxor (N.land x y) (N.land (flip x) z).
Definition Maj (x y z : N) : N := N.lxor (N.land x y) (N.lxor (N.land x z) (N.land y z)).
Definition Sigma0 (x : N) : N := N.lxor (rotr 2 x) (N.lxor (rotr 13 x) (rotr 22 x)).
Definition Sigma1 (x : N) : N := N.lxor (rotr 6 x) (N.lxor (rotr 11 x) (rotr 25 x)).
Definition sigma0 (x : N) : N := N.lxor (rotr 7 x) (N.lxor (rotr 18 x) (N.shiftr x 3)).
Definition sigma1 (x : N) : N := N.lxor (rotr 17 x) (N.lxor (rotr 19 x) (N.shiftr x 10)).

(** The constants are the first 32 bits of the fractional parts of the square roots of
    the first eight primes, and of the cube roots of the first sixty-four. *)
Definition is_prime (n : N) : bool := forallb (fun d => negb (n mod N.of_nat d =? 0)) (List.seq 2 (N.to_nat n - 2)).

Definition primes : list N := List.filter is_prime (map N.of_nat (List.seq 2 310)).

(** The integer cube root, bit by bit from [2^n]. *)
Fixpoint cube_root (n : nat) (x y : N) : N :=
  let x' := x + N.shiftl 1 (N.of_nat n) in
  let best := if x' * x' * x' <=? y then x' else x in
  match n with
  | O => best
  | S n => cube_root n best y
  end.

Definition K256 : list N := Eval vm_compute in map (fun p => word (cube_root 36 0 (N.shiftl p 96))) primes.

Definition H256 : list N := Eval vm_compute in map (fun p => word (N.sqrt (N.shiftl p 64))) (take 8 primes).

Example constants : (length K256, hd 0 K256, last K256, hd 0 H256) = (64%nat, 0x428a2f98, Some 0xc67178f2, 0x6a09e667).
Proof. reflexivity. Qed.

(** The length in bits, in eight bytes. *)
Definition length_bytes (bits : N) : list N := map (fun i => N.shiftr bits (8 * N.of_nat i) mod 256) [7; 6; 5; 4; 3; 2; 1; 0]%nat.

Definition padded (m : list N) : list N :=
  let n := length m in
  m ++ 128 :: repeat 0 ((119 - n mod 64) mod 64) ++ length_bytes (8 * N.of_nat n).

Fixpoint words (l : list N) : list N :=
  match l with
  | a :: b :: c :: d :: l' => (a * 16777216 + b * 65536 + c * 256 + d) :: words l'
  | _ => []
  end.

(** The next word of the schedule; [w]: the words so far, the last one first. *)
Definition next_word (w : list N) : N :=
  add (add (sigma1 (nth 1 w 0)) (nth 6 w 0)) (add (sigma0 (nth 14 w 0)) (nth 15 w 0)).

Definition schedule (block : list N) : list N := rev (Nat.iter 48 (fun w => next_word w :: w) (rev block)).

Definition round (s : list N) (kw : N * N) : list N :=
  match s with
  | [a; b; c; d; e; f; g; h] =>
      let t1 := add (add h (Sigma1 e)) (add (Ch e f g) (add kw.1 kw.2)) in
      let t2 := add (Sigma0 a) (Maj a b c) in
      [add t1 t2; a; b; c; add d t1; e; f; g]
  | _ => s
  end.

Definition compress (s block : list N) : list N := zip_with add s (foldl round s (zip K256 (schedule block))).

(** [n] blocks of 16 words. *)
Fixpoint blocks (n : nat) (s l : list N) : list N :=
  match n with
  | O => s
  | S n => blocks n (compress s (take 16 l)) (drop 16 l)
  end.

Definition hex_word (x : N) : string :=
  String.string_of_list_ascii (map (fun i => hex_digit (N.shiftr x (4 * N.of_nat i) mod 16)) [7; 6; 5; 4; 3; 2; 1; 0]%nat).

Definition sha256 (s : string) : string :=
  let w := words (padded (bytes_of s)) in
  join EmptyString (map hex_word (blocks (length w / 16) H256 w)).

(** The examples of the standard. *)
Example sha256_abc : sha256 "abc" = "ba7816bf8f01cfea414140de5dae2223b00361a396177a9cb410ff61f20015ad".
Proof. by vm_compute. Qed.

Example sha256_two_blocks :
  sha256 "abcdbcdecdefdefgefghfghighijhijkijkljklmklmnlmnomnopnopq" = "248d6a61d20638b8e5c026930c3e6039a33ce45964ff2167f6ecedd419db06c1".
Proof. by vm_compute. Qed.

Example sha256_empty : sha256 EmptyString = "e3b0c44298fc1c149afbf4c8996fb92427ae41e4649b934ca495991b7852b855".
Proof. by vm_compute. Qed.

End sha256.

(** ** Data *)

Inductive ArtefactTarget := TrinoRego | PostgresGrant | KeycloakMapper.

#[export] Instance ArtefactTarget_eq_dec : EqDecision ArtefactTarget.
Proof. solve_decision. Defined.

Record PolicyPermission := mkPermission {
  pp_resource : string;
  pp_catalog : string;
  pp_engine : Engine;
  pp_operation : string;
  pp_accessType : PolicyAccessType;
  pp_columnMask : option (list (string * string));
  pp_rowFilter : option string;
  pp_allowUnmasked : option bool;
}.

Record PolicyRoleSummary := mkRoleSummary { rs_name : string; rs_includes : list string; rs_permissions : list PolicyPermission }.
Record PolicyGroupSummary := mkGroupSummary { gs_name : string; gs_roles : list string }.
Record PolicyArtefactMetadata := mkArtefact { am_target : ArtefactTarget; am_contentHash : string; am_lineCount : Z }.

Record PolicyProjection := mkProjection {
  pj_id : string;
  pj_name : string;
  pj_version : string;
  pj_description : option string;
  pj_sourceFile : string;
  pj_evaluatedAt : string;
  pj_roles : list PolicyRoleSummary;
  pj_groups : list PolicyGroupSummary;
  pj_artefacts : list PolicyArtefactMetadata;
}.

Definition policyPermissionSchema (p : PolicyPermission) : bool :=
  nonempty_str (pp_resource p) && nonempty_str (pp_catalog p) && nonempty_str (pp_operation p).

Definition policyRoleSummarySchema (r : PolicyRoleSummary) : bool :=
  nonempty_str (rs_name r) && forallb policyPermissionSchema (rs_permissions r).

Definition policyGroupSummarySchema (g : PolicyGroupSummary) : bool := nonempty_str (gs_name g) && nonempty (gs_roles g).

Definition policyArtefactMetadataSchema (a : PolicyArtefactMetadata) : bool :=
  nonempty_str (am_contentHash a) && (0 <=? am_lineCount a).

(** [iso_datetime]: zod's test of a date text. *)
Definition policyProjectionSchema (iso_datetime : string -> bool) (p : PolicyProjection) : bool :=
  nonempty_str (pj_id p) && nonempty_str (pj_name p) && nonempty_str (pj_version p) && nonempty_str (pj_sourceFile p) &&
  iso_datetime (pj_evaluatedAt p) && forallb policyRoleSummarySchema (pj_roles p) &&
  forallb policyGroupSummarySchema (pj_groups p) && forallb policyArtefactMetadataSchema (pj_artefacts p).

(** ** [stub-data/policies.ts] *)

Definition plain_permission (resource catalog : string) (engine : Engine) (operation : string) (access : PolicyAccessType)
    : PolicyPermission := mkPermission resource catalog engine operation access None None None.

Definition analystPermissions : list PolicyPermission := [
  plain_permission "lake.events_enriched" "iceberg" Trino "select" ReadOnly;
  mkPermission "lake.customers" "iceberg" Trino "select" ReadOnly (Some [("email", "hash")]) (Some "region = 'KR'") None;
  plain_permission "public.service_audit" "postgres" Postgres "select" ReadOnly;
  plain_permission "iceberg.*" "iceberg" Trino "ExecuteQuery" ReadOnly;
  plain_permission "iceberg.*" "iceberg" Trino "AccessCatalog" ReadOnly;
  plain_permission "iceberg.*" "iceberg" Trino "ShowSchemas" ReadOnly;
  plain_permission "iceberg.*" "iceberg" Trino "ShowTables" ReadOnly;
  plain_permission "iceberg.*" "iceberg" Trino "ShowColumns" ReadOnly;
  plain_permission "iceberg.*" "iceberg" Trino "FilterCatalogs" ReadOnly;
  plain_permission "iceberg.*" "iceberg" Trino "FilterSchemas" ReadOnly;
  plain_permission "iceberg.*" "iceberg" Trino "FilterTables" ReadOnly;
  plain_permission "iceberg.*" "iceberg" Trino "FilterColumns" ReadOnly
].

Definition engineerPermissions : list PolicyPermission := [
  mkPermission "lake.customers" "iceberg" Trino "select" ReadOnly None None (Some true);
  mkPermission "lake.customers" "iceberg" Trino "insert" Mutating None None (Some true);
  plain_permission "public.service_audit" "postgres" Postgres "select" ReadOnly;
  plain_permission "public.service_audit" "postgres" Postgres "insert" Mutating;
  plain_permission "public.service_audit" "postgres" Postgres "update" Mutating;
  plain_permission "iceberg.*" "iceberg" Trino "SetCatalogSessionProperty" Mutating;
  plain_permission "iceberg.*" "iceberg" Trino "ShowCreateTable" ReadOnly;
  plain_permission "iceberg.*" "iceberg" Trino "ShowFunctions" ReadOnly
].

Definition platformPolicy : PolicyProjection :=
  mkProjection "beluga-platform-policy" "Beluga Platform Policy" "0.1.0"
    (Some "Fixture-backed policy summary; not a live Keycloak or OPA integration.")
    "packages/domain-api/tests/fixtures/platform-policy.yaml" "2026-09-28T09:00:00.000Z"
    [mkRoleSummary "analysts" [] analystPermissions;
     mkRoleSummary "engineers" ["analysts"] engineerPermissions;
     mkRoleSummary "admins" ["engineers"] []]
    [mkGroupSummary "analysts" ["analysts"]; mkGroupSummary "engineers" ["engineers"]; mkGroupSummary "admins" ["admins"]]
    [mkArtefact TrinoRego "sha256:fc54100d7325b5f984af683b360d8c30c25fa2526a4efe8e4438e58276370c59" 261;
     mkArtefact PostgresGrant "sha256:63018af9603d2c8528cbbc0f99c9cc4c35540cf4fd7a284f8447a7fb82ca53e2" 33;
     mkArtefact KeycloakMapper "sha256:0e3073a992535b34f0c65f02668f07cc8fd622c9f882576c515cd8b874699f27" 43].

Definition policies : list PolicyProjection := [platformPolicy].

(** ** [routes/policies.ts] *)

Definition has_role (role : option string) (p : PolicyProjection) : bool :=
  match role with None => true | Some n => existsb (fun r => String.eqb (rs_name r) n) (pj_roles p) end.

Definition policiesRoute (records : list PolicyProjection) (page pageSize : Z) (role : option string) : Listing PolicyProjection :=
  let (pageItems, total) := paginate (List.filter (has_role role) records) page pageSize in
  buildListEnvelope pageItems total page pageSize [].

(** [inl]: the message of the 404. *)
Definition policyRoute (records : list PolicyProjection) (i : string) : string + PolicyProjection :=
  match List.find (fun p => String.eqb (pj_id p) i) records with
  | None => inl ("Policy '" +:+ i +:+ "' was not found")
  | Some p => inr p
  end.

(** ** What is summarised *)

Definition platform_declaration : Declaration :=
  mkDeclaration
    [mkRole "analysts" None; mkRole "engineers" (Some ["analysts"]); mkRole "admins" (Some ["engineers"])]
    [mkGroup "analysts" ["analysts"]; mkGroup "engineers" ["engineers"]; mkGroup "admins" ["admins"]]
    [mkResource "lake.events_enriched" Internal [mkGrant ["analysts"] [Select] None None None] None (Some Trino);
     mkResource "lake.customers" Pii
       [mkGrant ["engineers"] [Select; Insert] None None (Some true);
        mkGrant ["analysts"] [Select] (Some [("email", MaskHash)]) (Some "region = 'KR'") None] (Some ["email"]) (Some Trino);
     mkResource "public.service_audit" Internal
       [mkGrant ["engineers"] [Select; Insert; Update] None None None; mkGrant ["analysts"] [Select] None None None]
       None (Some Postgres)]
    (Some [
      mkCatalogGrant "iceberg" ["analysts"]
        [ExecuteQuery; AccessCatalog; ShowSchemas; ShowTables; ShowColumns; FilterCatalogs; FilterSchemas; FilterTables; FilterColumns];
      mkCatalogGrant "iceberg" ["engineers"] [SetCatalogSessionProperty; ShowCreateTable; ShowFunctions]])
    None.

(** [JSON.stringify(j, null, 2)]; [indent]: the spaces in front of a line. *)
Fixpoint json_pretty (indent : string) (j : json) : string :=
  let inner := indent +:+ "  " in
  match j with
  | JArr [] => "[]"
  | JArr l => "[" +:+ lf +:+ join ("," +:+ lf) (map (fun x => inner +:+ json_pretty inner x) l) +:+ lf +:+ indent +:+ "]"
  | JObj [] => "{}"
  | JObj l =>
      "{" +:+ lf +:+
      join ("," +:+ lf) (map (fun kv : string * json => inner +:+ json_string kv.1 +:+ ": " +:+ json_pretty inner kv.2) l) +:+
      lf +:+ indent +:+ "}"
  | _ => json_text j
  end.

Definition keycloak_json (k : KeycloakSpec) : json :=
  JObj [
    ("realmRoles", JArr (map (fun r => JObj [("name", JStr (kr_name r)); ("composite", JBool (kr_composite r));
       ("composites", JStrs (kr_composites r))]) (k_realmRoles k)));
    ("groups", JArr (map (fun g => JObj [("name", JStr (kg_name g)); ("realmRoles", JStrs (kg_realmRoles g))]) (k_groups k)))].

(** [content.split(/\r?\n/).length] *)
Definition line_count (content : string) : Z := Z.of_nat (length (split_char "010" content)).

Definition metadata (target : ArtefactTarget) (content : string) : PolicyArtefactMetadata :=
  mkArtefact target ("sha256:" +:+ sha256 content) (line_count content).

Definition grant_permissions (role : string) (r : PolicyModel.Resource) (g : Grant) : list PolicyPermission :=
  if bool_decide (role ∈ g_roles g) then
    map (fun p => mkPermission (r_resource r) (match engine_of r with Postgres => "postgres" | Trino => "iceberg" end) (engine_of r)
      (privilege_name p) (POLICY_OPERATION_ACCESS_TYPE (inl p))
      (map (fun kv : string * MaskKind => (kv.1, mask_name kv.2)) <$> g_columnMask g) (g_rowFilter g) (g_allowUnmasked g))
      (g_privileges g)
  else [].

Definition catalog_permissions (role : string) (g : CatalogGrant) : list PolicyPermission :=
  if bool_decide (role ∈ cg_roles g) then
    map (fun o => plain_permission (cg_catalog g +:+ ".*") (cg_catalog g) Trino (operation_name o) (POLICY_OPERATION_ACCESS_TYPE (inr o)))
      (cg_operations g)
  else [].

Definition role_permissions (d : Declaration) (role : string) : list PolicyPermission :=
  flat_map (fun r => flat_map (grant_permissions role r) (r_grants r)) (d_resources d) ++
  flat_map (catalog_permissions role) (default [] (d_catalogGrants d)).

Definition projection_of (d : Declaration) : result string PolicyProjection :=
  (let! a := compileAll d in
   inr (mkProjection (pj_id platformPolicy) (pj_name platformPolicy) (pj_version platformPolicy) (pj_description platformPolicy)
     (pj_sourceFile platformPolicy) (pj_evaluatedAt platformPolicy)
     (map (fun r => mkRoleSummary (ro_name r) (includes_of r) (role_permissions d (ro_name r))) (d_roles d))
     (map (fun g => mkGroupSummary (gr_name g) (gr_roles g)) (d_groups d))
     [metadata TrinoRego (rego a); metadata PostgresGrant (pgddl a);
      metadata KeycloakMapper (json_pretty EmptyString (keycloak_json (keycloak a)))]))%result.

(** ** Theorems *)

(** The policy summary the Domain API serves is the projection of the declaration it
    names: the declaration is valid, and compiling it gives exactly the three artefacts
    whose SHA-256 hashes and line counts the summary records; every permission listed for
    a role is a direct grant of the declaration, in order, with its access type. *)
Theorem platform_policy_compiled : projection_of platform_declaration = inr platformPolicy.
Proof. by vm_compute. Qed.
