(* ===== verification/PolicyCtl.v ===== *)
(** * The command line of the compiler: [policy-compiler/bin/policyctl.ts], and the
      parsing of declarations in [schema.ts]

    Reads the policy files of a directory, compiles the declaration and writes the
    three artefacts.  The file system and the terminal are calls; the YAML parser, the
    texts of zod's complaints and [path.join] are parameters. *)
From S2P Require Import Prelude JsBase JsText JsJson Zod PolicyModel PolicyRoles PolicyValidate PolicyRego PolicyKeycloak.
From S2P Require Import PolicyPgDdl PolicyDrift Effects PolicyProjection.
From Stdlib Require Import Ascii.
From Stdlib Require String.
Open Scope Z_scope.
Open Scope prog_scope.

(** ** [schema.ts]: from YAML values to a declaration *)

Definition privilegeSchema : json -> option Privilege := enum_of privilege_name [Select; Insert; Update; Delete].
Definition maskKindSchema : json -> option MaskKind := enum_of mask_name [MaskHash; MaskPartial; MaskNull].
Definition engineSchema : json -> option Engine := enum_of engine_name [Trino; Postgres].

Definition classification_name (c : Classification) : string :=
  match c with Public => "public" | Internal => "internal" | Pii => "pii" end.
Definition classificationSchema : json -> option Classification := enum_of classification_name [Public; Internal; Pii].

Definition queryOperationSchema : json -> option QueryOperation :=
  enum_of operation_name
    [ExecuteQuery; AccessCatalog; ShowSchemas; ShowTables; ShowColumns; ShowCreateTable; ShowFunctions;
     SetCatalogSessionProperty; FilterCatalogs; FilterSchemas; FilterTables; FilterColumns].

Definition parse_grant (j : json) : option Grant :=
  _ ← strict ["roles"; "privileges"; "columnMask"; "rowFilter"; "allowUnmasked"] j;
  r ← field j "roles" ≫= array_min1 string_of; p ← field j "privileges" ≫= array_min1 privilegeSchema;
  m ← opt_field (record_with maskKindSchema) (field j "columnMask"); f ← opt_field string_of (field j "rowFilter");
  u ← opt_field bool_of (field j "allowUnmasked"); Some (mkGrant r p m f u).

Definition parse_resource (j : json) : option PolicyModel.Resource :=
  _ ← strict ["resource"; "classification"; "grants"; "sensitiveColumns"; "engine"] j;
  r ← field j "resource" ≫= string_min1; c ← field j "classification" ≫= classificationSchema;
  g ← field j "grants" ≫= array_of parse_grant; s ← opt_field (array_of string_min1) (field j "sensitiveColumns");
  e ← opt_field engineSchema (field j "engine"); Some (mkResource r c g s (Some (default Trino e))).

Definition parse_role (j : json) : option Role :=
  _ ← strict ["name"; "includes"] j; n ← field j "name" ≫= string_min1;
  i ← opt_field (array_of string_of) (field j "includes"); Some (mkRole n i).

Definition parse_group (j : json) : option Group :=
  _ ← strict ["name"; "roles"] j; n ← field j "name" ≫= string_min1; r ← field j "roles" ≫= array_min1 string_of;
  Some (mkGroup n r).

Definition parse_catalog_grant (j : json) : option CatalogGrant :=
  _ ← strict ["catalog"; "roles"; "operations"] j; c ← field j "catalog" ≫= string_min1;
  r ← field j "roles" ≫= array_min1 string_of; o ← field j "operations" ≫= array_min1 queryOperationSchema;
  Some (mkCatalogGrant c r o).

Definition parse_login (j : json) : option PgLogin :=
  _ ← strict ["name"; "memberOf"; "database"] j; n ← field j "name" ≫= string_min1;
  m ← field j "memberOf" ≫= array_min1 string_of; d ← field j "database" ≫= string_min1; Some (mkPgLogin n m d).

Definition parse_declaration (j : json) : option Declaration :=
  _ ← strict ["roles"; "groups"; "resources"; "catalogGrants"; "logins"] j;
  r ← field j "roles" ≫= array_of parse_role; g ← field j "groups" ≫= array_of parse_group;
  s ← field j "resources" ≫= array_of parse_resource; c ← opt_field (array_of parse_catalog_grant) (field j "catalogGrants");
  l ← opt_field (array_of parse_login) (field j "logins"); Some (mkDeclaration r g s c l).

(** The files of a policy directory: one array under one key. *)
Definition file_schema {A} (key : string) (p : json -> option A) (j : json) : option (list A) :=
  _ ← strict [key] j; field j key ≫= array_of p.

Definition rolesFileSchema : json -> option (list Role) := file_schema "roles" parse_role.
Definition groupsFileSchema : json -> option (list Group) := file_schema "groups" parse_group.
Definition resourcesFileSchema : json -> option (list PolicyModel.Resource) := file_schema "resources" parse_resource.
Definition catalogFileSchema : json -> option (list CatalogGrant) := file_schema "catalogGrants" parse_catalog_grant.
Definition loginsFileSchema : json -> option (list PgLogin) := file_schema "logins" parse_login.

(** ** [policyctl.ts]: errors and calls *)

(** A failure of the file system, with its code and path. *)
Record Errno := mkErrno { er_code : string; er_path : option string }.

(** What is thrown: a [UserError], an [Error] of the compiler, a failure of the file
    system, or anything else. *)
Inductive CtlError := UserError (message : string) | CompileError (message : string) | FsError (e : Errno) | OtherError.

(** What the YAML parser throws: a [YAMLParseError] with its message, or anything else. *)
Inductive YamlError := YAMLParseError (message : string) | YamlOther.

Inductive POp : Type :=
| PRead (path : string)
| PExists (path : string)
| PMkdir (path : string)
| PWrite (path content : string)
| PPrint (line : string)
| PPrintError (line : string).

Definition PAns (e : POp) : Type :=
  match e with
  | PRead _ => result CtlError string
  | PExists _ => bool
  | PMkdir _ | PWrite _ _ => result CtlError unit
  | PPrint _ | PPrintError _ => unit
  end.

Definition PProg (A : Type) : Type := prog PAns (result CtlError A).
Definition pdo (e : POp) : prog PAns (PAns e) := perform e.

(** How the process ends: with an exit code, or with an error nobody caught. *)
Inductive Ended := Exited (code : Z) | Crashed.

Definition USAGE : string := "사용법: npm run policyctl -- compile <policies-dir> --out <dir>".

(** [/:$/] *)
Definition drop_colon (s : string) : string :=
  if ends_with ":" s then str_take (String.length s - 1) s else s.

Definition first_line (message : string) : string := drop_colon (hd message (split_char "010" message)).

Definition formatZodIssues (issues : list (list string * string)) : string :=
  join lf (map (fun i : list string * string =>
    "  " +:+ (let p := join "." i.1 in if String.eqb p EmptyString then "(root)" else p) +:+ ": " +:+ i.2) issues).

(** ** Arguments *)

(** The positional arguments and the last [--out]; [inl]: the line that is printed
    before the process exits with code 2. *)
Fixpoint scan_args (rest : list string) (positionals : list string) (outDir : option string)
    : result string (list string * option string) :=
  match rest with
  | [] => inr (positionals, outDir)
  | arg :: rest' =>
      if String.eqb arg "--out" then
        match rest' with
        | value :: rest'' =>
            if starts_with "--" value then inl "--out 뒤에 디렉터리 경로가 필요하다"
            else scan_args rest'' positionals (Some value)
        | [] => inl "--out 뒤에 디렉터리 경로가 필요하다"
        end
      else if starts_with "--" arg then inl ("알 수 없는 옵션: " +:+ arg)
      else scan_args rest' (positionals ++ [arg]) outDir
  end.

Definition parseArgs (argv : list string) : result string (string * string) :=
  match argv with
  | cmd :: rest =>
      if negb (String.eqb cmd "compile") then inl USAGE
      else
        (let! (positionals, outDir) := scan_args rest [] None in
         match positionals with
         | [] => inl USAGE
         | dir :: [] =>
             match outDir with
             | Some o => if String.eqb o EmptyString then inl "--out <dir> 이 필요하다" else inr (dir, o)
             | None => inl "--out <dir> 이 필요하다"
             end
         | _ :: extra => inl ("예상치 못한 인자: " +:+ join " " extra)
         end)%result
  | [] => inl USAGE
  end.

(** ** Files *)

Section ctl.
Context (parseYaml : string -> result YamlError json) (zod_issues : string -> json -> list (list string * string))
  (path_join : string -> string -> string).

Definition readYamlFile (dir name : string) : PProg json :=
  let path := path_join dir name in
  await raw := pdo (PRead path) in
  match raw with
  | inl (FsError e) =>
      if String.eqb (er_code e) "ENOENT" then Ret (inl (UserError ("파일을 찾을 수 없다: " +:+ path))) else Ret (inl (FsError e))
  | inl e => Ret (inl e)
  | inr text =>
      match parseYaml text with
      | inr j => Ret (inr j)
      | inl (YAMLParseError m) => Ret (inl (UserError (path +:+ ": YAML 파싱 실패 — " +:+ first_line m)))
      | inl YamlOther => Ret (inl OtherError)
      end
  end.

Definition readPolicyFile {A} (dir name : string) (schema : json -> option A) : PProg A :=
  attempt j := readYamlFile dir name in
  match schema j with
  | None => Ret (inl (UserError (name +:+ ":" +:+ lf +:+ formatZodIssues (zod_issues name j))))
  | Some a => Ret (inr a)
  end.

(** A file that need not be there. *)
Definition optional_file {A} (dir name : string) (schema : json -> option (list A)) : PProg (list A) :=
  await there := pdo (PExists (path_join dir name)) in
  if negb there then Ret (inr []) else readPolicyFile dir name schema.

Definition loadCatalogGrantsFile (dir : string) : PProg (list CatalogGrant) := optional_file dir "catalog.yaml" catalogFileSchema.
Definition loadLoginsFile (dir : string) : PProg (list PgLogin) := optional_file dir "logins.yaml" loginsFileSchema.

Definition loadPolicies (dir : string) : PProg Declaration :=
  attempt roles := readPolicyFile dir "roles.yaml" rolesFileSchema in
  attempt groups := readPolicyFile dir "groups.yaml" groupsFileSchema in
  attempt resources := readPolicyFile dir "resources.yaml" resourcesFileSchema in
  attempt catalogGrants := loadCatalogGrantsFile dir in
  attempt logins := loadLoginsFile dir in
  let d := mkDeclaration roles groups resources (Some catalogGrants) (Some logins) in
  Ret (if declarationSchema d then inr d else inl OtherError).

(** ** The command *)

Definition keycloak_text (k : KeycloakSpec) : string := json_pretty EmptyString (keycloak_json k) +:+ lf.

Definition artefact_files (outDir : string) (a : Artifacts) : list (string * string) :=
  [(path_join outDir "trino.rego", rego a); (path_join outDir "roles.sql", pgddl a);
   (path_join outDir "keycloak.json", keycloak_text (keycloak a))].

(** [writeFileSync] of one file after the other, until one fails. *)
Fixpoint write_all (files : list (string * string)) : PProg unit :=
  match files with
  | [] => Ret (inr tt)
  | (path, content) :: rest => attempt _ := pdo (PWrite path content) in write_all rest
  end.

Definition compile_command (dir outDir : string) : PProg unit :=
  attempt d := loadPolicies dir in
  match compileAll d with
  | inl m => Ret (inl (CompileError m))
  | inr a =>
      attempt _ := pdo (PMkdir outDir) in
      attempt _ := write_all (artefact_files outDir a) in
      await _ := pdo (PPrint ("컴파일 완료 → " +:+ outDir +:+ " (trino.rego, roles.sql, keycloak.json)")) in
      Ret (inr tt)
  end.

Definition reportUserErrorOrRethrow (e : CtlError) (outDir : string) : prog PAns Ended :=
  match e with
  | UserError m => await _ := pdo (PPrintError m) in Ret (Exited 1)
  | CompileError m =>
      if starts_with "선언 검증 실패" m then await _ := pdo (PPrintError m) in Ret (Exited 1) else Ret Crashed
  | FsError e =>
      if String.eqb (er_code e) "EEXIST" then
        await _ := pdo (PPrintError ("출력 경로가 이미 파일로 존재한다: " +:+ default outDir (er_path e))) in Ret (Exited 1)
      else Ret Crashed
  | OtherError => Ret Crashed
  end.

Definition main (argv : list string) : prog PAns Ended :=
  match parseArgs argv with
  | inl line => await _ := pdo (PPrintError line) in Ret (Exited 2)
  | inr (dir, outDir) =>
      await done := compile_command dir outDir in
      match done with
      | inr _ => Ret (Exited 0)
      | inl e => reportUserErrorOrRethrow e outDir
      end
  end.
End ctl.

(** ** What the command line writes, and what it accepts

    The theorems of [PolicyCtl]: files are written only for a declaration that was read
    and compiled, and the schemas accept exactly the well-formed declarations. *)
(** ** Parsed declarations are well-formed *)

Ltac parsed H := repeat (apply bind_Some in H as (? & ? & H)); injection H as <-.

Lemma field_min1 j key s : field j key ≫= string_min1 = Some s -> nonempty_str s = true.
Proof. by intros (v & _ & H%string_min1_spec)%bind_Some. Qed.

Lemma field_array_min1 {A} (p : json -> option A) j key l : field j key ≫= array_min1 p = Some l -> nonempty l = true.
Proof. intros (v & _ & H%array_min1_nonempty)%bind_Some. by destruct l. Qed.

Lemma parse_grant_ok j g : parse_grant j = Some g -> grantSchema g = true.
Proof. unfold parse_grant. intros H. parsed H. unfold grantSchema. cbn. by erewrite !field_array_min1. Qed.

Lemma parse_resource_ok j r : parse_resource j = Some r -> resourceSchema r = true /\ r_engine r <> None.
Proof.
  unfold parse_resource. intros H. parsed H. unfold resourceSchema, sensitive_of. cbn. split; [|done].
  erewrite field_min1 by done. cbn. apply andb_true_iff. split.
  - match goal with H : _ ≫= array_of parse_grant = Some _ |- _ => apply bind_Some in H as (v & _ & H) end.
    eapply array_of_forallb; [apply parse_grant_ok|done].
  - match goal with H : opt_field _ _ = Some ?s |- forallb _ (default [] ?s) = true => rename H into Hs; destruct s as [s|]; [|done] end.
    cbn. destruct (field j "sensitiveColumns") as [v|]; [|done]. cbn in Hs. destruct (array_of string_min1 v) as [s'|] eqn:E; [|done].
    injection Hs as <-. eapply array_of_forallb; [|exact E]. intros j' a Ha. by apply string_min1_spec in Ha.
Qed.

Lemma parse_role_ok j r : parse_role j = Some r -> roleSchema r = true.
Proof. unfold parse_role. intros H. parsed H. by eapply field_min1. Qed.

Lemma parse_group_ok j g : parse_group j = Some g -> groupSchema g = true.
Proof. unfold parse_group. intros H. parsed H. unfold groupSchema. cbn. by erewrite field_min1, field_array_min1. Qed.

Lemma parse_catalog_grant_ok j c : parse_catalog_grant j = Some c -> catalogGrantSchema c = true.
Proof. unfold parse_catalog_grant. intros H. parsed H. unfold catalogGrantSchema. cbn. by erewrite field_min1, !field_array_min1. Qed.

Lemma parse_login_ok j l : parse_login j = Some l -> pgLoginSchema l = true.
Proof. unfold parse_login. intros H. parsed H. unfold pgLoginSchema. cbn. by erewrite !field_min1, field_array_min1. Qed.

Lemma file_schema_ok {A} key (p : json -> option A) (q : A -> bool) j l :
  (forall j a, p j = Some a -> q a = true) -> file_schema key p j = Some l -> forallb q l = true.
Proof.
  intros Hp. unfold file_schema. intros (_ & _ & (v & _ & H)%bind_Some)%bind_Some. by eapply array_of_forallb.
Qed.

Lemma field_array_ok {A} (p : json -> option A) (q : A -> bool) j key l :
  (forall j a, p j = Some a -> q a = true) -> field j key ≫= array_of p = Some l -> forallb q l = true.
Proof. intros Hp (v & _ & H)%bind_Some. by eapply array_of_forallb. Qed.

Lemma opt_array_ok {A} (p : json -> option A) (q : A -> bool) j l :
  (forall j a, p j = Some a -> q a = true) -> opt_field (array_of p) j = Some l -> forallb q (default [] l) = true.
Proof.
  intros Hp. destruct j as [v|]; [|by intros [= <-]]. cbn. destruct (array_of p v) as [l'|] eqn:E; [|done].
  intros [= <-]. by eapply array_of_forallb.
Qed.

Lemma parse_declaration_ok j d : parse_declaration j = Some d -> declarationSchema d = true.
Proof.
  unfold parse_declaration. intros H. parsed H. unfold declarationSchema. cbn.
  erewrite (field_array_ok parse_role), (field_array_ok parse_group), (field_array_ok parse_resource),
    (opt_array_ok parse_catalog_grant), (opt_array_ok parse_login);
    eauto using parse_role_ok, parse_group_ok, parse_catalog_grant_ok, parse_login_ok.
  intros j' a Ha. by apply parse_resource_ok in Ha as [? _].
Qed.

(** ** Every well-formed declaration can be written down *)

Definition opt_json {A} (key : string) (f : A -> json) (x : option A) : list (string * json) :=
  match x with None => [] | Some a => [(key, f a)] end.

Definition grant_json (g : Grant) : json :=
  JObj ([("roles", JStrs (g_roles g)); ("privileges", JStrs (map privilege_name (g_privileges g)))] ++
    opt_json "columnMask" (fun m => JObj (map (fun kv : string * MaskKind => (kv.1, JStr (mask_name kv.2))) m)) (g_columnMask g) ++
    opt_json "rowFilter" JStr (g_rowFilter g) ++ opt_json "allowUnmasked" JBool (g_allowUnmasked g)).

Definition resource_json (r : PolicyModel.Resource) : json :=
  JObj ([("resource", JStr (r_resource r)); ("classification", JStr (classification_name (r_classification r)));
    ("grants", JArr (map grant_json (r_grants r)))] ++
    opt_json "sensitiveColumns" JStrs (r_sensitiveColumns r) ++ opt_json "engine" (fun e => JStr (engine_name e)) (r_engine r)).

Definition role_json (r : Role) : json := JObj (("name", JStr (ro_name r)) :: opt_json "includes" JStrs (ro_includes r)).
Definition group_json (g : Group) : json := JObj [("name", JStr (gr_name g)); ("roles", JStrs (gr_roles g))].

Definition catalog_grant_json (c : CatalogGrant) : json :=
  JObj [("catalog", JStr (cg_catalog c)); ("roles", JStrs (cg_roles c)); ("operations", JStrs (map operation_name (cg_operations c)))].

Definition login_json (l : PgLogin) : json :=
  JObj [("name", JStr (l_name l)); ("memberOf", JStrs (l_memberOf l)); ("database", JStr (l_database l))].

Definition declaration_json (d : Declaration) : json :=
  JObj ([("roles", JArr (map role_json (d_roles d))); ("groups", JArr (map group_json (d_groups d)));
    ("resources", JArr (map resource_json (d_resources d)))] ++
    opt_json "catalogGrants" (fun l => JArr (map catalog_grant_json l)) (d_catalogGrants d) ++
    opt_json "logins" (fun l => JArr (map login_json l)) (d_logins d)).

(** The schema fills in the engine of a resource. *)
Definition with_engine (r : PolicyModel.Resource) : PolicyModel.Resource :=
  mkResource (r_resource r) (r_classification r) (r_grants r) (r_sensitiveColumns r) (Some (engine_of r)).
Definition with_engines (d : Declaration) : Declaration :=
  mkDeclaration (d_roles d) (d_groups d) (map with_engine (d_resources d)) (d_catalogGrants d) (d_logins d).

Lemma array_of_map {A B} (p : json -> option B) (f : A -> json) (g : A -> B) l :
  (forall a, a ∈ l -> p (f a) = Some (g a)) -> array_of p (JArr (map f l)) = Some (map g l).
Proof.
  cbn. intros Hp. induction l as [|a l IH]; [done|]. cbn. rewrite Hp by left. cbn.
  rewrite IH by (intros; apply Hp; by right). done.
Qed.

Lemma strs_back l : array_of string_of (JStrs l) = Some l.
Proof. unfold JStrs. rewrite (array_of_map _ _ (fun s => s)) by done. by rewrite map_id. Qed.

Lemma strs_min1_back l : nonempty l = true -> array_min1 string_of (JStrs l) = Some l.
Proof. unfold array_min1. rewrite strs_back. by destruct l. Qed.

Lemma names_min1_back {A} (p : json -> option A) (name : A -> string) l :
  (forall a, p (JStr (name a)) = Some a) -> nonempty l = true -> array_min1 p (JStrs (map name l)) = Some l.
Proof.
  intros Hp. unfold array_min1, JStrs. rewrite map_map, (array_of_map _ _ (fun a => a)) by (intros; apply Hp).
  rewrite map_id. by destruct l.
Qed.

Lemma string_back s : nonempty_str s = true -> string_min1 (JStr s) = Some s.
Proof. unfold string_min1, nonempty_str, present1. cbn. by intros ->. Qed.

Lemma mask_back m :
  record_with maskKindSchema (JObj (map (fun kv : string * MaskKind => (kv.1, JStr (mask_name kv.2))) m)) = Some m.
Proof.
  unfold record_with. cbn [is_object mbind option_bind]. induction m as [|[k v] m IH]; [done|]. cbn [map mapM].
  assert (maskKindSchema (JStr (mask_name v)) = Some v) as Hv by (by destruct v).
  cbn [fst snd]. rewrite Hv. cbn. cbn in IH. by rewrite IH.
Qed.

(** The keys of a literal object are known ones, and the values under literal keys. *)
Ltac look :=
  repeat match goal with
  | |- context [strict ?k ?j] => change (strict k j) with (Some tt)
  | |- context [field ?j ?k] => let v := eval lazy in (field j k) in change (field j k) with v
  end; cbn [mbind option_bind opt_field fmap option_fmap option_map].

Lemma grant_back g : grantSchema g = true -> parse_grant (grant_json g) = Some g.
Proof.
  unfold grantSchema. intros [Hr Hp]%andb_prop. destruct g as [roles privs m f u]. cbn [g_roles g_privileges] in Hr, Hp.
  apply strs_min1_back in Hr. apply (names_min1_back privilegeSchema privilege_name) in Hp; [|by intros []].
  pose proof (fun m => mask_back m) as Hm. unfold parse_grant, grant_json.
  cbn [g_roles g_privileges g_columnMask g_rowFilter g_allowUnmasked].
  remember (JStrs roles) as jr. remember (JStrs (map privilege_name privs)) as jp.
  destruct m as [m|]; [specialize (Hm m); cbn [opt_json]; remember (JObj (map _ m)) as jm|];
    destruct f as [f|], u as [u|]; cbn [opt_json app]; look; rewrite Hr; look; rewrite Hp; look; rewrite ?Hm; done.
Qed.

Lemma array_back {A} (p : json -> option A) (f : A -> json) (ok : A -> bool) l :
  (forall a, ok a = true -> p (f a) = Some a) -> forallb ok l = true -> array_of p (JArr (map f l)) = Some l.
Proof.
  intros Hp Hl. rewrite (array_of_map _ _ (fun a => a)), map_id; [done|].
  intros a Ha. apply Hp. by eapply forallb_elem in Hl.
Qed.

Lemma strs_min1s_back l : forallb nonempty_str l = true -> array_of string_min1 (JStrs l) = Some l.
Proof. apply array_back, string_back. Qed.

Lemma resource_back r : resourceSchema r = true -> parse_resource (resource_json r) = Some (with_engine r).
Proof.
  unfold resourceSchema. intros [[Hn Hg]%andb_prop Hs]%andb_prop. destruct r as [n c gs s e].
  cbn [r_resource r_grants] in Hn, Hg. apply string_back in Hn. apply (array_back _ _ _ _ grant_back) in Hg.
  assert (classificationSchema (JStr (classification_name c)) = Some c) as Hc by (by destruct c).
  assert (forall e, engineSchema (JStr (engine_name e)) = Some e) as He by (by intros []).
  unfold parse_resource, resource_json, with_engine, engine_of. unfold sensitive_of in Hs.
  cbn [r_resource r_classification r_grants r_sensitiveColumns r_engine] in *.
  remember (JStr n) as jn. remember (JStr (classification_name c)) as jc. remember (JArr (map grant_json gs)) as jg.
  destruct s as [s|]; [cbn in Hs; apply strs_min1s_back in Hs; remember (JStrs s) as js; cbn [opt_json]; rewrite <-Heqjs|];
    (destruct e as [e|]; [specialize (He e); remember (JStr (engine_name e)) as je|]); cbn [opt_json app];
    rewrite <-?Heqje; look; rewrite Hn; look; rewrite Hc; look; rewrite Hg; look; rewrite ?Hs; look; rewrite ?He; done.
Qed.

Lemma role_back r : roleSchema r = true -> parse_role (role_json r) = Some r.
Proof.
  destruct r as [n [i|]]; unfold roleSchema, parse_role, role_json; cbn [ro_name ro_includes opt_json]; intros Hn%string_back;
    remember (JStr n) as jn; [pose proof (strs_back i) as Hi; remember (JStrs i) as ji|]; look; rewrite Hn; look; by rewrite ?Hi.
Qed.

Lemma group_back g : groupSchema g = true -> parse_group (group_json g) = Some g.
Proof.
  destruct g as [n r]; unfold groupSchema, parse_group, group_json; cbn [gr_name gr_roles].
  intros [Hn%string_back Hr%strs_min1_back]%andb_prop. remember (JStr n) as jn. remember (JStrs r) as jr.
  look. rewrite Hn. look. by rewrite Hr.
Qed.

Lemma catalog_grant_back c : catalogGrantSchema c = true -> parse_catalog_grant (catalog_grant_json c) = Some c.
Proof.
  destruct c as [n r o]; unfold catalogGrantSchema, parse_catalog_grant, catalog_grant_json; cbn [cg_catalog cg_roles cg_operations].
  intros [[Hn%string_back Hr%strs_min1_back]%andb_prop Ho]%andb_prop.
  apply (names_min1_back queryOperationSchema operation_name) in Ho; [|by intros []].
  remember (JStr n) as jn. remember (JStrs r) as jr. remember (JStrs (map operation_name o)) as jo.
  look. rewrite Hn. look. rewrite Hr. look. by rewrite Ho.
Qed.

Lemma login_back l : pgLoginSchema l = true -> parse_login (login_json l) = Some l.
Proof.
  destruct l as [n m d]; unfold pgLoginSchema, parse_login, login_json; cbn [l_name l_memberOf l_database].
  intros [[Hn%string_back Hm%strs_min1_back]%andb_prop Hd%string_back]%andb_prop.
  remember (JStr n) as jn. remember (JStrs m) as jm. remember (JStr d) as jd.
  look. rewrite Hn. look. rewrite Hm. look. by rewrite Hd.
Qed.

Lemma declaration_back d : declarationSchema d = true -> parse_declaration (declaration_json d) = Some (with_engines d).
Proof.
  unfold declarationSchema. intros [[[[Hr Hg]%andb_prop Hs]%andb_prop Hc]%andb_prop Hl]%andb_prop.
  destruct d as [rs gs ss cs ls]. cbn [d_roles d_groups d_resources d_catalogGrants d_logins] in *.
  apply (array_back _ _ _ _ role_back) in Hr. apply (array_back _ _ _ _ group_back) in Hg.
  assert (array_of parse_resource (JArr (map resource_json ss)) = Some (map with_engine ss)) as Hs'.
  { apply array_of_map. intros r Hin. apply resource_back. by eapply forallb_elem in Hs. }
  unfold parse_declaration, declaration_json, with_engines. cbn [d_roles d_groups d_resources d_catalogGrants d_logins].
  remember (JArr (map role_json rs)) as jr. remember (JArr (map group_json gs)) as jg. remember (JArr (map resource_json ss)) as js.
  destruct cs as [cs|]; [cbn in Hc; apply (array_back _ _ _ _ catalog_grant_back) in Hc; cbn [opt_json];
      remember (JArr (map catalog_grant_json cs)) as jc|];
    (destruct ls as [ls|]; [cbn in Hl; apply (array_back _ _ _ _ login_back) in Hl; cbn [opt_json]; remember (JArr (map login_json ls)) as jl|]);
    cbn [opt_json app]; look; rewrite Hr; look; rewrite Hg; look; rewrite Hs'; look; rewrite ?Hc; look; by rewrite ?Hl.
Qed.

Lemma with_engines_schema d : declarationSchema (with_engines d) = declarationSchema d.
Proof.
  assert (forall l, forallb resourceSchema (map with_engine l) = forallb resourceSchema l) as H.
  { induction l as [|r l IH]; [done|]. cbn. by rewrite IH. }
  unfold declarationSchema, with_engines. cbn. by rewrite H.
Qed.

Lemma parsed_engines j d : parse_declaration j = Some d -> with_engines d = d.
Proof.
  unfold parse_declaration. intros H. parsed H. unfold with_engines. cbn. f_equal.
  match goal with H : _ ≫= array_of parse_resource = Some ?l |- map _ ?l = ?l =>
    apply bind_Some in H as (v & _ & H); destruct v; try done; rename H into Hs; revert Hs; generalize l; clear end.
  intros rs. cbn. rename l into js. revert js. induction rs as [|r rs IH]; intros js Hs; [done|].
  destruct js as [|j js]; [done|]. cbn in Hs. apply bind_Some in Hs as (r' & Hr & (rs' & Hrs & [= <- <-])%bind_Some).
  cbn. f_equal; [|by eapply IH]. apply parse_resource_ok in Hr as [_ He]. destruct r' as [? ? ? ? [e|]]; [done|done].
Qed.

(** Declarations round trip through their YAML value.  A declaration that satisfies the
    constraints of the schemas, and no other, is read back from the value that says it,
    with the default engine filled in; and whatever value the schemas accept, the
    declaration read from it satisfies the constraints and is read back unchanged. *)
Theorem declaration_roundtrip j d :
  (parse_declaration (declaration_json d) = Some (with_engines d) <-> declarationSchema d = true) /\
  (parse_declaration j = Some d -> declarationSchema d = true /\ parse_declaration (declaration_json d) = Some d).
Proof.
  split; [split; [|apply declaration_back]|].
  - intros H%parse_declaration_ok. by rewrite with_engines_schema in H.
  - intros H. pose proof (parse_declaration_ok _ _ H) as Hd. split; [done|].
    rewrite <-(parsed_engines _ _ H) at 2. by apply declaration_back.
Qed.

(** ** What a run writes *)

Section ctl.
Context (parseYaml : string -> result YamlError json) (zod_issues : string -> json -> list (list string * string))
  (path_join : string -> string -> string).
Local Abbreviation loadPolicies := (loadPolicies parseYaml zod_issues path_join).

(** A file of the directory was read in the run and says [a]. *)
Definition file_says {A} (t : trace PAns) (dir name : string) (schema : json -> option A) (a : A) : Prop :=
  exists text j, Did (PRead (path_join dir name)) (inr text) ∈ t /\ parseYaml text = inr j /\ schema j = Some a.

Definition optional_says {A} (t : trace PAns) (dir name : string) (schema : json -> option (list A)) (l : list A) : Prop :=
  file_says t dir name schema l \/ Did (PExists (path_join dir name)) false ∈ t /\ l = [].

(** The declaration is what the files of the directory say. *)
Definition declared (t : trace PAns) (dir : string) (d : Declaration) : Prop :=
  file_says t dir "roles.yaml" rolesFileSchema (d_roles d) /\ file_says t dir "groups.yaml" groupsFileSchema (d_groups d) /\
  file_says t dir "resources.yaml" resourcesFileSchema (d_resources d) /\
  (exists c, d_catalogGrants d = Some c /\ optional_says t dir "catalog.yaml" catalogFileSchema c) /\
  (exists l, d_logins d = Some l /\ optional_says t dir "logins.yaml" loginsFileSchema l).

Lemma file_says_mono {A} t t' dir name (schema : json -> option A) a :
  t ⊆ t' -> file_says t dir name schema a -> file_says t' dir name schema a.
Proof. intros Ht (text & j & Hin & ? & ?). exists text, j. eauto. Qed.

Lemma optional_says_mono {A} t t' dir name (schema : json -> option (list A)) l :
  t ⊆ t' -> optional_says t dir name schema l -> optional_says t' dir name schema l.
Proof. intros Ht [H|[H ->]]; [left; by eapply file_says_mono|right; eauto]. Qed.

Lemma runs_readPolicyFile {A} dir name (schema : json -> option A) t r :
  runs (readPolicyFile parseYaml zod_issues path_join dir name schema) t r ->
  (forall path content x, Did (PWrite path content) x ∉ t) /\ (forall path x, Did (PMkdir path) x ∉ t) /\
  match r with inl _ => True | inr a => file_says t dir name schema a end.
Proof.
  unfold readPolicyFile, readYamlFile. intros H. destruct t as [|c t]; [by destruct H|].
  destruct H as (raw & -> & H). cbn [bind] in H.
  assert (t = [] /\ match r with inl _ => True | inr a => exists text j, raw = inr text /\ parseYaml text = inr j /\ schema j = Some a end) as [-> Hr].
  { destruct raw as [e|text]; [destruct e as [| |e|]; try destruct (String.eqb (er_code e) "ENOENT"); by destruct H as [-> ->]|].
    destruct (parseYaml text) as [[]|j] eqn:Ey; [by destruct H as [-> ->]..|]. cbn [bind] in H.
    destruct (schema j) as [a|] eqn:Es; destruct H as [-> ->]; [eauto 10|done]. }
  split_and!; [by intros ??? ?%list_elem_of_singleton|by intros ?? ?%list_elem_of_singleton|].
  destruct r as [|a]; [done|]. destruct Hr as (text & j & -> & ? & ?). exists text, j. by split_and!; [left|..].
Qed.

(** Reads only. *)
Definition reading (t : trace PAns) : Prop :=
  (forall path content x, Did (PWrite path content) x ∉ t) /\ (forall path x, Did (PMkdir path) x ∉ t).

Lemma reading_app t u : reading t -> reading u -> reading (t ++ u).
Proof. intros [H1 H2] [H3 H4]. split; intros; rewrite not_elem_of_app; eauto. Qed.

Lemma reading_nil : reading [].
Proof. split; intros; apply not_elem_of_nil. Qed.

Lemma runs_optional_file {A} dir name (schema : json -> option (list A)) t r :
  runs (optional_file parseYaml zod_issues path_join dir name schema) t r ->
  reading t /\ match r with inl _ => True | inr l => optional_says t dir name schema l end.
Proof.
  unfold optional_file. intros (t1 & t2 & there & -> & H1 & H2)%runs_bind. destruct t1 as [|c t1]; [done|].
  destruct H1 as (x & -> & -> & <-). destruct there; cbn [negb] in H2.
  - apply runs_readPolicyFile in H2 as (H1 & H3 & H4). split.
    + split; intros; cbn; rewrite not_elem_of_cons; split; done || eauto.
    + destruct r; [done|]. left. eapply file_says_mono; [|exact H4]. set_solver.
  - destruct H2 as [-> ->]. split; [split; by intros; apply not_elem_of_cons; split; [|apply not_elem_of_nil]|].
    right. split; [left|done].
Qed.

Lemma runs_bind_ok {A B} (p : PProg A) (f : A -> PProg B) t r :
  runs (bind_ok p f) t r -> exists t1 t2 x, t = t1 ++ t2 /\ runs p t1 x /\
    match x with inl e => t2 = [] /\ r = inl e | inr a => runs (f a) t2 r end.
Proof. intros (t1 & t2 & x & -> & H1 & H2)%runs_bind. exists t1, t2, x. by destruct x. Qed.

(** A read that fails ends the load; one that succeeds goes on. *)
Lemma load_step {A B} (p : PProg A) (f : A -> PProg B) t r (says : trace PAns -> A -> Prop) (Q : trace PAns -> B -> Prop) :
  (forall t1 x, runs p t1 x -> reading t1 /\ match x with inl _ => True | inr a => says t1 a end) ->
  (forall t1 t2 a r, says t1 a -> runs (f a) t2 r -> reading t2 /\ match r with inl _ => True | inr b => Q (t1 ++ t2) b end) ->
  runs (bind_ok p f) t r -> reading t /\ match r with inl _ => True | inr b => Q t b end.
Proof.
  intros Hp Hf (t1 & t2 & x & -> & H1 & H2)%runs_bind_ok. destruct (Hp _ _ H1) as [R1 S1].
  destruct x as [e|a]; [destruct H2 as [-> ->]; by rewrite app_nil_r|].
  destruct (Hf _ _ _ _ S1 H2) as [R2 Q2]. split; [by apply reading_app|done].
Qed.

Lemma readPolicyFile_says {A} dir name (schema : json -> option A) t r :
  runs (readPolicyFile parseYaml zod_issues path_join dir name schema) t r ->
  reading t /\ match r with inl _ => True | inr a => file_says t dir name schema a end.
Proof. intros (H1 & H2 & H3)%runs_readPolicyFile. by repeat split. Qed.

Lemma runs_loadPolicies dir t r :
  runs (loadPolicies dir) t r ->
  reading t /\ match r with inl _ => True | inr d => declared t dir d /\ declarationSchema d = true end.
Proof.
  unfold loadPolicies. apply (load_step _ _ _ _ (fun t => file_says t dir "roles.yaml" rolesFileSchema)
    (fun t d => declared t dir d /\ declarationSchema d = true)); [apply readPolicyFile_says|].
  intros t1 u1 roles r1 H1. apply (load_step _ _ _ _ (fun t => file_says t dir "groups.yaml" groupsFileSchema)
    (fun t d => declared (t1 ++ t) dir d /\ declarationSchema d = true)); [apply readPolicyFile_says|].
  intros t2 u2 groups r2 H2. apply (load_step _ _ _ _ (fun t => file_says t dir "resources.yaml" resourcesFileSchema)
    (fun t d => declared (t1 ++ t2 ++ t) dir d /\ declarationSchema d = true)); [apply readPolicyFile_says|].
  intros t3 u3 resources r3 H3. apply (load_step _ _ _ _ (fun t => optional_says t dir "catalog.yaml" catalogFileSchema)
    (fun t d => declared (t1 ++ t2 ++ t3 ++ t) dir d /\ declarationSchema d = true)); [apply runs_optional_file|].
  intros t4 u4 catalogGrants r4 H4. apply (load_step _ _ _ _ (fun t => optional_says t dir "logins.yaml" loginsFileSchema)
    (fun t d => declared (t1 ++ t2 ++ t3 ++ t4 ++ t) dir d /\ declarationSchema d = true)); [apply runs_optional_file|].
  intros t5 u5 logins r5 H5 [-> ->]. split; [apply reading_nil|]. rewrite app_nil_r.
  destruct (declarationSchema _) eqn:Hd; [|done]. split; [|done]. split_and!; cbn.
  - eapply file_says_mono; [|exact H1]. set_solver.
  - eapply file_says_mono; [|exact H2]. set_solver.
  - eapply file_says_mono; [|exact H3]. set_solver.
  - exists catalogGrants. split; [done|]. eapply optional_says_mono; [|exact H4]. set_solver.
  - exists logins. split; [done|]. eapply optional_says_mono; [|exact H5]. set_solver.
Qed.

(** The writes of a run that succeeded, in order. *)
Definition written (t : trace PAns) : list (string * string) :=
  omap (fun c : call PAns => match c with Did (PWrite path content) (inr _) => Some (path, content) | _ => None end) t.

Lemma runs_write_all files t r :
  runs (write_all files) t r ->
  (forall path content x, Did (PWrite path content) x ∈ t -> (path, content) ∈ files) /\
  match r with inl _ => True | inr _ => written t = files end.
Proof.
  revert t r. induction files as [|[path content] files IH]; intros t r.
  - intros [-> ->]. split; [by intros ??? ?%not_elem_of_nil|done].
  - cbn [write_all]. intros (t1 & t2 & x & -> & H1 & H2)%runs_bind_ok. destruct t1 as [|c t1]; [done|].
    destruct H1 as (y & -> & -> & <-). destruct x as [e|u].
    + destruct H2 as [-> ->]. split; [|done]. intros p c x Hin%list_elem_of_singleton. injection Hin as -> -> _. left.
    + apply IH in H2 as [H2 H3]. split.
      * intros p c y [Hin|Hin]%elem_of_cons; [injection Hin as -> -> _; left|right; by eapply H2].
      * destruct r; [done|]. by rewrite <-H3.
Qed.

Lemma written_reading t : reading t -> written t = [].
Proof.
  intros [H _]. unfold written. induction t as [|c t IH]; [done|].
  assert (written t = []) as Ht by (apply IH; intros path content x Hin; apply (H path content x); by right).
  unfold written in Ht. cbn. destruct c as [[] r]; try done. exfalso. by eapply H; left.
Qed.

Lemma written_app t u : written (t ++ u) = written t ++ written u.
Proof. apply omap_app. Qed.

Lemma declared_mono t t' dir d : t ⊆ t' -> declared t dir d -> declared t' dir d.
Proof.
  intros Ht (H1 & H2 & H3 & (c & Hc & H4) & (l & Hl & H5)).
  split_and!; [by eapply file_says_mono..|exists c|exists l]; split; try done; by eapply optional_says_mono.
Qed.

Lemma one_print_reading e r : (forall path content, e <> PWrite path content) -> (forall path, e <> PMkdir path) -> reading [Did e r].
Proof.
  intros H1 H2. split; [intros path content x|intros path x]; intros Hin%list_elem_of_singleton;
    [eapply H1|eapply H2]; by injection Hin.
Qed.

(** What is printed at the end writes nothing, and only success exits with 0. *)
Lemma runs_end outDir (out : result CtlError unit) t e :
  runs (match out with inr _ => Ret (Exited 0) | inl err => reportUserErrorOrRethrow err outDir end) t e ->
  reading t /\ (e = Exited 0 -> exists u, out = inr u).
Proof.
  destruct out as [err|u]; [|intros [-> ->]; split; [apply reading_nil|eauto]].
  assert (forall line, runs (bind (pdo (PPrintError line)) (fun _ => Ret (Exited 1))) t e -> reading t /\ e = Exited 1) as Hp.
  { intros line. destruct t as [|c t]; [done|]. intros (x & -> & -> & ->). split; [by apply one_print_reading|done]. }
  assert (runs (Ret Crashed) t e -> reading t /\ e = Crashed) as Hc by (intros [-> ->]; split; [apply reading_nil|done]).
  intros H. enough (reading t /\ (e = Exited 1 \/ e = Crashed)) as [Hr He] by (split; [done|by destruct He as [-> | ->]]).
  destruct err as [m|m|er|]; cbn [reportUserErrorOrRethrow] in H; repeat case_match;
    first [apply Hp in H as [? ?]|apply Hc in H as [? ?]]; auto.
Qed.

Lemma write_all_no_dir files t r : runs (write_all files) t r -> forall path x, Did (PMkdir path) x ∉ t.
Proof.
  revert t. induction files as [|[path content] files IH]; intros t; [intros [-> _] ? ?; apply not_elem_of_nil|].
  cbn [write_all]. intros (t1 & t2 & x & -> & H1 & H2)%runs_bind_ok. destruct t1 as [|c t1]; [done|].
  destruct H1 as (y & -> & -> & <-). intros p z [Hin|Hin]%elem_of_cons; [done|].
  destruct x; [destruct H2 as [-> _]; by apply not_elem_of_nil in Hin|by eapply IH].
Qed.

Lemma runs_output outDir files t out :
  runs (attempt _ := pdo (PMkdir outDir) in attempt _ := write_all files in
        await _ := pdo (PPrint ("컴파일 완료 → " +:+ outDir +:+ " (trino.rego, roles.sql, keycloak.json)")) in Ret (inr tt)) t out ->
  (forall path x, Did (PMkdir path) x ∈ t -> path = outDir) /\
  (forall path content x, Did (PWrite path content) x ∈ t -> (path, content) ∈ files) /\
  (forall u : unit, out = inr u -> written t = files).
Proof.
  intros (t1 & t2 & x & -> & H1 & H2)%runs_bind_ok. destruct t1 as [|c t1]; [done|]. destruct H1 as (y & -> & -> & <-).
  destruct x as [e|v]; [destruct H2 as [-> ->]|apply runs_bind_ok in H2 as (t3 & t4 & w & -> & H3 & H4)].
  { split_and!; [by intros path x [= ->]%list_elem_of_singleton|by intros path content x Hin%list_elem_of_singleton|done]. }
  pose proof (write_all_no_dir _ _ _ H3) as Hd. apply runs_write_all in H3 as [Hw Ho].
  assert (reading t4 /\ forall u, out = inr u -> exists u', w = inr u') as [Hr4 Hout].
  { destruct w as [e|u]; [destruct H4 as [-> ->]; by split; [apply reading_nil|]|].
    destruct t4 as [|c t4]; [done|]. destruct H4 as (z & -> & -> & ->). split; [by apply one_print_reading|eauto]. }
  cbn [app]. split_and!.
  - intros path x [Hin|[Hin|Hin]%elem_of_app]%elem_of_cons; [by injection Hin|by apply Hd in Hin|by apply Hr4 in Hin].
  - intros path content x [Hin|[Hin|Hin]%elem_of_app]%elem_of_cons; [done|by eapply Hw|by apply Hr4 in Hin].
  - intros u Hu. destruct (Hout u Hu) as [u' ->]. change (written (t3 ++ t4) = files).
    by rewrite written_app, (written_reading t4), app_nil_r.
Qed.

Lemma runs_compile_command dir outDir t (out : result CtlError unit) :
  runs (compile_command parseYaml zod_issues path_join dir outDir) t out ->
  (reading t /\ exists err, out = inl err) \/
  exists d a, declared t dir d /\ declarationSchema d = true /\ compileAll d = inr a /\
    (forall path x, Did (PMkdir path) x ∈ t -> path = outDir) /\
    (forall path content x, Did (PWrite path content) x ∈ t -> (path, content) ∈ artefact_files path_join outDir a) /\
    (forall u, out = inr u -> written t = artefact_files path_join outDir a).
Proof.
  unfold compile_command. intros (t1 & t2 & x & -> & H1 & H2)%runs_bind_ok. apply runs_loadPolicies in H1 as [Hr1 Hd].
  destruct x as [err|d]; [destruct H2 as [-> ->]; left; rewrite app_nil_r; eauto|]. destruct Hd as [Hd Hs].
  destruct (compileAll d) as [m|a] eqn:Ec; [destruct H2 as [-> ->]; left; rewrite app_nil_r; eauto|].
  right. destruct (runs_output _ _ _ _ H2) as (Hm & Hw & Ho). exists d, a.
  split_and!; [by apply (declared_mono t1); [set_solver|]|done|done|..].
  - intros path x [Hin|Hin]%elem_of_app; [by apply Hr1 in Hin|by eapply Hm].
  - intros path content x [Hin|Hin]%elem_of_app; [by apply Hr1 in Hin|by eapply Hw].
  - intros u Hu. rewrite written_app, (written_reading t1) by done. by eapply Ho.
Qed.

(** C26: A run writes what its policy files compile to, and nothing else.  Every write and
    every new directory of any run, whatever fails, is for the artefacts of a declaration
    that was read from the directory of the command line, satisfies the schemas and was
    compiled; a run that exits with 0 wrote all three artefacts, once each and in order.
    A command line that is refused reads and writes nothing and exits with 2. *)
Theorem policyctl_writes_compiled argv t e :
  runs (main parseYaml zod_issues path_join argv) t e ->
  match parseArgs argv with
  | inl line => e = Exited 2 /\ t = [Did (PPrintError line) tt]
  | inr (dir, outDir) =>
      (reading t /\ e <> Exited 0) \/
      exists d a, declared t dir d /\ declarationSchema d = true /\ compileAll d = inr a /\
        (forall path x, Did (PMkdir path) x ∈ t -> path = outDir) /\
        (forall path content x, Did (PWrite path content) x ∈ t -> (path, content) ∈ artefact_files path_join outDir a) /\
        (e = Exited 0 -> written t = artefact_files path_join outDir a)
  end.
Proof.
  unfold main. destruct (parseArgs argv) as [line|[dir outDir]].
  { intros (t1 & t2 & [] & -> & H1 & [-> ->])%runs_bind. destruct t1 as [|c t1]; [done|]. by destruct H1 as ([] & -> & -> & _). }
  intros (t1 & t2 & out & -> & H1 & H2)%runs_bind. destruct (runs_end _ _ _ _ H2) as [Hr2 He].
  apply runs_compile_command in H1 as [[Hr1 Ho]|(d & a & Hd & Hs & Hc & Hm & Hw & Ho)].
  - left. split; [by apply reading_app|]. intros ->. destruct (He eq_refl) as [u ->]. by destruct Ho.
  - right. exists d, a. split_and!; [by apply (declared_mono t1); [set_solver|]|done|done|..].
    + intros path x [Hin|Hin]%elem_of_app; [by eapply Hm|]. by apply Hr2 in Hin.
    + intros path content x [Hin|Hin]%elem_of_app; [by eapply Hw|]. by apply Hr2 in Hin.
    + intros ->. destruct (He eq_refl) as [u ->]. rewrite written_app, (written_reading t2), app_nil_r by done. by apply (Ho u).
Qed.
End ctl.

(** ** Witnesses *)

Lemma declaration_roundtrip_witness : declarationSchema platform_declaration = true.
Proof.
  apply (declaration_roundtrip (declaration_json platform_declaration) platform_declaration). vm_compute. reflexivity.
Defined.

(** A directory with the files of the platform declaration; the text of a file is its
    path. *)
Definition demo_join (a b : string) : string := a +:+ "/" +:+ b.

Definition demo_yaml (text : string) : result YamlError json :=
  let d := platform_declaration in
  if String.eqb text "p/roles.yaml" then inr (JObj [("roles", JArr (map role_json (d_roles d)))])
  else if String.eqb text "p/groups.yaml" then inr (JObj [("groups", JArr (map group_json (d_groups d)))])
  else if String.eqb text "p/resources.yaml" then inr (JObj [("resources", JArr (map resource_json (d_resources d)))])
  else if String.eqb text "p/catalog.yaml" then
    inr (JObj [("catalogGrants", JArr (map catalog_grant_json (default [] (d_catalogGrants d))))])
  else inl YamlOther.

Definition demo_files (h : trace PAns) (e : POp) : PAns e :=
  match e with
  | PRead path => inr path
  | PExists path => String.eqb path "p/catalog.yaml"
  | PMkdir _ | PWrite _ _ => inr tt
  | PPrint _ | PPrintError _ => tt
  end.

Definition demo_main : prog PAns Ended := main demo_yaml (fun _ _ => []) demo_join ["compile"; "p"; "--out"; "o"].
Definition demo_compile : trace PAns * Ended := answer demo_files [] demo_main.

Lemma policyctl_writes_compiled_witness :
  demo_compile.2 = Exited 0 /\ exists a, written demo_compile.1 = artefact_files demo_join "o" a.
Proof.
  assert (demo_compile.2 = Exited 0) as He by (vm_compute; reflexivity). split; [exact He|].
  destruct (policyctl_writes_compiled demo_yaml (fun _ _ => []) demo_join ["compile"; "p"; "--out"; "o"] demo_compile.1 demo_compile.2
    (answer_runs demo_files [] demo_main)) as [[_ Hne]|(d & a & _ & _ & _ & _ & _ & Ho)].
  - destruct (Hne He).
  - exists a. exact (Ho He).
Defined.
