(* ===== verification/QueryHistory.v ===== *)
(** * Query history: [schema/queryHistory.ts], [adapters/queryHistory.ts],
    [adapters/upstream/trinoQueryHistory.ts], [routes/queryHistory.ts] of domain-api/src

    The queries a Trino coordinator still retains, with their literals masked, and the
    route that pages through them.  The HTTP client, the cache of the snapshot ([Memo]),
    the timer of the route and the log are calls, as in [Lakekeeper]. *)

From S2P Require Import Prelude JsBase JsText JsJson Zod AssetId Memo SqlRedaction Effects Services.
From Stdlib Require Import Ascii.
From Stdlib Require String.
Open Scope Z_scope.
Open Scope prog_scope.

(** ** Data *)

Record QueryHistoryEntry := mkEntry { qh_id : string; qh_sql : string; qh_state : string }.

Definition queryHistoryEntrySchema (e : QueryHistoryEntry) : bool :=
  present1 (qh_id e) && present1 (qh_sql e) && present1 (qh_state e).

Record QueryHistorySnapshot := mkSnapshot { qs_entries : list QueryHistoryEntry; qs_truncated : bool; qs_upstreamCount : option nat }.

Record BasicQueryInfo := mkQueryInfo { bq_queryId : string; bq_state : string; bq_query : string }.

Definition basicQueryInfoSchema (j : json) : option BasicQueryInfo :=
  i ← field j "queryId" ≫= string_min1; s ← field j "state" ≫= string_min1; q ← field j "query" ≫= string_of;
  Some (mkQueryInfo i s q).

Definition MAX_HISTORY_ENTRIES : nat := 1000.

(** ** Calls *)

Inductive QOp : Type :=
| QGetJson (path : string)
| QHistory
| QSettled (r : result LoadError QueryHistorySnapshot) (weight : nat)
| QDeadline (ms : Z)
| QLog (line : string).

Definition QAns (e : QOp) : Type :=
  match e with
  | QGetJson _ => result LoadError json
  | QHistory => option (result LoadError QueryHistorySnapshot)
  | QDeadline _ => bool
  | QSettled _ _ | QLog _ => unit
  end.

Definition qdo (e : QOp) : prog QAns (QAns e) := perform e.

Record QueryHistoryAdapter := mkHistoryAdapter {
  listQueryHistory : prog QAns (result LoadError (list QueryHistoryEntry));
  readSnapshot : option (prog QAns (result LoadError QueryHistorySnapshot));
}.

(** ** [trinoQueryHistory.ts] *)

(** The text of an entry: never empty. *)
Definition entry_sql (redact : bool) (query : string) : string :=
  let s := trim (if redact then redactSqlLiterals query else query) in
  if String.eqb s EmptyString then "<empty>" else s.

Definition entry_of (redact : bool) (item : BasicQueryInfo) : result LoadError QueryHistoryEntry :=
  let e := mkEntry (bq_queryId item) (entry_sql redact (bq_query item)) (bq_state item) in
  if queryHistoryEntrySchema e then inr e else inl AnyError.

Definition load (redact : bool) : prog QAns (result LoadError QueryHistorySnapshot) :=
  attempt body := qdo (QGetJson "/v1/query") in
  match array_of basicQueryInfoSchema body with
  | None => Ret (inl (UpstreamError Malformed "trino" None))
  | Some items =>
      Ret (let! entries := rmap (entry_of redact) (take MAX_HISTORY_ENTRIES items) in
           inr (mkSnapshot entries (MAX_HISTORY_ENTRIES <? length items)%nat (Some (length items))))%result
  end.

Definition snapshot_weight (r : result LoadError QueryHistorySnapshot) : nat :=
  match r with inr s => length (qs_entries s) | inl _ => 1 end.

Definition read_memo (redact : bool) : prog QAns (result LoadError QueryHistorySnapshot) :=
  await hit := qdo QHistory in
  match hit with
  | Some r => Ret r
  | None =>
      await r := load redact in
      await _ := qdo (QSettled r (snapshot_weight r)) in Ret r
  end.

Definition createTrinoQueryHistoryAdapter (redactSql : option bool) : QueryHistoryAdapter :=
  let redact := default true redactSql in
  mkHistoryAdapter (attempt s := read_memo redact in Ret (inr (qs_entries s))) (Some (read_memo redact)).

(** ** [routes/queryHistory.ts] *)

(** The body of the 200, or the message of the 503. *)
Definition HistoryAnswer : Type := string + Listing QueryHistoryEntry.

Definition history_read (a : QueryHistoryAdapter) : prog QAns (result LoadError QueryHistorySnapshot) :=
  match readSnapshot a with
  | Some p => p
  | None => attempt entries := listQueryHistory a in Ret (inr (mkSnapshot entries false None))
  end.

Definition truncated_warning (truncated : bool) (shown : nat) : list ListWarning :=
  if truncated then
    [mkWarning "HISTORY_TRUNCATED"
      ("Upstream returned more queries than are exposed; only the first " +:+ pretty shown +:+ " are shown (meta.total counts exposed rows)")
      (Some "svc-trino")]
  else [].

(** What is logged of a failure: the class of an upstream error, or the error. *)
Definition history_failure (e : LoadError) : string :=
  match e with
  | UpstreamError k _ (Some status) => if status =? 0 then error_kind k else error_kind k +:+ " " +:+ pretty status
  | UpstreamError k _ None => error_kind k
  | AnyError => "error"
  end.

Definition history_unavailable (e : LoadError) : prog QAns HistoryAnswer :=
  await _ := qdo (QLog ("Query history adapter failed " +:+ history_failure e)) in
  Ret (inl (describeUpstreamFailure e "Query history")).

(** [QDeadline]: the timer fired before the adapter answered. *)
Definition historyRoute (adapter : option QueryHistoryAdapter) (page pageSize : Z) : prog QAns HistoryAnswer :=
  match adapter with
  | None => Ret (inl "Query history is currently unavailable")
  | Some a =>
      await r := history_read a in
      await late := qdo (QDeadline DEFAULT_ADAPTER_TIMEOUT_MS) in
      if late then history_unavailable AnyError
      else
        match r with
        | inl e => history_unavailable e
        | inr s =>
            if negb (forallb queryHistoryEntrySchema (qs_entries s)) then history_unavailable AnyError
            else
              let (pageItems, total) := paginate (qs_entries s) page pageSize in
              Ret (inr (buildListEnvelope pageItems total page pageSize (truncated_warning (qs_truncated s) (length (qs_entries s)))))
        end
  end.

(** ** What a row shows *)

(** The text shows nothing of the literals and comments of the query: it is the same for
    any other contents of them. *)
Definition masks (query shown : string) : Prop :=
  exists tokens, query = String.string_of_list_ascii (sources tokens) /\
    forall tokens', Forall2 same_shape tokens tokens' -> forallb body_ok tokens' = true ->
      entry_sql true (String.string_of_list_ascii (sources tokens')) = shown.

Lemma entry_sql_masks query : masks query (entry_sql true query).
Proof.
  destruct (tokens_exist (String.list_ascii_of_string query) []) as (l & E & Hl). exists l.
  assert (query = String.string_of_list_ascii (sources l)) as Hq by (by rewrite <-E, String.string_of_list_ascii_of_string).
  split; [done|]. intros l' H Hb. rewrite Hq. unfold entry_sql.
  by rewrite redact_string, (redact_string l), (output_shape l l') by (done || by eapply lexes_shape).
Qed.

(** A row of the history is its query: the identifier, the state and the masked text. *)
Definition row_of (redact : bool) (item : BasicQueryInfo) (e : QueryHistoryEntry) : Prop :=
  qh_id e = bq_queryId item /\ qh_state e = bq_state item /\ qh_sql e = entry_sql redact (bq_query item) /\
  (redact = true -> masks (bq_query item) (qh_sql e)).

Lemma entries_rows redact items entries : rmap (entry_of redact) items = inr entries -> Forall2 (row_of redact) items entries.
Proof.
  revert entries. induction items as [|i items IH]; intros entries; cbn [rmap]; [by intros [= <-]; constructor|].
  unfold entry_of at 1. case_match; [|done]. cbn. destruct (rmap _ items) as [|es] eqn:E; [done|]. intros [= <-].
  constructor; [|by apply IH]. split_and!; [done..|]. intros ->. apply entry_sql_masks.
Qed.

(** What a load answers is the first rows the upstream has. *)
Definition snapshot_of (redact : bool) (items : list BasicQueryInfo) (s : QueryHistorySnapshot) : Prop :=
  Forall2 (row_of redact) (take MAX_HISTORY_ENTRIES items) (qs_entries s) /\
  qs_truncated s = (MAX_HISTORY_ENTRIES <? length items)%nat.

Lemma load_snapshot redact t s :
  runs (load redact) t (inr s) ->
  exists body items, t = [Did (QGetJson "/v1/query") (inr body)] /\ array_of basicQueryInfoSchema body = Some items /\ snapshot_of redact items s.
Proof.
  intros H. destruct t as [|c t]; [done|]. destruct H as ([e|body] & -> & H); [by destruct H|]. cbn [bind] in H.
  destruct (array_of basicQueryInfoSchema body) as [items|] eqn:Eb; [|by destruct H]. destruct H as [-> H].
  destruct (rmap _ _) as [|entries] eqn:E; [done|]. injection H as ->. exists body, items.
  split_and!; [done|done|by split; [apply entries_rows|]].
Qed.

(** What the cache answers is what some run of the load answered. *)
Definition honest_history (redact : bool) (c : call QAns) : Prop :=
  match c with
  | Did QHistory hit => forall s, hit = Some (inr s) -> exists t, runs (load redact) t (inr s)
  | _ => True
  end.

Lemma read_memo_snapshot redact t s :
  Forall (honest_history redact) t -> runs (read_memo redact) t (inr s) -> exists items, snapshot_of redact items s.
Proof.
  intros Hh H. destruct t as [|c t]; [done|]. destruct H as (hit & -> & H). cbn [bind] in H.
  destruct hit as [r|].
  - destruct H as [-> <-]. apply Forall_cons in Hh as [Hh _]. destruct (Hh s eq_refl) as (u & Hu).
    apply load_snapshot in Hu as (body & items & _ & _ & Hs). by exists items.
  - apply runs_bind in H as (t1 & t2 & r & -> & H1 & H2). destruct t2 as [|c t2]; [done|]. destruct H2 as (u & -> & -> & <-).
    apply load_snapshot in H1 as (body & items & _ & _ & Hs). by exists items.
Qed.

(** ** Theorem *)

(** The query history shows the upstream's rows, masked, or nothing.  Whatever the
    coordinator answers, a page of the history the Trino adapter serves by default is a
    page of its first thousand queries in the coordinator's order; each row has the
    identifier and the state of its query, and a text that is the same whatever the
    contents of the literals and comments of the query are.  The total counts the rows
    shown, and a warning says exactly when there are more. *)
Theorem history_is_masked page pageSize t l :
  Forall (honest_history true) t ->
  runs (historyRoute (Some (createTrinoQueryHistoryAdapter None)) page pageSize) t (inr l) ->
  exists items entries, Forall2 (row_of true) (take MAX_HISTORY_ENTRIES items) entries /\
    ls_data l = (paginate entries page pageSize).1 /\ ls_total l = length entries /\
    (ls_warnings l = None <-> (length items <= MAX_HISTORY_ENTRIES)%nat).
Proof.
  intros Hh (t1 & t2 & r & -> & H1 & H2)%runs_bind. apply Forall_app in Hh as [Hh _].
  destruct t2 as [|c t2]; [done|]. destruct H2 as (late & -> & H2). cbn [bind] in H2.
  assert (forall e, ~ runs (history_unavailable e) t2 (inr l)) as Hno.
  { intros e. destruct t2 as [|c t2]; [by intros H|]. by intros (u & -> & -> & [=]). }
  destruct late; [by apply Hno in H2|]. destruct r as [e|s]; [by apply Hno in H2|].
  destruct (forallb _ _); [|by apply Hno in H2]. cbn [negb] in H2.
  destruct (read_memo_snapshot true t1 s Hh H1) as (items & Hrows & Htr). exists items, (qs_entries s).
  destruct (paginate (qs_entries s) page pageSize) as [pageItems total] eqn:Ep. destruct H2 as [-> [= ->]].
  split_and!; [done|done|by unfold paginate in Ep; injection Ep as _ <-|].
  cbn [ls_warnings buildListEnvelope]. rewrite Htr. unfold truncated_warning.
  destruct (MAX_HISTORY_ENTRIES <? length items)%nat eqn:E;
    [apply Nat.ltb_lt in E|apply Nat.ltb_ge in E]; split; try done; lia.
Qed.

Definition demo_queries (h : trace QAns) (e : QOp) : QAns e :=
  match e with
  | QGetJson _ => inr (JArr [JObj [("queryId", JStr "q1"); ("state", JStr "FINISHED"); ("query", JStr "select 1 -- x")]])
  | QHistory => None
  | QDeadline _ => false
  | QSettled _ _ | QLog _ => tt
  end.

Definition demo_history := answer demo_queries [] (historyRoute (Some (createTrinoQueryHistoryAdapter None)) 1 20).

Definition demo_page : Listing QueryHistoryEntry := mkListing [mkEntry "q1" "select ?" "FINISHED"] 1 1 20 None.

Lemma history_is_masked_witness : exists items entries,
  Forall2 (row_of true) (take MAX_HISTORY_ENTRIES items) entries /\ ls_data demo_page = (paginate entries 1 20).1.
Proof.
  destruct (history_is_masked 1 20 demo_history.1 demo_page) as (items & entries & H1 & H2 & _).
  - repeat (apply Forall_cons; split; [first [exact I|intros s H; discriminate H]|]). constructor.
  - assert (demo_history.2 = inr demo_page) as <- by (vm_compute; reflexivity).
    exact (answer_runs demo_queries [] (historyRoute (Some (createTrinoQueryHistoryAdapter None)) 1 20)).
  - exists items, entries. split; [exact H1|exact H2].
Defined.
