(* ===== verification/Pipeline.v ===== *)
(** * Pipelines: [schema/pipeline.ts], [adapters/pipelineAdapter.ts],
    [stub-data/pipelines.ts], [routes/pipelines.ts] of domain-api/src

    What a pipeline is, the fixtures that are served without an adapter, and the two
    routes.  [iso_datetime] is zod's test of a date text. *)

From S2P Require Import Prelude JsBase JsText AssetId Effects Services Correlation.
From Stdlib Require String.
Open Scope Z_scope.
Open Scope prog_scope.

(** ** Data *)

Record PipelineStage := mkStage {
  pg_serviceId : string;
  pg_serviceType : ServiceType;
  pg_status : HealthStatus;
  pg_detail : option string;
}.

Inductive JobKind := JobFlink | JobAirflow | JobCdc.

Inductive JobRunResult := RunRunning | RunSucceeded | RunFailed | RunUnknown.

#[export] Instance JobRunResult_eq_dec : EqDecision JobRunResult.
Proof. solve_decision. Defined.

Record LastRun := mkLastRun {
  lr_result : JobRunResult;
  lr_startedAt : string;
  lr_finishedAt : option string;
  lr_failureReason : option string;
}.

Record PipelineJob := mkJob {
  pj_id : string;
  pj_name : string;
  pj_kind : JobKind;
  pj_serviceId : string;
  pj_lastRun : option LastRun;
  pj_relatedResourceIds : list string;
}.

Inductive PipelineMethod := Declared | Inferred.

Record Pipeline := mkPipeline {
  pl_id : string;
  pl_name : string;
  pl_stages : list PipelineStage;
  pl_jobs : list PipelineJob;
  pl_correlationLinks : list CorrelationLink;
  pl_status : HealthStatus;
  pl_correlation : Z * PipelineMethod;
  pl_lastUpdatedAt : string;
}.

Record PipelineSnapshot := mkPipelines {
  ps_pipelines : list Pipeline;
  ps_warnings : list ListWarning;
  ps_incompletePipelineIds : list string;
}.

Record PipelineLookup := mkLookup {
  lk_pipeline : option Pipeline;
  lk_warnings : list ListWarning;
  lk_unavailable : bool;
}.

(** ** The schema *)

Section schema.
Context (iso_datetime : string -> bool).

(** [z.string().min(1)] and [.nullable()] *)
Definition min_1 (s : string) : bool := negb (String.eqb s EmptyString).
Definition nullable {A} (p : A -> bool) (x : option A) : bool := match x with None => true | Some a => p a end.
(** [z.number().min(0).max(1)] in hundredths *)
Definition in_unit (c : Z) : bool := (0 <=? c) && (c <=? 100).

Definition pipelineStageSchema (s : PipelineStage) : bool := min_1 (pg_serviceId s) && nullable min_1 (pg_detail s).

Definition lastRunSchema (r : LastRun) : bool :=
  iso_datetime (lr_startedAt r) && nullable iso_datetime (lr_finishedAt r) && nullable min_1 (lr_failureReason r).

Definition pipelineJobSchema (j : PipelineJob) : bool :=
  min_1 (pj_id j) && min_1 (pj_name j) && min_1 (pj_serviceId j) && nullable lastRunSchema (pj_lastRun j) &&
  forallb min_1 (pj_relatedResourceIds j).

Definition correlationLinkSchema (l : CorrelationLink) : bool :=
  min_1 (li_id l) && min_1 (li_source l).2 && min_1 (li_target l).2 && in_unit (li_confidence l) &&
  forallb min_1 (li_evidence l).

Definition pipelineSchema (p : Pipeline) : bool :=
  min_1 (pl_id p) && min_1 (pl_name p) && forallb pipelineStageSchema (pl_stages p) &&
  forallb pipelineJobSchema (pl_jobs p) && forallb correlationLinkSchema (pl_correlationLinks p) &&
  in_unit (pl_correlation p).1 && iso_datetime (pl_lastUpdatedAt p).
End schema.

(** ** The fixtures *)

Definition lakehouseEntities : list CorrelationEntity := [
  mkEntity KafkaTopic "topic-orders-cdc" "orders.cdc" [];
  mkEntity KafkaTopic "topic-audit-events" "audit.events" [];
  mkEntity FlinkJob "job-flink-orders-sync" "orders-sync"
    [("beluga.io/source-topic", "orders.cdc"); ("beluga.io/sink-table", "lakehouse.orders")];
  mkEntity IcebergTable "table-lakehouse-orders" "lakehouse.orders" [];
  mkEntity TrinoCatalog "catalog-lakehouse" "lakehouse" []
].

Definition batchEntities : list CorrelationEntity := [
  mkEntity AirflowDag "job-airflow-orders-report" "orders_report_dag" [];
  mkEntity FlinkJob "job-flink-orders-report" "orders-report" [];
  mkEntity FlinkJob "job-flink-orders-backfill" "orders-backfill" []
].

Definition reporting_run : LastRun :=
  mkLastRun RunSucceeded "2026-09-21T05:00:00.000Z" (Some "2026-09-21T05:12:00.000Z") None.

Definition pl_lakehouse_ingest : Pipeline :=
  mkPipeline "pl-lakehouse-ingest" "Kafka to Iceberg Lakehouse Ingest"
    [mkStage "svc-kafka" TKafka Degraded (Some "Under-replicated partitions on 2 brokers");
     mkStage "svc-flink" TFlink Stale (Some "Checkpoint status not refreshed within freshness window");
     mkStage "svc-iceberg" TIceberg Healthy None;
     mkStage "svc-trino" TTrino Healthy None]
    [mkJob "job-flink-orders-sync" "orders-sync" JobFlink "svc-flink"
       (Some (mkLastRun RunFailed "2026-09-21T05:00:00.000Z" (Some "2026-09-21T05:42:00.000Z")
                (Some "Checkpoint timeout after 600s")))
       ["k8s-workload-flink"; "k8s-pod-flink-jobmanager"]]
    (correlate lakehouseEntities) Degraded (97, Declared) "2026-09-21T05:50:00.000Z".

Definition pl_batch_reporting : Pipeline :=
  mkPipeline "pl-batch-reporting" "Airflow Batch Reporting"
    [mkStage "svc-airflow" TAirflow Healthy None;
     mkStage "svc-flink" TFlink Healthy None;
     mkStage "svc-trino" TTrino Healthy None]
    [mkJob "job-airflow-orders-report" "orders_report_dag" JobAirflow "svc-airflow" (Some reporting_run) [];
     mkJob "job-flink-orders-report" "orders-report" JobFlink "svc-flink" (Some reporting_run) [];
     mkJob "job-flink-orders-backfill" "orders-backfill" JobFlink "svc-flink" (Some reporting_run) []]
    (correlate batchEntities) Healthy (55, Inferred) "2026-09-21T05:40:00.000Z".

Definition pl_cluster_observability : Pipeline :=
  mkPipeline "pl-cluster-observability" "Kubernetes Cluster Observability"
    [mkStage "svc-kubernetes" TKubernetes Unknown None;
     mkStage "svc-observability" TObservability Unavailable (Some "Metrics backend unreachable")]
    [] [] Unavailable (30, Inferred) "2026-09-21T05:30:00.000Z".

Definition pipelines : list Pipeline := [pl_lakehouse_ingest; pl_batch_reporting; pl_cluster_observability].

(** ** The routes *)

Inductive PipelineAnswer := PFound (p : Pipeline) | PNotFound (message : string) | PUnavailable (message : string).

Section routes.
Context {Op : Type} {Ans : Op -> Type}.

Record PipelineAdapter := mkPipelineAdapter {
  pa_listPipelines : prog Ans PipelineSnapshot;
  pa_getPipeline : string -> prog Ans PipelineLookup;
}.

Definition loadSnapshot (adapter : option PipelineAdapter) : prog Ans PipelineSnapshot :=
  match adapter with Some a => pa_listPipelines a | None => Ret (mkPipelines pipelines [] []) end.

Definition with_status (status : option HealthStatus) (p : Pipeline) : bool :=
  match status with None => true | Some s => bool_decide (pl_status p = s) end.

Definition pipelinesRoute (adapter : option PipelineAdapter) (page pageSize : Z) (status : option HealthStatus)
    : prog Ans (Listing Pipeline) :=
  await snapshot := loadSnapshot adapter in
  let (pageItems, total) := paginate (List.filter (with_status status) (ps_pipelines snapshot)) page pageSize in
  Ret (buildListEnvelope pageItems total page pageSize
    (ps_warnings snapshot ++ omap (fun p => healthWarning (pl_status p) (pl_name p) None) pageItems)).

Definition not_found (i : string) : PipelineAnswer := PNotFound ("Pipeline '" +:+ i +:+ "' was not found").

Definition pipelineRoute (adapter : option PipelineAdapter) (i : string) : prog Ans PipelineAnswer :=
  match adapter with
  | Some a =>
      await lookup := pa_getPipeline a i in
      Ret (if lk_unavailable lookup then
             PUnavailable (match lk_warnings lookup with
                           | w :: _ => lw_message w | [] => "Upstream pipeline source is unavailable" end)
           else match lk_pipeline lookup with Some p => PFound p | None => not_found i end)
  | None =>
      Ret (match List.find (fun p => String.eqb (pl_id p) i) pipelines with Some p => PFound p | None => not_found i end)
  end.
End routes.
Arguments PipelineAdapter {Op} Ans.

(** The module loads: the fixtures pass their own schema, and their links are the
    ones the rules give. *)
Lemma fixtures_parse iso : (forall s, iso s = true) -> forallb (pipelineSchema iso) pipelines = true.
Proof. intros H. vm_compute. rewrite !H. done. Qed.
