(* ===== verification/DataAssets.v ===== *)
(** * Data assets: [schema/{dataAsset,queryContext}.ts], [adapters/dataAssetSource.ts],
    [stub-data/dataAssets.ts], [routes/{dataAssets,queryContext}.ts] of domain-api/src

    The hierarchy of catalogs, schemas and tables, the sources behind it, its two
    routes, and the hand-over of a table to Trino.  A route races a source against its
    deadline: [DDeadline] tells whether the timer was first. *)

From S2P Require Import Prelude JsBase JsText JsJson Zod AssetId Memo Effects Services.
From Stdlib Require Import Ascii.
From Stdlib Require String.
Open Scope Z_scope.
Open Scope prog_scope.

(** ** Data *)

(** [parentId] may be missing, or null for the top of the hierarchy. *)
Record DataAsset := mkAsset {
  da_id : string;
  da_name : string;
  da_kind : DataAssetKind;
  da_serviceId : string;
  da_status : HealthStatus;
  da_catalog : option string;
  da_namespace : option (list string);
  da_parentId : option (option string);
  da_path : option (list string);
}.

#[export] Instance DataAsset_eq_dec : EqDecision DataAsset.
Proof. solve_decision. Defined.

Record DataAssetColumn := mkColumn {
  dc_name : string;
  dc_type : string;
  dc_nullable : bool;
  dc_comment : option string;
  dc_isPartition : option bool;
}.

Record MetadataSummary := mkSummaryOf {
  ms_snapshotCount : option Z;
  ms_lastUpdated : option string;
  ms_partitionSpec : option string;
}.

Record DataAssetDetail := mkAssetDetail {
  dd_asset : DataAsset;
  dd_columns : option (list DataAssetColumn);
  dd_location : option string;
  dd_format : option string;
  dd_childCount : option (option Z);
  dd_metadataSummary : option MetadataSummary;
}.

Definition optional {A} (p : A -> bool) (x : option A) : bool := match x with None => true | Some a => p a end.

Definition dataAssetSchema (a : DataAsset) : bool :=
  present1 (da_id a) && present1 (da_name a) && present1 (da_serviceId a) && optional present1 (da_catalog a) &&
  optional (forallb present1) (da_namespace a) && optional (optional present1) (da_parentId a) &&
  optional (forallb present1) (da_path a).

Definition dataAssetColumnSchema (c : DataAssetColumn) : bool := present1 (dc_name c) && present1 (dc_type c).

Definition metadataSummarySchema (m : MetadataSummary) : bool := optional (Z.leb 0) (ms_snapshotCount m).

Definition dataAssetDetailSchema (d : DataAssetDetail) : bool :=
  dataAssetSchema (dd_asset d) && optional (forallb dataAssetColumnSchema) (dd_columns d) &&
  optional present1 (dd_location d) && optional present1 (dd_format d) &&
  optional (optional (Z.leb 0)) (dd_childCount d) && optional metadataSummarySchema (dd_metadataSummary d).

(** [schema.parse]: what it throws is not an [UpstreamError]. *)
Definition parse_with {A} (schema : A -> bool) (a : A) : result LoadError A := if schema a then inr a else inl AnyError.

(** The fields of a list item, and no others. *)
Definition toDataAsset (d : DataAssetDetail) : result LoadError DataAsset := parse_with dataAssetSchema (dd_asset d).

(** ** Sources *)

Record DataAssetListResult := mkAssets { al_assets : list DataAsset; al_warnings : list ListWarning }.

Section source.
Context {Op : Type} {Ans : Op -> Type}.

Record DataAssetSource := mkSource {
  src_emitsItemHealthWarnings : bool;
  src_list : option string -> prog Ans (result LoadError DataAssetListResult);
  src_get : string -> prog Ans (result LoadError (option DataAssetDetail));
}.

Definition child_of (parentId : option string) (a : DataAsset) : bool :=
  match parentId with None => true | Some p => bool_decide (da_parentId a = Some (Some p)) end.

Definition createFixtureDataAssetSource (details : list DataAssetDetail) : DataAssetSource :=
  mkSource true
    (fun parentId => Ret (
      (let! assets := rmap toDataAsset details in inr (mkAssets (List.filter (child_of parentId) assets) []))%result))
    (fun i => Ret (inr (List.find (fun d => String.eqb (da_id (dd_asset d)) i) details))).

Definition DATA_ASSET_ROUTE_DEADLINE_MS : Z := 8000.

(** [setTimeout] of the deadline, and whether it fired before the work was done *)
Context (deadline : Z -> prog Ans bool) (log : string -> prog Ans unit).

Definition withRouteDeadline {A} (work : prog Ans (result LoadError A)) (ms : Z) : prog Ans (result LoadError A) :=
  await r := work in
  await late := deadline ms in
  Ret (if late : bool then inl (UpstreamError TimedOut "data-asset-source" None) else r).

(** ** [routes/dataAssets.ts] *)

Inductive AssetAnswer (A : Type) := AssetOk (a : A) | AssetNotFound (message : string) | AssetUnavailable (message : string).
Arguments AssetOk {A}.
Arguments AssetNotFound {A}.
Arguments AssetUnavailable {A}.

(** What is logged of a failure: its class, or the error. *)
Definition failure_class (e : LoadError) : string :=
  match e with
  | UpstreamError k _ (Some status) => if status =? 0 then error_kind k else error_kind k +:+ " " +:+ pretty status
  | UpstreamError k _ None => error_kind k
  | AnyError => "error"
  end.

Definition source_failed {A} (e : LoadError) : prog Ans (AssetAnswer A) :=
  await _ := log ("Data asset source failed " +:+ failure_class e) in
  Ret (AssetUnavailable (describeUpstreamFailure e "Data asset catalog")).

Definition asset_matches (status : option HealthStatus) (kind : option DataAssetKind) (a : DataAsset) : bool :=
  match status with None => true | Some s => bool_decide (da_status a = s) end &&
  match kind with None => true | Some k => bool_decide (da_kind a = k) end.

Definition asset_warning (a : DataAsset) : option ListWarning :=
  healthWarning (da_status a) (da_name a) (Some (da_serviceId a)).

Definition assetsRoute (source : DataAssetSource) (page pageSize : Z) (status : option HealthStatus)
    (kind : option DataAssetKind) (parentId : option string) : prog Ans (AssetAnswer (Listing DataAsset)) :=
  await result := withRouteDeadline (src_list source parentId) DATA_ASSET_ROUTE_DEADLINE_MS in
  match result with
  | inl e => source_failed e
  | inr l =>
      let (pageItems, total) := paginate (List.filter (asset_matches status kind) (al_assets l)) page pageSize in
      let itemWarnings := if src_emitsItemHealthWarnings source then omap asset_warning pageItems else [] in
      Ret (AssetOk (buildListEnvelope pageItems total page pageSize (al_warnings l ++ itemWarnings)))
  end.

Definition assetRoute (source : DataAssetSource) (i : string) : prog Ans (AssetAnswer DataAssetDetail) :=
  await found := withRouteDeadline (src_get source i) DATA_ASSET_ROUTE_DEADLINE_MS in
  match found with
  | inl e => source_failed e
  | inr None => Ret (AssetNotFound ("Data asset '" +:+ i +:+ "' was not found"))
  | inr (Some d) => Ret (AssetOk d)
  end.

(** ** [routes/queryContext.ts] *)

Definition TRINO_CATALOG : string := "beluga_lake".
Definition SAMPLE_ROW_LIMIT : Z := 20.
Definition TRINO_SERVICE_ID : string := "svc-trino".

Definition quote (identifier : string) : string := dq +:+ replace_all dq (dq +:+ dq) identifier +:+ dq.

Record QueryContext := mkQueryContext {
  qc_assetId : string;
  qc_catalog : string;
  qc_schema : string;
  qc_table : string;
  qc_trinoServiceId : string;
  qc_trinoUiUrl : string;
  qc_sampleSql : string;
  qc_readOnly : bool;
  qc_rowLimit : Z;
}.

(** [z.string().url()] *)
Context (is_url : string -> bool).

Definition queryContextSchema (q : QueryContext) : bool :=
  present1 (qc_assetId q) && present1 (qc_catalog q) && present1 (qc_schema q) && present1 (qc_table q) &&
  present1 (qc_trinoServiceId q) && is_url (qc_trinoUiUrl q) && present1 (qc_sampleSql q) && qc_readOnly q &&
  (0 <? qc_rowLimit q).

Definition stripNamespacePrefix (name : string) (namespace : list string) : string :=
  match namespace with
  | [] => name
  | _ =>
      let prefix := join "." namespace +:+ "." in
      if starts_with prefix name then str_drop (String.length prefix) name else name
  end.

Definition query_parts (a : DataAsset) : list string :=
  match da_namespace a with
  | Some ns => ns ++ [stripNamespacePrefix (da_name a) ns]
  | None => split_char "." (da_name a)
  end.

Definition sample_sql (catalog schema table : string) : string :=
  "SELECT * FROM " +:+ join "." (map quote [catalog; schema; table]) +:+ " LIMIT " +:+ pretty SAMPLE_ROW_LIMIT.

(** [inl]: the schema throws, and the application answers 500. *)
Definition queryContextRoute (source : DataAssetSource) (trino : prog Ans (option Service)) (i : string)
    : prog Ans (result unit (AssetAnswer QueryContext)) :=
  await found := withRouteDeadline (src_get source i) DATA_ASSET_ROUTE_DEADLINE_MS in
  match found with
  | inl e => await a := source_failed e in Ret (inr a)
  | inr None => Ret (inr (AssetNotFound ("Data asset '" +:+ i +:+ "' was not found")))
  | inr (Some d) =>
      let asset := dd_asset d in
      match da_kind asset, query_parts asset with
      | KTable, [schema; table] =>
          await service := trino in
          match service ≫= fun s => am_endpoint (sv_metadata s) ≫= fun e => if present1 e then Some (sv_id s, e) else None with
          | None => Ret (inr (AssetUnavailable "Trino service is currently unavailable"))
          | Some (service_id, endpoint) =>
              let catalog := default TRINO_CATALOG (da_catalog asset) in
              let context := mkQueryContext (da_id asset) catalog schema table service_id endpoint
                (sample_sql catalog schema table) true SAMPLE_ROW_LIMIT in
              Ret (if queryContextSchema context then inr (AssetOk context) else inl tt)
          end
      | _, _ => Ret (inr (AssetNotFound ("Data asset '" +:+ i +:+ "' has no Trino query context")))
      end
  end.
End source.
Arguments DataAssetSource {Op} Ans.
Arguments AssetOk {A}.
Arguments AssetNotFound {A}.
Arguments AssetUnavailable {A}.

(** ** The fixtures *)

Definition CATALOG : string := "beluga_lake".
Definition CATALOG_ID : string := deriveAssetId KCatalog [CATALOG].
Definition SCHEMA_ID : string := "asset-schema-analytics".

Definition analytics_table (i name : string) (status : HealthStatus) (location : string) (snapshots : Z) (updated : string)
    (columns : list DataAssetColumn) : DataAssetDetail :=
  mkAssetDetail
    (mkAsset i name KTable "svc-iceberg" status (Some CATALOG) (Some ["analytics"]) (Some (Some SCHEMA_ID))
       (Some [CATALOG; "analytics"]))
    (Some columns) (Some location) (Some "Iceberg v2 (Parquet)") None
    (Some (mkSummaryOf (Some snapshots) (Some updated) (Some "order_date"))).

Definition column (name ty : string) (isNullable : bool) (comment : string) : DataAssetColumn :=
  mkColumn name ty isNullable (Some comment) None.
Definition partition_column (name ty comment : string) : DataAssetColumn := mkColumn name ty false (Some comment) (Some true).

Definition dataAssetDetails : list DataAssetDetail := [
  mkAssetDetail (mkAsset "asset-topic-events-raw" "events.raw" KTopic "svc-kafka" Degraded None None (Some None) (Some []))
    None None None None None;
  mkAssetDetail (mkAsset CATALOG_ID CATALOG KCatalog "svc-iceberg" Healthy (Some CATALOG) (Some []) (Some None) (Some []))
    None None None (Some None) None;
  mkAssetDetail (mkAsset SCHEMA_ID "analytics" KSchema "svc-iceberg" Healthy (Some CATALOG) (Some ["analytics"])
      (Some (Some CATALOG_ID)) (Some [CATALOG]))
    None None None (Some None) None;
  analytics_table "asset-table-orders" "analytics.orders" Healthy "s3://beluga-lake/warehouse/analytics/orders" 84
    "2026-09-28T09:30:00Z" [
      column "order_id" "BIGINT" false "Order primary key";
      column "customer_id" "BIGINT" false "Customer identifier";
      column "order_status" "VARCHAR" false "Order status (COMPLETED, PENDING, CANCELLED)";
      column "total_amount" "DECIMAL(12, 2)" false "Total order amount";
      partition_column "order_date" "DATE" "Order date partition key";
      column "created_at" "TIMESTAMP(6) WITH TIME ZONE" false "Record creation timestamp";
      column "updated_at" "TIMESTAMP(6) WITH TIME ZONE" false "Record last updated timestamp"];
  analytics_table "asset-table-orders-enriched" "analytics.orders_enriched" Stale
    "s3://beluga-lake/warehouse/analytics/orders_enriched" 120 "2026-09-27T18:00:00Z" [
      column "order_id" "BIGINT" false "Order primary key";
      column "customer_id" "BIGINT" false "Customer identifier";
      column "customer_email" "VARCHAR" true "Customer email address (PII Masking)";
      column "customer_grade" "VARCHAR" true "Customer loyalty grade (VIP, GOLD, REGULAR)";
      column "order_status" "VARCHAR" false "Order status";
      column "total_amount" "DECIMAL(12, 2)" false "Total order amount";
      partition_column "order_date" "DATE" "Order date partition key";
      column "enriched_at" "TIMESTAMP(6) WITH TIME ZONE" false "Record enrichment timestamp"]
].

Lemma asset_fixtures_parse : forallb dataAssetDetailSchema dataAssetDetails = true.
Proof. reflexivity. Qed.

(** ** The hand-over to Trino *)

Definition dq_char : ascii := "034"%char.

(** SQL reads a quoted identifier up to the first quote that is not doubled; [s] is
    what follows the opening quote. *)
Fixpoint read_quoted (s : string) : option (string * string) :=
  match s with
  | EmptyString => None
  | String a s' =>
      if Ascii.eqb a dq_char then
        match s' with
        | String b s'' => if Ascii.eqb b dq_char then prod_map (String a) (fun r => r) <$> read_quoted s'' else Some (EmptyString, s')
        | EmptyString => Some (EmptyString, EmptyString)
        end
      else prod_map (String a) (fun r => r) <$> read_quoted s'
  end.

(** What follows a keyword. *)
Fixpoint after (p s : string) : option string :=
  match p, s with
  | EmptyString, _ => Some s
  | String a p, String b s => if Ascii.eqb a b then after p s else None
  | _, EmptyString => None
  end.

(** Identifiers with dots between them, and the rest. *)
Fixpoint read_address (n : nat) (s : string) : option (list string * string) :=
  s' ← after dq s; xr ← read_quoted s';
  match n with
  | O => Some ([xr.1], xr.2)
  | S n => r ← after "." xr.2; ar ← read_address n r; Some (xr.1 :: ar.1, ar.2)
  end.

(** A statement that starts with [SELECT * FROM], the address, and the rest. *)
Definition read_select (s : string) : option (list string * string) := after "SELECT * FROM " s ≫= read_address 2.

Lemma quote_body x : replace_all dq (dq +:+ dq) x = str_map (fun a => if Ascii.eqb a dq_char then dq +:+ dq else str1 a) x.
Proof. apply (replace_all_char dq_char). Qed.

Lemma read_quote x r :
  match r with String b _ => Ascii.eqb b dq_char = false | EmptyString => True end ->
  read_quoted (replace_all dq (dq +:+ dq) x +:+ String dq_char r) = Some (x, r).
Proof.
  intros Hr. rewrite quote_body. induction x as [|a x IH].
  - cbn [str_map]. rewrite str_app_nil_l. cbn. destruct r as [|b r]; [done|]. by rewrite Hr.
  - cbn [str_map]. destruct (Ascii.eqb a dq_char) eqn:E.
    + apply Ascii.eqb_eq in E as ->. rewrite str_app_assoc.
      match goal with |- read_quoted ((dq +:+ dq) +:+ ?y) = _ => change (read_quoted (String dq_char (String dq_char y)) = Some (String dq_char x, r)) end.
      cbn [read_quoted]. rewrite Ascii.eqb_refl. by etrans; [apply f_equal, IH|].
    + unfold str1. rewrite str_app_cons, str_app_nil_l, str_app_cons. cbn [read_quoted]. rewrite E. by etrans; [apply f_equal, IH|].
Qed.

Lemma read_quote_address n x r :
  match r with String b _ => Ascii.eqb b dq_char = false | EmptyString => True end ->
  read_address n (String dq_char (replace_all dq (dq +:+ dq) x +:+ String dq_char r)) =
  match n with
  | O => Some ([x], r)
  | S n => r ← after "." r; ar ← read_address n r; Some (x :: ar.1, ar.2)
  end.
Proof.
  intros Hr. transitivity (xr ← read_quoted (replace_all dq (dq +:+ dq) x +:+ String dq_char r);
    match n with
    | O => Some ([xr.1], xr.2)
    | S n => r ← after "." xr.2; ar ← read_address n r; Some (xr.1 :: ar.1, ar.2)
    end); [by destruct n|]. by rewrite (read_quote x r Hr).
Qed.

Lemma after_dot {A} r (k : string -> option A) v : k r = v -> (r' ← after "." ("." +:+ r); k r') = v.
Proof. done. Qed.

Lemma option_bind_to {A B} (x y : option A) (k : A -> option B) : x = y -> x ≫= k = y ≫= k.
Proof. by intros ->. Qed.

Lemma read_sample catalog schema table :
  read_select (sample_sql catalog schema table) = Some ([catalog; schema; table], " LIMIT 20").
Proof.
  assert (forall x r, quote x +:+ r = String dq_char (replace_all dq (dq +:+ dq) x +:+ String dq_char r)) as Hq.
  { intros x r. unfold quote, dq. rewrite !str_app_cons, str_app_nil_l, !str_app_assoc. done. }
  unfold sample_sql. cbn [map join]. rewrite !str_app_assoc, !Hq.
  unfold read_select. match goal with |- after _ (_ +:+ ?rest) ≫= _ = _ => change (read_address 2 rest = Some ([catalog; schema; table], " LIMIT 20")) end.
  etrans; [by apply (read_quote_address 2)|].
  apply after_dot. etrans; [apply option_bind_to; by apply (read_quote_address 1)|].
  etrans; [apply option_bind_to, after_dot, option_bind_to; by apply (read_quote_address 0)|]. done.
Qed.

(** A source that asks nothing of the outside. *)
Definition no_answer : Empty_set -> Type := fun _ => unit.
Definition orders_context : QueryContext :=
  mkQueryContext "asset-table-orders" CATALOG "analytics" "orders" TRINO_SERVICE_ID "https://trino.local.beluga.internal"
    (sample_sql CATALOG "analytics" "orders") true SAMPLE_ROW_LIMIT.

(** C35: A table is handed over to Trino as one read-only statement.  Whatever names the
    catalog holds, the starter SQL reads as a [SELECT] from exactly the catalog, schema
    and table of the answer, with the row limit and nothing after it; the answer is
    made only for a table the source found within the deadline, and the row limit and
    the read-only flag are fixed. *)
Theorem starter_sql_is_one_select {Op} {Ans : Op -> Type} deadline log is_url (source : DataAssetSource Ans) trino i t q :
  runs (queryContextRoute deadline log is_url source trino i) t (inr (AssetOk q)) ->
  read_select (qc_sampleSql q) = Some ([qc_catalog q; qc_schema q; qc_table q], " LIMIT 20") /\
  qc_readOnly q = true /\ qc_rowLimit q = SAMPLE_ROW_LIMIT /\ is_url (qc_trinoUiUrl q) = true /\
  exists d t1 t2, t = t1 ++ t2 /\ runs (withRouteDeadline deadline (src_get source i) DATA_ASSET_ROUTE_DEADLINE_MS) t1 (inr (Some d)) /\
    da_kind (dd_asset d) = KTable /\ qc_assetId q = da_id (dd_asset d) /\
    query_parts (dd_asset d) = [qc_schema q; qc_table q].
Proof.
  unfold queryContextRoute. intros (t1 & t2 & found & -> & H1 & H2)%runs_bind.
  destruct found as [e|[d|]]; [|destruct (da_kind (dd_asset d)) eqn:Ek; try by destruct H2|by destruct H2].
  { apply runs_bind in H2 as (t3 & t4 & a & -> & H3 & [_ [= <-]]).
    unfold source_failed in H3. apply runs_bind in H3 as (? & ? & ? & _ & _ & [_ [=]]). }
  destruct (query_parts (dd_asset d)) as [|schema [|table []]] eqn:Ep; try by destruct H2.
  apply runs_bind in H2 as (t3 & t4 & service & -> & _ & H4). destruct (service ≫= _) as [[service_id endpoint]|]; [|by destruct H4].
  destruct (queryContextSchema _ _) eqn:Es; destruct H4 as [-> [=]]. subst q.
  split; [apply read_sample|]. split; [done|]. split; [done|]. split.
  { unfold queryContextSchema in Es. cbn in Es. by rewrite !andb_true_iff in Es; destruct Es as [[[[_ Hu] _] _] _]. }
  exists d, t1, t3. rewrite app_nil_r. done.
Qed.


Lemma starter_sql_is_one_select_witness :
  read_select (sample_sql CATALOG "analytics" "orders") = Some ([CATALOG; "analytics"; "orders"], " LIMIT 20").
Proof.
  apply (starter_sql_is_one_select (Ans:=no_answer) (fun _ => Ret false) (fun _ => Ret tt) (fun _ => true)
    (createFixtureDataAssetSource dataAssetDetails) (Ret (head services)) "asset-table-orders" [] orders_context).
  vm_compute. split; reflexivity.
Defined.
