(* ===== verification/Decision.v ===== *)
(** * Decisions: [decision/{types,ruleProvider,isolatedProvider}.ts],
    [stub-data/decisions.ts], [routes/decisions.ts] of domain-api/src

    A provider judges a telemetry snapshot; the isolation boundary around it turns a
    failure, a malformed value, a late answer or an overload into an abstention.  A
    date is its time in milliseconds, [None] when it is invalid; a confidence is a
    number of hundredths.  The clock and the race between the provider and the timer
    are calls. *)

From S2P Require Import Prelude JsBase JsJson AssetId Effects Services.
From Stdlib Require Import Ascii.
From Stdlib Require String.
Open Scope Z_scope.
Open Scope prog_scope.

(** ** [types.ts] *)

Inductive Decision :=
| NORMAL | COMPUTE_BOUND | MEMORY_BOUND | STORAGE_BOUND | NETWORK_BOUND | QUERY_PROBLEM | ESCALATE | ABSTAIN.

#[export] Instance Decision_eq_dec : EqDecision Decision.
Proof. solve_decision. Defined.

Inductive AbstainCode :=
| NO_TELEMETRY | MISSING_REQUIRED_SIGNAL | STALE_TELEMETRY
| ISOLATION_TIMEOUT | ISOLATION_PROVIDER_ERROR | ISOLATION_INVALID_SHAPE | ISOLATION_OVERLOADED.

#[export] Instance AbstainCode_eq_dec : EqDecision AbstainCode.
Proof. solve_decision. Defined.

Definition Date : Type := option Z.

Inductive SignalValue := SigNumber (n : Z) | SigString (s : string) | SigBool (b : bool).

Record TelemetrySignal := mkSignal { ts_value : SignalValue; ts_observedAt : Date }.

(** [signals]: the entries of the object, in order. *)
Record TelemetrySnapshot := mkTelemetry { tl_snapshotId : string; tl_signals : list (string * TelemetrySignal) }.

Record DecisionContext := mkContext { dc_now : Date; dc_maxAgeMs : Z; dc_correlationId : string }.

Record EvidenceRef := mkEvidence {
  er_source : string;
  er_observedAt : Date;
  er_ingestedAt : Date;
  er_freshnessDeadline : Date;
  er_contentHash : string;
}.

Record DecisionResult := mkDecision {
  dr_decision : Decision;
  dr_confidence : Z;
  dr_abstained : bool;
  dr_abstainCode : option AbstainCode;
  dr_abstainReason : option string;
  dr_evidenceRefs : list EvidenceRef;
  dr_provider : string;
  dr_providerVersion : string;
  dr_policyVersion : string;
  dr_decidedAt : Date;
  dr_latencyMs : Z;
}.

Definition min1 (s : string) : bool := negb (String.eqb s EmptyString).
Definition valid_date (d : Date) : bool := match d with Some _ => true | None => false end.

Definition evidenceRefSchema (e : EvidenceRef) : bool :=
  min1 (er_source e) && valid_date (er_observedAt e) && valid_date (er_ingestedAt e) &&
  valid_date (er_freshnessDeadline e) && min1 (er_contentHash e).

Definition decisionResultSchema (r : DecisionResult) : bool :=
  (0 <=? dr_confidence r) && (dr_confidence r <=? 100) &&
  match dr_abstainReason r with Some s => min1 s | None => true end &&
  forallb evidenceRefSchema (dr_evidenceRefs r) &&
  min1 (dr_provider r) && min1 (dr_providerVersion r) && min1 (dr_policyVersion r) &&
  valid_date (dr_decidedAt r) && (0 <=? dr_latencyMs r).

(** ** The calls *)

(** A thrown value: an [Error], with what its [message] reads as in a text, or any other
    value, with what [String] makes of it.  Each is a text, or throws in its turn (a getter, a
    symbol, an object without a primitive value), with a message. *)
Inductive Thrown := ThrownError (message : result string string) | ThrownValue (text : result string string).

(** How the race between a provider and the timer ends: the provider is late, rejects,
    or resolves with a value, which has the shape of a result or not, or throws when the
    schema reads its fields. *)
Inductive RaceOutcome := Late | Rejected (err : Thrown) | Resolved (r : option DecisionResult) | Unreadable (err : Thrown).

Inductive DOp : Type :=
| DNow
(** [activeCalls >= maxConcurrent], else [activeCalls += 1]: whether there was a slot *)
| DEnter
| DRace (input : TelemetrySnapshot) (ctx : DecisionContext).

Definition DAns (e : DOp) : Type :=
  match e with DNow => Z | DEnter => bool | DRace _ _ => RaceOutcome end.

Definition DProg (A : Type) : Type := prog DAns (result string A).
Definition now_ : prog DAns Z := perform (Ans:=DAns) DNow.

(** [decisionResultSchema.parse(r)] *)
Definition parse_result (r : DecisionResult) : DProg DecisionResult :=
  if decisionResultSchema r then Ret (inr r) else Ret (inl "ZodError").

(** ** [ruleProvider.ts] *)

Definition PROVIDER_ID : string := "rule-provider".
Definition PROVIDER_VERSION : string := "0.1.0".
Definition POLICY_VERSION : string := "v1".
Definition SAFE_DEFAULT_CONFIDENCE : Z := 10.

Definition rule_result (d : Decision) (confidence : Z) (abstained : bool) (code : option AbstainCode)
    (reason : option string) (ctx : DecisionContext) (latencyMs : Z) : DecisionResult :=
  mkDecision d confidence abstained code reason [] PROVIDER_ID PROVIDER_VERSION POLICY_VERSION (dc_now ctx) latencyMs.

Definition abstain (ctx : DecisionContext) (startedAt : Z) (code : AbstainCode) (reason : string) : DProg DecisionResult :=
  await now := now_ in
  parse_result (rule_result ABSTAIN 0 true (Some code) (Some reason) ctx (now - startedAt)).

(** [now - observedAt > maxAgeMs]; [NaN] compares false. *)
Definition is_stale (ctx : DecisionContext) (s : TelemetrySignal) : bool :=
  match dc_now ctx, ts_observedAt s with
  | Some now, Some observedAt => dc_maxAgeMs ctx <? now - observedAt
  | _, _ => false
  end.

(** [toISOString]: the text of a time. *)
Definition stale_reason (toISOString : Z -> string) (ctx : DecisionContext) (name : string) (s : TelemetrySignal) : string :=
  "signal '" +:+ name +:+ "'의 observedAt(" +:+ (match ts_observedAt s with Some t => toISOString t | None => EmptyString end) +:+
  ")이 freshness 기준(maxAgeMs=" +:+ pretty (dc_maxAgeMs ctx) +:+ ")을 초과했다".

Definition rule_decide (toISOString : Z -> string) (requiredSignals : list string) (input : TelemetrySnapshot)
    (ctx : DecisionContext) : DProg DecisionResult :=
  await startedAt := now_ in
  match tl_signals input with
  | [] => abstain ctx startedAt NO_TELEMETRY "telemetry snapshot에 signal이 하나도 없다"
  | entries =>
      match List.find (fun name => negb (map_has name entries)) requiredSignals with
      | Some missing =>
          abstain ctx startedAt MISSING_REQUIRED_SIGNAL ("필수 signal '" +:+ missing +:+ "'이 snapshot에 없다")
      | None =>
          match List.find (fun kv : string * TelemetrySignal => is_stale ctx kv.2) entries with
          | Some (name, signal) => abstain ctx startedAt STALE_TELEMETRY (stale_reason toISOString ctx name signal)
          | None =>
              await now := now_ in
              parse_result (rule_result NORMAL SAFE_DEFAULT_CONFIDENCE false None None ctx (now - startedAt))
          end
      end
  end.

(** ** [isolatedProvider.ts] *)

Definition DEFAULT_BUDGET_MS : Z := 500.
Definition DEFAULT_MAX_CONCURRENT : Z := 32.
Definition ISOLATION_POLICY_VERSION : string := "isolation-boundary/v1".

Definition code_name (c : AbstainCode) : string :=
  match c with
  | NO_TELEMETRY => "NO_TELEMETRY"
  | MISSING_REQUIRED_SIGNAL => "MISSING_REQUIRED_SIGNAL"
  | STALE_TELEMETRY => "STALE_TELEMETRY"
  | ISOLATION_TIMEOUT => "ISOLATION_TIMEOUT"
  | ISOLATION_PROVIDER_ERROR => "ISOLATION_PROVIDER_ERROR"
  | ISOLATION_INVALID_SHAPE => "ISOLATION_INVALID_SHAPE"
  | ISOLATION_OVERLOADED => "ISOLATION_OVERLOADED"
  end.

Definition safeIdentity (value fallback : string) : string :=
  if String.eqb (trim value) EmptyString then fallback else value.

(** A provider by its name, and the options: budget and slots. *)
Record Isolated := mkIsolated { is_id : string; is_version : string; is_budgetMs : Z; is_maxConcurrent : Z }.

(** [inl]: the [RangeError] of the constructor. *)
Definition isolateProvider (i v : string) (budgetMs maxConcurrent : option Z) : result string Isolated :=
  let n := default DEFAULT_MAX_CONCURRENT maxConcurrent in
  if (n <? 1) || (9007199254740991 <? n) then inl "maxConcurrent must be a positive safe integer"
  else inr (mkIsolated i v (default DEFAULT_BUDGET_MS budgetMs) n).

Section isolated.
Context (o : Isolated).

Definition isolationAbstain (ctx : DecisionContext) (startedAt : Z) (code : AbstainCode) (reason : string)
    : DProg DecisionResult :=
  await now := now_ in
  parse_result (mkDecision ABSTAIN 0 true (Some code) (Some reason) []
    (safeIdentity (is_id o) "unknown-provider") (safeIdentity (is_version o) "unknown-version")
    ISOLATION_POLICY_VERSION (dc_now ctx) (now - startedAt)).

Definition provider_text (code : AbstainCode) : string := code_name code +:+ ": provider '" +:+ is_id o +:+ "'".

(** [inl]: describing the value throws. *)
Definition describeError (err : Thrown) : result string string :=
  match err with ThrownError message => message | ThrownValue text => text end.

(** A failure of the boundary's own abstention, inside the [try]: an [Error]. *)
Definition in_try {A} (p : DProg A) : prog DAns (result Thrown A) :=
  await r := p in Ret (match r with inl m => inl (ThrownError (inr m)) | inr a => inr a end).

(** The body of the [try]. *)
Definition race_result (ctx : DecisionContext) (startedAt : Z) (outcome : RaceOutcome)
    : prog DAns (result Thrown DecisionResult) :=
  match outcome with
  | Late =>
      in_try (isolationAbstain ctx startedAt ISOLATION_TIMEOUT
        (provider_text ISOLATION_TIMEOUT +:+ "가 budget(" +:+ pretty (is_budgetMs o) +:+ "ms)을 초과했다"))
  | Rejected err | Unreadable err => Ret (inl err)
  | Resolved r =>
      match (r ← r; if decisionResultSchema r then Some r else None) with
      | Some r => Ret (inr r)
      | None =>
          in_try (isolationAbstain ctx startedAt ISOLATION_INVALID_SHAPE
            (provider_text ISOLATION_INVALID_SHAPE +:+ "의 반환값이 decision schema를 어겼다 — ZodError"))
      end
  end.

Definition decide_ (input : TelemetrySnapshot) (ctx : DecisionContext) : DProg DecisionResult :=
  await startedAt := now_ in
  let fallbackCtx := mkContext (Some (default startedAt (dc_now ctx))) (dc_maxAgeMs ctx) (dc_correlationId ctx) in
  await admitted := perform (Ans:=DAns) DEnter in
  if negb (admitted : bool) then
    isolationAbstain fallbackCtx startedAt ISOLATION_OVERLOADED
      (provider_text ISOLATION_OVERLOADED +:+ " 동시 실행 상한(" +:+ pretty (is_maxConcurrent o) +:+ ")에 도달했다")
  else
    await outcome := perform (Ans:=DAns) (DRace input fallbackCtx) in
    await r := race_result fallbackCtx startedAt outcome in
    match r with
    | inr a => Ret (inr a)
    | inl err =>
        match describeError err with
        | inl m => Ret (inl m)
        | inr text => isolationAbstain fallbackCtx startedAt ISOLATION_PROVIDER_ERROR
            (provider_text ISOLATION_PROVIDER_ERROR +:+ "가 실패했다 — " +:+ text)
        end
    end.

(** *** The slots *)

(** [activeCalls], and the calls whose provider has not settled. *)
Record Bulkhead := mkBulkhead { bh_active : Z; bh_running : list nat; bh_settled : list nat }.

Definition empty_bulkhead : Bulkhead := mkBulkhead 0 [] [].

Definition enter (b : Bulkhead) (i : nat) : Bulkhead * bool :=
  if is_maxConcurrent o <=? bh_active b then (b, false)
  else (mkBulkhead (bh_active b + 1) (i :: bh_running b) (bh_settled b), true).

(** The provider of call [i] resolves or rejects, also after its timeout. *)
Definition settle (b : Bulkhead) (i : nat) : Bulkhead :=
  mkBulkhead (bh_active b - 1) (List.filter (fun j => negb (j =? i)%nat) (bh_running b)) (i :: bh_settled b).

Inductive bulk_step : Bulkhead -> Bulkhead -> Prop :=
| bulk_enter b i : i ∉ bh_running b -> i ∉ bh_settled b -> bulk_step b (enter b i).1
| bulk_settle b i : i ∈ bh_running b -> bulk_step b (settle b i).
End isolated.

(** ** [stub-data/decisions.ts], [routes/decisions.ts] *)

(** [dd_result]: the projection holds every field of the result but the latency. *)
Record DecisionRecord := mkDecisionRecord {
  dd_id : string;
  dd_snapshotId : string;
  dd_correlationId : string;
  dd_evaluatedAt : Z;
  dd_result : DecisionResult;
  dd_inputSignals : list (string * Date * bool);
  dd_maxAgeMs : Z;
  dd_relatedResourceId : option string;
  dd_relatedServiceId : option string;
  dd_relatedPipelineId : option string;
}.

(** The signals of a record, with their freshness when they were judged. *)
Definition input_signals (evaluatedAt maxAgeMs : Z) (s : TelemetrySnapshot) : list (string * Date * bool) :=
  map (fun kv : string * TelemetrySignal =>
    (kv.1, ts_observedAt kv.2,
     match ts_observedAt kv.2 with Some t => evaluatedAt - t <=? maxAgeMs | None => false end)) (tl_signals s).

(** [decisionRecordSchema], of the fields it constrains further than their type. *)
Definition decisionRecordSchema (r : DecisionRecord) : bool :=
  min1 (dd_id r) && min1 (dd_snapshotId r) && min1 (dd_correlationId r) &&
  (0 <=? dr_confidence (dd_result r)) && (dr_confidence (dd_result r) <=? 100) &&
  match dr_abstainReason (dd_result r) with Some s => min1 s | None => true end &&
  min1 (dr_provider (dd_result r)) && min1 (dr_providerVersion (dd_result r)) && min1 (dr_policyVersion (dd_result r)) &&
  forallb evidenceRefSchema (dr_evidenceRefs (dd_result r)) && forallb (fun i => min1 i.1.1) (dd_inputSignals r) &&
  (0 <=? dd_maxAgeMs r) && forallb (fun o => match o with Some i => min1 i | None => true end)
    [dd_relatedResourceId r; dd_relatedServiceId r; dd_relatedPipelineId r].

Record DecisionFixture := mkDecisionFixture {
  df_id : string;
  df_snapshot : TelemetrySnapshot;
  df_relatedResourceId : option string;
  df_relatedServiceId : option string;
  df_relatedPipelineId : option string;
}.

(** 2026-09-28T09:00:00Z *)
Definition evaluatedAt : Z := 1790586000000.
Definition fixture_maxAgeMs : Z := 60000.

Definition snapshots : list DecisionFixture := [
  mkDecisionFixture "decision-fresh"
    (mkTelemetry "snapshot-fresh-001"
       [("k8s.pod.cpu", mkSignal (SigString "250m") (Some 1790585970000));
        ("k8s.pod.memory", mkSignal (SigString "512Mi") (Some 1790585975000))])
    (Some "k8s-pod-flink-jobmanager") (Some "svc-flink") (Some "pl-lakehouse-ingest");
  mkDecisionFixture "decision-stale"
    (mkTelemetry "snapshot-stale-001" [("k8s.workload.cpu", mkSignal (SigString "850m") (Some 1790585820000))])
    (Some "k8s-workload-flink") (Some "svc-flink") (Some "pl-lakehouse-ingest");
  mkDecisionFixture "decision-empty" (mkTelemetry "snapshot-empty-001" []) None (Some "svc-trino") None
].

Definition fixture_provider : Isolated := mkIsolated PROVIDER_ID PROVIDER_VERSION DEFAULT_BUDGET_MS DEFAULT_MAX_CONCURRENT.

Definition fixture_context (f : DecisionFixture) : DecisionContext :=
  mkContext (Some evaluatedAt) fixture_maxAgeMs ("correlation-" +:+ df_id f).

Definition decision_record (f : DecisionFixture) (r : DecisionResult) : DecisionRecord :=
  mkDecisionRecord (df_id f) (tl_snapshotId (df_snapshot f)) ("correlation-" +:+ df_id f) evaluatedAt r
    (input_signals evaluatedAt fixture_maxAgeMs (df_snapshot f)) fixture_maxAgeMs
    (df_relatedResourceId f) (df_relatedServiceId f) (df_relatedPipelineId f).

(** One fixture is judged when the module is loaded; [inl] keeps the module from loading. *)
Definition fixture_record (f : DecisionFixture) : DProg DecisionRecord :=
  attempt r := decide_ fixture_provider (df_snapshot f) (fixture_context f) in
  let record := decision_record f r in
  Ret (if decisionRecordSchema record then inr record else inl "ZodError").

Fixpoint fixture_records (l : list DecisionFixture) : DProg (list DecisionRecord) :=
  match l with
  | [] => Ret (inr [])
  | f :: l' => attempt r := fixture_record f in attempt rs := fixture_records l' in Ret (inr (r :: rs))
  end.

Definition decisions : DProg (list DecisionRecord) := fixture_records snapshots.

Definition of_decision (d : option Decision) (r : DecisionRecord) : bool :=
  match d with None => true | Some x => bool_decide (dr_decision (dd_result r) = x) end.

Definition decisionsRoute (records : list DecisionRecord) (page pageSize : Z) (d : option Decision)
    : Listing DecisionRecord :=
  let (pageItems, total) := paginate (List.filter (of_decision d) records) page pageSize in
  buildListEnvelope pageItems total page pageSize [].

Definition decisionRoute (records : list DecisionRecord) (i : string) : string + DecisionRecord :=
  match List.find (fun r => String.eqb (dd_id r) i) records with
  | Some r => inr r
  | None => inl ("Decision '" +:+ i +:+ "' was not found")
  end.

(** ** The boundary holds *)

Lemma safeIdentity_min1 v f : min1 f = true -> min1 (safeIdentity v f) = true.
Proof.
  intros Hf. unfold safeIdentity. destruct (String.eqb_spec (trim v) EmptyString) as [|Ht]; [done|].
  unfold min1. apply negb_true_iff, String.eqb_neq. by intros ->.
Qed.

Section boundary.
Context (o : Isolated).

(** The provider rejected with this, or its value throws this when it is read. *)
Definition threw (t : trace DAns) (err : Thrown) : Prop :=
  exists input ctx, Did (Ans:=DAns) (DRace input ctx) (Rejected err) ∈ t \/ Did (Ans:=DAns) (DRace input ctx) (Unreadable err) ∈ t.

(** What an abstention of the boundary with a code rests on. *)
Definition cause (t : trace DAns) (code : AbstainCode) : Prop :=
  match code with
  | ISOLATION_OVERLOADED => Did (Ans:=DAns) DEnter false ∈ t
  | ISOLATION_TIMEOUT => exists input ctx, Did (Ans:=DAns) (DRace input ctx) Late ∈ t
  | ISOLATION_PROVIDER_ERROR => exists err text, threw t err /\ describeError err = inr text
  | ISOLATION_INVALID_SHAPE =>
      exists input ctx v, Did (Ans:=DAns) (DRace input ctx) (Resolved v) ∈ t /\
        forall r, v = Some r -> decisionResultSchema r = false
  | _ => False
  end.

(** What the boundary answers: the provider's own result, which is well-formed, or an
    abstention that says why. *)
Definition isolated_answer (t : trace DAns) (r : DecisionResult) : Prop :=
  decisionResultSchema r = true /\
  ((exists input ctx, Did (Ans:=DAns) (DRace input ctx) (Resolved (Some r)) ∈ t) \/
   dr_decision r = ABSTAIN /\ dr_abstained r = true /\ dr_confidence r = 0 /\ dr_evidenceRefs r = [] /\
     dr_policyVersion r = ISOLATION_POLICY_VERSION /\
     exists code, dr_abstainCode r = Some code /\ cause t code).

Definition time_of (c : call DAns) : option Z :=
  match c with Did e r => match e as e return DAns e -> option Z with DNow => Some | _ => fun _ => None end r end.

(** The clock never shows a time before the one the call started with. *)
Definition steady (t : trace DAns) : Prop :=
  match omap time_of t with start :: later => Forall (fun now => start <= now) later | [] => True end.

Lemma abstain_run ctx startedAt code reason t out :
  runs (isolationAbstain o ctx startedAt code reason) t out ->
  valid_date (dc_now ctx) = true -> reason <> EmptyString ->
  exists now, t = [Did (Ans:=DAns) DNow now] /\
    if startedAt <=? now then
      exists r, out = inr r /\ decisionResultSchema r = true /\ dr_decision r = ABSTAIN /\ dr_abstained r = true /\
        dr_confidence r = 0 /\ dr_evidenceRefs r = [] /\ dr_policyVersion r = ISOLATION_POLICY_VERSION /\
        dr_abstainCode r = Some code
    else out = inl "ZodError".
Proof.
  intros Hr Hd Hreason. unfold isolationAbstain in Hr. cbn [bind now_ perform runs] in Hr.
  destruct t as [|c t]; [done|]. destruct Hr as (now & -> & Hr). exists now. unfold parse_result in Hr.
  match type of Hr with context [decisionResultSchema ?x] => set (r := x) in Hr end.
  assert (decisionResultSchema r = (startedAt <=? now)) as Es.
  { unfold decisionResultSchema, r. cbn [dr_confidence dr_abstainReason dr_evidenceRefs dr_provider dr_providerVersion
      dr_policyVersion dr_decidedAt dr_latencyMs forallb]. rewrite !safeIdentity_min1, Hd by done. unfold min1.
    rewrite (proj2 (String.eqb_neq reason EmptyString)) by done. cbn. destruct (Z.leb_spec startedAt now); lia. }
  rewrite Es in Hr. destruct (startedAt <=? now) eqn:En; destruct Hr as [-> ->]; (split; [done|]); [|done].
  exists r. by rewrite Es.
Qed.

Lemma provider_text_min1 code s : provider_text o code +:+ s <> EmptyString.
Proof. unfold provider_text. by destruct code. Qed.

(** An abstention of [decide_] is an answer. *)
Lemma abstain_answer ctx startedAt code reason t0 t out :
  runs (isolationAbstain o ctx startedAt code reason) t out -> valid_date (dc_now ctx) = true -> reason <> EmptyString ->
  steady (Did (Ans:=DAns) DNow startedAt :: t0 ++ t) ->
  (forall r, dr_decision r = ABSTAIN /\ dr_abstained r = true /\ dr_confidence r = 0 /\ dr_evidenceRefs r = [] /\
     dr_policyVersion r = ISOLATION_POLICY_VERSION /\ dr_abstainCode r = Some code -> decisionResultSchema r = true ->
   isolated_answer (Did (Ans:=DAns) DNow startedAt :: t0 ++ t) r) ->
  exists r, out = inr r /\ isolated_answer (Did (Ans:=DAns) DNow startedAt :: t0 ++ t) r.
Proof.
  intros Hr Hd Hreason Hsteady Ha. apply abstain_run in Hr as (now & -> & Hr); [|done..].
  assert (startedAt <= now) as Hle%Z.leb_le.
  { unfold steady in Hsteady. cbn [omap list_omap time_of] in Hsteady. rewrite omap_app in Hsteady.
    apply Forall_app in Hsteady as [_ Hl]. by inversion Hl. }
  rewrite Hle in Hr. destruct Hr as (r & -> & Hs & Hr). exists r. split; [done|]. by apply Ha.
Qed.

(** The same for an abstention inside the [try], as the rest of [decide_] goes on. *)
Lemma try_answer {f : result Thrown DecisionResult -> DProg DecisionResult} ctx startedAt code reason t0 t out :
  (forall a, f (inr a) = Ret (inr a)) ->
  runs (bind (in_try (isolationAbstain o ctx startedAt code reason)) f) t out ->
  valid_date (dc_now ctx) = true -> reason <> EmptyString ->
  steady (Did (Ans:=DAns) DNow startedAt :: t0 ++ t) ->
  (forall t', cause (Did (Ans:=DAns) DNow startedAt :: t0 ++ t') code) ->
  exists r, out = inr r /\ isolated_answer (Did (Ans:=DAns) DNow startedAt :: t0 ++ t) r.
Proof.
  intros Hf (t12 & t3 & a & -> & (t1 & t2 & b & -> & H1 & [-> ->])%runs_bind & H2)%runs_bind Hd Hreason Hsteady Hcode.
  rewrite app_nil_r in *. rewrite app_assoc in Hsteady.
  edestruct (abstain_answer _ _ _ _ t0 _ _ H1) as (r & -> & Ha); [done|done| |..].
  - unfold steady in *. cbn [omap list_omap time_of] in *. rewrite omap_app in Hsteady.
    by apply Forall_app in Hsteady as [? _].
  - intros r (Hr & Hab & Hc & He & Hp & Hcd) Hs. split; [done|]. right. split_and!; [done..|]. exists code.
    split; [done|]. apply Hcode.
  - rewrite Hf in H2. destruct H2 as [-> ->]. rewrite app_nil_r. by exists r.
Qed.

Lemma thrown_answer ctx startedAt err t0 t out :
  runs (match describeError err with
        | inl m => Ret (inl m)
        | inr text => isolationAbstain o ctx startedAt ISOLATION_PROVIDER_ERROR
            (provider_text o ISOLATION_PROVIDER_ERROR +:+ "가 실패했다 — " +:+ text)
        end) t out ->
  valid_date (dc_now ctx) = true -> steady (Did (Ans:=DAns) DNow startedAt :: t0 ++ t) ->
  (forall t', threw (Did (Ans:=DAns) DNow startedAt :: t0 ++ t') err) ->
  (exists r, out = inr r /\ isolated_answer (Did (Ans:=DAns) DNow startedAt :: t0 ++ t) r) \/
  exists err m, out = inl m /\ threw (Did (Ans:=DAns) DNow startedAt :: t0 ++ t) err /\ describeError err = inl m.
Proof.
  intros Hr Hd Hsteady Ht. destruct (describeError err) as [m|text] eqn:E.
  - right. destruct Hr as [-> ->]. exists err, m. auto.
  - left. eapply abstain_answer; [exact Hr|done|apply provider_text_min1|done|].
    intros r (Hdr & Hab & Hc & He & Hp & Hcd) Hs. split; [done|]. right. split_and!; [done..|].
    exists ISOLATION_PROVIDER_ERROR. split; [done|]. exists err, text. auto.
Qed.

(** C32: The boundary answers.  Whatever the provider does (throw, reject, answer with
    something else or with something that throws when it is read, answer late) and however
    busy it is, while the clock does not go back the caller gets the provider's own result,
    checked against the schema, or an abstention with the code of what went wrong and no
    evidence.  A decision fails in one case only: the provider threw a value that throws again
    when the boundary describes it ([describing_throws]). *)
Theorem boundary_answers input ctx t out :
  runs (decide_ o input ctx) t out -> steady t ->
  (exists r, out = inr r /\ isolated_answer t r) \/
  exists err m, out = inl m /\ threw t err /\ describeError err = inl m.
Proof.
  unfold decide_. cbn [now_ bind perform runs]. destruct t as [|c t]; [done|]. intros (startedAt & -> & Hr) Hsteady.
  set (fctx := mkContext _ _ _) in Hr. destruct t as [|c t]; [done|]. destruct Hr as (admitted & -> & Hr).
  destruct admitted; cbn [negb] in Hr.
  - cbn [bind perform runs] in Hr. destruct t as [|c t]; [done|]. destruct Hr as (outcome & -> & Hr).
    set (t0 := [Did (Ans:=DAns) DEnter true; Did (Ans:=DAns) (DRace input fctx) outcome]).
    change (steady (Did (Ans:=DAns) DNow startedAt :: t0 ++ t)) in Hsteady.
    change (Did (Ans:=DAns) DNow startedAt :: Did (Ans:=DAns) DEnter true :: Did (Ans:=DAns) (DRace input fctx) outcome :: t)
      with (Did (Ans:=DAns) DNow startedAt :: t0 ++ t).
    assert (forall t', Did (Ans:=DAns) (DRace input fctx) outcome ∈ Did (Ans:=DAns) DNow startedAt :: t0 ++ t') as Hin
      by (intros; do 2 right; left).
    destruct outcome as [|err|r|err]; cbn [race_result] in Hr.
    + left. eapply (try_answer _ _ ISOLATION_TIMEOUT); [|exact Hr|done|apply provider_text_min1|done|by exists input, fctx].
      done.
    + cbn [bind] in Hr. eapply thrown_answer; [exact Hr|done|done|]. intros t'. exists input, fctx. auto.
    + destruct (r ≫= _) as [r'|] eqn:Es.
      * destruct r as [r|]; [|done]. cbn in Es. destruct (decisionResultSchema r) eqn:Ed; [|done]. injection Es as <-.
        destruct Hr as [-> ->]. left. exists r. split; [done|]. split; [done|]. left. exists input, fctx. apply Hin.
      * left. eapply (try_answer _ _ ISOLATION_INVALID_SHAPE); [|exact Hr|done|apply provider_text_min1|done|]; [done|].
        intros t'. exists input, fctx, r. split; [apply Hin|]. intros r' ->. cbn in Es. by destruct (decisionResultSchema r').
    + cbn [bind] in Hr. eapply thrown_answer; [exact Hr|done|done|]. intros t'. exists input, fctx. auto.
  - left. eapply (abstain_answer _ _ _ _ [Did (Ans:=DAns) DEnter false]); [exact Hr|done|apply provider_text_min1|exact Hsteady|].
    intros r (Hd & Hab & Hc & He & Hp & Hcd) Hs. split; [done|]. right. split_and!; [done..|]. exists ISOLATION_OVERLOADED.
    split; [done|]. right. left.
Qed.

(** *** The slots *)

Definition bulk_ok (b : Bulkhead) : Prop :=
  bh_active b = Z.of_nat (length (bh_running b)) /\ bh_active b <= is_maxConcurrent o /\ NoDup (bh_running b).

Lemma filter_out (i : nat) l :
  NoDup l -> i ∈ l -> length l = S (length (List.filter (fun j => negb (j =? i)%nat) l)).
Proof.
  induction 1 as [|j l Hj Hl IH]; [by intros ?%not_elem_of_nil|]. cbn [List.filter length].
  destruct (Nat.eqb_spec j i) as [->|Hne]; cbn [negb].
  - intros _. f_equal. clear IH. induction l as [|k l IHl]; [done|]. cbn [List.filter].
    apply not_elem_of_cons in Hj as [Hk Hj]. apply NoDup_cons in Hl as [_ Hl].
    rewrite (proj2 (Nat.eqb_neq k i)) by auto. cbn [negb length]. f_equal. by apply IHl.
  - intros [?|Hi]%elem_of_cons; [by subst|]. cbn [length]. by rewrite (IH Hi).
Qed.

(** At most [maxConcurrent] provider calls are unsettled, and the counter is
    their number, whatever times out. *)
Theorem bulkhead_bounded b : 0 <= is_maxConcurrent o -> rtc (bulk_step o) empty_bulkhead b -> bulk_ok b.
Proof.
  intros H0 Hb. cut (bulk_ok empty_bulkhead); [|split_and!; cbn; [done|lia|constructor]].
  induction Hb as [b|b b' b'' Hstep Hrun IH]; [done|]. intros (Ha & Hm & Hn). apply IH. clear IH Hrun.
  destruct Hstep as [b i Hi Hs|b i Hi]; unfold bulk_ok.
  - unfold enter. destruct (Z.leb_spec (is_maxConcurrent o) (bh_active b)); cbn; [done|].
    split_and!; [lia|lia|by constructor].
  - cbn. rewrite Ha in *. pose proof (filter_out i _ Hn Hi). split_and!; [lia|lia|].
    clear -Hn. induction Hn as [|j l Hj Hl IH]; cbn; [constructor|]. destruct (negb _); [|done].
    constructor; [|done]. rewrite elem_of_filterb. tauto.
Qed.
End boundary.

(** The clock is the wall clock, and a negative latency is refused by the schema of
    the abstention itself: when the clock is set back while a provider is late, the
    boundary rejects. *)
Definition set_back : trace DAns * result string DecisionResult :=
  answer (fun h e =>
    match e as e return DAns e with
    | DNow => match h with [] => 5000 | _ => 4000 end
    | DEnter => true
    | DRace _ _ => Late
    end) [] (decide_ (mkIsolated "rule-provider" "0.1.0" 500 32) (mkTelemetry "s" []) (mkContext (Some 1000) 60000 "c")).

Theorem boundary_throws :
  exists o input ctx t, runs (decide_ o input ctx) t (inl "ZodError").
Proof.
  do 3 eexists. exists set_back.1. replace (inl "ZodError") with set_back.2 by (vm_compute; reflexivity). apply answer_runs.
Qed.

(** A provider that throws an object without a prototype: [String] of it throws inside the
    [catch], and the decision rejects. *)
Theorem describing_throws :
  let no_text := ThrownValue (inl "Cannot convert object to primitive value") in
  let run := answer (fun h e => match e as e return DAns e with DNow => 5000 | DEnter => true | DRace _ _ => Rejected no_text end) []
    (decide_ (mkIsolated "rule-provider" "0.1.0" 500 32) (mkTelemetry "s" []) (mkContext (Some 1000) 60000 "c")) in
  steady run.1 /\ run.2 = inl "Cannot convert object to primitive value".
Proof. split; [vm_compute; repeat constructor|reflexivity]. Qed.

(** A provider that is late, under a clock that stands still. *)
Definition demo_late : trace DAns * result string DecisionResult :=
  answer (fun h e =>
    match e as e return DAns e with DNow => 5000 | DEnter => true | DRace _ _ => Late end) []
    (decide_ (mkIsolated "rule-provider" "0.1.0" 500 32) (mkTelemetry "s" []) (mkContext None 60000 "c")).

Lemma boundary_answers_witness :
  exists r, demo_late.2 = inr r /\ isolated_answer demo_late.1 r /\ dr_abstainCode r = Some ISOLATION_TIMEOUT.
Proof.
  destruct (boundary_answers (mkIsolated "rule-provider" "0.1.0" 500 32) (mkTelemetry "s" []) (mkContext None 60000 "c")
    demo_late.1 demo_late.2) as [(r & Hr & Ha)|(err & m & Hr & _)].
  - apply answer_runs.
  - vm_compute. repeat constructor; intros ?; discriminate.
  - exists r. split; [exact Hr|]. split; [exact Ha|]. vm_compute in Hr. injection Hr as <-. reflexivity.
  - vm_compute in Hr. discriminate Hr.
Defined.

(** ** The rule provider *)

(** What the provider has to judge on is there: some signal, every required one, and
    none of them seen too long ago. *)
Definition telemetry_complete (requiredSignals : list string) (input : TelemetrySnapshot) (ctx : DecisionContext) : Prop :=
  tl_signals input <> [] /\ (forall name, name ∈ requiredSignals -> map_has name (tl_signals input) = true) /\
  (forall name s, (name, s) ∈ tl_signals input -> is_stale ctx s = false).

Lemma find_None {A} (f : A -> bool) l : List.find f l = None <-> forall x, x ∈ l -> f x = false.
Proof.
  induction l as [|x l IH]; cbn; [set_solver|]. destruct (f x) eqn:E; [|rewrite IH; set_solver].
  split; [done|]. intros H. rewrite (H x) in E by left. done.
Qed.

(** A fail-closed verdict: the provider says NORMAL exactly for complete telemetry,
    with the low confidence of a default, and abstains otherwise. *)
Theorem rule_fails_closed iso req input ctx t r :
  runs (rule_decide iso req input ctx) t (inr r) ->
  dr_abstained r = bool_decide (dr_decision r = ABSTAIN) /\ (dr_decision r = NORMAL \/ dr_decision r = ABSTAIN) /\
  (dr_decision r = NORMAL <-> telemetry_complete req input ctx).
Proof.
  unfold rule_decide. intros (t1 & t2 & startedAt & -> & _ & Hr)%runs_bind.
  assert (forall code reason t, runs (abstain ctx startedAt code reason) t (inr r) ->
    dr_decision r = ABSTAIN /\ dr_abstained r = true) as Habs.
  { intros code reason t. unfold abstain. intros (u1 & u2 & now & -> & _ & H)%runs_bind. unfold parse_result in H.
    destruct (decisionResultSchema _); [|by destruct H]. by destruct H as [_ [= ->]]. }
  assert (forall code reason t, runs (abstain ctx startedAt code reason) t (inr r) ->
    ~ telemetry_complete req input ctx ->
    dr_abstained r = bool_decide (dr_decision r = ABSTAIN) /\ (dr_decision r = NORMAL \/ dr_decision r = ABSTAIN) /\
    (dr_decision r = NORMAL <-> telemetry_complete req input ctx)) as Hno.
  { intros code reason t [Hd Ha]%Habs Hc. rewrite Hd, Ha. split_and!; [done|by right|by split]. }
  destruct (tl_signals input) as [|e es] eqn:Es; [eapply Hno; [exact Hr|]; by intros (? & _)|]. rewrite <-Es in Hr.
  destruct (List.find _ req) as [missing|] eqn:Em.
  { eapply Hno; [exact Hr|]. intros (_ & Hm & _). apply find_some in Em as [Hin Hf]. rewrite <-list_elem_of_In in Hin.
    by rewrite Hm in Hf. }
  destruct (List.find _ (tl_signals input)) as [[name s]|] eqn:Ef.
  { eapply Hno; [exact Hr|]. intros (_ & _ & Hs). apply find_some in Ef as [Hin Hf]. rewrite <-list_elem_of_In in Hin.
    cbn in Hf. by rewrite (Hs _ _ Hin) in Hf. }
  apply runs_bind in Hr as (u1 & u2 & now & -> & _ & H). unfold parse_result in H.
  destruct (decisionResultSchema _); [|by destruct H]. destruct H as [_ [= ->]]. cbn.
  split_and!; [done|by left|]. split; [intros _|done]. split_and!; [by rewrite Es| |].
  - intros n Hn. rewrite find_None in Em. specialize (Em n Hn). by apply negb_false_iff in Em.
  - intros n s Hin. rewrite find_None in Ef. exact (Ef (n, s) Hin).
Qed.

(** The projection of a record agrees with its verdict: for signals with valid times, the
    rule provider says NORMAL exactly when there are signals and the record marks every one
    of them fresh. *)
Theorem projection_agrees iso f t r :
  runs (rule_decide iso [] (df_snapshot f) (fixture_context f)) t (inr r) ->
  (forall name s, (name, s) ∈ tl_signals (df_snapshot f) -> is_Some (ts_observedAt s)) ->
  dr_decision r = NORMAL <->
  dd_inputSignals (decision_record f r) <> [] /\ forall i, i ∈ dd_inputSignals (decision_record f r) -> i.2 = true.
Proof.
  intros Hr Hd. apply rule_fails_closed in Hr as (_ & _ & ->). unfold telemetry_complete. cbn [decision_record dd_inputSignals].
  unfold input_signals. assert (forall name s, (name, s) ∈ tl_signals (df_snapshot f) ->
    match ts_observedAt s with Some u => evaluatedAt - u <=? fixture_maxAgeMs | None => false end
      = negb (is_stale (fixture_context f) s)) as Hs.
  { intros name s [u Hu]%Hd. unfold is_stale. cbn. rewrite Hu. by rewrite Z.leb_antisym. }
  split.
  - intros (Hn & _ & Hf). split; [by destruct (tl_signals (df_snapshot f))|].
    intros i ([name s] & Hin & ->)%elem_of_map. cbn [snd]. by rewrite (Hs name s Hin), (Hf name s Hin).
  - intros [Hn Hf]. split_and!; [by destruct (tl_signals (df_snapshot f))|by intros ? ?%elem_of_nil|].
    intros name s Hin. apply negb_true_iff. rewrite <-(Hs name s Hin).
    apply (Hf (name, ts_observedAt s, match ts_observedAt s with Some u => evaluatedAt - u <=? fixture_maxAgeMs | None => false end)).
    apply elem_of_map. by exists (name, s).
Qed.

(** The rule provider, answering in time. *)
Definition rule_in_time (h : trace DAns) (e : DOp) : DAns e :=
  match e as e return DAns e with
  | DNow => 5000
  | DEnter => true
  | DRace input ctx =>
      match (answer (fun _ e => match e as e return DAns e with DNow => 5000 | DEnter => true | DRace _ _ => Late end) []
        (rule_decide (fun _ => EmptyString) [] input ctx)).2 with inr r => Resolved (Some r) | inl m => Rejected (ThrownError (inr m)) end
  end.

(** The records the API serves: one verdict, and an abstention of each kind. *)
Lemma decisions_served :
  exists l, (answer rule_in_time [] decisions).2 = inr l /\
    map (fun r => (dd_id r, dr_decision (dd_result r), dr_abstainCode (dd_result r))) l =
      [("decision-fresh", NORMAL, None); ("decision-stale", ABSTAIN, Some STALE_TELEMETRY);
       ("decision-empty", ABSTAIN, Some NO_TELEMETRY)].
Proof. eexists. split; [vm_compute; reflexivity|reflexivity]. Qed.

Definition stale_fixture : DecisionFixture :=
  mkDecisionFixture "decision-stale"
    (mkTelemetry "snapshot-stale-001" [("k8s.workload.cpu", mkSignal (SigString "850m") (Some 1790585820000))]) None None None.

Lemma projection_agrees_witness :
  exists t r, runs (rule_decide (fun _ => EmptyString) [] (df_snapshot stale_fixture) (fixture_context stale_fixture)) t (inr r) /\
    dr_decision r <> NORMAL.
Proof.
  set (run := answer rule_in_time [] (rule_decide (fun _ => EmptyString) [] (df_snapshot stale_fixture) (fixture_context stale_fixture))).
  assert (exists r, run.2 = inr r) as [r Hr] by (eexists; vm_compute; reflexivity).
  pose proof (answer_runs rule_in_time [] (rule_decide (fun _ => EmptyString) [] (df_snapshot stale_fixture) (fixture_context stale_fixture))) as H.
  fold run in H. rewrite Hr in H. exists run.1, r. split; [exact H|].
  intros [_ Hall]%(projection_agrees _ stale_fixture _ _ H).
  - specialize (Hall ("k8s.workload.cpu", Some 1790585820000, false)). discriminate Hall. left.
  - intros name s [[= _ ->]|?%elem_of_nil]%elem_of_cons; [by eexists|done].
Defined.

(** An invalid time compares as fresh: a signal whose time of observation is no date
    is judged NORMAL, where its projection says that it was not fresh. *)
Definition demo_invalid : TelemetrySnapshot := mkTelemetry "s" [("k8s.pod.cpu", mkSignal (SigNumber 1) None)].

Definition demo_invalid_run : trace DAns * result string DecisionResult :=
  answer (fun h e => match e as e return DAns e with DNow => 5000 | DEnter => true | DRace _ _ => Late end) []
    (rule_decide (fun _ => EmptyString) [] demo_invalid (mkContext (Some 5000) 60000 "c")).

Definition demo_default : DecisionResult :=
  rule_result NORMAL SAFE_DEFAULT_CONFIDENCE false None None (mkContext (Some 5000) 60000 "c") 0.

Definition demo_invalid_result : demo_invalid_run.2 = inr demo_default.
Proof. vm_compute. reflexivity. Defined.

Theorem invalid_time_passes :
  exists t r, runs (rule_decide (fun _ => EmptyString) [] demo_invalid (mkContext (Some 5000) 60000 "c")) t (inr r) /\
    dr_decision r = NORMAL /\ input_signals 5000 60000 demo_invalid = [("k8s.pod.cpu", None, false)].
Proof.
  exists demo_invalid_run.1, demo_default. split_and!; [|reflexivity|reflexivity].
  rewrite <-demo_invalid_result. apply answer_runs.
Qed.

Lemma rule_fails_closed_witness :
  demo_invalid_run.2 = inr demo_default /\ telemetry_complete [] demo_invalid (mkContext (Some 5000) 60000 "c").
Proof.
  split; [exact demo_invalid_result|].
  apply (rule_fails_closed (fun _ => EmptyString) [] demo_invalid (mkContext (Some 5000) 60000 "c") demo_invalid_run.1
    demo_default); [|reflexivity].
  rewrite <-demo_invalid_result. apply answer_runs.
Defined.
