(* ===== verification/Threads.v ===== *)
(** * Concurrent programs over shared fields

    An asynchronous method is a program with effects; the methods of one object
    run interleaved at their calls and share its fields.  [system] is the run of
    a pool of such programs over a state that answers the calls.  [rely] is the
    proof rule of one program: every call it makes is in order, given that the
    others keep the state sound; [rely_guarantee] puts the programs together.

    [F] is the set of all calls of a run.  A fact about the shared state is a
    statement that some calls are in [F], so it stays true while others run. *)

From S2P Require Import Prelude Effects.

Section threads.
Context {Op : Type} {Ans : Op -> Type}.

Local Abbreviation calls := (call Ans -> Prop).

(** ** One program *)

Section rule.
Context (given ok : list (call Ans) -> forall e, Ans e -> Prop).

Fixpoint rely {A} (post : trace Ans -> A -> Prop) (h : trace Ans) (p : prog Ans A) : Prop :=
  match p with
  | Ret a => post h a
  | Vis e k => forall r, given h e r -> ok h e r /\ rely post (Did e r :: h) (k r)
  end.

Lemma rely_bind {A B} (mid : trace Ans -> A -> Prop) (post : trace Ans -> B -> Prop) h p f :
  rely mid h p -> (forall h' a, mid h' a -> rely post h' (f a)) -> rely post h (bind p f).
Proof.
  intros Hp Hf. revert h Hp. induction p as [a|e k IH]; intros h; cbn [rely bind]; [auto|].
  intros Hk r Hr. destruct (Hk r Hr) as [Ho Hp]. split; [done|]. by apply IH.
Qed.

Lemma rely_mono {A} (post post' : trace Ans -> A -> Prop) h p :
  rely post h p -> (forall h a, post h a -> post' h a) -> rely post' h p.
Proof.
  intros Hp Hpost. revert h Hp. induction p as [a|e k IH]; intros h; cbn [rely]; [auto|].
  intros Hk r Hr. destruct (Hk r Hr) as [Ho Hp]. split; [done|]. by apply IH.
Qed.

(** The history only grows. *)
Lemma rely_grows {A} (post : trace Ans -> A -> Prop) h p :
  rely post h p -> rely (fun h' a => post h' a /\ exists l, h' = l ++ h) h p.
Proof.
  enough (forall h0, (exists l, h0 = l ++ h) -> rely post h0 p ->
    rely (fun h' a => post h' a /\ exists l, h' = l ++ h) h0 p) as Hall by (apply Hall; by exists []).
  induction p as [a|e k IH]; intros h0 [l ->]; cbn [rely]; [eauto|].
  intros Hk r Hr. destruct (Hk r Hr) as [Ho Hp]. split; [done|]. apply IH; [|done]. by exists (Did e r :: l).
Qed.

Lemma rely_perform {B} (post : trace Ans -> B -> Prop) h (e : Op) f :
  (forall r, given h e r -> ok h e r /\ rely post (Did e r :: h) (f r)) -> rely post h (bind (perform e) f).
Proof. done. Qed.

Lemma rely_assoc {A B C} (post : trace Ans -> C -> Prop) h (p : prog Ans A) (f : A -> prog Ans B) g :
  rely post h (bind p (fun a => bind (f a) g)) -> rely post h (bind (bind p f) g).
Proof.
  revert h. induction p as [a|e k IH]; intros h; cbn [bind rely]; [done|].
  intros Hk r Hr. destruct (Hk r Hr). split; [done|]. by apply IH.
Qed.

Lemma rely_ret {A B} (post : trace Ans -> B -> Prop) h (a : A) f :
  rely post h (f a) -> rely post h (bind (Ret a) f).
Proof. done. Qed.

Lemma rely_bind_ok {X A B} (mid : trace Ans -> result X A -> Prop) (post : trace Ans -> result X B -> Prop) h p f :
  rely mid h p -> (forall h' x, mid h' (inl x) -> post h' (inl x)) ->
  (forall h' a, mid h' (inr a) -> rely post h' (f a)) -> rely post h (bind_ok p f).
Proof. intros Hp Hx Ha. eapply rely_bind; [exact Hp|]. intros h' [x|a] Hm; [by apply Hx|by apply Ha]. Qed.
End rule.

(** ** Many programs *)

Section pool.
Context {St : Type} (act : St -> forall e, Ans e -> St -> Prop).
Context {A : Type} (entry : prog Ans A -> Prop).

(** The state, the programs with what each did so far, and all calls (the last
    one first). *)
Record Sys := mkSys { sys_state : St; sys_pool : list (trace Ans * prog Ans A); sys_log : list (call Ans) }.

Definition started (s : St) : Sys := mkSys s [] [].

Inductive sys_step : Sys -> Sys -> Prop :=
| sys_spawn s pool log p : entry p -> sys_step (mkSys s pool log) (mkSys s (pool ++ [([], p)]) log)
| sys_act s pool log i h e k r s' :
    pool !! i = Some (h, Vis e k) -> act s e r s' ->
    sys_step (mkSys s pool log) (mkSys s' (<[i := (Did e r :: h, k r)]> pool) (Did e r :: log)).

Inductive system (s0 : St) : Sys -> Prop :=
| system_start : system s0 (started s0)
| system_step x y : system s0 x -> sys_step x y -> system s0 y.

(** What a program may assume and must ensure, and when the state is sound, for
    the calls [F] of the run. *)
Context (given ok : calls -> trace Ans -> forall e, Ans e -> Prop).
Context (sound : calls -> St -> Prop) (post : calls -> trace Ans -> A -> Prop).

(** Where a program got to: what it did was in order, what is left is. *)
Definition well_run (F : calls) (h : trace Ans) (p : prog Ans A) : Prop :=
  rely (given F) (ok F) (post F) h p /\ forall l e r h0, h = l ++ Did e r :: h0 -> ok F h0 e r.

Lemma well_run_step F h e k r :
  well_run F h (Vis e k) -> given F h e r -> well_run F (Did e r :: h) (k r) /\ ok F h e r.
Proof.
  intros [Hr Hh] Hg. cbn [rely] in Hr. destruct (Hr r Hg) as [Ho Hr']. split; [|done]. split; [done|].
  intros l e' r' h0 E. destruct l as [|c l]; [|by injection E as _ E; eapply Hh].
  pose proof (f_equal (fun l => match l with Did e r :: h => ok F h e r | [] => True end) E) as Eo. cbn in Eo. by rewrite <-Eo.
Qed.

Theorem rely_guarantee s0 x (F : calls) :
  (forall F, sound F s0) ->
  (forall F p, entry p -> rely (given F) (ok F) (post F) [] p) ->
  (forall F s h e r s', sound F s -> act s e r s' -> F (Did e r) ->
    given F h e r /\ (ok F h e r -> sound F s')) ->
  system s0 x -> (forall c, c ∈ sys_log x -> F c) ->
  sound F (sys_state x) /\
  (forall i h p, sys_pool x !! i = Some (h, p) -> well_run F h p) /\
  (forall c, c ∈ sys_log x -> exists i h p, sys_pool x !! i = Some (h, p) /\ c ∈ h).
Proof.
  intros H0 Hentry Hact Hx. induction Hx as [|x y Hx IH Hs]; intros HF.
  { split_and!; [apply H0|done|by intros c ?%not_elem_of_nil]. }
  destruct Hs as [s pool log p Hp|s pool log i h e k r s' Hi Ha]; cbn [sys_state sys_pool sys_log] in *.
  - destruct (IH HF) as (Hsound & Hpool & Hlog). split_and!; [done| |].
    + intros i h q [Hi|[_ Hi]]%lookup_app_Some; [by apply (Hpool i)|].
      apply list_lookup_singleton_Some in Hi as [_ [= <- <-]]. split; [by apply Hentry|by intros [] ? *].
    + intros c Hc. destruct (Hlog c Hc) as (j & h & q & Hj & Hin). exists j, h, q. split; [|done]. by apply lookup_app_l_Some.
  - destruct IH as (Hsound & Hpool & Hlog); [intros c Hc; apply HF; by right|].
    destruct (Hact F s h e r s') as [Hg Hok]; [done|done|apply HF; left|].
    destruct (well_run_step F h e k r (Hpool _ _ _ Hi) Hg) as [Hrun Ho]. pose proof (lookup_lt_Some _ _ _ Hi) as Hl.
    split_and!; [by apply Hok| |].
    + intros j h' q Hj. destruct (decide (i = j)) as [<-|Hne].
      * rewrite list_lookup_insert_eq in Hj by done. by injection Hj as <- <-.
      * rewrite list_lookup_insert_ne in Hj by done. by apply (Hpool j).
    + intros c [->|Hc]%elem_of_cons.
      * exists i, (Did e r :: h), (k r). split; [by rewrite list_lookup_insert_eq|left].
      * destruct (Hlog c Hc) as (j & h' & q & Hj & Hin). destruct (decide (i = j)) as [<-|Hne].
        -- exists i, (Did e r :: h), (k r). split; [by rewrite list_lookup_insert_eq|]. rewrite Hi in Hj.
           injection Hj as -> _. by right.
        -- exists j, h', q. split; [by rewrite list_lookup_insert_ne|done].
Qed.
End pool.

(** ** Fields and an outside *)

(** [inner] is what a call answers and does to the fields; where it is [None] the
    outside answers (the clock, the network), or the call waits. *)
Section alone.
Context {St : Type} (inner : St -> forall e, option (Ans e * St)) (outside : Op -> bool).

Definition act (s : St) (e : Op) (r : Ans e) (s' : St) : Prop :=
  inner s e = Some (r, s') \/ outside e = true /\ s' = s.

(** One program alone, with the answers of the outside in order: its result, the
    fields, its calls (the last one first) and how many answers it took. *)
Context (outer : nat -> forall e, Ans e).

Fixpoint alone {A} (p : prog Ans A) (s : St) (n : nat) (h : trace Ans) : option (A * St * nat * trace Ans) :=
  match p with
  | Ret a => Some (a, s, n, h)
  | Vis e k =>
      match inner s e with
      | Some (r, s') => alone (k r) s' n (Did e r :: h)
      | None => if outside e then alone (k (outer n e)) s (S n) (Did e (outer n e) :: h) else None
      end
  end.

(** The last program of a pool runs to its end while the others wait. *)
Lemma alone_system {A} (entry : prog Ans A -> Prop) s0 p s n h a s' n' h' pool log :
  alone p s n h = Some (a, s', n', h') -> system act entry s0 (mkSys s (pool ++ [(h, p)]) log) ->
  exists log', system act entry s0 (mkSys s' (pool ++ [(h', Ret a)]) log').
Proof.
  revert s n h log. induction p as [b|e k IH]; intros s n h log; cbn [alone].
  { intros [= -> -> _ ->] Hs. by exists log. }
  assert (forall r s1, act s e r s1 -> system act entry s0 (mkSys s (pool ++ [(h, Vis e k)]) log) ->
    system act entry s0 (mkSys s1 (pool ++ [(Did e r :: h, k r)]) (Did e r :: log))) as Hstep.
  { intros r s1 Ha Hs. eapply system_step; [exact Hs|].
    replace (pool ++ [(Did e r :: h, k r)]) with (<[length pool := (Did e r :: h, k r)]> (pool ++ [(h, Vis e k)])).
    - apply sys_act with (s := s); [|done]. by rewrite lookup_app_r, Nat.sub_diag by lia.
    - rewrite insert_app_r_alt, Nat.sub_diag by lia. done. }
  destruct (inner s e) as [[r s1]|] eqn:Ei; [|destruct (outside e) eqn:Eo; [|done]]; intros Ha Hs.
  - eapply IH; [exact Ha|]. apply Hstep; [by left|done].
  - eapply IH; [exact Ha|]. apply Hstep; [by right|done].
Qed.
End alone.
End threads.

Arguments Sys {Op} Ans St A.
Arguments mkSys {Op Ans St A}.
