(* ===== verification/SsoPorts.v ===== *)
(** * The ports of the change-request flow

    One effect per method of the interfaces the flow is written against: the clock
    and the log, [SsoChangeStore] ([store/ssoChangeStore.ts]), [SsoAdapter.readBase]
    ([adapters/sso/ssoAdapter.ts]), [GitChangeOps] ([sso-change/gitWriter.ts]) and
    [ArgocdPort] ([sso-change/argocdReader.ts]).  A method that may throw answers
    with an exception or a value. *)

From S2P Require Import Prelude JsBase JsJson PolicyValidate SsoStore SsoSchema SsoEdit Effects.
From Stdlib Require Import Ascii.
From Stdlib Require String.
Open Scope prog_scope.

(** ** Data *)

Inductive WriteKind := KConflict | KRejected | KUnknown.

#[export] Instance WriteKind_eq_dec : EqDecision WriteKind.
Proof. solve_decision. Defined.

(** What the calls of the flow throw. *)
Inductive Exn :=
| StoreError (c : StoreErrorCode)
| GitWriteError (k : WriteKind) (m : string)
| GithubUnavailableError (m : string)
| SsoConfigError (m : string)
| ArgocdError (m : string)
| OtherError (m : string).

Definition store_message (c : StoreErrorCode) : string :=
  match c with
  | OPEN_REQUEST_EXISTS => "An SSO change request is already open"
  | IDEMPOTENCY_MISMATCH => "Idempotency-Key was used with a different payload"
  | IDEMPOTENCY_KEY_COLLISION => "Idempotency-Key collides with an earlier request; use a new key"
  | UNAVAILABLE => "audit store unavailable"
  end.

(** [error instanceof Error ? error.message : ...] *)
Definition exn_message (x : Exn) : string :=
  match x with
  | StoreError c => store_message c
  | GitWriteError _ m | GithubUnavailableError m | SsoConfigError m | ArgocdError m | OtherError m => m
  end.

Record CreateChangePrInput := mkCreate {
  cc_branch : string;
  cc_baseCommitSha : string;
  cc_baseBlobSha : string;
  cc_path : string;
  cc_content : string;
  cc_title : string;
  cc_body : string;
  cc_notBefore : option Z;
  cc_commitMessage : string;
}.

Record CreatedPr := mkCreated { cp_prNumber : Z; cp_prUrl : string }.

Inductive PrState := PrStateOpen | PrStateClosed.

#[export] Instance PrState_eq_dec : EqDecision PrState.
Proof. solve_decision. Defined.

(** [pi_createdAt]: the time in milliseconds, when it parses. *)
Record PrInfo := mkPr {
  pi_number : Z;
  pi_url : string;
  pi_createdAt : option Z;
  pi_state : PrState;
  pi_merged : bool;
  pi_mergeCommitSha : option string;
}.

Inductive CompareStatus := Identical | Ahead | Behind | Diverged.

#[export] Instance CompareStatus_eq_dec : EqDecision CompareStatus.
Proof. solve_decision. Defined.

Record SsoBase := mkBase {
  sb_commitSha : string;
  sb_blobSha : string;
  sb_text : string;
  sb_baseDomain : string;
  sb_config : SsoConfig;
  sb_groupNames : list string;
}.

Record ArgocdAppStatus := mkApp {
  app_name : string;
  app_syncStatus : string;
  app_revision : option string;
  app_healthStatus : option string;
}.

Definition ARGOCD_APPS : list string := ["beluga-platform"; "beluga-data"].

Definition CREATE_PR_DEADLINE_MS : Z := 60000.

(** ** The effects *)

Inductive Eff : Type :=
| ENow
| ELog (line : string)
| EReady
| ERecord (e : NewEvent)
(** a [recordEvent] nobody waits for *)
| ERecordDetached (e : NewEvent)
| EFindByKey (key : string)
| ESubmit (i : SubmitInput)
| ETransition (i : string) (expected s : ChangeStage) (f : TransitionFields) (e : TransitionEvent) (version : option Z)
| EGet (i : string)
| EListOpen (limit : nat)
| EFindByBranch (b : string)
| EListRecentTerminal (sinceMs : Z) (limit : nat)
| EAcquireLease
| EReleaseLease
| EReadBase (fresh : bool)
| ECreatePr (i : CreateChangePrInput)
| EFindBranch (b : string)
| EFindPr (b : string) (notBefore : option Z)
| EGetPr (n : Z)
| EClosePr (n : Z)
| ECompare (base head : string)
| EListSsoPrs
| EReadFile (path ref : string)
| EGetApp (name : string).

(** What a call answers with. *)
Definition Ans (e : Eff) : Type :=
  match e with
  | ENow => Z
  | ELog _ | ERecordDetached _ | EReleaseLease => unit
  | EReady => bool
  | ERecord _ => result Exn unit
  | EFindByKey _ | ETransition _ _ _ _ _ _ | EGet _ | EFindByBranch _ => result Exn (option ChangeRecord)
  | ESubmit _ => result Exn (ChangeRecord * bool)
  | EListOpen _ | EListRecentTerminal _ _ => result Exn (list ChangeRecord)
  | EAcquireLease => result Exn bool
  | EReadBase _ => result Exn SsoBase
  | ECreatePr _ => result Exn CreatedPr
  | EFindBranch _ => result Exn (option string)
  | EFindPr _ _ | EGetPr _ => result Exn (option PrInfo)
  | EClosePr _ => result Exn PrInfo
  | ECompare _ _ => result Exn CompareStatus
  | EListSsoPrs => result Exn (list (Z * string))
  | EReadFile _ _ => result Exn (string * string)
  | EGetApp _ => result Exn ArgocdAppStatus
  end.

Definition Prog (A : Type) : Type := prog Ans (result Exn A).

Definition throw {A} (x : Exn) : Prog A := Ret (inl x).
Definition return_ {A} (a : A) : Prog A := Ret (inr a).
Definition log (line : string) : prog Ans unit := perform (ELog line).

(** The calls that change something on GitHub. *)
Definition git_write (c : call Ans) : bool :=
  match c with Did (ECreatePr _) _ | Did (EClosePr _) _ => true | _ => false end.

(** The calls that change the store. *)
Definition store_write (c : call Ans) : bool :=
  match c with
  | Did (ERecord _) _ | Did (ERecordDetached _) _ | Did (ESubmit _) _ | Did (ETransition _ _ _ _ _ _) _ => true
  | _ => false
  end.

(** ** [parseGroupNames], [gitBlobSha] *)

Section source.
Context `{EditLib}.

Definition group_name (g : json) : option string :=
  match field g "name" with
  | Some (JStr s) => if String.eqb s EmptyString then None else Some s
  | _ => None
  end.

Definition parseGroupNames (text where_ : string) : result Exn (list string) :=
  match yamlParse text with
  | None => inl (SsoConfigError ("Malformed YAML in " +:+ where_))
  | Some raw =>
      match as_array (field raw "groups") with
      | None => inl (SsoConfigError (where_ +:+ " must contain a groups list"))
      | Some groups =>
          match all_some group_name groups with
          | None => inl (SsoConfigError (where_ +:+ " has a group without a name"))
          | Some names => inr names
          end
      end
  end.

Definition gitBlobSha (text : string) : string :=
  sha1 ("blob " +:+ PolicyValidate.show (String.length text) +:+ str1 Ascii.zero +:+ text).

(** What [buildChange] throws, as an exception. *)
Definition build_exn (e : BuildError) : Exn :=
  match e with BuildRejected r => OtherError (rej_message r) | Thrown m => OtherError m end.

End source.
