(* ===== verification/Kube.v ===== *)
(** * Live reads from Kubernetes: [adapters/{kubeClient,kubeWorkload,kubeEvents}.ts] and
    [sso-change/argocdReader.ts] of domain-api/src

    The client reads the credentials of the pod anew for each request; the readers
    above it turn workloads, events and ArgoCD applications into the shapes of the
    API.  Requests that the sources start together share nothing and are made one
    after the other here, all of them, whatever the others answer.  The network, the
    files, the clock and [Intl] are outside. *)

From S2P Require Import Prelude JsBase JsText JsJson JsLib Effects SsoPorts HttpClient Config Services.
From Stdlib Require Import Ascii.
From Stdlib Require String.
Open Scope Z_scope.
Open Scope prog_scope.

(** ** The calls *)

Record KubeRequest := mkKubeRequest {
  kr_url : WebUrl;
  kr_headers : list (string * string);
  kr_ca : string;
  kr_timeoutMs : Z;
}.

Inductive KubeReply := KubeTimeout | KubeUnreachable | KubeReplied (status : Z) (body : string).

Inductive KOp : Type :=
| KNow
| KReadFile (path : string)
| KRequest (r : KubeRequest)
| KDeadline (i : string) (ms : Z)
| KLog (line : string).

Definition KAns (e : KOp) : Type :=
  match e with
  | KNow => Z
  | KReadFile _ => option string
  | KRequest _ => KubeReply
  | KDeadline _ _ => bool
  | KLog _ => unit
  end.

(** What is thrown, by its message. *)
Definition KProg (A : Type) : Type := prog KAns (result string A).
Definition kfail {A} (m : string) : KProg A := Ret (inl m).
Definition kok {A} (a : A) : KProg A := Ret (inr a).
Definition kdo (e : KOp) : prog KAns (KAns e) := perform e.
Definition kube_deadline (i : string) (ms : Z) : prog KAns bool := kdo (KDeadline i ms).
Definition kube_log (line : string) : prog KAns unit := kdo (KLog line).

(** [Intl] and [Date] *)
Class Intl := {
  toISOString : Z -> string;
  localeCompare : string -> string -> Z;
}.

(** ** [kubeClient.ts] *)

Section client.
Context `{JsLib} `{Host} `{Intl}.
Context (apiUrl tokenFile caFile : string) (clientTimeoutMs : option Z).

Definition kube_timeout : Z := default 2500 clientTimeoutMs.

(** The URL of a path, on the origin of the API server only. *)
Definition target_url (path : string) : result string WebUrl :=
  match new_URL_at path apiUrl with
  | None => inl "Invalid URL"
  | Some url =>
      if negb (starts_with "/" path) then inl "invalid API path"
      else
        match new_URL apiUrl with
        | None => inl "Invalid URL"
        | Some api => if negb (String.eqb (w_origin url) (w_origin api)) then inl "invalid API path" else inr url
        end
  end.

Definition request_headers (token : string) : list (string * string) :=
  [("Authorization", "Bearer " +:+ token); ("Accept", "application/json")].

(** The token and the CA. *)
Definition read_credentials : KProg (string * string) :=
  await token := kdo (KReadFile tokenFile) in
  match token with
  | None => kfail "service account files are not readable"
  | Some token =>
      await ca := kdo (KReadFile caFile) in
      match ca with
      | None => kfail "service account files are not readable"
      | Some ca =>
          if String.eqb (trim token) EmptyString then kfail "service account token is empty" else kok (trim token, ca)
      end
  end.

Definition getText (path : string) : KProg string :=
  match target_url path with
  | inl m => kfail m
  | inr url =>
      attempt (token, ca) := read_credentials in
      await reply := kdo (KRequest (mkKubeRequest url (request_headers token) ca kube_timeout)) in
      match reply with
      | KubeTimeout => kfail "timeout"
      | KubeUnreachable => kfail "unreachable"
      | KubeReplied status body =>
          if negb (status =? 200) then kfail ("http-" +:+ pretty status) else kok body
      end
  end.

Definition getJson (path : string) : KProg json :=
  attempt body := getText path in
  match JSON_parse body with None => kfail "malformed response" | Some j => kok j end.

(** ** [argocdReader.ts] *)

Definition ARGOCD_NAMESPACE : string := "argocd".

Definition application_path (name : string) : string :=
  "/apis/argoproj.io/v1alpha1/namespaces/" +:+ ARGOCD_NAMESPACE +:+ "/applications/" +:+ encodeURIComponent name.

Definition application_status (name : string) (j : json) : result string ArgocdAppStatus :=
  let status := field j "status" in
  let sync := ofield status "sync" in
  match as_string (ofield sync "status") with
  | None => inl "application has no sync status"
  | Some s =>
      inr (mkApp name s (as_string (ofield sync "revision")) (as_string (ofield (ofield status "health") "status")))
  end.

Definition getApplication (name : string) : KProg ArgocdAppStatus :=
  if negb (bool_decide (name ∈ ARGOCD_APPS)) then kfail "application is not readable"
  else attempt j := getJson (application_path name) in Ret (application_status name j).

(** ** [kubeWorkload.ts] *)

Inductive Resource := Deployments | Kafkas.

#[export] Instance Resource_eq_dec : EqDecision Resource.
Proof. solve_decision. Defined.

Definition resource_name (r : Resource) : string := match r with Deployments => "deployments" | Kafkas => "kafkas" end.

Record WorkloadTarget := mkTarget {
  wt_namespace : string;
  wt_resource : Resource;
  wt_names : list string;
  wt_optionalNames : list string;
}.

Definition WORKLOADS : list (string * WorkloadTarget) := [
  ("svc-trino", mkTarget "analytics" Deployments ["trino-coordinator"; "trino-worker"] ["trino-worker"]);
  ("svc-airflow", mkTarget "orchestration" Deployments ["airflow-webserver"] []);
  ("svc-iceberg", mkTarget "lakehouse" Deployments ["lakekeeper"] []);
  ("svc-kafka", mkTarget "streaming" Kafkas ["beluga-kafka"] []);
  ("svc-superset", mkTarget "analytics" Deployments ["superset"] [])
].

Definition PLATFORM_NAMESPACES : list string := set_of (map (fun kv => wt_namespace kv.2) WORKLOADS).

Record WorkloadSnapshot := mkSnapshot {
  ws_status : HealthStatus;
  ws_ready : Z;
  ws_desired : Z;
  ws_detail : option string;
}.

Record WorkloadState := mkState { st_ready : Z; st_desired : Z; st_missing : bool }.

(** [conditions.some(c => c.type === "Ready" && c.status === "True")] *)
Fixpoint some_ready (conditions : list json) : result string bool :=
  match conditions with
  | [] => inr false
  | JNull :: _ => inl "Cannot read properties of null"
  | c :: rest =>
      if bool_decide (as_string (field c "type") = Some "Ready") && bool_decide (as_string (field c "status") = Some "True")
      then inr true else some_ready rest
  end.

Definition conditions_ready (status : option json) : result string bool :=
  match ofield status "conditions" with
  | None | Some JNull => inr false
  | Some (JArr l) => some_ready l
  | Some _ => inl "conditions.some is not a function"
  end.

(** The status describes the current generation of the object. *)
Definition is_current (obj : json) : bool :=
  match ofield (field obj "metadata") "generation" with
  | None => true
  | Some generation => js_ge (nullish (ofield (field obj "status") "observedGeneration") (JNum (-1))) generation
  end.

Definition replica_count (status : option json) (key : string) : option Z :=
  match nullish (ofield status key) (JNum 0) with JNum n => if n <? 0 then None else Some n | _ => None end.

Definition deployment_state (obj : json) : result string WorkloadState :=
  let status := field obj "status" in
  match replica_count status "readyReplicas", replica_count status "updatedReplicas",
        replica_count status "availableReplicas", nullish (ofield (field obj "spec") "replicas") (JNum 1) with
  | Some r, Some u, Some a, JNum desired =>
      let ready := if is_current obj then Z.min r (Z.min u a) else 0 in
      if desired <? 0 then inl "malformed replica counts" else inr (mkState (Z.min ready desired) desired false)
  | _, _, _, _ => inl "malformed replica counts"
  end.

Definition kafka_state (obj : json) : result string WorkloadState :=
  let! ready := (if is_current obj then conditions_ready (field obj "status") else inr false) in
  inr (mkState (if ready : bool then 1 else 0) 1 false).

Definition workload_state (resource : Resource) (obj : json) : result string WorkloadState :=
  if negb (truthy (Some obj)) || negb (truthy (field obj "spec")) then inl "malformed workload"
  else match resource with Kafkas => kafka_state obj | Deployments => deployment_state obj end.

Definition workload_path (target : WorkloadTarget) (name : string) : string :=
  "/apis/" +:+ (match wt_resource target with Kafkas => "kafka.strimzi.io/v1" | Deployments => "apps/v1" end) +:+
  "/namespaces/" +:+ wt_namespace target +:+ "/" +:+ resource_name (wt_resource target) +:+ "/" +:+ name.

Definition read_workload (target : WorkloadTarget) (name : string) : KProg WorkloadState :=
  catch (attempt obj := getJson (workload_path target name) in Ret (workload_state (wt_resource target) obj))
    (fun m =>
      if String.eqb m "http-404" then kok (mkState 0 0 (negb (bool_decide (name ∈ wt_optionalNames target))))
      else kfail m).

Fixpoint all_inr {A} (l : list (result string A)) : result string (list A) :=
  match l with
  | [] => inr []
  | inl m :: _ => inl m
  | inr a :: l' => match all_inr l' with inl m => inl m | inr k => inr (a :: k) end
  end.

Definition sum_of (f : WorkloadState -> Z) (states : list WorkloadState) : Z := foldl (fun sum s => sum + f s) 0 states.

Definition workload_snapshot (states : list WorkloadState) : WorkloadSnapshot :=
  let ready := sum_of st_ready states in
  let desired := sum_of st_desired states in
  let missing := existsb st_missing states in
  mkSnapshot
    (if ready =? 0 then Unavailable else if negb missing && (ready =? desired) then Healthy else Degraded)
    ready desired
    (if missing then Some "not deployed: one or more chart workloads missing"
     else if desired =? 0 then Some "scaled to zero" else None).

Definition unreadable : WorkloadSnapshot := mkSnapshot Unknown 0 0 (Some "workload status unavailable").

Definition read_snapshot (i : string) : prog KAns WorkloadSnapshot :=
  if String.eqb i "svc-observability" then
    Ret (mkSnapshot Unavailable 0 0 (Some "not deployed: no observability workload in gitops/charts"))
  else if String.eqb i "svc-kubernetes" then
    await text := getText "/readyz" in
    match text with
    | inl _ => Ret unreadable
    | inr text =>
        let ready := String.eqb (trim text) "ok" in
        Ret (mkSnapshot (if ready then Healthy else Unknown) (if ready then 1 else 0) 1 None)
    end
  else
    match map_get i WORKLOADS with
    | None => Ret unreadable
    | Some target =>
        await states := all_of (read_workload target) (wt_names target) in
        Ret (match all_inr states with inl _ => unreadable | inr states => workload_snapshot states end)
    end.

Definition endpoint_label (i : string) : option string :=
  map_get i [("svc-trino", "trino"); ("svc-airflow", "airflow"); ("svc-iceberg", "catalog"); ("svc-superset", "superset")].

Definition metric_unit (i : string) : string :=
  if bool_decide (wt_resource <$> map_get i WORKLOADS = Some Kafkas) then "CRs"
  else if String.eqb i "svc-kubernetes" then "probe" else "replicas".

Definition workload_metadata (baseDomain : string) (svc : Service) (s : WorkloadSnapshot) : AdapterMetadata :=
  let i := sv_id svc in
  let target := map_get i WORKLOADS in
  mkMetadata
    ((fun label => "https://" +:+ label +:+ "." +:+ baseDomain) <$> endpoint_label i)
    (am_capabilities (sv_metadata svc)) (am_capabilityCategories (sv_metadata svc))
    (wt_namespace <$> target)
    ((fun t => resource_name (wt_resource t) +:+ "/" +:+ join "," (wt_names t)) <$> target)
    ((if bool_decide (ws_status s = Unknown) then [] else
        [mkMetric "ready" (pretty (ws_ready s)) (Some (metric_unit i));
         mkMetric "desired" (pretty (ws_desired s)) (Some (metric_unit i))]) ++
     match ws_detail s with Some d => [mkMetric "detail" d None] | None => [] end)
    [].

(** *** Sharing one read

    Concurrent callers of [snapshot()] share the read in flight.  A read has the number
    of its start; [sh_pending] is the field [pending], which the [finally] of a read
    clears before its callers go on. *)

Record SharedRead := mkShared { sh_pending : option nat; sh_started : nat }.

Definition idle_read : SharedRead := mkShared None 0.

Definition snapshot (s : SharedRead) : SharedRead * nat :=
  match sh_pending s with
  | Some i => (s, i)
  | None => (mkShared (Some (sh_started s)) (S (sh_started s)), sh_started s)
  end.

Definition read_settled (s : SharedRead) (i : nat) : SharedRead :=
  if bool_decide (sh_pending s = Some i) then mkShared None (sh_started s) else s.

(** The metadata and the health of one request come from one snapshot: the registry calls
    [getMetadata()] and [getHealth()] in one go (theorem [KubeProofs.one_read_is_shared]). *)
Definition workload_fetch (baseDomain : string) (svc : Service)
    : KProg (AdapterMetadata * option string * AdapterHealth) :=
  await s := read_snapshot (sv_id svc) in
  await now := kdo KNow in
  kok (workload_metadata baseDomain svc s, None, mkHealth (ws_status s) (toISOString now) 30000).

Definition KubeWorkloadAdapter (baseDomain : string) (svc : Service) : ServiceAdapter KAns :=
  mkAdapter (sv_id svc) (sv_name svc) (sv_type svc) 1 (workload_fetch baseDomain svc).

(** ** [kubeEvents.ts] *)

Inductive EventSeverity := SevInfo | SevWarning | SevError.

#[export] Instance EventSeverity_eq_dec : EqDecision EventSeverity.
Proof. solve_decision. Defined.

Inductive EventOrigin := FromKubernetes | FromService | FromJob.

Record Event := mkEvt {
  ev_id : string;
  ev_timestamp : string;
  ev_severity : EventSeverity;
  ev_message : string;
  ev_relatedServiceId : option string;
  ev_relatedPipelineId : option string;
  ev_relatedResourceId : option string;
  ev_source : option EventOrigin;
}.

Record EventBatch := mkBatch { eb_events : list Event; eb_warnings : list ListWarning }.

Definition MAX_EVENTS : nat := 100.

(** [a ?? b] of fields, then [if (v)] and its text. *)
Fixpoint first_present (l : list (option json)) : option json :=
  match l with
  | [] => None
  | None :: l' | Some JNull :: l' => first_present l'
  | Some v :: _ => Some v
  end.

Definition event_timestamp (item : json) : option json :=
  first_present [ofield (field item "series") "lastObservedTime"; field item "lastTimestamp"; field item "eventTime";
                 ofield (field item "metadata") "creationTimestamp"].

Definition event_millis (item : json) : option Z :=
  let timestamp := event_timestamp item in if truthy timestamp then Date_parse (String_opt timestamp) else None.

(** [item.message || item.reason || "Kubernetes event"] *)
Definition event_message (item : json) : string :=
  if truthy (field item "message") then String_opt (field item "message")
  else if truthy (field item "reason") then String_opt (field item "reason") else "Kubernetes event".

Definition event_resource (namespace : string) (item : json) : option string :=
  let ref := field item "involvedObject" in
  if truthy (ofield ref "kind") && truthy (ofield ref "name") then
    Some ("kubernetes:" +:+ String_of (nullish (ofield ref "namespace") (JStr namespace)) +:+ "/" +:+
          String_opt (ofield ref "kind") +:+ "/" +:+ String_opt (ofield ref "name"))
  else None.

Definition kube_event (namespace : string) (item : json) : option Event :=
  let uid := ofield (field item "metadata") "uid" in
  match event_millis item with
  | None => None
  | Some millis =>
      if negb (truthy uid) then None
      else
        Some (mkEvt ("kube-event-" +:+ String_opt uid) (toISOString millis)
          (if bool_decide (as_string (field item "type") = Some "Warning") then SevWarning else SevInfo)
          (event_message item) None None (event_resource namespace item) (Some FromKubernetes))
  end.

(** The items of a page; reading a property of [null] throws. *)
Fixpoint page_events (namespace : string) (items : list json) : result string (list Event) :=
  match items with
  | [] => inr []
  | JNull :: _ => inl "Cannot read properties of null"
  | item :: rest =>
      let! events := page_events namespace rest in
      inr (match kube_event namespace item with Some e => e :: events | None => events end)
  end.

Definition events_path (namespace : string) (continuation : option string) : string :=
  "/api/v1/namespaces/" +:+ namespace +:+ "/events?limit=" +:+ pretty (Z.of_nat MAX_EVENTS) +:+
  match continuation with Some c => "&continue=" +:+ encodeURIComponent c | None => EmptyString end.

Fixpoint read_pages (namespace : string) (pages : nat) (continuation : option string) : KProg (list Event) :=
  match pages with
  | O => kok []
  | S pages' =>
      attempt list := getJson (events_path namespace continuation) in
      match field list "items" with
      | Some (JArr items) =>
          match page_events namespace items with
          | inl m => kfail m
          | inr events =>
              let next := ofield (field list "metadata") "continue" in
              if truthy next then
                attempt more := read_pages namespace pages' (Some (String_opt next)) in kok (events ++ more)
              else kok events
          end
      | _ => kfail "malformed event list"
      end
  end.

Definition namespace_events (namespace : string) : KProg (list Event) := read_pages namespace 5 None.

Definition application_event (name : string) (app : ArgocdAppStatus) (now : Z) : Event :=
  mkEvt ("argocd-" +:+ name) (toISOString now) SevWarning
    ("ArgoCD Application " +:+ name +:+ ": sync=" +:+ app_syncStatus app +:+ ", health=" +:+
     default "unknown" (app_healthStatus app) +:+ " (current observation)")
    None None (Some ("kubernetes:argocd/Application/" +:+ name)) (Some FromService).

Definition argocd_events (name : string) : KProg (list Event) :=
  attempt app := getApplication name in
  if String.eqb (app_syncStatus app) "Synced" && bool_decide (app_healthStatus app = Some "Healthy") then kok []
  else await now := kdo KNow in kok [application_event name app now].

Inductive EventGroup := Namespace (ns : string) | Application (app : string).

Definition event_groups : list EventGroup := map Namespace PLATFORM_NAMESPACES ++ map Application ARGOCD_APPS.

Definition group_name (g : EventGroup) : string :=
  match g with Namespace ns => "kubernetes:" +:+ ns | Application app => "argocd:" +:+ app end.

Definition group_events (g : EventGroup) : KProg (list Event) :=
  match g with Namespace ns => namespace_events ns | Application app => argocd_events app end.

Definition fulfilled (r : result string (list Event)) : list Event := match r with inl _ => [] | inr l => l end.
Definition is_rejected (r : result string (list Event)) : bool := match r with inl _ => true | inr _ => false end.

Definition group_warning (gr : EventGroup * result string (list Event)) : option ListWarning :=
  if is_rejected gr.2
  then Some (mkWarning "UPSTREAM_UNAVAILABLE" ("Event source " +:+ group_name gr.1 +:+ " unavailable") None) else None.

Definition newest_first (a b : Event) : Z := localeCompare (ev_timestamp b) (ev_timestamp a).

Definition listEvents : KProg EventBatch :=
  await groups := all_of group_events event_groups in
  if forallb is_rejected groups then kfail "all event sources failed"
  else
    kok (mkBatch (take MAX_EVENTS (js_sort newest_first (flat_map fulfilled groups)))
           (omap group_warning (zip event_groups groups))).

(** ** [routes/events.ts] *)

Definition of_severity (severity : option EventSeverity) (e : Event) : bool :=
  match severity with None => true | Some s => bool_decide (ev_severity e = s) end.

Definition eventsRoute (batch : KProg EventBatch) (page pageSize : Z) (severity : option EventSeverity)
    : KProg (Listing Event) :=
  attempt b := batch in
  let sorted := js_sort newest_first (List.filter (of_severity severity) (eb_events b)) in
  let (pageItems, total) := AssetId.paginate sorted page pageSize in
  kok (buildListEnvelope pageItems total page pageSize (eb_warnings b)).
End client.
