(* ===== verification/KubeProofs.v ===== *)
(** * The live readers: what they ask Kubernetes and what they make of the answers *)

From S2P Require Import Prelude JsBase JsText JsJson JsLib Effects SsoPorts HttpClient Config Services Kube.
From Stdlib Require Import Ascii.
From Stdlib Require String.
Open Scope Z_scope.
Open Scope prog_scope.

(** ** [all_of] *)

Section all_of.
Context {Op : Type} {Ans : Op -> Type} {A B : Type}.

Lemma runs_all_of (f : A -> prog Ans B) l t bs :
  runs (all_of f l) t bs <->
  exists ts, t = concat ts /\ length ts = length l /\ length bs = length l /\
    forall i a, l !! i = Some a -> exists u b, ts !! i = Some u /\ bs !! i = Some b /\ runs (f a) u b.
Proof.
  revert t bs. induction l as [|a l IH]; intros t bs; cbn [all_of].
  - split; [intros [-> ->]; by exists []|]. intros (ts & -> & Ht%nil_length_inv & Hb%nil_length_inv & _). by subst.
  - rewrite runs_bind. split.
    + intros (t1 & t2 & b & -> & H1 & (t3 & t4 & k & -> & (ts & -> & Hl & Hk & Hi)%IH & [-> ->])%runs_bind).
      exists (t1 :: ts). rewrite app_nil_r. cbn [length]. split_and!; [done|lia|lia|]. intros [|i] a'; cbn; [|apply Hi].
      intros [= <-]. eauto.
    + intros (ts & -> & Hl & Hk & Hi). destruct ts as [|t1 ts]; [done|]. destruct bs as [|b bs]; [done|].
      destruct (Hi 0%nat a eq_refl) as (u & b' & [= <-] & [= <-] & H1).
      exists t1, (concat ts), b. split_and!; [done..|]. apply runs_bind. exists (concat ts), [], bs.
      rewrite app_nil_r. split_and!; [done| |done]. apply IH. exists ts. injection Hl as Hl. injection Hk as Hk.
      split_and!; [done..|]. intros i a' Ha. exact (Hi (S i) a' Ha).
Qed.

Lemma always_all_of ok (f : A -> prog Ans B) l h :
  (forall a h, a ∈ l -> always ok (fun _ _ => True) h (f a)) -> always ok (fun _ _ => True) h (all_of f l).
Proof.
  revert h. induction l as [|a l IH]; intros h Hf; cbn [all_of]; [done|].
  eapply always_bind; [apply Hf; left|]. intros h1 b _.
  eapply always_bind; [apply IH; intros; apply Hf; by right|]. done.
Qed.
End all_of.

(** ** What is asked *)

Section asked.
Context `{js : JsLib} `{host : Host} `{intl : Intl}.
Context (apiUrl tokenFile caFile : string) (timeout : option Z).

(** The paths of the API the readers name. *)
Inductive live_path : string -> Prop :=
| lp_ready : live_path "/readyz"
| lp_workload i target name :
    map_get i WORKLOADS = Some target -> name ∈ wt_names target -> live_path (workload_path target name)
| lp_events ns c : ns ∈ PLATFORM_NAMESPACES -> live_path (events_path ns c)
| lp_application name : name ∈ ARGOCD_APPS -> live_path (application_path name).

(** A request goes to the configured server, for one of these paths, with the
    token and the CA that were read for it. *)
Definition confined (h : trace KAns) (e : KOp) : Prop :=
  match e with
  | KRequest r =>
      exists path api token,
        live_path path /\ new_URL_at path apiUrl = Some (kr_url r) /\ new_URL apiUrl = Some api /\
        w_origin (kr_url r) = w_origin api /\
        Did (Ans:=KAns) (KReadFile tokenFile) (Some token) ∈ h /\ trim token <> EmptyString /\
        kr_headers r = request_headers (trim token) /\
        Did (Ans:=KAns) (KReadFile caFile) (Some (kr_ca r)) ∈ h /\ kr_timeoutMs r = kube_timeout timeout
  | KReadFile f => f = tokenFile \/ f = caFile
  | _ => True
  end.

Abbreviation confines p := (forall h, always confined (fun _ _ => True) h p).

Lemma target_url_inr path url :
  target_url apiUrl path = inr url ->
  new_URL_at path apiUrl = Some url /\ exists api, new_URL apiUrl = Some api /\ w_origin url = w_origin api.
Proof.
  unfold target_url. destruct (new_URL_at path apiUrl) as [u|]; [|done]. destruct (negb (starts_with "/" path)); [done|].
  destruct (new_URL apiUrl) as [api|]; [|done]. destruct (String.eqb_spec (w_origin u) (w_origin api)); cbn [negb]; [|done].
  intros [= <-]. eauto.
Qed.

Lemma getText_confined path : live_path path -> confines (getText apiUrl tokenFile caFile timeout path).
Proof.
  intros Hp h. unfold getText. destruct (target_url apiUrl path) as [m|url] eqn:Eu; [done|].
  apply target_url_inr in Eu as (Hu & api & Ha & Ho). walk; try exact I; cbn [confined]; try (by auto).
  simplify_eq. exists path, api, s. split_and!; try done; try found.
  match goal with E : String.eqb (trim _) _ = false |- _ => by apply String.eqb_neq in E end.
Qed.

(** A program that goes on after one that is confined. *)
Lemma confines_bind {A B} (p : prog KAns A) (f : A -> prog KAns B) :
  confines p -> (forall a, confines (f a)) -> confines (bind p f).
Proof. intros Hp Hf h. eapply always_bind; [apply Hp|]. intros h' a _. apply Hf. Qed.

Lemma confines_ret {A} (a : A) : confines (Ret (Ans:=KAns) a).
Proof. done. Qed.

Hint Resolve confines_ret : core.

Lemma getJson_confined path : live_path path -> confines (getJson apiUrl tokenFile caFile timeout path).
Proof.
  intros Hp. apply confines_bind; [by apply getText_confined|]. intros [m|body]; [done|]. by destruct (JSON_parse body).
Qed.

Lemma getApplication_confined name : confines (getApplication apiUrl tokenFile caFile timeout name).
Proof.
  unfold getApplication. destruct (bool_decide_reflect (name ∈ ARGOCD_APPS)) as [Hn|]; [|done]. cbn [negb].
  apply confines_bind; [by apply getJson_confined, lp_application|]. by intros [m|j].
Qed.

Lemma read_workload_confined i target name :
  map_get i WORKLOADS = Some target -> name ∈ wt_names target ->
  confines (read_workload apiUrl tokenFile caFile timeout target name).
Proof.
  intros Ht Hn. apply confines_bind.
  - apply confines_bind; [by apply getJson_confined; econstructor|]. by intros [m|j].
  - intros [m|s]; [|done]. by destruct (String.eqb m "http-404").
Qed.

Lemma read_snapshot_confined i : confines (read_snapshot apiUrl tokenFile caFile timeout i).
Proof.
  unfold read_snapshot. destruct (String.eqb i "svc-observability"); [done|].
  destruct (String.eqb i "svc-kubernetes").
  - apply confines_bind; [apply getText_confined, lp_ready|]. by intros [m|text].
  - destruct (map_get i WORKLOADS) as [target|] eqn:Et; [|done]. apply confines_bind; [|done].
    intros h. apply always_all_of. intros name h' Hn. by apply (read_workload_confined i).
Qed.

Lemma read_pages_confined ns pages c :
  ns ∈ PLATFORM_NAMESPACES -> confines (read_pages apiUrl tokenFile caFile timeout ns pages c).
Proof.
  intros Hn. revert c. induction pages as [|pages IH]; intros c; [done|]. cbn [read_pages].
  apply confines_bind; [by apply getJson_confined, lp_events|]. intros [m|list]; [done|].
  destruct (field list "items") as [[]|]; try done. destruct (page_events _ _); [done|].
  destruct (truthy _); [|done]. apply confines_bind; [apply IH|]. by intros [m|more].
Qed.

Lemma listEvents_confined : confines (listEvents apiUrl tokenFile caFile timeout).
Proof.
  apply confines_bind.
  - intros h. apply always_all_of. intros g h' Hg. unfold event_groups in Hg.
    apply elem_of_app in Hg as [(ns & Hn & ->)%elem_of_map|(app & Ha & ->)%elem_of_map]; cbn [group_events].
    + by apply read_pages_confined.
    + apply confines_bind; [apply getApplication_confined|]. intros [m|a]; [done|].
      by destruct (String.eqb _ _ && _).
  - intros groups. by destruct (forallb _ _).
Qed.

(** A reader of the cluster: the state of a service, the events, an application. *)
Inductive reader : forall A, prog KAns A -> Prop :=
| rd_workload i : reader _ (read_snapshot apiUrl tokenFile caFile timeout i)
| rd_events : reader _ (listEvents apiUrl tokenFile caFile timeout)
| rd_application name : reader _ (getApplication apiUrl tokenFile caFile timeout name).

(** C23: Least privilege.  Whatever Kubernetes answers and whatever service or
    application is asked for, the readers send requests only to the origin of the
    configured API server, only for the health endpoint, the declared workloads, the
    events of their namespaces and the two ArgoCD applications; each request carries
    the token that was read for it from the configured file, and is made under the
    configured CA. *)
Theorem live_reads_confined A (p : prog KAns A) t a t1 e r t2 :
  reader A p -> runs p t a -> t = t1 ++ Did e r :: t2 -> confined (rev t1) e.
Proof.
  intros Hp Hr Et. assert (confines p) as Hc.
  { destruct Hp; [apply read_snapshot_confined|apply listEvents_confined|apply getApplication_confined]. }
  pose proof (always_calls _ _ _ _ _ _ _ _ _ (Hc []) Hr Et) as Ha. cbn [ok_call] in Ha. by rewrite app_nil_r in Ha.
Qed.
End asked.

(** ** What the answers become *)

Section evidence.
Context `{js : JsLib} `{host : Host} `{intl : Intl}.
Context (apiUrl tokenFile caFile : string) (timeout : option Z).

(** The server answered a request for the path. *)
Definition answered (t : trace KAns) (path : string) (status : Z) (body : string) : Prop :=
  exists r, Did (KRequest r) (KubeReplied status body) ∈ t /\ new_URL_at path apiUrl = Some (kr_url r).

Lemma answered_mono t t' path status body :
  (forall c, c ∈ t -> c ∈ t') -> answered t path status body -> answered t' path status body.
Proof. intros Ht (r & Hr & Hu). exists r. auto. Qed.

Definition text_answer (path : string) (t : trace KAns) (out : result string string) : Prop :=
  match out with
  | inr body => answered t path 200 body
  | inl m => m = "http-404" -> exists body, answered t path 404 body
  end.

Lemma getText_answer path t out :
  runs (getText apiUrl tokenFile caFile timeout path) t out -> text_answer path t out.
Proof.
  intros Hr. enough (always (fun _ _ => True) (fun h a => text_answer path h a) []
    (getText apiUrl tokenFile caFile timeout path)) as Ha.
  { apply (always_post _ _ _ _ _ _ Ha) in Hr. clear Ha. rewrite app_nil_r in Hr.
    assert (forall c, c ∈ rev t -> c ∈ t) as Hin by (intros c; by rewrite !list_elem_of_In, <-in_rev).
    destruct out as [m|body]; cbn [text_answer] in *; [|by eapply answered_mono].
    intros Hm. destruct (Hr Hm) as [body Hb]. exists body. by eapply answered_mono. }
  clear Hr. unfold getText, target_url.
  destruct (new_URL_at path apiUrl) as [url|] eqn:Eu; [|by cbn].
  destruct (negb (starts_with "/" path)); [by cbn|].
  destruct (new_URL apiUrl) as [api|]; [|by cbn]. destruct (negb _); [by cbn|].
  walk; try exact I; cbn [text_answer]; try done; simplify_eq.
  - intros Hm. assert (status = 404) as ->.
    { apply (inj pretty). cut ("http-" +:+ pretty status = "http-" +:+ pretty 404); [|exact Hm].
      apply (inj (String.app "http-")). }
    eexists. eexists. split; [found|done].
  - apply negb_false_iff, Z.eqb_eq in Heqb0 as ->. eexists. split; [found|done].
Qed.

Lemma getJson_answer path t out :
  runs (getJson apiUrl tokenFile caFile timeout path) t out ->
  match out with
  | inr j => exists body, answered t path 200 body /\ JSON_parse body = Some j
  | inl m => m = "http-404" -> exists body, answered t path 404 body
  end.
Proof.
  unfold getJson, bind_ok. intros (t1 & t2 & r & -> & Hr%getText_answer & H2)%runs_bind.
  destruct r as [m|body]; [destruct H2 as [-> ->]; by rewrite app_nil_r|]. cbn [text_answer] in Hr.
  destruct (JSON_parse body) as [j|] eqn:Ej; destruct H2 as [-> ->]; rewrite app_nil_r; [eauto|done].
Qed.

Definition wf_state (s : WorkloadState) : Prop := 0 <= st_ready s <= st_desired s.

Lemma replica_count_pos status key n : replica_count status key = Some n -> 0 <= n.
Proof.
  unfold replica_count. destruct (nullish _ _); try done. destruct (Z.ltb_spec n0 0); [done|]. by intros [= <-].
Qed.

Lemma workload_state_wf resource j s : workload_state resource j = inr s -> wf_state s /\ st_missing s = false.
Proof.
  unfold workload_state. destruct (_ || _); [done|]. destruct resource.
  - unfold deployment_state. repeat (case_match; try done). all: intros [= <-]; unfold wf_state; cbn.
    all: repeat match goal with E : replica_count _ _ = Some _ |- _ => apply replica_count_pos in E end.
    all: split; [lia|done].
  - unfold kafka_state. rewrite rbind_inr. intros (b & _ & [= <-]). unfold wf_state. by destruct b; cbn; lia.
Qed.

Lemma some_ready_error l m : some_ready l = inl m -> m <> "http-404".
Proof. induction l as [|c l IH]; cbn [some_ready]; [done|]. repeat case_match; try done; by intros [= <-]. Qed.

Lemma workload_state_error resource j m : workload_state resource j = inl m -> m <> "http-404".
Proof.
  unfold workload_state. destruct (_ || _); [by intros [= <-]|]. destruct resource.
  - unfold deployment_state. repeat case_match; by intros [= <-].
  - unfold kafka_state, rbind, conditions_ready. destruct (is_current j); [|done].
    repeat case_match; try done; intros [= <-]; simplify_eq; [done..|by eapply some_ready_error|done].
Qed.

(** *** What an object says *)

(** The field is this number, or absent (or null) and then this default. *)
Definition says (o : option json) (key : string) (dflt n : Z) : Prop :=
  ofield o key = Some (JNum n) \/ (ofield o key = None \/ ofield o key = Some JNull) /\ n = dflt.

(** The status is not older than the specification: numbers are compared as numbers,
    anything else as JavaScript compares it. *)
Definition up_to_date (j : json) : Prop :=
  match ofield (field j "metadata") "generation" with
  | None => True
  | Some (JNum g) =>
      match nullish (ofield (field j "status") "observedGeneration") (JNum (-1)) with
      | JNum n => g <= n
      | seen => js_ge seen (JNum g) = true
      end
  | Some g => js_ge (nullish (ofield (field j "status") "observedGeneration") (JNum (-1))) g = true
  end.

(** A Deployment: as many replicas are ready as are at once ready, updated and available,
    and not more than wanted; none while the status is old. *)
Definition deployment_says (j : json) (s : WorkloadState) : Prop :=
  exists desired ready updated available,
    says (field j "spec") "replicas" 1 desired /\ says (field j "status") "readyReplicas" 0 ready /\
    says (field j "status") "updatedReplicas" 0 updated /\ says (field j "status") "availableReplicas" 0 available /\
    0 <= desired /\ 0 <= ready /\ 0 <= updated /\ 0 <= available /\ st_desired s = desired /\
    (up_to_date j -> st_ready s = Z.min desired (Z.min ready (Z.min updated available))) /\
    (~ up_to_date j -> st_ready s = 0).

(** A Kafka cluster is ready when its current status has the condition [Ready]. *)
Definition kafka_says (j : json) (s : WorkloadState) : Prop :=
  st_desired s = 1 /\ (st_ready s = 0 \/ st_ready s = 1) /\
  (st_ready s = 1 <->
    up_to_date j /\ exists conditions c, ofield (field j "status") "conditions" = Some (JArr conditions) /\
      c ∈ conditions /\ field c "type" = Some (JStr "Ready") /\ field c "status" = Some (JStr "True")).

Definition object_says (resource : Resource) (j : json) (s : WorkloadState) : Prop :=
  st_missing s = false /\ match resource with Deployments => deployment_says j s | Kafkas => kafka_says j s end.

Lemma is_current_iff j : is_current j = true <-> up_to_date j.
Proof.
  unfold is_current, up_to_date. destruct (ofield (field j "metadata") "generation") as [g|]; [|done].
  destruct g; try done. destruct (nullish _ _); try done.
  unfold js_ge. cbn. apply Z.leb_le.
Qed.

Lemma replica_count_says status key n : replica_count status key = Some n -> says status key 0 n /\ 0 <= n.
Proof.
  intros H. split; [|by eapply replica_count_pos]. revert H. unfold replica_count, says.
  destruct (ofield status key) as [[]|]; cbn; try done; try (destruct (_ <? _); try done); intros [= <-]; auto.
Qed.

Lemma some_ready_iff l b :
  some_ready l = inr b ->
  b = true <-> exists c, c ∈ l /\ field c "type" = Some (JStr "Ready") /\ field c "status" = Some (JStr "True").
Proof.
  assert (forall o x, as_string o = Some x <-> o = Some (JStr x)) as Hs.
  { intros o x. destruct o as [[]|]; cbn; naive_solver. }
  induction l as [|c l IH]; cbn [some_ready].
  - intros [= <-]. split; [done|]. by intros (c & ?%elem_of_nil & _).
  - set (q := _ && _). assert (q = true <-> field c "type" = Some (JStr "Ready") /\ field c "status" = Some (JStr "True")) as Hq.
    { unfold q. by rewrite andb_true_iff, !bool_decide_eq_true, !Hs. }
    destruct c; try done; (destruct q; [intros [= <-]; split; [|done]; intros _; eexists; split; [left|by apply Hq]|]);
      intros Hl%IH; rewrite Hl; setoid_rewrite elem_of_cons; naive_solver.
Qed.

Lemma object_says_sound resource j s : workload_state resource j = inr s -> object_says resource j s.
Proof.
  intros H. split; [by apply workload_state_wf in H as [_ ?]|]. revert H. unfold workload_state.
  destruct (_ || _); [done|]. pose proof (is_current_iff j) as Hc. destruct resource.
  - unfold deployment_state. destruct (replica_count _ "readyReplicas") as [r|] eqn:Er; [|done].
    destruct (replica_count _ "updatedReplicas") as [u|] eqn:Eu; [|done].
    destruct (replica_count _ "availableReplicas") as [a|] eqn:Ea; [|done].
    destruct (nullish (ofield (field j "spec") "replicas") (JNum 1)) as [| |d| | |] eqn:Ed; try done.
    apply replica_count_says in Er as [Er ?], Eu as [Eu ?], Ea as [Ea ?].
    destruct (Z.ltb_spec d 0); [done|]. intros [= <-]. exists d, r, u, a. cbn.
    assert (says (field j "spec") "replicas" 1 d) as Hd.
    { revert Ed. unfold says. destruct (ofield (field j "spec") "replicas") as [[]|]; cbn; try done; intros [= <-]; auto. }
    split_and!; try done; intros Hu.
    + rewrite (proj2 Hc Hu). lia.
    + destruct (is_current j); [by destruct Hu; apply Hc|]. lia.
  - unfold kafka_state. rewrite rbind_inr. intros (b & Hb & [= <-]). cbn. split_and!; [done|by destruct b; auto|].
    assert ((if b then 1 else 0) = 1 <-> b = true) as -> by (by destruct b). rewrite <-Hc.
    destruct (is_current j); [|injection Hb as <-; naive_solver]. revert Hb. unfold conditions_ready.
    destruct (ofield (field j "status") "conditions") as [[]|]; try done;
      try (intros [= <-]; split; [done|]; by intros (_ & ? & ? & [= ] & _)).
    intros Hl%some_ready_iff. rewrite Hl. naive_solver.
Qed.

(** What a state of one workload rests on. *)
Definition state_evidence (t : trace KAns) (target : WorkloadTarget) (name : string) (s : WorkloadState) : Prop :=
  (exists body j, answered t (workload_path target name) 200 body /\ JSON_parse body = Some j /\
     object_says (wt_resource target) j s) \/
  (exists body, answered t (workload_path target name) 404 body /\
     s = mkState 0 0 (negb (bool_decide (name ∈ wt_optionalNames target)))).

Lemma read_workload_evidence target name t s :
  runs (read_workload apiUrl tokenFile caFile timeout target name) t (inr s) -> state_evidence t target name s.
Proof.
  unfold read_workload, catch, bind_ok. intros (t1 & t2 & r & -> & Hb & Hc)%runs_bind.
  apply runs_bind in Hb as (t3 & t4 & j & -> & Hj%getJson_answer & Hb).
  assert (t2 = []) as -> by (destruct r as [m|?]; [destruct (String.eqb m "http-404")|]; by destruct Hc).
  assert (t4 = []) as -> by (destruct j; by destruct Hb). rewrite !app_nil_r.
  destruct j as [m|j]; destruct Hb as [_ ->].
  - destruct (String.eqb_spec m "http-404") as [->|]; destruct Hc as [_ [= ->]].
    right. destruct (Hj eq_refl) as [body Hd]. eauto.
  - destruct Hj as (body & Hd & Ej). destruct (workload_state _ j) as [m|s'] eqn:Es.
    + apply workload_state_error in Es. apply String.eqb_neq in Es. rewrite Es in Hc. by destruct Hc.
    + destruct Hc as [_ [= ->]]. left. eauto 8 using object_says_sound.
Qed.

Lemma state_evidence_wf t target name s : state_evidence t target name s -> wf_state s.
Proof.
  unfold wf_state. intros [(body & j & _ & _ & _ & H)|(body & _ & ->)]; [|cbn; lia]. destruct (wt_resource target).
  - destruct H as (d & r & u & a & _ & _ & _ & _ & ? & ? & ? & ? & -> & H1 & H2).
    destruct (decide (is_current j = true)) as [Hc|Hc]; rewrite is_current_iff in Hc; [rewrite H1|rewrite H2]; (done || lia).
  - destruct H as (-> & [-> | ->] & _); lia.
Qed.

Lemma all_inr_elem {A} (l : list (result string A)) k : all_inr l = inr k -> l = map inr k.
Proof.
  revert k. induction l as [|[m|a] l IH]; intros k; cbn [all_inr]; [by intros [= <-]|done|].
  destruct (all_inr l); [done|]. intros [= <-]. by rewrite (IH _ eq_refl).
Qed.

Lemma sum_of_acc f l n : foldl (fun sum s => sum + f s) n l = n + sum_of f l.
Proof.
  unfold sum_of. revert n. induction l as [|s l IH]; intros n; cbn [foldl]; [lia|].
  rewrite (IH (n + f s)), (IH (0 + f s)). lia.
Qed.

Lemma sum_of_cons f s l : sum_of f (s :: l) = f s + sum_of f l.
Proof. unfold sum_of at 1. cbn [foldl]. rewrite sum_of_acc. lia. Qed.

(** Equal sums of well-formed states are equal state by state. *)
Lemma sums l :
  Forall wf_state l ->
  0 <= sum_of st_ready l <= sum_of st_desired l /\
  (sum_of st_ready l = sum_of st_desired l -> Forall (fun s => st_ready s = st_desired s) l) /\
  (sum_of st_ready l = 0 -> Forall (fun s => st_ready s = 0) l).
Proof.
  induction 1 as [|s l Hs Hl IH]; [done|]. rewrite !sum_of_cons. destruct IH as (IH1 & IH2 & IH3). unfold wf_state in Hs.
  split_and!; try lia; intros E; (constructor; [lia|]); [apply IH2|apply IH3]; lia.
Qed.

(** A part of the run failed. *)
Definition failed {A} (t : trace KAns) (p : prog KAns (result string A)) : Prop :=
  exists t1 u t2 m, t = t1 ++ u ++ t2 /\ runs p u (inl m).

(** What a status rests on.  Of a workload, healthy: each is there, or is optional and
    absent, and has all the replicas it wants, and there are some; unavailable: every
    workload answered and none has a replica; degraded: every one answered; unknown: one
    could not be read.  Of Kubernetes itself, healthy: it said so; else unknown. *)
Definition status_evidence (t : trace KAns) (i : string) (s : WorkloadSnapshot) : Prop :=
  match map_get i WORKLOADS with
  | Some target =>
      (ws_status s = Unknown ->
        ws_desired s = 0 /\
        exists name, name ∈ wt_names target /\ failed t (read_workload apiUrl tokenFile caFile timeout target name)) /\
      (ws_status s <> Unknown ->
      exists states, length states = length (wt_names target) /\
        (forall k name st, wt_names target !! k = Some name -> states !! k = Some st -> state_evidence t target name st) /\
        ws_ready s = sum_of st_ready states /\ ws_desired s = sum_of st_desired states /\
        (ws_status s = Healthy <->
          0 < ws_ready s /\ Forall (fun st => st_ready st = st_desired st /\ st_missing st = false) states) /\
        (ws_status s = Unavailable <-> Forall (fun st => st_ready st = 0) states))
  | None =>
      if String.eqb i "svc-kubernetes" then
        ws_status s = Healthy /\ ws_ready s = 1 /\ (exists body, answered t "/readyz" 200 body /\ trim body = "ok") \/
        ws_status s = Unknown /\ ws_ready s = 0 /\
          (failed t (getText apiUrl tokenFile caFile timeout "/readyz") \/
           exists body, answered t "/readyz" 200 body /\ trim body <> "ok")
      else t = [] /\ ws_ready s = 0 /\ ws_desired s = 0 /\
        ws_status s = if String.eqb i "svc-observability" then Unavailable else Unknown
  end.

Lemma workload_snapshot_status states :
  Forall wf_state states ->
  let s := workload_snapshot states in
  0 <= ws_ready s <= ws_desired s /\ ws_status s <> Unknown /\
  (ws_status s = Healthy <->
    0 < ws_ready s /\ Forall (fun st => st_ready st = st_desired st /\ st_missing st = false) states) /\
  (ws_status s = Unavailable <-> Forall (fun st => st_ready st = 0) states).
Proof.
  intros Hw. destruct (sums _ Hw) as (Hb & He & H0). cbn. split_and!; [lia|lia|by repeat case_match|..].
  - split.
    + case_match eqn:Ez; [done|]. apply Z.eqb_neq in Ez. case_match eqn:Em; [|done]. intros _.
      apply andb_true_iff in Em as [Em Ee]. apply Z.eqb_eq in Ee. split; [lia|]. apply negb_true_iff in Em.
      apply Forall_and. split; [by apply He|]. apply Forall_forall. intros st Hst.
      apply not_true_iff_false. intros Hm. apply not_true_iff_false in Em. apply Em, existsb_elem. eauto.
    + intros [Hp [Hf Hm]%Forall_and]. rewrite (proj2 (Z.eqb_neq _ _)) by lia.
      assert (sum_of st_ready states = sum_of st_desired states) as ->.
      { clear -Hf. induction Hf as [|st l Hst Hl IH]; [done|]. rewrite !sum_of_cons. lia. }
      rewrite Z.eqb_refl. assert (existsb st_missing states = false) as ->; [|done].
      apply not_true_iff_false. rewrite existsb_elem. intros (st & Hst & E).
      rewrite Forall_forall in Hm. by rewrite (Hm _ Hst) in E.
  - split.
    + case_match eqn:Ez; [intros _; apply H0, Z.eqb_eq, Ez|]. by case_match.
    + intros Hz. assert (sum_of st_ready states = 0) as ->; [|done].
      clear -Hz. induction Hz as [|st l Hst Hl IH]; [done|]. rewrite sum_of_cons. lia.
Qed.

Lemma all_inr_error {A} (l : list (result string A)) m : all_inr l = inl m -> exists k, l !! k = Some (inl m).
Proof.
  induction l as [|[m'|a] l IH]; cbn [all_inr]; [done|intros [= ->]; by exists 0%nat|].
  destruct (all_inr l); [|done]. intros [= ->]. destruct (IH eq_refl) as [k Hk]. by exists (S k).
Qed.

Lemma concat_part {A} (ts : list (list A)) i u : ts !! i = Some u -> exists t1 t2, concat ts = t1 ++ u ++ t2.
Proof.
  intros H. exists (concat (take i ts)), (concat (drop (S i) ts)). rewrite <-(take_drop_middle _ _ _ H) at 1.
  by rewrite concat_app.
Qed.

Lemma workloads_evidence target t s :
  runs (await states := all_of (read_workload apiUrl tokenFile caFile timeout target) (wt_names target) in
        Ret (match all_inr states with inl _ => unreadable | inr states => workload_snapshot states end)) t s ->
  0 <= ws_ready s <= ws_desired s /\
  forall i, map_get i WORKLOADS = Some target -> status_evidence t i s.
Proof.
  intros (t1 & t2 & rs & -> & (ts & -> & Hl & Hk & Hi)%runs_all_of & [-> ->])%runs_bind. rewrite app_nil_r.
  unfold status_evidence. destruct (all_inr rs) as [m|states] eqn:Es.
  { split; [cbn; lia|]. intros i ->. split; [|done]. intros _. split; [done|]. apply all_inr_error in Es as [k Hm].
    assert (k < length (wt_names target))%nat as Hlt by (rewrite <-Hk; by eapply lookup_lt_Some).
    apply lookup_lt_is_Some in Hlt as [name Hn]. destruct (Hi k name Hn) as (u & b & Hu & Hb & Hrun).
    pose proof (eq_trans (eq_sym Hb) Hm) as [= ->]. exists name. split; [by eapply list_elem_of_lookup_2|].
    destruct (concat_part _ _ _ Hu) as (t1 & t2 & ->). by exists t1, u, t2, m. }
  apply all_inr_elem in Es as ->. rewrite length_map in Hk.
  assert (forall k name st, wt_names target !! k = Some name -> states !! k = Some st ->
    state_evidence (concat ts) target name st) as Hev.
  { intros k name st Hn Hst. destruct (Hi k name Hn) as (u & b & Hu & Hb & Hrun).
    rewrite list_lookup_fmap, Hst in Hb. injection Hb as <-. apply read_workload_evidence in Hrun.
    destruct (concat_part _ _ _ Hu) as (t1 & t2 & ->).
    assert (forall c, c ∈ u -> c ∈ t1 ++ u ++ t2) as Hin by set_solver.
    destruct Hrun as [(body & j & Ha & Hr)|(body & Ha & Hr)]; [left|right]; eauto 10 using answered_mono. }
  assert (Forall wf_state states) as Hw.
  { apply Forall_lookup. intros k st Hst. assert (k < length (wt_names target))%nat as Hlt.
    { rewrite <-Hk. by eapply lookup_lt_Some. }
    apply lookup_lt_is_Some in Hlt as [name Hn]. by eapply state_evidence_wf, Hev. }
  destruct (workload_snapshot_status _ Hw) as (Hb & Hu & Hh & Hz). split; [exact Hb|]. intros i ->. split; [done|]. intros _.
  exists states. split_and!; try done.
Qed.

(** C24: The health of a service is what the cluster said.  The replica counts are
    within bounds; a status other than unknown means that every declared workload was
    read; healthy means that each is there (or optional and absent), that its status is
    of the current generation, that it has as many replicas as it wants at once ready,
    updated and available (a Kafka cluster: the condition Ready), and that there is at least one;
    unavailable means that none has such a replica; unknown means that a read failed, and
    a failed read is never shown as anything else, for Kubernetes itself too. *)
Theorem health_is_evidence i t s :
  runs (read_snapshot apiUrl tokenFile caFile timeout i) t s ->
  0 <= ws_ready s <= ws_desired s /\ status_evidence t i s.
Proof.
  unfold read_snapshot.
  destruct (String.eqb_spec i "svc-observability") as [->|Ho]; [by intros [-> ->]|].
  destruct (String.eqb_spec i "svc-kubernetes") as [->|Hkube].
  - intros (t1 & t2 & r & -> & Hr & H2)%runs_bind. pose proof (getText_answer _ _ _ Hr) as Ha.
    unfold status_evidence. change (map_get "svc-kubernetes" WORKLOADS) with (@None WorkloadTarget). cbn [String.eqb].
    destruct r as [m|body]; destruct H2 as [-> ->]; rewrite app_nil_r.
    + split; [cbn; lia|]. right. split_and!; [done..|]. left. exists [], t1, [], m. by rewrite app_nil_r.
    + destruct (String.eqb_spec (trim body) "ok"); (split; [cbn; lia|]); [left|right]; split_and!; eauto.
  - destruct (map_get i WORKLOADS) as [target|] eqn:Et.
    + intros [Hb He]%workloads_evidence. auto.
    + intros [-> ->]. split; [cbn; lia|]. unfold status_evidence. rewrite Et.
      apply String.eqb_neq in Ho, Hkube. by rewrite Ho, Hkube.
Qed.
End evidence.

(** ** Sharing one read *)

(** A caller asked for the snapshot and waits for a read; a read is over. *)
Inductive share_event := Asked (caller read : nat) | ReadOver (read : nat).

#[export] Instance share_event_eq_dec : EqDecision share_event.
Proof. solve_decision. Defined.

(** What happened, the last first, and the fields of the adapter. *)
Inductive shares : list share_event -> SharedRead -> Prop :=
| shares_start : shares [] idle_read
| shares_ask h s c : shares h s -> shares (Asked c (snapshot s).2 :: h) (snapshot s).1
| shares_over h s i :
    shares h s -> (i < sh_started s)%nat -> ReadOver i ∉ h -> shares (ReadOver i :: h) (read_settled s i).

(** A read that was started and is not over. *)
Definition in_flight (h : list share_event) (i : nat) : Prop := (exists c, Asked c i ∈ h) /\ ReadOver i ∉ h.

(** Only the pending read is in flight. *)
Lemma shares_sound h s :
  shares h s ->
  (forall c i, Asked c i ∈ h -> (i < sh_started s)%nat) /\ (forall i, ReadOver i ∈ h -> (i < sh_started s)%nat) /\
  (forall i, sh_pending s = Some i <-> (i < sh_started s)%nat /\ ReadOver i ∉ h).
Proof.
  induction 1 as [|h s c _ (Ha & Ho & Hp)|h s i _ (Ha & Ho & Hp) Hi Hn].
  - split_and!; [by intros ?? ?%elem_of_nil|by intros ? ?%elem_of_nil|]. intros i. cbn. split; [done|lia].
  - unfold snapshot. destruct (sh_pending s) as [j|] eqn:Ej; cbn [fst snd sh_started sh_pending].
    + pose proof (proj1 (Hp j) eq_refl) as [Hj _]. split_and!.
      * intros c' i [[= -> ->]|?]%elem_of_cons; eauto.
      * intros i [?|?]%elem_of_cons; eauto; done.
      * intros i. rewrite Ej, (Hp i), not_elem_of_cons. naive_solver.
    + split_and!.
      * intros c' i [[= -> ->]|Hi%Ha]%elem_of_cons; lia.
      * intros i [?|Hi%Ho]%elem_of_cons; [done|lia].
      * intros i. rewrite not_elem_of_cons. split.
        -- intros [= <-]. split_and!; [lia|done|]. intros ?%Ho. lia.
        -- intros (Hi & _ & Hn). destruct (decide (i = sh_started s)) as [->|]; [done|].
           assert (None = Some i) as [=]. apply Hp. split; [lia|done].
  - pose proof (proj2 (Hp i) (conj Hi Hn)) as Ei. unfold read_settled. rewrite bool_decide_eq_true_2 by done.
    cbn [sh_started sh_pending]. split_and!.
    + intros c j [?|?]%elem_of_cons; eauto; done.
    + intros j [[= ->]|?]%elem_of_cons; eauto.
    + intros j. split; [done|]. rewrite not_elem_of_cons. intros (Hj & Hne & Hnj).
      rewrite (proj2 (Hp j) (conj Hj Hnj)) in Ei. injection Ei as ->. done.
Qed.

Lemma shares_before l h s : shares (l ++ h) s -> exists s0, shares h s0.
Proof.
  revert s. induction l as [|e l IH]; intros s; [by eauto|]. cbn [app]. inversion 1; subst; eauto.
Qed.

Lemma asked_read l c i h s :
  shares (l ++ Asked c i :: h) s -> ReadOver i ∉ h /\ forall j, in_flight h j -> j = i.
Proof.
  intros [s0 Hs]%shares_before. inversion Hs as [|h' s1 c' Hs1|]; subst.
  destruct (shares_sound _ _ Hs1) as (Ha & Ho & Hp).
  assert (forall j, in_flight h j -> sh_pending s1 = Some j) as Hf by (intros j [[c' Hj%Ha] Hn]; by apply Hp).
  unfold snapshot. destruct (sh_pending s1) as [j|] eqn:Ej; cbn [snd].
  - split; [by apply (Hp j)|]. intros k Hk%Hf. congruence.
  - split; [intros Hx%Ho; lia|]. by intros k Hk%Hf.
Qed.

(** Concurrent readers of a workload share one read and nothing older.  However callers
    and answers are interleaved, at most one read of the adapter is in flight; a caller
    waits for a read that was not over when it asked, the one in flight if there was one;
    and two callers with no end of a read between them, as the metadata and the health
    of one answer of the registry, get the same snapshot. *)
Theorem one_read_is_shared h s :
  shares h s ->
  (forall i j, in_flight h i -> in_flight h j -> i = j) /\
  (forall l c i h0, h = l ++ Asked c i :: h0 -> ReadOver i ∉ h0 /\ forall j, in_flight h0 j -> j = i) /\
  (forall l c i m c' j h0, h = l ++ Asked c i :: m ++ Asked c' j :: h0 -> (forall k, ReadOver k ∉ m) -> i = j).
Proof.
  intros Hs. split_and!.
  - destruct (shares_sound _ _ Hs) as (Ha & _ & Hp).
    assert (forall j, in_flight h j -> sh_pending s = Some j) as Hf by (intros j [[c Hj%Ha] Hn]; by apply Hp).
    intros i j Hi%Hf Hj%Hf. congruence.
  - intros l c i h0 ->. by eapply asked_read.
  - intros l c i m c' j h0 -> Hm. symmetry. apply (asked_read _ _ _ _ _ Hs). split.
    + exists c'. apply elem_of_app. right. left.
    + rewrite not_elem_of_app, not_elem_of_cons. split_and!; [apply Hm|done|].
      change (Asked c i :: m ++ Asked c' j :: h0) with ((Asked c i :: m) ++ Asked c' j :: h0) in Hs.
      rewrite app_assoc in Hs. by apply asked_read in Hs as [? _].
Qed.

(** The metadata and the health join one read; the next request reads anew. *)
Lemma one_read_is_shared_witness :
  exists s, shares [Asked 2 1; ReadOver 0; Asked 1 0; Asked 0 0] s /\ sh_pending s = Some 1%nat /\
    ReadOver 1 ∉ [ReadOver 0; Asked 1 0; Asked 0 0].
Proof.
  assert (shares [Asked 2 1; ReadOver 0; Asked 1 0; Asked 0 0] (mkShared (Some 1%nat) 2)) as Hs.
  { apply (shares_ask [ReadOver 0; Asked 1 0; Asked 0 0] (mkShared None 1) 2).
    apply (shares_over [Asked 1 0; Asked 0 0] (mkShared (Some 0%nat) 1) 0); [|cbn; lia|apply (bool_decide_unpack _); reflexivity].
    apply (shares_ask [Asked 0 0] (mkShared (Some 0%nat) 1) 1). apply (shares_ask [] idle_read 0), shares_start. }
  eexists. split; [exact Hs|]. split; [reflexivity|].
  exact (proj1 (proj1 (proj2 (one_read_is_shared _ _ Hs)) [] 2%nat 1%nat [ReadOver 0; Asked 1 0; Asked 0 0] eq_refl)).
Defined.

(** ** Live events *)

(** A live event is none of the fixtures and names no pipeline. *)
Definition live_event (e : Event) : Prop :=
  (exists k, ev_id e = "kube-event-" +:+ k \/ ev_id e = "argocd-" +:+ k) /\ ev_relatedPipelineId e = None.

Section live_events.
Context `{js : JsLib} `{host : Host} `{intl : Intl}.
Context (apiUrl tokenFile caFile : string) (timeout : option Z).

Lemma kube_event_live ns item e : kube_event ns item = Some e -> live_event e.
Proof.
  unfold kube_event. destruct (event_millis item); [|done]. destruct (negb _); [done|]. intros [= <-].
  split; [|done]. eexists. left. reflexivity.
Qed.

Lemma page_events_cons ns item items l :
  page_events ns (item :: items) = inr l ->
  exists rest, page_events ns items = inr rest /\ (l = rest \/ exists e, kube_event ns item = Some e /\ l = e :: rest).
Proof.
  intros H. assert (exists rest, page_events ns items = inr rest /\
    l = match kube_event ns item with Some e => e :: rest | None => rest end) as (rest & Hr & ->).
  { destruct item; cbn [page_events] in H; [done|..]; apply rbind_inr in H as (rest & Hr & H);
      exists rest; (split; [done|by injection H as <-]). }
  exists rest. split; [done|]. destruct (kube_event ns item); eauto.
Qed.

Lemma page_events_live ns items l e : page_events ns items = inr l -> e ∈ l -> live_event e.
Proof.
  revert l. induction items as [|item items IH]; intros l; [by intros [= <-] ?%elem_of_nil|].
  intros (rest & Hr & [->|(e' & Hk & ->)])%page_events_cons; [by apply IH|].
  intros [->|?]%elem_of_cons; [by eapply kube_event_live|by eapply IH].
Qed.

Lemma read_pages_live ns pages c t l e :
  runs (read_pages apiUrl tokenFile caFile timeout ns pages c) t (inr l) -> e ∈ l -> live_event e.
Proof.
  revert c t l. induction pages as [|pages IH]; intros c t l; cbn [read_pages]; [by intros [_ [= ->]] ?%elem_of_nil|].
  intros (t1 & t2 & r & -> & _ & Hr)%runs_bind. destruct r as [m|body]; [by destruct Hr|].
  destruct (field body "items") as [[]|]; try by destruct Hr. destruct (page_events _ _) as [m|here] eqn:Ep; [by destruct Hr|].
  destruct (truthy _).
  - apply runs_bind in Hr as (t3 & t4 & r & -> & H1 & Hr). destruct r as [m|more]; destruct Hr as [_ Hr]; [done|].
    injection Hr as ->. intros [He|He]%elem_of_app; [by eapply page_events_live|by eapply IH].
  - destruct Hr as [_ [= ->]]. by apply (page_events_live _ _ _ _ Ep).
Qed.

Lemma group_events_live g t l e : runs (group_events apiUrl tokenFile caFile timeout g) t (inr l) -> e ∈ l -> live_event e.
Proof.
  destruct g as [ns|app]; [apply read_pages_live|]. intros (t1 & t2 & r & -> & _ & Hr)%runs_bind.
  destruct r as [m|a]; [by destruct Hr|]. destruct (_ && _); [destruct Hr as [_ [= ->]]; by intros ?%elem_of_nil|].
  apply runs_bind in Hr as (t3 & t4 & now & -> & _ & [_ [= ->]]). intros ->%list_elem_of_singleton. split; [|done]. eexists. right. reflexivity.
Qed.

Lemma listEvents_live t b e :
  runs (listEvents apiUrl tokenFile caFile timeout) t (inr b) -> e ∈ eb_events b -> live_event e.
Proof.
  intros (t1 & t2 & groups & -> & (ts & -> & Hl & Hk & Hi)%runs_all_of & Hr)%runs_bind.
  destruct (forallb is_rejected groups); destruct Hr as [_ [= ->]]. cbn [eb_events]. intros He.
  apply elem_of_take in He as (k & He & _). apply list_elem_of_lookup_2 in He. rewrite elem_of_js_sort in He.
  apply elem_of_flat_map in He as (r & Hr & He). destruct r as [m|l]; [by apply elem_of_nil in He|]. cbn in He.
  apply list_elem_of_lookup in Hr as [n Hn]. assert (n < length event_groups)%nat as Hlt by (rewrite <-Hk; by eapply lookup_lt_Some).
  apply lookup_lt_is_Some in Hlt as [g Hg]. destruct (Hi _ _ Hg) as (u & r & _ & Hr & Hrun). rewrite Hn in Hr. injection Hr as <-.
  by eapply group_events_live.
Qed.
End live_events.

(** ** A concrete cluster *)

Definition demo_api_url (path : string) : WebUrl :=
  mkWebUrl "https:" EmptyString EmptyString "10.0.0.1" EmptyString path EmptyString EmptyString "https://10.0.0.1".

Definition demo_cluster_host : Host := {|
  new_URL s := if String.eqb s "https://10.0.0.1" then Some (demo_api_url "/") else None;
  new_URL_at path _ := Some (demo_api_url path);
  isIP _ := true;
  existsSync _ := true;
  accessSync _ := true;
  readFileSync _ := None;
  statSync _ := None;
  bundled_sso_yaml := EmptyString;
  path_beside _ p := p;
  isPrivateKey _ := false;
|}.

(** Two replicas wanted and ready. *)
Definition demo_deployment : json :=
  JObj [("spec", JObj [("replicas", JNum 2)]);
        ("status", JObj [("readyReplicas", JNum 2); ("updatedReplicas", JNum 2); ("availableReplicas", JNum 2)])].

Definition demo_cluster_json : JsLib := {|
  JSON_parse s := if String.eqb s "deployment" then Some demo_deployment else None;
  Number _ := NaN;
  Date_parse _ := None;
|}.

(** The optional worker is not deployed. *)
Definition demo_cluster (h : trace KAns) (e : KOp) : KAns e :=
  match e as e return KAns e with
  | KNow => 1000
  | KReadFile f => Some (if String.eqb f "/token" then " secret " else "CA")
  | KRequest r =>
      if str_has "-" (w_pathname (kr_url r)) && includes "worker" (w_pathname (kr_url r))
      then KubeReplied 404 EmptyString else KubeReplied 200 "deployment"
  | KDeadline _ _ => false
  | KLog _ => tt
  end.

Definition demo_trino : trace KAns * WorkloadSnapshot :=
  answer demo_cluster [] (@read_snapshot demo_cluster_json demo_cluster_host "https://10.0.0.1" "/token" "/ca" None "svc-trino").

Lemma health_is_evidence_witness :
  demo_trino.2 = mkSnapshot Healthy 2 2 None /\ @status_evidence demo_cluster_json demo_cluster_host "https://10.0.0.1" "/token" "/ca" None demo_trino.1 "svc-trino" demo_trino.2.
Proof.
  split; [vm_compute; reflexivity|].
  apply (@health_is_evidence demo_cluster_json demo_cluster_host "https://10.0.0.1" "/token" "/ca" None "svc-trino").
  apply answer_runs.
Defined.

Definition demo_request : KubeRequest :=
  mkKubeRequest (demo_api_url "/apis/apps/v1/namespaces/analytics/deployments/trino-coordinator")
    [("Authorization", "Bearer secret"); ("Accept", "application/json")] "CA" 2500.

Lemma live_reads_confined_witness :
  exists path token, live_path path /\ path = "/apis/apps/v1/namespaces/analytics/deployments/trino-coordinator" /\
    Did (Ans:=KAns) (KReadFile "/token") (Some token) ∈ take 2 demo_trino.1 /\
    kr_headers demo_request = request_headers (trim token).
Proof.
  destruct (@live_reads_confined demo_cluster_json demo_cluster_host {| toISOString _ := EmptyString; localeCompare _ _ := 0 |}
    "https://10.0.0.1" "/token" "/ca" None WorkloadSnapshot
    (@read_snapshot demo_cluster_json demo_cluster_host "https://10.0.0.1" "/token" "/ca" None "svc-trino") demo_trino.1
    demo_trino.2 (take 2 demo_trino.1) (KRequest demo_request) (KubeReplied 200 "deployment") (drop 3 demo_trino.1))
    as (path & api & token & Hp & Hu & _ & _ & Ht & _ & Hh & _).
  - apply (rd_workload _ _ _ _ "svc-trino").
  - apply answer_runs.
  - vm_compute. reflexivity.
  - exists path, token. split; [exact Hp|]. injection Hu as ->. split; [reflexivity|].
    split; [|exact Hh]. apply list_elem_of_In, in_rev. rewrite <-list_elem_of_In. exact Ht.
Defined.
