(* ===== verification/Listings.v ===== *)
(** * Listings of fixtures: [schema/{query,resource}.ts], [stub-data/{resources,events}.ts],
    [routes/{resources,health,sso}.ts] of domain-api/src

    What the query string of a listing may say, the Kubernetes resources and events the
    API serves without a cluster, its own health, and the declared SSO configuration. *)

From S2P Require Import Prelude JsBase JsLib Zod AssetId Effects Services Pipeline Kube SsoPorts.
From Stdlib Require Import Ascii.
From Stdlib Require String.
Open Scope Z_scope.
Open Scope prog_scope.

(** ** [schema/query.ts]: a parameter that is missing, or its text *)

(** [z.coerce.number().int().min(1).max(max).optional().default(d)] *)
Definition page_number `{JsLib} (max d : Z) (q : option string) : option Z :=
  match q with
  | None => Some d
  | Some s => match Number s with Fin n => if (1 <=? n) && (n <=? max) then Some n else None | _ => None end
  end.

Definition MAX_SAFE_INTEGER : Z := 9007199254740991.

Definition paginationQuerySchema `{JsLib} (page pageSize : option string) : option (Z * Z) :=
  p ← page_number MAX_SAFE_INTEGER 1 page; s ← page_number 100 20 pageSize; Some (p, s).

(** An enum parameter that may be missing. *)
Definition enum_param {A} (name : A -> string) (all : list A) (q : option string) : option (option A) :=
  match q with None => Some None | Some s => Some <$> List.find (fun a => String.eqb (name a) s) all end.

Definition text_param (q : option string) : option (option string) :=
  match q with None => Some None | Some s => if present1 s then Some (Some s) else None end.

Definition statusParam : option string -> option (option HealthStatus) :=
  enum_param status_name [Healthy; Degraded; Stale; Unknown; Unavailable].

Definition service_type_name (t : ServiceType) : string :=
  match t with
  | TKafka => "kafka" | TFlink => "flink" | TIceberg => "iceberg" | TTrino => "trino" | TAirflow => "airflow"
  | TSuperset => "superset" | TKubernetes => "kubernetes" | TObservability => "observability"
  end.

Definition serviceListQuerySchema `{JsLib} (page pageSize status type : option string)
    : option (Z * Z * option HealthStatus * option ServiceType) :=
  p ← paginationQuerySchema page pageSize; s ← statusParam status;
  t ← enum_param service_type_name [TKafka; TFlink; TIceberg; TTrino; TAirflow; TSuperset; TKubernetes; TObservability] type;
  Some (p, s, t).

Definition severity_name (s : EventSeverity) : string :=
  match s with SevInfo => "info" | SevWarning => "warning" | SevError => "error" end.

Definition eventListQuerySchema `{JsLib} (page pageSize severity : option string) : option (Z * Z * option EventSeverity) :=
  p ← paginationQuerySchema page pageSize; s ← enum_param severity_name [SevInfo; SevWarning; SevError] severity; Some (p, s).

(** ** [schema/resource.ts] *)

Inductive ResourceKind := RNamespace | RWorkload | RPod | RService | REndpoint | RJob | RPersistentVolumeClaim.

#[export] Instance ResourceKind_eq_dec : EqDecision ResourceKind.
Proof. solve_decision. Defined.

Definition resource_kind_name (k : ResourceKind) : string :=
  match k with
  | RNamespace => "Namespace" | RWorkload => "Workload" | RPod => "Pod" | RService => "Service" | REndpoint => "Endpoint"
  | RJob => "Job" | RPersistentVolumeClaim => "PersistentVolumeClaim"
  end.

(** A missing optional field is [None]; a null one is [Some None]. *)
Record Resource := mkK8s {
  kr_id : string;
  kr_kind : ResourceKind;
  kr_name : string;
  kr_namespace : option string;
  kr_status : HealthStatus;
  kr_cpuUsage : option (option string);
  kr_memoryUsage : option (option string);
  kr_capacity : option (option string);
  kr_storageClass : option (option string);
  kr_relatedServiceId : option string;
  kr_relatedPipelineId : option string;
  kr_relatedEventIds : list string;
  kr_logsUrl : option string;
}.

Definition null_or (p : string -> bool) (x : option string) : bool := match x with None => true | Some s => p s end.
Definition missing_or (p : string -> bool) (x : option (option string)) : bool := match x with None => true | Some y => null_or p y end.

(** [is_http]: [z.url] with the protocol http or https. *)
Definition resourceSchema (is_http : string -> bool) (r : Resource) : bool :=
  present1 (kr_id r) && present1 (kr_name r) && null_or present1 (kr_namespace r) && missing_or present1 (kr_cpuUsage r) &&
  missing_or present1 (kr_memoryUsage r) && missing_or present1 (kr_capacity r) && missing_or present1 (kr_storageClass r) &&
  null_or present1 (kr_relatedServiceId r) && null_or present1 (kr_relatedPipelineId r) &&
  forallb present1 (kr_relatedEventIds r) && null_or is_http (kr_logsUrl r).

Definition resourceListQuerySchema `{JsLib} (page pageSize namespace kind : option string)
    : option (Z * Z * option string * option ResourceKind) :=
  p ← paginationQuerySchema page pageSize; n ← text_param namespace;
  k ← enum_param resource_kind_name [RNamespace; RWorkload; RPod; RService; REndpoint; RJob; RPersistentVolumeClaim] kind;
  Some (p, n, k).

Definition asset_kind_param : option string -> option (option DataAssetKind) :=
  enum_param kind_name [KTable; KTopic; KSchema; KCatalog].

Definition dataAssetListQuerySchema `{JsLib} (page pageSize status kind parentId : option string)
    : option (Z * Z * option HealthStatus * option DataAssetKind * option string) :=
  p ← paginationQuerySchema page pageSize; s ← statusParam status; k ← asset_kind_param kind; i ← text_param parentId;
  Some (p, s, k, i).

(** ** [stub-data/resources.ts], [stub-data/events.ts] *)

Definition data_resource (i : string) (kind : ResourceKind) (name : string) (status : HealthStatus) (cpu memory : option string)
    (service : string) (pipeline : option string) (events : list string) : Resource :=
  mkK8s i kind name (Some "data-platform") status (Some cpu) (Some memory) None None (Some service) pipeline events None.

Definition resources : list Resource := [
  mkK8s "k8s-namespace-data" RNamespace "data-platform" None Healthy (Some None) (Some None) None None (Some "svc-kubernetes") None
    ["evt-6"] None;
  data_resource "k8s-workload-flink" RWorkload "flink-cluster" Stale (Some "850m") (Some "2Gi") "svc-flink"
    (Some "pl-lakehouse-ingest") ["evt-3"];
  data_resource "k8s-pod-flink-jobmanager" RPod "flink-cluster-jobmanager-0" Degraded (Some "250m") (Some "512Mi") "svc-flink"
    (Some "pl-lakehouse-ingest") ["evt-3"];
  data_resource "k8s-service-trino" RService "trino" Healthy None None "svc-trino" None ["evt-4"];
  data_resource "k8s-endpoint-trino" REndpoint "trino" Healthy None None "svc-trino" None [];
  data_resource "k8s-job-iceberg-compaction" RJob "iceberg-compaction-28712" Degraded None None "svc-iceberg"
    (Some "pl-lakehouse-ingest") ["evt-7"];
  mkK8s "k8s-pvc-iceberg" RPersistentVolumeClaim "iceberg-warehouse" (Some "data-platform") Healthy (Some None) (Some None)
    (Some (Some "128Gi")) (Some (Some "local-path")) (Some "svc-iceberg") (Some "pl-lakehouse-ingest") [] None
].

Definition events : list Event := [
  mkEvt "evt-1" "2026-09-21T05:00:00.000Z" SevError "Health probe timed out"
    (Some "svc-observability") (Some "pl-cluster-observability") None None;
  mkEvt "evt-2" "2026-09-21T04:55:00.000Z" SevWarning "Under-replicated partitions detected"
    (Some "svc-kafka") (Some "pl-lakehouse-ingest") None None;
  mkEvt "evt-3" "2026-09-21T04:50:00.000Z" SevWarning "Checkpoint status stale beyond freshness window"
    (Some "svc-flink") (Some "pl-lakehouse-ingest") (Some "k8s-pod-flink-jobmanager") None;
  mkEvt "evt-4" "2026-09-21T04:45:00.000Z" SevInfo "Service health check completed"
    (Some "svc-trino") None (Some "k8s-service-trino") None;
  mkEvt "evt-5" "2026-09-21T04:40:00.000Z" SevInfo "Correlation re-evaluated" None (Some "pl-batch-reporting") None None;
  mkEvt "evt-6" "2026-09-21T04:35:00.000Z" SevInfo "Platform heartbeat" None None (Some "k8s-namespace-data") None;
  mkEvt "evt-7" "2026-09-21T04:30:00.000Z" SevError "Job failed: backoff limit exceeded"
    (Some "svc-iceberg") (Some "pl-lakehouse-ingest") (Some "k8s-job-iceberg-compaction") (Some FromJob)
].

(** ** Routes *)

Definition resource_matches (namespace : option string) (kind : option ResourceKind) (r : Resource) : bool :=
  match namespace with None => true | Some n => bool_decide (kr_namespace r = Some n) end &&
  match kind with None => true | Some k => bool_decide (kr_kind r = k) end.

Definition resourcesRoute (data : list Resource) (page pageSize : Z) (namespace : option string) (kind : option ResourceKind)
    : Listing Resource :=
  let (pageItems, total) := paginate (List.filter (resource_matches namespace kind) data) page pageSize in
  buildListEnvelope pageItems total page pageSize [].

Definition resourceRoute (data : list Resource) (i : string) : string + Resource :=
  match List.find (fun r => String.eqb (kr_id r) i) data with
  | None => inl ("Resource '" +:+ i +:+ "' was not found")
  | Some r => inr r
  end.

(** [routes/health.ts]: what is wired; a flag that is missing is false. *)
Record HealthWiring := mkHealthWiring {
  hw_fixtures : option string;
  hw_gitWriter : bool;
  hw_argocdReader : bool;
  hw_flink : bool;
  hw_trinoQueryHistory : bool;
  hw_lakekeeper : bool;
}.

Record DomainApiHealth := mkDomainHealth { dh_status : HealthStatus; dh_version : string; dh_components : list (string * string) }.

(** [auditStore]: the answer of [store.status()], when there is a store. *)
Definition healthRoute (packageVersion : string) (auditStore : option string) (wired : HealthWiring) : DomainApiHealth :=
  mkDomainHealth Healthy packageVersion [
    ("auditStore", default "not-configured" auditStore);
    ("gitWriter", if hw_gitWriter wired then "configured" else "unconfigured");
    ("argocdReader", if hw_argocdReader wired then "configured" else "unconfigured");
    ("flink", if hw_flink wired then "live" else "stub");
    ("trinoQueryHistory", if hw_trinoQueryHistory wired then "live" else "disabled");
    ("lakekeeper", if hw_lakekeeper wired then "live" else "stub");
    ("fixtures", default "stub" (hw_fixtures wired))].

(** [routes/sso.ts]: the body of the 200, the message of the 503, or an exception. *)
Definition ssoRoute {Op} {Ans : Op -> Type} {R} (getSsoConfig : prog Ans (result Exn R)) : prog Ans (result Exn (string + R)) :=
  await r := getSsoConfig in
  match r with
  | inr response => Ret (inr (inr response))
  | inl (SsoConfigError m) => Ret (inr (inl m))
  | inl x => Ret (inl x)
  end.

(** ** What the query string admits *)

Lemma page_number_bounds `{JsLib} max d q n : 1 <= d <= max -> page_number max d q = Some n -> 1 <= n <= max.
Proof.
  unfold page_number. intros Hd. destruct q as [s|]; [|by intros [= <-]]. destruct (Number s) as [| | |z]; try done.
  case_match eqn:E; [|done]. intros [= <-]. lia.
Qed.

Lemma pagination_bounds `{JsLib} page pageSize p s :
  paginationQuerySchema page pageSize = Some (p, s) -> 1 <= p /\ 1 <= s <= 100.
Proof.
  unfold paginationQuerySchema. intros (p' & Hp & (s' & Hs & [= <- <-])%bind_Some)%bind_Some.
  apply page_number_bounds in Hp, Hs; unfold MAX_SAFE_INTEGER in *; lia.
Qed.

(** ** Theorems *)

(** The pages of a listing are the listing.  For every query string the schema admits, a
    page of the resources has at most a hundred items, the total counts the resources that
    match the filters, and the pages of that size, put together in order, are exactly
    those, each once; the page asked for is the one with its number. *)
Theorem listing_pages `{JsLib} page pageSize namespace kind p s n k data :
  resourceListQuerySchema page pageSize namespace kind = Some (p, s, n, k) ->
  let matching := List.filter (resource_matches n k) data in
  ls_total (resourcesRoute data p s n k) = length matching /\
  (length (ls_data (resourcesRoute data p s n k)) <= 100)%nat /\
  ls_data (resourcesRoute data p s n k) = take (Z.to_nat s) (drop (Z.to_nat ((p - 1) * s)) matching) /\
  concat (map (fun i => ls_data (resourcesRoute data (Z.of_nat i + 1) s n k)) (seq 0 (length matching))) = matching.
Proof.
  unfold resourceListQuerySchema. intros ([p' s'] & Hp & (n' & _ & (k' & _ & [= <- <- <- <-])%bind_Some)%bind_Some)%bind_Some.
  apply pagination_bounds in Hp as [Hp Hs]. cbv zeta. set (matching := List.filter (resource_matches n' k') data).
  assert (forall i, resourcesRoute data i s' n' k' = mkListing (paginate matching i s').1 (length matching) i s' None) as Hr by done.
  rewrite Hr, paginate_page by lia. cbn [ls_total ls_data fst]. split_and!; [done| |done|].
  - rewrite length_take. lia.
  - rewrite (map_ext _ (fun i => (paginate matching (Z.of_nat i + 1) s').1)) by (intros i; by rewrite Hr).
    apply paginate_cover; lia.
Qed.

Lemma listing_pages_witness : let js := {| JSON_parse := fun _ => None; Number := fun _ => Fin 2; Date_parse := fun _ => None |} in
  ls_total (resourcesRoute resources 2 2 None (Some RPod)) = 1%nat.
Proof.
  intros js. apply (proj1 (listing_pages (H:=js) (Some "2") (Some "2") None (Some "Pod") 2 2 None (Some RPod) resources
    ltac:(vm_compute; reflexivity))).
Defined.

(** An identifier that may be missing is one of the list. *)
Definition refers (ids : list string) (i : option string) : bool := match i with None => true | Some x => bool_decide (x ∈ ids) end.

(** The fixtures the API serves without a cluster refer to each other: every service,
    pipeline, event and resource that a resource or an event names is in the fixtures, no
    two of a kind share an identifier, and all of them satisfy their schema. *)
Theorem fixtures_are_linked :
  forallb (resourceSchema (fun _ => true)) resources = true /\
  NoDup (map kr_id resources) /\ NoDup (map ev_id events) /\
  forallb (fun r => refers (map sv_id services) (kr_relatedServiceId r) && refers (map pl_id pipelines) (kr_relatedPipelineId r) &&
    forallb (fun e => refers (map ev_id events) (Some e)) (kr_relatedEventIds r)) resources = true /\
  forallb (fun e => refers (map sv_id services) (ev_relatedServiceId e) && refers (map pl_id pipelines) (ev_relatedPipelineId e) &&
    refers (map kr_id resources) (ev_relatedResourceId e)) events = true.
Proof.
  split; [vm_compute; reflexivity|]. split; [apply (bool_decide_eq_true_1 _); vm_compute; reflexivity|].
  split; [apply (bool_decide_eq_true_1 _); vm_compute; reflexivity|]. split; vm_compute; reflexivity.
Qed.
