(* ===== verification/Ci.v ===== *)
(** * The gates of the build: what both scripts of [src/manager/scripts/ci] use

    Files, the clock, the console and [npm audit] are calls; the process ends with an
    exit code, or with an exception nobody caught. *)

From S2P Require Import Prelude JsBase JsText JsJson JsLib Effects.
From Stdlib Require Import Ascii.
From Stdlib Require String Eqdep_dec.
Import Eqdep_dec (inj_pair2_eq_dec).
Open Scope Z_scope.
Open Scope prog_scope.

Record DirEntry := mkDirEntry { de_name : string; de_isDirectory : bool }.

(** What [spawnSync] of [npm audit] answers: the message of its error, and its output. *)
Record AuditRun := mkAuditRun { ar_error : option string; ar_stdout : string; ar_stderr : string }.

(** A failure is the message of what is thrown. *)
Inductive COp : Type :=
| CRead (path : string)
| CExists (path : string)
| CReadDir (path : string)
| CMkdtemp (prefix : string)
| CMkdir (path : string)
| CWrite (path text : string)
| CRm (path : string)
| CNow
| CAudit
| COut (line : string)
| CErr (line : string).

Definition CAns (e : COp) : Type :=
  match e with
  | CRead _ | CMkdtemp _ => result string string
  | CExists _ => bool
  | CReadDir _ => result string (list DirEntry)
  | CMkdir _ | CWrite _ _ | CRm _ => result string unit
  | CNow => Z
  | CAudit => AuditRun
  | COut _ | CErr _ => unit
  end.

(** A failure is the message of an [Error]. *)
Definition CProg (A : Type) : Type := prog CAns (result string A).
Definition cdo (e : COp) : prog CAns (CAns e) := perform e.

Inductive Ended := Exited (code : Z) | Crashed.

(** Print a line of the error stream and exit with 1. *)
Definition fail_with (line : string) : prog CAns Ended := await _ := cdo (CErr line) in Ret (Exited 1).

Definition out_lines (lines : list string) : prog CAns unit := each lines (fun l => cdo (COut l)).
Definition err_lines (lines : list string) : prog CAns unit := each lines (fun l => cdo (CErr l)).

(** [new Date(s).getTime() <= now] *)
Definition expired `{JsLib} (now : Z) (s : string) : bool :=
  match Date_parse s with Some t => t <=? now | None => false end.

(** [!v || typeof v !== 'string' || !v.trim()] fails. *)
Definition nonblank (j : option json) : option string :=
  match j with Some (JStr s) => if String.eqb (trim s) EmptyString then None else Some s | _ => None end.

(** A date text that can be read. *)
Definition dated `{JsLib} (j : option json) : option string :=
  match j with
  | Some (JStr s) => if String.eqb s EmptyString then None else match Date_parse s with Some _ => Some s | None => None end
  | _ => None
  end.

(** An entry that is an object; arrays are. *)
Definition object_like (j : json) : bool := match j with JObj _ | JArr _ => true | _ => false end.

(** ** Lemmas *)

Lemma runs_ok {A B} (p : CProg A) (f : A -> CProg B) t b :
  runs (bind_ok p f) t (inr b) <-> exists t1 t2 a, t = t1 ++ t2 /\ runs p t1 (inr a) /\ runs (f a) t2 (inr b).
Proof.
  unfold bind_ok. rewrite runs_bind. split.
  - intros (t1 & t2 & [x|a] & -> & H1 & H2); [by destruct H2|]. eauto 10.
  - intros (t1 & t2 & a & -> & H1 & H2). exists t1, t2, (inr a). done.
Qed.

(** A call, then the rest. *)
Lemma runs_call {B} (e : COp) (f : CAns e -> prog CAns B) t b :
  runs (bind (cdo e) f) t b <-> exists r u, t = Did e r :: u /\ runs (f r) u b.
Proof.
  cbn. destruct t as [|c t]; [split; [done|by intros (? & ? & ? & ?)]|]. split.
  - intros (r & -> & H). eauto.
  - intros (r & u & [= -> ->] & H). eauto.
Qed.

#[export] Instance COp_eq_dec : EqDecision COp.
Proof. solve_decision. Defined.

(** The same call first: the same answer, and the same calls after it. *)
Lemma did_inj e (r r' : CAns e) (t t' : trace CAns) : Did e r :: t = Did e r' :: t' -> r = r' /\ t = t'.
Proof. intros E. injection E as Er ->. split; [|done]. exact (inj_pair2_eq_dec _ (decide_rel (=)) _ _ _ _ Er). Qed.

Lemma includes_middle needle a b : includes needle (a +:+ (needle +:+ b)) = true.
Proof.
  induction a as [|c a IH].
  - rewrite str_app_nil_l. destruct (needle +:+ b) eqn:E; cbn [includes]; rewrite <-E, starts_with_app; done.
  - rewrite str_app_cons. cbn [includes]. rewrite IH. by rewrite orb_true_r.
Qed.
