(* ===== verification/LicensePolicy.v ===== *)
(** * The license gate: [src/manager/scripts/ci/check-license-policy.mjs]

    Every production dependency of the lock file must declare licenses the policy
    approves, or have a reviewed exception that has not expired. *)
From S2P Require Import Prelude JsBase JsRegex JsText JsJson JsLib Effects PolicyProjection Kube Ci.
From Stdlib Require Import Ascii.
From Stdlib Require String.
Open Scope Z_scope.
Open Scope prog_scope.

(** ** Data *)

Record LicenseException := mkException { ex_package : string; ex_reason : string; ex_reviewedBy : string; ex_expiresAt : string }.

Record LicensePolicy := mkPolicy { lp_approvedLicenses : list string; lp_exceptions : list LicenseException }.

Inductive PolicyStatus :=
| MissingPackage | InvalidPackageJson | MissingLicense | Approved | ExpiredException | ApprovedException | Unapproved.

#[export] Instance PolicyStatus_eq_dec : EqDecision PolicyStatus.
Proof. solve_decision. Defined.

Definition policy_status_name (s : PolicyStatus) : string :=
  match s with
  | MissingPackage => "missing_package" | InvalidPackageJson => "invalid_package_json" | MissingLicense => "missing_license"
  | Approved => "approved" | ExpiredException => "expired_exception" | ApprovedException => "approved_exception"
  | Unapproved => "unapproved"
  end.

Record InventoryItem := mkItem { in_package : string; in_version : json; in_licenses : list string; in_policyStatus : PolicyStatus }.

(** ** Licenses *)

(** [if (x && x.trim())] *)
Definition push_trimmed (s : string) : list string := if String.eqb (trim s) EmptyString then [] else [trim s].

Definition license_item (item : json) : list string :=
  match item with
  | JStr s => push_trimmed s
  | _ => match field item "type" with Some (JStr s) => push_trimmed s | _ => [] end
  end.

Definition extractDeclaredLicenses (pkgJson : json) : list string :=
  let list_form := match field pkgJson "licenses" with Some (JArr l) => flat_map license_item l | _ => [] end in
  match field pkgJson "license" with
  | Some (JStr s) => if String.eqb (trim s) EmptyString then list_form else [trim s]
  | Some (JObj l) => match map_get "type" l with Some (JStr s) => push_trimmed s | _ => list_form end
  | _ => list_form
  end.

(** [s.replace(/^\(|\)$/g, "")] *)
Definition strip_parens (s : string) : string :=
  let s := match s with String a s' => if Ascii.eqb a "(" then s' else s | EmptyString => s end in
  if ends_with ")" s then str_take (String.length s - 1) s else s.

Definition license_parts (sep clean : string) : list string := map (fun p => strip_parens (trim p)) (split_text sep clean).

Definition isLicenseApproved (approved : list string) (licenseStr : string) : bool :=
  let has s := bool_decide (s ∈ approved) in
  if has licenseStr then true
  else
    let clean := trim (strip_parens licenseStr) in
    if includes " OR " clean then existsb has (license_parts " OR " clean)
    else if includes " AND " clean then forallb has (license_parts " AND " clean)
    else false.

Section license.
Context `{js : JsLib} `{intl : Intl}.
(** The message of a [SyntaxError] of [JSON.parse]; [path.join]; [os.tmpdir()]; the
    directory [REPO_ROOT]. *)
Context (parse_message : string -> string) (path_join : list string -> string) (tmpdir REPO_ROOT : string).

Definition POLICY_FILE : string := path_join [REPO_ROOT; "policies"; "license-policy.json"].
Definition LOCK_FILE : string := path_join [REPO_ROOT; "package-lock.json"].
Definition NODE_MODULES_DIR : string := path_join [REPO_ROOT; "node_modules"].

(** ** The policy file *)

Fixpoint approved_set (licenses : list json) (seen : list string) : result string (list string) :=
  match licenses with
  | [] => inr seen
  | lic :: rest =>
      match nonblank (Some lic) with
      | None => inl "each approved license must be a non-empty string"
      | Some s =>
          if bool_decide (s ∈ seen) then inl ("duplicate approved license: " +:+ s) else approved_set rest (seen ++ [s])
      end
  end.

Definition exception_of (entry : json) : result string LicenseException :=
  if negb (object_like entry) then inl "each exception must be an object"
  else
    match nonblank (field entry "package") with
    | None => inl "exception entry requires non-empty package string"
    | Some pkg =>
        match nonblank (field entry "reason"), nonblank (field entry "reviewedBy"), dated (field entry "expiresAt") with
        | None, _, _ => inl ("exception for " +:+ pkg +:+ " requires non-empty reason string")
        | _, None, _ => inl ("exception for " +:+ pkg +:+ " requires non-empty reviewedBy string")
        | _, _, None => inl ("exception for " +:+ pkg +:+ " requires valid expiresAt date string (e.g. YYYY-MM-DD)")
        | Some reason, Some reviewedBy, Some expiresAt => inr (mkException pkg reason reviewedBy expiresAt)
        end
    end.

(** What [loadPolicy] makes of the parsed file. *)
Definition policy_of (data : json) : result string LicensePolicy :=
  match data with
  | JObj _ =>
      match field data "approvedLicenses" with
      | Some (JArr (lic :: rest)) =>
          (let! approved := approved_set (lic :: rest) [] in
           match field data "exceptions" with
           | None => inr (mkPolicy approved [])
           | Some (JArr l) => let! exceptions := rmap exception_of l in inr (mkPolicy approved exceptions)
           | Some _ => inl "exceptions must be an array"
           end)%result
      | _ => inl "approvedLicenses must be a non-empty array of strings"
      end
  | _ => inl "policy must be a JSON object"
  end.

Definition loadPolicy (policyPath : string) : CProg LicensePolicy :=
  await raw := cdo (CRead policyPath) in
  match raw with
  | inl m => Ret (inl ("cannot read license policy " +:+ policyPath +:+ ": " +:+ m))
  | inr text =>
      match JSON_parse text with
      | None => Ret (inl ("cannot parse license policy " +:+ policyPath +:+ " as JSON: " +:+ parse_message text))
      | Some data => Ret (policy_of data)
      end
  end.

(** ** The dependencies *)

(** A key of the lock file: nothing for what is not a production dependency; [None]: an
    entry that is null. *)
Definition dependency_of (entry : string * json) : option (list string) :=
  let (key, data) := entry in
  if negb (starts_with "node_modules/" key) then Some []
  else
    match data with
    | JNull => None
    | _ =>
        let name := str_drop 13 key in
        Some (if truthy (field data "dev") || starts_with "@beluga-manager/" name || truthy (field data "link") then [] else [name])
    end.

Fixpoint dependencies_of (entries : list (string * json)) : option (list string) :=
  match entries with
  | [] => Some []
  | e :: rest => l ← dependency_of e; r ← dependencies_of rest; Some (l ++ r)
  end.

(** The set of [prodPkgs], in the order of insertion. *)
Definition getProductionDependencies (lockfilePath : string) : CProg (list string) :=
  await raw := cdo (CRead lockfilePath) in
  match raw with
  | inl m => Ret (inl ("cannot read package-lock.json at " +:+ lockfilePath +:+ ": " +:+ m))
  | inr text =>
      match JSON_parse text with
      | None => Ret (inl (parse_message text))
      | Some JNull => Ret (inl "Cannot read properties of null (reading 'packages')")
      | Some lock =>
          match field lock "packages" with
          | Some (JObj entries) =>
              Ret (match dependencies_of entries with
                   | Some l => inr (set_of l)
                   | None => inl "Cannot read properties of null (reading 'dev')"
                   end)
          | Some (JArr _) => Ret (inr [])
          | _ => Ret (inl "package-lock.json missing packages mapping")
          end
      end
  end.

(** A package directory that holds a [package.json]. *)
Definition installed_at (name : string) (dir : list string) (installed : list (string * string)) : CProg (list (string * string)) :=
  let pkgJsonPath := path_join (dir ++ ["package.json"]) in
  await there := cdo (CExists pkgJsonPath) in
  Ret (inr (if there then map_set name pkgJsonPath installed else installed)).

Fixpoint walk_scope (root scope : string) (subs : list DirEntry) (installed : list (string * string)) : CProg (list (string * string)) :=
  match subs with
  | [] => Ret (inr installed)
  | sub :: rest =>
      if starts_with "." (de_name sub) then walk_scope root scope rest installed
      else
        attempt installed := installed_at (scope +:+ "/" +:+ de_name sub) [path_join [root; scope]; de_name sub] installed in
        walk_scope root scope rest installed
  end.

Fixpoint walk_entries (root : string) (entries : list DirEntry) (installed : list (string * string)) : CProg (list (string * string)) :=
  match entries with
  | [] => Ret (inr installed)
  | entry :: rest =>
      if starts_with "." (de_name entry) then walk_entries root rest installed
      else if starts_with "@" (de_name entry) && de_isDirectory entry then
        attempt subs := cdo (CReadDir (path_join [root; de_name entry])) in
        attempt installed := walk_scope root (de_name entry) subs installed in
        walk_entries root rest installed
      else if de_isDirectory entry then
        attempt installed := installed_at (de_name entry) [root; de_name entry] installed in
        walk_entries root rest installed
      else walk_entries root rest installed
  end.

Definition walkInstalledPackages (nodeModulesDir : string) : CProg (list (string * string)) :=
  await there := cdo (CExists nodeModulesDir) in
  if negb there then Ret (inr [])
  else
    attempt entries := cdo (CReadDir nodeModulesDir) in
    walk_entries nodeModulesDir entries [].

(** ** The check *)

(** The package file of a dependency: not installed, not readable or not JSON (with the
    message), or its value. *)
Inductive PackageFile := NotInstalled | Unreadable (message : string) | Package (j : json).

Definition read_package (installed : list (string * string)) (pkgName : string) : prog CAns PackageFile :=
  match map_get pkgName installed with
  | None => Ret NotInstalled
  | Some path =>
      await raw := cdo (CRead path) in
      match raw with
      | inl m => Ret (Unreadable m)
      | inr text => match JSON_parse text with None => Ret (Unreadable (parse_message text)) | Some j => Ret (Package j) end
      end
  end.

Definition version_of (pkgJson : json) : json :=
  match field pkgJson "version" with Some v => if truthy (Some v) then v else JStr "unknown" | None => JStr "unknown" end.

(** The diagnostic of a package and its row of the inventory. *)
Definition verdict (approved : list string) (exceptions : list LicenseException) (now : Z) (pkgName : string) (f : PackageFile)
    : string * InventoryItem :=
  match f with
  | NotInstalled =>
      ("[" +:+ pkgName +:+ "] FAIL: package not found in node_modules", mkItem pkgName (JStr "unknown") [] MissingPackage)
  | Unreadable m =>
      ("[" +:+ pkgName +:+ "] FAIL: invalid package.json: " +:+ m, mkItem pkgName (JStr "unknown") [] InvalidPackageJson)
  | Package j =>
      let version := version_of j in
      let name := "[" +:+ pkgName +:+ "@" +:+ String_of version +:+ "]" in
      let declared := extractDeclaredLicenses j in
      let item := mkItem pkgName version declared in
      match declared with
      | [] => (name +:+ " FAIL: missing or unparseable license", item MissingLicense)
      | _ =>
          let unapproved := List.filter (fun l => negb (isLicenseApproved approved l)) declared in
          let stated := json_text (JStrs unapproved) in
          match unapproved with
          | [] => (name +:+ " OK (" +:+ join ", " declared +:+ ")", item Approved)
          | _ =>
              match List.find (fun e => String.eqb (ex_package e) pkgName) exceptions with
              | Some e =>
                  if expired now (ex_expiresAt e)
                  then (name +:+ " FAIL: unapproved license " +:+ stated +:+ " - exception EXPIRED on " +:+ ex_expiresAt e, item ExpiredException)
                  else (name +:+ " OK (reviewed exception by " +:+ ex_reviewedBy e +:+ ", expires " +:+ ex_expiresAt e +:+ ": " +:+
                        ex_reason e +:+ ")", item ApprovedException)
              | None => (name +:+ " FAIL: unapproved license " +:+ stated, item Unapproved)
              end
          end
      end
  end.

(** The file of a package may be [null]: reading its version throws. *)
Fixpoint check_all (pkgs : list string) (installed : list (string * string)) (approved : list string)
    (exceptions : list LicenseException) (now : Z) : CProg (list (string * InventoryItem)) :=
  match pkgs with
  | [] => Ret (inr [])
  | pkgName :: rest =>
      await f := read_package installed pkgName in
      match f with
      | Package JNull => Ret (inl "Cannot read properties of null (reading 'version')")
      | _ =>
          attempt r := check_all rest installed approved exceptions now in
          Ret (inr (verdict approved exceptions now pkgName f :: r))
      end
  end.

Definition checkLicenses (prodPkgs : list string) (installed : list (string * string)) (approved : list string)
    (exceptions : list LicenseException) (now : Z) : CProg (list (string * InventoryItem)) :=
  check_all (js_sort str_cmp prodPkgs) installed approved exceptions now.

(** ** The self-test *)

Definition fixture (name : string) (license : option string) : string * json :=
  (name, JObj ([("name", JStr name); ("version", JStr "1.0.0")] ++
               match license with Some l => [("license", JStr l)] | None => [] end)).

Definition self_test_packages : list (string * json) :=
  [fixture "ok-pkg" (Some "MIT"); fixture "bad-pkg" (Some "GPL-3.0"); fixture "nolic-pkg" None;
   fixture "except-pkg" (Some "GPL-3.0"); fixture "expired-pkg" (Some "GPL-3.0")].

Definition self_test_exceptions : list LicenseException :=
  [mkException "except-pkg" "Temporary approval" "security-team" "2026-12-31";
   mkException "expired-pkg" "Old approval" "security-team" "2026-01-01"].

(** [new Date('2026-06-01T00:00:00Z')] *)
Definition self_test_now : Z := 1780272000000.

Fixpoint write_fixtures (fixtureNm : string) (packages : list (string * json)) : CProg unit :=
  match packages with
  | [] => Ret (inr tt)
  | (name, j) :: rest =>
      attempt _ := cdo (CMkdir (path_join [fixtureNm; name])) in
      attempt _ := cdo (CWrite (path_join [fixtureNm; name; "package.json"]) (json_text j)) in
      write_fixtures fixtureNm rest
  end.

(** What the diagnostics of the fixtures must contain: each with the words of its line
    and what is wrong when no line has them. *)
Definition self_test_lines : list (list string * string) :=
  [(["[ok-pkg@1.0.0] OK"], "ok-pkg was not accepted");
   (["[bad-pkg@1.0.0] FAIL: unapproved license"], "bad-pkg was not rejected");
   (["[nolic-pkg@1.0.0] FAIL: missing or unparseable"], "nolic-pkg was not rejected");
   (["[except-pkg@1.0.0] OK (reviewed exception"], "except-pkg was not accepted via exception");
   (["[expired-pkg@1.0.0] FAIL: unapproved license"; "EXPIRED"], "expired-pkg was not rejected")].

Fixpoint self_test_diagnostics (diagnostics : list string) (lines : list (list string * string)) : result string unit :=
  match lines with
  | [] => inr tt
  | (words, wrong) :: rest =>
      if existsb (fun d => forallb (fun w => includes w d) words) diagnostics then self_test_diagnostics diagnostics rest
      else inl ("self-test failed: " +:+ wrong)
  end.

Definition self_test_spdx (approved : list string) : result string unit :=
  if negb (isLicenseApproved approved "(MIT OR GPL-3.0)")
  then inl "self-test failed: (MIT OR GPL-3.0) should be approved under OR"
  else if isLicenseApproved approved "(MIT AND GPL-3.0)"
  then inl "self-test failed: (MIT AND GPL-3.0) should be rejected under AND"
  else inr tt.

Definition self_test_in (tmpDir : string) (approved : list string) : CProg unit :=
  let fixtureNm := path_join [tmpDir; "node_modules"] in
  attempt _ := write_fixtures fixtureNm self_test_packages in
  attempt installed := walkInstalledPackages fixtureNm in
  attempt checked := checkLicenses self_test_packages.*1 installed approved self_test_exceptions self_test_now in
  Ret (let! _ := self_test_diagnostics checked.*1 self_test_lines in self_test_spdx approved)%result.

(** [finally]: what the removal throws replaces the outcome. *)
Definition selfTest (approved : list string) : CProg unit :=
  attempt tmpDir := cdo (CMkdtemp (path_join [tmpdir; "beluga-manager-license-self-test-"])) in
  await outcome := self_test_in tmpDir approved in
  await removed := cdo (CRm tmpDir) in
  Ret (match removed with inl m => inl m | inr _ => outcome end).

(** ** The command *)

Definition inventory_json (i : InventoryItem) : json :=
  JObj [("package", JStr (in_package i)); ("version", in_version i); ("licenses", JStrs (in_licenses i));
        ("policyStatus", JStr (policy_status_name (in_policyStatus i)))].

Definition by_package (a b : InventoryItem) : Z := localeCompare (in_package a) (in_package b).

Definition has_failures (diagnostics : list string) : bool := existsb (includes " FAIL:") diagnostics.

Definition report (jsonOutput : bool) (policy : LicensePolicy) (prodPkgs : list string) (checked : list (string * InventoryItem))
    : prog CAns Ended :=
  let hasFailures := has_failures checked.*1 in
  if jsonOutput then
    await _ := cdo (COut (json_pretty EmptyString (JArr (map inventory_json (js_sort by_package checked.*2))))) in
    Ret (Exited (if hasFailures then 1 else 0))
  else
    await _ := out_lines ["=== Production Dependency License Policy Check ===" +:+ lf; join lf checked.*1; EmptyString] in
    if hasFailures then
      await _ := err_lines ["One or more production dependencies failed the license policy.";
                            "Approved licenses: " +:+ join ", " (js_sort str_cmp (lp_approvedLicenses policy));
                            "Exceptions file: policies/license-policy.json"] in
      Ret (Exited 1)
    else
      await _ := cdo (COut (pretty (length prodPkgs) +:+ " production dependencies checked, all licenses declared and approved.")) in
      Ret (Exited 0).

Definition main (jsonOutput : bool) : prog CAns Ended :=
  await policy := (attempt policy := loadPolicy POLICY_FILE in
                   attempt _ := selfTest (lp_approvedLicenses policy) in
                   Ret (inr policy)) in
  match policy with
  | inl m => fail_with ("license policy check FAIL: " +:+ m)
  | inr policy =>
      await found := (attempt prodPkgs := getProductionDependencies LOCK_FILE in
                      attempt installed := walkInstalledPackages NODE_MODULES_DIR in
                      Ret (inr (prodPkgs, installed))) in
      match found with
      | inl m => fail_with ("dependency resolution FAIL: " +:+ m)
      | inr (prodPkgs, installed) =>
          await now := cdo CNow in
          await checked := checkLicenses prodPkgs installed (lp_approvedLicenses policy) (lp_exceptions policy) now in
          match checked with
          | inl _ => Ret Crashed
          | inr checked => report jsonOutput policy prodPkgs checked
          end
      end
  end.
End license.

(** ** What passes the license gate

    The theorems of [LicensePolicy]: an exit with 0 has looked at every production
    dependency of the lock file, and expressions of one operator are read as SPDX does. *)
(** ** The packages that were looked at *)

Section gate.
Context `{js : JsLib} `{intl : Intl}.
Context (parse_message : string -> string) (path_join : list string -> string) (tmpdir REPO_ROOT : string).

Abbreviation read t path text := (Did (Ans:=CAns) (CRead path) (inr text) ∈ t).

(** A production dependency: an entry of the lock file that is installed at the top, is
    not for development and is no package of this repository. *)
Definition lock_entries (lock : json) : list (string * json) := match field lock "packages" with Some (JObj l) => l | _ => [] end.

Definition production (entry : string * json) : bool :=
  starts_with "node_modules/" entry.1 && negb (truthy (field entry.2 "dev")) &&
  negb (starts_with "@beluga-manager/" (str_drop 13 entry.1)) && negb (truthy (field entry.2 "link")).

(** Where the file of a package is. *)
Definition package_file (dir name path : string) : Prop :=
  path = path_join [dir; name; "package.json"] \/
  exists scope sub, name = scope +:+ "/" +:+ sub /\ path = path_join [path_join [dir; scope]; sub; "package.json"].

(** All the licenses of a package are approved, or its exception has not expired. *)
Definition cleared (policy : LicensePolicy) (now : Z) (name : string) (pkgJson : json) : Prop :=
  let declared := extractDeclaredLicenses pkgJson in
  declared <> [] /\
  (Forall (fun l => isLicenseApproved (lp_approvedLicenses policy) l = true) declared \/
   exists e, e ∈ lp_exceptions policy /\ ex_package e = name /\ expired now (ex_expiresAt e) = false).

Lemma runs_loadPolicy path t policy :
  runs (loadPolicy parse_message path) t (inr policy) ->
  exists text d, read t path text /\ JSON_parse text = Some d /\ policy_of d = inr policy.
Proof.
  unfold loadPolicy. intros (raw & u & -> & Hr)%runs_call. destruct raw as [m|text]; [by destruct Hr|].
  destruct (JSON_parse text) as [d|] eqn:E; [|by destruct Hr]. destruct Hr as [-> Hp]. exists text, d. by split; [left|].
Qed.

Lemma dependencies_complete entries l :
  dependencies_of entries = Some l -> forall e, e ∈ entries -> production e = true -> str_drop 13 e.1 ∈ l.
Proof.
  revert l. induction entries as [|e entries IH]; intros l; cbn [dependencies_of]; [intros _ ? []%not_elem_of_nil|].
  intros (l1 & H1 & (l2 & H2 & [= <-])%bind_Some)%bind_Some e' [->|He]%elem_of_cons Hp; apply elem_of_app; [left|by right; apply IH].
  revert H1 Hp. destruct e as [key data]. unfold dependency_of, production. cbn [fst snd].
  destruct (starts_with "node_modules/" key); [cbn [negb andb]|done].
  destruct (truthy (field data "dev")), (starts_with "@beluga-manager/" (str_drop 13 key)), (truthy (field data "link"));
    try done; cbn. destruct data; try done; intros [= <-] _; by left.
Qed.

Lemma runs_dependencies path t deps :
  runs (getProductionDependencies parse_message path) t (inr deps) ->
  exists text lock, read t path text /\ JSON_parse text = Some lock /\
    forall e, e ∈ lock_entries lock -> production e = true -> str_drop 13 e.1 ∈ deps.
Proof.
  unfold getProductionDependencies. intros (raw & u & -> & Hr)%runs_call. destruct raw as [m|text]; [by destruct Hr|].
  destruct (JSON_parse text) as [lock|] eqn:E; [|by destruct Hr]. exists text, lock. split_and!; [left|done|].
  unfold lock_entries. intros e He Hp. destruct (field lock "packages") as [[| | | | |entries]|]; try (by apply not_elem_of_nil in He).
  destruct (dependencies_of entries) as [names|] eqn:D; [|by destruct lock; destruct Hr].
  assert (deps = set_of names) as -> by (destruct lock; by destruct Hr as [_ [= ->]]). apply elem_of_set_of. by eapply dependencies_complete.
Qed.

(** ** Installed packages are found in their own directory *)

Definition placed (dir : string) (installed : list (string * string)) : Prop :=
  forall name path, map_get name installed = Some path -> package_file dir name path.

Lemma runs_installed_at dir name place installed t installed' :
  package_file dir name (path_join (place ++ ["package.json"])) -> placed dir installed ->
  runs (installed_at path_join name place installed) t (inr installed') -> placed dir installed'.
Proof.
  intros Hf Hp. unfold installed_at. intros (there & u & -> & [_ [= ->]])%runs_call. destruct there; [|done].
  intros k path. rewrite map_get_set. case_decide; [by intros [= <-]; subst|apply Hp].
Qed.

Lemma runs_scope dir scope subs installed t installed' :
  placed dir installed -> runs (walk_scope path_join dir scope subs installed) t (inr installed') -> placed dir installed'.
Proof.
  revert installed t. induction subs as [|sub subs IH]; intros installed t Hp; cbn [walk_scope].
  - by intros [_ [= ->]].
  - destruct (starts_with "." _); [by apply IH|]. intros (t1 & t2 & i1 & -> & H1 & H2)%runs_ok. eapply IH; [|exact H2].
    eapply runs_installed_at; [|exact Hp|exact H1]. right. by eexists _, _.
Qed.

Lemma runs_entries dir entries installed t installed' :
  placed dir installed -> runs (walk_entries path_join dir entries installed) t (inr installed') -> placed dir installed'.
Proof.
  revert installed t. induction entries as [|e entries IH]; intros installed t Hp; cbn [walk_entries].
  - by intros [_ [= ->]].
  - destruct (starts_with "." _); [by apply IH|]. destruct (_ && _); [|destruct (de_isDirectory e); [|by apply IH]].
    + intros (t1 & t2 & subs & -> & _ & (t3 & t4 & i1 & -> & H1 & H2)%runs_ok)%runs_ok.
      eapply IH; [|exact H2]. by eapply runs_scope.
    + intros (t1 & t2 & i1 & -> & H1 & H2)%runs_ok. eapply IH; [|exact H2].
      eapply runs_installed_at; [|exact Hp|exact H1]. by left.
Qed.

Lemma runs_walk dir t installed : runs (walkInstalledPackages path_join dir) t (inr installed) -> placed dir installed.
Proof.
  unfold walkInstalledPackages. intros (there & u & -> & Hr)%runs_call. destruct there; [|by destruct Hr as [_ [= ->]]].
  apply runs_ok in Hr as (t1 & t2 & entries & -> & _ & H). by eapply runs_entries; [|exact H].
Qed.

(** ** A line without the word FAIL is a package that is cleared *)

Lemma fails_at a b s : s = a +:+ (" FAIL:" +:+ b) -> includes " FAIL:" s = true.
Proof. intros ->. apply includes_middle. Qed.

Lemma verdict_clear policy now name f :
  includes " FAIL:" (verdict (lp_approvedLicenses policy) (lp_exceptions policy) now name f).1 = false ->
  exists j, f = Package j /\ cleared policy now name j.
Proof.
  unfold verdict. destruct f as [|m|j]; cbn [fst].
  - rewrite (fails_at ("[" +:+ name +:+ "]") " package not found in node_modules"); [done|by rewrite !str_app_assoc].
  - rewrite (fails_at ("[" +:+ name +:+ "]") (" invalid package.json: " +:+ m)); [done|by rewrite !str_app_assoc].
  - set (at_version := "[" +:+ name +:+ "@" +:+ String_of (version_of j) +:+ "]"). intros H. exists j. split; [done|]. unfold cleared.
    destruct (extractDeclaredLicenses j) as [|d l] eqn:E; [by erewrite (fails_at at_version) in H by reflexivity|].
    split; [done|]. set (unapproved := List.filter _ _) in H. destruct unapproved as [|u us] eqn:U; cbn [fst] in H.
    + left. apply Forall_forall. intros x Hx. destruct (isLicenseApproved _ x) eqn:A; [done|]. exfalso.
      assert (x ∈ unapproved) as Hu by (apply elem_of_filterb; by rewrite A). rewrite U in Hu. by apply not_elem_of_nil in Hu.
    + right. destruct (List.find _ _) as [e|] eqn:F; [|by erewrite (fails_at at_version) in H by reflexivity]. apply find_some in F as [Fi Fe].
      apply String.eqb_eq in Fe. exists e. rewrite list_elem_of_In. destruct (expired _ _); [by erewrite (fails_at at_version) in H by reflexivity|done].
Qed.

(** ** The whole gate *)

Lemma runs_check pkgs installed approved exceptions now t l :
  runs (check_all parse_message pkgs installed approved exceptions now) t (inr l) ->
  forall name, name ∈ pkgs -> exists f, verdict approved exceptions now name f ∈ l /\
    forall j, f = Package j -> exists path text, map_get name installed = Some path /\ read t path text /\ JSON_parse text = Some j.
Proof.
  revert t l. induction pkgs as [|p pkgs IH]; intros t l; cbn [check_all]; [intros _ ? []%not_elem_of_nil|].
  intros (t1 & t2 & f & -> & H1 & H2)%runs_bind.
  assert (exists u r, runs (check_all parse_message pkgs installed approved exceptions now) u (inr r) /\
    l = verdict approved exceptions now p f :: r /\ exists v, t2 = u ++ v) as (u & r & Hu & -> & v & ->).
  { destruct f as [| |[]]; try (by destruct H2); apply runs_ok in H2 as (u & v & r & -> & Hu & [_ [= ->]]); eauto 10. }
  intros name [->|Hn]%elem_of_cons.
  - exists f. split; [left|]. intros j ->. revert H1. unfold read_package. destruct (map_get p installed) as [path|]; [|by intros []].
    intros (raw & w & -> & Hw)%runs_call. destruct raw as [m|text]; [by destruct Hw|].
    destruct (JSON_parse text) eqn:E; [|by destruct Hw]. destruct Hw as [_ [= ->]]. exists path, text. split_and!; [done|left|done].
  - destruct (IH _ _ Hu _ Hn) as (g & Hg & Hj). exists g. split; [by right|]. intros j Ej.
    destruct (Hj _ Ej) as (path & text & ? & ? & ?). exists path, text. split_and!; [done| |done].
    apply elem_of_app; right; apply elem_of_app; by left.
Qed.

Lemma runs_report jsonOutput policy deps checked t e :
  runs (report jsonOutput policy deps checked) t e -> e = Exited 0 -> has_failures checked.*1 = false.
Proof.
  unfold report. destruct jsonOutput.
  - intros (r & u & -> & [_ ->])%runs_call. by destruct (has_failures _).
  - intros (t1 & t2 & r & -> & _ & H)%runs_bind. destruct (has_failures _); [|done].
    apply runs_bind in H as (t3 & t4 & [] & -> & _ & [_ ->]). done.
Qed.

(** C21: The license gate: when it exits with 0, the policy file was read and is
    well-formed, the lock file was read, and every production dependency in it has a
    package file of its own, which was read, parses, and declares licenses that the
    policy approves, or has an exception that has not expired. *)
Theorem license_gate_sound jsonOutput t :
  runs (main parse_message path_join tmpdir REPO_ROOT jsonOutput) t (Exited 0) ->
  exists ptext pj policy ltext lock now,
    read t (POLICY_FILE path_join REPO_ROOT) ptext /\ JSON_parse ptext = Some pj /\ policy_of pj = inr policy /\
    read t (LOCK_FILE path_join REPO_ROOT) ltext /\ JSON_parse ltext = Some lock /\ Did (Ans:=CAns) CNow now ∈ t /\
    forall e, e ∈ lock_entries lock -> production e = true ->
      let name := str_drop 13 e.1 in
      exists path text j, package_file (NODE_MODULES_DIR path_join REPO_ROOT) name path /\ read t path text /\
        JSON_parse text = Some j /\ cleared policy now name j.
Proof.
  unfold main. intros (t1 & t2 & [m|policy] & -> & H1 & H2)%runs_bind; [by apply runs_call in H2 as (? & ? & -> & [_ ?])|].
  apply runs_ok in H1 as (t3 & t4 & p & -> & (ptext & pj & Hp & Ep & Pp)%runs_loadPolicy & (t5 & t6 & ? & -> & _ & [_ [= ->]])%runs_ok).
  apply runs_bind in H2 as (t7 & t8 & [m|[deps installed]] & -> & H2 & H3); [by apply runs_call in H3 as (? & ? & -> & [_ ?])|].
  apply runs_ok in H2 as (t9 & t10 & deps' & -> & (ltext & lock & Hl & El & Pl)%runs_dependencies & H2).
  apply runs_ok in H2 as (t11 & t12 & inst' & -> & Hw%runs_walk & [-> [= -> ->]]).
  apply runs_call in H3 as (now & u & -> & (t13 & t14 & [err|checked] & -> & H4 & H5)%runs_bind); [by destruct H5|].
  exists ptext, pj, p, ltext, lock, now. split_and!; try done; try set_solver.
  intros e He Hpr. set (name := str_drop 13 e.1). destruct (runs_check _ _ _ _ _ _ _ H4 name) as (f & Hf & Hj).
  { apply elem_of_js_sort. by apply Pl. }
  apply runs_report in H5; [|done]. destruct (verdict_clear p now name f) as (j & -> & Hc).
  { destruct (includes _ _) eqn:F; [|done]. rewrite <-H5. symmetry. apply existsb_elem.
    exists (verdict (lp_approvedLicenses p) (lp_exceptions p) now name f).1. split; [by apply list_elem_of_fmap_2|done]. }
  destruct (Hj j eq_refl) as (path & text & Hi & Hr & Et). exists path, text, j. split_and!; [by apply Hw| |done..]. set_solver.
Qed.
End gate.

(** A repository with one production dependency, under a license that is approved. *)
Definition demo_license_json : list (string * json) :=
  [("policy", JObj [("approvedLicenses", JArr [JStr "MIT"])]);
   ("lock", JObj [("packages", JObj [("", JObj []); ("node_modules/zod", JObj []); ("node_modules/vite", JObj [("dev", JBool true)])])]);
   ("zod", JObj [("version", JStr "4.0.0"); ("license", JStr "MIT OR Apache-2.0")])] ++
  map (fun p : string * json => (json_text p.2, p.2)) self_test_packages.

Definition demo_license_lib : JsLib :=
  {| JSON_parse := fun s => map_get s demo_license_json;
     Number := fun _ => NaN;
     Date_parse := fun s => map_get s [("2026-12-31", 1798675200000); ("2026-01-01", 1767225600000)] |}.

Definition demo_license_intl : Intl := {| toISOString := fun _ => EmptyString; localeCompare := str_cmp |}.

Definition demo_license_file (path : string) : result string string :=
  match map_get path ([("/repo/policies/license-policy.json", "policy"); ("/repo/package-lock.json", "lock");
                       ("/repo/node_modules/zod/package.json", "zod")] ++
                      map (fun p : string * json => ("/tmp/t/node_modules/" +:+ p.1 +:+ "/package.json", json_text p.2)) self_test_packages) with
  | Some text => inr text
  | None => inl "no such file"
  end.

Definition demo_license_answers (t : trace CAns) (e : COp) : CAns e :=
  match e with
  | CRead path => demo_license_file path
  | CExists _ => true
  | CReadDir dir =>
      inr (map (fun n => mkDirEntry n true) (if String.eqb dir "/repo/node_modules" then ["zod"; "vite"; ".bin"] else self_test_packages.*1))
  | CMkdtemp _ => inr "/tmp/t"
  | CMkdir _ | CWrite _ _ | CRm _ => inr tt
  | CNow => 1780272000000
  | CAudit => mkAuditRun None EmptyString EmptyString
  | COut _ | CErr _ => tt
  end.

Lemma license_gate_sound_witness :
  let run := answer demo_license_answers [] (main (js:=demo_license_lib) (intl:=demo_license_intl) (fun _ => EmptyString) (join "/") "/tmp" "/repo" false) in
  run.2 = Exited 0 /\ exists ptext, Did (Ans:=CAns) (CRead "/repo/policies/license-policy.json") (inr ptext) ∈ run.1.
Proof.
  intros run. assert (run.2 = Exited 0) as E by (vm_compute; reflexivity). split; [exact E|].
  destruct (license_gate_sound (js:=demo_license_lib) (intl:=demo_license_intl) (fun _ => EmptyString) (join "/") "/tmp" "/repo" false run.1)
    as (ptext & _ & _ & _ & _ & _ & H & _); [|by exists ptext].
  rewrite <-E. apply answer_runs.
Defined.

(** ** Expressions of licenses, as SPDX reads them *)

(** A license, a choice, or licenses that all apply; inner expressions are in
    parentheses. *)
Inductive spdx := Id (id : string) | Any (l : list spdx) | All (l : list spdx).

Fixpoint permits (approved : list string) (e : spdx) : bool :=
  match e with
  | Id id => bool_decide (id ∈ approved)
  | Any l => existsb (permits approved) l
  | All l => forallb (permits approved) l
  end.

Fixpoint inner_text (e : spdx) : string :=
  match e with
  | Id id => id
  | Any l => "(" +:+ join " OR " (map inner_text l) +:+ ")"
  | All l => "(" +:+ join " AND " (map inner_text l) +:+ ")"
  end.

(** The outermost parentheses may be left out. *)
Definition outer_text (e : spdx) : string :=
  match e with
  | Id id => id
  | Any l => join " OR " (map inner_text l)
  | All l => join " AND " (map inner_text l)
  end.

(** An identifier: no spaces, no parentheses, and not an operator. *)
Definition license_id (s : string) : bool :=
  negb (String.eqb s EmptyString) && forallb (fun a => negb (is_space a || Ascii.eqb a "(" || Ascii.eqb a ")")) (String.list_ascii_of_string s) &&
  negb (String.eqb s "OR") && negb (String.eqb s "AND").

Definition no_space (s : string) : Prop := str_has " " s = false.

Lemma license_id_chars s : license_id s = true -> s <> EmptyString /\ str_all (fun a => negb (is_space a || Ascii.eqb a "(" || Ascii.eqb a ")")) s = true /\ s <> "OR" /\ s <> "AND".
Proof.
  unfold license_id. rewrite !andb_true_iff, !negb_true_iff, !String.eqb_neq. tauto.
Qed.

Lemma chars_no_space s : str_all (fun a => negb (is_space a || Ascii.eqb a "(" || Ascii.eqb a ")")) s = true -> no_space s.
Proof.
  unfold no_space, str_all. induction s as [|a s IH]; [done|]. cbn. intros [Ha Hs]%andb_true_iff. rewrite (IH Hs), orb_false_r.
  apply Ascii.eqb_neq. intros ->. done.
Qed.

(** *** Splitting *)

Lemma split_from_some pat n s : exists w ws, split_from pat n s = w :: ws.
Proof.
  revert n. induction s as [|a s IH]; intros [|n]; cbn [split_from]; eauto. destruct (starts_with _ _); [eauto|].
  destruct (IH 0%nat) as (w & ws & ->). eauto.
Qed.

Lemma no_space_cons a s : no_space (String a s) <-> a <> " "%char /\ no_space s.
Proof. unfold no_space. cbn. rewrite orb_false_iff, Ascii.eqb_neq. done. Qed.

Lemma split_from_word sep s rest w ws :
  no_space s -> split_from (String " " sep) 0 rest = w :: ws -> split_from (String " " sep) 0 (s +:+ rest) = (s +:+ w) :: ws.
Proof.
  intros Hs Hr. induction s as [|a s IH]; [done|]. apply no_space_cons in Hs as [Ha Hs]. rewrite str_app_cons. cbn [split_from].
  unfold starts_with. rewrite prefix_cons. replace (Ascii.eqb " " a) with false by (symmetry; apply Ascii.eqb_neq; congruence).
  cbn. by rewrite IH.
Qed.

Lemma split_from_skip pat p s : split_from pat (String.length p) (p +:+ s) = split_from pat 0 s.
Proof. induction p as [|a p IH]; [done|]. exact IH. Qed.

Lemma split_text_app sep s rest :
  no_space s -> split_text (String " " sep) (s +:+ (String " " sep +:+ rest)) = s :: split_text (String " " sep) rest.
Proof.
  intros Hs. unfold split_text. rewrite (split_from_word sep s _ EmptyString (split_from (String " " sep) 0 rest)); [by rewrite str_app_nil_r|done|].
  cbn [split_from]. pose proof (starts_with_app (String " " sep) rest) as E. rewrite str_app_cons in *. cbn [split_from]. rewrite E.
  f_equal. replace (String.length (String " " sep) - 1)%nat with (String.length sep) by (cbn; lia). apply split_from_skip.
Qed.

Lemma join_cons2 sep a b l : join sep (a :: b :: l) = a +:+ (sep +:+ join sep (b :: l)).
Proof. done. Qed.

Lemma split_text_join sep l : l <> [] -> Forall no_space l -> split_text (String " " sep) (join (String " " sep) l) = l.
Proof.
  intros Hl H. destruct l as [|a l]; [done|]. clear Hl. revert a H. induction l as [|b l IH]; intros a H.
  - cbn [join]. unfold split_text. rewrite <-(str_app_nil_r a) at 1. rewrite (split_from_word sep a EmptyString EmptyString []); [|by inversion H|done].
    by rewrite str_app_nil_r.
  - inversion H as [|? ? Ha Hl]; subst. rewrite join_cons2, split_text_app by done. by rewrite IH.
Qed.

(** *** Searching for an operator *)

Lemma includes_word p s rest : no_space s -> includes (String " " p) (s +:+ rest) = includes (String " " p) rest.
Proof.
  intros Hs. induction s as [|a s IH]; [done|]. apply no_space_cons in Hs as [Ha Hs]. rewrite str_app_cons. cbn [includes].
  unfold starts_with. rewrite prefix_cons. replace (Ascii.eqb " " a) with false by (symmetry; apply Ascii.eqb_neq; congruence).
  by rewrite IH.
Qed.

Lemma or_word s rest : no_space s -> s <> "OR" -> String.prefix "OR " (s +:+ String " " rest) = false /\ String.prefix "OR " s = false.
Proof.
  intros Hs Ho. destruct s as [|a [|b [|c s]]]; rewrite ?str_app_cons, ?str_app_nil_l, ?prefix_cons; [done| | |].
  - destruct (Ascii.eqb "O" a); done.
  - destruct (Ascii.eqb "O" a) eqn:E1, (Ascii.eqb "R" b) eqn:E2; try done. apply Ascii.eqb_eq in E1 as <-. by apply Ascii.eqb_eq in E2 as <-.
  - rewrite !no_space_cons in Hs. destruct Hs as (_ & _ & Hc & _).
    replace (Ascii.eqb " " c) with false by (symmetry; apply Ascii.eqb_neq; congruence). by rewrite !andb_false_r.
Qed.

Lemma no_or_in_and l : Forall (fun s => no_space s /\ s <> "OR") l -> includes " OR " (join " AND " l) = false.
Proof.
  intros H. assert (forall s, no_space s -> includes " OR " s = false) as Hw.
  { intros s Hs. rewrite <-(str_app_nil_r s), includes_word by done. done. }
  destruct l as [|a l]; [done|]. inversion H as [|? ? [Ha _] Hl]; subst. clear H. revert a Ha. induction l as [|b l IH]; intros a Ha; [by apply Hw|].
  inversion Hl as [|? ? [Hb Ho] Hl']; subst. rewrite join_cons2, includes_word by done.
  assert (String.prefix "OR " (join " AND " (b :: l)) = false) as Hp.
  { destruct l as [|c l]; [by apply (or_word b EmptyString)|]. rewrite join_cons2. by apply (or_word b). }
  specialize (IH Hl' b Hb). change (includes " OR " (" AND " +:+ join " AND " (b :: l))) with
    (includes " OR " (String " " (join " AND " (b :: l)))).
  cbn [includes]. rewrite IH. unfold starts_with. rewrite prefix_cons, Hp. done.
Qed.

(** *** The ends of a text: what [trim] and the parentheses look at *)

Definition word_char (a : ascii) : bool := negb (is_space a || Ascii.eqb a "(" || Ascii.eqb a ")").

Definition edges (s : string) : Prop :=
  (exists a m, s = String a m /\ word_char a = true) /\ (exists m b, s = m +:+ str1 b /\ word_char b = true).

Lemma word_char_spec a : word_char a = true -> is_space a = false /\ Ascii.eqb a "(" = false /\ Ascii.eqb a ")" = false.
Proof. unfold word_char. rewrite negb_true_iff, !orb_false_iff. tauto. Qed.

Lemma trim_edges s : edges s -> trim s = s.
Proof.
  intros [(a & m & -> & (Ha & _ & _)%word_char_spec) (m' & b & E & (Hb & _ & _)%word_char_spec)]. unfold trim. cbn [trim_start]. rewrite Ha, E.
  clear -Hb. induction m' as [|c m' IH]; [rewrite str_app_nil_l; cbn [trim_end str1]; by rewrite Hb|]. rewrite str_app_cons. cbn [trim_end]. rewrite IH. by destruct m'.
Qed.

Lemma ends_with_last c m b : ends_with c (m +:+ str1 b) = Ascii.eqb b c.
Proof. induction m as [|a m IH]; [done|]. rewrite str_app_cons, <-IH. cbn [ends_with]. by destruct m. Qed.

Lemma take_app s t : str_take (String.length s) (s +:+ t) = s.
Proof. unfold str_take. induction s as [|a s IH]; [by destruct t|]. rewrite str_app_cons. cbn. by rewrite IH. Qed.

Lemma strip_edges s : edges s -> strip_parens s = s.
Proof.
  intros [(a & m & -> & (_ & Ha & _)%word_char_spec) (m' & b & E & (_ & _ & Hb)%word_char_spec)]. unfold strip_parens. rewrite Ha.
  by rewrite E, ends_with_last, Hb.
Qed.

Lemma strip_wrapped s : strip_parens ("(" +:+ (s +:+ ")")) = s.
Proof.
  assert (ends_with ")" (s +:+ ")") = true) as E by apply (ends_with_last ")" s ")").
  change (strip_parens ("(" +:+ (s +:+ ")"))) with
    (if ends_with ")" (s +:+ ")") then str_take (String.length (s +:+ ")") - 1) (s +:+ ")") else s +:+ ")"). rewrite E.
  replace (String.length (s +:+ ")") - 1)%nat with (String.length s); [apply take_app|].
  enough (String.length (s +:+ ")") = S (String.length s)) by lia. clear. induction s as [|a s IH]; [done|]. exact (f_equal S IH).
Qed.

Lemma strip_open s : edges s -> strip_parens (String "(" s) = s.
Proof.
  intros [_ (m & b & -> & (_ & _ & Hb)%word_char_spec)]. unfold strip_parens. cbn [Ascii.eqb Bool.eqb]. by rewrite ends_with_last, Hb.
Qed.

Lemma id_edges s : license_id s = true -> edges s.
Proof.
  intros (Hn & Hs & _)%license_id_chars. change (str_all word_char s = true) in Hs. split.
  - destruct s as [|a m]; [done|]. apply andb_true_iff in Hs as [Ha _]. by exists a, m.
  - revert Hs. induction s as [|a s IH]; [done|]. intros [Ha Hs]%andb_true_iff. destruct s as [|b s]; [by exists EmptyString, a|].
    destruct (IH ltac:(done) Hs) as (m & c & E & Hc). exists (String a m), c. by rewrite E.
Qed.

Lemma edges_app s x t : edges s -> edges t -> edges (s +:+ (x +:+ t)).
Proof.
  intros [(a & m & -> & Ha) _] [_ (m' & b & -> & Hb)]. split.
  - by exists a, (m +:+ (x +:+ (m' +:+ str1 b))).
  - exists (String a m +:+ (x +:+ m')), b. by rewrite !str_app_assoc.
Qed.

Lemma join_edges sep l : l <> [] -> Forall edges l -> edges (join sep l).
Proof.
  intros Hl H. destruct l as [|a l]; [done|]. clear Hl. revert a H.
  induction l as [|b l IH]; intros a H; inversion H; subst; [done|]. rewrite join_cons2. by apply edges_app; [|apply IH].
Qed.

(** *** Flat expressions *)

Lemma parts_ids l : Forall (fun s => license_id s = true) l -> map (fun p => strip_parens (trim p)) l = l.
Proof.
  induction 1 as [|a l Ha _ IH]; [done|]. cbn. rewrite IH. by rewrite trim_edges, strip_edges by by apply id_edges.
Qed.

Lemma license_parts_join sep l : l <> [] -> Forall (fun s => license_id s = true) l -> license_parts (String " " sep) (join (String " " sep) l) = l.
Proof.
  intros Hl H. unfold license_parts. rewrite split_text_join; [by apply parts_ids|done|].
  eapply Forall_impl; [exact H|]. intros s (_ & Hs & _)%license_id_chars. by apply chars_no_space.
Qed.

(** The text of a flat expression, with or without its parentheses. *)
Definition written (s t : string) : Prop := t = s \/ t = "(" +:+ (s +:+ ")").

Lemma written_clean s t : edges s -> written s t -> trim (strip_parens t) = s.
Proof. intros Hs [-> | ->]; [by rewrite strip_edges, trim_edges|by rewrite strip_wrapped, trim_edges]. Qed.

Lemma permits_any approved ids : permits approved (Any (map Id ids)) = existsb (fun s => bool_decide (s ∈ approved)) ids.
Proof. cbn. induction ids as [|a ids IH]; [done|]. cbn. by rewrite IH. Qed.

Lemma permits_all approved ids : permits approved (All (map Id ids)) = forallb (fun s => bool_decide (s ∈ approved)) ids.
Proof. cbn. induction ids as [|a ids IH]; [done|]. cbn. by rewrite IH. Qed.

(** Expressions of licenses: a list of license identifiers joined by one operator, with
    or without parentheses, is approved exactly when SPDX's reading of it is permitted
    (or when the policy lists the whole text); but grouping is not read: an expression
    that SPDX does not permit is approved. *)
Theorem license_expressions approved :
  (forall ids t, (2 <= length ids)%nat -> Forall (fun s => license_id s = true) ids -> t ∉ approved ->
     (written (outer_text (Any (map Id ids))) t -> isLicenseApproved approved t = permits approved (Any (map Id ids))) /\
     (written (outer_text (All (map Id ids))) t -> isLicenseApproved approved t = permits approved (All (map Id ids)))) /\
  (forall a b, license_id a = true -> license_id b = true -> a ∈ approved -> b ∉ approved ->
     let e := All [Any [Id a; Id b]; Id b] in
     isLicenseApproved approved (outer_text e) = true /\ permits approved e = false).
Proof.
  split.
  - intros ids t Hl Hids Ht. assert (ids <> []) as Hn by (intros ->; cbn in Hl; lia).
    assert (forall sep, edges (join sep ids)) as He.
    { intros sep. apply join_edges; [done|]. eapply Forall_impl; [exact Hids|]. apply id_edges. }
    cbn [outer_text]. rewrite !map_map, map_id. unfold isLicenseApproved. rewrite bool_decide_eq_false_2 by done.
    split; intros Hw; rewrite (written_clean _ t (He _) Hw).
    + destruct ids as [|a [|b l]]; [cbn in Hl; lia..|]. rewrite join_cons2, includes_middle, <-join_cons2, license_parts_join by done.
      by rewrite permits_any.
    + rewrite no_or_in_and.
      * destruct ids as [|a [|b l]]; [cbn in Hl; lia..|]. rewrite join_cons2, includes_middle, <-join_cons2, license_parts_join by done.
        by rewrite permits_all.
      * eapply Forall_impl; [exact Hids|]. intros s (_ & Hs & Ho & _)%license_id_chars. split; [by apply chars_no_space|done].
  - intros a b Ia Ib Ha Hb e. split; [|by cbn; rewrite (bool_decide_eq_false_2 (b ∈ approved)) by done; rewrite andb_false_r].
    unfold isLicenseApproved. case_bool_decide; [done|]. set (rest := b +:+ (") AND " +:+ b)).
    assert (trim (strip_parens (outer_text e)) = a +:+ (" OR " +:+ rest)) as ->.
    { assert (edges (a +:+ (" OR " +:+ rest))) as He by (by repeat (apply edges_app || apply id_edges)).
      replace (outer_text e) with (String "(" (a +:+ (" OR " +:+ rest))); [by rewrite strip_open, trim_edges|].
      unfold e, rest. cbn [outer_text map inner_text join]. by rewrite !str_app_assoc. }
    rewrite includes_middle. unfold license_parts. rewrite split_text_app; [|by apply chars_no_space, license_id_chars].
    cbn [map existsb]. rewrite trim_edges, strip_edges by (by apply id_edges). by rewrite bool_decide_eq_true_2.
Qed.

Lemma license_expressions_witness :
  isLicenseApproved ["MIT"] "(MIT OR GPL-3.0)" = true /\ isLicenseApproved ["MIT"] "MIT AND GPL-3.0" = false /\
  isLicenseApproved ["MIT"] "(MIT OR GPL-3.0) AND GPL-3.0" = true.
Proof.
  destruct (license_expressions ["MIT"]) as [flat grouped]. assert ("GPL-3.0" ∉ ["MIT"]) as Hg by (apply (bool_decide_unpack _); reflexivity).
  split_and!.
  - apply (flat ["MIT"; "GPL-3.0"]); [cbn; lia|by repeat constructor|apply (bool_decide_unpack _); reflexivity|by right].
  - apply (flat ["MIT"; "GPL-3.0"]); [cbn; lia|by repeat constructor|apply (bool_decide_unpack _); reflexivity|by left].
  - apply (grouped "MIT" "GPL-3.0"); [done|done|by left|done].
Defined.
