(* ===== verification/Vulnerabilities.v ===== *)
(** * The vulnerability gate: [src/manager/scripts/ci/check-dependency-vulnerabilities.mjs]

    [npm audit] reports the known vulnerabilities of the production dependencies; every
    high or critical finding must have a reviewed exception that has not expired. *)
From S2P Require Import Prelude JsBase JsRegex JsText JsJson JsLib Effects Ci.
From Stdlib Require Import Ascii.
From Stdlib Require String.
Open Scope Z_scope.
Open Scope prog_scope.

(** ** Data *)

Record VulnException := mkVulnException {
  ve_advisoryId : string; ve_package : string; ve_reason : string; ve_reviewedBy : string; ve_expiresAt : string;
}.

(** [failureReason] and [exception] are set when the finding is classified. *)
Record Finding := mkFinding {
  fi_package : string; fi_severity : string; fi_title : json; fi_url : json; fi_advisoryIds : list string; fi_range : json;
  fi_failureReason : option string; fi_exception : option VulnException;
}.

Record Evaluation := mkEvaluation {
  ev_ok : bool;
  ev_prodDepsCount : json;
  ev_vulnCounts : json;
  ev_unsuppressedFindings : list Finding;
  ev_suppressedFindings : list Finding;
  ev_expiredExceptions : list string;  (** their reasons *)
}.

(** ** Reading the report *)

(** [a || d] *)
Definition or_else (a : option json) (d : json) : json :=
  match a with Some v => if truthy a then v else d | None => d end.

(** [/GHSA-[a-z0-9-]+/i] *)
Definition letter_ci (c : ascii) : re := Chr (fun a => Ascii.eqb (ascii_lower a) c).
Definition ghsa_re : re :=
  Cat (letter_ci "g") (Cat (letter_ci "h") (Cat (letter_ci "s") (Cat (letter_ci "a") (Cat (Chr (Ascii.eqb "-"))
    (Plus (Chr (fun a => is_alpha a || is_digit a || Ascii.eqb a "-"))))))).

Definition extractAdvisoryIds (viaItem : json) : list string :=
  if negb (object_like viaItem) then []
  else
    match field viaItem "url" with Some (JStr url) => option_list (first_match ghsa_re url) | _ => [] end ++
    match field viaItem "source" with None | Some JNull => [] | Some source => [String_of source] end ++
    match field viaItem "id" with Some (JStr s) => [s] | Some (JNum n) => [pretty n] | _ => [] end.

(** [Object.entries(v)] of what was parsed: indices for arrays and texts. *)
Definition entries_of (v : json) : list (string * json) :=
  match v with
  | JObj l => l
  | JArr l => imap (fun i x => (pretty i, x)) l
  | JStr s => imap (fun i a => (pretty i, JStr (str1 a))) (String.list_ascii_of_string s)
  | _ => []
  end.

(** [(a || d).toLowerCase()]: throws on what is not a text. *)
Definition severity_of (a : option json) (d : string) : result string string :=
  match or_else a (JStr d) with
  | JStr s => inr (to_lower s)
  | _ => inl "toLowerCase is not a function"
  end.

Definition failing_severity (s : string) : bool := String.eqb s "high" || String.eqb s "critical".

Definition advisory_finding (pkgName : string) (vuln : json) (severity : string) (adv : json) : result string Finding :=
  (let! s := severity_of (field adv "severity") severity in
   inr (mkFinding pkgName s (or_else (field adv "title") (or_else (field vuln "name") (JStr pkgName)))
     (or_else (field adv "url") (JStr EmptyString)) (extractAdvisoryIds adv)
     (or_else (field adv "range") (or_else (field vuln "range") (JStr EmptyString))) None None))%result.

(** [vias.join(', ')] *)
Definition join_vias (vias : list json) : string :=
  join ", " (map (fun v => match v with JNull => EmptyString | _ => String_of v end) vias).

(** [findingsForPkg] of one entry of the report. *)
Definition findings_of (entry : string * json) : result string (list Finding) :=
  let (pkgName, vuln) := entry in
  match vuln with
  | JNull => inl "Cannot read properties of null (reading 'severity')"
  | _ =>
      (let! severity := severity_of (field vuln "severity") EmptyString in
       let vias := match field vuln "via" with Some (JArr l) => l | _ => [] end in
       match List.filter object_like vias with
       | [] =>
           inr [mkFinding pkgName severity (JStr ("Vulnerable dependency in chain (" +:+ join_vias vias +:+ ")")) (JStr EmptyString)
                  [] (or_else (field vuln "range") (JStr EmptyString)) None None]
       | advisoryObjects => rmap (advisory_finding pkgName vuln severity) advisoryObjects
       end)%result
  end.

(** ** Exceptions *)

Definition covers (exc : VulnException) (finding : Finding) : bool :=
  String.eqb (ve_package exc) (fi_package finding) &&
  (String.eqb (ve_advisoryId exc) "*" ||
   existsb (fun id => String.eqb (to_lower id) (to_lower (ve_advisoryId exc))) (fi_advisoryIds finding)).

Definition with_reason (reason : string) (f : Finding) : Finding :=
  mkFinding (fi_package f) (fi_severity f) (fi_title f) (fi_url f) (fi_advisoryIds f) (fi_range f) (Some reason) (fi_exception f).

Definition with_exception (exc : VulnException) (f : Finding) : Finding :=
  mkFinding (fi_package f) (fi_severity f) (fi_title f) (fi_url f) (fi_advisoryIds f) (fi_range f) (fi_failureReason f) (Some exc).

Section audit.
Context `{js : JsLib}.

(** What becomes of a finding: not failing, unsuppressed, or suppressed. *)
Definition classify (exceptions : list VulnException) (now : Z) (finding : Finding) : option (Finding + Finding) :=
  if negb (failing_severity (fi_severity finding)) then None
  else
    match List.find (fun exc => covers exc finding) exceptions with
    | Some exc =>
        if expired now (ve_expiresAt exc) then Some (inl (with_reason ("Exception EXPIRED on " +:+ ve_expiresAt exc) finding))
        else Some (inr (with_exception exc finding))
    | None => Some (inl finding)
    end.

Definition unsuppressed (x : option (Finding + Finding)) : list Finding := match x with Some (inl f) => [f] | _ => [] end.
Definition suppressed (x : option (Finding + Finding)) : list Finding := match x with Some (inr f) => [f] | _ => [] end.

Definition expired_reason (exc : VulnException) : string :=
  "Policy exception for " +:+ ve_package exc +:+ " (" +:+ ve_advisoryId exc +:+ ") EXPIRED on " +:+ ve_expiresAt exc.

Definition no_counts : json := JObj (map (fun k => (k, JNum 0)) ["info"; "low"; "moderate"; "high"; "critical"; "total"]).

(** The findings of the whole report, in order; a malformed entry throws. *)
Definition all_findings (report : json) : result string (list Finding) :=
  (let! ls := rmap findings_of (entries_of (or_else (field report "vulnerabilities") (JObj []))) in inr (concat ls))%result.

Definition evaluateAudit (report : json) (exceptions : list VulnException) (now : Z) : result string Evaluation :=
  match report with
  | JNull => inl "Cannot read properties of null (reading 'metadata')"
  | _ =>
      let meta := or_else (field report "metadata") (JObj []) in
      (let! findings := all_findings report in
       let classified := map (classify exceptions now) findings in
       let expiredExceptions := map expired_reason (List.filter (fun exc => expired now (ve_expiresAt exc)) exceptions) in
       let unsuppressedFindings := flat_map unsuppressed classified in
       inr (mkEvaluation
              (match unsuppressedFindings, expiredExceptions with [], [] => true | _, _ => false end)
              (nullish (ofield (field meta "dependencies") "prod") (JStr "unknown"))
              (or_else (field meta "vulnerabilities") no_counts)
              unsuppressedFindings (flat_map suppressed classified) expiredExceptions))%result
  end.

(** ** The exceptions file *)

Definition vuln_exception_of (idx : nat) (entry : json) : result string VulnException :=
  let at_index := "exception at index " +:+ pretty idx in
  if negb (object_like entry) then inl ("exception entry at index " +:+ pretty idx +:+ " must be an object")
  else
    match nonblank (field entry "advisoryId"), nonblank (field entry "package"), nonblank (field entry "reason"),
          nonblank (field entry "reviewedBy"), dated (field entry "expiresAt") with
    | None, _, _, _, _ => inl (at_index +:+ " missing non-empty 'advisoryId'")
    | _, None, _, _, _ => inl (at_index +:+ " missing non-empty 'package'")
    | _, _, None, _, _ => inl (at_index +:+ " missing non-empty 'reason'")
    | _, _, _, None, _ => inl (at_index +:+ " missing non-empty 'reviewedBy'")
    | _, Some pkg, _, _, None =>
        inl (at_index +:+ " for " +:+ pkg +:+ " missing valid 'expiresAt' date string (e.g. YYYY-MM-DD)")
    | Some advisoryId, Some pkg, Some reason, Some reviewedBy, Some expiresAt =>
        inr (mkVulnException advisoryId pkg reason reviewedBy expiresAt)
    end.

Definition exceptions_of (data : json) : result string (list VulnException) :=
  match data with
  | JArr l => rmap (fun e : nat * json => vuln_exception_of e.1 e.2) (imap pair l)
  | _ => inl "vulnerability exceptions file must contain a JSON array"
  end.

(** The message of a [SyntaxError] of [JSON.parse]; [EXCEPTIONS_FILE]. *)
Context (parse_message : string -> string) (EXCEPTIONS_FILE : string).

Definition loadExceptions (filePath : string) : CProg (list VulnException) :=
  await raw := cdo (CRead filePath) in
  match raw with
  | inl m => Ret (inl ("cannot read vulnerability exceptions file at " +:+ filePath +:+ ": " +:+ m))
  | inr text =>
      match JSON_parse text with
      | None => Ret (inl ("cannot parse vulnerability exceptions at " +:+ filePath +:+ " as JSON: " +:+ parse_message text))
      | Some data => Ret (exceptions_of data)
      end
  end.

(** ** The self-test *)

(** A report of at most one vulnerability, with the counts of the audit. *)
Definition audit_report (vulnerabilities : list (string * json)) (moderate high : Z) : json :=
  JObj [("auditReportVersion", JNum 2); ("vulnerabilities", JObj vulnerabilities);
        ("metadata", JObj [
          ("vulnerabilities", JObj [("info", JNum 0); ("low", JNum 0); ("moderate", JNum moderate); ("high", JNum high);
                                    ("critical", JNum 0); ("total", JNum (moderate + high))]);
          ("dependencies", JObj [("prod", JNum 40)])])].

Definition vulnerability (name severity : string) (via : json) : string * json :=
  (name, JObj [("name", JStr name); ("severity", JStr severity); ("via", JArr [via])]).

Definition cleanReport : json := audit_report [] 0 0.
Definition moderateReport : json :=
  audit_report [vulnerability "mod-pkg" "moderate"
    (JObj [("source", JNum 101); ("title", JStr "Mod issue"); ("severity", JStr "moderate")])] 1 0.
Definition highReport : json :=
  audit_report [vulnerability "bad-pkg" "high"
    (JObj [("source", JNum 999); ("title", JStr "Critical RCE");
           ("url", JStr "https://github.com/advisories/GHSA-1234-5678-90ab"); ("severity", JStr "high")])] 0 1.
Definition chainOnlyReport : json := audit_report [vulnerability "chain-pkg" "high" (JStr "some-other-dep")] 0 1.

Definition activeExceptions : list VulnException :=
  [mkVulnException "GHSA-1234-5678-90ab" "bad-pkg" "Sandbox isolated, not exploitable" "sec-lead" "2026-12-31"].
Definition expiredExceptions : list VulnException :=
  [mkVulnException "GHSA-1234-5678-90ab" "bad-pkg" "Temporary waiver" "sec-lead" "2026-01-01"].
Definition unrelatedExceptions : list VulnException :=
  [mkVulnException "GHSA-unrelated-0000" "chain-pkg" "Old waiver for a different advisory" "sec-lead" "2027-01-01"].
Definition explicitWildcardExceptions : list VulnException :=
  [mkVulnException "*" "chain-pkg" "All findings on this internal fork reviewed and accepted" "sec-lead" "2027-01-01"].

(** [new Date('2026-06-01T00:00:00Z')] *)
Definition self_test_instant : Z := 1780272000000.

(** One case: the evaluation of a report must pass a test. *)
Definition self_test_case (report : json) (exceptions : list VulnException) (passes : Evaluation -> bool) (message : string)
    : result string unit :=
  (let! r := evaluateAudit report exceptions self_test_instant in
   if passes r then inr tt else inl ("self-test failed: " +:+ message))%result.

Definition count {A} (l : list A) (n : nat) : bool := Nat.eqb (length l) n.

Definition selfTest : result string unit :=
  (let! _ := self_test_case cleanReport [] (fun r => ev_ok r && count (ev_unsuppressedFindings r) 0)
     "clean report should pass" in
   let! _ := self_test_case moderateReport [] (fun r => ev_ok r && count (ev_unsuppressedFindings r) 0)
     "moderate vulnerability should not fail" in
   let! _ := self_test_case highReport [] (fun r => negb (ev_ok r) && count (ev_unsuppressedFindings r) 1)
     "high vulnerability without exception must fail" in
   let! _ := self_test_case highReport activeExceptions
     (fun r => ev_ok r && count (ev_suppressedFindings r) 1 && count (ev_unsuppressedFindings r) 0)
     "active reviewed exception must pass" in
   let! _ := self_test_case highReport expiredExceptions
     (fun r => negb (ev_ok r) && negb (count (ev_unsuppressedFindings r) 0) && negb (count (ev_expiredExceptions r) 0))
     "expired exception must fail" in
   let! _ := self_test_case chainOnlyReport unrelatedExceptions (fun r => negb (ev_ok r) && count (ev_unsuppressedFindings r) 1)
     ("a chain-only finding with no advisory id must not be silently " +:+
      "suppressed by an unrelated exception for the same package (empty advisoryIds must " +:+ "never wildcard-match)") in
   self_test_case chainOnlyReport explicitWildcardExceptions (fun r => ev_ok r && count (ev_suppressedFindings r) 1)
     "an explicit '*' exception must suppress a chain-only finding")%result.

(** ** The command *)

Definition finding_line (f : Finding) : string :=
  let advStr := join ", " (fi_advisoryIds f) in
  "- [" +:+ to_upper (fi_severity f) +:+ "] " +:+ fi_package f +:+ " (" +:+
  (if String.eqb advStr EmptyString then "N/A" else advStr) +:+ "): " +:+ String_of (fi_title f).

Definition suppressed_lines (f : Finding) : list string :=
  [finding_line f] ++
  match fi_exception f with
  | Some exc => ["  Suppressed by " +:+ ve_reviewedBy exc +:+ " until " +:+ ve_expiresAt exc +:+ ": " +:+ ve_reason exc]
  | None => []
  end.

Definition unsuppressed_lines (f : Finding) : list string :=
  [finding_line f] ++ (if truthy (Some (fi_url f)) then ["  URL: " +:+ String_of (fi_url f)] else []) ++
  match fi_failureReason f with Some r => ["  Reason: " +:+ r] | None => [] end.

(** A heading and its lines, when there are any. *)
Definition headed (heading : string) (lines : list string) : list string :=
  match lines with [] => [] | _ => (lf +:+ heading) :: lines end.

Definition counts_line (vulnCounts : json) : string :=
  let n k := String_of (or_else (field vulnCounts k) (JNum 0)) in
  "Vulnerabilities: critical=" +:+ n "critical" +:+ ", high=" +:+ n "high" +:+ ", moderate=" +:+ n "moderate" +:+
  ", low=" +:+ n "low" +:+ ", info=" +:+ n "info".

Definition print_evaluation (r : Evaluation) : prog CAns Ended :=
  await _ := out_lines [lf +:+ "=== Production Dependency Vulnerability Scan ===" +:+ lf;
                        "Scanned " +:+ String_of (ev_prodDepsCount r) +:+ " production dependencies."; counts_line (ev_vulnCounts r)] in
  await _ := err_lines (headed "[EXPIRED EXCEPTIONS]" (map (fun reason => "- " +:+ reason) (ev_expiredExceptions r))) in
  await _ := out_lines (headed "[SUPPRESSED FINDINGS]" (flat_map suppressed_lines (ev_suppressedFindings r))) in
  await _ := err_lines (headed "[FAILING FINDINGS - HIGH/CRITICAL]" (flat_map unsuppressed_lines (ev_unsuppressedFindings r))) in
  await _ := cdo (COut EmptyString) in
  if negb (ev_ok r) then
    await _ := err_lines ["Vulnerability check FAILED: Unsuppressed high/critical vulnerabilities or expired exceptions found.";
                          "To suppress reviewed findings, configure policies/vulnerability-exceptions.json"] in
    Ret (Exited 1)
  else
    await _ := cdo (COut "Dependency vulnerability check: PASS (0 unsuppressed high/critical vulnerabilities)") in
    Ret (Exited 0).

(** [if (s) console.error(s)] *)
Definition err_if (s : string) : list string := if String.eqb s EmptyString then [] else [s].

Definition not_json (audit : AuditRun) : prog CAns Ended :=
  await _ := err_lines (["ERROR: npm audit output is not valid JSON. Network or registry error?"] ++ err_if (ar_stderr audit) ++
                        err_if (str_take 500 (ar_stdout audit))) in
  Ret (Exited 1).

Definition main : prog CAns Ended :=
  match selfTest with
  | inl m => fail_with ("check-dependency-vulnerabilities self-test FAIL: " +:+ m)
  | inr _ =>
      await exceptions := loadExceptions EXCEPTIONS_FILE in
      match exceptions with
      | inl m => fail_with ("vulnerability exceptions configuration FAIL: " +:+ m)
      | inr exceptions =>
          await _ := cdo (COut "Running npm audit for production dependencies (--omit=dev)...") in
          await audit := cdo CAudit in
          match ar_error audit with
          | Some m => fail_with ("ERROR: Failed to run npm audit: " +:+ m)
          | None =>
              match JSON_parse (ar_stdout audit) with
              | None => not_json audit
              | Some report =>
                  await now := cdo CNow in
                  match evaluateAudit report exceptions now with
                  | inl _ => Ret Crashed
                  | inr r => print_evaluation r
                  end
              end
          end
      end
  end.
End audit.

(** ** What passes the vulnerability gate

    The theorem of [Vulnerabilities]: the gate exits with 0 exactly when no exception has
    expired and every high or critical finding of the report is covered by one. *)
(** ** What a report reports *)

Definition vulnerabilities_of (report : json) : list (string * json) :=
  entries_of (or_else (field report "vulnerabilities") (JObj [])).

Definition vias_of (vuln : json) : list json := match field vuln "via" with Some (JArr l) => l | _ => [] end.

(** What an entry reports, how severe and with which identifiers: one finding per
    advisory, or one for the package when it is only vulnerable through others. *)
Inductive entry_reports (vuln : json) : string -> list string -> Prop :=
| reports_advisory adv s0 s :
    severity_of (field vuln "severity") EmptyString = inr s0 ->
    adv ∈ vias_of vuln -> object_like adv = true -> severity_of (field adv "severity") s0 = inr s ->
    entry_reports vuln s (extractAdvisoryIds adv)
| reports_chain s :
    severity_of (field vuln "severity") EmptyString = inr s -> (forall adv, adv ∈ vias_of vuln -> object_like adv = false) ->
    entry_reports vuln s [].

Definition reported (report : json) (pkg severity : string) (ids : list string) : Prop :=
  exists vuln, (pkg, vuln) ∈ vulnerabilities_of report /\ entry_reports vuln severity ids.

(** An exception for the package: for every finding, or for one of the identifiers. *)
Definition excused (exceptions : list VulnException) (pkg : string) (ids : list string) : Prop :=
  exists exc, exc ∈ exceptions /\ ve_package exc = pkg /\
    (ve_advisoryId exc = "*" \/ exists id, id ∈ ids /\ to_lower id = to_lower (ve_advisoryId exc)).

Lemma rmap_elem {E A B} (f : A -> result E B) l bs b : rmap f l = inr bs -> b ∈ bs <-> exists a, a ∈ l /\ f a = inr b.
Proof.
  rewrite rmap_inr. intros H. split.
  - intros (i & Hi)%list_elem_of_lookup_1. destruct (Forall2_lookup_r _ _ _ _ _ H Hi) as (a & Ha & E0). exists a.
    split; [by eapply list_elem_of_lookup_2|done].
  - intros (a & (i & Hi)%list_elem_of_lookup_1 & E0). destruct (Forall2_lookup_l _ _ _ _ _ H Hi) as (b' & Hb & E1).
    rewrite E0 in E1. injection E1 as <-. by eapply list_elem_of_lookup_2.
Qed.

Lemma rmap_total {E A B} (f : A -> result E B) l bs : rmap f l = inr bs -> forall a, a ∈ l -> exists b, f a = inr b.
Proof.
  rewrite rmap_inr. intros H a (i & Hi)%list_elem_of_lookup_1. destruct (Forall2_lookup_l _ _ _ _ _ H Hi) as (b & _ & E0). eauto.
Qed.

Lemma advisory_finding_inr pkg vuln s0 adv f :
  advisory_finding pkg vuln s0 adv = inr f ->
  fi_package f = pkg /\ severity_of (field adv "severity") s0 = inr (fi_severity f) /\ fi_advisoryIds f = extractAdvisoryIds adv.
Proof. unfold advisory_finding. by intros (s & Hs & [= <-])%rbind_inr. Qed.

Lemma findings_entry pkg vuln l :
  findings_of (pkg, vuln) = inr l ->
  (forall f, f ∈ l -> fi_package f = pkg) /\
  forall s ids, entry_reports vuln s ids <-> exists f, f ∈ l /\ fi_severity f = s /\ fi_advisoryIds f = ids.
Proof.
  unfold findings_of. fold (vias_of vuln). intros E.
  assert (exists s0, severity_of (field vuln "severity") EmptyString = inr s0 /\
    match List.filter object_like (vias_of vuln) with
    | [] => exists f, l = [f] /\ fi_package f = pkg /\ fi_severity f = s0 /\ fi_advisoryIds f = []
    | advs => rmap (advisory_finding pkg vuln s0) advs = inr l
    end) as (s0 & Hs0 & Hl).
  { destruct vuln; try done; apply rbind_inr in E as (s0 & Hs0 & E); exists s0; (split; [exact Hs0|]);
      unfold vias_of in *; destruct (List.filter _ _); try exact E; injection E as <-; eauto. }
  clear E. assert (forall adv, adv ∈ List.filter object_like (vias_of vuln) <-> adv ∈ vias_of vuln /\ object_like adv = true) as Hadv.
  { intros adv. apply elem_of_filterb. }
  destruct (List.filter _ _) as [|a advs].
  - destruct Hl as (f & -> & Hp & Hs & Hi). split; [by intros g ->%list_elem_of_singleton|]. intros s ids. split.
    + intros [adv s1 s' Hs1 Ha Ho _|s' Hs' _].
      * by destruct (not_elem_of_nil adv (proj2 (Hadv adv) (conj Ha Ho))).
      * exists f. split_and!; [left| |done]. congruence.
    + intros (g & ->%list_elem_of_singleton & <- & <-). rewrite Hi. apply reports_chain; [congruence|].
      intros adv Ha. destruct (object_like adv) eqn:Ho; [|done]. by destruct (not_elem_of_nil adv (proj2 (Hadv adv) (conj Ha Ho))).
  - pose proof (fun f => rmap_elem _ _ _ f Hl) as Hf. split.
    + intros g (adv & _ & Hg)%Hf. by apply advisory_finding_inr in Hg as [? _].
    + intros s ids. split.
      * intros [adv s1 s' Hs1 Ha Ho Hs'|s' _ Hn].
        -- assert (s1 = s0) as -> by congruence.
           destruct (rmap_total _ _ _ Hl adv (proj2 (Hadv adv) (conj Ha Ho))) as (g & Hg). exists g. split; [apply Hf; exists adv; split; [by apply Hadv|exact Hg]|].
           apply advisory_finding_inr in Hg as (_ & Hg & ->). split; [congruence|done].
        -- assert (a ∈ vias_of vuln /\ object_like a = true) as [Ha Ho] by (apply Hadv; left). by rewrite (Hn a Ha) in Ho.
      * intros (g & (adv & Ha & (_ & Hg & Hi)%advisory_finding_inr)%Hf & <- & <-). rewrite Hi. apply Hadv in Ha as [Ha Ho].
        by eapply reports_advisory.
Qed.

(** The findings are what is reported. *)
Lemma findings_reported report findings pkg s ids :
  all_findings report = inr findings ->
  reported report pkg s ids <-> exists f, f ∈ findings /\ fi_package f = pkg /\ fi_severity f = s /\ fi_advisoryIds f = ids.
Proof.
  unfold all_findings. fold (vulnerabilities_of report). intros (ls & Hls & [= <-])%rbind_inr.
  assert (forall f, f ∈ concat ls <-> exists e l, e ∈ vulnerabilities_of report /\ findings_of e = inr l /\ f ∈ l) as Hf.
  { intros f. rewrite list_elem_of_In, in_concat. setoid_rewrite <-list_elem_of_In. setoid_rewrite (fun l => rmap_elem _ _ _ l Hls).
    split; [intros (l & (e & He & El) & Hl)|intros (e & l & He & El & Hl)]; eauto 10. }
  split.
  - intros (vuln & Hv & He). destruct (rmap_total _ _ _ Hls _ Hv) as (l & Hl). destruct (findings_entry _ _ _ Hl) as [Hp Hr].
    destruct (proj1 (Hr s ids) He) as (f & Hfl & Hs & Hi). exists f. split_and!; [apply Hf; eauto|by apply Hp|done..].
  - intros (f & ((p & vuln) & l & Hv & Hl & Hfl)%Hf & Hp & Hs & Hi). destruct (findings_entry _ _ _ Hl) as [Hpk Hr].
    exists vuln. rewrite <-Hp, (Hpk f Hfl). split; [done|]. apply Hr. eauto.
Qed.

Lemma covers_spec exc f :
  covers exc f = true <-> ve_package exc = fi_package f /\
    (ve_advisoryId exc = "*" \/ exists id, id ∈ fi_advisoryIds f /\ to_lower id = to_lower (ve_advisoryId exc)).
Proof.
  unfold covers. rewrite andb_true_iff, orb_true_iff, !String.eqb_eq, existsb_elem. setoid_rewrite String.eqb_eq. done.
Qed.

Section gate.
Context `{js : JsLib} (parse_message : string -> string) (EXCEPTIONS_FILE : string).

(** An evaluation passes exactly when no exception has expired and what is reported as
    high or critical is excused. *)
Lemma evaluation_ok report exceptions now r :
  evaluateAudit report exceptions now = inr r ->
  ev_ok r = true <->
    (forall exc, exc ∈ exceptions -> expired now (ve_expiresAt exc) = false) /\
    forall pkg s ids, reported report pkg s ids -> failing_severity s = true -> excused exceptions pkg ids.
Proof.
  intros E. assert (exists findings, all_findings report = inr findings /\
    (ev_ok r = true <-> flat_map unsuppressed (map (classify exceptions now) findings) = [] /\
      map expired_reason (List.filter (fun exc => expired now (ve_expiresAt exc)) exceptions) = [])) as (findings & Hf & ->).
  { unfold evaluateAudit in E. destruct report; try done; apply rbind_inr in E as (fs & Hf & [= <-]); exists fs; (split; [done|]);
      cbn [ev_ok]; destruct (flat_map _ _), (map expired_reason _); naive_solver. }
  assert (map expired_reason (List.filter (fun exc => expired now (ve_expiresAt exc)) exceptions) = [] <->
    forall exc, exc ∈ exceptions -> expired now (ve_expiresAt exc) = false) as ->.
  { split.
    - intros [=Hn%map_eq_nil] exc He. destruct (expired _ _) eqn:X; [|done]. exfalso. apply (not_elem_of_nil exc). rewrite <-Hn.
      by apply elem_of_filterb.
    - intros Hn. destruct (List.filter _ _) as [|x l] eqn:L; [done|]. assert (x ∈ x :: l) as Hx by left. rewrite <-L in Hx.
      apply elem_of_filterb in Hx as [Hx Hex]. by rewrite Hn in Hex. }
  rewrite flat_map_nil. setoid_rewrite (findings_reported _ _ _ _ _ Hf). split.
  - intros [Hu Hx]. split; [done|]. intros pkg s ids (f & Hfin & <- & <- & <-) Hs.
    specialize (Hu (classify exceptions now f) ltac:(by apply list_elem_of_fmap_2)).
    unfold classify in Hu. rewrite Hs in Hu. cbn [negb] in Hu. destruct (List.find _ _) as [exc|] eqn:F; [|done].
    apply find_some in F as [Fi Fc]. apply covers_spec in Fc as [Fp Fc]. exists exc. rewrite list_elem_of_In. done.
  - intros [Hx Hs]. split; [|done]. intros c (f & -> & Hfin)%list_elem_of_fmap_1. unfold classify.
    destruct (failing_severity (fi_severity f)) eqn:S; [|done]. cbn [negb].
    destruct (List.find _ _) as [exc|] eqn:F.
    + apply find_some in F as [Fi _]. rewrite Hx by by rewrite list_elem_of_In. done.
    + exfalso. destruct (Hs _ _ _ ltac:(eauto) S) as (exc & He & Hc). pose proof (find_none _ _ F exc) as Hn.
      rewrite <-list_elem_of_In in Hn. specialize (Hn He). rewrite (proj2 (covers_spec exc f) Hc) in Hn. done.
Qed.

Lemma evaluate_total report exceptions now :
  (exists r, evaluateAudit report exceptions now = inr r) <-> report <> JNull /\ exists findings, all_findings report = inr findings.
Proof.
  unfold evaluateAudit. split.
  - intros [r E]. destruct report; try done; apply rbind_inr in E as (fs & Hf & _); eauto.
  - intros [Hn [fs Hf]]. destruct report; try done; rewrite Hf; cbn [rbind]; eauto.
Qed.

Lemma runs_print r t e : runs (print_evaluation r) t e -> e = Exited 0 <-> ev_ok r = true.
Proof.
  unfold print_evaluation. do 4 (intros (? & ? & _ & -> & _ & H)%runs_bind; revert H).
  intros (? & ? & -> & H)%runs_call. destruct (ev_ok r); cbn [negb] in H.
  - by apply runs_call in H as (? & ? & -> & [_ ->]).
  - by apply runs_bind in H as (? & ? & _ & -> & _ & [_ ->]).
Qed.

Lemma runs_fail line t e : runs (fail_with line) t e -> e = Exited 1.
Proof. by intros (? & ? & -> & [_ ->])%runs_call. Qed.

(** C25: The vulnerability gate exits with 0 exactly when its self-test passes, the exceptions
    file is read and well-formed, [npm audit] ran and printed JSON that can be evaluated,
    no exception has expired, and every advisory the report gives as high or critical is
    excused by an exception for its package.  A report without vulnerabilities, as the
    one [npm audit] prints for an error of the registry, passes. *)
Theorem audit_gate_exact t e :
  runs (main parse_message EXCEPTIONS_FILE) t e ->
  e = Exited 0 <->
    selfTest = inr tt /\
    exists text data exceptions audit report findings now rest,
      t = Did (Ans:=CAns) (CRead EXCEPTIONS_FILE) (inr text) ::
          Did (Ans:=CAns) (COut "Running npm audit for production dependencies (--omit=dev)...") tt ::
          Did (Ans:=CAns) CAudit audit :: Did (Ans:=CAns) CNow now :: rest /\
      JSON_parse text = Some data /\ exceptions_of data = inr exceptions /\
      ar_error audit = None /\ JSON_parse (ar_stdout audit) = Some report /\
      report <> JNull /\ all_findings report = inr findings /\
      (forall exc, exc ∈ exceptions -> expired now (ve_expiresAt exc) = false) /\
      forall pkg s ids, reported report pkg s ids -> failing_severity s = true -> excused exceptions pkg ids.
Proof.
  unfold main. destruct selfTest as [m|[]]; [intros ->%runs_fail; split; [done|by intros [? _]]|].
  unfold loadExceptions. intros (t1 & t2 & out & -> & H1 & H2)%runs_bind. apply runs_call in H1 as (raw & u & -> & H1).
  split.
  - intros ->. split; [done|]. destruct out as [m|exceptions]; [by apply runs_fail in H2|].
    destruct raw as [m|text]; [by destruct H1|]. destruct (JSON_parse text) as [data|] eqn:E1; [|by destruct H1]. destruct H1 as [-> Ex].
    apply runs_call in H2 as ([] & u1 & -> & (audit & u2 & -> & H2)%runs_call).
    destruct (ar_error audit) eqn:Ea; [by apply runs_fail in H2|]. destruct (JSON_parse (ar_stdout audit)) as [report|] eqn:E2.
    + apply runs_call in H2 as (now & rest & -> & H2). destruct (evaluateAudit report exceptions now) as [m|r] eqn:Ev; [by destruct H2|].
      apply runs_print in H2. apply proj1 in H2. specialize (H2 eq_refl). apply (evaluation_ok _ _ _ _ Ev) in H2 as [Hx Hs].
      destruct (evaluate_total report exceptions now) as [[Hn [findings Hf]] _]; [by exists r|].
      exists text, data, exceptions, audit, report, findings, now, rest. done.
    + by apply runs_bind in H2 as (? & ? & _ & -> & _ & [_ ?]).
  - intros (_ & text & data & exceptions & audit & report & findings & now & rest & Et & E1 & Ex & Ea & E2 & Hn & Hf & Hx & Hs).
    apply (did_inj (CRead EXCEPTIONS_FILE)) in Et as [-> Et]. rewrite E1 in H1. destruct H1 as [-> ->]. rewrite Ex in H2. cbn [app] in Et.
    apply runs_call in H2 as ([] & u1 & -> & (audit' & u2 & -> & H2)%runs_call).
    apply (did_inj (COut _)) in Et as [_ Et]. apply (did_inj CAudit) in Et as [-> Et].
    rewrite Ea, E2 in H2. apply runs_call in H2 as (now' & rest' & -> & H2). apply (did_inj CNow) in Et as [-> ->].
    destruct (evaluate_total report exceptions now) as [_ [r Ev]]; [eauto|]. rewrite Ev in H2. apply (runs_print _ _ _ H2).
    by apply (evaluation_ok _ _ _ _ Ev).
Qed.
End gate.

(** An audit that failed at the registry: the report has an error and no vulnerabilities. *)
Definition demo_error_report : json :=
  JObj [("message", JStr "request to https://registry.npmjs.org/-/npm/v1/security/audits failed"); ("error", JObj [("code", JStr "ENOAUDIT")])].

Definition demo_audit_lib : JsLib :=
  {| JSON_parse := fun s => map_get s [("[]", JArr []); ("error", demo_error_report)];
     Number := fun _ => NaN;
     Date_parse := fun s => map_get s [("2026-12-31", 1798675200000); ("2026-01-01", 1767225600000); ("2027-01-01", 1798761600000)] |}.

Definition demo_audit_answers (t : trace CAns) (e : COp) : CAns e :=
  match e with
  | CRead _ => inr "[]"
  | CMkdtemp _ => inr EmptyString
  | CExists _ => false
  | CReadDir _ => inr []
  | CMkdir _ | CWrite _ _ | CRm _ => inr tt
  | CNow => 1780272000000
  | CAudit => mkAuditRun None "error" EmptyString
  | COut _ | CErr _ => tt
  end.

Lemma audit_gate_exact_witness :
  (answer demo_audit_answers [] (main (js:=demo_audit_lib) (fun _ => EmptyString) "exceptions.json")).2 = Exited 0.
Proof.
  eapply (audit_gate_exact (js:=demo_audit_lib) (fun _ => EmptyString) "exceptions.json"); [apply answer_runs|].
  split; [vm_compute; reflexivity|].
  exists "[]", (JArr []), [], (mkAuditRun None "error" EmptyString), demo_error_report, [], 1780272000000.
  eexists. split; [vm_compute; reflexivity|]. split_and!; try done.
  - by intros exc ?%not_elem_of_nil.
  - intros pkg s ids (vuln & Hv & _). by apply not_elem_of_nil in Hv.
Defined.
