(* ===== verification/WebTable.v ===== *)
(** * Sorting in the web console: [components/dataTableSort.ts], [views/recentEvents.ts]

    The order of a table column, its direction and its empty cells, and the order of the
    recent events.  The collator of a locale is a function the host gives. *)

From S2P Require Import Prelude JsBase JsJson JsLib AssetId Services Kube.
From Stdlib Require Import Ascii.
From Stdlib Require String.
Open Scope Z_scope.

(** ** [dataTableSort.ts] *)

(** [unknown]: a date holds its time, [None] for an invalid one; [CText]: a string, or
    [String(v)] of anything else. *)
Inductive CellValue := CUndefined | CNull | CNum (n : jsnum) | CBool (b : bool) | CDate (t : option Z) | CText (s : string).

Definition isEmpty (v : CellValue) : bool := match v with CUndefined | CNull | CNum NaN => true | _ => false end.

Definition comparable (v : CellValue) : jsnum + string :=
  match v with
  | CNum n => inl n
  | CBool b => inl (Fin (if b then 1 else 0))
  | CDate (Some t) => inl (Fin t)
  | CDate None => inl NaN
  | CText s => inr s
  | CUndefined => inr "undefined"
  | CNull => inr "null"
  end.

Definition jsnum_lt (a b : jsnum) : bool :=
  match a, b with
  | NaN, _ | _, NaN => false
  | Fin x, Fin y => x <? y
  | NegInf, NegInf | PosInf, _ | _, NegInf => false
  | NegInf, _ | _, PosInf => true
  end.

Definition String_jsnum (n : jsnum) : string :=
  match n with NaN => "NaN" | PosInf => "Infinity" | NegInf => "-Infinity" | Fin z => pretty z end.

Definition cell_text (x : jsnum + string) : string := match x with inl n => String_jsnum n | inr s => s end.

Section collator.
Context (compare : string -> string -> Z).

Definition compareNonEmpty (a b : CellValue) : Z :=
  match comparable a, comparable b with
  | inl x, inl y => if jsnum_lt x y then -1 else if jsnum_lt y x then 1 else 0
  | x, y => compare (cell_text x) (cell_text y)
  end.

Definition compareForDirection (desc : bool) (a b : CellValue) : Z :=
  if isEmpty a || isEmpty b then if Bool.eqb (isEmpty a) (isEmpty b) then 0 else if isEmpty a then 1 else -1
  else let r := compareNonEmpty a b in if desc then - r else r.

Definition tanstackSortResult (desc : bool) (a b : CellValue) : Z :=
  let r := compareForDirection desc a b in if desc then - r else r.

(** [compareForDirection(p.v, q.v) || p.i - q.i] *)
Definition by_value_then_index (desc : bool) (p q : CellValue * Z) : Z :=
  let r := compareForDirection desc p.1 q.1 in if r =? 0 then p.2 - q.2 else r.

Definition indexed_values (values : list CellValue) : list (CellValue * Z) := imap (fun i v => (v, Z.of_nat i)) values.

Definition sortValues (values : list CellValue) (desc : bool) : list CellValue :=
  (js_sort (by_value_then_index desc) (indexed_values values)).*1.
End collator.

Inductive DisclosureEvent := DKey (key : string) | DPointer (insidePanelOrButton : bool) | DFocusOut (nextFocusInside : bool).
Inductive DisclosureAction := CloseAndRefocus | Close | NoAction.

Definition disclosureAction (e : DisclosureEvent) : DisclosureAction :=
  match e with
  | DKey key => if String.eqb key "Escape" then CloseAndRefocus else NoAction
  | DPointer inside => if inside then NoAction else Close
  | DFocusOut inside => if inside then NoAction else Close
  end.

(** ** [recentEvents.ts] *)

Record EventSeverityCounts := mkCounts { sc_error : Z; sc_warning : Z; sc_info : Z; sc_total : Z }.

Definition newest_valid_first `{JsLib} (a b : Event) : Z :=
  match Date_parse (ev_timestamp a), Date_parse (ev_timestamp b) with
  | Some timeA, Some timeB => timeB - timeA
  | Some _, None => -1
  | None, Some _ => 1
  | None, None => 0
  end.

Definition sortEventsByTimestampDesc `{JsLib} (events : list Event) : list Event := js_sort newest_valid_first events.

Definition selectRecentEvents `{JsLib} (events : list Event) (limit : Z) : list Event :=
  take (Z.to_nat (Z.max 0 limit)) (sortEventsByTimestampDesc events).

Definition count_severity (c : EventSeverityCounts) (e : Event) : EventSeverityCounts :=
  match ev_severity e with
  | SevError => mkCounts (sc_error c + 1) (sc_warning c) (sc_info c) (sc_total c)
  | SevWarning => mkCounts (sc_error c) (sc_warning c + 1) (sc_info c) (sc_total c)
  | SevInfo => mkCounts (sc_error c) (sc_warning c) (sc_info c + 1) (sc_total c)
  end.

Definition countEventSeverities (events : list Event) : EventSeverityCounts :=
  foldl count_severity (mkCounts 0 0 0 (Z.of_nat (length events))) events.

(** ** Lemmas: sorting *)

Lemma sort_insert_ext {A} (c c' : A -> A -> Z) x l : (forall y, y ∈ l -> c x y = c' x y) -> sort_insert c x l = sort_insert c' x l.
Proof.
  induction l as [|y l IH]; intros Hc; cbn; [done|]. rewrite (Hc y) by left. rewrite IH; [done|]. intros z Hz. apply Hc. by right.
Qed.

(** Only the comparisons of elements of the list matter. *)
Lemma js_sort_ext {A} (c c' : A -> A -> Z) l : (forall x y, x ∈ l -> y ∈ l -> c x y = c' x y) -> js_sort c l = js_sort c' l.
Proof.
  induction l as [|x l IH]; intros Hc; [done|]. cbn. change (foldr (sort_insert ?c) [] l) with (js_sort c l).
  rewrite IH by (intros; apply Hc; by right). apply sort_insert_ext. intros y Hy. apply Hc; [left|]. right. by rewrite elem_of_js_sort in Hy.
Qed.

(** A list sorted so that a property is kept on: first those without it, then those with. *)
Lemma sorted_suffix {A} (R : A -> A -> Prop) (p : A -> bool) l :
  StronglySorted R l -> (forall x y, R x y -> p x = true -> p y = true) ->
  exists l1 l2, l = l1 ++ l2 /\ Forall (fun x => p x = false) l1 /\ Forall (fun x => p x = true) l2.
Proof.
  intros Hs Hp. induction Hs as [|x l _ (l1 & l2 & -> & H1 & H2) Hx]; [by exists [], []|]. destruct (p x) eqn:E.
  - exists [], (x :: l1 ++ l2). split_and!; [done|constructor|]. constructor; [done|]. eapply Forall_impl; [exact Hx|]. eauto.
  - exists (x :: l1), l2. split_and!; [done|by constructor|done].
Qed.

Lemma sorted_impl {A} (R R' : A -> A -> Prop) l :
  StronglySorted R l -> (forall x y, x ∈ l -> y ∈ l -> R x y -> R' x y) -> StronglySorted R' l.
Proof.
  induction 1 as [|x l _ IH Hx]; intros Hi; constructor.
  - apply IH. intros y z Hy Hz. apply Hi; by right.
  - rewrite Forall_forall in Hx |- *. intros y Hy. apply Hi; [left|by right|by apply Hx].
Qed.

Lemma jsnum_lt_irrefl_sym a b : jsnum_lt a b = true -> jsnum_lt b a = false.
Proof. destruct a, b; cbn; try done. rewrite Z.ltb_lt, Z.ltb_ge. lia. Qed.

(** *** The comparison of a column of one kind *)

(** 0: a number; 1: a text; 2: an empty cell; 3: a date that is not one. *)
Definition cell_kind (v : CellValue) : Z :=
  if isEmpty v then 2 else match comparable v with inl NaN => 3 | inl _ => 0 | inr _ => 1 end.

(** A column whose cells that are not empty are all numbers, or all texts. *)
Definition uniform (values : list CellValue) : Prop :=
  exists k, (k = 0 \/ k = 1) /\ forall v, v ∈ values -> isEmpty v = true \/ cell_kind v = k.

Section order.
Context (compare : string -> string -> Z).
Context (compare_flip : forall s t, compare t s = - compare s t).
Context (compare_trans : forall s t u, compare s t <= 0 -> compare t u <= 0 -> compare s u <= 0).

(** The comparison, kind by kind. *)
Definition by_kind (desc : bool) (a b : CellValue) : Z :=
  if cell_kind a =? cell_kind b
  then if 2 <=? cell_kind a then 0 else let r := compareNonEmpty compare a b in if desc then - r else r
  else if cell_kind a <? cell_kind b then -1 else 1.

Lemma by_kind_flip desc a b : by_kind desc b a = - by_kind desc a b.
Proof.
  unfold by_kind. rewrite (Z.eqb_sym (cell_kind b)). destruct (Z.eqb_spec (cell_kind a) (cell_kind b)) as [E|];
    [|destruct (Z.ltb_spec (cell_kind a) (cell_kind b)), (Z.ltb_spec (cell_kind b) (cell_kind a)); lia]. rewrite <-E.
  destruct (2 <=? cell_kind a); [done|]. enough (compareNonEmpty compare b a = - compareNonEmpty compare a b) as -> by (destruct desc; lia).
  unfold compareNonEmpty. destruct (comparable a) as [x|s], (comparable b) as [y|t]; try apply compare_flip.
  destruct (jsnum_lt x y) eqn:L; [by rewrite (jsnum_lt_irrefl_sym _ _ L)|]. by destruct (jsnum_lt y x).
Qed.

(** A number that is not [NaN], in order. *)
Definition num_le (a b : jsnum) : Prop := jsnum_lt b a = false.

Lemma num_le_trans a b c : b <> NaN -> num_le a b -> num_le b c -> num_le a c.
Proof. unfold num_le. destruct a, b, c; cbn; try done. rewrite !Z.ltb_ge. lia. Qed.

Lemma by_kind_trans desc a b c : by_kind desc a b <= 0 -> by_kind desc b c <= 0 -> by_kind desc a c <= 0.
Proof.
  unfold by_kind. destruct (Z.eqb_spec (cell_kind a) (cell_kind b)) as [E|], (Z.eqb_spec (cell_kind b) (cell_kind c)) as [F|],
    (Z.eqb_spec (cell_kind a) (cell_kind c)) as [G|];
    try (repeat match goal with |- context [Z.ltb ?x ?y] => destruct (Z.ltb_spec x y) end; lia).
  destruct (Z.leb_spec 2 (cell_kind a)) as [|Hk]; [lia|]. destruct (Z.leb_spec 2 (cell_kind b)) as [|Hkb]; [lia|].
  assert (forall v, cell_kind v = 0 \/ cell_kind v = 1 \/ 2 <= cell_kind v) as Hcases.
  { intros v. unfold cell_kind. destruct (isEmpty v); [lia|]. destruct (comparable v) as [[]|]; lia. }
  assert (forall v, cell_kind v = 0 -> exists n, comparable v = inl n /\ n <> NaN) as Hnum.
  { intros v. unfold cell_kind. destruct (isEmpty v); [lia|]. destruct (comparable v) as [[]|]; try lia; eauto. }
  assert (forall v, cell_kind v = 1 -> exists s, comparable v = inr s) as Htxt.
  { intros v. unfold cell_kind. destruct (isEmpty v); [lia|]. destruct (comparable v) as [[]|]; try lia; eauto. }
  unfold compareNonEmpty. destruct (Hcases a) as [K|[K|K]]; [| |lia].
  - destruct (Hnum a K) as (x & -> & Hx), (Hnum b ltac:(lia)) as (y & -> & Hy), (Hnum c ltac:(lia)) as (z & -> & Hz).
    assert (forall u v, (if jsnum_lt u v then -1 else if jsnum_lt v u then 1 else 0) <= 0 <-> num_le u v) as Hle.
    { intros u v. unfold num_le. destruct (jsnum_lt u v) eqn:L; [rewrite (jsnum_lt_irrefl_sym _ _ L); split; [done|lia]|].
      destruct (jsnum_lt v u); split; try done; lia. }
    assert (forall u v, - (if jsnum_lt u v then -1 else if jsnum_lt v u then 1 else 0) <= 0 <-> num_le v u) as Hge.
    { intros u v. unfold num_le. destruct (jsnum_lt u v) eqn:L; [split; [lia|done]|]. destruct (jsnum_lt v u); split; try done; lia. }
    destruct desc; rewrite ?Hle, ?Hge; intros; [by apply (num_le_trans z y x)|by apply (num_le_trans x y z)].
  - destruct (Htxt a K) as (x & ->), (Htxt b ltac:(lia)) as (y & ->), (Htxt c ltac:(lia)) as (z & ->). cbn [cell_text].
    destruct desc; [|apply compare_trans]. rewrite <-!compare_flip. intros H1 H2. by eapply compare_trans.
Qed.

Lemma by_kind_uniform desc values a b :
  uniform values -> a ∈ values -> b ∈ values -> compareForDirection compare desc a b = by_kind desc a b.
Proof.
  intros (k & Hk & Hv) Ha Hb. assert (forall v, isEmpty v = true -> cell_kind v = 2) as He by (intros v E; unfold cell_kind; by rewrite E).
  assert (forall v, v ∈ values -> isEmpty v = false -> cell_kind v = k) as Hn by (intros v Hin E; destruct (Hv v Hin); congruence).
  unfold compareForDirection, by_kind. destruct (isEmpty a) eqn:Ea, (isEmpty b) eqn:Eb; cbn [orb Bool.eqb].
  - by rewrite (He a Ea), (He b Eb).
  - rewrite (He a Ea), (Hn b Hb Eb). destruct (Z.eqb_spec 2 k), (Z.ltb_spec 2 k); lia.
  - rewrite (Hn a Ha Ea), (He b Eb). destruct (Z.eqb_spec k 2), (Z.ltb_spec k 2); lia.
  - rewrite (Hn a Ha Ea), (Hn b Hb Eb), Z.eqb_refl. destruct (Z.leb_spec 2 k); [lia|done].
Qed.
End order.

(** *** Columns *)

(** A total order without surprises, as a collator documents; [compare] of a locale. *)
Definition lawful (compare : string -> string -> Z) : Prop :=
  (forall s t, compare t s = - compare s t) /\ forall s t u, compare s t <= 0 -> compare t u <= 0 -> compare s u <= 0.

(** Sorting a column whose cells are all numbers or all texts, in either direction: the
    cells are the same ones, in the order of the column; cells that compare equal stay in
    their order; the empty ones come last; and the table, which negates the answer for a
    descending column, ends up with this very order. *)
Theorem column_sorts compare values desc :
  lawful compare -> uniform values ->
  exists ps, ps ≡ₚ indexed_values values /\ sortValues compare values desc = ps.*1 /\
    StronglySorted (fun p q => compareForDirection compare desc p.1 q.1 < 0 \/ compareForDirection compare desc p.1 q.1 = 0 /\ p.2 <= q.2) ps /\
    (exists l1 l2, ps.*1 = l1 ++ l2 /\ Forall (fun v => isEmpty v = false) l1 /\ Forall (fun v => isEmpty v = true) l2) /\
    forall a b, (if desc then - tanstackSortResult compare desc a b else tanstackSortResult compare desc a b) = compareForDirection compare desc a b.
Proof.
  intros [Hflip Htrans] U. assert (forall p, p ∈ indexed_values values -> p.1 ∈ values) as Hin.
  { intros p (i & Hi)%list_elem_of_lookup_1. unfold indexed_values in Hi. rewrite list_lookup_imap in Hi.
    destruct (values !! i) as [v|] eqn:E; [|done]. injection Hi as <-. by eapply list_elem_of_lookup_2. }
  set (c := fun p q : CellValue * Z => let r := by_kind compare desc p.1 q.1 in if r =? 0 then p.2 - q.2 else r).
  assert (js_sort (by_value_then_index compare desc) (indexed_values values) = js_sort c (indexed_values values)) as Esort.
  { apply js_sort_ext. intros p q Hp Hq. unfold by_value_then_index, c. by rewrite (by_kind_uniform compare desc values) by auto. }
  assert (StronglySorted (cmp_le c) (js_sort c (indexed_values values))) as Hs.
  { apply js_sort_sorted.
    - intros p q. unfold c. rewrite (by_kind_flip compare Hflip desc p.1 q.1). destruct (Z.eqb_spec (by_kind compare desc p.1 q.1) 0), (Z.eqb_spec (- by_kind compare desc p.1 q.1) 0); lia.
    - intros p q r. unfold c. pose proof (by_kind_trans compare Hflip Htrans desc p.1 q.1 r.1) as T1.
      pose proof (by_kind_trans compare Hflip Htrans desc r.1 q.1 p.1) as T2. rewrite (by_kind_flip compare Hflip desc q.1 r.1) in T2.
      rewrite (by_kind_flip compare Hflip desc p.1 q.1), (by_kind_flip compare Hflip desc p.1 r.1) in T2.
      pose proof (by_kind_trans compare Hflip Htrans desc r.1 p.1 q.1) as T3. rewrite (by_kind_flip compare Hflip desc p.1 r.1), (by_kind_flip compare Hflip desc q.1 r.1) in T3.
      pose proof (by_kind_trans compare Hflip Htrans desc q.1 r.1 p.1) as T4. rewrite (by_kind_flip compare Hflip desc p.1 r.1), (by_kind_flip compare Hflip desc p.1 q.1) in T4.
      repeat match goal with |- context [Z.eqb ?a ?b] => destruct (Z.eqb_spec a b) end; lia. }
  assert (StronglySorted (fun p q => compareForDirection compare desc p.1 q.1 < 0 \/ compareForDirection compare desc p.1 q.1 = 0 /\ p.2 <= q.2)
    (js_sort c (indexed_values values))) as Hps.
  { eapply sorted_impl; [exact Hs|]. intros p q Hp Hq. rewrite elem_of_js_sort in Hp, Hq. unfold cmp_le, c.
    rewrite (by_kind_uniform compare desc values) by auto. cbn. destruct (Z.eqb_spec (by_kind compare desc p.1 q.1) 0); lia. }
  exists (js_sort c (indexed_values values)). split_and!; [apply js_sort_perm|unfold sortValues; by rewrite Esort|done| |].
  - destruct (sorted_suffix _ (fun p => isEmpty p.1) _ Hps) as (l1 & l2 & -> & H1 & H2).
    + intros p q Hpq Ep. destruct (isEmpty q.1) eqn:Eq; [done|]. unfold compareForDirection in Hpq. rewrite Ep, Eq in Hpq. cbn in Hpq. lia.
    + exists l1.*1, l2.*1. by rewrite fmap_app, !Forall_fmap.
  - intros a b. unfold tanstackSortResult. destruct desc; lia.
Qed.

Lemma column_sorts_witness :
  exists ps, sortValues str_cmp [CText "b"; CNull; CText "a"] true = ps.*1 /\ ps.*1 = [CText "b"; CText "a"; CNull] /\
    ps ≡ₚ indexed_values [CText "b"; CNull; CText "a"].
Proof.
  destruct (column_sorts str_cmp [CText "b"; CNull; CText "a"] true) as (ps & Hp & E & _).
  - split; [intros s t; unfold str_cmp; destruct (str_ltb s t) eqn:E1, (str_ltb t s) eqn:E2; try done|apply str_cmp_trans].
    apply str_ltb_compare in E1, E2. apply compare_flip in E2. congruence.
  - exists 1. split; [by right|]. intros v Hv. repeat (apply elem_of_cons in Hv as [->|Hv]; [vm_compute; auto|]). by apply not_elem_of_nil in Hv.
  - exists ps. split_and!; [exact E|rewrite <-E; vm_compute; reflexivity|exact Hp].
Defined.

(** A column that mixes numbers and texts has no order: with a collator that does not read
    signs, as the numeric collation of [Intl.Collator] does not, three cells compare in a
    circle. *)
Lemma mixed_order_cycles compare :
  compare "-3" "-4" < 0 -> compare "-4" "-5" < 0 ->
  compareNonEmpty compare (CNum (Fin (-5))) (CNum (Fin (-3))) < 0 /\ compareNonEmpty compare (CNum (Fin (-3))) (CText "-4") < 0 /\
  compareNonEmpty compare (CText "-4") (CNum (Fin (-5))) < 0.
Proof. intros H1 H2. split_and!; [reflexivity|exact H1|exact H2]. Qed.

(** *** Recent events *)

Lemma newest_total `{JsLib} a b : 0 < newest_valid_first a b -> newest_valid_first b a <= 0.
Proof. unfold newest_valid_first. destruct (Date_parse (ev_timestamp a)), (Date_parse (ev_timestamp b)); lia. Qed.

Lemma newest_trans `{JsLib} a b c : newest_valid_first a b <= 0 -> newest_valid_first b c <= 0 -> newest_valid_first a c <= 0.
Proof. unfold newest_valid_first. destruct (Date_parse (ev_timestamp a)), (Date_parse (ev_timestamp b)), (Date_parse (ev_timestamp c)); lia. Qed.

(** The recent events: the newest ones, those with a timestamp that cannot be read last;
    and every event is counted under one severity. *)
Lemma recent_events `{JsLib} events limit :
  let recent := selectRecentEvents events limit in
  StronglySorted (fun a b => newest_valid_first a b <= 0) recent /\
  length recent = Nat.min (Z.to_nat limit) (length events) /\ (forall e, e ∈ recent -> e ∈ events) /\
  (forall a b, a ∈ recent -> b ∈ events -> b ∉ recent -> newest_valid_first a b <= 0) /\
  let c := countEventSeverities events in sc_error c + sc_warning c + sc_info c = sc_total c.
Proof.
  pose proof (js_sort_sorted newest_valid_first newest_total newest_trans events) as Hs. cbv zeta. unfold selectRecentEvents, sortEventsByTimestampDesc.
  set (n := Z.to_nat (Z.max 0 limit)). set (sorted := js_sort newest_valid_first events) in *.
  assert (forall x, x ∈ sorted <-> x ∈ events) as Hin by (intros; apply elem_of_js_sort).
  rewrite <-(take_drop n sorted) in Hs. apply StronglySorted_app in Hs as (Hcross & H1 & _). split_and!.
  - exact H1.
  - rewrite length_take. unfold sorted. rewrite length_js_sort. unfold n. lia.
  - intros e He. apply Hin. by eapply elem_of_take in He as (i & Hi%list_elem_of_lookup_2 & _).
  - intros a b Ha Hb Hn. apply Hcross; [done|]. apply Hin in Hb. rewrite <-(take_drop n sorted) in Hb. by apply elem_of_app in Hb as [|].
  - unfold countEventSeverities.
    enough (forall c, let c' := foldl count_severity c events in
      sc_error c' + sc_warning c' + sc_info c' = sc_error c + sc_warning c + sc_info c + Z.of_nat (length events) /\ sc_total c' = sc_total c) as Hc.
    { destruct (Hc (mkCounts 0 0 0 (Z.of_nat (length events)))) as [E1 E2]. cbv zeta in *. rewrite E1, E2. done. }
    clear. induction events as [|e events IH]; intros c; cbn [foldl length]; [split; [lia|done]|].
    destruct (IH (count_severity c e)) as [E1 E2]. cbv zeta. rewrite E1, E2. unfold count_severity. destruct (ev_severity e); cbn; split; [lia|done|lia|done|lia|done].
Qed.
