(* ===== verification/Console.v ===== *)
(** * What the views of the web console compute: [web/src/views], [web/src/components]

    Links between views, the infrastructure graph, the SQL of a sample query, the lazy
    loader that can be retried, and the labels of the SSO change form. *)
From S2P Require Import Prelude JsBase JsText JsJson JsLib AssetId Config Services Pipeline.
From S2P Require Import DataAssets Decision SsoStore Kube Listings.
From Stdlib Require Import Ascii.
From Stdlib Require String.
Open Scope Z_scope.

(** ** Links between views *)

Inductive NavTab := TabServices | TabPipelines | TabOperations.

(** A missing flag is [false]. *)
Record EventNavigationTarget := mkTarget {
  nt_tab : NavTab; nt_id : string; nt_pipelineName : option string; nt_resource : bool; nt_event : bool;
}.

Definition to_service (id : string) : EventNavigationTarget := mkTarget TabServices id None false false.
Definition to_pipeline (id : string) (name : option string) : EventNavigationTarget := mkTarget TabPipelines id name false false.
Definition to_resource (id : string) : EventNavigationTarget := mkTarget TabOperations id None true false.
Definition createEventFocusTarget (eventId : string) : EventNavigationTarget := mkTarget TabOperations eventId None false true.
Definition getInfraResourceTarget (r : Resource) : EventNavigationTarget := to_resource (kr_id r).

(** [if (v) targets.push(f(v))] *)
Definition link_if (f : string -> EventNavigationTarget) (v : option string) : list EventNavigationTarget :=
  match v with Some s => if String.eqb s EmptyString then [] else [f s] | None => [] end.

Definition getResourceNavigationTargets (r : Resource) : list EventNavigationTarget :=
  link_if to_service (kr_relatedServiceId r) ++ link_if (fun p => to_pipeline p None) (kr_relatedPipelineId r) ++
  map createEventFocusTarget (kr_relatedEventIds r).

Definition getEventNavigationTargets (e : Event) : list EventNavigationTarget :=
  link_if to_service (ev_relatedServiceId e) ++ link_if (fun p => to_pipeline p None) (ev_relatedPipelineId e) ++
  match ev_relatedResourceId e with
  | Some i => if starts_with "kubernetes:" i then [] else link_if to_resource (Some i)
  | None => []
  end.

Definition getDecisionNavigationTargets (d : DecisionRecord) : list EventNavigationTarget :=
  link_if to_resource (dd_relatedResourceId d) ++ link_if to_service (dd_relatedServiceId d) ++
  link_if (fun p => to_pipeline p None) (dd_relatedPipelineId d).

(** The pipelines of a stage, the preferred one first, each id once. *)
Fixpoint distinct_pipelines (seen : list string) (l : list Pipeline) : list Pipeline :=
  match l with
  | [] => []
  | p :: rest => if bool_decide (pl_id p ∈ seen) then distinct_pipelines seen rest else p :: distinct_pipelines (set_add (pl_id p) seen) rest
  end.

Definition getStageNavigationTargets (serviceId : string) (serviceIds : list string) (pipelines : list Pipeline) (preferredPipelineId : option string)
    : list EventNavigationTarget :=
  let matched := List.filter (fun p => existsb (fun s => String.eqb (pg_serviceId s) serviceId) (pl_stages p)) pipelines in
  let ordered :=
    match preferredPipelineId with
    | Some preferred =>
        if String.eqb preferred EmptyString then matched
        else List.filter (fun p => String.eqb (pl_id p) preferred) matched ++ List.filter (fun p => negb (String.eqb (pl_id p) preferred)) matched
    | None => matched
    end in
  (if bool_decide (serviceId ∈ serviceIds) then [to_service serviceId] else []) ++
  map (fun p => to_pipeline (pl_id p) (Some (pl_name p))) (distinct_pipelines [] ordered).

(** [href]: the text of a parsed URL. *)
Definition getSafeExternalUrl `{Host} (href : WebUrl -> string) (value : option string) : option string :=
  match value with
  | None => None
  | Some v =>
      if String.eqb v EmptyString then None
      else
        match new_URL v with
        | Some url => if String.eqb (w_protocol url) "http:" || String.eqb (w_protocol url) "https:" then Some (href url) else None
        | None => None
        end
  end.

Definition getStageExternalUrl `{Host} (href : WebUrl -> string) (serviceId : string) (services : list Service) : option string :=
  getSafeExternalUrl href (List.find (fun s => String.eqb (sv_id s) serviceId) services ≫= fun s => am_endpoint (sv_metadata s)).

(** ** The catalog tree *)

Definition isExpandableKind (kind : DataAssetKind) : bool := match kind with KCatalog | KSchema => true | _ => false end.

Definition toggleExpanded (expanded : list string) (id : string) : list string :=
  if bool_decide (id ∈ expanded) then List.filter (fun x => negb (String.eqb x id)) expanded else expanded ++ [id].

(** ** [infraTopology.ts] *)

Record InfraNode := mkInfraNode { in_id : string; in_resource : Resource; in_column : Z; in_row : Z }.
Record InfraEdge := mkInfraEdge { ie_id : string; ie_source : string; ie_target : string }.

Definition KIND_ORDER : list ResourceKind := [RNamespace; RWorkload; RPod; RService; REndpoint; RJob; RPersistentVolumeClaim].

(** [KIND_ORDER.indexOf(kind)] *)
Definition kind_column (k : ResourceKind) : Z :=
  match k with RNamespace => 0 | RWorkload => 1 | RPod => 2 | RService => 3 | REndpoint => 4 | RJob => 5 | RPersistentVolumeClaim => 6 end.

Definition namespaceIdByName (resources : list Resource) : list (string * string) :=
  foldl (fun m r => match kr_kind r with RNamespace => if map_has (kr_name r) m then m else map_set (kr_name r) (kr_id r) m | _ => m end) [] resources.

(** The id of the namespace a resource is drawn under. *)
Definition namespace_of (ids : list (string * string)) (r : Resource) : option string :=
  match kr_kind r with
  | RNamespace => None
  | _ => present (present (kr_namespace r) ≫= fun n => map_get n ids)
  end.

Fixpoint infra_nodes (ids : list (string * string)) (ordered : list Resource) (seen : list string) (rowByKind : list (ResourceKind * Z))
    : list InfraNode * list InfraEdge :=
  match ordered with
  | [] => ([], [])
  | r :: rest =>
      if bool_decide (kr_id r ∈ seen) then infra_nodes ids rest seen rowByKind
      else
        let row := default 0 (map_get (kr_kind r) rowByKind) in
        let (nodes, edges) := infra_nodes ids rest (set_add (kr_id r) seen) (map_set (kr_kind r) (row + 1) rowByKind) in
        (mkInfraNode (kr_id r) r (kind_column (kr_kind r)) row :: nodes,
         match namespace_of ids r with
         | Some namespaceId => mkInfraEdge (namespaceId +:+ "->" +:+ kr_id r) namespaceId (kr_id r) :: edges
         | None => edges
         end)
  end.

Definition buildInfraTopology (resources : list Resource) : list InfraNode * list InfraEdge :=
  infra_nodes (namespaceIdByName resources) (flat_map (fun k => List.filter (fun r => bool_decide (kr_kind r = k)) resources) KIND_ORDER) [] [].

(** ** [catalogSql.ts] *)

Record CatalogColumn := mkCatalogColumn { cc_name : string; cc_type : string; cc_comment : option string; cc_isPartition : bool }.

Record CatalogTable := mkCatalogTable {
  ct_catalog : string; ct_schema : string; ct_table : string; ct_format : string; ct_location : string;
  ct_columns : list CatalogColumn; ct_snapshotCount : Z;
}.

Definition TRINO_RESERVED_WORDS : list string :=
  ["alter"; "and"; "as"; "auto"; "between"; "by"; "case"; "cast"; "constraint"; "create";
   "cross"; "cube"; "current_catalog"; "current_date"; "current_path"; "current_role";
   "current_schema"; "current_time"; "current_timestamp"; "current_user"; "deallocate";
   "delete"; "describe"; "distinct"; "drop"; "else"; "end"; "escape"; "except"; "exists";
   "extract"; "false"; "for"; "from"; "full"; "group"; "grouping"; "having"; "in"; "inner";
   "insert"; "intersect"; "into"; "is"; "join"; "json_array"; "json_exists"; "json_object";
   "json_query"; "json_table"; "json_value"; "left"; "like"; "listagg"; "localtime";
   "localtimestamp"; "natural"; "normalize"; "not"; "null"; "on"; "or"; "order"; "outer";
   "overlaps"; "prepare"; "recursive"; "right"; "rollup"; "select"; "skip"; "table"; "then";
   "trim"; "true"; "uescape"; "union"; "unnest"; "using"; "user"; "values"; "when"; "where";
   "with"].

Definition ident_start (a : ascii) : bool := between 97 122 a || Ascii.eqb a "_".
Definition ident_char (a : ascii) : bool := ident_start a || is_digit a.

(** [/^[a-z_][a-z0-9_]*$/.test(s)] *)
Definition plain_identifier (s : string) : bool :=
  match s with EmptyString => false | String a s' => ident_start a && str_all ident_char s' end.

Definition quoteIdentifier (identifier : string) : string :=
  if plain_identifier identifier && negb (bool_decide (identifier ∈ TRINO_RESERVED_WORDS)) then identifier else quote identifier.

Definition getCatalogTableName (t : CatalogTable) : string :=
  join "." (map quoteIdentifier [ct_catalog t; ct_schema t; ct_table t]).

Definition ends_with_text (suffix s : string) : bool :=
  (String.length suffix <=? String.length s)%nat && String.eqb (str_drop (String.length s - String.length suffix) s) suffix.

(** [/timestamp|time/i.test(type) || /(?:_at|_time|timestamp)$/i.test(name)] *)
Definition is_timestamp_column (c : CatalogColumn) : bool :=
  includes_ci "timestamp" (cc_type c) || includes_ci "time" (cc_type c) ||
  existsb (fun suffix => ends_with_text suffix (to_lower (cc_name c))) ["_at"; "_time"; "timestamp"].

Definition buildCatalogSampleSql (t : CatalogTable) : string :=
  let columns := map (fun c => "  " +:+ quoteIdentifier (cc_name c)) (take 10 (ct_columns t)) in
  let orderBy :=
    match List.find is_timestamp_column (ct_columns t) with
    | Some c => lf +:+ "ORDER BY " +:+ quoteIdentifier (cc_name c) +:+ " DESC"
    | None => EmptyString
    end in
  "SELECT" +:+ lf +:+ join ("," +:+ lf) columns +:+ lf +:+ "FROM " +:+ getCatalogTableName t +:+ orderBy +:+ lf +:+ "LIMIT 20;".

(** [toCatalogTable] of [DataCatalogView.tsx] *)
Definition toCatalogTable (d : DataAssetDetail) : CatalogTable :=
  let parts := split_char "." (da_name (dd_asset d)) in
  let partitionSpec := default EmptyString (dd_metadataSummary d ≫= ms_partitionSpec) in
  let (schema, table) := match parts with
                         | [] => ("default", EmptyString)
                         | [whole] => ("default", whole)
                         | schema :: rest => (schema, join "." rest)
                         end in
  mkCatalogTable "beluga_lake" schema table (default "Iceberg v2 (Parquet)" (dd_format d)) (default EmptyString (dd_location d))
    (map (fun c => mkCatalogColumn (dc_name c) (dc_type c) (dc_comment c) (includes (dc_name c) partitionSpec)) (default [] (dd_columns d)))
    (default 0 (dd_metadataSummary d ≫= ms_snapshotCount)).

(** ** [retryableLoader.ts] *)

Inductive LoadStatus := LNew | LLoading | LOk | LFailed.

(** [current] is the attempt the lazy component was made for; the loads in flight are
    those of [importCalls] that have not settled. *)
Record Loader := mkLoader { ld_attempt : nat; ld_importCalls : nat; ld_status : LoadStatus; ld_current : nat; ld_inFlight : nat }.

Definition createRetryableLoader : Loader := mkLoader 0 0 LNew 0 0.

(** [load()]; an import settles; [retry()] with its answer. *)
Definition loader_load (l : Loader) : Loader := mkLoader (ld_attempt l) (S (ld_importCalls l)) LLoading (ld_current l) (S (ld_inFlight l)).
Definition loader_settle (ok : bool) (l : Loader) : Loader :=
  mkLoader (ld_attempt l) (ld_importCalls l) (if ok then LOk else LFailed) (ld_current l) (pred (ld_inFlight l)).
Definition loader_retry (l : Loader) : Loader * bool :=
  match ld_status l with
  | LFailed => (mkLoader (S (ld_attempt l)) (ld_importCalls l) LNew (S (ld_attempt l)) (ld_inFlight l), true)
  | _ => (l, false)
  end.

(** ** [ssoChangeSupport.ts] *)

Definition ADMIN_GROUP : string := "admins".

Fixpoint drop_slashes (s : string) : string :=
  match s with String a s' => if Ascii.eqb a "/" then drop_slashes s' else s | EmptyString => EmptyString end.

Definition isSsoAdmin (groups : option (list string)) : bool :=
  existsb (fun g => String.eqb (drop_slashes g) ADMIN_GROUP) (default [] groups).

(** [b.toString(16).padStart(2, '0')] of the random bytes. *)
Definition byte_hex (b : Z) : string := str1 (hex_digit (Z.to_N (b / 16))) +:+ str1 (hex_digit (Z.to_N (b mod 16))).
Definition newIdempotencyKey (bytes : list Z) : string := join EmptyString (map byte_hex bytes).

Record SsoChangeDraft := mkDraft { sd_endpoint : string; sd_allowedGroups : list string; sd_reason : option string }.

Definition draftFingerprint (draft : SsoChangeDraft) (baseBlobSha : string) : string :=
  json_text (JArr [JStr (sd_endpoint draft); JStrs (js_sort str_cmp (sd_allowedGroups draft)); JStr (default EmptyString (sd_reason draft)); JStr baseBlobSha]).

(** The key of the label of a stage in [t.sso.change]. *)
Definition stage_key (stage : ChangeStage) : string :=
  match stage with
  | Submitted => "stageSubmitted" | PrOpen => "stagePrOpen" | UnknownRecovering => "stageUnknownRecovering" | Merged => "stageMerged"
  | Applied => "stageApplied" | Rejected => "stageRejected" | Failed => "stageFailed"
  end.
Definition stageLabel (text : string -> string) (stage : ChangeStage) : string := text (stage_key stage).

(** The key of the text of an error in [t.sso.change], by its code. *)
Definition error_key_by_code : list (string * string) :=
  [("STALE_BASE", "errStaleBase"); ("OPEN_REQUEST_EXISTS", "errOpenRequestExists"); ("GIT_WRITER_UNCONFIGURED", "errGitWriterUnconfigured");
   ("AUDIT_UNAVAILABLE", "errAuditUnavailable"); ("CONSUMER_NOT_DEPLOYED", "errConsumerNotDeployed");
   ("NO_EFFECTIVE_CHANGE", "errNoEffectiveChange"); ("PATCH_REJECTED", "errPatchRejected"); ("REQUEST_NOT_ACTIVE", "errRequestNotActive");
   ("GITHUB_UNAVAILABLE", "errGithubUnavailable"); ("FORBIDDEN", "errForbidden"); ("IDEMPOTENCY_MISMATCH", "errIdempotencyMismatch");
   ("IDEMPOTENCY_KEY_COLLISION", "errIdempotencyKeyCollision"); ("REQUEST_IN_FLIGHT", "errRequestInFlight")].

(** What is shown for an error: an answer of the API with its status, code and message;
    any other error; something else that was thrown. *)
Inductive ShownError := ShownApi (status : Z) (code detail : option string) | ShownOther (message : string) | ShownUnknown.

Record DisplayedError := mkDisplayed { de_message : string; de_detail : option string }.

(** [text]: the translations of [t.sso.change]. *)
Definition describeSsoError (text : string -> string) (error : ShownError) : DisplayedError :=
  match error with
  | ShownOther m => mkDisplayed (text "errGeneric") (Some m)
  | ShownUnknown => mkDisplayed (text "errGeneric") None
  | ShownApi status code detail =>
      mkDisplayed (text (match code ≫= fun c => map_get c error_key_by_code with
                         | Some key => key
                         | None => if status =? 403 then "errForbidden" else "errGeneric"
                         end)) detail
  end.

(** ** The views of the web console: the sample query, the infrastructure graph, the lazy loader *)
(** ** The sample query, read back *)

Fixpoint ident_span (s : string) : string * string :=
  match s with
  | String a s' => if ident_char a then prod_map (String a) (fun r => r) (ident_span s') else (EmptyString, s)
  | EmptyString => (EmptyString, EmptyString)
  end.

(** SQL reads a quoted name up to the quote that is not doubled, and a word without
    quotes as a name, folded to lower case, unless it is reserved. *)
Definition read_name (s : string) : option (string * string) :=
  match s with
  | EmptyString => None
  | String a s' =>
      if Ascii.eqb a dq_char then read_quoted s'
      else
        let word := ident_span s in
        if plain_identifier word.1 && negb (bool_decide (to_lower word.1 ∈ TRINO_RESERVED_WORDS)) then Some (to_lower word.1, word.2) else None
  end.

Fixpoint read_columns (fuel : nat) (s : string) : option (list string * string) :=
  match fuel with
  | O => None
  | S fuel =>
      r ← after "  " s; xr ← read_name r;
      match after ("," +:+ lf) xr.2 with
      | Some r => prod_map (cons xr.1) (fun r => r) <$> read_columns fuel r
      | None => Some ([xr.1], xr.2)
      end
  end.

Record SampleQuery := mkSampleQuery { sq_columns : list string; sq_table : list string; sq_orderBy : option string }.

Definition read_order (s : string) : option (option string * string) :=
  match after (lf +:+ "ORDER BY ") s with
  | Some r => xr ← read_name r; r ← after " DESC" xr.2; Some (Some xr.1, r)
  | None => Some (None, s)
  end.

(** [SELECT] columns [FROM] table [ORDER BY] column [DESC LIMIT 20;] and nothing else. *)
Definition read_query (s : string) : option SampleQuery :=
  r ← after ("SELECT" +:+ lf) s; cr ← read_columns (String.length s) r; r ← after (lf +:+ "FROM ") cr.2;
  c ← read_name r; r ← after "." c.2; n ← read_name r; r ← after "." n.2; t ← read_name r;
  o ← read_order t.2;
  if String.eqb o.2 (lf +:+ "LIMIT 20;") then Some (mkSampleQuery cr.1 [c.1; n.1; t.1] o.1) else None.

(** Text at which a name ends. *)
Definition ends_name (r : string) : bool :=
  match r with String b _ => negb (ident_char b) && negb (Ascii.eqb b dq_char) | EmptyString => true end.

Lemma ident_span_all w r : str_all ident_char w = true -> ends_name r = true -> ident_span (w +:+ r) = (w, r).
Proof.
  intros Hw Hr. induction w as [|a w IH].
  - rewrite str_app_nil_l. destruct r as [|b r]; [done|]. cbn in *. by apply andb_true_iff in Hr as [->%negb_true_iff _].
  - cbn in Hw. apply andb_true_iff in Hw as [Ha Hw]. rewrite str_app_cons. cbn [ident_span]. by rewrite Ha, (IH Hw).
Qed.

Lemma ident_lower a : ident_char a = true -> ascii_lower a = a.
Proof. destruct a as [[] [] [] [] [] [] [] []]; by vm_compute. Qed.

Lemma str_all_cons p a s : str_all p (String a s) = p a && str_all p s.
Proof. done. Qed.

Lemma ident_word_lower w : str_all ident_char w = true -> to_lower w = w.
Proof.
  induction w as [|a w IH]; [done|]. rewrite str_all_cons, andb_true_iff. intros [Ha Hw].
  unfold to_lower in *. cbn [str_map]. by rewrite (ident_lower a Ha), (IH Hw).
Qed.

Lemma plain_word w : plain_identifier w = true -> str_all ident_char w = true.
Proof.
  destruct w as [|a w]; [done|]. unfold plain_identifier. rewrite str_all_cons, !andb_true_iff. unfold ident_char. intros [-> Hw]. done.
Qed.

(** A quoted or plain identifier reads back as itself, wherever it stands. *)
Lemma read_identifier x r : ends_name r = true -> read_name (quoteIdentifier x +:+ r) = Some (x, r).
Proof.
  intros Hr. unfold quoteIdentifier. destruct (plain_identifier x && _) eqn:E.
  - apply andb_true_iff in E as [Hp Hn]. pose proof (plain_word x Hp) as Hw.
    destruct x as [|a x]; [done|]. rewrite str_app_cons. unfold read_name.
    assert (Ascii.eqb a dq_char = false) as ->.
    { cbn in Hp. apply andb_true_iff in Hp as [Ha _]. by destruct a as [[] [] [] [] [] [] [] []]. }
    rewrite <- str_app_cons, (ident_span_all (String a x) r Hw Hr). cbn [fst snd]. by rewrite (ident_word_lower _ Hw), Hp, Hn.
  - unfold quote. rewrite !str_app_assoc. change (dq +:+ ?y) with (String dq_char y). unfold read_name.
    rewrite Ascii.eqb_refl. apply read_quote. destruct r as [|b r]; [done|]. cbn in Hr.
    by apply andb_true_iff in Hr as [_ ->%negb_true_iff].
Qed.

Lemma after_app p r : after p (p +:+ r) = Some r.
Proof. induction p as [|a p IH]; [by rewrite str_app_nil_l|]. rewrite str_app_cons. cbn. by rewrite Ascii.eqb_refl. Qed.

Definition column_line (x : string) : string := "  " +:+ quoteIdentifier x.

Lemma read_columns_join fuel x cols r :
  (length cols < fuel)%nat -> ends_name r = true -> after ("," +:+ lf) r = None ->
  read_columns fuel (join ("," +:+ lf) (map column_line (x :: cols)) +:+ r) = Some (x :: cols, r).
Proof.
  revert x cols. induction fuel as [|fuel IH]; intros x cols Hf Hr Hn; [lia|].
  destruct cols as [|y cols].
  - cbn [map join]. unfold column_line. rewrite str_app_assoc. cbn [read_columns].
    rewrite after_app. cbn. rewrite (read_identifier _ _ Hr). cbn. by rewrite Hn.
  - rewrite map_cons. change (join ?sep (?u :: map ?f (y :: cols))) with (u +:+ sep +:+ join sep (map f (y :: cols))).
    unfold column_line at 1. rewrite !str_app_assoc. cbn [read_columns]. rewrite after_app. cbn [mbind option_bind].
    rewrite (read_identifier x) by done. cbn [mbind option_bind fst snd].
    rewrite <- (str_app_assoc "," lf), after_app. rewrite (IH y cols) by (cbn in Hf; auto with lia). done.
Qed.


Lemma str_drop_app p s : str_drop (String.length p) (p +:+ s) = s.
Proof.
  unfold str_drop. induction p as [|a p IH]; rewrite ?str_app_nil_l, ?str_app_cons; cbn; [|done].
  rewrite Nat.sub_0_r. induction s as [|a s IH]; [done|]. cbn. by rewrite IH.
Qed.

Definition order_text (o : option string) : string :=
  match o with Some x => lf +:+ "ORDER BY " +:+ quoteIdentifier x +:+ " DESC" | None => EmptyString end.

Lemma read_order_text o r : after (lf +:+ "ORDER BY ") r = None -> read_order (order_text o +:+ r) = Some (o, r).
Proof.
  intros Hr. unfold read_order, order_text. destruct o as [x|].
  - rewrite !str_app_assoc, <- (str_app_assoc lf "ORDER BY "), after_app. rewrite (read_identifier x) by done.
    cbn [mbind option_bind fst snd]. by rewrite after_app.
  - by rewrite str_app_nil_l, Hr.
Qed.

Lemma order_ends o : ends_name (order_text o +:+ lf +:+ "LIMIT 20;") = true.
Proof. by destruct o. Qed.

Lemma sample_text t :
  buildCatalogSampleSql t =
  ("SELECT" +:+ lf) +:+ join ("," +:+ lf) (map column_line (map cc_name (take 10 (ct_columns t)))) +:+ (lf +:+ "FROM ") +:+
  quoteIdentifier (ct_catalog t) +:+ "." +:+ quoteIdentifier (ct_schema t) +:+ "." +:+ quoteIdentifier (ct_table t) +:+
  order_text (cc_name <$> List.find is_timestamp_column (ct_columns t)) +:+ (lf +:+ "LIMIT 20;").
Proof.
  unfold buildCatalogSampleSql, getCatalogTableName, order_text. rewrite map_map. cbn [map join].
  destruct (List.find is_timestamp_column (ct_columns t)); cbn [fmap option_fmap option_map]; rewrite !str_app_assoc; done.
Qed.

(** The sample query of the catalog view, whatever names the catalog holds: for a table
    that has a column it reads as one [SELECT] of its first ten columns from exactly
    this table, newest first by its first time column, with a limit and nothing after
    it; every word it leaves without quotes is in lower case and not reserved. *)
Lemma sample_query_reads t :
  ct_columns t <> [] ->
  read_query (buildCatalogSampleSql t) =
    Some (mkSampleQuery (map cc_name (take 10 (ct_columns t))) [ct_catalog t; ct_schema t; ct_table t]
            (cc_name <$> List.find is_timestamp_column (ct_columns t))).
Proof.
  intros Hc. rewrite sample_text. unfold read_query. rewrite after_app. cbn [mbind option_bind].
  destruct (ct_columns t) as [|c cs] eqn:E; [done|]. rewrite firstn_cons, map_cons.
  rewrite read_columns_join; [|rewrite !length_text, length_map, length_take; cbn [String.length lf]; lia|done..].
  cbn [mbind option_bind fst snd]. rewrite after_app. cbn [mbind option_bind].
  rewrite (read_identifier (ct_catalog t)) by done. cbn [mbind option_bind fst snd]. rewrite after_app. cbn [mbind option_bind].
  rewrite (read_identifier (ct_schema t)) by done. cbn [mbind option_bind fst snd]. rewrite after_app. cbn [mbind option_bind].
  rewrite (read_identifier (ct_table t)) by apply order_ends. cbn [mbind option_bind fst snd].
  rewrite read_order_text by done. done.
Qed.

Definition odd_asset : DataAssetDetail :=
  mkAssetDetail (mkAsset "a1" "Raw.order" KTable "svc" Healthy (Some "lake") None None None)
    (Some [mkColumn "id" "BIGINT" false None None; mkColumn ("a" +:+ dq +:+ "b") "TIMESTAMP(6)" false None None]) None None None None.

(** The sample query of the catalog view.  Whatever names a table and its columns have,
    the text reads as one [SELECT] of the first ten columns from one table, newest first
    by the first time column, with a limit and nothing after it, and every word it
    leaves without quotes is in lower case and not reserved.  The schema and table are
    those the API hands over to Trino; the catalog is always [beluga_lake], so the table
    is the one of the hand-over exactly when the asset names no other catalog. *)
Theorem catalog_view_query d schema table c cs :
  da_name (dd_asset d) = schema +:+ "." +:+ table -> str_has "." schema = false -> str_has "." table = false ->
  da_namespace (dd_asset d) ∈ [None; Some [schema]] -> dd_columns d = Some (c :: cs) ->
  exists q, read_query (buildCatalogSampleSql (toCatalogTable d)) = Some q /\ sq_columns q = map dc_name (take 10 (c :: cs)) /\ (forall x, sq_orderBy q = Some x -> x ∈ map dc_name (c :: cs)) /\ sq_table q = TRINO_CATALOG :: query_parts (dd_asset d) /\ (sq_table q = default TRINO_CATALOG (da_catalog (dd_asset d)) :: query_parts (dd_asset d) <->
     default TRINO_CATALOG (da_catalog (dd_asset d)) = TRINO_CATALOG).
Proof.
  intros Hname Hs Ht Hns Hc.
  assert (split_char "." (da_name (dd_asset d)) = [schema; table]) as Hp.
  { rewrite Hname. change ("." +:+ table) with (String "." table). by rewrite split_app, split_one. }
  assert (query_parts (dd_asset d) = [schema; table]) as Hq.
  { unfold query_parts. apply list_elem_of_In in Hns as [<-|[<-|[]]]; [done|]. unfold stripNamespacePrefix. cbn [join app].
    rewrite Hname, <- str_app_assoc, starts_with_app, str_drop_app. done. }
  unfold toCatalogTable. rewrite Hp, Hc. cbn [join]. eexists. split; [by apply sample_query_reads|].
  cbn [sq_columns sq_table sq_orderBy ct_columns ct_catalog ct_schema ct_table default]. rewrite Hq. split_and!.
  - by rewrite firstn_map, map_map.
  - intros x Hx. destruct (List.find _ _) as [col|] eqn:E; [|done]. injection Hx as <-. apply find_some in E as [E _].
    apply in_map_iff in E as (k & <- & Hk). apply list_elem_of_In, in_map_iff. by exists k.
  - done.
  - split; intros E; [by injection E|by rewrite E].
Qed.

Lemma catalog_view_query_witness :
  exists q, read_query (buildCatalogSampleSql (toCatalogTable odd_asset)) = Some q /\ sq_columns q = ["id"; "a" +:+ dq +:+ "b"] /\ (forall x, sq_orderBy q = Some x -> x ∈ ["id"; "a" +:+ dq +:+ "b"]) /\ sq_table q = ["beluga_lake"; "Raw"; "order"] /\ (sq_table q = ["lake"; "Raw"; "order"] <-> "lake" = "beluga_lake").
Proof.
  apply (catalog_view_query odd_asset "Raw" "order" (mkColumn "id" "BIGINT" false None None)
    [mkColumn ("a" +:+ dq +:+ "b") "TIMESTAMP(6)" false None None]); [reflexivity|reflexivity|reflexivity|left|reflexivity].
Defined.

(** A column counts as a partition column when its name occurs anywhere in the text of
    the partition spec. *)
Lemma partition_by_substring :
  map (fun c => (cc_name c, cc_isPartition c))
    (ct_columns (toCatalogTable (mkAssetDetail (dd_asset odd_asset) (Some [mkColumn "order" "VARCHAR" false None None]) None None None
      (Some (mkSummaryOf None None (Some "order_date")))))) = [("order", true)].
Proof. reflexivity. Qed.

(** Without a column there is nothing to select: the text is not a query. *)
Lemma no_column_no_query : read_query (buildCatalogSampleSql (mkCatalogTable "lake" "raw" "t" "ICEBERG" "s3://x" [] 0)) = None.
Proof. reflexivity. Qed.

(** ** The infrastructure graph *)

Definition edge_of (ids : list (string * string)) (n : InfraNode) : option InfraEdge :=
  namespaceId ← namespace_of ids (in_resource n);
  Some (mkInfraEdge (namespaceId +:+ "->" +:+ in_id n) namespaceId (in_id n)).

Definition position (n : InfraNode) : Z * Z := (in_column n, in_row n).

(** What the loop adds to nodes seen before. *)
Record added (ids : list (string * string)) (ordered : list Resource) (seen : list string) (rows : list (ResourceKind * Z))
    (nodes : list InfraNode) (edges : list InfraEdge) : Prop := {
  ad_edges : edges = omap (edge_of ids) nodes;
  ad_ids : NoDup (map in_id nodes);
  ad_new : forall n, n ∈ nodes -> in_id n ∉ seen;
  ad_nodes : forall n, n ∈ nodes -> in_resource n ∈ ordered /\ in_id n = kr_id (in_resource n) /\
    in_column n = kind_column (kr_kind (in_resource n)) /\ default 0 (map_get (kr_kind (in_resource n)) rows) <= in_row n;
  ad_all : forall r, r ∈ ordered -> kr_id r ∈ seen \/ kr_id r ∈ map in_id nodes;
  ad_places : NoDup (map position nodes);
}.

Lemma kind_column_inj k k' : kind_column k = kind_column k' -> k = k'.
Proof. by destruct k, k'. Qed.

Lemma infra_nodes_added ids ordered seen rows :
  added ids ordered seen rows (infra_nodes ids ordered seen rows).1 (infra_nodes ids ordered seen rows).2.
Proof.
  revert seen rows. induction ordered as [|r rest IH]; intros seen rows; cbn [infra_nodes].
  { split; cbn; try constructor; set_solver. }
  destruct (bool_decide _) eqn:Es.
  - apply bool_decide_eq_true in Es. destruct (IH seen rows) as [H1 H2 H3 H4 H5 H6]. split; try done.
    + intros n Hn. destruct (H4 n Hn) as (? & ?). split; [by right|done].
    + intros x [->|Hx]%elem_of_cons; [by left|by apply H5].
  - apply bool_decide_eq_false in Es.
    pose proof (IH (set_add (kr_id r) seen) (map_set (kr_kind r) (default 0 (map_get (kr_kind r) rows) + 1) rows)) as Hr.
    destruct (infra_nodes ids rest _ _) as [nodes edges]. destruct Hr as [H1 H2 H3 H4 H5 H6]. cbn [fst snd] in *.
    assert (forall n, n ∈ nodes -> default 0 (map_get (kr_kind (in_resource n)) rows) +
      (if decide (kr_kind (in_resource n) = kr_kind r) then 1 else 0) <= in_row n) as Hrow.
    { intros n Hn. destruct (H4 n Hn) as (_ & _ & _ & Hle). rewrite map_get_set in Hle. case_decide as Ek; [rewrite Ek|]; cbn in *; lia. }
    split.
    + subst edges. unfold edge_of. cbn [omap list_omap in_resource in_id mbind option_bind].
      by destruct (namespace_of ids r).
    + cbn. constructor; [|done]. intros (n & En & Hn)%list_elem_of_fmap_1. apply (H3 n Hn). rewrite <- En. by apply elem_of_set_add; left.
    + intros n [->|Hn]%elem_of_cons; [done|]. intros Hin. apply (H3 n Hn), elem_of_set_add. by right.
    + intros n [->|Hn]%elem_of_cons; [cbn; split; [by left|split_and!; try done; lia]|].
      destruct (H4 n Hn) as (? & ? & ? & _). split_and!; try done; [by right|]. specialize (Hrow n Hn). case_decide; lia.
    + intros x [->|Hx]%elem_of_cons; [by right; left|]. destruct (H5 x Hx) as [[->|?]%elem_of_set_add|?]; [by right; left|by left|by right; right].
    + cbn. constructor; [|done]. intros (n & En & Hn)%list_elem_of_fmap_1. unfold position in En. cbn in En. injection En as Ec Er.
      destruct (H4 n Hn) as (_ & _ & Hc & _). rewrite Hc in Ec. apply kind_column_inj in Ec. specialize (Hrow n Hn).
      rewrite decide_True in Hrow by done. rewrite <- Ec in Hrow. lia.
Qed.

Definition is_namespace (name : string) (r : Resource) : bool :=
  bool_decide (kr_kind r = RNamespace) && bool_decide (kr_name r = name).

Lemma namespace_ids name resources m :
  map_get name (foldl (fun m r => match kr_kind r with RNamespace => if map_has (kr_name r) m then m else map_set (kr_name r) (kr_id r) m | _ => m end) m resources) =
  match map_get name m with Some i => Some i | None => kr_id <$> List.find (is_namespace name) resources end.
Proof.
  revert m. induction resources as [|r rest IH]; intros m; cbn [foldl List.find]; [by destruct (map_get name m)|].
  rewrite IH. unfold is_namespace at 2. destruct (kr_kind r) eqn:Ek; try done. unfold map_has.
  rewrite (bool_decide_eq_true_2 (RNamespace = RNamespace)) by done. cbn [andb].
  destruct (map_get (kr_name r) m) eqn:Em.
  - case_bool_decide as En; [subst name; by rewrite Em|done].
  - rewrite map_get_set. cbn. case_bool_decide as En.
    + rewrite decide_True by done. subst name. by rewrite Em.
    + by rewrite decide_False by done.
Qed.

Lemma namespace_of_spec resources r i :
  namespace_of (namespaceIdByName resources) r = Some i <->
  kr_kind r <> RNamespace /\ i <> EmptyString /\
  exists name, kr_namespace r = Some name /\ name <> EmptyString /\ (kr_id <$> List.find (is_namespace name) resources) = Some i.
Proof.
  assert (forall ids, namespace_of ids r =
    if decide (kr_kind r = RNamespace) then None else present (present (kr_namespace r) ≫= fun n => map_get n ids)) as ->.
  { intros ids. unfold namespace_of. by destruct (kr_kind r). }
  assert ((present (kr_namespace r) ≫= fun n => map_get n (namespaceIdByName resources)) = Some i <->
    exists name, kr_namespace r = Some name /\ name <> EmptyString /\ (kr_id <$> List.find (is_namespace name) resources) = Some i) as Hn.
  { unfold present, namespaceIdByName. destruct (kr_namespace r) as [name|]; cbn; [|naive_solver].
    destruct (String.eqb_spec name EmptyString); cbn; [naive_solver|]. rewrite namespace_ids. cbn. naive_solver. }
  destruct (decide _) as [Hk|Hk]; [by split; [|intros [? _]]|].
  destruct (present (kr_namespace r) ≫= fun n => map_get n (namespaceIdByName resources)) as [j|]; cbn [present].
  - destruct (String.eqb_spec j EmptyString) as [->|Hj]; split; try done.
    + intros (_ & Hi & Hx). apply Hn in Hx as [= <-]. done.
    + intros [= <-]. split_and!; [done..|]. by apply Hn.
    + intros (_ & _ & Hx). by apply Hn in Hx as [= ->].
  - split; [done|]. intros (_ & _ & Hx). by apply Hn in Hx.
Qed.

Lemma ordered_all resources r :
  r ∈ flat_map (fun k => List.filter (fun r => bool_decide (kr_kind r = k)) resources) KIND_ORDER <-> r ∈ resources.
Proof.
  rewrite !list_elem_of_In, in_flat_map. setoid_rewrite filter_In. split; [naive_solver|]. intros Hr.
  exists (kr_kind r). split; [by destruct (kr_kind r); cbn; auto 8|]. split; [done|]. by apply bool_decide_eq_true.
Qed.

(** The infrastructure graph.  Its nodes are the resources, one node for each identifier,
    no two at one place, each in the column of its kind; and its edges are exactly the
    namespaces that the resources name and that exist: no relation is drawn that no
    field backs, and no edge hangs in the air. *)
Theorem infra_graph resources :
  let g := buildInfraTopology resources in
  (forall i, i ∈ map in_id g.1 <-> i ∈ map kr_id resources) /\ NoDup (map in_id g.1) /\ NoDup (map position g.1) /\
  (forall n, n ∈ g.1 -> in_resource n ∈ resources /\ in_id n = kr_id (in_resource n) /\
    in_column n = kind_column (kr_kind (in_resource n)) /\ 0 <= in_row n) /\
  (forall e, e ∈ g.2 <-> exists n name ns, n ∈ g.1 /\ kr_kind (in_resource n) <> RNamespace /\
    kr_namespace (in_resource n) = Some name /\ name <> EmptyString /\
    List.find (is_namespace name) resources = Some ns /\ kr_id ns <> EmptyString /\
    e = mkInfraEdge (kr_id ns +:+ "->" +:+ in_id n) (kr_id ns) (in_id n)) /\
  (forall e, e ∈ g.2 -> ie_source e ∈ map in_id g.1 /\ ie_target e ∈ map in_id g.1).
Proof.
  intros g. unfold g, buildInfraTopology.
  destruct (infra_nodes_added (namespaceIdByName resources) (flat_map (fun k => List.filter (fun r => bool_decide (kr_kind r = k)) resources) KIND_ORDER) [] [])
    as [H1 H2 H3 H4 H5 H6].
  set (nodes := (infra_nodes _ _ _ _).1) in *. set (edges := (infra_nodes _ _ _ _).2) in *. setoid_rewrite ordered_all in H4. setoid_rewrite ordered_all in H5.
  assert (forall i, i ∈ map in_id nodes <-> i ∈ map kr_id resources) as Hi.
  { intros i. split.
    - intros (n & -> & Hn)%list_elem_of_fmap_1. destruct (H4 n Hn) as (Hr & -> & _). by apply list_elem_of_fmap_2.
    - intros (r & -> & Hr)%list_elem_of_fmap_1. by destruct (H5 r Hr) as [?%elem_of_nil|]. }
  assert (forall e, e ∈ edges <-> exists n name ns, n ∈ nodes /\ kr_kind (in_resource n) <> RNamespace /\
    kr_namespace (in_resource n) = Some name /\ name <> EmptyString /\ List.find (is_namespace name) resources = Some ns /\
    kr_id ns <> EmptyString /\ e = mkInfraEdge (kr_id ns +:+ "->" +:+ in_id n) (kr_id ns) (in_id n)) as He.
  { intros e. rewrite H1, list_elem_of_omap. unfold edge_of. setoid_rewrite bind_Some. setoid_rewrite namespace_of_spec.
    setoid_rewrite fmap_Some. split.
    - intros (n & Hn & i & (? & ? & name & ? & ? & ns & ? & ->) & [= <-]). exists n, name, ns. done.
    - intros (n & name & ns & Hn & ? & ? & ? & ? & ? & ->). exists n. split; [done|]. exists (kr_id ns). split; [|done].
      split_and!; [done..|]. exists name. split_and!; [done..|]. by exists ns. }
  split_and!; [done..| |done|].
  - intros n Hn. destruct (H4 n Hn) as (? & ? & ? & ?). done.
  - intros e (n & name & ns & Hn & _ & _ & _ & Hf & _ & ->)%He. cbn. split; [|by apply list_elem_of_fmap_2].
    apply Hi, list_elem_of_fmap_2, list_elem_of_In. by apply find_some in Hf as [? _].
Qed.

(** ** The lazy loader *)

(** What happens to a loader: its component is rendered, an import settles, the user
    retries.  React calls the load function of a lazy component once, on its first
    render. *)
Inductive LoaderEvent := Render | Settle (ok : bool) | Retry.

Definition loader_step (l : Loader) (e : LoaderEvent) : Loader :=
  match e with
  | Render => match ld_status l with LNew => loader_load l | _ => l end
  | Settle ok => match ld_inFlight l with O => l | S _ => loader_settle ok l end
  | Retry => (loader_retry l).1
  end.

Definition failures (es : list LoaderEvent) : nat := length (List.filter (fun e => match e with Settle false => true | _ => false end) es).

Record loader_ok (fails : nat) (l : Loader) : Prop := {
  lo_flight : ld_inFlight l = match ld_status l with LLoading => 1%nat | _ => 0%nat end;
  lo_current : ld_current l = ld_attempt l;
  lo_calls : ld_importCalls l = match ld_status l with LNew => ld_attempt l | _ => S (ld_attempt l) end;
  lo_fails : (ld_attempt l + match ld_status l with LFailed => 1 | _ => 0 end <= fails)%nat;
}.

Lemma loader_step_ok fails l e : loader_ok fails l -> loader_ok (fails + failures [e]) (loader_step l e).
Proof.
  intros [H1 H2 H3 H4]. destruct l as [attempt calls status current flight]. cbn in *.
  destruct e as [|[]|], status; subst; cbn; split; cbn; lia.
Qed.

Lemma loader_steps_ok fails l es : loader_ok fails l -> loader_ok (fails + failures es) (foldl loader_step l es).
Proof.
  revert fails l. induction es as [|e es IH]; intros fails l Hl; cbn [foldl]; [by rewrite Nat.add_0_r|].
  replace (fails + failures (e :: es))%nat with (fails + failures [e] + failures es)%nat; [by apply IH, loader_step_ok|].
  unfold failures. cbn. destruct e as [|[]|]; cbn; lia.
Qed.

(** Whatever the user clicks and however the imports end, one import at most is in
    flight, there is one import for each component, a new component is made only for an
    import that failed, and a retry is refused exactly when the last import did not fail. *)
Theorem retries_never_stack es :
  let l := foldl loader_step createRetryableLoader es in
  (ld_inFlight l <= 1)%nat /\ (ld_importCalls l <= S (ld_attempt l))%nat /\ (ld_attempt l <= failures es)%nat /\
  ld_current l = ld_attempt l /\ ((loader_retry l).2 = true <-> ld_status l = LFailed) /\
  ((loader_retry l).2 = true -> ld_inFlight l = 0%nat /\ ld_status (loader_step (loader_step l Retry) Render) = LLoading).
Proof.
  intros l. destruct (loader_steps_ok 0 createRetryableLoader es) as [H1 H2 H3 H4]; [by split; cbn|].
  fold l in H1, H2, H3, H4. unfold loader_step, loader_retry. destruct (ld_status l); cbn in *; split_and!; try done; lia.
Qed.
