(* ===== verification/Session.v ===== *)
(** * The signed-in session of the web console: [web/src/auth], [api/client.ts], [config/loadConfig.ts]

    The page keeps an access token in a reference, the state of the session in React
    state, the answers of the API in a query cache and one mark in the session storage.
    The OIDC library and the browser are the environment: what they report is an input
    of the state machine, in any order, and so is the moment a promise settles. *)

From S2P Require Import Prelude JsBase JsText JsJson JsLib Uri Effects Config SsoStore Console.
From Stdlib Require Import Ascii.
From Stdlib Require String.
Open Scope Z_scope.

(** ** [/config.json] *)

Record OidcRuntimeConfig := mkOidc { oc_issuer : string; oc_clientId : option string; oc_redirectPath : option string; oc_scope : option string }.

(** [undefined], or a string that [ok] holds of. *)
Definition optional_string (ok : string -> bool) (v : option json) : option (option string) :=
  match v with
  | None => Some None
  | Some (JStr s) => if ok s then Some (Some s) else None
  | Some _ => None
  end.

Definition not_blank (s : string) : bool := negb (String.eqb (trim s) EmptyString).

(** The error, or the section of the configuration if there is one; [in] throws on a
    value that is no object. *)
Definition validateOidcConfig `{Host} (config : json) : string + option OidcRuntimeConfig :=
  match field config "oidc" with
  | None => match config with JObj _ | JArr _ => inr None | _ => inl "TypeError" end
  | Some (JObj l as oidc) =>
      match field oidc "issuer" with
      | Some (JStr issuer) =>
          if match new_URL issuer with Some u => String.eqb (w_protocol u) "https:" | None => false end then
            match optional_string not_blank (field oidc "clientId") with
            | None => inl "Invalid /config.json: oidc.clientId must be a non-empty string"
            | Some clientId =>
                match optional_string (starts_with "/") (field oidc "redirectPath") with
                | None => inl ("Invalid /config.json: oidc.redirectPath must start with " +:+ dq +:+ "/" +:+ dq)
                | Some redirectPath =>
                    match optional_string not_blank (field oidc "scope") with
                    | None => inl "Invalid /config.json: oidc.scope must be a non-empty string"
                    | Some scope => inr (Some (mkOidc issuer clientId redirectPath scope))
                    end
                end
            end
          else inl "Invalid /config.json: oidc.issuer must be an https URL"
      | _ => inl "Invalid /config.json: oidc.issuer must be an https URL"
      end
  | Some _ => inl "Invalid /config.json: oidc must be an object"
  end.

(** ** [ConfigContext.tsx] *)

Definition DEFAULT_BASE_DOMAIN : string := "local.beluga.internal".

Definition baseDomainFromIssuer `{Host} (issuer : option string) : string :=
  match present issuer ≫= new_URL with
  | None => DEFAULT_BASE_DOMAIN
  | Some u =>
      let labels := split_char "." (w_hostname u) in
      if (3 <=? length labels)%nat then join "." (drop 1 labels) else DEFAULT_BASE_DOMAIN
  end.

(** ** [authClient.ts] *)

Record AuthUser := mkUser { au_name : string; au_groups : list string; au_accessToken : string }.

Definition DEFAULT_CLIENT_ID : string := "beluga-manager".
Definition DEFAULT_REDIRECT_PATH : string := "/auth/callback".
Definition DEFAULT_SCOPE : string := "openid profile email groups".

(** Where the OIDC library keeps things. *)
Inductive StateStore := InMemory | SessionStorage | LocalStorage.

Record UserManagerSettings := mkSettings {
  um_authority : string; um_client_id : string; um_redirect_uri : string; um_post_logout_redirect_uri : string;
  um_response_type : string; um_scope : string; um_userStore : StateStore; um_stateStore : StateStore; um_automaticSilentRenew : bool;
}.

Definition buildUserManagerSettings (oidc : OidcRuntimeConfig) (origin : string) : UserManagerSettings :=
  mkSettings (oc_issuer oidc) (default DEFAULT_CLIENT_ID (oc_clientId oidc))
    (origin +:+ default DEFAULT_REDIRECT_PATH (oc_redirectPath oidc)) (origin +:+ "/")
    "code" (default DEFAULT_SCOPE (oc_scope oidc)) InMemory SessionStorage false.

(** A user of the library: the claims of the identity token, the tokens, expiry. *)
Record OidcUser := mkOidcUser { ou_profile : json; ou_access_token : string; ou_refresh_token : option string; ou_expired : bool }.

Definition non_empty_string (v : option json) : option string :=
  match v with Some (JStr s) => if String.eqb s EmptyString then None else Some s | _ => None end.

Definition string_item (j : json) : option string := match j with JStr s => Some s | _ => None end.

Definition toAuthUser (user : OidcUser) : AuthUser :=
  let labels := omap (fun key => non_empty_string (field (ou_profile user) key)) ["preferred_username"; "name"; "email"; "sub"] in
  let groups := match field (ou_profile user) "groups" with Some (JArr l) => omap string_item l | _ => [] end in
  mkUser (default EmptyString (head labels)) groups (ou_access_token user).

(** [restore()] of the client; whether [signinSilent] is called before a token expires. *)
Definition restore (user : option OidcUser) : option AuthUser :=
  user ≫= fun u => if ou_expired u then None else Some (toAuthUser u).
Definition renews (user : option OidcUser) : bool :=
  match user ≫= fun u => present (ou_refresh_token u) with Some _ => true | None => false end.

(** ** [AuthContext.tsx] *)

Inductive AuthStatus := StDisabled | StLoading | StUnauthenticated | StAuthenticated | StError.

Record AuthState := mkState {
  st_status : AuthStatus; st_user : option AuthUser; st_expired : bool; st_loggedOut : bool; st_errorMessage : option string;
}.

Definition DISABLED : AuthState := mkState StDisabled None false false None.
Definition LOADING : AuthState := mkState StLoading None false false None.
Definition SIGNED_OUT : AuthState := mkState StUnauthenticated None false false None.
Definition errorState (message : string) : AuthState := mkState StError None false false (Some message).

(** Promises that have not settled: the start of the page, [client.clear()] with what
    follows it, the redirects to the identity provider. *)
Inductive Pending := PRun | PClear (expired loggedOut : bool) | PLogin | PLogout.

(** The session.  [ss_cache]: the token each cached query was sent with; [ss_auto]:
    [autoLoginStarted] of the login screen that is mounted. *)
Record Session := mkSession {
  ss_token : option string;
  ss_state : AuthState;
  ss_cache : list (option string);
  ss_pending : list Pending;
  ss_started : bool;
  ss_callback : bool;
  ss_auto : bool;
  ss_stored : bool;
}.

Definition with_state (st : AuthState) (s : Session) : Session :=
  mkSession (ss_token s) st (ss_cache s) (ss_pending s) (ss_started s) (ss_callback s) (ss_auto s) (ss_stored s).
Definition with_token (t : option string) (s : Session) : Session :=
  mkSession t (ss_state s) (ss_cache s) (ss_pending s) (ss_started s) (ss_callback s) (ss_auto s) (ss_stored s).
Definition with_pending (l : list Pending) (s : Session) : Session :=
  mkSession (ss_token s) (ss_state s) (ss_cache s) l (ss_started s) (ss_callback s) (ss_auto s) (ss_stored s).
Definition wait_for (p : Pending) (s : Session) : Session := with_pending (ss_pending s ++ [p]) s.
Definition with_cache (c : list (option string)) (s : Session) : Session :=
  mkSession (ss_token s) (ss_state s) c (ss_pending s) (ss_started s) (ss_callback s) (ss_auto s) (ss_stored s).
Definition with_stored (b : bool) (s : Session) : Session :=
  mkSession (ss_token s) (ss_state s) (ss_cache s) (ss_pending s) (ss_started s) (ss_callback s) (ss_auto s) b.
Definition with_auto (b : bool) (s : Session) : Session :=
  mkSession (ss_token s) (ss_state s) (ss_cache s) (ss_pending s) (ss_started s) (ss_callback s) b (ss_stored s).

(** What [App] renders: the views, or the login screen. *)
Definition gate_open (s : Session) : bool :=
  match st_status (ss_state s) with StAuthenticated | StDisabled => true | _ => false end.

Section session.
(** Whether there is an [oidc] section; whether the session storage works. *)
Context (client : bool) (storage : bool).

Definition hasStoredLogout (s : Session) : bool := storage && ss_stored s.
Definition storeLogout (s : Session) : Session := if storage then with_stored true s else s.
Definition clearStoredLogout (s : Session) : Session := if storage then with_stored false s else s.

(** The page is loaded, on the redirect path or not. *)
Definition page_load (stored callback : bool) : Session :=
  mkSession None (if client then LOADING else DISABLED) [] [] false callback false stored.

Definition signedIn (user : AuthUser) (s : Session) : Session :=
  with_state (mkState StAuthenticated (Some user) false false None) (with_token (Some (au_accessToken user)) (clearStoredLogout s)).

Definition signedOut (expired loggedOut : bool) (s : Session) : Session :=
  with_state (mkState StUnauthenticated None expired loggedOut None) (with_cache [] (with_token None s)).

Definition onUnauthorized (s : Session) : Session :=
  match ss_token s with
  | None => s
  | Some _ => wait_for (PClear true false) (with_token None s)
  end.

Definition onLost (s : Session) : Session := wait_for (PClear true false) s.

(** The effect that starts the session; its two continuations. *)
Definition start (s : Session) : Session :=
  if ss_started s then s
  else mkSession (ss_token s) (ss_state s) (ss_cache s) (ss_pending s ++ [PRun]) true (ss_callback s) (ss_auto s) (ss_stored s).

Definition run_done (user : option AuthUser) (s : Session) : Session :=
  match user with
  | Some u => signedIn u s
  | None => with_state (mkState StUnauthenticated None false (hasStoredLogout s) None) s
  end.

(** [login()]; [throws]: the call itself throws. *)
Definition login (throws : option string) (s : Session) : Session :=
  let s := with_state LOADING (clearStoredLogout s) in
  match throws with Some e => with_state (errorState e) s | None => wait_for PLogin s end.

Definition logout (s : Session) : Session := wait_for PLogout (with_cache [] (with_token None s)).

Inductive Outcome := Done (user : option AuthUser) | Rejected (message : string).

(** A promise settles.  After a redirect to the identity provider went through the page
    is being left, and nothing of this page runs on it. *)
Definition settle (p : Pending) (o : Outcome) (s : Session) : Session :=
  match p, o with
  | PRun, Done user => run_done user s
  | PRun, Rejected e => with_state (errorState e) s
  | PClear expired loggedOut, _ => signedOut expired loggedOut s
  | PLogin, Done _ => s
  | PLogin, Rejected e => with_state (errorState e) s
  | PLogout, Done _ => wait_for PLogout s
  | PLogout, Rejected _ => wait_for (PClear false true) (storeLogout s)
  end.

(** The login screen logs in by itself on a first visit. *)
Definition auto_ready (s : Session) : bool :=
  match st_status (ss_state s) with
  | StUnauthenticated => negb (st_expired (ss_state s)) && negb (st_loggedOut (ss_state s)) && negb (ss_auto s)
  | _ => false
  end.

Inductive Input :=
| Start | Settled (i : nat) (o : Outcome) | UserLoaded (user : AuthUser) | Lost | Unauthorized
| Login (throws : option string) | Logout | AutoLogin (throws : option string) | QueryStart.

(** The user menu is behind the gate and the button of the login screen before it; the
    login screen is mounted again after the views were shown. *)
Definition react (i : Input) (s : Session) : Session :=
  match i with
  | Start => start s
  | Settled i o => match ss_pending s !! i with Some p => settle p o (with_pending (delete i (ss_pending s)) s) | None => s end
  | UserLoaded user => signedIn user s
  | Lost => onLost s
  | Unauthorized => onUnauthorized s
  | Login throws => if gate_open s then s else login throws s
  | Logout => if gate_open s then logout s else s
  | AutoLogin throws => if auto_ready s then login throws (with_auto true s) else s
  | QueryStart => if gate_open s then with_cache (ss_token s :: ss_cache s) s else s
  end.

Definition session_step (s : Session) (i : Input) : Session :=
  if client then (let s' := react i s in if gate_open s' then with_auto false s' else s')
  else match i with QueryStart => with_cache (ss_token s :: ss_cache s) s | _ => s end.
End session.

(** ** The runs of one page *)

Definition users_of (i : Input) : list AuthUser :=
  match i with
  | UserLoaded u => [u]
  | Settled _ (Done (Some u)) => [u]
  | _ => []
  end.

(** What the OIDC library guarantees: [restore()] finds nobody and [handleCallback()]
    fails only if nobody was signed in before, and [handleCallback()] gives a user; a
    redirect and a clear give none. *)
Definition library (us : list AuthUser) (s : Session) (i : Input) : bool :=
  match i with
  | Settled n o =>
      match ss_pending s !! n, o with
      | Some PRun, Done None => bool_decide (us = []) && negb (ss_callback s)
      | Some PRun, Rejected _ => bool_decide (us = [])
      | Some PRun, Done (Some _) => true
      | _, Done (Some _) => false
      | _, _ => true
      end
  | Lost => bool_decide (us <> [])
  | _ => true
  end.

(** [page us n s]: the page signed in [us], logged in by itself [n] times and is in [s]. *)
Inductive page (client storage : bool) : list AuthUser -> nat -> Session -> Prop :=
| page_start stored callback : page client storage [] 0 (page_load client stored callback)
| page_next us n s i : page client storage us n s -> library us s i = true ->
    page client storage (us ++ (if client then users_of i else []))
      (n + (match i with AutoLogin _ => if client && auto_ready s then 1 else 0 | _ => 0 end)) (session_step client storage s i).

Definition leaving (s : Session) : bool :=
  existsb (fun p => match p with PClear _ _ | PLogout => true | _ => false end) (ss_pending s).

Section page.
Context (storage : bool).

(** The invariant of a page with an [oidc] section. *)
Record session_ok (us : list AuthUser) (n : nat) (s : Session) : Prop := {
  so_token : forall t, ss_token s = Some t -> t ∈ map au_accessToken us;
  so_user : st_status (ss_state s) = StAuthenticated -> exists u, st_user (ss_state s) = Some u /\ u ∈ us /\
    (ss_token s = Some (au_accessToken u) \/ ss_token s = None /\ leaving s = true);
  so_out : st_status (ss_state s) = StUnauthenticated -> ss_token s = None /\ ss_cache s = [];
  so_first : us = [] -> ss_token s = None /\ ss_cache s = [] /\ leaving s = false /\ gate_open s = false;
  so_enabled : st_status (ss_state s) <> StDisabled;
  so_others : st_status (ss_state s) <> StAuthenticated -> st_user (ss_state s) = None;
  so_cache : forall t, Some t ∈ ss_cache s -> t ∈ map au_accessToken us;
  so_plain : st_status (ss_state s) = StUnauthenticated -> st_expired (ss_state s) = false -> st_loggedOut (ss_state s) = false ->
    us = [] /\ ss_callback s = false /\ hasStoredLogout storage s = false;
  so_clears : forall a b, PClear a b ∈ ss_pending s -> a || b = true;
  so_auto : (n <= 1)%nat /\ (n = 1%nat -> ss_callback s = false /\ (us = [] -> ss_auto s = true));
}.

Lemma page_load_ok stored callback : session_ok [] 0 (page_load true stored callback).
Proof. split; cbn; try done; set_solver. Qed.

Lemma leaving_app l l' s : leaving (with_pending (l ++ l') s) = leaving (with_pending l s) || leaving (with_pending l' s).
Proof. apply existsb_app. Qed.

Lemma stored_ok us n b s : session_ok us n s -> b = false \/ us <> [] -> session_ok us n (with_stored b s).
Proof.
  intros [] Hb. split; try done. cbn. intros H1 H2 H3. destruct (so_plain0 H1 H2 H3) as (Hu & Hc & Hs). split_and!; [done..|].
  unfold hasStoredLogout in *. cbn. destruct Hb as [-> | ?]; [|done]. by rewrite andb_false_r.
Qed.

Lemma signedIn_ok us n u s : session_ok us n s -> session_ok (us ++ [u]) n (with_auto false (signedIn storage u s)).
Proof.
  intros Hs. assert (session_ok us n (clearStoredLogout storage s)) as [] by (unfold clearStoredLogout; destruct storage; [by apply stored_ok; auto|done]).
  split; cbn; try done; try (by destruct us).
  - intros t [= <-]. rewrite map_app. apply elem_of_app. right. by left.
  - intros _. exists u. split_and!; [done| |by left]. apply elem_of_app. right. by left.
  - intros t Ht. rewrite map_app. apply elem_of_app. left. auto.
  - destruct so_auto0 as [? Hn]. split; [done|]. intros ->. destruct (Hn eq_refl) as [? _]. split; [done|by destruct us].
Qed.

Lemma signedOut_ok us n a b l s :
  session_ok us n s -> us <> [] -> a || b = true -> l ⊆ ss_pending s -> session_ok us n (signedOut a b (with_pending l s)).
Proof.
  intros [] Hu Hab Hl. split; cbn; try done; try (by intros; split); try (by intros; set_solver).
Qed.

(** The page is about to be left or signed out: the token and the cache may be dropped. *)
Lemma leave_ok us n p l t c s :
  session_ok us n s -> us <> [] -> match p with PClear a b => a || b | PLogout => true | _ => false end = true ->
  l ⊆ ss_pending s -> t = ss_token s \/ t = None -> c = ss_cache s \/ c = [] ->
  session_ok us n (with_pending (l ++ [p]) (with_cache c (with_token t s))).
Proof.
  intros [] Hu Hp Hl Ht Hc.
  assert (leaving (with_pending (l ++ [p]) (with_cache c (with_token t s))) = true) as Hlv.
  { unfold leaving. cbn. rewrite existsb_app. cbn. rewrite orb_true_iff. right. by destruct p. }
  split; cbn; try done.
  - intros x Hx. destruct Ht as [-> | ->]; [by auto|done].
  - intros Ha. destruct (so_user0 Ha) as (u & E & Hin & Hor). exists u. split_and!; [done..|].
    destruct Ht as [-> | ->]; [|by right]. destruct Hor as [|[? _]]; [by left|by right].
  - intros Ha. destruct (so_out0 Ha) as [E1 E2]. split; [by destruct Ht as [-> | ->]|by destruct Hc as [-> | ->]].
  - intros x Hx. destruct Hc as [-> | ->]; [auto|set_solver].
  - intros a b [Hin|Hin%list_elem_of_singleton]%elem_of_app; [by apply so_clears0, Hl|by subst p].
Qed.

Lemma existsb_delete {A} (f : A -> bool) l i x : l !! i = Some x -> f x = false -> existsb f (delete i l) = existsb f l.
Proof.
  revert i. induction l as [|y l IH]; intros [|i] Hi Hx; try done; cbn in *; [injection Hi as ->; by rewrite Hx|].
  f_equal. by apply (IH i).
Qed.

Lemma elem_of_list_delete {A} (l : list A) i x : x ∈ delete i l -> x ∈ l.
Proof. rewrite delete_take_drop. rewrite elem_of_app, !list_elem_of_lookup. setoid_rewrite lookup_take_Some. setoid_rewrite lookup_drop. naive_solver. Qed.

(** A promise that leaves nothing behind when it settles. *)
Lemma drop_ok us n i p s :
  session_ok us n s -> ss_pending s !! i = Some p -> match p with PRun | PLogin => true | _ => false end = true ->
  session_ok us n (with_pending (delete i (ss_pending s)) s).
Proof.
  intros [] Hi Hp. assert (leaving (with_pending (delete i (ss_pending s)) s) = leaving s) as Hl.
  { unfold leaving. cbn. eapply existsb_delete; [done|]. by destruct p. }
  split; try done.
  - intros Ha. rewrite Hl. exact (so_user0 Ha).
  - intros Hu. rewrite Hl. exact (so_first0 Hu).
  - intros a b Hin%elem_of_list_delete. by apply so_clears0.
Qed.

Lemma error_ok us n e s : session_ok us n s -> session_ok us n (with_state (errorState e) s).
Proof. intros []. split; try done. cbn. intros Hu. by destruct (so_first0 Hu) as (? & ? & ? & _). Qed.

Lemma nobody_ok us n b s : session_ok us n s -> us = [] -> ss_callback s = false -> b = hasStoredLogout storage s ->
  session_ok us n (with_state (mkState StUnauthenticated None false b None) s).
Proof. intros [] Hu Hc ->. destruct (so_first0 Hu) as (E1 & E2 & E3 & E4). by split. Qed.

Lemma login_ok us n throws s : session_ok us n s -> session_ok us n (login storage throws s).
Proof.
  intros Hs. assert (session_ok us n (with_state LOADING (clearStoredLogout storage s))) as Hl.
  { unfold clearStoredLogout. destruct storage; destruct Hs; split; try done; cbn; intros Hu; by destruct (so_first0 Hu) as (? & ? & ? & _). }
  unfold login. destruct throws; [by apply error_ok|]. destruct Hl. split; try done.
  - intros Hu. destruct (so_first0 Hu) as (E1 & E2 & E3 & E4). split_and!; [done..| |done].
    unfold leaving in *. cbn in *. by rewrite existsb_app, E3.
  - intros a b [Hin|Hin%list_elem_of_singleton]%elem_of_app; [by apply so_clears0|done].
Qed.

Lemma start_ok us n s : session_ok us n s -> session_ok us n (start s).
Proof.
  unfold start. destruct (ss_started s); [done|]. intros []. split; try done.
  - intros Ha. destruct (so_user0 Ha) as (u & E & Hin & Hor). exists u. split_and!; [done..|]. destruct Hor as [|[? Hl]]; [by left|].
    right. split; [done|]. unfold leaving in *. cbn. by rewrite existsb_app, Hl.
  - intros Hu. destruct (so_first0 Hu) as (E1 & E2 & E3 & E4). split_and!; [done..| |done]. unfold leaving in *. cbn.
    by rewrite existsb_app, E3.
  - intros a b [Hin|Hin%list_elem_of_singleton]%elem_of_app; [by apply so_clears0|done].
Qed.

Lemma gate_used us n s : session_ok us n s -> gate_open s = true -> us <> [].
Proof. intros [] Hg ->. destruct (so_first0 eq_refl) as (_ & _ & _ & E). congruence. Qed.

Lemma reset_ok us n s : session_ok us n s -> session_ok us n (if gate_open s then with_auto false s else s).
Proof.
  intros Hs. destruct (gate_open s) eqn:Hg; [|done]. pose proof (gate_used _ _ _ Hs Hg) as Hu. destruct Hs. split; try done.
  destruct so_auto0 as [? Hn]. split; [done|]. intros Hn1. by destruct (Hn Hn1).
Qed.

Lemma query_ok us n s : session_ok us n s -> gate_open s = true -> session_ok us n (with_cache (ss_token s :: ss_cache s) s).
Proof.
  intros Hs Hg. pose proof (gate_used _ _ _ Hs Hg) as Hu. destruct Hs. split; try done.
  - cbn. intros E. unfold gate_open in Hg. by rewrite E in Hg.
  - cbn. intros t [Ht|Ht]%elem_of_cons; [|by apply so_cache0]. by apply so_token0.
Qed.

Lemma auto_login_ok us n throws s : session_ok us n s -> auto_ready s = true ->
  session_ok us (n + 1) (login storage throws (with_auto true s)) /\ us = [] /\ n = 0%nat /\ ss_callback s = false.
Proof.
  intros Hs Hr. unfold auto_ready in Hr. destruct (st_status (ss_state s)) eqn:Est; try done.
  rewrite !andb_true_iff, !negb_true_iff in Hr. destruct Hr as [[He Hl] Ha].
  pose proof Hs as []. destruct (so_plain0 Est He Hl) as (Hu & Hc & _). destruct so_auto0 as [Hle Hn].
  assert (n = 0%nat) as -> by (destruct n as [|[|]]; [done|destruct (Hn eq_refl) as [_ Hf]; by rewrite (Hf Hu) in Ha|lia]).
  split_and!; try done. apply login_ok. destruct Hs. split; try done.
Qed.

(** What is pending while nobody was signed in: the start and a redirect. *)
Lemma first_pending us n s i p : session_ok us n s -> us = [] -> ss_pending s !! i = Some p -> match p with PRun | PLogin => true | _ => false end = true.
Proof.
  intros [] Hu Hi. destruct (so_first0 Hu) as (_ & _ & Hl & _). unfold leaving in Hl.
  destruct p; try done; exfalso; rewrite <- not_true_iff_false in Hl; apply Hl, existsb_exists;
    [exists (PClear expired loggedOut)|exists PLogout]; (split; [|done]); apply list_elem_of_In, list_elem_of_lookup; by exists i.
Qed.

Lemma settle_ok us n s i o : session_ok us n s -> library us s (Settled i o) = true ->
  session_ok (us ++ users_of (Settled i o)) n (let s' := react storage (Settled i o) s in if gate_open s' then with_auto false s' else s').
Proof.
  intros Hs Hl. cbn [library react] in *.
  destruct (ss_pending s !! i) as [p|] eqn:Hi.
  2: { assert (users_of (Settled i o) = []) as -> by (by destruct o as [[]|]). rewrite app_nil_r. by apply reset_ok. }
  set (l := delete i (ss_pending s)). assert (l ⊆ ss_pending s) as Hsub by (intros x; apply elem_of_list_delete).
  assert (match p with PRun | PLogin => false | _ => true end = true -> us <> []) as Hused.
  { intros Hp Hu. pose proof (first_pending _ _ _ _ _ Hs Hu Hi). by destruct p. }
  pose proof (drop_ok us n i p s Hs Hi) as Hdrop.
  destruct p as [|a b| |], o as [[u|]|e]; try done; cbn [settle run_done users_of]; rewrite ?app_nil_r.
  - cbn. by apply signedIn_ok, Hdrop.
  - apply andb_true_iff in Hl as [Hu%bool_decide_eq_true Hc%negb_true_iff]. apply reset_ok, nobody_ok; [by apply Hdrop|done..].
  - by apply reset_ok, error_ok, Hdrop.
  - apply reset_ok, signedOut_ok; auto. pose proof Hs as []. apply so_clears0, list_elem_of_lookup. by exists i.
  - apply reset_ok, signedOut_ok; auto. pose proof Hs as []. apply so_clears0, list_elem_of_lookup. by exists i.
  - by apply reset_ok, Hdrop.
  - by apply reset_ok, error_ok, Hdrop.
  - apply reset_ok. by apply (leave_ok us n PLogout l (ss_token s) (ss_cache s) s); auto.
  - apply reset_ok. unfold storeLogout. destruct storage.
    + by apply (leave_ok us n (PClear false true) l (ss_token s) (ss_cache s) (with_stored true s)); auto using stored_ok.
    + by apply (leave_ok us n (PClear false true) l (ss_token s) (ss_cache s) s); auto.
Qed.

Lemma page_ok us n s : page true storage us n s -> session_ok us n s.
Proof.
  induction 1 as [stored callback|us n s i Hp IH Hl]; [apply page_load_ok|]. unfold session_step. destruct i as [|i o|u| | |throws| |throws|]; cbn [react users_of].
  - rewrite app_nil_r, Nat.add_0_r. by apply reset_ok, start_ok.
  - rewrite Nat.add_0_r. by apply settle_ok.
  - rewrite Nat.add_0_r. by apply signedIn_ok.
  - rewrite app_nil_r, Nat.add_0_r. apply bool_decide_eq_true in Hl. apply reset_ok.
    by apply (leave_ok us n (PClear true false) (ss_pending s) (ss_token s) (ss_cache s) s); auto.
  - rewrite app_nil_r, Nat.add_0_r. apply reset_ok. unfold onUnauthorized. destruct (ss_token s) eqn:Et; [|done].
    apply (leave_ok us n (PClear true false) (ss_pending s) None (ss_cache s) s); auto.
    intros ->. destruct IH. destruct (so_first0 eq_refl) as [? _]. congruence.
  - rewrite app_nil_r, Nat.add_0_r. apply reset_ok. destruct (gate_open s); [done|by apply login_ok].
  - rewrite app_nil_r, Nat.add_0_r. apply reset_ok. destruct (gate_open s) eqn:Hg; [|done].
    apply (leave_ok us n PLogout (ss_pending s) None [] s); auto. by apply (gate_used _ _ _ IH).
  - rewrite app_nil_r. apply reset_ok. destruct (auto_ready s) eqn:Hr; [by apply auto_login_ok|by rewrite Nat.add_0_r].
  - rewrite app_nil_r, Nat.add_0_r. apply reset_ok. destruct (gate_open s) eqn:Hg; [by apply query_ok|done].
Qed.
End page.

Lemma disabled_page storage us n s : page false storage us n s ->
  us = [] /\ n = 0%nat /\ ss_state s = DISABLED /\ ss_token s = None /\ forall t, t ∈ ss_cache s -> t = None.
Proof.
  induction 1 as [|us n s i _ (-> & -> & Est & Et & Hc) _]; [split_and!; try done; set_solver|].
  unfold session_step. cbn [app]. destruct i; cbn; rewrite ?Est, ?Et; split_and!; try done.
  intros t [->|Ht]%elem_of_cons; auto.
Qed.

(** C20: The session of a page, in whatever order users are delivered, tokens expire, requests
    are refused, promises settle and buttons are pressed.  A request carries no token or
    the one of a user the library signed in; the views are shown only for such a user,
    whose token is the one in use unless the session is being ended; while the sign-in
    screen is shown no user is known, and once it says that nobody is signed in there is
    no token and no answer of the API left.  Without an [oidc] section there is no token. *)
Theorem session_is_safe client storage us n s :
  page client storage us n s ->
  (forall t, ss_token s = Some t \/ Some t ∈ ss_cache s -> client = true /\ t ∈ map au_accessToken us) /\
  (gate_open s = true -> client = true -> exists u, st_user (ss_state s) = Some u /\ u ∈ us /\
    (ss_token s = Some (au_accessToken u) \/ ss_token s = None /\ leaving s = true)) /\
  (gate_open s = false -> client = true /\ st_user (ss_state s) = None) /\
  (st_status (ss_state s) = StUnauthenticated -> ss_token s = None /\ ss_cache s = []).
Proof.
  intros Hp. destruct client.
  - destruct (page_ok storage us n s Hp). split_and!; auto.
    + intros t [Ht|Ht]; auto.
    + intros Hg _. apply so_user0. unfold gate_open in Hg. by destruct (st_status (ss_state s)).
    + intros Hg. split; [done|]. apply so_others0. intros E. unfold gate_open in Hg. by rewrite E in Hg.
  - destruct (disabled_page _ _ _ _ Hp) as (_ & _ & Est & Et & Hc). unfold gate_open. rewrite Est, Et. split_and!; try done.
    intros t [Ht|Ht]; [done|by apply Hc in Ht].
Qed.

Definition alice : AuthUser := mkUser "alice" ["admins"] "token-a".
Definition session_after (l : list Input) (callback : bool) : Session := foldl (session_step true true) (page_load true false callback) l.

(** Signed in by the callback, then an answer 401. *)
Lemma signed_in_page : page true true [alice] 0 (session_after [Start; Settled 0 (Done (Some alice)); QueryStart; Unauthorized] true).
Proof.
  pose proof (page_start true true false true) as H.
  apply (page_next _ _ _ _ _ Start) in H; [|done]. apply (page_next _ _ _ _ _ (Settled 0 (Done (Some alice)))) in H; [|done].
  apply (page_next _ _ _ _ _ QueryStart) in H; [|done]. apply (page_next _ _ _ _ _ Unauthorized) in H; [|done]. exact H.
Qed.

Lemma session_is_safe_witness :
  ss_token (session_after [Start; Settled 0 (Done (Some alice)); QueryStart; Unauthorized] true) = None /\
  exists u, st_user (ss_state (session_after [Start; Settled 0 (Done (Some alice)); QueryStart; Unauthorized] true)) = Some u /\ u ∈ [alice].
Proof.
  split; [reflexivity|].
  destruct (session_is_safe true true [alice] 0 _ signed_in_page) as (_ & Hg & _).
  destruct (Hg eq_refl eq_refl) as (u & Hu & Hin & _). exists u. split; [exact Hu|exact Hin].
Defined.

(** No login loop.  A page sends its user to the identity provider by itself at most once,
    and only when it was not loaded by the way back from there, nobody was signed in on it
    yet and the user did not log out before: however often the API refuses a valid token,
    it takes a click to log in again. *)
Theorem no_login_loop storage us n s :
  page true storage us n s ->
  (n <= 1)%nat /\ (ss_callback s = true -> n = 0%nat) /\
  (auto_ready s = true -> n = 0%nat /\ us = [] /\ ss_callback s = false /\ hasStoredLogout storage s = false).
Proof.
  intros Hp. pose proof (page_ok storage us n s Hp) as Hs. split_and!.
  - by destruct Hs as [_ _ _ _ _ _ _ _ _ [? _]].
  - intros Hc. destruct Hs as [_ _ _ _ _ _ _ _ _ [Hle Hn]]. destruct n as [|[|]]; [done| |lia].
    destruct (Hn eq_refl) as [Hf _]. congruence.
  - intros Hr. destruct (auto_login_ok storage us n None s Hs Hr) as (_ & Hu & Hn & Hc). split_and!; [done..|].
    destruct Hs. unfold auto_ready in Hr. destruct (st_status (ss_state s)) eqn:Est; try done.
    rewrite !andb_true_iff, !negb_true_iff in Hr. destruct Hr as [[He Hl] _]. by destruct (so_plain0 eq_refl He Hl) as (_ & _ & ?).
Qed.

Lemma no_login_loop_witness :
  auto_ready (session_after [Start; Settled 0 (Done None)] false) = true /\
  ss_callback (session_after [Start; Settled 0 (Done None)] false) = false.
Proof.
  split; [reflexivity|].
  assert (page true true [] 0 (session_after [Start; Settled 0 (Done None)] false)) as H.
  { pose proof (page_start true true false false) as H. apply (page_next _ _ _ _ _ Start) in H; [|done].
    by apply (page_next _ _ _ _ _ (Settled 0 (Done None))) in H. }
  destruct (no_login_loop true [] 0 _ H) as (_ & _ & Hr). destruct (Hr eq_refl) as (_ & _ & Hc & _). exact Hc.
Defined.

(** Answers 401 to requests that were sent together end the session once. *)
Lemma one_sign_out s : onUnauthorized (onUnauthorized s) = onUnauthorized s.
Proof. unfold onUnauthorized. destruct (ss_token s) eqn:E; cbn; by rewrite ?E. Qed.

(** An answer 401 to a request with an old token ends the session that was renewed since. *)
Lemma old_refusal_ends_new_session :
  let renewed := session_after [Start; Settled 0 (Done (Some alice)); QueryStart; UserLoaded (mkUser "alice" ["admins"] "token-b")] true in
  ss_cache renewed = [Some "token-a"] /\ ss_token renewed = Some "token-b" /\
  ss_token (session_step true true renewed Unauthorized) = None.
Proof. done. Qed.

(** The tokens are kept in memory; only the state of a login that is under way goes to the
    session storage, nothing to the local storage, and the way back is to this origin. *)
Lemma tokens_stay_in_memory oidc origin :
  let u := buildUserManagerSettings oidc origin in
  um_userStore u = InMemory /\ um_stateStore u = SessionStorage /\ um_automaticSilentRenew u = false /\
  starts_with origin (um_redirect_uri u) = true /\ starts_with origin (um_post_logout_redirect_uri u) = true.
Proof. split_and!; try done; apply prefix_app. Qed.
