(* ===== verification/ApiClient.v ===== *)
(** * Requests of the web console: [web/src/api]

    The client that adds the token to a request and turns a refusal into an error, the
    paths of the hooks, and the requests of the change-request flow. *)

From S2P Require Import Prelude JsBase JsText JsJson JsLib Uri Effects AssetId Config Services Console.
From Stdlib Require Import Ascii.
From Stdlib Require String.
Open Scope Z_scope.

(** ** [client.ts] *)

Record ApiError := mkApiError { ae_status : Z; ae_message : string; ae_code : option string; ae_detail : option string }.

Record FetchRequest := mkFetch { fr_method : string; fr_url : string; fr_headers : list (string * string); fr_body : option json }.

(** The body is [None] when [response.json()] throws. *)
Record FetchResponse := mkFetched { fs_status : Z; fs_json : option json }.

(** The registered callbacks and the network; without callbacks there is no token and
    [OpUnauthorized] does nothing. *)
Inductive WOp := OpToken | OpFetch (r : FetchRequest) | OpUnauthorized.
Definition WAns (e : WOp) : Type :=
  match e with OpToken => option string | OpFetch _ => option FetchResponse | OpUnauthorized => unit end.

Inductive ApiFailure := FetchFailed | NotJson | Refused (e : ApiError).

Definition shouldRetryQuery (failureCount : Z) (error : ApiFailure) : bool :=
  match error with
  | Refused e => if (ae_status e =? 401) || (ae_status e =? 403) then false else failureCount <? 3
  | _ => failureCount <? 3
  end.

Definition text_at (j : option json) (key : string) : option string :=
  match ofield (ofield j "error") key with Some (JStr s) => Some s | _ => None end.

Definition toApiError (response : FetchResponse) (path : string) : ApiError :=
  mkApiError (fs_status response) (path +:+ " responded with " +:+ pretty (fs_status response))
    (text_at (fs_json response) "code") (text_at (fs_json response) "message").

Definition response_ok (r : FetchResponse) : bool := (200 <=? fs_status r) && (fs_status r <=? 299).

(** [if (token) headers.Authorization = ...] *)
Definition bearer (token : option string) : list (string * string) :=
  match token with
  | Some t => if String.eqb t EmptyString then [] else [("Authorization", "Bearer " +:+ t)]
  | None => []
  end.

Local Abbreviation WProg A := (prog WAns A).

Definition answered (path : string) (response : option FetchResponse) : WProg (result ApiFailure json) :=
  match response with
  | None => Ret (inl FetchFailed)
  | Some r =>
      if response_ok r then Ret (match fs_json r with Some j => inr j | None => inl NotJson end)
      else
        await _ := if fs_status r =? 401 then perform OpUnauthorized else Ret tt in
        Ret (inl (Refused (toApiError r path)))
  end.

Definition apiGet (baseUrl path : string) : WProg (result ApiFailure json) :=
  await token := perform OpToken in
  await response := perform (OpFetch (mkFetch "GET" (baseUrl +:+ path) (bearer token) None)) in
  answered path response.

Definition apiSend (baseUrl method path : string) (body : json) (extraHeaders : list (string * string)) : WProg (result ApiFailure json) :=
  await token := perform OpToken in
  await response := perform (OpFetch (mkFetch method (baseUrl +:+ path)
    (("Content-Type", "application/json") :: extraHeaders ++ bearer token) (Some body))) in
  answered path response.

(** ** [hooks.ts] *)

Definition LIST_PAGE_SIZE : Z := 100.

(** A list as the console reads it: the items and [meta.total]. *)
Definition warnIfTruncated {A} (resourceName : string) (data : list A) (total : nat) : option string :=
  if (length data <? total)%nat then
    Some ("[" +:+ resourceName +:+ "] showing " +:+ pretty (Z.of_nat (length data)) +:+ " of " +:+ pretty (Z.of_nat total) +:+ " items -- " +:+
      "list is truncated at pageSize=" +:+ pretty LIST_PAGE_SIZE +:+ " with no pagination UI")
  else None.

Definition list_path (collection : string) : string := "/api/v1/" +:+ collection +:+ "?pageSize=" +:+ pretty LIST_PAGE_SIZE.
Definition kind_param (kind : option string) : string := match kind with Some k => "&kind=" +:+ k | None => EmptyString end.
Definition data_assets_path (kind : option string) : string := list_path "data-assets" +:+ kind_param kind.
Definition data_assets_count_path (kind : option string) : string := "/api/v1/data-assets?pageSize=1" +:+ kind_param kind.
Definition dataAssetChildrenPath (parentId : string) : string :=
  "/api/v1/data-assets?parentId=" +:+ encodeURIComponent parentId +:+ "&pageSize=" +:+ pretty LIST_PAGE_SIZE.
Definition dataAssetPath (i : string) : string := "/api/v1/data-assets/" +:+ encodeURIComponent i.
Definition queryContextPath (i : string) : string := "/api/v1/data-assets/" +:+ encodeURIComponent i +:+ "/query-context".
Definition queryHistoryPath (page pageSize : Z) : string := "/api/v1/query-history?page=" +:+ pretty page +:+ "&pageSize=" +:+ pretty pageSize.
Definition ssoPath : string := "/api/v1/sso".

(** ** [ssoChanges.ts] *)

Definition BASE : string := "/api/v1/sso/change-requests".

Definition draft_json (draft : SsoChangeDraft) : list (string * json) :=
  [("endpoint", JStr (sd_endpoint draft)); ("allowedGroups", JStrs (sd_allowedGroups draft))] ++
  match sd_reason draft with Some r => [("reason", JStr r)] | None => [] end.

Definition getSsoChangeContract (baseUrl : string) := apiGet baseUrl (BASE +:+ "/contract").
Definition listOpenSsoChanges (baseUrl : string) := apiGet baseUrl (BASE +:+ "?status=open").
Definition getSsoChange (baseUrl i : string) := apiGet baseUrl (BASE +:+ "/" +:+ encodeURIComponent i).
Definition previewSsoChange (baseUrl : string) (draft : SsoChangeDraft) :=
  apiSend baseUrl "POST" (BASE +:+ "?dryRun=true") (JObj (draft_json draft)) [].
Definition submit_body (draft : SsoChangeDraft) (baseBlobSha : string) : json :=
  JObj (draft_json draft ++ [("baseBlobSha", JStr baseBlobSha)]).
Definition submitSsoChange (baseUrl : string) (draft : SsoChangeDraft) (baseBlobSha idempotencyKey : string) :=
  apiSend baseUrl "POST" BASE (submit_body draft baseBlobSha) [("Idempotency-Key", idempotencyKey)].
Definition cancelSsoChange (baseUrl i : string) (reason : option string) :=
  apiSend baseUrl "POST" (BASE +:+ "/" +:+ encodeURIComponent i +:+ "/cancel")
    (match reason with Some r => if String.eqb r EmptyString then JObj [] else JObj [("reason", JStr r)] | None => JObj [] end) [].

(** ** The hooks

    A hook of [useQuery] is its key in the cache, the request it makes and when it makes
    it; the query library keeps one answer for each key, compares keys by value and
    invalidates by prefix. *)

Inductive Hook :=
  | useDomainApiHealth | useMe (enabled : bool) | useServices | usePipelines | useEvents | useResources | useDecisions
  | usePolicies | useDataAssets (kind : option DataAssetKind) | useDataAssetsCount (kind : option DataAssetKind)
  | useDataAsset (i : option string) | useDataAssetChildren (parentId : string) (enabled : bool)
  | useQueryContext (i : option string) | useQueryHistory (page pageSize : Z) | useSsoConfig
  | useSsoChangeContract (enabled : bool) | useOpenSsoChanges (enabled : bool).

(** A missing value in a key reads as null. *)
Inductive KeyPart := KeyText (s : string) | KeyNumber (n : Z) | KeyNull.

Definition key_text (o : option string) : KeyPart := match o with Some s => KeyText s | None => KeyNull end.

Definition SSO_OPEN_KEY : list KeyPart := [KeyText "sso-change-open"].

Definition queryKey (h : Hook) : list KeyPart :=
  match h with
  | useDomainApiHealth => [KeyText "domain-api-health"]
  | useMe _ => [KeyText "me"]
  | useServices => [KeyText "services"]
  | usePipelines => [KeyText "pipelines"]
  | useEvents => [KeyText "events"]
  | useResources => [KeyText "resources"]
  | useDecisions => [KeyText "decisions"]
  | usePolicies => [KeyText "policies"]
  | useDataAssets (Some kind) => [KeyText "data-assets"; KeyText (kind_name kind)]
  | useDataAssets None => [KeyText "data-assets"]
  | useDataAssetsCount kind => [KeyText "data-assets-count"; key_text (kind_name <$> kind)]
  | useDataAsset i => [KeyText "data-asset"; key_text i]
  | useDataAssetChildren parentId _ => [KeyText "data-asset-children"; KeyText parentId]
  | useQueryContext i => [KeyText "query-context"; key_text i]
  | useQueryHistory page pageSize => [KeyText "query-history"; KeyNumber page; KeyNumber pageSize]
  | useSsoConfig => [KeyText "sso-config"]
  | useSsoChangeContract _ => [KeyText "sso-change-contract"]
  | useOpenSsoChanges _ => SSO_OPEN_KEY
  end.

(** The path a hook asks for; without an identifier it throws. *)
Definition hook_path (h : Hook) : option string :=
  match h with
  | useDomainApiHealth => Some "/api/v1/health"
  | useMe _ => Some "/api/v1/me"
  | useServices => Some (list_path "services")
  | usePipelines => Some (list_path "pipelines")
  | useEvents => Some (list_path "events")
  | useResources => Some (list_path "resources")
  | useDecisions => Some (list_path "decisions")
  | usePolicies => Some (list_path "policies")
  | useDataAssets kind => Some (data_assets_path (kind_name <$> kind))
  | useDataAssetsCount kind => Some (data_assets_count_path (kind_name <$> kind))
  | useDataAsset i => dataAssetPath <$> present i
  | useDataAssetChildren parentId _ => Some (dataAssetChildrenPath parentId)
  | useQueryContext i => queryContextPath <$> present i
  | useQueryHistory page pageSize => Some (queryHistoryPath page pageSize)
  | useSsoConfig => Some ssoPath
  | useSsoChangeContract _ => Some (BASE +:+ "/contract")
  | useOpenSsoChanges _ => Some (BASE +:+ "?status=open")
  end.

Definition hook_enabled (h : Hook) : bool :=
  match h with
  | useMe enabled | useDataAssetChildren _ enabled | useSsoChangeContract enabled | useOpenSsoChanges enabled => enabled
  | useDataAsset i | useQueryContext i => bool_decide (is_Some (present i))
  | _ => true
  end.

(** Hooks with [retry: false] take the first failure. *)
Definition hook_retries (h : Hook) : bool :=
  match h with useQueryHistory _ _ | useSsoChangeContract _ | useOpenSsoChanges _ => false | _ => true end.

Definition SSO_OPEN_POLL_MS : Z := 30000.

Definition hook_polls (h : Hook) : option Z := match h with useOpenSsoChanges _ => Some SSO_OPEN_POLL_MS | _ => None end.

(** The name of a list whose truncation is reported. *)
Definition hook_lists (h : Hook) : option string :=
  match h with
  | useServices => Some "services" | usePipelines => Some "pipelines" | useEvents => Some "events"
  | useResources => Some "resources" | useDecisions => Some "decisions" | usePolicies => Some "policies"
  | useDataAssets _ => Some "data-assets" | useDataAssetChildren _ _ => Some "data-asset-children"
  | _ => None
  end.

Inductive HookFailure := MissingId | ApiFailed (e : ApiFailure).

Definition queryFn (baseUrl : string) (h : Hook) : prog WAns (result HookFailure json) :=
  match hook_path h with
  | None => Ret (inl MissingId)
  | Some path =>
      await r := apiGet baseUrl path in
      Ret (match r with inl e => inl (ApiFailed e) | inr j => inr j end)
  end.

(** What a mutation invalidates, by whether it succeeded. *)
Inductive Mutation := usePreviewSsoChange | useSubmitSsoChange | useCancelSsoChange.

Definition invalidates (m : Mutation) (succeeded : bool) : list (list KeyPart) :=
  match m with
  | usePreviewSsoChange => []
  | useSubmitSsoChange => if succeeded then [SSO_OPEN_KEY] else []
  | useCancelSsoChange => [SSO_OPEN_KEY]
  end.

(** ** What the console does with an answer *)

(** The call the query library makes after each failure; [n]: failures so far. *)
Fixpoint attempts (n : Z) (failures : list ApiFailure) : nat :=
  match failures with
  | [] => 0
  | e :: rest => S (if shouldRetryQuery n e then attempts (n + 1) rest else 0)
  end.

Lemma attempts_bounded n failures : 0 <= n -> (attempts n failures <= S (Z.to_nat (3 - n)))%nat.
Proof.
  revert n. induction failures as [|e rest IH]; intros n Hn; cbn; [lia|].
  destruct (shouldRetryQuery n e) eqn:E; [|lia]. specialize (IH (n + 1)).
  assert (n < 3) by (unfold shouldRetryQuery in E; destruct e as [| |e]; [lia..|]; destruct (_ || _); [done|lia]). lia.
Qed.

(** The first page of a listing with the page size of the console: all of it, or the
    console says that it is not. *)
Lemma console_sees_or_warns {A} name (items : list A) :
  let page := paginate items 1 LIST_PAGE_SIZE in
  (warnIfTruncated name page.1 page.2 = None <-> page.1 = items) /\ page.1 `prefix_of` items /\ page.2 = length items.
Proof.
  cbn [paginate]. rewrite paginate_page by (unfold LIST_PAGE_SIZE; lia). cbn [fst snd]. change (Z.to_nat ((1 - 1) * LIST_PAGE_SIZE)) with 0%nat.
  rewrite drop_0. split_and!; [|apply prefix_take|done].
  unfold warnIfTruncated. rewrite length_take. destruct (Nat.ltb_spec (Nat.min (Z.to_nat LIST_PAGE_SIZE) (length items)) (length items)) as [H|H].
  - split; [done|]. intros E. apply (f_equal length) in E. rewrite length_take in E. lia.
  - split; [|done]. intros _. apply take_ge. lia.
Qed.

(** *** The cache *)

Lemma apiGet_get baseUrl path t out e r :
  runs (apiGet baseUrl path) t out -> Did (Ans:=WAns) (OpFetch e) r ∈ t ->
  fr_method e = "GET" /\ fr_url e = baseUrl +:+ path /\ fr_body e = None.
Proof.
  intros (t1 & t2 & token & -> & H1 & (t3 & t4 & response & -> & H3 & H4)%runs_bind)%runs_bind.
  assert (forall u, (runs (answered path response) u out) -> Did (Ans:=WAns) (OpFetch e) r ∉ u) as Hno.
  { intros u. unfold answered. destruct response as [f|]; [|by intros [-> _] ?%elem_of_nil].
    destruct (response_ok f); [by intros [-> _] ?%elem_of_nil|]. destruct (_ =? _).
    - intros (u1 & u2 & a & -> & Hu & [-> _])%runs_bind. destruct u1 as [|c u1]; [done|]. destruct Hu as (x & -> & -> & _).
      intros [Hc|?%elem_of_nil]%elem_of_cons; [discriminate Hc|done].
    - by intros [-> _] ?%elem_of_nil. }
  destruct t1 as [|c1 t1]; [done|]. destruct H1 as (x1 & -> & -> & ->).
  destruct t3 as [|c3 t3]; [done|]. destruct H3 as (x3 & -> & -> & ->). cbn [app].
  intros [Hc|[Hc|Hin]%elem_of_cons]%elem_of_cons; [discriminate Hc| |by destruct (Hno _ H4)].
  injection Hc as Hc. by subst.
Qed.

(** The cache of the console never gives one view the answer of another request.  Hooks
    with the same key ask for the same path, so the answer kept for a key is of the
    request of every hook that reads it; a hook only reads, by the path of its own; and
    what a mutation of a change request invalidates is the list of open requests alone. *)
Theorem hooks_share_answers h h' :
  (queryKey h = queryKey h' -> hook_path h = hook_path h' /\ hook_lists h = hook_lists h' /\
     hook_retries h = hook_retries h' /\ hook_polls h = hook_polls h') /\
  (hook_enabled h = true -> is_Some (hook_path h)) /\
  (forall baseUrl t out e r, runs (queryFn baseUrl h) t out -> Did (Ans:=WAns) (OpFetch e) r ∈ t ->
     fr_method e = "GET" /\ fr_body e = None /\ exists path, hook_path h = Some path /\ fr_url e = baseUrl +:+ path) /\
  (forall m succeeded k, k ∈ invalidates m succeeded -> k `prefix_of` queryKey h <-> exists enabled, h = useOpenSsoChanges enabled).
Proof.
  split_and!.
  - destruct h as [| | | | | | | |[k|]|[k|]|[i|]| |[i|]| | | |], h' as [| | | | | | | |[k'|]|[k'|]|[i'|]| |[i'|]| | | |];
      cbn; intros E; try discriminate; simplify_eq; try done; by repeat match goal with H : kind_name _ = kind_name _ |- _ => rewrite H end.
  - destruct h; cbn; try (by eexists); (destruct (present _); [by eexists|]; by intros ?%bool_decide_eq_true).
  - intros baseUrl t out e r. unfold queryFn. destruct (hook_path h) as [path|]; [|by intros [-> _] ?%elem_of_nil].
    intros (t1 & t2 & a & -> & Ha & [-> _])%runs_bind. rewrite app_nil_r. intros (Hm & Hu & Hb)%(apiGet_get _ _ _ _ _ _ Ha).
    split_and!; [done..|by exists path].
  - intros m succeeded k Hk. assert (k = SSO_OPEN_KEY) as ->.
    { destruct m, succeeded; cbn in Hk; set_solver. }
    split; [|by intros [enabled ->]]. intros [rest E].
    destruct h as [| | | | | | | |[k|]| | | | | | | |enabled]; cbn in E; try discriminate E. by exists enabled.
Qed.
