(* ===== verification/Translations.v ===== *)
(** * The texts of the web console: [web/src/i18n/translations.ts]

    The keys of the interface [Translations] and the two catalogs, group by group, in the
    order of the file. *)

From S2P Require Import Prelude.
From Stdlib Require String.

(** A catalog is a tree of texts; the interface is the tree of their keys. *)
Inductive tree := Leaf (s : string) | Group (l : list (string * tree)).
Inductive shape := Text | Fields (l : list (string * shape)).

Inductive Locale := KoKR | EnUS.

(** ** The interface *)

Definition keys_nav : shape :=
  Fields [("overview", Text); ("services", Text); ("pipelines", Text); ("architecture", Text); ("operations", Text);
    ("dataCatalog", Text); ("query", Text); ("policy", Text); ("sso", Text)].

Definition keys_overview : shape :=
  Fields [("title", Text); ("subtitle", Text); ("totalServices", Text); ("activePipelines", Text); ("catalogTables", Text);
    ("catalogTablesCaption", Text); ("catalogTablesUnavailable", Text); ("activeWorkloads", Text);
    ("resourceSummary", Text); ("resourceUsageCaption", Text); ("resourcesUnavailable", Text);
    ("viewResources", Text); ("clusterHealth", Text); ("quickLaunch", Text); ("pipelineFlow", Text);
    ("recentEvents", Text); ("systemAlerts", Text); ("viewTopology", Text); ("viewServices", Text);
    ("viewArchitecture", Text); ("viewAllInOperations", Text); ("emptyEvents", Text); ("quickLaunchSubtitle", Text);
    ("securityTitle", Text); ("securitySubtitle", Text); ("identityProvider", Text); ("authzEngine", Text);
    ("gatewayBoundary", Text); ("managePolicies", Text)].

Definition keys_services : shape :=
  Fields [("title", Text); ("subtitle", Text); ("searchPlaceholder", Text); ("emptyState", Text); ("filterAll", Text);
    ("columns", Fields [("name", Text); ("category", Text); ("status", Text); ("version", Text); ("endpoint", Text); ("actions", Text)]);
    ("openUi", Text); ("statusHealthy", Text); ("statusDegraded", Text); ("statusStopped", Text);
    ("internalOnly", Text);
    ("capabilityCategories", Fields [("streaming", Text); ("processing", Text); ("lakehouse", Text); ("query", Text); ("bi", Text);
      ("orchestration", Text); ("storage", Text); ("observability", Text)]);
    ("namespaceLabel", Text); ("workloadLabel", Text); ("keyMetricsLabel", Text)].

Definition keys_pipelines : shape :=
  Fields [("title", Text); ("subtitle", Text); ("topologyTitle", Text); ("source", Text); ("ingest", Text);
    ("processing", Text); ("lakehouse", Text); ("queryServing", Text); ("jobState", Text); ("throughput", Text);
    ("recordsSec", Text); ("stagesLabel", Text); ("correlationLabel", Text); ("confidenceLabel", Text);
    ("lastUpdatedLabel", Text); ("noStageDetail", Text); ("notFound", Text); ("jobsLabel", Text); ("noJobs", Text);
    ("lastRunLabel", Text); ("noRuns", Text); ("failureReasonLabel", Text); ("relatedResourcesLabel", Text);
    ("jobKinds", Fields [("flink", Text); ("airflow", Text); ("cdc", Text)]);
    ("runResults", Fields [("running", Text); ("succeeded", Text); ("failed", Text); ("unknown", Text)]);
    ("correlationLinksLabel", Text); ("noCorrelationLinks", Text); ("lowConfidence", Text); ("evidenceLabel", Text);
    ("correlationMethods", Fields [("declared-label", Text); ("name-convention", Text); ("ambiguous-name-convention", Text)]);
    ("correlationKinds", Fields [("kafka-topic", Text); ("flink-job", Text); ("iceberg-table", Text); ("trino-catalog", Text);
      ("airflow-dag", Text)]);
    ("correlationRelations", Fields [("topic-feeds-job", Text); ("job-writes-table", Text); ("table-served-by-catalog", Text);
      ("dag-triggers-job", Text)]);
    ("correlationGraphTitle", Text)].

Definition keys_architecture : shape :=
  Fields [("title", Text); ("subtitle", Text); ("dataPipelineTopology", Text); ("infrastructureTopology", Text);
    ("infrastructureHint", Text); ("infrastructureEmpty", Text); ("resourceDetailTitle", Text);
    ("openResource", Text); ("clickNodeHint", Text); ("stageDetailTitle", Text); ("serviceIdLabel", Text);
    ("detailLabel", Text); ("closeLabel", Text); ("openService", Text); ("openPipeline", Text)].

Definition keys_operations : shape :=
  Fields [("title", Text); ("subtitle", Text); ("eventsTab", Text); ("resourcesTab", Text); ("logsTab", Text);
    ("comingSoon", Text); ("resourcesHint", Text); ("logsHint", Text); ("deepLinkNote", Text); ("emptyState", Text);
    ("relatedServiceLabel", Text); ("relatedPipelineLabel", Text); ("relatedResourceLabel", Text);
    ("kindLabel", Text); ("namespaceLabel", Text); ("cpuLabel", Text); ("memoryLabel", Text); ("viewLogs", Text);
    ("noLogsLink", Text); ("relatedEventLabel", Text); ("emptyResourcesState", Text); ("kindFilterLabel", Text);
    ("allKindsOption", Text);
    ("kindNames", Fields [("Namespace", Text); ("Workload", Text); ("Pod", Text); ("Service", Text); ("Endpoint", Text); ("Job", Text);
      ("PersistentVolumeClaim", Text)]);
    ("capacityLabel", Text); ("storageClassLabel", Text); ("eventSourceLabel", Text);
    ("eventSources", Fields [("kubernetes", Text); ("service", Text); ("job", Text)]); ("decisionsTab", Text);
    ("decisionsTitle", Text); ("decisionsNotice", Text); ("advisoryConfidence", Text); ("abstained", Text);
    ("decisionLabels", Fields [("NORMAL", Text); ("COMPUTE_BOUND", Text); ("MEMORY_BOUND", Text); ("STORAGE_BOUND", Text);
      ("NETWORK_BOUND", Text); ("QUERY_PROBLEM", Text); ("ESCALATE", Text); ("ABSTAIN", Text)]);
    ("abstainCodes", Fields [("NO_TELEMETRY", Text); ("MISSING_REQUIRED_SIGNAL", Text); ("STALE_TELEMETRY", Text);
      ("ISOLATION_TIMEOUT", Text); ("ISOLATION_PROVIDER_ERROR", Text); ("ISOLATION_INVALID_SHAPE", Text);
      ("ISOLATION_OVERLOADED", Text)]);
    ("providerLabel", Text); ("policyLabel", Text); ("correlationLabel", Text); ("evidenceLabel", Text);
    ("inputsEvaluatedLabel", Text); ("emptyEvidenceLabel", Text); ("noInputsEvaluatedLabel", Text);
    ("freshLabel", Text); ("staleLabel", Text); ("emptyDecisionsState", Text)].

Definition keys_catalog : shape :=
  Fields [("title", Text); ("subtitle", Text); ("catalogs", Text); ("schemas", Text); ("tables", Text); ("columns", Text);
    ("sampleQuery", Text); ("format", Text); ("location", Text); ("type", Text); ("lakekeeperCatalog", Text);
    ("treeEmpty", Text); ("treeExpand", Text); ("treeCollapse", Text); ("columnsCount", Text); ("snapshots", Text);
    ("columnName", Text); ("dataType", Text); ("partition", Text); ("description", Text); ("queryTemplate", Text);
    ("copySql", Text); ("copyFailed", Text); ("editorAriaLabel", Text); ("openInQuery", Text); ("lastUpdated", Text);
    ("partitionSpec", Text); ("nullable", Text); ("notNullable", Text); ("emptyState", Text)].

Definition keys_query : shape :=
  Fields [("title", Text); ("subtitle", Text); ("assetLabel", Text); ("contextTitle", Text); ("trinoTarget", Text);
    ("starterSql", Text); ("readOnlyNote", Text); ("rowLimit", Text); ("copySql", Text); ("copyFailed", Text);
    ("openInTrino", Text); ("emptyState", Text); ("noTableSelected", Text); ("historyTitle", Text);
    ("historySubtitle", Text); ("historyUnavailable", Text); ("historyPrivacyNotice", Text); ("historyEmpty", Text);
    ("historyColumns", Fields [("id", Text); ("sql", Text); ("state", Text)]); ("readOnlyBadge", Text);
    ("editorAriaLabel", Text)].

Definition keys_table : shape :=
  Fields [("sortBy", Text); ("sortStateAscending", Text); ("sortStateDescending", Text); ("sortStateNone", Text);
    ("columnsVisibility", Text); ("showAllColumns", Text); ("resetColumns", Text); ("rowsCount", Text);
    ("emptyRows", Text); ("toggleColumn", Text); ("page", Text); ("previousPage", Text); ("nextPage", Text)].

Definition keys_policy : shape :=
  Fields [("title", Text); ("subtitle", Text); ("rolesTab", Text); ("catalogsTab", Text); ("resourcesTab", Text);
    ("compiledRego", Text); ("compiledSql", Text); ("identitySource", Text); ("compilerTitle", Text);
    ("grantedPermissions", Text); ("copyCode", Text); ("sourceYamlLabel", Text); ("compileTargetsSummary", Text);
    ("grantTrinoAllOperations", Text); ("grantPostgresCrud", Text); ("grantFlinkJobs", Text);
    ("grantTrinoSelectMasked", Text); ("grantPostgresSelectOnly", Text); ("grantSupersetDashboard", Text);
    ("artefactsTab", Text); ("readOnlySection", Text); ("mutatingSection", Text); ("readOnlyBadge", Text);
    ("mutatingBadge", Text); ("noPermissions", Text); ("targetLabel", Text); ("hashLabel", Text);
    ("linesCount", Text); ("metadataSecurityNotice", Text); ("copyHash", Text); ("includesLabel", Text);
    ("ldapGroupNameLabel", Text); ("roleBadge", Text); ("emptyState", Text); ("compilerVersion", Text);
    ("maskAnnotation", Text); ("filterAnnotation", Text); ("unmaskedAnnotation", Text)].

Definition keys_sso : shape :=
  Fields [("title", Text); ("subtitle", Text); ("declaredNoticeTitle", Text); ("declaredNoticeDescription", Text);
    ("loadedAtLabel", Text); ("realmLabel", Text); ("issuerLabel", Text); ("issuerHostLabel", Text);
    ("endpointsTitle", Text); ("endpointsSubtitle", Text); ("endpointHost", Text); ("endpointClientId", Text);
    ("protectedPaths", Text); ("bypassPaths", Text); ("redirectPath", Text); ("logoutPath", Text); ("noPaths", Text);
    ("notConfiguredTitle", Text); ("notConfiguredMessage", Text); ("serverDetails", Text); ("modeGatewayOidc", Text);
    ("modeAppOidc", Text); ("modeNone", Text); ("modeExplanationGatewayOidc", Text);
    ("modeExplanationAppOidc", Text); ("modeExplanationNone", Text); ("visitEndpoint", Text); ("noneClientId", Text);
    ("change", Fields [("edit", Text); ("editTitle", Text); ("close", Text); ("groupsLegend", Text); ("requiredHint", Text);
      ("currentUnrestricted", Text); ("unrestricted", Text); ("writerUnconfigured", Text); ("reasonLabel", Text);
      ("reasonPlaceholder", Text); ("preview", Text); ("previewing", Text); ("previewTitle", Text);
      ("beforeLabel", Text); ("afterLabel", Text); ("sourceCommit", Text); ("submit", Text); ("submitting", Text);
      ("submitted", Text); ("submitInProgress", Text); ("submitEnded", Text); ("previewStale", Text);
      ("openTitle", Text); ("openSubtitle", Text); ("endpointLabel", Text); ("createdLabel", Text); ("openPr", Text);
      ("noPr", Text); ("mergedNote", Text); ("stageSubmitted", Text); ("stagePrOpen", Text);
      ("stageUnknownRecovering", Text); ("stageMerged", Text); ("stageApplied", Text); ("stageRejected", Text);
      ("stageFailed", Text); ("cancelRequest", Text); ("cancelConfirmTitle", Text); ("cancelReasonLabel", Text);
      ("cancelConfirm", Text); ("cancelKeep", Text); ("cancelling", Text); ("serverMessage", Text);
      ("errStaleBase", Text); ("errOpenRequestExists", Text); ("errGitWriterUnconfigured", Text);
      ("errAuditUnavailable", Text); ("errConsumerNotDeployed", Text); ("errNoEffectiveChange", Text);
      ("errPatchRejected", Text); ("errRequestNotActive", Text); ("errGithubUnavailable", Text);
      ("errForbidden", Text); ("errIdempotencyMismatch", Text); ("errIdempotencyKeyCollision", Text);
      ("errRequestInFlight", Text); ("errGeneric", Text)])].

Definition keys_status : shape :=
  Fields [("healthy", Text); ("degraded", Text); ("stale", Text); ("unknown", Text); ("unavailable", Text)].

Definition keys_severity : shape :=
  Fields [("info", Text); ("warning", Text); ("error", Text)].

Definition keys_common : shape :=
  Fields [("status", Text); ("healthy", Text); ("degraded", Text); ("running", Text); ("ready", Text); ("version", Text);
    ("endpoint", Text); ("refresh", Text); ("language", Text); ("openInNewTab", Text); ("theme", Text);
    ("lightMode", Text); ("darkMode", Text); ("figmaSpec", Text); ("figmaConnected", Text); ("loading", Text);
    ("editorLoading", Text); ("editorLoadFailed", Text); ("retry", Text); ("loadError", Text); ("errorsCount", Text);
    ("warningsCount", Text); ("copied", Text); ("themeLight", Text); ("themeDark", Text); ("cluster", Text);
    ("controlPlane", Text); ("gatewayLabel", Text); ("targetLabel", Text)].

Definition keys_figmaModal : shape :=
  Fields [("title", Text); ("subtitle", Text); ("contrastPrinciples", Text); ("contrastDescription", Text);
    ("tokensComparison", Text); ("contrastVerified", Text); ("lightModeTitle", Text); ("darkModeTitle", Text);
    ("defaultTag", Text); ("layeredTag", Text); ("specLabel", Text); ("openInFigma", Text); ("tokenCanvas", Text);
    ("tokenSurfaceCard", Text); ("tokenTextPrimary", Text); ("tokenAccentCyan", Text)].

Definition keys_auth : shape :=
  Fields [("loginTitle", Text); ("loginDescription", Text); ("loginButton", Text); ("redirecting", Text);
    ("signingIn", Text); ("sessionExpired", Text); ("loggedOut", Text); ("loginFailed", Text); ("userLabel", Text);
    ("groupsLabel", Text); ("noGroups", Text); ("logout", Text); ("loginDisabled", Text);
    ("loginDisabledHint", Text); ("fixtureData", Text); ("fixtureDataHint", Text); ("forbiddenTitle", Text);
    ("forbiddenDescription", Text)].

Definition keys_graph : shape :=
  Fields [("graphView", Text); ("tableView", Text); ("nodesTitle", Text); ("edgesTitle", Text); ("nodeLabel", Text);
    ("typeLabel", Text); ("statusLabel", Text); ("connectionsLabel", Text); ("sourceLabel", Text);
    ("targetLabel", Text); ("relationLabel", Text); ("confidenceLabel", Text); ("keyboardHint", Text);
    ("emptyState", Text); ("textAlternative", Text); ("viewDetails", Text); ("selectedNode", Text);
    ("summary", Text); ("edgeLabel", Text); ("dataIssuesNotice", Text)].

Definition TRANSLATIONS : list (string * shape) :=
  [("appName", Text);
   ("tagline", Text);
   ("nav", keys_nav);
   ("overview", keys_overview);
   ("services", keys_services);
   ("pipelines", keys_pipelines);
   ("architecture", keys_architecture);
   ("operations", keys_operations);
   ("catalog", keys_catalog);
   ("query", keys_query);
   ("table", keys_table);
   ("policy", keys_policy);
   ("sso", keys_sso);
   ("status", keys_status);
   ("severity", keys_severity);
   ("common", keys_common);
   ("figmaModal", keys_figmaModal);
   ("auth", keys_auth);
   ("graph", keys_graph)].

(** ** Korean *)

Definition ko_nav : tree :=
  Group [("overview", Leaf "플랫폼 개요");
    ("services", Leaf "서비스 카탈로그");
    ("pipelines", Leaf "파이프라인 토폴로지");
    ("architecture", Leaf "아키텍처");
    ("operations", Leaf "운영 이벤트");
    ("dataCatalog", Leaf "데이터 자산");
    ("query", Leaf "쿼리 워크스페이스");
    ("policy", Leaf "보안 & 정책");
    ("sso", Leaf "SSO 인증")].

Definition ko_overview : tree :=
  Group [("title", Leaf "플랫폼 운영 개요");
    ("subtitle", Leaf "Beluga Modern Data Platform의 통합 인프라 및 실시간 상태");
    ("totalServices", Leaf "등록된 플랫폼 서비스");
    ("activePipelines", Leaf "활성 데이터 파이프라인");
    ("catalogTables", Leaf "Iceberg 관리 테이블");
    ("catalogTablesCaption", Leaf "전체 데이터 자산 {count}건");
    ("catalogTablesUnavailable", Leaf "일시적으로 이용할 수 없음");
    ("activeWorkloads", Leaf "활성 워크로드");
    ("resourceSummary", Leaf "모니터링 리소스");
    ("resourceUsageCaption", Leaf "사용량 보고 리소스 {count}개");
    ("resourcesUnavailable", Leaf "리소스 정보를 일시적으로 이용할 수 없음");
    ("viewResources", Leaf "Operations에서 보기");
    ("clusterHealth", Leaf "Domain API 상태");
    ("quickLaunch", Leaf "원천 OSS 콘솔 바로가기");
    ("pipelineFlow", Leaf "파이프라인 현황");
    ("recentEvents", Leaf "최근 플랫폼 이벤트");
    ("systemAlerts", Leaf "시스템 알림");
    ("viewTopology", Leaf "상세 토폴로지 보기");
    ("viewServices", Leaf "서비스 카탈로그 보기");
    ("viewArchitecture", Leaf "아키텍처 보기");
    ("viewAllInOperations", Leaf "운영에서 전체 보기");
    ("emptyEvents", Leaf "표시할 최근 이벤트가 없습니다");
    ("quickLaunchSubtitle", Leaf "APISIX Unified Gateway (Port 80)를 통해 즉시 접근 가능한 OSS 관리 콘솔");
    ("securityTitle", Leaf "플랫폼 보안 & Seam 정합성");
    ("securitySubtitle", Leaf "Beluga Modern Data Platform의 단일 Identity 원천(Keycloak + OpenLDAP)과 중앙 인가 컴파일러(policyctl)가 동기화 상태를 유지하고 있습니다.");
    ("identityProvider", Leaf "단일 인증 & 역할 원천");
    ("authzEngine", Leaf "중앙 인가 엔진");
    ("gatewayBoundary", Leaf "게이트웨이 경계");
    ("managePolicies", Leaf "보안 및 인가 정책 관리")].

Definition ko_services : tree :=
  Group [("title", Leaf "서비스 카탈로그");
    ("subtitle", Leaf "APISIX 게이트웨이 및 Kubernetes에 프로비저닝된 인프라 서비스");
    ("searchPlaceholder", Leaf "서비스 이름, 능력, 태그 검색...");
    ("emptyState", Leaf "검색 조건에 맞는 서비스가 없습니다");
    ("filterAll", Leaf "전체 보기");
    ("columns", Group [("name", Leaf "서비스명");
      ("category", Leaf "역할 / 범주");
      ("status", Leaf "상태");
      ("version", Leaf "버전");
      ("endpoint", Leaf "내부 엔드포인트");
      ("actions", Leaf "작업")]);
    ("openUi", Leaf "콘솔 열기");
    ("statusHealthy", Leaf "정상 작동");
    ("statusDegraded", Leaf "일부 지연");
    ("statusStopped", Leaf "중지됨");
    ("internalOnly", Leaf "내부 전용 (Internal-only)");
    ("capabilityCategories", Group [("streaming", Leaf "스트리밍");
      ("processing", Leaf "처리");
      ("lakehouse", Leaf "레이크하우스");
      ("query", Leaf "쿼리");
      ("bi", Leaf "BI");
      ("orchestration", Leaf "오케스트레이션");
      ("storage", Leaf "스토리지");
      ("observability", Leaf "관측성")]);
    ("namespaceLabel", Leaf "네임스페이스");
    ("workloadLabel", Leaf "워크로드");
    ("keyMetricsLabel", Leaf "주요 지표")].

Definition ko_pipelines : tree :=
  Group [("title", Leaf "파이프라인 & 토폴로지");
    ("subtitle", Leaf "CDC 수집부터 Iceberg 테이블 적재, Trino 서빙까지의 상호연관 흐름");
    ("topologyTitle", Leaf "파이프라인 상관관계 토폴로지");
    ("source", Leaf "원천 트랜잭션 DB (PostgreSQL)");
    ("ingest", Leaf "CDC 스트리밍 (Debezium + Kafka)");
    ("processing", Leaf "실시간 스트림 처리 (Apache Flink)");
    ("lakehouse", Leaf "오픈 레이크하우스 (Lakekeeper / Iceberg)");
    ("queryServing", Leaf "분산 쿼리 엔진 (Trino)");
    ("jobState", Leaf "작업 상태");
    ("throughput", Leaf "처리량");
    ("recordsSec", Leaf "레코드/초");
    ("stagesLabel", Leaf "스테이지");
    ("correlationLabel", Leaf "상관관계");
    ("confidenceLabel", Leaf "신뢰도");
    ("lastUpdatedLabel", Leaf "최종 갱신");
    ("noStageDetail", Leaf "이상 없음");
    ("notFound", Leaf "참조된 파이프라인을 현재 목록에서 찾을 수 없습니다");
    ("jobsLabel", Leaf "작업 (Job)");
    ("noJobs", Leaf "이 파이프라인에 보고된 작업이 없습니다");
    ("lastRunLabel", Leaf "최근 실행");
    ("noRuns", Leaf "실행 이력 없음");
    ("failureReasonLabel", Leaf "실패 원인");
    ("relatedResourcesLabel", Leaf "관련 리소스");
    ("jobKinds", Group [("flink", Leaf "Flink 작업");
      ("airflow", Leaf "Airflow DAG");
      ("cdc", Leaf "CDC 커넥터")]);
    ("runResults", Group [("running", Leaf "실행 중");
      ("succeeded", Leaf "성공");
      ("failed", Leaf "실패");
      ("unknown", Leaf "알 수 없음")]);
    ("correlationLinksLabel", Leaf "서비스 간 상관관계 링크");
    ("noCorrelationLinks", Leaf "식별된 상관관계 링크가 없습니다");
    ("lowConfidence", Leaf "추정된 링크 (사실 아님)");
    ("evidenceLabel", Leaf "근거");
    ("correlationMethods", Group [("declared-label", Leaf "선언됨");
      ("name-convention", Leaf "이름 규약 추정");
      ("ambiguous-name-convention", Leaf "모호한 이름 규약 추정")]);
    ("correlationKinds", Group [("kafka-topic", Leaf "Kafka 토픽");
      ("flink-job", Leaf "Flink 작업");
      ("iceberg-table", Leaf "Iceberg 테이블");
      ("trino-catalog", Leaf "Trino 카탈로그");
      ("airflow-dag", Leaf "Airflow DAG")]);
    ("correlationRelations", Group [("topic-feeds-job", Leaf "토픽 → 작업 입력");
      ("job-writes-table", Leaf "작업 → 테이블 적재");
      ("table-served-by-catalog", Leaf "테이블 → 카탈로그 서빙");
      ("dag-triggers-job", Leaf "DAG → 작업 실행")]);
    ("correlationGraphTitle", Leaf "파이프라인 상관관계 그래프")].

Definition ko_architecture : tree :=
  Group [("title", Leaf "아키텍처 토폴로지");
    ("subtitle", Leaf "데이터 파이프라인 관점과 인프라 관점을 명확히 구분하여 시각화합니다");
    ("dataPipelineTopology", Leaf "데이터 파이프라인 토폴로지");
    ("infrastructureTopology", Leaf "인프라 토폴로지");
    ("infrastructureHint", Leaf "Kubernetes 리소스를 소속 네임스페이스 기준으로만 연결합니다. 워크로드-파드 등 근거 필드가 없는 관계는 그리지 않습니다");
    ("infrastructureEmpty", Leaf "표시할 Kubernetes 리소스가 없습니다");
    ("resourceDetailTitle", Leaf "리소스 상세");
    ("openResource", Leaf "Operations에서 리소스 열기");
    ("clickNodeHint", Leaf "노드를 클릭하면 상세 정보와 drill-down을 확인할 수 있습니다");
    ("stageDetailTitle", Leaf "스테이지 상세");
    ("serviceIdLabel", Leaf "서비스 ID");
    ("detailLabel", Leaf "상세 메시지");
    ("closeLabel", Leaf "닫기");
    ("openService", Leaf "서비스 카탈로그 열기");
    ("openPipeline", Leaf "파이프라인 {name} 열기")].

Definition ko_operations : tree :=
  Group [("title", Leaf "운영 이벤트");
    ("subtitle", Leaf "Kubernetes 리소스와 이벤트 타임라인을 확인하고 기존 관측 백엔드의 로그로 이동합니다");
    ("eventsTab", Leaf "이벤트 타임라인");
    ("resourcesTab", Leaf "리소스 (K8s)");
    ("logsTab", Leaf "로그");
    ("comingSoon", Leaf "준비 중");
    ("resourcesHint", Leaf "Namespace/Workload/Pod/Service/Endpoint/PVC 등 Kubernetes 리소스 표현에는 domain-api 스키마 확장이 필요합니다");
    ("logsHint", Leaf "기존 관측(Observability) 백엔드(Loki 등)로 연결하는 탐색 UX가 될 예정입니다 -- Manager가 별도 로그 저장소를 만들지 않습니다");
    ("deepLinkNote", Leaf "관련 참조를 선택하면 서비스는 ID로 검색하고 파이프라인은 해당 항목을 선택한 화면으로 이동합니다");
    ("emptyState", Leaf "표시할 이벤트가 없습니다");
    ("relatedServiceLabel", Leaf "관련 서비스");
    ("relatedPipelineLabel", Leaf "관련 파이프라인");
    ("relatedResourceLabel", Leaf "관련 리소스");
    ("kindLabel", Leaf "종류");
    ("namespaceLabel", Leaf "네임스페이스");
    ("cpuLabel", Leaf "CPU");
    ("memoryLabel", Leaf "메모리");
    ("viewLogs", Leaf "로그 보기");
    ("noLogsLink", Leaf "로그 링크 없음");
    ("relatedEventLabel", Leaf "관련 이벤트");
    ("emptyResourcesState", Leaf "표시할 리소스가 없습니다");
    ("kindFilterLabel", Leaf "종류 필터");
    ("allKindsOption", Leaf "전체 종류");
    ("kindNames", Group [("Namespace", Leaf "Namespace");
      ("Workload", Leaf "Workload");
      ("Pod", Leaf "Pod");
      ("Service", Leaf "Service");
      ("Endpoint", Leaf "Endpoint");
      ("Job", Leaf "Job");
      ("PersistentVolumeClaim", Leaf "PVC")]);
    ("capacityLabel", Leaf "용량");
    ("storageClassLabel", Leaf "StorageClass");
    ("eventSourceLabel", Leaf "출처");
    ("eventSources", Group [("kubernetes", Leaf "Kubernetes 이벤트");
      ("service", Leaf "서비스 장애");
      ("job", Leaf "Job 장애")]);
    ("decisionsTab", Leaf "의사결정 (System-1)");
    ("decisionsTitle", Leaf "System-1 권고");
    ("decisionsNotice", Leaf "권고 전용 — 자동 조치는 수행되지 않습니다.");
    ("advisoryConfidence", Leaf "참고용 신뢰도 · 보정되지 않음");
    ("abstained", Leaf "판단 보류");
    ("decisionLabels", Group [("NORMAL", Leaf "정상");
      ("COMPUTE_BOUND", Leaf "컴퓨팅 병목");
      ("MEMORY_BOUND", Leaf "메모리 병목");
      ("STORAGE_BOUND", Leaf "스토리지 병목");
      ("NETWORK_BOUND", Leaf "네트워크 병목");
      ("QUERY_PROBLEM", Leaf "쿼리 문제");
      ("ESCALATE", Leaf "상위 검토 필요");
      ("ABSTAIN", Leaf "판단 보류")]);
    ("abstainCodes", Group [("NO_TELEMETRY", Leaf "텔레메트리가 없습니다");
      ("MISSING_REQUIRED_SIGNAL", Leaf "필수 신호가 없습니다");
      ("STALE_TELEMETRY", Leaf "텔레메트리가 오래되었습니다");
      ("ISOLATION_TIMEOUT", Leaf "provider 시간 초과");
      ("ISOLATION_PROVIDER_ERROR", Leaf "provider 오류");
      ("ISOLATION_INVALID_SHAPE", Leaf "provider 응답 형식 오류");
      ("ISOLATION_OVERLOADED", Leaf "provider 과부하")]);
    ("providerLabel", Leaf "Provider");
    ("policyLabel", Leaf "정책");
    ("correlationLabel", Leaf "상관관계 ID");
    ("evidenceLabel", Leaf "Provider가 인용한 근거");
    ("inputsEvaluatedLabel", Leaf "평가한 입력");
    ("emptyEvidenceLabel", Leaf "Provider가 인용한 근거가 없습니다");
    ("noInputsEvaluatedLabel", Leaf "평가한 입력 신호가 없습니다");
    ("freshLabel", Leaf "최신");
    ("staleLabel", Leaf "오래됨");
    ("emptyDecisionsState", Leaf "표시할 권고가 없습니다")].

Definition ko_catalog : tree :=
  Group [("title", Leaf "데이터 카탈로그 & 자산");
    ("subtitle", Leaf "Lakekeeper 및 Trino 기반의 카탈로그, 스키마, 파티션 메타데이터");
    ("catalogs", Leaf "카탈로그");
    ("schemas", Leaf "스키마");
    ("tables", Leaf "테이블 목록");
    ("columns", Leaf "컬럼 구조");
    ("sampleQuery", Leaf "샘플 쿼리");
    ("format", Leaf "스토리지 포맷");
    ("location", Leaf "S3 버킷 경로");
    ("type", Leaf "타입");
    ("lakekeeperCatalog", Leaf "Lakekeeper 카탈로그");
    ("treeEmpty", Leaf "하위 항목이 없습니다");
    ("treeExpand", Leaf "펼치기");
    ("treeCollapse", Leaf "접기");
    ("columnsCount", Leaf "{count}개 컬럼");
    ("snapshots", Leaf "스냅샷 수");
    ("columnName", Leaf "컬럼명");
    ("dataType", Leaf "데이터 타입");
    ("partition", Leaf "파티션");
    ("description", Leaf "설명");
    ("queryTemplate", Leaf "Trino 쿼리 템플릿");
    ("copySql", Leaf "SQL 복사");
    ("copyFailed", Leaf "복사 실패 - 직접 선택해 복사하세요");
    ("editorAriaLabel", Leaf "테이블 쿼리 템플릿 SQL (읽기 전용)");
    ("openInQuery", Leaf "쿼리에서 열기");
    ("lastUpdated", Leaf "최종 갱신");
    ("partitionSpec", Leaf "파티션 스펙");
    ("nullable", Leaf "NULL 허용");
    ("notNullable", Leaf "NOT NULL");
    ("emptyState", Leaf "선택된 테이블이 없습니다")].

Definition ko_query : tree :=
  Group [("title", Leaf "쿼리 워크스페이스");
    ("subtitle", Leaf "카탈로그에서 고른 테이블의 Trino 쿼리 진입 정보를 확인합니다. 쿼리 실행과 권한 판단은 Trino가 담당합니다.");
    ("assetLabel", Leaf "데이터 자산");
    ("contextTitle", Leaf "쿼리 컨텍스트");
    ("trinoTarget", Leaf "Trino 대상 (catalog.schema.table)");
    ("starterSql", Leaf "읽기 전용 시작 SQL");
    ("readOnlyNote", Leaf "읽기 전용 · Manager는 쿼리를 실행하지 않습니다. 복사해 Trino에서 실행하세요.");
    ("rowLimit", Leaf "행 제한");
    ("copySql", Leaf "SQL 복사");
    ("copyFailed", Leaf "복사 실패 - 직접 선택해 복사하세요");
    ("openInTrino", Leaf "Trino에서 열기");
    ("emptyState", Leaf "쿼리할 수 있는 테이블 자산이 없습니다.");
    ("noTableSelected", Leaf "테이블 자산을 선택하세요.");
    ("historyTitle", Leaf "쿼리 이력");
    ("historySubtitle", Leaf "원천 Trino 어댑터가 보고한 최근 쿼리 스냅샷 (읽기 전용, 503 미연결 시 표시)");
    ("historyUnavailable", Leaf "쿼리 이력 어댑터가 연결되지 않았거나 일시적으로 사용할 수 없습니다 (503).");
    ("historyPrivacyNotice", Leaf "주의: 이 이력은 공유 서비스 자격증명으로 조회한 원천 Trino 스냅샷이며 다른 사용자의 쿼리와 SQL 리터럴(민감 값 포함 가능)이 그대로 보일 수 있습니다. UI는 마스킹을 보장하지 않으며 호출자별 권한 검사도 하지 않습니다.");
    ("historyEmpty", Leaf "보고된 쿼리 이력이 없습니다.");
    ("historyColumns", Group [("id", Leaf "쿼리 ID");
      ("sql", Leaf "실행 SQL");
      ("state", Leaf "상태")]);
    ("readOnlyBadge", Leaf "읽기 전용 시작 SQL");
    ("editorAriaLabel", Leaf "Trino 시작 SQL 에디터")].

Definition ko_table : tree :=
  Group [("sortBy", Leaf "{column} 기준 정렬, 현재 {state}");
    ("sortStateAscending", Leaf "오름차순");
    ("sortStateDescending", Leaf "내림차순");
    ("sortStateNone", Leaf "정렬 안 됨");
    ("columnsVisibility", Leaf "컬럼 표시 설정");
    ("showAllColumns", Leaf "모든 컬럼 표시");
    ("resetColumns", Leaf "컬럼 설정 초기화");
    ("rowsCount", Leaf "{count}개 행");
    ("emptyRows", Leaf "표시할 데이터가 없습니다");
    ("toggleColumn", Leaf "{column} 컬럼 표시 전환");
    ("page", Leaf "{total}페이지 중 {page}페이지");
    ("previousPage", Leaf "이전 페이지");
    ("nextPage", Leaf "다음 페이지")].

Definition ko_policy : tree :=
  Group [("title", Leaf "보안 & 정책 컴파일러");
    ("subtitle", Leaf "YAML 정책 선언 및 Keycloak, Trino OPA Rego, PostgreSQL GRANT 매핑");
    ("rolesTab", Leaf "플랫폼 역할 (Roles)");
    ("catalogsTab", Leaf "카탈로그 권한");
    ("resourcesTab", Leaf "리소스 정책");
    ("compiledRego", Leaf "컴파일된 OPA Rego (trino.rego)");
    ("compiledSql", Leaf "컴파일된 PostgreSQL 권한 (db-roles.sql)");
    ("identitySource", Leaf "단일 인증 원천: Keycloak SSO + OpenLDAP");
    ("compilerTitle", Leaf "중앙 정책 컴파일러");
    ("grantedPermissions", Leaf "부여된 권한:");
    ("copyCode", Leaf "코드 복사");
    ("sourceYamlLabel", Leaf "소스 YAML:");
    ("compileTargetsSummary", Leaf "→ 대상: OPA Rego, PG DDL, Keycloak Mapper");
    ("grantTrinoAllOperations", Leaf "Trino: 모든 작업");
    ("grantPostgresCrud", Leaf "Postgres: public 스키마 CRUD");
    ("grantFlinkJobs", Leaf "Flink: 작업 제출 / 취소");
    ("grantTrinoSelectMasked", Leaf "Trino: 조회 전용 (PII 마스킹)");
    ("grantPostgresSelectOnly", Leaf "Postgres: 조회 전용");
    ("grantSupersetDashboard", Leaf "Superset: 대시보드 소비자");
    ("artefactsTab", Leaf "컴파일 아티팩트 메타데이터");
    ("readOnlySection", Leaf "읽기 전용 권한 (Read-only)");
    ("mutatingSection", Leaf "변경/실행 권한 (Mutating)");
    ("readOnlyBadge", Leaf "읽기 전용");
    ("mutatingBadge", Leaf "변경");
    ("noPermissions", Leaf "부여된 권한이 없습니다");
    ("targetLabel", Leaf "컴파일 대상");
    ("hashLabel", Leaf "콘텐츠 해시 (SHA-256)");
    ("linesCount", Leaf "{count}줄");
    ("metadataSecurityNotice", Leaf "보안 원칙: 원문 credential 및 민감 설정 노출 방지를 위해 컴파일 아티팩트 메타데이터만 노출됩니다.");
    ("copyHash", Leaf "해시 복사");
    ("includesLabel", Leaf "상속 롤");
    ("ldapGroupNameLabel", Leaf "LDAP 그룹 이름");
    ("roleBadge", Leaf "ROLE");
    ("emptyState", Leaf "표시할 정책이 없습니다");
    ("compilerVersion", Leaf "policyctl v{version}");
    ("maskAnnotation", Leaf "마스크: {columns}");
    ("filterAnnotation", Leaf "필터: {filter}");
    ("unmaskedAnnotation", Leaf "비마스킹 허용")].

Definition ko_sso : tree :=
  Group [("title", Leaf "단일 로그인 (SSO) 구성");
    ("subtitle", Leaf "Keycloak OIDC 및 APISIX 게이트웨이 통합 인증 선언 구성");
    ("declaredNoticeTitle", Leaf "선언된 구성 (Git)");
    ("declaredNoticeDescription", Leaf "이 화면은 gitops/values/sso.yaml에 선언된 정적 Git 구성이며, 실시간 측정 상태가 아닙니다. 추론되거나 불확실한 데이터는 신뢰할 수 있는 사실로 간주되지 않습니다.");
    ("loadedAtLabel", Leaf "로드 시각");
    ("realmLabel", Leaf "Keycloak Realm");
    ("issuerLabel", Leaf "OIDC Issuer URL");
    ("issuerHostLabel", Leaf "Issuer Host");
    ("endpointsTitle", Leaf "엔드포인트 인증 정책");
    ("endpointsSubtitle", Leaf "서비스별 OIDC 인증 모드 및 경로 보호 선언");
    ("endpointHost", Leaf "호스트");
    ("endpointClientId", Leaf "Keycloak Client ID");
    ("protectedPaths", Leaf "보호 경로 접두사");
    ("bypassPaths", Leaf "우회 경로 접두사");
    ("redirectPath", Leaf "리다이렉트 경로");
    ("logoutPath", Leaf "로그아웃 경로");
    ("noPaths", Leaf "없음");
    ("notConfiguredTitle", Leaf "구성 파일 미설정");
    ("notConfiguredMessage", Leaf "SSO 구성 파일을 찾을 수 없습니다. SSO_CONFIG_FILE 환경 변수를 설정하거나 gitops/values/sso.yaml 파일의 위치를 확인하십시오.");
    ("serverDetails", Leaf "서버 상세 메시지");
    ("modeGatewayOidc", Leaf "Gateway OIDC");
    ("modeAppOidc", Leaf "App OIDC");
    ("modeNone", Leaf "SSO 미적용");
    ("modeExplanationGatewayOidc", Leaf "APISIX 게이트웨이가 openid-connect 플러그인으로 인증을 강제합니다 (자체 인증 미지원 UI 보호).");
    ("modeExplanationAppOidc", Leaf "애플리케이션이 Keycloak 클라이언트를 통해 자체적으로 OIDC 로그인을 처리합니다.");
    ("modeExplanationNone", Leaf "게이트웨이 또는 애플리케이션 레벨에서 별도의 인증을 강제하지 않습니다.");
    ("visitEndpoint", Leaf "엔드포인트 열기");
    ("noneClientId", Leaf "(미지정)");
    ("change", Group [("edit", Leaf "편집");
      ("editTitle", Leaf "허용 그룹 편집: {endpoint}");
      ("close", Leaf "닫기");
      ("groupsLegend", Leaf "게이트웨이 통과를 허용할 그룹");
      ("requiredHint", Leaf "필수 그룹(제거할 수 없음)");
      ("currentUnrestricted", Leaf "현재 이 엔드포인트에는 그룹 검사가 없습니다. 그룹을 선택하면 접근이 제한되기 시작합니다.");
      ("unrestricted", Leaf "(그룹 검사 없음)");
      ("writerUnconfigured", Leaf "이 서버에 Git 쓰기 경로가 구성되지 않았습니다. 미리보기는 되지만 제출은 거부됩니다.");
      ("reasonLabel", Leaf "사유 (선택)");
      ("reasonPlaceholder", Leaf "이 변경이 필요한 이유");
      ("preview", Leaf "미리보기");
      ("previewing", Leaf "미리보는 중...");
      ("previewTitle", Leaf "Git 변경 미리보기");
      ("beforeLabel", Leaf "변경 전");
      ("afterLabel", Leaf "변경 후");
      ("sourceCommit", Leaf "기준 커밋");
      ("submit", Leaf "Pull Request 열기");
      ("submitting", Leaf "제출 중...");
      ("submitted", Leaf "요청이 제출되었습니다. 검토용 Pull Request가 열렸습니다.");
      ("submitInProgress", Leaf "요청이 접수되었지만 아직 Pull Request가 확인되지 않았습니다. 진행 중 목록에서 상태를 확인하세요. 같은 선택을 다시 제출하지 마세요.");
      ("submitEnded", Leaf "요청이 {stage} 상태로 끝났습니다. Pull Request는 열려 있지 않습니다. 선택을 확인하고 다시 미리보기 하면 새 요청으로 제출할 수 있습니다.");
      ("previewStale", Leaf "미리보기 이후 선택이 바뀌었습니다. 제출 전에 다시 미리보기 하세요.");
      ("openTitle", Leaf "진행 중인 변경 요청");
      ("openSubtitle", Leaf "아직 적용되지 않은 요청입니다. 30초마다 갱신됩니다.");
      ("endpointLabel", Leaf "엔드포인트");
      ("createdLabel", Leaf "생성");
      ("openPr", Leaf "Pull Request #{number}");
      ("noPr", Leaf "아직 Pull Request 없음");
      ("mergedNote", Leaf "머지됨, 적용 대기. ArgoCD가 두 Application 모두 머지 커밋으로 동기화됐다고 보고할 때까지 유지됩니다.");
      ("stageSubmitted", Leaf "제출됨");
      ("stagePrOpen", Leaf "PR 열림");
      ("stageUnknownRecovering", Leaf "복구 중");
      ("stageMerged", Leaf "머지됨");
      ("stageApplied", Leaf "적용됨");
      ("stageRejected", Leaf "거부됨");
      ("stageFailed", Leaf "실패");
      ("cancelRequest", Leaf "요청 취소");
      ("cancelConfirmTitle", Leaf "Pull Request를 닫고 잠금을 해제할까요?");
      ("cancelReasonLabel", Leaf "사유 (선택)");
      ("cancelConfirm", Leaf "예, 요청 취소");
      ("cancelKeep", Leaf "요청 유지");
      ("cancelling", Leaf "취소 중...");
      ("serverMessage", Leaf "서버 메시지");
      ("errStaleBase", Leaf "기준이 바뀌었습니다, 다시 미리보기");
      ("errOpenRequestExists", Leaf "이미 진행 중인 변경 요청이 있습니다. 끝나기를 기다리거나 먼저 취소하세요.");
      ("errGitWriterUnconfigured", Leaf "Git 쓰기 경로가 구성되지 않아 아직 제출할 수 없습니다.");
      ("errAuditUnavailable", Leaf "감사 저장소를 사용할 수 없습니다. 아무것도 변경되지 않았으니 나중에 다시 시도하세요.");
      ("errConsumerNotDeployed", Leaf "SSO 변경 소비자가 아직 배포되지 않았습니다.");
      ("errNoEffectiveChange", Leaf "이 선택은 아무것도 바꾸지 않습니다.");
      ("errPatchRejected", Leaf "서버가 이 선택을 거부했습니다.");
      ("errRequestNotActive", Leaf "이 요청은 더 이상 활성 상태가 아닙니다.");
      ("errGithubUnavailable", Leaf "GitHub에 연결할 수 없습니다. 요청은 그대로 두었으니 다시 시도하세요.");
      ("errForbidden", Leaf "admins 그룹 구성원만 SSO 그룹을 바꿀 수 있습니다.");
      ("errIdempotencyMismatch", Leaf "이 요청 키는 다른 선택에 이미 사용되었습니다. 다시 미리보기 하세요.");
      ("errIdempotencyKeyCollision", Leaf "요청 키가 이전 요청과 충돌했습니다. 새 키를 만들었으니 다시 제출하세요.");
      ("errRequestInFlight", Leaf "요청이 방금 제출되어 Pull Request를 만드는 중일 수 있습니다. 잠시 후 다시 시도하세요.");
      ("errGeneric", Leaf "요청이 실패했습니다.")])].

Definition ko_status : tree :=
  Group [("healthy", Leaf "정상");
    ("degraded", Leaf "저하됨");
    ("stale", Leaf "오래됨");
    ("unknown", Leaf "알 수 없음");
    ("unavailable", Leaf "사용 불가")].

Definition ko_severity : tree :=
  Group [("info", Leaf "정보");
    ("warning", Leaf "경고");
    ("error", Leaf "오류")].

Definition ko_common : tree :=
  Group [("status", Leaf "상태");
    ("healthy", Leaf "정상 (Healthy)");
    ("degraded", Leaf "주의 (Degraded)");
    ("running", Leaf "실행 중 (Running)");
    ("ready", Leaf "준비됨 (Ready)");
    ("version", Leaf "버전");
    ("endpoint", Leaf "엔드포인트");
    ("refresh", Leaf "새로고침");
    ("language", Leaf "언어");
    ("openInNewTab", Leaf "새 탭에서 열기");
    ("theme", Leaf "테마");
    ("lightMode", Leaf "화이트 모드 (기본)");
    ("darkMode", Leaf "다크 모드");
    ("figmaSpec", Leaf "Figma 디자인 시스템");
    ("figmaConnected", Leaf "Figma DS 연동됨");
    ("loading", Leaf "불러오는 중...");
    ("editorLoading", Leaf "SQL 에디터를 불러오는 중...");
    ("editorLoadFailed", Leaf "SQL 에디터를 불러오지 못했습니다. 아래에 SQL을 일반 텍스트로 표시합니다.");
    ("retry", Leaf "다시 시도");
    ("loadError", Leaf "데이터를 불러오지 못했습니다");
    ("errorsCount", Leaf "{count}건의 오류");
    ("warningsCount", Leaf "{count}건의 경고");
    ("copied", Leaf "복사됨");
    ("themeLight", Leaf "화이트");
    ("themeDark", Leaf "다크");
    ("cluster", Leaf "클러스터");
    ("controlPlane", Leaf "컨트롤 플레인");
    ("gatewayLabel", Leaf "게이트웨이:");
    ("targetLabel", Leaf "대상:")].

Definition ko_figmaModal : tree :=
  Group [("title", Leaf "Beluga 디자인 시스템 (피그마 사양)");
    ("subtitle", Leaf "WCAG AAA 고대비 & 듀얼 테마 토큰");
    ("contrastPrinciples", Leaf "피그마 가독성 원칙 & 고대비(High-Contrast) 레이어링");
    ("contrastDescription", Leaf "다크 모드와 화이트 모드 모두에서 명도 대비를 7:1(WCAG AAA) 수준으로 확보하여 테이블 그리드, 파이프라인 토폴로지, SQL 에디터의 시인성을 극대화하도록 토큰 계층(Canvas → Surface → Card → Control)이 재정의되었습니다.");
    ("tokensComparison", Leaf "디자인 토큰 대비 체계 (Design Tokens Comparison):");
    ("contrastVerified", Leaf "고대비 검증됨");
    ("lightModeTitle", Leaf "Light Mode (화이트)");
    ("darkModeTitle", Leaf "Dark Mode (다크)");
    ("defaultTag", Leaf "기본");
    ("layeredTag", Leaf "레이어드");
    ("specLabel", Leaf "Beluga UI 디자인 시스템 사양");
    ("openInFigma", Leaf "피그마에서 디자인 열기");
    ("tokenCanvas", Leaf "캔버스");
    ("tokenSurfaceCard", Leaf "표면 카드");
    ("tokenTextPrimary", Leaf "기본 텍스트");
    ("tokenAccentCyan", Leaf "강조 시안")].

Definition ko_graph : tree :=
  Group [("graphView", Leaf "그래프 보기");
    ("tableView", Leaf "표 대체 보기");
    ("nodesTitle", Leaf "노드 목록");
    ("edgesTitle", Leaf "연결 관계");
    ("nodeLabel", Leaf "노드");
    ("typeLabel", Leaf "유형");
    ("statusLabel", Leaf "상태");
    ("connectionsLabel", Leaf "연결");
    ("sourceLabel", Leaf "출발");
    ("targetLabel", Leaf "도착");
    ("relationLabel", Leaf "관계");
    ("confidenceLabel", Leaf "신뢰도");
    ("keyboardHint", Leaf "Tab으로 그래프에 진입하고 화살표 키로 노드 사이를 이동하며 Enter 또는 스페이스바로 선택하세요");
    ("emptyState", Leaf "표시할 노드 또는 연결이 없습니다");
    ("textAlternative", Leaf "스크린 리더를 위한 그래프 구조 표 대체 정보");
    ("viewDetails", Leaf "상세 정보");
    ("selectedNode", Leaf "선택된 노드");
    ("summary", Leaf "노드 {nodes}개 및 연결 {edges}개로 구성된 토폴로지 그래프입니다");
    ("edgeLabel", Leaf "{source}에서 {target}(으)로 연결");
    ("dataIssuesNotice", Leaf "그래프 데이터 문제: 중복 ID {duplicates}건은 첫 항목만 사용했고, 존재하지 않는 노드를 가리키는 연결 {dangling}건은 제외했습니다")].

Definition ko_auth : tree :=
  Group [("loginTitle", Leaf "Beluga Manager 로그인");
    ("loginDescription", Leaf "조직 SSO(Keycloak) 계정으로 로그인해야 Manager API를 사용할 수 있습니다.");
    ("loginButton", Leaf "SSO로 로그인");
    ("redirecting", Leaf "로그인 페이지로 이동하는 중…");
    ("signingIn", Leaf "로그인 처리 중...");
    ("sessionExpired", Leaf "세션이 만료되었거나 인증이 거부되었습니다. 다시 로그인하십시오.");
    ("loggedOut", Leaf "로그아웃되었습니다.");
    ("loginFailed", Leaf "로그인에 실패했습니다");
    ("userLabel", Leaf "사용자");
    ("groupsLabel", Leaf "그룹");
    ("noGroups", Leaf "그룹 없음");
    ("logout", Leaf "로그아웃");
    ("loginDisabled", Leaf "로그인 비활성");
    ("loginDisabledHint", Leaf "/config.json에 oidc 설정이 없어 인증 없이 API를 호출합니다(로컬 개발 모드).");
    ("fixtureData", Leaf "픽스처 데이터");
    ("fixtureDataHint", Leaf "일부 구성요소가 stub 모드라 내장 픽스처 데이터를 표시합니다(실제 상태가 아닙니다). 구성요소: ");
    ("forbiddenTitle", Leaf "권한 없음");
    ("forbiddenDescription", Leaf "로그인은 되었지만 이 데이터를 볼 권한이 없습니다(HTTP 403). 필요한 그룹 소속은 관리자에게 문의하십시오.")].

Definition ko : list (string * tree) :=
  [("appName", Leaf "Beluga Manager");
   ("tagline", Leaf "통합 현대적 데이터 플랫폼 컨트롤 플레인");
   ("nav", ko_nav);
   ("overview", ko_overview);
   ("services", ko_services);
   ("pipelines", ko_pipelines);
   ("architecture", ko_architecture);
   ("operations", ko_operations);
   ("catalog", ko_catalog);
   ("query", ko_query);
   ("table", ko_table);
   ("policy", ko_policy);
   ("sso", ko_sso);
   ("status", ko_status);
   ("severity", ko_severity);
   ("common", ko_common);
   ("figmaModal", ko_figmaModal);
   ("graph", ko_graph);
   ("auth", ko_auth)].

(** ** English *)

Definition en_nav : tree :=
  Group [("overview", Leaf "Platform Overview");
    ("services", Leaf "Services Catalog");
    ("pipelines", Leaf "Pipeline Topology");
    ("architecture", Leaf "Architecture");
    ("operations", Leaf "Operations");
    ("dataCatalog", Leaf "Data Assets");
    ("query", Leaf "Query Workspace");
    ("policy", Leaf "Security & Policy");
    ("sso", Leaf "SSO")].

Definition en_overview : tree :=
  Group [("title", Leaf "Platform Operations Overview");
    ("subtitle", Leaf "Unified infrastructure and live state of Beluga Modern Data Platform");
    ("totalServices", Leaf "Registered Services");
    ("activePipelines", Leaf "Active Data Pipelines");
    ("catalogTables", Leaf "Iceberg Tables");
    ("catalogTablesCaption", Leaf "{count} data assets total");
    ("catalogTablesUnavailable", Leaf "Temporarily unavailable");
    ("activeWorkloads", Leaf "Active Workloads");
    ("resourceSummary", Leaf "Monitored Resources");
    ("resourceUsageCaption", Leaf "{count} reporting CPU or memory usage");
    ("resourcesUnavailable", Leaf "Resource data temporarily unavailable");
    ("viewResources", Leaf "View in Operations");
    ("clusterHealth", Leaf "Domain API Health");
    ("quickLaunch", Leaf "Upstream OSS Consoles");
    ("pipelineFlow", Leaf "Pipelines Snapshot");
    ("recentEvents", Leaf "Recent Platform Events");
    ("systemAlerts", Leaf "System Alerts");
    ("viewTopology", Leaf "View Detailed Topology");
    ("viewServices", Leaf "View Services");
    ("viewArchitecture", Leaf "View Architecture");
    ("viewAllInOperations", Leaf "View all in Operations");
    ("emptyEvents", Leaf "No recent events to display");
    ("quickLaunchSubtitle", Leaf "Upstream OSS management consoles accessible via APISIX Unified Gateway (Port 80)");
    ("securityTitle", Leaf "Platform Security & Seam Coherence");
    ("securitySubtitle", Leaf "Single identity source (Keycloak + OpenLDAP) and central authorization compiler (policyctl) maintain synchronized state.");
    ("identityProvider", Leaf "Identity & Role Provider");
    ("authzEngine", Leaf "Central Authz Engine");
    ("gatewayBoundary", Leaf "Gateway Boundary");
    ("managePolicies", Leaf "Manage Security & Authorization Policies")].

Definition en_services : tree :=
  Group [("title", Leaf "Services Catalog");
    ("subtitle", Leaf "Infrastructure services provisioned behind APISIX Gateway on Kubernetes");
    ("searchPlaceholder", Leaf "Search service name, capabilities, tags...");
    ("emptyState", Leaf "No services match the current filters");
    ("filterAll", Leaf "All Categories");
    ("columns", Group [("name", Leaf "Service Name");
      ("category", Leaf "Category / Role");
      ("status", Leaf "Status");
      ("version", Leaf "Version");
      ("endpoint", Leaf "Internal Endpoint");
      ("actions", Leaf "Actions")]);
    ("openUi", Leaf "Launch UI");
    ("statusHealthy", Leaf "Healthy");
    ("statusDegraded", Leaf "Degraded");
    ("statusStopped", Leaf "Stopped");
    ("internalOnly", Leaf "Internal-only");
    ("capabilityCategories", Group [("streaming", Leaf "Streaming");
      ("processing", Leaf "Processing");
      ("lakehouse", Leaf "Lakehouse");
      ("query", Leaf "Query");
      ("bi", Leaf "BI");
      ("orchestration", Leaf "Orchestration");
      ("storage", Leaf "Storage");
      ("observability", Leaf "Observability")]);
    ("namespaceLabel", Leaf "Namespace");
    ("workloadLabel", Leaf "Workload");
    ("keyMetricsLabel", Leaf "Key metrics")].

Definition en_pipelines : tree :=
  Group [("title", Leaf "Pipelines & Topology");
    ("subtitle", Leaf "Correlated data flow from CDC ingest to Iceberg storage and Trino query serving");
    ("topologyTitle", Leaf "Correlated Pipeline Topology");
    ("source", Leaf "Source Transactional DB (PostgreSQL)");
    ("ingest", Leaf "CDC Streaming (Debezium + Kafka)");
    ("processing", Leaf "Stream Processing (Apache Flink)");
    ("lakehouse", Leaf "Open Lakehouse (Lakekeeper / Iceberg)");
    ("queryServing", Leaf "Query Engine (Trino)");
    ("jobState", Leaf "Job State");
    ("throughput", Leaf "Throughput");
    ("recordsSec", Leaf "records/sec");
    ("stagesLabel", Leaf "Stages");
    ("correlationLabel", Leaf "Correlation");
    ("confidenceLabel", Leaf "Confidence");
    ("lastUpdatedLabel", Leaf "Last updated");
    ("noStageDetail", Leaf "No issues");
    ("notFound", Leaf "The referenced pipeline was not found in the current list");
    ("jobsLabel", Leaf "Jobs");
    ("noJobs", Leaf "No jobs reported for this pipeline");
    ("lastRunLabel", Leaf "Last run");
    ("noRuns", Leaf "No runs recorded");
    ("failureReasonLabel", Leaf "Failure reason");
    ("relatedResourcesLabel", Leaf "Related resources");
    ("jobKinds", Group [("flink", Leaf "Flink job");
      ("airflow", Leaf "Airflow DAG");
      ("cdc", Leaf "CDC connector")]);
    ("runResults", Group [("running", Leaf "Running");
      ("succeeded", Leaf "Succeeded");
      ("failed", Leaf "Failed");
      ("unknown", Leaf "Unknown")]);
    ("correlationLinksLabel", Leaf "Cross-service correlation links");
    ("noCorrelationLinks", Leaf "No correlation links identified");
    ("lowConfidence", Leaf "Inferred link (not a fact)");
    ("evidenceLabel", Leaf "Evidence");
    ("correlationMethods", Group [("declared-label", Leaf "Declared");
      ("name-convention", Leaf "Inferred from name");
      ("ambiguous-name-convention", Leaf "Inferred from name (ambiguous)")]);
    ("correlationKinds", Group [("kafka-topic", Leaf "Kafka topic");
      ("flink-job", Leaf "Flink job");
      ("iceberg-table", Leaf "Iceberg table");
      ("trino-catalog", Leaf "Trino catalog");
      ("airflow-dag", Leaf "Airflow DAG")]);
    ("correlationRelations", Group [("topic-feeds-job", Leaf "Topic feeds job");
      ("job-writes-table", Leaf "Job writes table");
      ("table-served-by-catalog", Leaf "Table served by catalog");
      ("dag-triggers-job", Leaf "DAG triggers job")]);
    ("correlationGraphTitle", Leaf "Pipeline Correlation Graph")].

Definition en_architecture : tree :=
  Group [("title", Leaf "Architecture Topology");
    ("subtitle", Leaf "Visualizes the platform as two clearly separated topology perspectives");
    ("dataPipelineTopology", Leaf "Data Pipeline Topology");
    ("infrastructureTopology", Leaf "Infrastructure Topology");
    ("infrastructureHint", Leaf "Links Kubernetes resources only to their owning namespace. Relations without a backing field (e.g. workload to pod) are not drawn");
    ("infrastructureEmpty", Leaf "No Kubernetes resources to display");
    ("resourceDetailTitle", Leaf "Resource Detail");
    ("openResource", Leaf "Open resource in Operations");
    ("clickNodeHint", Leaf "Click a node to view its details and drill down");
    ("stageDetailTitle", Leaf "Stage Detail");
    ("serviceIdLabel", Leaf "Service ID");
    ("detailLabel", Leaf "Detail");
    ("closeLabel", Leaf "Close");
    ("openService", Leaf "Open in Services Catalog");
    ("openPipeline", Leaf "Open pipeline {name}")].

Definition en_operations : tree :=
  Group [("title", Leaf "Operations");
    ("subtitle", Leaf "Review Kubernetes resources and the event timeline, with log links to the existing observability backend");
    ("eventsTab", Leaf "Event Timeline");
    ("resourcesTab", Leaf "Resources (K8s)");
    ("logsTab", Leaf "Logs");
    ("comingSoon", Leaf "Coming soon");
    ("resourcesHint", Leaf "Requires a domain-api schema extension for Kubernetes Namespace/Workload/Pod/Service/Endpoint/PVC resources");
    ("logsHint", Leaf "Will link out to the existing observability backend (e.g. Loki) -- Manager does not host its own log store");
    ("deepLinkNote", Leaf "Select a related reference to search Services by ID or open Pipelines with that item selected");
    ("emptyState", Leaf "No events to display");
    ("relatedServiceLabel", Leaf "Related service");
    ("relatedPipelineLabel", Leaf "Related pipeline");
    ("relatedResourceLabel", Leaf "Related resource");
    ("kindLabel", Leaf "Kind");
    ("namespaceLabel", Leaf "Namespace");
    ("cpuLabel", Leaf "CPU");
    ("memoryLabel", Leaf "Memory");
    ("viewLogs", Leaf "View logs");
    ("noLogsLink", Leaf "No logs link available");
    ("relatedEventLabel", Leaf "Related event");
    ("emptyResourcesState", Leaf "No resources to display");
    ("kindFilterLabel", Leaf "Filter by kind");
    ("allKindsOption", Leaf "All kinds");
    ("kindNames", Group [("Namespace", Leaf "Namespace");
      ("Workload", Leaf "Workload");
      ("Pod", Leaf "Pod");
      ("Service", Leaf "Service");
      ("Endpoint", Leaf "Endpoint");
      ("Job", Leaf "Job");
      ("PersistentVolumeClaim", Leaf "PVC")]);
    ("capacityLabel", Leaf "Capacity");
    ("storageClassLabel", Leaf "StorageClass");
    ("eventSourceLabel", Leaf "Source");
    ("eventSources", Group [("kubernetes", Leaf "Kubernetes event");
      ("service", Leaf "Service failure");
      ("job", Leaf "Job failure")]);
    ("decisionsTab", Leaf "Decisions (System-1)");
    ("decisionsTitle", Leaf "System-1 recommendations");
    ("decisionsNotice", Leaf "Recommendation only — no automatic action is taken.");
    ("advisoryConfidence", Leaf "Advisory confidence · uncalibrated");
    ("abstained", Leaf "Abstained");
    ("decisionLabels", Group [("NORMAL", Leaf "Normal");
      ("COMPUTE_BOUND", Leaf "Compute bound");
      ("MEMORY_BOUND", Leaf "Memory bound");
      ("STORAGE_BOUND", Leaf "Storage bound");
      ("NETWORK_BOUND", Leaf "Network bound");
      ("QUERY_PROBLEM", Leaf "Query problem");
      ("ESCALATE", Leaf "Escalate");
      ("ABSTAIN", Leaf "Abstain")]);
    ("abstainCodes", Group [("NO_TELEMETRY", Leaf "No telemetry");
      ("MISSING_REQUIRED_SIGNAL", Leaf "Required signal missing");
      ("STALE_TELEMETRY", Leaf "Telemetry is stale");
      ("ISOLATION_TIMEOUT", Leaf "Provider timed out");
      ("ISOLATION_PROVIDER_ERROR", Leaf "Provider error");
      ("ISOLATION_INVALID_SHAPE", Leaf "Invalid provider response");
      ("ISOLATION_OVERLOADED", Leaf "Provider overloaded")]);
    ("providerLabel", Leaf "Provider");
    ("policyLabel", Leaf "Policy");
    ("correlationLabel", Leaf "Correlation ID");
    ("evidenceLabel", Leaf "Evidence cited by provider");
    ("inputsEvaluatedLabel", Leaf "Inputs evaluated");
    ("emptyEvidenceLabel", Leaf "No evidence cited by provider");
    ("noInputsEvaluatedLabel", Leaf "No input signals were evaluated");
    ("freshLabel", Leaf "Fresh");
    ("staleLabel", Leaf "Stale");
    ("emptyDecisionsState", Leaf "No recommendations to display")].

Definition en_catalog : tree :=
  Group [("title", Leaf "Data Catalog & Assets");
    ("subtitle", Leaf "Catalog, schema, and partition metadata backed by Lakekeeper and Trino");
    ("catalogs", Leaf "Catalogs");
    ("schemas", Leaf "Schemas");
    ("tables", Leaf "Tables");
    ("columns", Leaf "Columns Schema");
    ("sampleQuery", Leaf "Sample Query");
    ("format", Leaf "Storage Format");
    ("location", Leaf "S3 Location");
    ("type", Leaf "Data Type");
    ("lakekeeperCatalog", Leaf "Lakekeeper Catalog");
    ("treeEmpty", Leaf "No child items");
    ("treeExpand", Leaf "Expand");
    ("treeCollapse", Leaf "Collapse");
    ("columnsCount", Leaf "{count} col(s)");
    ("snapshots", Leaf "Snapshots");
    ("columnName", Leaf "Column Name");
    ("dataType", Leaf "Data Type");
    ("partition", Leaf "Partition");
    ("description", Leaf "Description");
    ("queryTemplate", Leaf "Trino Query Template");
    ("copySql", Leaf "Copy SQL");
    ("copyFailed", Leaf "Copy failed - select the text and copy it manually");
    ("editorAriaLabel", Leaf "Table query template SQL (read-only)");
    ("openInQuery", Leaf "Open in Query");
    ("lastUpdated", Leaf "Last Updated");
    ("partitionSpec", Leaf "Partition Spec");
    ("nullable", Leaf "NULL");
    ("notNullable", Leaf "NOT NULL");
    ("emptyState", Leaf "No table selected")].

Definition en_query : tree :=
  Group [("title", Leaf "Query Workspace");
    ("subtitle", Leaf "Trino query entry for the table picked in the catalog. Query execution and authorization stay with Trino.");
    ("assetLabel", Leaf "Data asset");
    ("contextTitle", Leaf "Query context");
    ("trinoTarget", Leaf "Trino target (catalog.schema.table)");
    ("starterSql", Leaf "Read-only starter SQL");
    ("readOnlyNote", Leaf "Read-only. Manager does not execute queries; copy this and run it in Trino.");
    ("rowLimit", Leaf "Row limit");
    ("copySql", Leaf "Copy SQL");
    ("copyFailed", Leaf "Copy failed - select the text manually");
    ("openInTrino", Leaf "Open in Trino");
    ("emptyState", Leaf "No queryable table assets.");
    ("noTableSelected", Leaf "Select a table asset.");
    ("historyTitle", Leaf "Query History");
    ("historySubtitle", Leaf "Recent query snapshot reported by the upstream Trino adapter (read-only, handles 503).");
    ("historyUnavailable", Leaf "Query history adapter is not connected or temporarily unavailable (503).");
    ("historyPrivacyNotice", Leaf "Notice: this history is an upstream Trino snapshot read with a shared service credential. It may show queries from other users, including their SQL literals (possibly sensitive values). The UI does not guarantee masking and does not check per-caller permissions.");
    ("historyEmpty", Leaf "No query history reported.");
    ("historyColumns", Group [("id", Leaf "Query ID");
      ("sql", Leaf "Query SQL");
      ("state", Leaf "State")]);
    ("readOnlyBadge", Leaf "Read-only starter SQL");
    ("editorAriaLabel", Leaf "Trino starter SQL editor")].

Definition en_table : tree :=
  Group [("sortBy", Leaf "Sort by {column}, currently {state}");
    ("sortStateAscending", Leaf "ascending");
    ("sortStateDescending", Leaf "descending");
    ("sortStateNone", Leaf "not sorted");
    ("columnsVisibility", Leaf "Columns visibility");
    ("showAllColumns", Leaf "Show all columns");
    ("resetColumns", Leaf "Reset columns");
    ("rowsCount", Leaf "{count} row(s)");
    ("emptyRows", Leaf "No data to display");
    ("toggleColumn", Leaf "Toggle {column} visibility");
    ("page", Leaf "Page {page} of {total}");
    ("previousPage", Leaf "Previous page");
    ("nextPage", Leaf "Next page")].

Definition en_policy : tree :=
  Group [("title", Leaf "Security & Policy Compiler");
    ("subtitle", Leaf "Declarative YAML policies compiled to Keycloak, Trino OPA Rego, and Postgres GRANTs");
    ("rolesTab", Leaf "Platform Roles");
    ("catalogsTab", Leaf "Catalog Policies");
    ("resourcesTab", Leaf "Resource Policies");
    ("compiledRego", Leaf "Compiled OPA Rego (trino.rego)");
    ("compiledSql", Leaf "Compiled Postgres DDL (db-roles.sql)");
    ("identitySource", Leaf "Single Identity Source: Keycloak SSO + OpenLDAP");
    ("compilerTitle", Leaf "Central Policy Compiler");
    ("grantedPermissions", Leaf "Granted Permissions:");
    ("copyCode", Leaf "Copy Code");
    ("sourceYamlLabel", Leaf "Source YAML:");
    ("compileTargetsSummary", Leaf "→ Target: OPA Rego, PG DDL, Keycloak Mapper");
    ("grantTrinoAllOperations", Leaf "Trino: All operations");
    ("grantPostgresCrud", Leaf "Postgres: CRUD on public schema");
    ("grantFlinkJobs", Leaf "Flink: Submit / Cancel jobs");
    ("grantTrinoSelectMasked", Leaf "Trino: Select-only (PII masked)");
    ("grantPostgresSelectOnly", Leaf "Postgres: Select-only");
    ("grantSupersetDashboard", Leaf "Superset: Dashboard consumer");
    ("artefactsTab", Leaf "Compiled Artefact Metadata");
    ("readOnlySection", Leaf "Read-Only Permissions");
    ("mutatingSection", Leaf "Mutating Permissions");
    ("readOnlyBadge", Leaf "Read-Only");
    ("mutatingBadge", Leaf "Mutating");
    ("noPermissions", Leaf "No permissions granted");
    ("targetLabel", Leaf "Compile Target");
    ("hashLabel", Leaf "Content Hash (SHA-256)");
    ("linesCount", Leaf "{count} line(s)");
    ("metadataSecurityNotice", Leaf "Security principle: Compiled artefact metadata is displayed without exposing raw credentials or configuration text.");
    ("copyHash", Leaf "Copy Hash");
    ("includesLabel", Leaf "Includes");
    ("ldapGroupNameLabel", Leaf "LDAP group name");
    ("roleBadge", Leaf "ROLE");
    ("emptyState", Leaf "No policies available");
    ("compilerVersion", Leaf "policyctl v{version}");
    ("maskAnnotation", Leaf "mask: {columns}");
    ("filterAnnotation", Leaf "filter: {filter}");
    ("unmaskedAnnotation", Leaf "unmasked")].

Definition en_sso : tree :=
  Group [("title", Leaf "Single Sign-On (SSO) Configuration");
    ("subtitle", Leaf "Declarative authentication specification for Keycloak OIDC and APISIX gateway");
    ("declaredNoticeTitle", Leaf "Declared Configuration (Git)");
    ("declaredNoticeDescription", Leaf "This view displays declarative Git configuration from gitops/values/sso.yaml, not live-measured runtime state. Inferred or uncertain data is never presented as authoritative facts.");
    ("loadedAtLabel", Leaf "Loaded At");
    ("realmLabel", Leaf "Keycloak Realm");
    ("issuerLabel", Leaf "OIDC Issuer URL");
    ("issuerHostLabel", Leaf "Issuer Host");
    ("endpointsTitle", Leaf "Endpoint Authentication Policies");
    ("endpointsSubtitle", Leaf "Per-service OIDC authentication modes and path protection rules");
    ("endpointHost", Leaf "Host");
    ("endpointClientId", Leaf "Keycloak Client ID");
    ("protectedPaths", Leaf "Protected Paths");
    ("bypassPaths", Leaf "Bypass Paths");
    ("redirectPath", Leaf "Redirect Path");
    ("logoutPath", Leaf "Logout Path");
    ("noPaths", Leaf "None");
    ("notConfiguredTitle", Leaf "Configuration File Not Set");
    ("notConfiguredMessage", Leaf "The SSO configuration file was not found. Please set the SSO_CONFIG_FILE environment variable or verify the location of gitops/values/sso.yaml.");
    ("serverDetails", Leaf "Server details");
    ("modeGatewayOidc", Leaf "Gateway OIDC");
    ("modeAppOidc", Leaf "App OIDC");
    ("modeNone", Leaf "No SSO");
    ("modeExplanationGatewayOidc", Leaf "APISIX gateway enforces openid-connect plugin at the perimeter (protects UIs lacking native auth).");
    ("modeExplanationAppOidc", Leaf "Application handles OIDC authentication natively via Keycloak client.");
    ("modeExplanationNone", Leaf "No authentication is enforced at gateway or application level.");
    ("visitEndpoint", Leaf "Open Endpoint");
    ("noneClientId", Leaf "(None)");
    ("change", Group [("edit", Leaf "Edit");
      ("editTitle", Leaf "Edit allowed groups: {endpoint}");
      ("close", Leaf "Close");
      ("groupsLegend", Leaf "Groups allowed through the gateway");
      ("requiredHint", Leaf "Required group (cannot be removed)");
      ("currentUnrestricted", Leaf "Today this endpoint has no group check; selecting groups will start restricting access.");
      ("unrestricted", Leaf "(no group check)");
      ("writerUnconfigured", Leaf "The Git write path is not configured on this server; previews work but submitting will be refused.");
      ("reasonLabel", Leaf "Reason (optional)");
      ("reasonPlaceholder", Leaf "Why is this change needed?");
      ("preview", Leaf "Preview");
      ("previewing", Leaf "Previewing...");
      ("previewTitle", Leaf "Preview of the Git change");
      ("beforeLabel", Leaf "Before");
      ("afterLabel", Leaf "After");
      ("sourceCommit", Leaf "Based on commit");
      ("submit", Leaf "Open pull request");
      ("submitting", Leaf "Submitting...");
      ("submitted", Leaf "Request submitted. A pull request was opened for review.");
      ("submitInProgress", Leaf "The request was accepted but its pull request is not confirmed yet. Watch the open requests list; do not submit the same selection again.");
      ("submitEnded", Leaf "The request ended as {stage}. No pull request is open. Check the selection and preview again to submit it as a new request.");
      ("previewStale", Leaf "The selection changed after the preview. Preview again before submitting.");
      ("openTitle", Leaf "Open change requests");
      ("openSubtitle", Leaf "Requests that are not yet applied. Refreshed every 30 seconds.");
      ("endpointLabel", Leaf "Endpoint");
      ("createdLabel", Leaf "Created");
      ("openPr", Leaf "Pull request #{number}");
      ("noPr", Leaf "No pull request yet");
      ("mergedNote", Leaf "Merged, awaiting apply. This stays until ArgoCD reports both applications synced to the merge.");
      ("stageSubmitted", Leaf "Submitted");
      ("stagePrOpen", Leaf "Pull request open");
      ("stageUnknownRecovering", Leaf "Recovering");
      ("stageMerged", Leaf "Merged");
      ("stageApplied", Leaf "Applied");
      ("stageRejected", Leaf "Rejected");
      ("stageFailed", Leaf "Failed");
      ("cancelRequest", Leaf "Cancel request");
      ("cancelConfirmTitle", Leaf "Close the pull request and release the lock?");
      ("cancelReasonLabel", Leaf "Reason (optional)");
      ("cancelConfirm", Leaf "Yes, cancel request");
      ("cancelKeep", Leaf "Keep request");
      ("cancelling", Leaf "Cancelling...");
      ("serverMessage", Leaf "Server message");
      ("errStaleBase", Leaf "The base changed, preview again.");
      ("errOpenRequestExists", Leaf "Another change request is already open. Wait for it or cancel it first.");
      ("errGitWriterUnconfigured", Leaf "The Git write path is not configured, so nothing can be submitted yet.");
      ("errAuditUnavailable", Leaf "The audit store is unavailable. Nothing was changed; try again later.");
      ("errConsumerNotDeployed", Leaf "The SSO change consumer is not deployed yet.");
      ("errNoEffectiveChange", Leaf "This selection does not change anything.");
      ("errPatchRejected", Leaf "The server rejected this selection.");
      ("errRequestNotActive", Leaf "This request is no longer active.");
      ("errGithubUnavailable", Leaf "GitHub could not be reached. The request was left as it was; try again.");
      ("errForbidden", Leaf "Only members of the admins group can change SSO groups.");
      ("errIdempotencyMismatch", Leaf "This request key was already used for a different selection. Preview again.");
      ("errIdempotencyKeyCollision", Leaf "The request key collided with an earlier request. A new key was created; submit again.");
      ("errRequestInFlight", Leaf "The request was submitted moments ago and may still be creating its pull request. Retry shortly.");
      ("errGeneric", Leaf "The request failed.")])].

Definition en_status : tree :=
  Group [("healthy", Leaf "Healthy");
    ("degraded", Leaf "Degraded");
    ("stale", Leaf "Stale");
    ("unknown", Leaf "Unknown");
    ("unavailable", Leaf "Unavailable")].

Definition en_severity : tree :=
  Group [("info", Leaf "Info");
    ("warning", Leaf "Warning");
    ("error", Leaf "Error")].

Definition en_common : tree :=
  Group [("status", Leaf "Status");
    ("healthy", Leaf "Healthy");
    ("degraded", Leaf "Degraded");
    ("running", Leaf "Running");
    ("ready", Leaf "Ready");
    ("version", Leaf "Version");
    ("endpoint", Leaf "Endpoint");
    ("refresh", Leaf "Refresh");
    ("language", Leaf "Language");
    ("openInNewTab", Leaf "Open in new tab");
    ("theme", Leaf "Theme");
    ("lightMode", Leaf "Light (Default)");
    ("darkMode", Leaf "Dark Mode");
    ("figmaSpec", Leaf "Figma Design System");
    ("figmaConnected", Leaf "Figma DS Linked");
    ("loading", Leaf "Loading...");
    ("editorLoading", Leaf "Loading SQL editor...");
    ("editorLoadFailed", Leaf "The SQL editor failed to load. The SQL is shown below as plain text.");
    ("retry", Leaf "Retry");
    ("loadError", Leaf "Failed to load data");
    ("errorsCount", Leaf "{count} error(s)");
    ("warningsCount", Leaf "{count} warning(s)");
    ("copied", Leaf "Copied");
    ("themeLight", Leaf "Light");
    ("themeDark", Leaf "Dark");
    ("cluster", Leaf "Cluster");
    ("controlPlane", Leaf "Control Plane");
    ("gatewayLabel", Leaf "Gateway:");
    ("targetLabel", Leaf "Target:")].

Definition en_figmaModal : tree :=
  Group [("title", Leaf "Beluga Design System (Figma Spec)");
    ("subtitle", Leaf "WCAG AAA High-Contrast & Dual-Theme Tokens");
    ("contrastPrinciples", Leaf "Figma Readability Principles & High-Contrast Layering");
    ("contrastDescription", Leaf "Contrast ratio maintained at 7:1 (WCAG AAA) across both dark and light modes to maximize legibility for table grids, pipeline topology, and SQL editor across token layers (Canvas → Surface → Card → Control).");
    ("tokensComparison", Leaf "Design Tokens Comparison:");
    ("contrastVerified", Leaf "High-Contrast Verified");
    ("lightModeTitle", Leaf "Light Mode");
    ("darkModeTitle", Leaf "Dark Mode");
    ("defaultTag", Leaf "Default");
    ("layeredTag", Leaf "Layered");
    ("specLabel", Leaf "Beluga UI Design System Specification");
    ("openInFigma", Leaf "Open Design in Figma");
    ("tokenCanvas", Leaf "Canvas");
    ("tokenSurfaceCard", Leaf "Surface Card");
    ("tokenTextPrimary", Leaf "Text Primary");
    ("tokenAccentCyan", Leaf "Accent Cyan")].

Definition en_graph : tree :=
  Group [("graphView", Leaf "Graph View");
    ("tableView", Leaf "Table View");
    ("nodesTitle", Leaf "Nodes");
    ("edgesTitle", Leaf "Connections");
    ("nodeLabel", Leaf "Node");
    ("typeLabel", Leaf "Type");
    ("statusLabel", Leaf "Status");
    ("connectionsLabel", Leaf "Connections");
    ("sourceLabel", Leaf "Source");
    ("targetLabel", Leaf "Target");
    ("relationLabel", Leaf "Relation");
    ("confidenceLabel", Leaf "Confidence");
    ("keyboardHint", Leaf "Press Tab to enter the graph, arrow keys to move between nodes, Enter or Space to select");
    ("emptyState", Leaf "No nodes or connections to display");
    ("textAlternative", Leaf "Accessible table alternative for graph topology");
    ("viewDetails", Leaf "View details");
    ("selectedNode", Leaf "Selected Node");
    ("summary", Leaf "Topology graph with {nodes} nodes and {edges} connections");
    ("edgeLabel", Leaf "{source} connects to {target}");
    ("dataIssuesNotice", Leaf "Graph data issues: {duplicates} duplicate id(s) ignored (first occurrence kept), {dangling} connection(s) to missing nodes omitted")].

Definition en_auth : tree :=
  Group [("loginTitle", Leaf "Sign in to Beluga Manager");
    ("loginDescription", Leaf "Sign in with your organization SSO (Keycloak) account to use the Manager API.");
    ("loginButton", Leaf "Sign in with SSO");
    ("redirecting", Leaf "Redirecting to sign-in…");
    ("signingIn", Leaf "Signing in...");
    ("sessionExpired", Leaf "Your session expired or was rejected. Please sign in again.");
    ("loggedOut", Leaf "You have signed out.");
    ("loginFailed", Leaf "Sign-in failed");
    ("userLabel", Leaf "User");
    ("groupsLabel", Leaf "Groups");
    ("noGroups", Leaf "No groups");
    ("logout", Leaf "Sign out");
    ("loginDisabled", Leaf "Login disabled");
    ("loginDisabledHint", Leaf "No oidc section in /config.json, so API calls are sent without credentials (local development mode).");
    ("fixtureData", Leaf "Fixture data");
    ("fixtureDataHint", Leaf "Some components are in stub mode, so built-in fixture data is shown (not live state). Stub components: ");
    ("forbiddenTitle", Leaf "Access denied");
    ("forbiddenDescription", Leaf "You are signed in but not permitted to view this data (HTTP 403). Ask an administrator about the required group membership.")].

Definition en : list (string * tree) :=
  [("appName", Leaf "Beluga Manager");
   ("tagline", Leaf "Unified Modern Data Platform Control Plane");
   ("nav", en_nav);
   ("overview", en_overview);
   ("services", en_services);
   ("pipelines", en_pipelines);
   ("architecture", en_architecture);
   ("operations", en_operations);
   ("catalog", en_catalog);
   ("query", en_query);
   ("table", en_table);
   ("policy", en_policy);
   ("sso", en_sso);
   ("status", en_status);
   ("severity", en_severity);
   ("common", en_common);
   ("figmaModal", en_figmaModal);
   ("graph", en_graph);
   ("auth", en_auth)].

Definition translations (locale : Locale) : list (string * tree) := match locale with KoKR => ko | EnUS => en end.
