(* ===== verification/I18n.v ===== *)
(** * Language of the web console: [web/src/i18n], [config/storage.ts]

    The choice of the language and what is kept of it, the catalog with its fall-back,
    the templates with their placeholders, and numbers and times. *)

From S2P Require Import Prelude JsBase JsText JsJson JsLib AssetId Services SsoStore Kube Console Translations.
From Stdlib Require Import Ascii.
From Stdlib Require String.
Open Scope Z_scope.

(** ** [config/storage.ts], [locale.ts] *)

(** The local storage: absent, throwing, or what it holds. *)
Inductive LocalStorage := NoStorage | Blocked | Stored (items : list (string * string)).

Definition readStoredValue (key : string) (s : LocalStorage) : option string :=
  match s with Stored l => map_get key l | _ => None end.

(** [full]: [setItem] throws, the quota is used up. *)
Definition storeValue (full : bool) (key value : string) (s : LocalStorage) : LocalStorage :=
  match s with Stored l => if full then s else Stored (map_set key value l) | _ => s end.

Definition LOCALE_STORAGE_KEY : string := "beluga_locale".
Definition locale_name (l : Locale) : string := match l with EnUS => "en-US" | KoKR => "ko-KR" end.

Definition getInitialLocale (s : LocalStorage) (language : option string) : Locale :=
  match readStoredValue LOCALE_STORAGE_KEY s with
  | Some "en-US" => EnUS
  | Some "ko-KR" => KoKR
  | _ =>
      match language with
      | Some l => if bool_decide (head (split_char "-" (to_lower l)) = Some "ko") then KoKR else EnUS
      | None => EnUS
      end
  end.

Definition persistLocale (full : bool) (l : Locale) (s : LocalStorage) : LocalStorage := storeValue full LOCALE_STORAGE_KEY (locale_name l) s.

(** ** [format.ts] *)

Section format.
(** [Intl.NumberFormat] and [Intl.DateTimeFormat] with their options; [new Date(s)]. *)
Context (number_format : Locale -> list (string * string) -> Z -> string) (date_format : Locale -> list (string * string) -> Z -> string).
Context `{JsLib}.

Definition DEFAULT_DATETIME_OPTIONS : list (string * string) :=
  [("year", "numeric"); ("month", "numeric"); ("day", "numeric"); ("hour", "numeric"); ("minute", "numeric"); ("second", "numeric")].

(** A text that is no date is shown as it is. *)
Definition formatDateTime (value : string) (locale : Locale) (options : option (list (string * string))) : string :=
  match Date_parse value with
  | None => value
  | Some t => date_format locale (default DEFAULT_DATETIME_OPTIONS options) t
  end.

(** A number, or [NaN]. *)
Definition formatNumber (value : option Z) (locale : Locale) (options : list (string * string)) : string :=
  match value with None => "NaN" | Some n => number_format locale options n end.

Definition formatPercent (value : option Z) (locale : Locale) (options : list (string * string)) : string :=
  formatNumber value locale (foldl (fun m kv => map_set kv.1 kv.2 m) [("style", "percent")] options).

(** ** [interpolate.ts] *)

(** A template is text with placeholders: the match of [/\{(\w+)\}/] at the start. *)
Fixpoint take_word (s : string) : string * string :=
  match s with
  | String a s' => if JsRegex.is_word a then let wr := take_word s' in (String a wr.1, wr.2) else (EmptyString, s)
  | EmptyString => (EmptyString, EmptyString)
  end.

Definition placeholder (s : string) : option (string * string) :=
  match s with
  | String a s' =>
      if Ascii.eqb a "{" then
        match take_word s' with
        | (EmptyString, _) => None
        | (w, String b rest) => if Ascii.eqb b "}" then Some (w, rest) else None
        | _ => None
        end
      else None
  | EmptyString => None
  end.

Inductive Piece := Char (a : ascii) | Hole (key : string).

(** The template cut into characters and placeholders, from left to right; [fuel]: one
    more than its length. *)
Fixpoint pieces_fuel (fuel : nat) (s : string) : list Piece :=
  match fuel with
  | O => []
  | S fuel =>
      match placeholder s with
      | Some (key, rest) => Hole key :: pieces_fuel fuel rest
      | None => match s with String a s' => Char a :: pieces_fuel fuel s' | EmptyString => [] end
      end
  end.
Definition pieces (s : string) : list Piece := pieces_fuel (S (String.length s)) s.

(** A parameter: a text or a number. *)
Definition show_param (locale : Locale) (v : string + Z) : string :=
  match v with inl s => s | inr n => formatNumber (Some n) locale [] end.

Definition fill (locale : Locale) (params : list (string * (string + Z))) (p : Piece) : string :=
  match p with
  | Char a => str1 a
  | Hole key => match map_get key params with Some v => show_param locale v | None => "{" +:+ key +:+ "}" end
  end.

Definition interpolate (template : string) (params : list (string * (string + Z))) (locale : Locale) : string :=
  join EmptyString (map (fill locale params) (pieces template)).

Definition interpolateCount (template : string) (count : option Z) (locale : Locale) (options : list (string * string)) : string :=
  if includes "{count}" template then replace_all "{count}" (formatNumber count locale options) template else template.
End format.

Definition holes (template : string) : list string := omap (fun p => match p with Hole k => Some k | Char _ => None end) (pieces template).

(** ** [getTranslations.ts] *)

(** An object with the properties it has of its own; a value of a catalog. *)
Definition isGroup (v : option tree) : bool := match v with Some (Group _) => true | _ => false end.
Definition group_of (v : option tree) : list (string * tree) := match v with Some (Group l) => l | _ => [] end.
Definition text_of (v : option tree) : option string := match v with Some (Leaf s) => Some s | _ => None end.

(** A group of [t] is a proxy of two objects and its path; reading a property gives a
    proxy or a text. *)
Record Proxy := mkProxy { px_localized : list (string * tree); px_english : list (string * tree); px_prefix : string }.

Definition withFallback (p : Proxy) (key : string) : Proxy + string :=
  let value := map_get key (px_localized p) in
  let fallback := map_get key (px_english p) in
  let path := if String.eqb (px_prefix p) EmptyString then key else px_prefix p +:+ "." +:+ key in
  if isGroup value || isGroup fallback then inl (mkProxy (group_of value) (group_of fallback) path)
  else inr (match text_of value with Some s => s | None => match text_of fallback with Some s => s | None => path end end).

Definition getTranslations (locale : Locale) (catalogs : Locale -> list (string * tree)) : Proxy :=
  mkProxy (catalogs locale) (catalogs EnUS) EmptyString.

(** [t.a.b.c]; [None] when it is a group. *)
Fixpoint read_text (p : Proxy) (path : list string) : option string :=
  match path with
  | [] => None
  | key :: rest =>
      match withFallback p key with
      | inr s => match rest with [] => Some s | _ => None end
      | inl q => read_text q rest
      end
  end.

(** ** The templates the views fill, with the parameters they give *)

Definition overview_templates : list (list string * list string) := [(["overview"; "catalogTablesCaption"], ["count"])].
Definition overview_resource_template : list (list string * list string) := [(["overview"; "resourceUsageCaption"], ["count"])].
Definition overview_error_template : list (list string * list string) := [(["common"; "errorsCount"], ["count"])].
Definition warnings_template : list (list string * list string) := [(["common"; "warningsCount"], ["count"])].
Definition architecture_template : list (list string * list string) := [(["architecture"; "openPipeline"], ["name"])].
Definition catalog_template : list (list string * list string) := [(["catalog"; "columnsCount"], ["count"])].
Definition table_templates : list (list string * list string) := [(["table"; "rowsCount"], ["count"]); (["table"; "page"], ["page"; "total"])].
Definition table_toggle_template : list (list string * list string) := [(["table"; "toggleColumn"], ["column"])].
Definition table_sort_template : list (list string * list string) := [(["table"; "sortBy"], ["column"; "state"])].
Definition policy_version_template : list (list string * list string) := [(["policy"; "compilerVersion"], ["version"])].
Definition policy_mask_template : list (list string * list string) := [(["policy"; "maskAnnotation"], ["columns"])].
Definition policy_filter_template : list (list string * list string) := [(["policy"; "filterAnnotation"], ["filter"])].
Definition policy_lines_template : list (list string * list string) := [(["policy"; "linesCount"], ["count"])].
Definition form_title_template : list (list string * list string) := [(["sso"; "change"; "editTitle"], ["endpoint"])].
Definition form_ended_template : list (list string * list string) := [(["sso"; "change"; "submitEnded"], ["stage"])].
Definition banner_template : list (list string * list string) := [(["sso"; "change"; "openPr"], ["number"])].
Definition graph_summary_template : list (list string * list string) := [(["graph"; "summary"], ["nodes"; "edges"])].
Definition graph_edge_template : list (list string * list string) := [(["graph"; "edgeLabel"], ["source"; "target"])].
Definition graph_notice_template : list (list string * list string) := [(["graph"; "dataIssuesNotice"], ["duplicates"; "dangling"])].

Definition filled_templates : list (list string * list string) :=
  overview_templates ++ overview_resource_template ++ overview_error_template ++ warnings_template ++ architecture_template ++
  catalog_template ++ table_templates ++ table_toggle_template ++ table_sort_template ++ policy_version_template ++
  policy_mask_template ++ policy_filter_template ++ policy_lines_template ++ form_title_template ++ form_ended_template ++
  banner_template ++ graph_summary_template ++ graph_edge_template ++ graph_notice_template.

(** ** The fall-back *)

Fixpoint tree_at (l : list (string * tree)) (path : list string) : option tree :=
  match path with
  | [] => Some (Group l)
  | [key] => map_get key l
  | key :: rest => tree_at (group_of (map_get key l)) rest
  end.

Definition dotted (prefix : string) (path : list string) : string :=
  if String.eqb prefix EmptyString then join "." path else prefix +:+ "." +:+ join "." path.

Lemma dotted_cons prefix key k rest : key <> EmptyString \/ prefix <> EmptyString ->
  dotted (if String.eqb prefix EmptyString then key else prefix +:+ "." +:+ key) (k :: rest) = dotted prefix (key :: k :: rest).
Proof.
  intros Hne. unfold dotted. destruct (String.eqb_spec prefix EmptyString) as [->|Hp].
  - destruct (String.eqb_spec key EmptyString) as [->|Hk]; [by destruct Hne|done].
  - destruct (String.eqb_spec (prefix +:+ "." +:+ key) EmptyString) as [E|_]; [by destruct prefix|].
    change (join "." (key :: k :: rest)) with (key +:+ "." +:+ join "." (k :: rest)). by rewrite !str_app_assoc.
Qed.

(** A path whose groups are groups in one of the catalogs: what the type allows to read. *)
Fixpoint typed_path (localized english : list (string * tree)) (path : list string) : bool :=
  match path with
  | [] => false
  | [key] => negb (String.eqb key EmptyString) && negb (isGroup (map_get key localized)) && negb (isGroup (map_get key english))
  | key :: rest =>
      negb (String.eqb key EmptyString) && (isGroup (map_get key localized) || isGroup (map_get key english)) &&
      typed_path (group_of (map_get key localized)) (group_of (map_get key english)) rest
  end.

(** A text of the page, for any catalogs, even incomplete ones: that of the language, or
    else the English one, or else the dotted path. *)
Lemma read_text_falls_back localized english prefix path :
  typed_path localized english path = true ->
  read_text (mkProxy localized english prefix) path =
    Some (match text_of (tree_at localized path) with
          | Some s => s
          | None => match text_of (tree_at english path) with Some s => s | None => dotted prefix path end
          end).
Proof.
  revert localized english prefix. induction path as [|key rest IH]; intros localized english prefix Ht; [done|].
  cbn [read_text]. unfold withFallback. cbn [px_localized px_english px_prefix]. destruct rest as [|k rest].
  - cbn [typed_path tree_at] in *. rewrite !andb_true_iff, !negb_true_iff in Ht. destruct Ht as [[_ ->] ->]. done.
  - change (tree_at localized (key :: k :: rest)) with (tree_at (group_of (map_get key localized)) (k :: rest)) in *.
    change (tree_at english (key :: k :: rest)) with (tree_at (group_of (map_get key english)) (k :: rest)) in *.
    change (typed_path localized english (key :: k :: rest)) with (negb (String.eqb key EmptyString) &&
      (isGroup (map_get key localized) || isGroup (map_get key english)) &&
      typed_path (group_of (map_get key localized)) (group_of (map_get key english)) (k :: rest)) in Ht.
    rewrite !andb_true_iff, negb_true_iff in Ht. destruct Ht as [[Hk Hg] Ht]. rewrite Hg, (IH _ _ _ Ht).
    by rewrite dotted_cons by (left; by apply String.eqb_neq in Hk).
Qed.

(** ** The catalogs *)

Fixpoint shape_paths (s : shape) : list (list string) :=
  match s with
  | Text => [[]]
  | Fields l => flat_map (fun '(k, s) => map (cons k) (shape_paths s)) l
  end.

(** Every text the interface declares. *)
Definition interface_paths : list (list string) := shape_paths (Fields TRANSLATIONS).

Definition same_elements (l k : list string) : bool := forallb (fun x => bool_decide (x ∈ k)) l && forallb (fun x => bool_decide (x ∈ l)) k.

(** The text of a path in a language, with the placeholders that are filled in. *)
Definition text_complete (locale : Locale) (path : list string) : bool :=
  match read_text (getTranslations locale translations) path, text_of (tree_at (translations locale) path) with
  | Some s, Some own => String.eqb s own && negb (String.eqb s EmptyString) &&
      same_elements (holes s) (default [] (map_get path filled_templates))
  | _, _ => false
  end.

Lemma catalogs_complete : forallb (fun path => text_complete KoKR path && text_complete EnUS path) interface_paths = true.
Proof. by vm_compute. Qed.

Lemma templates_declared : forallb (fun t => bool_decide (t.1 ∈ interface_paths)) filled_templates = true.
Proof. by vm_compute. Qed.

Lemma same_elements_spec l k x : same_elements l k = true -> x ∈ l <-> x ∈ k.
Proof.
  unfold same_elements. rewrite andb_true_iff, !forallb_forall. intros [H1 H2]. split; intros Hx%list_elem_of_In.
  - by apply H1, bool_decide_eq_true in Hx.
  - by apply H2, bool_decide_eq_true in Hx.
Qed.

(** The name of a severity. *)
Definition severity_key (s : EventSeverity) : string := match s with SevInfo => "info" | SevWarning => "warning" | SevError => "error" end.

(** Whatever text a page reads, under a key that is written in a view or computed from a
    status, a severity, a stage or an error of the API. *)
Definition reads_text (path : list string) : Prop :=
  forall locale, exists s, read_text (getTranslations locale translations) path = Some s /\ s <> EmptyString /\
    forall k, k ∈ holes s <-> k ∈ default [] (map_get path filled_templates).

Lemma interface_reads path : path ∈ interface_paths -> reads_text path.
Proof.
  intros Hp%list_elem_of_In locale. pose proof (proj1 (forallb_forall _ _) catalogs_complete path Hp) as Hc.
  apply andb_true_iff in Hc as [Hk He]. assert (text_complete locale path = true) as Ht by (by destruct locale).
  unfold text_complete in Ht. destruct (read_text _ path) as [s|]; [|done]. destruct (text_of _); [|done].
  rewrite !andb_true_iff, negb_true_iff in Ht. destruct Ht as [[_ Hs] Hh]. exists s. split; [done|]. split; [by apply String.eqb_neq|].
  intros k. by apply same_elements_spec.
Qed.

Lemma reads_listed path : bool_decide (path ∈ interface_paths) = true -> reads_text path.
Proof. intros H%bool_decide_eq_true. by apply interface_reads. Qed.

(** The output of a template whose parameters are given has every placeholder replaced. *)
Lemma interpolate_fills number_format template params locale :
  (forall k, k ∈ holes template -> is_Some (map_get k params)) ->
  interpolate number_format template params locale =
    join EmptyString (map (fun p => match p with
      | Char a => str1 a
      | Hole k => match map_get k params with Some v => show_param number_format locale v | None => EmptyString end
      end) (pieces template)).
Proof.
  intros Hk. unfold interpolate. f_equal. apply map_ext_in. intros [a|k] Hin; [done|]. cbn.
  assert (k ∈ holes template) as Hh by (unfold holes; apply list_elem_of_omap; exists (Hole k); split; [by apply list_elem_of_In|done]).
  by destruct (Hk k Hh) as [v ->].
Qed.

(** The texts of the console.  Every text the interface declares is there in both
    languages, not empty, and has exactly the placeholders its view fills, so none is ever
    shown; the labels of every status, severity, stage and error of the API are among
    them; and with a catalog that lacks texts a page shows the English one, or else the
    dotted key. *)
Theorem page_texts :
  (forall path, path ∈ interface_paths -> reads_text path) /\
  (forall h, reads_text ["status"; status_name h]) /\ (forall s, reads_text ["severity"; severity_key s]) /\
  (forall s, reads_text ["sso"; "change"; stage_key s]) /\
  (forall text e, exists key, reads_text ["sso"; "change"; key] /\ de_message (describeSsoError text e) = text key) /\
  (forall catalogs locale path, typed_path (catalogs locale) (catalogs EnUS) path = true ->
    read_text (getTranslations locale catalogs) path =
      Some (match text_of (tree_at (catalogs locale) path) with
            | Some s => s
            | None => match text_of (tree_at (catalogs EnUS) path) with Some s => s | None => join "." path end
            end)).
Proof.
  split_and!.
  - apply interface_reads.
  - intros h. apply reads_listed. by destruct h; vm_compute.
  - intros h. apply reads_listed. by destruct h; vm_compute.
  - intros h. apply reads_listed. by destruct h; vm_compute.
  - intros text e. assert (exists key, de_message (describeSsoError text e) = text key /\ key ∈ "errGeneric" :: "errForbidden" :: error_key_by_code.*2)
      as (key & E & Hk).
    { destruct e as [status code detail|m|]; cbn [describeSsoError de_message]; [|eexists; split; [done|by left]..].
      destruct (code ≫= fun c => map_get c error_key_by_code) as [key|] eqn:Ec; eexists; (split; [done|]).
      - apply bind_Some in Ec as (c & _ & Ec%map_get_elem_of). right. right. by apply (list_elem_of_fmap_2' snd _ (c, key)).
      - destruct (status =? 403); [right; by left|by left]. }
    exists key. split; [|done]. apply reads_listed.
    assert (forallb (fun k => bool_decide (["sso"; "change"; k] ∈ interface_paths)) ("errGeneric" :: "errForbidden" :: error_key_by_code.*2) = true) as Ha
      by (by vm_compute).
    by apply (proj1 (forallb_forall _ _) Ha), list_elem_of_In.
  - intros catalogs locale path Ht. unfold getTranslations. rewrite (read_text_falls_back _ _ _ _ Ht). done.
Qed.

(** The language that was chosen is the language of the next visit when the browser keeps
    it; otherwise that of the browser, with English for whatever is not Korean. *)
Lemma locale_is_kept l items language : getInitialLocale (persistLocale false l (Stored items)) language = l.
Proof. unfold getInitialLocale, persistLocale. cbn. rewrite map_get_set, decide_True by done. by destruct l. Qed.
