(* ===== verification/I18nGuard.v ===== *)
(** * The gate against hardcoded texts: [web/src/i18n/hardcodedStringGuard.ts]

    The guard finds texts of the console that bypass the translations.  The TypeScript
    parser is a library: the tree it makes of a file is the input, with what the guard
    reads of a node; where a node starts and ends, and lines and columns, are what the
    library says. *)
From S2P Require Import Prelude JsBase JsText Console.
From Stdlib Require Import Ascii.
From Stdlib Require String.
Open Scope nat_scope.

(** ** Data *)

(** [getFullStart()], [getStart()], [getEnd()]. *)
Record Span := mkSpan { sp_full : nat; sp_start : nat; sp_end : nat }.

Inductive LogicalOp := AmpersandAmpersand | QuestionQuestion | BarBar | OtherOperator.

Inductive Node :=
  | StringLiteral (sp : Span) (text : string)
  | NoSubstitutionTemplateLiteral (sp : Span) (text : string)
  | ParenthesizedExpression (sp : Span) (expression : Node)
  | ConditionalExpression (sp : Span) (condition whenTrue whenFalse : Node)
  | BinaryExpression (sp : Span) (lhs : Node) (op : LogicalOp) (rhs : Node)
  | ArrayLiteralExpression (sp : Span) (elements : list Node)
  | TemplateExpression (sp : Span) (head : string) (templateSpans : list (Node * string))
  | JsxText (sp : Span) (containsOnlyTriviaWhiteSpaces : bool)
  | JsxExpression (sp : Span) (expression : option Node)
  | JsxAttribute (sp : Span) (name : string) (initializer : option Node)
  | JsxElement (sp : Span) (opening : Node) (children : list Node) (closing : Node)
  | JsxFragment (sp : Span) (opening : Node) (children : list Node) (closing : Node)
  | OtherNode (sp : Span) (children : list Node).

Definition span_of (n : Node) : Span :=
  match n with
  | StringLiteral sp _ | NoSubstitutionTemplateLiteral sp _ | ParenthesizedExpression sp _ | ConditionalExpression sp _ _ _
  | BinaryExpression sp _ _ _ | ArrayLiteralExpression sp _ | TemplateExpression sp _ _ | JsxText sp _ | JsxExpression sp _
  | JsxAttribute sp _ _ | JsxElement sp _ _ _ | JsxFragment sp _ _ _ | OtherNode sp _ => sp
  end.

(** A parsed file; [sf_position]: [getLineAndCharacterOfPosition], from zero. *)
Record SourceFile := mkSourceFile { sf_text : string; sf_root : Node; sf_position : nat -> nat * nat }.

Inductive ViolationKind := KJsxText | KJsxAttribute | KInvalidExemptMarker.

Record HardcodedStringViolation := mkViolation {
  vi_file : string; vi_line : nat; vi_column : nat; vi_kind : ViolationKind; vi_attribute : option string; vi_text : string;
}.

Record BaselineEntry := mkBaseline { bl_file : string; bl_line : nat; bl_text : string; bl_reason : string }.

(** ** Attributes *)

Definition STRUCTURAL_ATTRIBUTES : list string :=
  ["classname"; "class"; "style"; "id"; "key"; "href"; "src"; "srcset"; "rel"; "target";
   "type"; "name"; "htmlfor"; "for"; "role"; "tabindex"; "colspan"; "rowspan"; "value";
   "action"; "method"; "x"; "y"; "width"; "height"; "fill"; "viewbox"; "xmlns"].

Definition USER_FACING_ATTRIBUTES : list string := ["title"; "aria-label"; "placeholder"; "alt"; "label"].

Definition isStructuralAttribute (lowerName : string) : bool :=
  bool_decide (lowerName ∈ STRUCTURAL_ATTRIBUTES) || starts_with "data-" lowerName ||
  (includes "testid" lowerName || includes "test-id" lowerName) ||
  (starts_with "aria-" lowerName && negb (String.eqb lowerName "aria-label")).

Definition isUserFacingAttribute (name : string) : bool :=
  let lower := to_lower name in
  if isStructuralAttribute lower then false
  else bool_decide (lower ∈ USER_FACING_ATTRIBUTES) || ends_with_text "label" lower.

(** ** Comments and markers *)

Definition MIN_EXEMPT_REASON_LENGTH : nat := 8.
Definition EXEMPT_WORD : string := "i18n-exempt".

(** What follows the first place of a word, letters in either case. *)
Fixpoint after_ci (word s : string) : option string :=
  if starts_with (to_lower word) (to_lower s) then Some (str_drop (String.length word) s)
  else match s with EmptyString => None | String _ s' => after_ci word s' end.

Fixpoint until_star (s : string) : string :=
  match s with String a s' => if Ascii.eqb a "*" then EmptyString else String a (until_star s') | EmptyString => EmptyString end.

(** [EXEMPT_MARKER.exec(s)?.[1]]: what follows the word, a colon and spaces, up to a star. *)
Definition exempt_marker (s : string) : option string :=
  rest ← after_ci EXEMPT_WORD s;
  Some (until_star (trim_start (match rest with String a r => if Ascii.eqb a ":" then r else rest | EmptyString => rest end))).

Definition exemptReasonFromComment (commentText : string) : option string :=
  m ← exempt_marker commentText;
  let reason := trim m in
  if MIN_EXEMPT_REASON_LENGTH <=? String.length reason then Some reason else None.

(** The place of a text after the start. *)
Fixpoint index_of (needle s : string) : option nat :=
  if starts_with needle s then Some 0
  else match s with EmptyString => None | String _ s' => S <$> index_of needle s' end.

(** The length of the match of [COMMENT_TEXT] at the start: up to the end of the line, or
    up to the closing mark, when there is one. *)
Definition comment_at (s : string) : option nat :=
  if starts_with "//" s then Some (default (String.length s) (index_of lf s))
  else if starts_with "/*" s then (fun i => i + 4) <$> index_of "*/" (str_drop 2 s)
  else None.

(** [s.matchAll(COMMENT_TEXT)], with the place of each; [skip]: how much of a comment is
    left. *)
Fixpoint comments_from (place skip : nat) (s : string) : list (nat * string) :=
  match s with
  | EmptyString => []
  | String _ s' =>
      match skip with
      | S skip => comments_from (S place) skip s'
      | O =>
          match comment_at s with
          | Some n => (place, str_take n s) :: comments_from (S place) (n - 1) s'
          | None => comments_from (S place) 0 s'
          end
      end
  end.
Definition comments (s : string) : list (nat * string) := comments_from 0 0 s.

Definition slice_text (s : string) (start stop : nat) : string := str_take (stop - start) (str_drop start s).

Definition findExemptReasonInRange (text : string) (start stop : nat) : option string :=
  if stop <=? start then None else head (omap (fun c : nat * string => exemptReasonFromComment c.2) (comments (slice_text text start stop))).

Definition attributeExemptReason (sf : SourceFile) (attr literal : Span) : option string :=
  let text := sf_text sf in
  match findExemptReasonInRange text (sp_full attr) (sp_start attr) with
  | Some reason => Some reason
  | None =>
      let lineBreak := match index_of lf (str_drop (sp_end literal) text) with Some i => sp_end literal + i | None => String.length text end in
      findExemptReasonInRange text (sp_end literal) lineBreak
  end.

(** The siblings of a child of an element or a fragment. *)
Definition Siblings := option (option Node * option Node).

Definition node_text (sf : SourceFile) (n : Node) : string := slice_text (sf_text sf) (sp_start (span_of n)) (sp_end (span_of n)).

(** A sibling that is an expression without content: a comment in braces. *)
Definition comment_sibling (sf : SourceFile) (n : option Node) : option string :=
  match n with
  | Some (JsxExpression sp None) => exemptReasonFromComment (slice_text (sf_text sf) (sp_start sp) (sp_end sp))
  | _ => None
  end.

Definition jsxChildExemptReason (sf : SourceFile) (siblings : Siblings) : option string :=
  match siblings with
  | None => None
  | Some (before, after) => match comment_sibling sf before with Some reason => Some reason | None => comment_sibling sf after end
  end.

(** ** Texts *)

Section guard.
(** [/\p{L}/u.test(s)] *)
Context (has_letter : string -> bool).

(** The length of the match of [/&[a-zA-Z]+;/] at the start. *)
Fixpoint letters_then_semicolon (some : bool) (s : string) : option nat :=
  match s with
  | String a s' =>
      if is_alpha a then S <$> letters_then_semicolon true s'
      else if Ascii.eqb a ";" && some then Some 1 else None
  | EmptyString => None
  end.
Definition entity_at (s : string) : option nat :=
  match s with String a s' => if Ascii.eqb a "&" then S <$> letters_then_semicolon false s' else None | EmptyString => None end.

(** [s.replace(HTML_ENTITY_REF, ' ')] *)
Fixpoint replace_entities (skip : nat) (s : string) : string :=
  match s with
  | EmptyString => EmptyString
  | String a s' =>
      match skip with
      | S skip => replace_entities skip s'
      | O => match entity_at s with Some n => String " " (replace_entities (n - 1) s') | None => String a (replace_entities 0 s') end
      end
  end.

Definition translatableText (rawText : string) : option string :=
  let trimmed := trim rawText in
  if String.eqb trimmed EmptyString then None
  else if has_letter (replace_entities 0 trimmed) then Some trimmed else None.

(** The literals a wrapper renders as they are. *)
Fixpoint resolveTranslatableLiterals (expr : Node) : list (string * Span) :=
  match expr with
  | StringLiteral sp text | NoSubstitutionTemplateLiteral sp text =>
      match translatableText text with Some t => [(t, sp)] | None => [] end
  | ParenthesizedExpression _ e => resolveTranslatableLiterals e
  | ConditionalExpression _ _ a b => resolveTranslatableLiterals a ++ resolveTranslatableLiterals b
  | BinaryExpression _ _ (AmpersandAmpersand | QuestionQuestion | BarBar) rhs => resolveTranslatableLiterals rhs
  | ArrayLiteralExpression _ elements => flat_map resolveTranslatableLiterals elements
  | TemplateExpression sp head spans =>
      match translatableText (join EmptyString (head :: map snd spans)) with Some t => [(t, sp)] | None => [] end
  | _ => []
  end.

(** ** The walk *)

Section file.
Context (sf : SourceFile) (relativeFile : string).

Definition violation (place : nat) (kind : ViolationKind) (attribute : option string) (text : string) : HardcodedStringViolation :=
  let (line, character) := sf_position sf place in mkViolation relativeFile (S line) (S character) kind attribute text.

Definition collectInvalidExemptMarkers : list HardcodedStringViolation :=
  omap (fun c : nat * string =>
      match exempt_marker c.2, exemptReasonFromComment c.2 with
      | Some _, None => Some (violation c.1 KInvalidExemptMarker None (trim c.2))
      | _, _ => None
      end) (comments (sf_text sf)).

Definition is_some {A} (o : option A) : bool := match o with Some _ => true | None => false end.

(** A literal an initializer is, or has in braces. *)
Definition attribute_literal (initializer : Node) : option (Span * string) :=
  match initializer with
  | StringLiteral sp text => Some (sp, text)
  | JsxExpression _ (Some (StringLiteral sp text | NoSubstitutionTemplateLiteral sp text)) => Some (sp, text)
  | _ => None
  end.

(** What the visit of one node reports. *)
Definition node_violations (siblings : Siblings) (n : Node) : list HardcodedStringViolation :=
  match n with
  | JsxText sp onlyWhiteSpace =>
      if onlyWhiteSpace then []
      else match translatableText (node_text sf n) with
           | Some text => if is_some (jsxChildExemptReason sf siblings) then [] else [violation (sp_start sp) KJsxText None text]
           | None => []
           end
  | JsxExpression sp (Some expr) =>
      match siblings with
      | None => []
      | Some _ =>
          match expr with
          | StringLiteral _ t | NoSubstitutionTemplateLiteral _ t =>
              match translatableText t with
              | Some text => if is_some (jsxChildExemptReason sf siblings) then [] else [violation (sp_start sp) KJsxText None text]
              | None => []
              end
          | _ =>
              if is_some (jsxChildExemptReason sf siblings) then []
              else map (fun found : string * Span => violation (sp_start found.2) KJsxText None found.1) (resolveTranslatableLiterals expr)
          end
      end
  | JsxAttribute sp name (Some initializer) =>
      if isUserFacingAttribute name then
        match attribute_literal initializer with
        | Some (literal, t) =>
            match translatableText t with
            | Some text => if is_some (attributeExemptReason sf sp literal) then [] else [violation (sp_start sp) KJsxAttribute (Some name) text]
            | None => []
            end
        | None =>
            match initializer with
            | JsxExpression _ (Some wrapperExpr) =>
                if is_some (attributeExemptReason sf sp (span_of wrapperExpr)) then []
                else map (fun found : string * Span => violation (sp_start found.2) KJsxAttribute (Some name) found.1) (resolveTranslatableLiterals wrapperExpr)
            | _ => []
            end
        end
      else []
  | _ => []
  end.

(** [visit]: the node, and then its children in order, those of an element or a fragment
    with their siblings. *)
Fixpoint visit (siblings : Siblings) (n : Node) : list HardcodedStringViolation :=
  let visit_children := fix visit_children (before : option Node) (l : list Node) : list HardcodedStringViolation :=
    match l with [] => [] | c :: rest => visit (Some (before, head rest)) c ++ visit_children (Some c) rest end in
  node_violations siblings n ++
  match n with
  | StringLiteral _ _ | NoSubstitutionTemplateLiteral _ _ | JsxText _ _ => []
  | ParenthesizedExpression _ e => visit None e
  | ConditionalExpression _ c a b => visit None c ++ visit None a ++ visit None b
  | BinaryExpression _ l _ r => visit None l ++ visit None r
  | ArrayLiteralExpression _ l => flat_map (visit None) l
  | TemplateExpression _ _ spans => flat_map (fun s => visit None (fst s)) spans
  | JsxExpression _ o | JsxAttribute _ _ o => match o with Some e => visit None e | None => [] end
  | JsxElement _ opening children closing | JsxFragment _ opening children closing =>
      visit None opening ++ visit_children None children ++ visit None closing
  | OtherNode _ l => flat_map (visit None) l
  end.

Definition collectViolations : list HardcodedStringViolation := collectInvalidExemptMarkers ++ visit None (sf_root sf).
End file.

(** ** Directories *)

(** What [readdirSync] says of an entry: a file, a directory with its entries, or neither. *)
Inductive Entry := EFile (name : string) | EDirectory (name : string) (entries : list Entry) | EOther (name : string).

Definition entry_name (e : Entry) : string := match e with EFile n | EDirectory n _ | EOther n => n end.
Definition hidden (name : string) : bool := String.eqb name "node_modules" || starts_with "." name.

(** [join], and [relative] to the web root with forward slashes, of [node:path]. *)
Context (path_join : string -> string -> string) (relative_path : string -> string).

Fixpoint list_entry (dir : string) (e : Entry) : list string :=
  if hidden (entry_name e) then []
  else match e with
       | EDirectory name entries => flat_map (list_entry (path_join dir name)) entries
       | EFile name => if ends_with_text ".tsx" name && negb (ends_with_text ".test.tsx" name) then [path_join dir name] else []
       | EOther _ => []
       end.
Definition listTsxFiles (dir : string) (entries : list Entry) : list string := flat_map (list_entry dir) entries.

Record DirectoryScanResult := mkScan { ds_violations : list HardcodedStringViolation; ds_fileCount : nat }.

Definition parse_failure (relPath : string) : string :=
  "hardcodedStringGuard: failed to parse " +:+ dq +:+ relPath +:+ dq +:+ " -- the i18n gate cannot verify this file for hardcoded strings" +:+
  " and must fail closed instead of silently skipping it.".
Definition fixture_failure (file : string) : string :=
  "hardcodedStringGuard: failed to parse fixture " +:+ dq +:+ file +:+ dq +:+ " -- failing closed instead of silently skipping it.".

(** The files with the name each is reported under.  [getSourceFile]: nothing when the
    library cannot parse a file. *)
Fixpoint scan_files (failure : string -> string) (getSourceFile : string -> option SourceFile) (files : list (string * string)) : result string DirectoryScanResult :=
  match files with
  | [] => inr (mkScan [] 0)
  | (absPath, name) :: rest =>
      match getSourceFile absPath with
      | None => inl (failure name)
      | Some sf =>
          match scan_files failure getSourceFile rest with
          | inl e => inl e
          | inr r => inr (mkScan (collectViolations sf name ++ ds_violations r) (S (ds_fileCount r)))
          end
      end
  end.

Definition scanDirectory (getSourceFile : string -> option SourceFile) (srcDir : string) (entries : list Entry) : result string DirectoryScanResult :=
  scan_files parse_failure getSourceFile (map (fun f => (f, relative_path f)) (listTsxFiles srcDir entries)).

(** Texts in memory, under a path each; the last one of a path counts.  [parse]: the
    parser over a virtual file system. *)
Definition FIXTURE_ROOT : string := "/hardcoded-string-guard-fixtures".
Definition toAbsPath (file : string) : string := FIXTURE_ROOT +:+ "/" +:+ file.

Definition scanFixtures (parse : list (string * string) -> string -> option SourceFile) (fixtures : list (string * string)) : result string (list HardcodedStringViolation) :=
  let virtualFiles := foldl (fun m f => map_set (toAbsPath f.1) f.2 m) [] fixtures in
  match scan_files fixture_failure (parse virtualFiles) (map (fun f => (toAbsPath f.1, f.1)) fixtures) with
  | inl e => inl e
  | inr r => inr (ds_violations r)
  end.

Definition scanSourceText (parse : list (string * string) -> string -> option SourceFile) (file text : string) : result string (list HardcodedStringViolation) :=
  scanFixtures parse [(file, text)].

(** ** The baseline *)

Definition baselineKey (file : string) (line : nat) (text : string) : string := file +:+ ":" +:+ pretty line +:+ ":" +:+ text.

Definition baselined (baseline : list BaselineEntry) (v : HardcodedStringViolation) : bool :=
  bool_decide (baselineKey (vi_file v) (vi_line v) (vi_text v) ∈ map (fun b => baselineKey (bl_file b) (bl_line b) (bl_text b)) baseline).

Definition partitionAgainstBaseline (violations : list HardcodedStringViolation) (baseline : list BaselineEntry)
    : list HardcodedStringViolation * list HardcodedStringViolation :=
  (List.filter (fun v => negb (baselined baseline v)) violations, List.filter (baselined baseline) violations).
End guard.

Definition formatViolation (v : HardcodedStringViolation) : string :=
  let where_ := match vi_kind v with
                | KJsxAttribute => " [" +:+ default "undefined" (vi_attribute v) +:+ "]"
                | KInvalidExemptMarker => " [invalid i18n-exempt marker]"
                | KJsxText => EmptyString
                end in
  vi_file v +:+ ":" +:+ pretty (vi_line v) +:+ ":" +:+ pretty (vi_column v) +:+ where_ +:+ " -> " +:+ dq +:+ vi_text v +:+ dq.

(** ** What the walk reaches *)

(** The children of a node, with their siblings. *)
Fixpoint with_siblings (before : option Node) (l : list Node) : list (Siblings * Node) :=
  match l with [] => [] | c :: rest => (Some (before, head rest), c) :: with_siblings (Some c) rest end.

Definition alone (n : Node) : Siblings * Node := (None, n).

Definition children_of (n : Node) : list (Siblings * Node) :=
  match n with
  | StringLiteral _ _ | NoSubstitutionTemplateLiteral _ _ | JsxText _ _ => []
  | ParenthesizedExpression _ e => [alone e]
  | ConditionalExpression _ c a b => map alone [c; a; b]
  | BinaryExpression _ l _ r => map alone [l; r]
  | ArrayLiteralExpression _ l | OtherNode _ l => map alone l
  | TemplateExpression _ _ spans => map (fun s => alone s.1) spans
  | JsxExpression _ o | JsxAttribute _ _ o => match o with Some e => [alone e] | None => [] end
  | JsxElement _ opening children closing | JsxFragment _ opening children closing =>
      alone opening :: with_siblings None children ++ [alone closing]
  end.

(** A node of the tree below another, with its siblings. *)
Inductive below : Siblings -> Node -> Siblings -> Node -> Prop :=
  | below_here s n : below s n s n
  | below_child s n s1 c s2 m : (s1, c) ∈ children_of n -> below s1 c s2 m -> below s n s2 m.

Lemma visit_step has_letter sf file s n :
  visit has_letter sf file s n = node_violations has_letter sf file s n ++ flat_map (fun c => visit has_letter sf file c.1 c.2) (children_of n).
Proof.
  assert (forall l, flat_map (visit has_letter sf file None) l = flat_map (fun c => visit has_letter sf file c.1 c.2) (map alone l)) as Hm.
  { induction l as [|a l IH]; [done|]. cbn [map flat_map alone fst snd]. by rewrite <-IH. }
  assert (forall opening closing children, visit has_letter sf file None opening ++ (fix visit_children (before : option Node) (l : list Node) :=
      match l with [] => [] | c :: rest => visit has_letter sf file (Some (before, head rest)) c ++ visit_children (Some c) rest end) None children ++
      visit has_letter sf file None closing =
    flat_map (fun c => visit has_letter sf file c.1 c.2) (alone opening :: with_siblings None children ++ [alone closing])) as Hc.
  { intros opening closing children. cbn [flat_map alone fst snd]. f_equal. rewrite flat_map_app. cbn [flat_map alone fst snd]. rewrite app_nil_r. f_equal.
    generalize (@None Node). induction children as [|a l IH]; intros before; [done|]. cbn [with_siblings flat_map fst snd]. f_equal. apply IH. }
  destruct n; cbn [visit children_of]; f_equal; try done.
  all: try (cbn [map flat_map alone fst snd]; by rewrite ?app_nil_r).
  all: try apply Hm.
  all: try (by destruct initializer; cbn [flat_map alone fst snd]; rewrite ?app_nil_r).
  all: try (by destruct expression; cbn [flat_map alone fst snd]; rewrite ?app_nil_r).
  all: try apply Hc.
  induction templateSpans as [|a l IH]; [done|]. cbn [map flat_map alone fst snd]. f_equal. apply IH.
Qed.

Fixpoint size (n : Node) : nat :=
  let of_option (o : option Node) := match o with Some e => size e | None => 0 end in
  let of_list := fix of_list (l : list Node) := match l with [] => 0 | a :: l => size a + of_list l end in
  S match n with
    | StringLiteral _ _ | NoSubstitutionTemplateLiteral _ _ | JsxText _ _ => 0
    | ParenthesizedExpression _ e => size e
    | ConditionalExpression _ c a b => size c + (size a + size b)
    | BinaryExpression _ l _ r => size l + size r
    | ArrayLiteralExpression _ l | OtherNode _ l => of_list l
    | TemplateExpression _ _ spans => (fix of_spans (l : list (Node * string)) := match l with [] => 0 | a :: l => size (fst a) + of_spans l end) spans
    | JsxExpression _ o | JsxAttribute _ _ o => of_option o
    | JsxElement _ opening children closing | JsxFragment _ opening children closing => size opening + (of_list children + size closing)
    end.

Lemma child_smaller n c : c ∈ children_of n -> size c.2 < size n.
Proof.
  assert (forall l before c, c ∈ with_siblings before l -> size c.2 <= (fix of_list (l : list Node) := match l with [] => 0 | a :: l => size a + of_list l end) l) as Hs.
  { induction l as [|a l IH]; intros before x; cbn [with_siblings]; [by intros ?%elem_of_nil|].
    intros [->|Hx]%elem_of_cons; [cbn; lia|]. apply IH in Hx. lia. }
  assert (forall l c, c ∈ map alone l -> size c.2 <= (fix of_list (l : list Node) := match l with [] => 0 | a :: l => size a + of_list l end) l) as Hm.
  { induction l as [|a l IH]; intros x; cbn [map]; [by intros ?%elem_of_nil|]. intros [->|Hx]%elem_of_cons; [cbn; lia|]. apply IH in Hx. lia. }
  destruct n; cbn [children_of]; try by intros ?%elem_of_nil.
  - intros ->%list_elem_of_singleton. cbn. lia.
  - cbn [map alone]. rewrite !elem_of_cons, elem_of_nil. intros [->|[->|[->|[]]]]; cbn; lia.
  - cbn [map alone]. rewrite !elem_of_cons, elem_of_nil. intros [->|[->|[]]]; cbn; lia.
  - intros Hc%Hm. cbn [size]. lia.
  - intros Hc. cbn [size]. apply Nat.lt_succ_r. induction templateSpans as [|a l IH]; [by apply elem_of_nil in Hc|].
    cbn [map] in Hc. apply elem_of_cons in Hc as [->|Hc]; [cbn; lia|]. apply IH in Hc. lia.
  - destruct expression; [|by intros ?%elem_of_nil]. intros ->%list_elem_of_singleton. cbn. lia.
  - destruct initializer; [|by intros ?%elem_of_nil]. intros ->%list_elem_of_singleton. cbn. lia.
  - rewrite elem_of_cons, elem_of_app, list_elem_of_singleton. intros [->|[Hc%Hs| ->]]; cbn [size alone snd]; lia.
  - rewrite elem_of_cons, elem_of_app, list_elem_of_singleton. intros [->|[Hc%Hs| ->]]; cbn [size alone snd]; lia.
  - intros Hc%Hm. cbn [size]. lia.
Qed.

(** The walk reports what the visits of the nodes report, and misses none. *)
Lemma visit_reports has_letter sf file s n v :
  v ∈ visit has_letter sf file s n <-> exists s' m, below s n s' m /\ v ∈ node_violations has_letter sf file s' m.
Proof.
  split.
  - remember (size n) as k eqn:Hk. revert n s Hk. induction k as [k IH] using lt_wf_ind. intros n s ->. rewrite visit_step, elem_of_app, elem_of_flat_map.
    intros [Hv|(c & Hc & Hv)]; [exists s, n; split; [constructor|done]|].
    apply (IH _ (child_smaller _ _ Hc) c.2 c.1 eq_refl) in Hv as (s' & m & Hb & Hv). exists s', m. split; [|done].
    by apply (below_child _ _ c.1 c.2); [destruct c|].
  - intros (s' & m & Hb & Hv). induction Hb as [s n|s n s1 c s2 m Hc _ IH]; rewrite visit_step, elem_of_app; [by left|right].
    apply elem_of_flat_map. exists (s1, c). split; [done|by apply IH].
Qed.

(** ** What passes the gate *)

Section gate.
Context (has_letter : string -> bool) (path_join : string -> string -> string) (relative_path : string -> string).
Context (getSourceFile : string -> option SourceFile) (baseline : list BaselineEntry).

(** The baseline has an entry of the file, the line and the text. *)
Definition reviewed (sf : SourceFile) (name : string) (place : nat) (text : string) : Prop :=
  exists b, b ∈ baseline /\ baselineKey (bl_file b) (bl_line b) (bl_text b) = baselineKey name (S (sf_position sf place).1) text.

(** A comment that says why, in eight characters or more. *)
Definition says_why (comment : string) : Prop :=
  exists reason, exemptReasonFromComment comment = Some reason /\ 8 <= String.length reason.

(** A sibling next to it is such a comment. *)
Definition commented (sf : SourceFile) (s : Siblings) : Prop :=
  exists before after sp, s = Some (before, after) /\ (before = Some (JsxExpression sp None) \/ after = Some (JsxExpression sp None)) /\
    says_why (slice_text (sf_text sf) (sp_start sp) (sp_end sp)).

(** Such a comment is in front of an attribute, or behind it on its line. *)
Definition attribute_commented (sf : SourceFile) (sp literal : Span) : Prop :=
  exists start stop place comment, (start = sp_full sp /\ stop = sp_start sp \/ start = sp_end literal) /\
    (place, comment) ∈ comments (slice_text (sf_text sf) start stop) /\ says_why comment.

(** The texts an attribute shows: its literal, or those of the expression in braces; and
    where they are. *)
Definition attribute_texts (sp : Span) (initializer : Node) : list (string * nat * Span) :=
  match attribute_literal initializer with
  | Some (literal, t) => match translatableText has_letter t with Some text => [(text, sp_start sp, literal)] | None => [] end
  | None =>
      match initializer with
      | JsxExpression _ (Some e) => map (fun found : string * Span => (found.1, sp_start found.2, span_of e)) (resolveTranslatableLiterals has_letter e)
      | _ => []
      end
  end.

(** A file whose texts are translated, exempted or reviewed. *)
Record clean_file (sf : SourceFile) (name : string) : Prop := {
  cf_text : forall s sp text, below None (sf_root sf) s (JsxText sp false) ->
    translatableText has_letter (slice_text (sf_text sf) (sp_start sp) (sp_end sp)) = Some text ->
    commented sf s \/ reviewed sf name (sp_start sp) text;
  cf_expression : forall s sp e text literal, below None (sf_root sf) (Some s) (JsxExpression sp (Some e)) ->
    (text, literal) ∈ resolveTranslatableLiterals has_letter e ->
    commented sf (Some s) \/ reviewed sf name (sp_start sp) text \/ reviewed sf name (sp_start literal) text;
  cf_attribute : forall s sp attr initializer text place literal, below None (sf_root sf) s (JsxAttribute sp attr (Some initializer)) ->
    isUserFacingAttribute attr = true -> (text, place, literal) ∈ attribute_texts sp initializer ->
    attribute_commented sf sp literal \/ reviewed sf name place text;
  cf_marker : forall place comment, (place, comment) ∈ comments (sf_text sf) -> is_some (exempt_marker comment) = true ->
    says_why comment \/ reviewed sf name place (trim comment);
}.

Lemma reason_says_why c reason : exemptReasonFromComment c = Some reason -> says_why c.
Proof.
  intros E. exists reason. split; [done|]. unfold exemptReasonFromComment in E. destruct (exempt_marker c) as [m|]; [|done].
  cbn -[Nat.leb] in E. destruct (MIN_EXEMPT_REASON_LENGTH <=? String.length (trim m)) eqn:Hl; [|done]. injection E as <-. by apply Nat.leb_le.
Qed.

Lemma child_commented sf s : is_some (jsxChildExemptReason sf s) = true -> commented sf s.
Proof.
  assert (forall n reason, comment_sibling sf n = Some reason -> exists sp, n = Some (JsxExpression sp None) /\ says_why (slice_text (sf_text sf) (sp_start sp) (sp_end sp))) as Hc.
  { intros [[]|] reason; cbn; try done. destruct expression; [done|]. intros E. eexists. split; [done|by eapply reason_says_why]. }
  unfold jsxChildExemptReason. destruct s as [[before after]|]; [|done]. destruct (comment_sibling sf before) as [reason|] eqn:Eb.
  - intros _. destruct (Hc _ _ Eb) as (sp & -> & Hw). exists (Some (JsxExpression sp None)), after, sp. split_and!; [done|by left|done].
  - destruct (comment_sibling sf after) as [reason|] eqn:Ea; [|done]. intros _. destruct (Hc _ _ Ea) as (sp & -> & Hw).
    exists before, (Some (JsxExpression sp None)), sp. split_and!; [done|by right|done].
Qed.

Lemma range_commented text start stop reason : findExemptReasonInRange text start stop = Some reason ->
  exists place comment, (place, comment) ∈ comments (slice_text text start stop) /\ says_why comment.
Proof.
  unfold findExemptReasonInRange. destruct (stop <=? start); [done|]. intros Hh%head_Some_elem_of.
  apply list_elem_of_omap in Hh as ([place comment] & Hin & E). exists place, comment. split; [done|by eapply reason_says_why].
Qed.

Lemma attribute_exempt sf sp literal : is_some (attributeExemptReason sf sp literal) = true -> attribute_commented sf sp literal.
Proof.
  unfold attributeExemptReason, attribute_commented. cbv zeta. destruct (findExemptReasonInRange _ (sp_full sp) _) as [reason|] eqn:E.
  - intros _. apply range_commented in E as (place & comment & Hin & Hw). exists (sp_full sp), (sp_start sp), place, comment. split_and!; [by left|done|done].
  - destruct (findExemptReasonInRange _ (sp_end literal) _) as [reason|] eqn:E'; [|done]. intros _.
    apply range_commented in E' as (place & comment & Hin & Hw). eexists (sp_end literal), _, place, comment. split_and!; [by right|done|done].
Qed.

(** A report that is not blocking is in the baseline. *)
Lemma report_reviewed sf name place kind attribute text : baselined baseline (violation sf name place kind attribute text) = true -> reviewed sf name place text.
Proof.
  unfold baselined, violation, reviewed. destruct (sf_position sf place) as [line character] eqn:E. cbn [vi_file vi_line vi_text fst].
  intros (b & He & Hb)%bool_decide_eq_true%elem_of_map. by exists b.
Qed.

Definition allowed (l : list HardcodedStringViolation) : Prop := forall v, v ∈ l -> baselined baseline v = true.

Lemma file_clean sf name : allowed (collectViolations has_letter sf name) -> clean_file sf name.
Proof.
  intros Ha. assert (forall s n v, below None (sf_root sf) s n -> v ∈ node_violations has_letter sf name s n -> baselined baseline v = true) as Hv.
  { intros s n v Hb Hin. apply Ha, elem_of_app. right. apply visit_reports. by exists s, n. }
  constructor.
  - intros s sp text Hb Ht. specialize (Hv _ _ (violation sf name (sp_start sp) KJsxText None text) Hb). cbn [node_violations] in Hv.
    unfold node_text in Hv. cbn [span_of] in Hv. rewrite Ht in Hv.
    destruct (is_some (jsxChildExemptReason sf s)) eqn:E; [left; by apply child_commented|right].
    eapply report_reviewed, Hv. by left.
  - intros s sp e text literal Hb Hin. destruct (is_some (jsxChildExemptReason sf (Some s))) eqn:E; [left; by apply child_commented|right].
    pose proof (fun v => Hv _ _ v Hb) as Hw. cbn [node_violations] in Hw. rewrite E in Hw.
    destruct e; try (right; eapply report_reviewed, Hw, elem_of_map; exists (text, literal); done).
    all: left; cbn [resolveTranslatableLiterals] in Hin; destruct (translatableText has_letter text0) as [t|]; [|by apply elem_of_nil in Hin];
      apply list_elem_of_singleton in Hin as [= -> ->]; eapply report_reviewed, Hw; by left.
  - intros s sp attr initializer text place literal Hb Hu Hin. pose proof (fun v => Hv _ _ v Hb) as Hw. cbn [node_violations] in Hw. rewrite Hu in Hw.
    unfold attribute_texts in Hin. destruct (attribute_literal initializer) as [[lit t]|].
    + destruct (translatableText has_letter t) as [t'|]; [|by apply elem_of_nil in Hin]. apply list_elem_of_singleton in Hin as [= -> -> ->].
      destruct (is_some (attributeExemptReason sf sp lit)) eqn:E; [left; by apply attribute_exempt|right]. eapply report_reviewed, Hw. by left.
    + destruct initializer; try by apply elem_of_nil in Hin. destruct expression as [e|]; [|by apply elem_of_nil in Hin].
      apply elem_of_map in Hin as (found & Hf & [= -> -> ->]).
      destruct (is_some (attributeExemptReason sf sp (span_of e))) eqn:E; [left; by apply attribute_exempt|right].
      eapply report_reviewed, Hw, elem_of_map. by exists found.
  - intros place comment Hin Hm. destruct (exemptReasonFromComment comment) as [reason|] eqn:E; [left; by eapply reason_says_why|right].
    destruct (exempt_marker comment) as [m|] eqn:Em; [|done].
    apply (report_reviewed sf name place KInvalidExemptMarker None), Ha, elem_of_app. left.
    apply list_elem_of_omap. exists (place, comment). split; [done|]. cbn [fst snd]. by rewrite Em, E.
Qed.

Lemma scan_all failure files r : scan_files has_letter failure getSourceFile files = inr r ->
  ds_fileCount r = length files /\
  forall f, f ∈ files -> exists sf, getSourceFile f.1 = Some sf /\ forall v, v ∈ collectViolations has_letter sf f.2 -> v ∈ ds_violations r.
Proof.
  revert r. induction files as [|[path name] files IH]; intros r; cbn [scan_files]; [intros [= <-]; split; [done|by intros f ?%elem_of_nil]|].
  destruct (getSourceFile path) as [sf|] eqn:E; [|done]. destruct (scan_files has_letter failure getSourceFile files) as [e|r'] eqn:Er; [done|].
  intros [= <-]. cbn [ds_fileCount ds_violations]. destruct (IH r' eq_refl) as [Hl Hf]. split; [cbn; by rewrite Hl|].
  intros f [->|Hin]%elem_of_cons; [exists sf; split; [done|]; intros v Hv; apply elem_of_app; by left|].
  destruct (Hf f Hin) as (sf' & Es & Hs). exists sf'. split; [done|]. intros v Hv. apply elem_of_app. right. by apply Hs.
Qed.

(** The gate.  When the scan of a directory ends and nothing it reports is blocking, every
    file of the console was parsed and counted, and in each of them every text between
    tags, every literal that an expression between tags renders, every text of an
    attribute that a person reads, and every marker is either exempted by a comment next
    to it that says why in eight characters or more, or in the reviewed baseline.  The
    files are those in the directory that end in [.tsx] and are no tests, outside
    [node_modules] and hidden directories. *)
Theorem i18n_gate_sound srcDir entries r :
  scanDirectory has_letter path_join relative_path getSourceFile srcDir entries = inr r ->
  (partitionAgainstBaseline (ds_violations r) baseline).1 = [] ->
  ds_fileCount r = length (listTsxFiles path_join srcDir entries) /\
  forall f, f ∈ listTsxFiles path_join srcDir entries -> exists sf, getSourceFile f = Some sf /\ clean_file sf (relative_path f).
Proof.
  intros [Hl Hf]%scan_all Hb. rewrite length_map in Hl. split; [done|]. intros f Hin.
  destruct (Hf (f, relative_path f)) as (sf & E & Hs); [apply elem_of_map; by exists f|]. exists sf. split; [done|].
  apply file_clean. intros v Hv. apply not_false_iff_true. intros Hn.
  apply (elem_of_nil v). rewrite <-Hb. apply elem_of_filterb. split; [by apply Hs|by rewrite Hn].
Qed.
End gate.

(** ** Witnesses *)

Definition ascii_letter (s : string) : bool := negb (str_all (fun a => negb (is_alpha a)) s).
Definition demo_join (a b : string) : string := a +:+ "/" +:+ b.

Definition demo_text : string := "<p title='Hi'>Hello" +:+ lf +:+ "{/* i18n-exempt: a product name */}</p>".
Definition demo_root : Node :=
  OtherNode (mkSpan 0 0 59) [
    JsxElement (mkSpan 0 0 59)
      (OtherNode (mkSpan 0 0 14) [JsxAttribute (mkSpan 2 3 13) "title" (Some (StringLiteral (mkSpan 9 9 13) "Hi"))])
      [JsxText (mkSpan 14 14 20) false; JsxExpression (mkSpan 20 20 55) None]
      (OtherNode (mkSpan 55 55 59) [])].
Definition demo_file : SourceFile := mkSourceFile demo_text demo_root (fun place => if place <? 20 then (0, place) else (1, place - 20)).
Definition demo_files (f : string) : option SourceFile := if String.eqb f "src/App.tsx" then Some demo_file else None.
Definition demo_entries : list Entry :=
  [EFile "App.tsx"; EFile "App.test.tsx"; EFile "main.ts"; EDirectory "node_modules" [EFile "Lib.tsx"]; EDirectory ".git" []].
Definition demo_baseline : list BaselineEntry := [mkBaseline "src/App.tsx" 1 "Hi" "reviewed"].
Definition demo_scan := scanDirectory ascii_letter demo_join (fun f => f) demo_files "src" demo_entries.

Lemma i18n_gate_sound_witness :
  exists r, demo_scan = inr r /\ (partitionAgainstBaseline (ds_violations r) demo_baseline).1 = [] /\ length (ds_violations r) = 1 /\
    ds_fileCount r = 1 /\ clean_file ascii_letter demo_baseline demo_file "src/App.tsx".
Proof.
  eexists. split; [vm_compute; reflexivity|]. split; [vm_compute; reflexivity|]. split; [reflexivity|]. split; [reflexivity|].
  destruct (i18n_gate_sound ascii_letter demo_join (fun f => f) demo_files demo_baseline "src" demo_entries
    (mkScan [mkViolation "src/App.tsx" 1 4 KJsxAttribute (Some "title") "Hi"] 1) ltac:(vm_compute; reflexivity) ltac:(vm_compute; reflexivity)) as [_ Hf].
  destruct (Hf "src/App.tsx") as (sf & [= <-] & Hc); [left|exact Hc].
Defined.

(** What the guard does not see: texts put together with [+], and literals in the holes of
    a template. *)
Lemma concatenation_passes has_letter sf file s sp sp' l r head spans :
  translatableText has_letter (join EmptyString (head :: map snd spans)) = None ->
  node_violations has_letter sf file (Some s) (JsxExpression sp (Some (BinaryExpression sp' l OtherOperator r))) = [] /\
  node_violations has_letter sf file (Some s) (JsxExpression sp (Some (TemplateExpression sp' head spans))) = [].
Proof.
  intros Ht. cbn [node_violations]. unfold is_some. split; [by destruct (jsxChildExemptReason sf (Some s))|].
  destruct (jsxChildExemptReason sf (Some s)); [done|]. cbn [resolveTranslatableLiterals]. by rewrite Ht.
Qed.
