(* ===== verification/Graph.v ===== *)
(** * The topology graph of the web console: [web/src/components/graph]

    Cleaning a graph ([sanitize.ts]), its layered layout ([layout.ts]) and moving through
    it with the keyboard ([navigation.ts]); the rendering around them is React. *)

From S2P Require Import Prelude JsBase JsJson JsLib Services.
From Stdlib Require Import Ascii.
From Stdlib Require String.
Open Scope Z_scope.

(** ** Data *)

Record Position := mkPosition { px : Z; py : Z }.

Record TopologyGraphNode := mkGraphNode {
  gn_id : string; gn_title : string; gn_subtitle : string; gn_status : option HealthStatus; gn_badge : option string;
  gn_detail : option string; gn_position : option Position; gn_data : option json; gn_ariaLabel : option string;
}.

Record TopologyGraphEdge := mkGraphEdge {
  ge_id : string; ge_source : string; ge_target : string; ge_label : option string; ge_dashed : bool;
  ge_confidence : option Z; ge_method : option string; ge_evidence : list string;
}.

(** ** [sanitizeGraph] *)

Record SanitizedGraph := mkSanitized {
  sg_nodes : list TopologyGraphNode;
  sg_edges : list TopologyGraphEdge;
  sg_duplicateNodeIds : list string;
  sg_duplicateEdgeIds : list string;
  sg_danglingEdgeCount : Z;
}.

(** The nodes that are kept, [seenNodes] and [dupNodes]. *)
Fixpoint sanitize_nodes (nodes : list TopologyGraphNode) (seen dup : list string) : list TopologyGraphNode * list string * list string :=
  match nodes with
  | [] => ([], seen, dup)
  | n :: rest =>
      if bool_decide (gn_id n ∈ seen) then sanitize_nodes rest seen (set_add (gn_id n) dup)
      else let '(kept, seen', dup') := sanitize_nodes rest (set_add (gn_id n) seen) dup in (n :: kept, seen', dup')
  end.

(** The edges that are kept, [dupEdges] and [dangling]. *)
Fixpoint sanitize_edges (seenNodes : list string) (edges : list TopologyGraphEdge) (seen dup : list string) (dangling : Z)
    : list TopologyGraphEdge * list string * Z :=
  match edges with
  | [] => ([], dup, dangling)
  | e :: rest =>
      if bool_decide (ge_id e ∈ seen) then sanitize_edges seenNodes rest seen (set_add (ge_id e) dup) dangling
      else
        let seen := set_add (ge_id e) seen in
        if negb (bool_decide (ge_source e ∈ seenNodes)) || negb (bool_decide (ge_target e ∈ seenNodes))
        then sanitize_edges seenNodes rest seen dup (dangling + 1)
        else let '(kept, dup', dangling') := sanitize_edges seenNodes rest seen dup dangling in (e :: kept, dup', dangling')
  end.

Definition sanitizeGraph (nodes : list TopologyGraphNode) (edges : list TopologyGraphEdge) : SanitizedGraph :=
  let '(keptNodes, seenNodes, dupNodes) := sanitize_nodes nodes [] [] in
  let '(keptEdges, dupEdges, dangling) := sanitize_edges seenNodes edges [] [] 0 in
  mkSanitized keptNodes keptEdges dupNodes dupEdges dangling.

Definition hasGraphDataIssues (g : SanitizedGraph) : bool :=
  match sg_duplicateNodeIds g, sg_duplicateEdgeIds g with
  | [], [] => 0 <? sg_danglingEdgeCount g
  | _, _ => true
  end.

(** ** [computeGraphLayout] *)

Definition GRAPH_NODE_WIDTH : Z := 220.
Definition GRAPH_NODE_HEIGHT : Z := 100.
Definition GRAPH_GAP_X : Z := 90.
Definition GRAPH_GAP_Y : Z := 24.

(** [unique] and [index]. *)
Definition add_unique (acc : list TopologyGraphNode * list (string * nat)) (n : TopologyGraphNode) : list TopologyGraphNode * list (string * nat) :=
  let (unique, index) := acc in
  if map_has (gn_id n) index then acc else (unique ++ [n], map_set (gn_id n) (length unique) index).

(** [out] and [indeg]. *)
Definition add_edge (index : list (string * nat)) (acc : list (list nat) * list nat) (e : TopologyGraphEdge) : list (list nat) * list nat :=
  let (out, indeg) := acc in
  match map_get (ge_source e) index, map_get (ge_target e) index with
  | Some s, Some t => if Nat.eqb s t then acc else (<[s := out !!! s ++ [t]]> out, <[t := S (indeg !!! t)]> indeg)
  | _, _ => acc
  end.

(** [state] (0 = unvisited, 1 = on stack, 2 = done), [dag] and [dagIndeg]. *)
Record Dfs := mkDfs { df_state : list nat; df_dag : list (list nat); df_dagIndeg : list nat }.

(** One turn of the [while] loop, on a stack that is not empty: its top frame first. *)
Definition dfs_step (out : list (list nat)) (node next : nat) (rest : list (nat * nat)) (d : Dfs) : list (nat * nat) * Dfs :=
  match (out !!! node) !! next with
  | None => (rest, mkDfs (<[node := 2%nat]> (df_state d)) (df_dag d) (df_dagIndeg d))
  | Some to =>
      let stack := (node, S next) :: rest in
      if Nat.eqb (df_state d !!! to) 1 then (stack, d)
      else
        let dag := <[node := df_dag d !!! node ++ [to]]> (df_dag d) in
        let dagIndeg := <[to := S (df_dagIndeg d !!! to)]> (df_dagIndeg d) in
        if Nat.eqb (df_state d !!! to) 0 then ((to, 0%nat) :: stack, mkDfs (<[to := 1%nat]> (df_state d)) dag dagIndeg)
        else (stack, mkDfs (df_state d) dag dagIndeg)
  end.

(** [None]: out of fuel. *)
Fixpoint dfs_loop (fuel : nat) (out : list (list nat)) (stack : list (nat * nat)) (d : Dfs) : option Dfs :=
  match stack with
  | [] => Some d
  | (node, next) :: rest =>
      match fuel with
      | O => None
      | S fuel => let (stack', d') := dfs_step out node next rest d in dfs_loop fuel out stack' d'
      end
  end.

(** Enough turns for one root: every node and every edge once. *)
Definition dfs_fuel (out : list (list nat)) : nat := length out + length (concat out).

Fixpoint dfs_roots (out : list (list nat)) (roots : list nat) (d : Dfs) : option Dfs :=
  match roots with
  | [] => Some d
  | root :: rest =>
      if negb (Nat.eqb (df_state d !!! root) 0) then dfs_roots out rest d
      else
        d' ← dfs_loop (dfs_fuel out) out [(root, 0%nat)] (mkDfs (<[root := 1%nat]> (df_state d)) (df_dag d) (df_dagIndeg d));
        dfs_roots out rest d'
  end.

(** The loop over the successors of one node of the queue: [layer], [dagIndeg], and what is
    pushed. *)
Fixpoint relax (cur : nat) (targets : list nat) (layer indeg : list nat) : list nat * list nat * list nat :=
  match targets with
  | [] => (layer, indeg, [])
  | next :: rest =>
      let layer := <[next := Nat.max (layer !!! next) (S (layer !!! cur))]> layer in
      let n := (indeg !!! next - 1)%nat in
      let '(layer', indeg', pushed) := relax cur rest layer (<[next := n]> indeg) in
      (layer', indeg', if Nat.eqb n 0 then next :: pushed else pushed)
  end.

(** The queue from its head on. *)
Fixpoint kahn (fuel : nat) (dag : list (list nat)) (queue layer indeg : list nat) : option (list nat) :=
  match queue with
  | [] => Some layer
  | cur :: rest =>
      match fuel with
      | O => None
      | S fuel =>
          let '(layer', indeg', pushed) := relax cur (dag !!! cur) layer indeg in
          kahn fuel dag (rest ++ pushed) layer' indeg'
      end
  end.

(** The nodes of an in-degree, in order. *)
Definition indices_where (p : nat -> bool) (indeg : list nat) : list nat :=
  List.filter (fun i => p (indeg !!! i)) (seq 0 (length indeg)).

(** The layer of every node. *)
Definition layers (out : list (list nat)) (indeg : list nat) : option (list nat) :=
  let count := length out in
  let roots := indices_where (Nat.eqb 0) indeg ++ indices_where (fun n => negb (Nat.eqb n 0)) indeg in
  d ← dfs_roots out roots (mkDfs (replicate count 0%nat) (replicate count []) (replicate count 0%nat));
  kahn count (df_dag d) (indices_where (Nat.eqb 0) (df_dagIndeg d)) (replicate count 0%nat) (df_dagIndeg d).

(** The last loop: [rowInLayer] and [positions]. *)
Fixpoint place (nodes : list TopologyGraphNode) (layer : list nat) (rowInLayer : list (nat * Z)) : list (string * Position) :=
  match nodes, layer with
  | node :: nodes, l :: layer =>
      match gn_position node with
      | Some p => (gn_id node, p) :: place nodes layer rowInLayer
      | None =>
          let row := default 0 (map_get l rowInLayer) in
          (gn_id node, mkPosition (Z.of_nat l * (GRAPH_NODE_WIDTH + GRAPH_GAP_X)) (row * (GRAPH_NODE_HEIGHT + GRAPH_GAP_Y)))
            :: place nodes layer (map_set l (row + 1) rowInLayer)
      end
  | _, _ => []
  end.

Definition graph_of (unique : list TopologyGraphNode) (index : list (string * nat)) (edges : list TopologyGraphEdge) : list (list nat) * list nat :=
  foldl (add_edge index) (replicate (length unique) [], replicate (length unique) 0%nat) edges.

Definition computeGraphLayout (nodes : list TopologyGraphNode) (edges : list TopologyGraphEdge) : option (list (string * Position)) :=
  match nodes with
  | [] => Some []
  | _ =>
      let (unique, index) := foldl add_unique ([], []) nodes in
      if forallb (fun n => match gn_position n with Some _ => true | None => false end) unique
      then Some (omap (fun n => pair (gn_id n) <$> gn_position n) unique)
      else
        let (out, indeg) := graph_of unique index edges in
        layer ← layers out indeg;
        Some (place unique layer [])
  end.

(** ** [navigation.ts] *)

Inductive NavigationKey := ArrowUp | ArrowDown | ArrowLeft | ArrowRight | Home | End_.

Record NavigablePoint := mkNavigable { np_id : string; np_x : jsnum; np_y : jsnum }.

(** [DIRECTIONS]; nothing for [Home] and [End]. *)
Definition DIRECTIONS (key : NavigationKey) : option Position :=
  match key with
  | ArrowUp => Some (mkPosition 0 (-1)) | ArrowDown => Some (mkPosition 0 1)
  | ArrowLeft => Some (mkPosition (-1) 0) | ArrowRight => Some (mkPosition 1 0)
  | Home | End_ => None
  end.

Definition PERPENDICULAR_WEIGHT : Z := 2.

(** The key a text names. *)
Definition isNavigationKey (key : string) : option NavigationKey :=
  map_get key [("ArrowUp", ArrowUp); ("ArrowDown", ArrowDown); ("ArrowLeft", ArrowLeft); ("ArrowRight", ArrowRight); ("Home", Home); ("End", End_)].

(** A point with finite coordinates. *)
Definition finite_point (p : NavigablePoint) : option (string * Position) :=
  match np_x p, np_y p with Fin x, Fin y => Some (np_id p, mkPosition x y) | _, _ => None end.

(** [a.y - b.y || a.x - b.x] *)
Definition reading_order (a b : string * Position) : Z :=
  let dy := py a.2 - py b.2 in if dy =? 0 then px a.2 - px b.2 else dy.

Definition centre (p : Position) : Position := mkPosition (px p + GRAPH_NODE_WIDTH / 2) (py p + GRAPH_NODE_HEIGHT / 2).

(** How far a point is in the direction, and its score; nothing when it is not in it. *)
Definition score_of (dir current p : Position) : option Z :=
  let dx := px (centre p) - px (centre current) in
  let dy := py (centre p) - py (centre current) in
  let along := dx * px dir + dy * py dir in
  if along <=? 0 then None else Some (along + PERPENDICULAR_WEIGHT * Z.abs (dx * py dir + dy * px dir)).

Fixpoint nearest (dir : Position) (current : string * Position) (points : list (string * Position)) (best : option (string * Z)) : option (string * Z) :=
  match points with
  | [] => best
  | p :: rest =>
      if String.eqb p.1 current.1 then nearest dir current rest best
      else
        match score_of dir current.2 p.2 with
        | None => nearest dir current rest best
        | Some score =>
            let better := match best with None => true | Some (_, s) => score <? s end in
            nearest dir current rest (if better then Some (p.1, score) else best)
        end
  end.

Definition findNextNodeId (points : list NavigablePoint) (currentId : string) (key : NavigationKey) : option string :=
  match omap finite_point points with
  | [] => None
  | points =>
      match DIRECTIONS key with
      | None =>
          let sorted := js_sort reading_order points in
          fst <$> (match key with Home => head sorted | _ => last sorted end)
      | Some dir =>
          current ← List.find (fun p : string * Position => String.eqb p.1 currentId) points;
          fst <$> nearest dir current points None
      end
  end.

Definition resolveActiveNodeId (ids : list string) (active selected : option string) : option string :=
  let known o := o ≫= fun i => if bool_decide (i ∈ ids) then Some i else None in
  match known active with
  | Some i => Some i
  | None => match known selected with Some i => Some i | None => head ids end
  end.
