(* ===== verification/Views.v ===== *)
(** * The views of the web console and how they hand over to each other:
      [web/src/App.tsx], [web/src/views], [components/graph], [components/DataTable.tsx]

    The shell keeps the tab and one target for the view it mounts; a view keeps state of
    its own until React unmounts it.  What a view shows is computed from that state and
    the lists of the API.  The graphs of pipelines and of the infrastructure, and what
    the graph component computes around the layout, are here too. *)
From S2P Require Import Prelude JsBase JsText JsJson JsLib AssetId Correlation Config Services Pipeline DataAssets.
From S2P Require Import Decision Kube Listings WebTable Console Translations I18n Graph.
From Stdlib Require Import Ascii.
From Stdlib Require String.
Open Scope Z_scope.

(** ** [PipelinesView.tsx]: the graph of correlation links *)

Definition entity_kind_name (k : CorrelationEntityKind) : string :=
  match k with
  | KafkaTopic => "kafka-topic" | FlinkJob => "flink-job" | IcebergTable => "iceberg-table"
  | TrinoCatalog => "trino-catalog" | AirflowDag => "airflow-dag"
  end.

Definition link_method_name (m : CorrelationMethod) : string :=
  match m with
  | DeclaredLabel => "declared-label" | NameConvention => "name-convention" | AmbiguousNameConvention => "ambiguous-name-convention"
  end.

Definition inferJobStatus (job : PipelineJob) : HealthStatus :=
  match lr_result <$> pj_lastRun job with
  | Some RunSucceeded | Some RunRunning => Healthy
  | Some RunFailed => Degraded
  | _ => Unknown
  end.

Definition is_job (referenceId : string) (j : PipelineJob) : bool := String.eqb (pj_id j) referenceId || String.eqb (pj_name j) referenceId.

Definition inferCorrelationNodeStatus (p : Pipeline) (referenceId : string) : HealthStatus * option string :=
  match List.find (is_job referenceId) (pl_jobs p) with
  | Some job => (inferJobStatus job, pj_lastRun job ≫= lr_failureReason)
  | None =>
      match List.find (fun s => String.eqb (pg_serviceId s) referenceId) (pl_stages p) with
      | Some stage => (pg_status stage, pg_detail stage)
      | None => (Unknown, None)
      end
  end.

(** What a page reads of the translations; [None]: no text. *)
Definition PageText := list string -> option string.

Section correlation_graph.
Context (text : PageText).

Definition end_key (e : CorrelationEntityKind * string) : string := entity_kind_name e.1 +:+ ":" +:+ e.2.

Definition correlation_node (p : Pipeline) (e : CorrelationEntityKind * string) : TopologyGraphNode :=
  let (status, detail) := inferCorrelationNodeStatus p e.2 in
  mkGraphNode (end_key e) (default (entity_kind_name e.1) (text ["pipelines"; "correlationKinds"; entity_kind_name e.1])) e.2
    (Some status) (Some (entity_kind_name e.1)) detail None None None.

(** [nodeMap]: its values, in the order they were set. *)
Definition add_end (p : Pipeline) (nodes : list TopologyGraphNode) (e : CorrelationEntityKind * string) : list TopologyGraphNode :=
  if existsb (fun n => String.eqb (gn_id n) (end_key e)) nodes then nodes else nodes ++ [correlation_node p e].

Definition correlation_edge (link : CorrelationLink) : TopologyGraphEdge :=
  mkGraphEdge (li_id link) (end_key (li_source link)) (end_key (li_target link))
    (Some (default (relation_name (li_relation link)) (text ["pipelines"; "correlationRelations"; relation_name (li_relation link)])))
    (negb (String.eqb (link_method_name (li_method link)) "declared-label"))
    (Some (li_confidence link)) (Some (link_method_name (li_method link))) (li_evidence link).

Definition link_ends (link : CorrelationLink) : list (CorrelationEntityKind * string) := [li_source link; li_target link].

Definition buildPipelineCorrelationGraph (p : Pipeline) : list TopologyGraphNode * list TopologyGraphEdge :=
  (foldl (add_end p) [] (flat_map link_ends (pl_correlationLinks p)), map correlation_edge (pl_correlationLinks p)).
End correlation_graph.

(** The selected pipeline; without a selection, the first one. *)
Definition pipelines_selected (selectedPipelineId : option string) (pipelines : list Pipeline) : option Pipeline :=
  match selectedPipelineId with
  | None => head pipelines
  | Some i => List.find (fun p => String.eqb (pl_id p) i) pipelines
  end.

(** ** [ArchitectureView.tsx], [InfraTopologyPanel.tsx] *)

Definition stageNodeId (pipelineId serviceId : string) : string := pipelineId +:+ "::" +:+ serviceId.

(** [data]: the stage itself. *)
Definition stage_json (s : PipelineStage) : json :=
  JObj [("stage", JObj [("serviceId", JStr (pg_serviceId s)); ("serviceType", JStr (service_type_name (pg_serviceType s)));
    ("status", JStr (status_name (pg_status s))); ("detail", match pg_detail s with Some d => JStr d | None => JNull end)])].

Definition stage_node (pipelineId : string) (index : nat) (s : PipelineStage) : TopologyGraphNode :=
  mkGraphNode (stageNodeId pipelineId (pg_serviceId s)) (service_type_name (pg_serviceType s)) (pg_serviceId s) (Some (pg_status s)) None
    (pg_detail s) (Some (mkPosition (Z.of_nat index * (GRAPH_NODE_WIDTH + GRAPH_GAP_X)) 0)) (Some (stage_json s)) None.

Definition stage_edge (pipelineId : string) (stage next : PipelineStage) : TopologyGraphEdge :=
  let source := stageNodeId pipelineId (pg_serviceId stage) in
  let target := stageNodeId pipelineId (pg_serviceId next) in
  mkGraphEdge (source +:+ "->" +:+ target) source target None false None None [].

Definition buildGraph (p : Pipeline) : list TopologyGraphNode * list TopologyGraphEdge :=
  (imap (stage_node (pl_id p)) (pl_stages p), zip_with (stage_edge (pl_id p)) (pl_stages p) (tail (pl_stages p))).

Definition architecture_selected (selectedPipelineId : option string) (pipelines : list Pipeline) : option Pipeline :=
  match List.find (fun p => bool_decide (Some (pl_id p) = selectedPipelineId)) pipelines with
  | Some p => Some p
  | None => head pipelines
  end.

(** A click on a node: the stage that is selected then. *)
Definition select_stage (p : Pipeline) (nodeId : option string) : option PipelineStage :=
  match nodeId with
  | None => None
  | Some i => if String.eqb i EmptyString then None else List.find (fun s => String.eqb (stageNodeId (pl_id p) (pg_serviceId s)) i) (pl_stages p)
  end.

(** Without [data], the resource itself, which the graph does not read. *)
Definition infra_graph_node (n : InfraNode) : TopologyGraphNode :=
  let r := in_resource n in
  mkGraphNode (in_id n) (resource_kind_name (kr_kind r)) (kr_name r) (Some (kr_status r)) (kr_namespace r) None
    (Some (mkPosition (in_column n * (GRAPH_NODE_WIDTH + GRAPH_GAP_X)) (in_row n * (GRAPH_NODE_HEIGHT + GRAPH_GAP_Y)))) None None.
Definition infra_graph_edge (e : InfraEdge) : TopologyGraphEdge := mkGraphEdge (ie_id e) (ie_source e) (ie_target e) None false None None [].
Definition infra_graph_of (resources : list Resource) : list TopologyGraphNode * list TopologyGraphEdge :=
  let topology := buildInfraTopology resources in (map infra_graph_node topology.1, map infra_graph_edge topology.2).

Definition select_resource (resources : list Resource) (nodeId : option string) : option Resource :=
  match nodeId with
  | None => None
  | Some i => if String.eqb i EmptyString then None else List.find (fun r => String.eqb (kr_id r) i) resources
  end.

(** ** [ServicesView.tsx], [OperationsView.tsx], [OverviewView.tsx]: what is shown of the lists *)

Section shown.
(** [toLowerCase()] and [localeCompare] of the language. *)
Context (toLowerCase : string -> string) (compare : string -> string -> Z).

Definition service_types (services : list Service) : list string :=
  "ALL" :: foldl (fun seen s => set_add (service_type_name (sv_type s)) seen) [] services.

Definition matches_search (searchTerm : string) (s : Service) : bool :=
  let search := toLowerCase searchTerm in
  includes search (toLowerCase (sv_name s)) || includes search (toLowerCase (sv_id s)) ||
  match am_endpoint (sv_metadata s) with Some e => includes search (toLowerCase e) | None => false end ||
  existsb (fun cap => includes search (toLowerCase cap)) (am_capabilities (sv_metadata s)).

Definition filteredServices (searchTerm selectedType : string) (services : list Service) : list Service :=
  List.filter (fun s => matches_search searchTerm s && (String.eqb selectedType "ALL" || String.eqb (service_type_name (sv_type s)) selectedType)) services.

Definition sortByTimestampDesc (events : list Event) : list Event := js_sort (fun a b => compare (ev_timestamp b) (ev_timestamp a)) events.

(** A focus that is empty is none. *)
Definition shown_events (eventFocusId : option string) (events : list Event) : list Event :=
  List.filter (fun e => match present eventFocusId with None => true | Some i => String.eqb (ev_id e) i end) (sortByTimestampDesc events).

Definition shown_resources (kindFilter : option ResourceKind) (resources : list Resource) : list Resource :=
  match kindFilter with None => resources | Some k => List.filter (fun r => bool_decide (kr_kind r = k)) resources end.
End shown.

Definition activeWorkloads (resources : list Resource) : nat :=
  length (List.filter (fun r => bool_decide (kr_kind r = RWorkload) && (bool_decide (kr_status r = Healthy) || bool_decide (kr_status r = Degraded))) resources).

(** [!= null]: neither [null] nor missing. *)
Definition given {A} (v : option (option A)) : bool := match v with Some (Some _) => true | _ => false end.
Definition reportedUsageResources (resources : list Resource) : nat := length (List.filter (fun r => given (kr_cpuUsage r) || given (kr_memoryUsage r)) resources).

Definition quickLinks (services : list Service) : list Service :=
  List.filter (fun s => match present (am_endpoint (sv_metadata s)) with Some _ => true | None => false end) services.

Definition overview_warnings (services pipelines events : option (list ListWarning)) : list ListWarning :=
  default [] services ++ default [] pipelines ++ default [] events.

(** [FixtureDataBadge.tsx] *)
Definition stubComponents (components : option (list (string * string))) : list string :=
  (List.filter (fun c => String.eqb c.2 "stub" || String.eqb c.2 "partial") (default [] components)).*1.

(** [decisionLabels.ts]: the key of the text in [t.operations]. *)
Definition decision_name (d : Decision) : string :=
  match d with
  | NORMAL => "NORMAL" | COMPUTE_BOUND => "COMPUTE_BOUND" | MEMORY_BOUND => "MEMORY_BOUND" | STORAGE_BOUND => "STORAGE_BOUND"
  | NETWORK_BOUND => "NETWORK_BOUND" | QUERY_PROBLEM => "QUERY_PROBLEM" | ESCALATE => "ESCALATE" | ABSTAIN => "ABSTAIN"
  end.
Definition getDecisionLabel (text : PageText) (d : DecisionRecord) : option string :=
  if dr_abstained (dd_result d) then text ["operations"; "abstained"]
  else text ["operations"; "decisionLabels"; decision_name (dr_decision (dd_result d))].
Definition getAbstainLabel (text : PageText) (d : DecisionRecord) : option string :=
  match dr_abstainCode (dd_result d) with
  | Some code => if dr_abstained (dd_result d) then text ["operations"; "abstainCodes"; code_name code] else None
  | None => None
  end.

(** [clipboard.ts] and [handleCopy] of [PolicyView.tsx]: what the clipboard does with a text. *)
Inductive ClipboardAnswer := ClipboardMissing | ClipboardRefused | ClipboardWritten.

Definition copyToClipboard (a : ClipboardAnswer) : bool := match a with ClipboardWritten => true | _ => false end.

(** The key shown as copied; [None]: the handler throws. *)
Definition policy_handleCopy (key : string) (a : ClipboardAnswer) : option string := match a with ClipboardMissing => None | _ => Some key end.

(** ** [QueryWorkspaceView.tsx], [DataCatalogView.tsx]: the asset that is shown *)

Definition table_assets (assets : list DataAsset) : list DataAsset := List.filter (fun a => bool_decide (da_kind a = KTable)) assets.

Definition query_active_asset (assets : list DataAsset) (selectedAssetId : option string) : option string :=
  let tables := table_assets assets in
  match selectedAssetId with
  | Some i => if existsb (fun a => String.eqb (da_id a) i) tables then Some i else da_id <$> head tables
  | None => da_id <$> head tables
  end.

Definition has_parent (a : DataAsset) : bool := match present (default None (da_parentId a)) with Some _ => true | None => false end.

Definition catalog_active_asset (rootsLoading : bool) (roots all : list DataAsset) (selectedAssetId : option string) : option string :=
  let tables := table_assets all in
  let orphans := List.filter (fun a => negb (has_parent a)) tables in
  match selectedAssetId with
  | Some i => Some i
  | None => if rootsLoading then None else da_id <$> head (match roots with [] => tables | _ => orphans end)
  end.

(** What opening a table in the query view hands over. *)
Definition handleOpenInQuerySelection (asset : DataAssetDetail) : string := da_id (dd_asset asset).
Definition mapCatalogQueryTargetToWorkspaceProps (target : option string) : option string := target.

(** [isHistory503]: the status of the error, and its text. *)
Definition isHistory503 (error : option (option Z * string)) : bool :=
  match error with
  | Some (status, shown) => bool_decide (status = Some 503) || includes "503" shown
  | None => false
  end.

(** ** [App.tsx]: the shell *)

Definition nav_ids : list string :=
  ["overview"; "services"; "pipelines"; "architecture"; "operations"; "catalog"; "query"; "policy"; "sso"].

Definition tab_name (t : NavTab) : string :=
  match t with TabServices => "services" | TabPipelines => "pipelines" | TabOperations => "operations" end.

Inductive OpsSection := SecEvents | SecResources | SecDecisions.

(** The state a mounted view keeps for itself. *)
Inductive ViewState :=
  | VServices (searchTerm selectedType : string)
  | VPipelines (selectedPipelineId : option string)
  | VArchitecture (infrastructure : bool) (selectedPipelineId : option string) (selectedStage : option PipelineStage)
  | VOperations (section : OpsSection) (kindFilter : option ResourceKind) (eventFocusId : option string)
  | VCatalog (selectedAssetId : option string)
  | VQuery (selectedAssetId : option string) (historyPage : Z)
  | VOther.

Record Shell := mkShell {
  sh_tab : string; sh_eventTarget : option EventNavigationTarget; sh_queryTarget : option string; sh_dark : bool; sh_view : ViewState;
}.

(** The [key] of the element of a tab. *)
Definition view_key (tab : string) (eventTarget : option EventNavigationTarget) (queryTarget : option string) : string :=
  if bool_decide (tab ∈ ["services"; "pipelines"; "operations"]) then default EmptyString (nt_id <$> eventTarget)
  else if String.eqb tab "query" then default "preset" queryTarget
  else EmptyString.

(** The properties that depend on the target. *)
Definition initialServiceId (t : option EventNavigationTarget) : option string :=
  match t with Some t => match nt_tab t with TabServices => Some (nt_id t) | _ => None end | None => None end.
Definition initialPipelineId (t : option EventNavigationTarget) : option string :=
  match t with Some t => match nt_tab t with TabPipelines => Some (nt_id t) | _ => None end | None => None end.
Definition initialResourceId (t : option EventNavigationTarget) : option string :=
  match t with Some t => if nt_resource t then Some (nt_id t) else None | None => None end.
Definition initialEventId (t : option EventNavigationTarget) : option string :=
  match t with Some t => if nt_event t then Some (nt_id t) else None | None => None end.

(** The effect of [OperationsView] on its properties; an empty text does nothing. *)
Definition operations_effect (t : option EventNavigationTarget) (v : ViewState) : ViewState :=
  match v with
  | VOperations section kind focus =>
      let section := match present (initialResourceId t) with Some _ => SecResources | None => section end in
      match present (initialEventId t) with
      | Some i => VOperations SecEvents kind (Some i)
      | None => VOperations section kind focus
      end
  | _ => v
  end.

(** A view that is mounted. *)
Definition initial_view (tab : string) (eventTarget : option EventNavigationTarget) (queryTarget : option string) : ViewState :=
  if String.eqb tab "services" then VServices (default EmptyString (initialServiceId eventTarget)) "ALL"
  else if String.eqb tab "pipelines" then VPipelines (initialPipelineId eventTarget)
  else if String.eqb tab "architecture" then VArchitecture false None None
  else if String.eqb tab "operations" then
    operations_effect eventTarget
      (VOperations (match present (initialResourceId eventTarget) with Some _ => SecResources | None => SecEvents end) None (initialEventId eventTarget))
  else if String.eqb tab "catalog" then VCatalog None
  else if String.eqb tab "query" then VQuery (mapCatalogQueryTargetToWorkspaceProps queryTarget) 1
  else VOther.

(** React renders the shell again: the element of the same tab with the same key stays
    mounted, and its effect runs when its properties changed; any other is mounted. *)
Definition render_view (s : Shell) (tab : string) (eventTarget : option EventNavigationTarget) (queryTarget : option string) : ViewState :=
  if String.eqb tab (sh_tab s) && String.eqb (view_key tab eventTarget queryTarget) (view_key (sh_tab s) (sh_eventTarget s) (sh_queryTarget s)) then
    if bool_decide (initialResourceId eventTarget = initialResourceId (sh_eventTarget s)) && bool_decide (initialEventId eventTarget = initialEventId (sh_eventTarget s))
    then sh_view s else operations_effect eventTarget (sh_view s)
  else initial_view tab eventTarget queryTarget.

Definition set_shell (tab : string) (eventTarget : option EventNavigationTarget) (queryTarget : option string) (s : Shell) : Shell :=
  mkShell tab eventTarget queryTarget (sh_dark s) (render_view s tab eventTarget queryTarget).

Definition navigateToTab (tab : string) (s : Shell) : Shell := set_shell tab None None s.
Definition navigateToCatalogQuery (assetId : string) (s : Shell) : Shell := set_shell "query" (sh_eventTarget s) (Some assetId) s.
Definition navigateToEventTarget (target : EventNavigationTarget) (s : Shell) : Shell :=
  set_shell (tab_name (nt_tab target)) (Some target) (sh_queryTarget s) s.
Definition toggleTheme (s : Shell) : Shell := mkShell (sh_tab s) (sh_eventTarget s) (sh_queryTarget s) (negb (sh_dark s)) (sh_view s).

Definition new_shell (storedTheme : option string) : Shell :=
  mkShell "overview" None None (bool_decide (storedTheme = Some "dark")) (initial_view "overview" None None).

(** What a user does in a view; a view takes what is its own. *)
Inductive ViewEvent :=
  | TypeSearch (searchTerm : string) | SelectType (type : string)
  | SelectPipeline (i : string) | ShowInfrastructure (b : bool) | SelectStage (stage : option PipelineStage)
  | ShowSection (section : OpsSection) | FilterKind (kind : option ResourceKind)
  | SelectAsset (i : string) | ShowHistoryPage (page : Z).

Definition view_step (e : ViewEvent) (v : ViewState) : ViewState :=
  match e, v with
  | TypeSearch s, VServices _ type => VServices s type
  | SelectType type, VServices s _ => VServices s type
  | SelectPipeline i, VPipelines _ => VPipelines (Some i)
  | SelectPipeline i, VArchitecture infra _ _ => VArchitecture infra (Some i) None
  | ShowInfrastructure b, VArchitecture _ p stage => VArchitecture b p stage
  | SelectStage stage, VArchitecture infra p _ => VArchitecture infra p stage
  | ShowSection SecEvents, VOperations _ kind _ => VOperations SecEvents kind None
  | ShowSection section, VOperations _ kind focus => VOperations section kind focus
  | FilterKind kind, VOperations section _ focus => VOperations section kind focus
  | SelectAsset i, VCatalog _ => VCatalog (Some i)
  | SelectAsset i, VQuery _ page => VQuery (Some i) page
  | ShowHistoryPage page, VQuery a _ => VQuery a page
  | _, _ => v
  end.

Inductive ShellEvent :=
  | ClickTab (tab : string) | ClickTarget (target : EventNavigationTarget) | ClickOpenInQuery (asset : DataAssetDetail)
  | ClickTheme | InView (e : ViewEvent).

Definition shell_step (s : Shell) (e : ShellEvent) : Shell :=
  match e with
  | ClickTab tab => navigateToTab tab s
  | ClickTarget target => navigateToEventTarget target s
  | ClickOpenInQuery asset => navigateToCatalogQuery (handleOpenInQuerySelection asset) s
  | ClickTheme => toggleTheme s
  | InView e => mkShell (sh_tab s) (sh_eventTarget s) (sh_queryTarget s) (sh_dark s) (view_step e (sh_view s))
  end.

(** A target a link of a view can have. *)
Definition link_target (t : EventNavigationTarget) : bool :=
  negb (String.eqb (nt_id t) EmptyString) &&
  match nt_tab t with
  | TabOperations => xorb (nt_resource t) (nt_event t)
  | _ => negb (nt_resource t) && negb (nt_event t)
  end.

(** What is there to click. *)
Definition offered (s : Shell) (e : ShellEvent) : Prop :=
  match e with
  | ClickTab tab => tab ∈ nav_ids
  | ClickTarget target => sh_tab s ∈ ["overview"; "architecture"; "operations"] /\ link_target target = true
  | ClickOpenInQuery _ => sh_tab s = "catalog"
  | ClickTheme | InView _ => True
  end.

Inductive shell_run (storedTheme : option string) : Shell -> Prop :=
  | shell_new : shell_run storedTheme (new_shell storedTheme)
  | shell_next s e : shell_run storedTheme s -> offered s e -> shell_run storedTheme (shell_step s e).

(** ** The graph component: [TopologyGraph.tsx], [theme.ts] *)

Section graph_view.
Context (number_format : Locale -> list (string * string) -> Z -> string) (text : list string -> string).

(** Dashed edges move unless the user prefers reduced motion. *)
Definition shouldAnimateEdge (dashed prefersReducedMotion : bool) : bool := dashed && negb prefersReducedMotion.

Definition nodeDisplayName (n : TopologyGraphNode) : string := gn_title n +:+ ": " +:+ gn_subtitle n.

(** [nodeById]: the last node of a name. *)
Definition nodeById (nodes : list TopologyGraphNode) (i : string) : option TopologyGraphNode :=
  last (List.filter (fun n => String.eqb (gn_id n) i) nodes).

Definition graph_interpolate (path : list string) (params : list (string * string)) : string :=
  interpolate number_format (text path) (map (fun p => (p.1, inl p.2)) params) EnUS.

Definition end_name (nodes : list TopologyGraphNode) (i : string) : string :=
  match nodeById nodes i with Some n => nodeDisplayName n | None => i end.

Definition edgeAriaLabel (nodes : list TopologyGraphNode) (e : TopologyGraphEdge) : string :=
  let base := graph_interpolate ["graph"; "edgeLabel"] [("source", end_name nodes (ge_source e)); ("target", end_name nodes (ge_target e))] in
  match present (ge_label e) with Some label => base +:+ ", " +:+ label | None => base end.

Definition buildLiveSummary (nodes : list TopologyGraphNode) (edges : list TopologyGraphEdge) (selected : option TopologyGraphNode) : string :=
  let summary := graph_interpolate ["graph"; "summary"] [("nodes", pretty (Z.of_nat (length nodes))); ("edges", pretty (Z.of_nat (length edges)))] in
  match selected with
  | None => summary
  | Some n =>
      let status := match gn_status n with
                    | Some h => ", " +:+ text ["common"; "status"] +:+ ": " +:+ text ["status"; status_name h]
                    | None => EmptyString
                    end in
      summary +:+ ". " +:+ text ["graph"; "selectedNode"] +:+ ": " +:+ nodeDisplayName n +:+ status
  end.

(** The notice that says what was dropped. *)
Definition issuesNotice (g : SanitizedGraph) : option string :=
  if hasGraphDataIssues g then
    Some (graph_interpolate ["graph"; "dataIssuesNotice"]
      [("duplicates", pretty (Z.of_nat (length (sg_duplicateNodeIds g) + length (sg_duplicateEdgeIds g)))); ("dangling", pretty (sg_danglingEdgeCount g))])
  else None.
End graph_view.

(** [layoutPositions.get(id) ?? node.position ?? { x: 0, y: 0 }] *)
Definition drawn_at (positions : list (string * Position)) (n : TopologyGraphNode) : Position :=
  match map_get (gn_id n) positions with
  | Some p => p
  | None => default (mkPosition 0 0) (gn_position n)
  end.

Definition navigable (positions : list (string * Position)) (nodes : list TopologyGraphNode) : list NavigablePoint :=
  map (fun n => let p := drawn_at positions n in mkNavigable (gn_id n) (Fin (px p)) (Fin (py p))) nodes.

(** A key pressed on the node that has the focus, or elsewhere ([None]): the node that
    has it then, and whether the key does not scroll the page. *)
Definition handleGraphKeyDown (positions : list (string * Position)) (nodes : list TopologyGraphNode) (key : string) (modifier : bool)
    (focused active : option string) : option string * bool :=
  match isNavigationKey key, focused with
  | Some k, Some currentId =>
      if modifier then (active, false)
      else
        match findNextNodeId (navigable positions nodes) currentId k with
        | Some nextId => (Some nextId, true)
        | None => (active, true)
        end
  | _, _ => (active, false)
  end.

Definition tabStopId (nodes : list TopologyGraphNode) (activeId selectedNodeId : option string) : option string :=
  resolveActiveNodeId (map gn_id nodes) activeId selectedNodeId.

(** ** The table component: [DataTable.tsx] *)

(** [Math.max(1, Math.ceil(total / pageSize))] *)
Definition totalPages (total pageSize : Z) : Z := Z.max 1 ((total + pageSize - 1) / pageSize).

Inductive PagerClick := PreviousPage | NextPage.

(** A click on a button that is not disabled. *)
Definition pager_click (total pageSize : Z) (page : Z) (c : PagerClick) : Z :=
  match c with
  | PreviousPage => if page <=? 1 then page else page - 1
  | NextPage => if totalPages total pageSize <=? page then page else page + 1
  end.

(** The column menu: an event while it is open; [refocus]: the button gets the focus. *)
Definition disclosure_step (isOpen : bool) (e : DisclosureEvent) : bool * bool :=
  if isOpen then
    match disclosureAction e with CloseAndRefocus => (false, true) | Close => (false, false) | NoAction => (true, false) end
  else (false, false).
