(* ===== verification/GraphSearch.v ===== *)
(** * Searching a graph: the layers of the layout

    The depth-first search of [Graph] keeps an acyclic graph and drops only edges that
    close a cycle; the layers are the longest paths in it. *)

From S2P Require Import Prelude JsBase JsJson JsLib Services Graph.
From Stdlib Require Import Ascii.
From Stdlib Require String.
Open Scope nat_scope.

(** ** Arrays *)

Lemma lookup_total_update {A} `{Inhabited A} (l : list A) i j x :
  i < length l -> <[i := x]> l !!! j = if decide (i = j) then x else l !!! j.
Proof.
  intros Hi. case_decide as E; [subst; by apply list_lookup_total_insert_eq|by apply list_lookup_total_insert_ne].
Qed.

Lemma lookup_total_out {A} `{Inhabited A} (l : list A) i : length l <= i -> l !!! i = inhabitant.
Proof. intros Hi. rewrite list_lookup_total_alt. by rewrite lookup_ge_None_2. Qed.

Lemma lookup_total_replicate {A} `{Inhabited A} n (x : A) i : i < n -> replicate n x !!! i = x.
Proof. apply lookup_total_replicate_2. Qed.

Lemma array_table {A} `{Inhabited A} (l : list A) : l = (fun u => l !!! u) <$> seq 0 (length l).
Proof.
  apply list_eq_same_length with (length l); [by rewrite length_fmap, length_seq|done|]. intros i x y Hi Hx Hy.
  apply list_lookup_fmap_Some_1 in Hy as (j & -> & Hj). apply lookup_seq in Hj as [-> _]. by apply list_lookup_total_correct in Hx.
Qed.

Lemma concat_push {A} (l : list (list A)) i x : i < length l -> concat (<[i := l !!! i ++ [x]]> l) ≡ₚ x :: concat l.
Proof.
  revert i. induction l as [|y l IH]; intros [|i] Hi; cbn in *; [lia..| |].
  - change ((y :: l) !!! 0) with y. rewrite <-app_assoc. cbn. by rewrite <-Permutation_middle.
  - change ((y :: l) !!! S i) with (l !!! i). rewrite IH by lia. by rewrite Permutation_middle.
Qed.

(** ** The depth-first search *)

Section dfs.
Context (out : list (list nat)).
Context (targets_in : forall u v, v ∈ out !!! u -> v < length out).

Definition kept (d : Dfs) (u v : nat) : Prop := v ∈ df_dag d !!! u.

(** The nodes on the stack, the deepest first. *)
Definition opened (stack : list (nat * nat)) : list nat := reverse stack.*1.

(** Each node on the stack was reached from the one below it; the top first. *)
Fixpoint linked (d : Dfs) (l : list nat) : Prop :=
  match l with
  | [] => True
  | v :: l' => match l' with [] => True | u :: _ => kept d u v end /\ linked d l'
  end.

(** An edge that was looked at is kept, or closes a cycle. *)
Definition settled (d : Dfs) (u v : nat) : Prop := kept d u v \/ rtc (kept d) v u.

(** [closed]: the nodes that are done, the last one first. *)
Record dfs_inv (stack : list (nat * nat)) (closed : list nat) (d : Dfs) : Prop := {
  di_state : length (df_state d) = length out;
  di_dag : length (df_dag d) = length out;
  di_indeg : length (df_dagIndeg d) = length out;
  di_nodup : NoDup (opened stack ++ closed);
  di_open : forall u, u < length out -> df_state d !!! u = 1 <-> u ∈ stack.*1;
  di_closed : forall u, u < length out -> df_state d !!! u = 2 <-> u ∈ closed;
  di_cases : forall u, df_state d !!! u <= 2;
  di_in : forall u, u ∈ stack.*1 \/ u ∈ closed -> u < length out;
  di_edge : forall u v, kept d u v -> v ∈ out !!! u;
  di_order : forall u v, kept d u v -> [u; v] `sublist_of` opened stack ++ closed;
  di_linked : linked d stack.*1;
  di_done : forall u v, u ∈ closed -> v ∈ out !!! u -> settled d u v;
  di_seen : forall u k i v, (u, k) ∈ stack -> i < k -> (out !!! u) !! i = Some v -> settled d u v;
  di_count : forall v, df_dagIndeg d !!! v = count_occ Nat.eq_dec (concat (df_dag d)) v;
}.

Lemma linked_reach d l v : linked d l -> v ∈ l -> forall top, head l = Some top -> rtc (kept d) v top.
Proof.
  induction l as [|a l IH]; cbn; [by intros _ ?%not_elem_of_nil|]. intros [Ha Hl] [->|Hv]%elem_of_cons top [= <-]; [done|].
  destruct l as [|b l]; [by apply not_elem_of_nil in Hv|]. eapply rtc_r; [by apply (IH Hl Hv)|exact Ha].
Qed.

(** Keeping one more edge. *)
Lemma settled_mono d d' u v : (forall a b, kept d a b -> kept d' a b) -> settled d u v -> settled d' u v.
Proof.
  intros Hm [Hk|Hr]; [left; by apply Hm|right]. by eapply (rtc_congruence (fun x => x)).
Qed.

Lemma linked_mono d d' l : (forall a b, kept d a b -> kept d' a b) -> linked d l -> linked d' l.
Proof. intros Hm. induction l as [|v l IH]; cbn; [done|]. intros [Hv Hl]. split; [destruct l; auto|auto]. Qed.

(** The top frame has no more targets: the node is done. *)
Lemma dfs_pop node k rest closed d :
  dfs_inv ((node, k) :: rest) closed d -> (out !!! node) !! k = None ->
  dfs_inv rest (node :: closed) (mkDfs (<[node := 2]> (df_state d)) (df_dag d) (df_dagIndeg d)).
Proof.
  intros I Hk. assert (node < length out) as Hn by (apply (di_in _ _ _ I); left; left).
  assert (opened rest ++ node :: closed = opened ((node, k) :: rest) ++ closed) as EL by (unfold opened; by rewrite fmap_cons, reverse_cons, <-app_assoc).
  assert (node ∉ rest.*1) as Hrest.
  { pose proof (di_nodup _ _ _ I) as ND. rewrite <-EL in ND. apply NoDup_app in ND as (_ & ND & _). intros Hin.
    apply (ND node); [by apply elem_of_reverse|left]. }
  assert (node ∉ closed) as Hclosed.
  { pose proof (di_nodup _ _ _ I) as ND. rewrite <-EL in ND. apply NoDup_app in ND as (_ & _ & ND). by apply NoDup_cons in ND as [? _]. }
  pose proof (di_state _ _ _ I) as Ls. destruct I as [_ Ld Li ND Ho Hc H2 Hin He Hor Hl Hd Hs Hcnt]. cbn [fmap list_fmap] in *.
  constructor; cbn [df_state df_dag df_dagIndeg]; try done.
  - by rewrite length_insert.
  - by rewrite EL.
  - intros u Hu. rewrite lookup_total_update by lia. case_decide as E; [subst; split; [done|by intros ?]|].
    rewrite Ho by done. rewrite elem_of_cons. naive_solver.
  - intros u Hu. rewrite lookup_total_update by lia. rewrite elem_of_cons. case_decide as E; [subst; tauto|]. rewrite Hc by done. naive_solver.
  - intros u. rewrite lookup_total_update by lia. case_decide; [lia|apply H2].
  - intros u. rewrite elem_of_cons. intros [?|[->|?]]; [apply Hin; left; by right|done|apply Hin; by right].
  - by rewrite EL.
  - apply (linked_mono d); [done|exact (proj2 Hl)].
  - intros u v [->|Hu]%elem_of_cons Hv; [|by apply Hd]. apply list_elem_of_lookup_1 in Hv as [i Hi]. eapply (Hs node k i v); [left| |done].
    apply lookup_lt_Some in Hi as Hi'. apply lookup_ge_None in Hk. lia.
  - intros u k' i v Hu. apply Hs. by right.
Qed.

(** The next frame of the top node. *)
Lemma seen_next node k rest d to :
  (forall u k' i v, (u, k') ∈ (node, k) :: rest -> i < k' -> (out !!! u) !! i = Some v -> settled d u v) ->
  (out !!! node) !! k = Some to -> settled d node to ->
  forall u k' i v, (u, k') ∈ (node, S k) :: rest -> i < k' -> (out !!! u) !! i = Some v -> settled d u v.
Proof.
  intros Hs Hk Hto u k' i v [[= -> ->]|Hu]%elem_of_cons Hi Hv; [|by eapply Hs; [right|..]].
  destruct (decide (i = k)) as [->|]; [rewrite Hk in Hv; by injection Hv as ->|]. eapply (Hs node k i); [left|lia|done].
Qed.

(** A target on the stack: the edge closes a cycle and is dropped. *)
Lemma dfs_back node k rest closed d to :
  dfs_inv ((node, k) :: rest) closed d -> (out !!! node) !! k = Some to -> df_state d !!! to = 1 ->
  dfs_inv ((node, S k) :: rest) closed d.
Proof.
  intros I Hk Hto. assert (to < length out) as Ht by (eapply targets_in, list_elem_of_lookup_2, Hk).
  pose proof (proj1 (di_open _ _ _ I to Ht) Hto) as Hin. destruct I as [Ls Ld Li ND Ho Hc H2 Hi He Hor Hl Hd Hs Hcnt].
  constructor; try done. eapply seen_next; [exact Hs|exact Hk|]. right. by eapply linked_reach.
Qed.

(** Keeping the edge to a target. *)
Definition keep_edge (node to : nat) (st : list nat) (d : Dfs) : Dfs :=
  mkDfs st (<[node := df_dag d !!! node ++ [to]]> (df_dag d)) (<[to := S (df_dagIndeg d !!! to)]> (df_dagIndeg d)).

Lemma kept_edge node to st d u v :
  node < length (df_dag d) -> kept (keep_edge node to st d) u v <-> kept d u v \/ u = node /\ v = to.
Proof.
  intros Hn. unfold kept, keep_edge. cbn. rewrite lookup_total_update by done. case_decide as E; [subst|naive_solver].
  rewrite elem_of_app, list_elem_of_singleton. naive_solver.
Qed.

Lemma count_edge node to st d v :
  node < length (df_dag d) -> to < length (df_dagIndeg d) ->
  (forall v, df_dagIndeg d !!! v = count_occ Nat.eq_dec (concat (df_dag d)) v) ->
  df_dagIndeg (keep_edge node to st d) !!! v = count_occ Nat.eq_dec (concat (df_dag (keep_edge node to st d))) v.
Proof.
  intros Hn Ht Hc. unfold keep_edge. cbn. rewrite lookup_total_update by done.
  rewrite (proj1 (Permutation_count_occ Nat.eq_dec _ _) (concat_push _ _ to Hn)). cbn. rewrite <-!Hc.
  destruct (Nat.eq_dec to v); case_decide; subst; congruence.
Qed.

(** A target that is done. *)
Lemma dfs_cross node k rest closed d to :
  dfs_inv ((node, k) :: rest) closed d -> (out !!! node) !! k = Some to -> df_state d !!! to = 2 ->
  dfs_inv ((node, S k) :: rest) closed (keep_edge node to (df_state d) d).
Proof.
  intros I Hk Hto. assert (to < length out) as Ht by (eapply targets_in, list_elem_of_lookup_2, Hk).
  pose proof (proj1 (di_closed _ _ _ I to Ht) Hto) as Hin. destruct I as [Ls Ld Li ND Ho Hc H2 Hi He Hor Hl Hd Hs Hcnt].
  assert (node < length (df_dag d)) as Hn by (rewrite Ld; apply Hi; left; left).
  assert (forall a b, kept d a b -> kept (keep_edge node to (df_state d) d) a b) as Hm by (intros; apply kept_edge; auto).
  constructor; try done.
  - cbn. by rewrite length_insert.
  - cbn. by rewrite length_insert.
  - intros u v [Huv|[-> ->]]%kept_edge; [by apply He| |done]. by eapply list_elem_of_lookup_2.
  - intros u v [Huv|[-> ->]]%kept_edge; [by apply Hor| |done]. change [node; to] with ([node] ++ [to]). apply sublist_app.
    + apply singleton_sublist_l, elem_of_reverse. left.
    + by apply singleton_sublist_l.
  - by eapply linked_mono.
  - intros u v Hu Hv. eapply settled_mono; eauto.
  - eapply seen_next; [|exact Hk|left; apply kept_edge; auto]. intros u k' i v Hu Hlt Hv. eapply settled_mono; eauto.
  - intros v. apply count_edge; [done|lia|done].
Qed.

(** A target that was not visited goes onto the stack. *)
Lemma dfs_tree node k rest closed d to :
  dfs_inv ((node, k) :: rest) closed d -> (out !!! node) !! k = Some to -> df_state d !!! to = 0 ->
  dfs_inv ((to, 0) :: (node, S k) :: rest) closed (keep_edge node to (<[to := 1]> (df_state d)) d).
Proof.
  intros I Hk Hto. assert (to < length out) as Ht by (eapply targets_in, list_elem_of_lookup_2, Hk).
  assert (to ∉ ((node, k) :: rest).*1) as Nin by (rewrite <-(di_open _ _ _ I to Ht); lia).
  assert (to ∉ closed) as Nc by (rewrite <-(di_closed _ _ _ I to Ht); lia).
  destruct I as [Ls Ld Li ND Ho Hc H2 Hi He Hor Hl Hd Hs Hcnt].
  assert (node < length (df_dag d)) as Hn by (rewrite Ld; apply Hi; left; left).
  set (d' := keep_edge node to (<[to := 1]> (df_state d)) d).
  assert (forall a b, kept d a b -> kept d' a b) as Hm by (intros; apply kept_edge; auto).
  set (old := opened ((node, k) :: rest)) in *.
  assert (opened ((to, 0) :: (node, S k) :: rest) ++ closed = old ++ to :: closed) as EL.
  { unfold old, opened. rewrite !fmap_cons, !reverse_cons, <-!app_assoc. done. }
  assert (forall x, x ∈ old <-> x ∈ ((node, k) :: rest).*1) as Eold by (intros; apply elem_of_reverse).
  constructor; rewrite ?EL; try done.
  - cbn. by rewrite length_insert.
  - cbn. by rewrite length_insert.
  - cbn. by rewrite length_insert.
  - apply NoDup_app in ND as (N1 & N2 & N3). apply NoDup_app. split_and!; [done| |by constructor].
    intros x Hx [->|Hx']%elem_of_cons; [by apply Nin, Eold|by apply (N2 x)].
  - intros u Hu. cbn [df_state d' keep_edge]. rewrite lookup_total_update by lia. rewrite fmap_cons, elem_of_cons. cbn [fst].
    case_decide as E; [subst; naive_solver|]. rewrite Ho by done. cbn. naive_solver.
  - intros u Hu. cbn [df_state d' keep_edge]. rewrite lookup_total_update by lia. case_decide as E; [subst; naive_solver|by apply Hc].
  - intros u. cbn [df_state d' keep_edge]. rewrite lookup_total_update by lia. case_decide; [lia|apply H2].
  - intros u [[->|Hu]%elem_of_cons|Hu]; [done|apply Hi; by left|apply Hi; by right].
  - intros u v [Huv|[-> ->]]%kept_edge; [by apply He| |done]. by eapply list_elem_of_lookup_2.
  - intros u v [Huv|[-> ->]]%kept_edge; [| |done].
    + etransitivity; [by apply Hor|]. apply sublist_app; [done|by apply sublist_cons].
    + change [node; to] with ([node] ++ [to]). apply sublist_app; apply singleton_sublist_l; [apply Eold; left|left].
  - split; [apply kept_edge; auto|]. by eapply linked_mono.
  - intros u v Hu Hv. eapply settled_mono; eauto.
  - intros u k' i v [[= -> ->]|Hu]%elem_of_cons Hlt Hv; [lia|]. revert u k' i v Hu Hlt Hv.
    eapply seen_next; [|exact Hk|left; apply kept_edge; auto]. intros u k' i v Hu Hlt Hv. eapply settled_mono; eauto.
  - intros v. apply count_edge; [done|lia|done].
Qed.

(** *** Termination: a turn pops a frame, or passes one edge, for good *)

Definition frame_work (f : nat * nat) : nat := S (length (out !!! f.1) - f.2).
Definition node_work (d : Dfs) (u : nat) : nat := if Nat.eqb (df_state d !!! u) 0 then S (length (out !!! u)) else 0.
Definition dfs_work (stack : list (nat * nat)) (d : Dfs) : nat :=
  sum_list_with frame_work stack + sum_list_with (node_work d) (seq 0 (length out)).

Lemma work_visit u st0 d d' :
  u < length out -> df_state d !!! u = 0 -> df_state d' = <[u := S st0]> (df_state d) -> length (df_state d) = length out ->
  S (length (out !!! u)) + sum_list_with (node_work d') (seq 0 (length out)) = sum_list_with (node_work d) (seq 0 (length out)).
Proof.
  intros Hu H0 Ed Hl.
  assert (forall l, NoDup l -> sum_list_with (node_work d) l =
    sum_list_with (node_work d') l + (if decide (u ∈ l) then S (length (out !!! u)) else 0)) as Hsum.
  { induction 1 as [|x l Hx _ IH]; [done|]. cbn [sum_list_with]. rewrite IH. unfold node_work at 1 3. rewrite Ed.
    rewrite lookup_total_update by lia. destruct (decide (u = x)) as [<-|Hne].
    - rewrite H0. cbn [Nat.eqb]. rewrite !decide_False by done. rewrite decide_True by left. lia.
    - destruct (decide (u ∈ l)) as [Hin|Hin]; [rewrite decide_True by (by right); lia|].
      rewrite decide_False by (by rewrite elem_of_cons; intros [|]). lia. }
  rewrite (Hsum (seq 0 (length out))) by apply NoDup_seq. rewrite decide_True by (apply elem_of_seq; lia). lia.
Qed.

Lemma work_same d d' : (forall u, df_state d' !!! u = 0 <-> df_state d !!! u = 0) ->
  sum_list_with (node_work d') (seq 0 (length out)) = sum_list_with (node_work d) (seq 0 (length out)).
Proof.
  intros Hs. assert (forall u, node_work d' u = node_work d u) as Hw.
  { intros u. unfold node_work. destruct (Nat.eqb_spec (df_state d' !!! u) 0) as [E|E], (Nat.eqb_spec (df_state d !!! u) 0) as [F|F];
      try done; exfalso; naive_solver. }
  induction (seq 0 (length out)) as [|x l IH]; [done|]. cbn. by rewrite Hw, IH.
Qed.

(** One turn keeps the invariant and does some of the work. *)
Lemma dfs_turn node k rest closed d :
  dfs_inv ((node, k) :: rest) closed d ->
  exists closed', dfs_inv (dfs_step out node k rest d).1 closed' (dfs_step out node k rest d).2 /\
    dfs_work (dfs_step out node k rest d).1 (dfs_step out node k rest d).2 < dfs_work ((node, k) :: rest) d /\
    forall u, u ∈ closed \/ u ∈ ((node, k) :: rest).*1 -> u ∈ closed' \/ u ∈ (dfs_step out node k rest d).1.*1.
Proof.
  intros I. assert (node < length out) as Hn by (apply (di_in _ _ _ I); left; left).
  assert (df_state d !!! node = 1) as H1 by (apply (di_open _ _ _ I node Hn); left).
  pose proof (di_state _ _ _ I) as Ls. unfold dfs_step, dfs_work. destruct ((out !!! node) !! k) as [to|] eqn:Hk.
  - assert (k < length (out !!! node)) as Hlt by by eapply lookup_lt_Some.
    assert (to < length out) as Ht by (eapply targets_in, list_elem_of_lookup_2, Hk).
    destruct (Nat.eqb_spec (df_state d !!! to) 1) as [E1|N1]; cbn [fst snd].
    + exists closed. split_and!; [by eapply dfs_back| |done]. cbn [sum_list_with]. unfold frame_work. cbn [fst snd]. lia.
    + fold (keep_edge node to (df_state d) d) (keep_edge node to (<[to := 1]> (df_state d)) d).
      destruct (Nat.eqb_spec (df_state d !!! to) 0) as [E0|N0]; cbn [fst snd]; exists closed.
      * split_and!; [by eapply dfs_tree| |].
        -- pose proof (work_visit to 0 d (keep_edge node to (<[to := 1]> (df_state d)) d) Ht E0 eq_refl Ls).
           cbn [sum_list_with]. unfold frame_work. cbn [fst snd]. lia.
        -- intros u. rewrite !fmap_cons, !elem_of_cons. naive_solver.
      * split_and!; [| |done].
        -- eapply dfs_cross; [done..|]. pose proof (di_cases _ _ _ I to). lia.
        -- rewrite (work_same d) by done. cbn [sum_list_with]. unfold frame_work. cbn [fst snd]. lia.
  - exists (node :: closed). cbn [fst snd]. split_and!; [by eapply dfs_pop| |].
    + rewrite (work_same d).
      * cbn [sum_list_with]. unfold frame_work at 2. lia.
      * intros u. cbn. rewrite lookup_total_update by lia. case_decide; subst; lia.
    + intros u. rewrite fmap_cons, !elem_of_cons. naive_solver.
Qed.

Lemma dfs_loop_done fuel stack closed d :
  dfs_inv stack closed d -> dfs_work stack d <= fuel ->
  exists d' closed', dfs_loop fuel out stack d = Some d' /\ dfs_inv [] closed' d' /\
    forall u, u ∈ closed \/ u ∈ stack.*1 -> u ∈ closed'.
Proof.
  revert stack closed d. induction fuel as [|fuel IH]; intros stack closed d I Hw; destruct stack as [|[node k] rest].
  1, 3: exists d, closed; split_and!; [done|done|intros u [?|?%not_elem_of_nil]; done].
  - unfold dfs_work in Hw. cbn [sum_list_with] in Hw. unfold frame_work at 1 in Hw. lia.
  - destruct (dfs_turn _ _ _ _ _ I) as (closed1 & I1 & Hw1 & Hu1). cbn [dfs_loop].
    destruct (dfs_step out node k rest d) as [stack1 d1]. cbn [fst snd] in *.
    destruct (IH stack1 closed1 d1 I1 ltac:(lia)) as (d2 & closed2 & E & I2 & Hu2). exists d2, closed2. split_and!; [done|done|].
    intros u Hu. by apply Hu2, Hu1.
Qed.

Lemma total_work d : sum_list_with (node_work d) (seq 0 (length out)) <= dfs_fuel out.
Proof.
  pose proof (array_table out) as E.
  assert (forall l, sum_list_with (node_work d) l <= length l + length (concat ((fun u => out !!! u) <$> l))) as Hsum.
  { induction l as [|u l IH]; [done|]. cbn. rewrite length_app. assert (node_work d u <= S (length (out !!! u))) by (unfold node_work; case_match; lia). lia. }
  unfold dfs_fuel. specialize (Hsum (seq 0 (length out))). rewrite <-E, length_seq in Hsum. done.
Qed.

(** *** All the roots *)

Lemma dfs_root root closed d :
  dfs_inv [] closed d -> root < length out -> df_state d !!! root = 0 ->
  dfs_inv [(root, 0)] closed (mkDfs (<[root := 1]> (df_state d)) (df_dag d) (df_dagIndeg d)).
Proof.
  intros I Hr H0. assert (root ∉ closed) as Nc by (rewrite <-(di_closed _ _ _ I root Hr); lia).
  destruct I as [Ls Ld Li ND Ho Hc H2 Hi He Hor Hl Hd Hs Hcnt]. change (opened [] ++ closed) with closed in *.
  constructor; try done; cbn [df_state]; change (opened [(root, 0)] ++ closed) with (root :: closed).
  - by rewrite length_insert.
  - by constructor.
  - intros u Hu. rewrite lookup_total_update by lia. rewrite fmap_cons, elem_of_cons. cbn [fst]. case_decide as E; [subst; naive_solver|].
    rewrite Ho by done. cbn. naive_solver.
  - intros u Hu. rewrite lookup_total_update by lia. case_decide as E; [subst; naive_solver|by apply Hc].
  - intros u. rewrite lookup_total_update by lia. case_decide; [lia|apply H2].
  - intros u [Hu%list_elem_of_singleton|Hu]; [by subst|apply Hi; by right].
  - intros u v Huv. apply sublist_cons. by apply Hor.
  - intros u k i v [= -> ->]%list_elem_of_singleton Hlt. lia.
Qed.

Lemma dfs_roots_done roots closed d :
  (forall r, r ∈ roots -> r < length out) -> dfs_inv [] closed d ->
  exists d' closed', dfs_roots out roots d = Some d' /\ dfs_inv [] closed' d' /\ forall u, u ∈ closed \/ u ∈ roots -> u ∈ closed'.
Proof.
  revert closed d. induction roots as [|r roots IH]; intros closed d Hr I; cbn [dfs_roots].
  { exists d, closed. split_and!; [done|done|intros u [?|?%not_elem_of_nil]; done]. }
  assert (r < length out) as Hrl by (apply Hr; left). destruct (Nat.eqb_spec (df_state d !!! r) 0) as [E0|N0]; cbn [negb].
  - pose proof (dfs_root _ _ _ I Hrl E0) as I0.
    destruct (dfs_loop_done (dfs_fuel out) _ _ _ I0) as (d1 & closed1 & E & I1 & Hu1).
    { pose proof (work_visit r 0 d (mkDfs (<[r := 1]> (df_state d)) (df_dag d) (df_dagIndeg d)) Hrl E0 eq_refl (di_state _ _ _ I)).
      unfold dfs_work. cbn [sum_list_with]. unfold frame_work. cbn [fst snd]. enough (sum_list_with (node_work d) (seq 0 (length out)) <= dfs_fuel out) by lia.
      apply total_work. }
    rewrite E. cbn [mbind option_bind]. destruct (IH closed1 d1) as (d2 & closed2 & E2 & I2 & Hu2); [intros; apply Hr; by right|done|].
    exists d2, closed2. split_and!; [done|done|]. intros u [Hu|[->|Hu]%elem_of_cons]; apply Hu2; [left; apply Hu1; by left|left; apply Hu1; right; left|by right].
  - destruct (IH closed d) as (d2 & closed2 & E2 & I2 & Hu2); [intros; apply Hr; by right|done|].
    exists d2, closed2. split_and!; [done|done|]. intros u [Hu|[->|Hu]%elem_of_cons]; apply Hu2; [by left|left|by right].
    apply (di_closed _ _ _ I _ Hrl). pose proof (di_cases _ _ _ I r). pose proof (di_open _ _ _ I _ Hrl) as Ho.
    destruct (df_state d !!! r) as [|[|[|]]]; [lia| |done|lia]. by apply proj1, not_elem_of_nil in Ho.
Qed.

Definition dfs_start : Dfs := mkDfs (replicate (length out) 0) (replicate (length out) []) (replicate (length out) 0).

Lemma replicate_nil {A} n u : replicate n (@nil A) !!! u = [].
Proof.
  destruct (decide (u < n)) as [Hu|Hu]; [by apply lookup_total_replicate|]. rewrite lookup_total_out; [done|]. rewrite length_replicate. lia.
Qed.

Lemma replicate_zero n u : replicate n 0 !!! u = 0.
Proof.
  destruct (decide (u < n)) as [Hu|Hu]; [by apply lookup_total_replicate|]. rewrite lookup_total_out; [done|]. rewrite length_replicate. lia.
Qed.

Lemma dfs_start_inv : dfs_inv [] [] dfs_start.
Proof.
  constructor; cbn [df_state df_dag df_dagIndeg dfs_start]; try by rewrite length_replicate.
  - constructor.
  - intros u _. rewrite replicate_zero. split; [done|by intros ?%not_elem_of_nil].
  - intros u _. rewrite replicate_zero. split; [done|by intros ?%not_elem_of_nil].
  - intros u. rewrite replicate_zero. lia.
  - intros u [?%not_elem_of_nil|?%not_elem_of_nil]; done.
  - intros u v. unfold kept. cbn. rewrite replicate_nil. by intros ?%not_elem_of_nil.
  - intros u v. unfold kept. cbn. rewrite replicate_nil. by intros ?%not_elem_of_nil.
  - done.
  - by intros u v ?%not_elem_of_nil.
  - by intros u k i v ?%not_elem_of_nil.
  - intros v. rewrite replicate_zero. clear. induction (length out) as [|n IH]; [done|exact IH].
Qed.

(** A list without repetitions ranks its elements. *)
Lemma sublist_rank (l : list nat) : NoDup l -> exists rank : nat -> nat, forall u v, [u; v] `sublist_of` l -> rank u < rank v.
Proof.
  induction 1 as [|x l Hx _ [rank IH]].
  - exists (fun _ => 0). intros u v Hs. by apply sublist_nil_r in Hs.
  - exists (fun w => if decide (w = x) then 0 else S (rank w)). intros u v [Hs|(l' & [= -> <-] & Hs)]%sublist_cons_r.
    + assert (u ∈ l /\ v ∈ l) as [Hu Hv] by (split; (eapply elem_of_sublist; [|exact Hs]); [left|right; left]).
      rewrite !decide_False by congruence. specialize (IH u v Hs). lia.
    + apply singleton_sublist_l in Hs. rewrite decide_True by done. rewrite decide_False by congruence. lia.
Qed.

(** The search ends, has looked at every edge, and keeps an acyclic graph. *)
Lemma dfs_complete roots :
  (forall u, u ∈ roots <-> u < length out) ->
  exists d, dfs_roots out roots dfs_start = Some d /\ length (df_dag d) = length out /\ length (df_dagIndeg d) = length out /\
    (forall v, df_dagIndeg d !!! v = count_occ Nat.eq_dec (concat (df_dag d)) v) /\
    (forall u v, kept d u v -> v ∈ out !!! u) /\ (forall u v, v ∈ out !!! u -> settled d u v) /\
    exists rank : nat -> nat, forall u v, kept d u v -> rank u < rank v.
Proof.
  intros Hr. destruct (dfs_roots_done roots [] dfs_start) as (d & closed & E & I & Hall); [by intros; apply Hr|apply dfs_start_inv|].
  exists d. destruct I as [Ls Ld Li ND Ho Hc H2 Hi He Hor Hl Hd Hs Hcnt]. change (opened [] ++ closed) with closed in *.
  split_and!; try done.
  - intros u v Hv. apply Hd; [|done]. apply Hall. right. apply Hr. destruct (decide (u < length out)) as [|Hu]; [done|].
    rewrite lookup_total_out in Hv by lia. by apply not_elem_of_nil in Hv.
  - destruct (sublist_rank closed ND) as [rank Hrank]. exists rank. intros u v Huv. by apply Hrank, Hor.
Qed.
End dfs.

(** ** The layers *)

Section kahn.
Context (dag : list (list nat)) (rank : nat -> nat).
Context (dag_in : forall u v, v ∈ dag !!! u -> v < length dag) (acyclic : forall u v, v ∈ dag !!! u -> rank u < rank v).

Definition occ (l : list nat) (v : nat) : nat := count_occ Nat.eq_dec l v.

Lemma occ_pos l v : v ∈ l <-> 0 < occ l v.
Proof. rewrite list_elem_of_In. split; [apply count_occ_In|apply count_occ_In]. Qed.

Lemma occ_zero l v : v ∉ l <-> occ l v = 0.
Proof. rewrite occ_pos. lia. Qed.

Lemma relax_spec cur targets layer indeg :
  cur ∉ targets -> length layer = length dag -> length indeg = length dag -> (forall v, v ∈ targets -> v < length dag) ->
  (forall v, occ targets v <= indeg !!! v) ->
  exists layer' indeg' pushed, relax cur targets layer indeg = (layer', indeg', pushed) /\
    length layer' = length dag /\ length indeg' = length dag /\
    (forall v, indeg' !!! v = indeg !!! v - occ targets v) /\
    (forall v, layer' !!! v = if decide (v ∈ targets) then Nat.max (layer !!! v) (S (layer !!! cur)) else layer !!! v) /\
    NoDup pushed /\ forall v, v ∈ pushed <-> v ∈ targets /\ indeg !!! v = occ targets v.
Proof.
  revert layer indeg. induction targets as [|t targets IH]; intros layer indeg Hc Ll Li Ht Ho; cbn [relax].
  { exists layer, indeg, []. split_and!; try done; [intros; cbn; lia|constructor|]. intros v. rewrite elem_of_nil. naive_solver. }
  assert (t < length dag) as Htl by (apply Ht; left).
  assert (cur <> t /\ cur ∉ targets) as [Hct Hc'] by (rewrite elem_of_cons in Hc; naive_solver).
  assert (forall v, occ (t :: targets) v = (if decide (t = v) then 1 else 0) + occ targets v) as Eo.
  { intros v. unfold occ. cbn. destruct (Nat.eq_dec t v), (decide (t = v)); done. }
  assert (forall v, <[t := indeg !!! t - 1]> indeg !!! v = if decide (t = v) then indeg !!! t - 1 else indeg !!! v) as Ei
    by (intros; apply lookup_total_update; lia).
  assert (forall v, <[t := Nat.max (layer !!! t) (S (layer !!! cur))]> layer !!! v =
    if decide (t = v) then Nat.max (layer !!! t) (S (layer !!! cur)) else layer !!! v) as El by (intros; apply lookup_total_update; lia).
  set (layer1 := <[t := _]> layer) in *. set (indeg1 := <[t := _]> indeg) in *.
  destruct (IH layer1 indeg1 Hc') as (layer2 & indeg2 & pushed & E & Ll2 & Li2 & Hi2 & Hl2 & ND & Hp).
  { unfold layer1. by rewrite length_insert. }
  { unfold indeg1. by rewrite length_insert. }
  { intros v Hv. apply Ht. by right. }
  { intros v. specialize (Ho v). rewrite Eo in Ho. rewrite Ei. case_decide; subst; lia. }
  rewrite E. do 3 eexists. split; [reflexivity|]. split_and!; try done.
  - intros v. rewrite Hi2, Ei, Eo. case_decide; subst; lia.
  - intros v. rewrite Hl2, !El, (decide_False (P:=t = cur)) by congruence.
    destruct (decide (v ∈ t :: targets)) as [Hin|Hn]; rewrite elem_of_cons in *; repeat case_decide; subst; try lia; naive_solver.
  - destruct (Nat.eqb_spec (indeg !!! t - 1) 0) as [E0|N0]; [|done]. constructor; [|done].
    rewrite Hp, Ei, decide_True by done. intros [Hin Hcnt]. apply occ_pos in Hin. lia.
  - intros v. assert (v ∈ pushed <-> v ∈ targets /\ indeg1 !!! v = occ targets v) as Hpv by apply Hp. rewrite Ei in Hpv.
    specialize (Ho v). rewrite Eo in Ho |- *. rewrite elem_of_cons. destruct (Nat.eqb_spec (indeg !!! t - 1) 0) as [E0|N0].
    + rewrite elem_of_cons, Hpv. case_decide as Etv; [subst v|naive_solver]. split; [|naive_solver]. intros _. split; [by left|].
      rewrite ?decide_True in * by done. lia.
    + rewrite Hpv. case_decide as Etv; [subst v|naive_solver]. split; [intros [? ?]; split; [by left|]|].
      * rewrite ?decide_True in * by done. lia.
      * rewrite ?decide_True in * by done. intros [_ Hcnt]. rewrite occ_pos. lia.
Qed.

(** [todo]: the nodes that have not left the queue. *)
Record kahn_inv (todo queue layer indeg : list nat) : Prop := {
  ki_layer : length layer = length dag;
  ki_indeg : length indeg = length dag;
  ki_todo : NoDup todo;
  ki_nodup : NoDup queue;
  ki_queue : forall v, v ∈ queue <-> v ∈ todo /\ indeg !!! v = 0;
  ki_count : forall v, indeg !!! v = occ (flat_map (fun u => dag !!! u) todo) v;
  ki_done : forall v, v ∉ todo -> indeg !!! v = 0;
  ki_edges : forall u v, v ∈ dag !!! u -> u ∉ todo -> layer !!! u < layer !!! v;
  ki_least : forall v, layer !!! v = 0 \/ (exists u, u ∉ todo /\ v ∈ dag !!! u /\ layer !!! v = S (layer !!! u));
}.

Lemma kahn_turn todo cur rest layer indeg :
  kahn_inv todo (cur :: rest) layer indeg ->
  exists layer' indeg' pushed todo', relax cur (dag !!! cur) layer indeg = (layer', indeg', pushed) /\
    kahn_inv todo' (rest ++ pushed) layer' indeg' /\ length todo = S (length todo').
Proof.
  intros [Ll Li NT NQ Hq Hcnt Hdone He Hmin]. apply NoDup_cons in NQ as [Ncur NQ].
  destruct (proj1 (Hq cur) ltac:(left)) as [Hcur H0].
  destruct (elem_of_Permutation todo cur) as [Hp _]. destruct (Hp Hcur) as [todo' ET].
  assert (NoDup (cur :: todo')) as NT' by by rewrite <-ET. apply NoDup_cons in NT' as [Nt NT'].
  assert (forall v, v ∈ todo <-> v = cur \/ v ∈ todo') as Htodo by (intros v; by rewrite ET, elem_of_cons).
  assert (forall v, indeg !!! v = occ (dag !!! cur) v + occ (flat_map (fun u => dag !!! u) todo') v) as Hsum.
  { intros v. rewrite Hcnt. unfold occ. rewrite <-count_occ_app. change ((dag !!! cur) ++ flat_map (fun u => dag !!! u) todo') with (flat_map (fun u => dag !!! u) (cur :: todo')).
    by apply Permutation_count_occ, Permutation_flat_map. }
  destruct (relax_spec cur (dag !!! cur) layer indeg) as (layer' & indeg' & pushed & E & Ll' & Li' & Hi' & Hl' & ND & Hpush); try done.
  { intros Hin. specialize (acyclic _ _ Hin). lia. }
  { intros v Hv. by eapply dag_in. }
  { intros v. rewrite Hsum. lia. }
  exists layer', indeg', pushed, todo'. split; [done|]. split; [|by rewrite ET].
  assert (forall u, u ∉ todo -> u ∉ todo') as Hsub by (intros u Hu Hin; apply Hu, Htodo; by right).
  assert (forall u, u ∉ todo' -> layer' !!! u = layer !!! u) as Hold.
  { intros u Hu. rewrite Hl'. destruct (decide (u ∈ dag !!! cur)) as [Hin|]; [|done]. exfalso.
    assert (indeg !!! u = 0) as Hz by (destruct (decide (u = cur)) as [->|]; [done|apply Hdone; naive_solver]).
    apply occ_pos in Hin. rewrite Hsum in Hz. lia. }
  constructor; try done.
  - apply NoDup_app. split_and!; [done| |done]. intros v Hv [Hin Ho]%Hpush. apply occ_pos in Hin.
    destruct (proj1 (Hq v) ltac:(by right)) as [_ Hz]. lia.
  - intros v. rewrite elem_of_app, Hpush. split.
    + intros [Hv|[Hin Ho]].
      * destruct (proj1 (Hq v) ltac:(by right)) as [Ht Hz]. rewrite Hi', Hz. split; [|done]. apply Htodo in Ht as [->|]; done.
      * rewrite Hi', Ho. split; [|lia]. apply occ_pos in Hin as Hpos. destruct (decide (v ∈ todo)) as [Ht|Ht].
        -- apply Htodo in Ht as [->|]; [|done]. lia.
        -- specialize (Hdone v Ht). lia.
    + intros [Ht Hz]. rewrite Hi' in Hz. destruct (decide (indeg !!! v = 0)) as [Ez|Ez].
      * left. assert (v ∈ cur :: rest) as [->|]%elem_of_cons by (apply Hq; split; [apply Htodo; by right|done]); done.
      * right. pose proof (Hsum v). split; [apply occ_pos; lia|lia].
  - intros v. rewrite Hi', Hsum. lia.
  - intros v Hv. rewrite Hi'. destruct (decide (v = cur)) as [->|]; [lia|]. rewrite Hdone; [done|naive_solver].
  - intros u v Huv Hu. rewrite (Hold u Hu). destruct (decide (u = cur)) as [->|Hne].
    + rewrite Hl', decide_True by done. lia.
    + assert (layer !!! u < layer !!! v) by (apply He; [done|naive_solver]). rewrite Hl'. case_decide; lia.
  - intros v. assert (layer' !!! v = layer !!! v \/ v ∈ dag !!! cur /\ layer' !!! v = S (layer !!! cur)) as [Ev|[Hin Ev]].
    { rewrite Hl'. case_decide; [|by left]. destruct (decide (S (layer !!! cur) <= layer !!! v)); [left|right; split; [done|]]; lia. }
    + destruct (Hmin v) as [Hz|(u & Hu & Huv & Hs)]; [left; lia|right]. exists u. rewrite (Hold u) by auto. split_and!; [auto|done|lia].
    + right. exists cur. rewrite (Hold cur Nt). done.
Qed.

Lemma kahn_end todo layer indeg : kahn_inv todo [] layer indeg -> forall v, v ∉ todo.
Proof.
  intros I. assert (forall m v, rank v <= m -> v ∉ todo) as Hm; [|intros v; by apply (Hm (rank v))].
  induction m as [|m IH]; intros v Hv Hin.
  all: assert (0 < indeg !!! v) as Hpos
    by (destruct (decide (indeg !!! v = 0)); [by destruct (not_elem_of_nil v (proj2 (ki_queue _ _ _ _ I v) (conj Hin e)))|lia]).
  all: rewrite (ki_count _ _ _ _ I) in Hpos; apply occ_pos, elem_of_flat_map in Hpos as (u & Hu & Huv); specialize (acyclic _ _ Huv).
  - lia.
  - apply (IH u); [lia|done].
Qed.

Lemma kahn_done fuel todo queue layer indeg :
  kahn_inv todo queue layer indeg -> length todo <= fuel ->
  exists layer', kahn fuel dag queue layer indeg = Some layer' /\ length layer' = length dag /\
    (forall u v, v ∈ dag !!! u -> layer' !!! u < layer' !!! v) /\
    forall v, layer' !!! v = 0 \/ exists u, v ∈ dag !!! u /\ layer' !!! v = S (layer' !!! u).
Proof.
  revert todo queue layer indeg. induction fuel as [|fuel IH]; intros todo queue layer indeg I Hf.
  all: destruct queue as [|cur rest].
  1, 3: exists layer; pose proof (kahn_end _ _ _ I) as Hnone; destruct I as [Ll Li NT NQ Hq Hcnt Hdone He Hmin].
  1, 2: split_and!; [done|done|intros u v Huv; by apply He|intros v; destruct (Hmin v) as [|(u & _ & ?)]; eauto].
  - destruct (proj1 (ki_queue _ _ _ _ I cur) ltac:(left)) as [Hin _]. destruct todo; [by apply not_elem_of_nil in Hin|cbn in Hf; lia].
  - destruct (kahn_turn _ _ _ _ _ I) as (layer1 & indeg1 & pushed & todo1 & E & I1 & Hlen). cbn [kahn]. rewrite E.
    eapply IH; [exact I1|lia].
Qed.
End kahn.

Lemma elem_of_indices (p : nat -> bool) l i : i ∈ indices_where p l <-> i < length l /\ p (l !!! i) = true.
Proof. unfold indices_where. rewrite elem_of_filterb, elem_of_seq. naive_solver lia. Qed.

Lemma NoDup_indices (p : nat -> bool) l : NoDup (indices_where p l).
Proof. unfold indices_where. apply NoDup_ListNoDup, List.NoDup_filter, NoDup_ListNoDup, NoDup_seq. Qed.

(** The layers of a graph: a set of edges is kept that has no cycles; every other edge
    closes one; and the layer of a node is the length of the longest path to it. *)
Definition layered {A} (edge kept : A -> A -> Prop) (layer : A -> nat) : Prop :=
  (forall u v, kept u v -> edge u v) /\ (forall u v, edge u v -> kept u v \/ rtc kept v u) /\
  (forall u v, kept u v -> layer u < layer v) /\ forall v, layer v = 0 \/ exists u, kept u v /\ layer v = S (layer u).

Lemma layers_spec (out : list (list nat)) (indeg : list nat) :
  (forall u v, v ∈ out !!! u -> v < length out) -> length indeg = length out ->
  exists layer kept, layers out indeg = Some layer /\ length layer = length out /\
    layered (fun u v => v ∈ out !!! u) kept (fun u => layer !!! u).
Proof.
  intros Hin Hl. unfold layers. destruct (dfs_complete out Hin
    (indices_where (Nat.eqb 0) indeg ++ indices_where (fun n => negb (Nat.eqb n 0)) indeg)) as (d & E & Ld & Li & Hcnt & Hsub & Hset & rank & Hrank).
  { intros u. rewrite elem_of_app, !elem_of_indices, Hl. destruct (indeg !!! u); naive_solver. }
  unfold dfs_start in E. rewrite E. cbn [mbind option_bind].
  destruct (kahn_done (df_dag d) rank) with (fuel := length out) (todo := seq 0 (length out)) (layer := replicate (length out) 0)
    (queue := indices_where (Nat.eqb 0) (df_dagIndeg d)) (indeg := df_dagIndeg d) as (layer & Ek & Ll & He & Hmin).
  - intros u v Hv. rewrite Ld. by eapply Hin, Hsub.
  - exact Hrank.
  - constructor.
    + by rewrite length_replicate.
    + congruence.
    + apply NoDup_seq.
    + apply NoDup_indices.
    + intros v. rewrite elem_of_indices, elem_of_seq, Li. destruct (df_dagIndeg d !!! v); naive_solver lia.
    + intros v. rewrite Hcnt. unfold occ. f_equal. rewrite flat_map_concat_map, <-Ld. f_equal. apply array_table.
    + intros v Hv. rewrite lookup_total_out; [done|]. rewrite elem_of_seq in Hv. lia.
    + intros u v Huv Hu. destruct Hu. apply elem_of_seq. split; [lia|]. destruct (decide (u < length out)); [lia|].
      rewrite lookup_total_out in Huv by lia. by apply not_elem_of_nil in Huv.
    + intros v. left. apply replicate_zero.
  - by rewrite length_seq.
  - exists layer, (kept d). split_and!; [done|congruence|]. split_and!; [exact Hsub|exact Hset|exact He|exact Hmin].
Qed.
