(* ===== verification/GraphProofs.v ===== *)
(** * The topology graph: cleaning, layout and keyboard

    The layers of [GraphSearch] by the names of the nodes; no two nodes overlap; what is
    drawn is a graph; arrow keys go where they point. *)

From S2P Require Import Prelude JsBase JsJson JsLib Services Graph GraphSearch.
From Stdlib Require Import Ascii.
From Stdlib Require String.
Open Scope nat_scope.

(** ** Nodes by their place in [unique] *)

Definition node_named (id : string) (n : TopologyGraphNode) : bool := String.eqb (gn_id n) id.

(** Two nodes of the graph, joined by an edge that is not a loop. *)
Definition linked_by (nodes : list TopologyGraphNode) (edges : list TopologyGraphEdge) (a b : string) : Prop :=
  a <> b /\ a ∈ gn_id <$> nodes /\ b ∈ gn_id <$> nodes /\ exists e, e ∈ edges /\ ge_source e = a /\ ge_target e = b.

Record indexed (nodes unique : list TopologyGraphNode) (index : list (string * nat)) : Prop := {
  ix_nodup : NoDup (gn_id <$> unique);
  ix_find : forall id, List.find (node_named id) unique = List.find (node_named id) nodes;
  ix_index : forall id i, map_get id index = Some i <-> (gn_id <$> unique) !! i = Some id;
}.

Lemma find_app {A} (p : A -> bool) l k : List.find p (l ++ k) = match List.find p l with Some x => Some x | None => List.find p k end.
Proof. induction l as [|x l IH]; [done|]. cbn. by destruct (p x). Qed.

Lemma find_named id nodes n : List.find (node_named id) nodes = Some n -> n ∈ nodes /\ gn_id n = id.
Proof. intros [Hin Hid]%find_some. rewrite list_elem_of_In. split; [done|]. by apply String.eqb_eq in Hid. Qed.

Lemma find_unnamed id nodes : List.find (node_named id) nodes = None <-> id ∉ gn_id <$> nodes.
Proof.
  split.
  - intros Hf (n & -> & Hn)%list_elem_of_fmap_1. rewrite list_elem_of_In in Hn. apply (find_none _ _ Hf) in Hn.
    unfold node_named in Hn. by rewrite String.eqb_refl in Hn.
  - intros Hn. destruct (List.find _ _) as [n|] eqn:E; [|done]. apply find_named in E as [Hin <-]. destruct Hn. by apply list_elem_of_fmap_2.
Qed.

Lemma indexed_add done unique index n :
  indexed done unique index -> indexed (done ++ [n]) (add_unique (unique, index) n).1 (add_unique (unique, index) n).2.
Proof.
  intros [ND Hf Hi]. unfold add_unique, map_has. destruct (map_get (gn_id n) index) as [i|] eqn:E; cbn [fst snd].
  - constructor; [done| |done]. intros id. rewrite find_app, <-Hf. destruct (List.find (node_named id) unique) eqn:F; [done|].
    cbn. unfold node_named. destruct (String.eqb_spec (gn_id n) id) as [<-|]; [|done]. apply find_unnamed in F. destruct F.
    apply Hi in E. by eapply list_elem_of_lookup_2.
  - assert (gn_id n ∉ gn_id <$> unique) as Hn.
    { intros (i & Hi')%list_elem_of_lookup_1. apply Hi in Hi'. congruence. }
    constructor.
    + rewrite fmap_app. apply NoDup_app. split_and!; [done| |apply NoDup_singleton]. by intros x Hx ->%list_elem_of_singleton.
    + intros id. by rewrite !find_app, Hf.
    + intros id i. rewrite map_get_set, fmap_app. case_decide as Eid.
      * subst id. split.
        -- intros [= <-]. rewrite lookup_app_r by by rewrite length_fmap. rewrite length_fmap, Nat.sub_diag. done.
        -- intros [Hl|[Hge Hl]]%lookup_app_Some; [by destruct Hn; eapply list_elem_of_lookup_2|].
           cbn in Hl. apply list_lookup_singleton_Some in Hl as [Hz _]. rewrite length_fmap in Hge, Hz. f_equal. lia.
      * rewrite Hi. split; [intros Hl; by apply lookup_app_l_Some|]. intros [Hl|[Hge Hl]]%lookup_app_Some; [done|].
        cbn in Hl. apply list_lookup_singleton_Some in Hl as [_ ?]. done.
Qed.

Lemma indexed_all nodes : indexed nodes (foldl add_unique ([], []) nodes).1 (foldl add_unique ([], []) nodes).2.
Proof.
  induction nodes as [|n nodes IH] using rev_ind.
  - constructor; cbn; [constructor|done|]. intros id i. by rewrite lookup_nil.
  - rewrite foldl_app. cbn [foldl]. destruct (foldl add_unique ([], []) nodes) as [unique index]. by apply indexed_add.
Qed.

(** *** The adjacency lists *)

Lemma graph_of_spec unique index edges :
  (forall id i, map_get id index = Some i -> i < length unique) ->
  let g := graph_of unique index edges in
  length g.1 = length unique /\ length g.2 = length unique /\
  forall u v, v ∈ g.1 !!! u <-> exists e, e ∈ edges /\ map_get (ge_source e) index = Some u /\ map_get (ge_target e) index = Some v /\ u <> v.
Proof.
  intros Hlt g. unfold g, graph_of. clear g. induction edges as [|e edges IH] using rev_ind.
  - cbn. rewrite !length_replicate. split_and!; [done|done|]. intros u v. rewrite replicate_nil. split; [by intros ?%not_elem_of_nil|].
    by intros (e & ?%not_elem_of_nil & _).
  - rewrite foldl_app. cbn [foldl]. destruct (foldl _ _ edges) as [out indeg]. cbn [fst snd] in IH |- *. destruct IH as (Lo & Li & Hg).
    assert (forall u v, (exists e', e' ∈ edges ++ [e] /\ map_get (ge_source e') index = Some u /\ map_get (ge_target e') index = Some v /\ u <> v) <->
      v ∈ out !!! u \/ map_get (ge_source e) index = Some u /\ map_get (ge_target e) index = Some v /\ u <> v) as Happ.
    { intros u v. rewrite Hg. split.
      - intros (e' & [He'| ->%list_elem_of_singleton]%elem_of_app & E1 & E2 & E3); [left; eauto 10|by right].
      - intros [(e' & He' & R)|R]; [exists e'|exists e]; (split; [apply elem_of_app; auto|exact R]). right. by apply list_elem_of_singleton. }
    unfold add_edge. destruct (map_get (ge_source e) index) as [s|] eqn:Es, (map_get (ge_target e) index) as [t|] eqn:Et; cbn [fst snd].
    2, 3, 4: split_and!; [done|done|]; intros u v; rewrite Happ; naive_solver.
    destruct (Nat.eqb_spec s t) as [<-|Hne]; cbn [fst snd].
    + split_and!; [done|done|]. intros u v. rewrite Happ. naive_solver.
    + rewrite !length_insert. split_and!; [done|done|]. intros u v. rewrite Happ, lookup_total_update by (rewrite Lo; eauto).
      case_decide as E; [subst u|naive_solver]. rewrite elem_of_app, list_elem_of_singleton. naive_solver.
Qed.

(** *** Rows *)

Definition cell (l : nat) (row : Z) : Position :=
  mkPosition (Z.of_nat l * (GRAPH_NODE_WIDTH + GRAPH_GAP_X)) (row * (GRAPH_NODE_HEIGHT + GRAPH_GAP_Y)).

Lemma place_ids nodes layer rows : length layer = length nodes -> (place nodes layer rows).*1 = gn_id <$> nodes.
Proof.
  revert layer rows. induction nodes as [|n nodes IH]; intros [|l layer] rows Hl; try done. cbn [place].
  destruct (gn_position n); cbn; f_equal; apply IH; by injection Hl.
Qed.

Lemma place_given nodes layer rows i n p :
  length layer = length nodes -> nodes !! i = Some n -> gn_position n = Some p -> place nodes layer rows !! i = Some (gn_id n, p).
Proof.
  revert layer rows i. induction nodes as [|m nodes IH]; intros [|l layer] rows [|i] Hl Hn Hp; try done; cbn in Hn; cbn [place].
  - injection Hn as ->. by rewrite Hp.
  - destruct (gn_position m); cbn; apply IH; try done; by injection Hl.
Qed.

Lemma place_cell nodes layer rows i n l :
  nodes !! i = Some n -> layer !! i = Some l -> gn_position n = None ->
  exists row, place nodes layer rows !! i = Some (gn_id n, cell l row) /\ (default 0 (map_get l rows) <= row)%Z.
Proof.
  revert layer rows i. induction nodes as [|m nodes IH]; intros [|l' layer] rows [|i] Hn Hl Hp; try done; cbn in Hn, Hl; cbn [place].
  - injection Hn as ->. injection Hl as ->. rewrite Hp. exists (default 0%Z (map_get l rows)). done.
  - destruct (gn_position m); cbn [lookup list_lookup]; [by apply IH|].
    destruct (IH layer (map_set l' (default 0%Z (map_get l' rows) + 1)%Z rows) i Hn Hl Hp) as (row & E & Hr). exists row. split; [done|].
    rewrite map_get_set in Hr. case_decide; subst; cbn in Hr; lia.
Qed.

Lemma place_order nodes layer rows i j n m l p q :
  i < j -> nodes !! i = Some n -> nodes !! j = Some m -> layer !! i = Some l -> layer !! j = Some l ->
  gn_position n = None -> gn_position m = None ->
  place nodes layer rows !! i = Some p -> place nodes layer rows !! j = Some q ->
  (py p.2 + (GRAPH_NODE_HEIGHT + GRAPH_GAP_Y) <= py q.2)%Z.
Proof.
  revert layer rows i j. induction nodes as [|m' nodes IH]; intros [|l' layer] rows [|i] [|j] Hij Hn Hm Hl1 Hl2 Hn0 Hm0; try done; try lia;
    cbn in Hn, Hm, Hl1, Hl2; cbn [place].
  - injection Hn as ->. injection Hl1 as ->. rewrite Hn0. cbn [lookup list_lookup]. intros [= <-] Hq.
    destruct (place_cell nodes layer (map_set l (default 0%Z (map_get l rows) + 1)%Z rows) j m l Hm Hl2 Hm0) as (row & E & Hr).
    assert (Some q = Some (gn_id m, cell l row)) as [= ->] by (etransitivity; [symmetry; exact Hq|exact E]).
    rewrite map_get_set, decide_True in Hr by done. change (default 0%Z (Some ?x)) with x in Hr. clear -Hr. revert Hr.
    generalize (default 0%Z (map_get l rows)). unfold cell, GRAPH_NODE_HEIGHT, GRAPH_GAP_Y. cbn. intros. lia.
  - assert (i < j) by lia. destruct (gn_position m'); cbn [lookup list_lookup]; by apply IH.
Qed.

(** ** The layout *)

Definition positioned (nodes : list TopologyGraphNode) : bool :=
  forallb (fun n => match gn_position n with Some _ => true | None => false end) nodes.

(** The result of the layout by the place of the nodes. *)
Lemma layout_runs nodes edges :
  exists unique index layer kept pos,
    indexed nodes unique index /\ computeGraphLayout nodes edges = Some pos /\ length layer = length unique /\
    pos.*1 = gn_id <$> unique /\
    layered (fun u v => exists e, e ∈ edges /\ map_get (ge_source e) index = Some u /\ map_get (ge_target e) index = Some v /\ u <> v)
      kept (fun u => layer !!! u) /\
    (forall i n p, unique !! i = Some n -> gn_position n = Some p -> pos !! i = Some (gn_id n, p)) /\
    (forall n, n ∈ unique -> gn_position n = None -> pos = place unique layer []).
Proof.
  pose proof (indexed_all nodes) as I. set (unique := (foldl add_unique ([], []) nodes).1) in I.
  set (index := (foldl add_unique ([], []) nodes).2) in I.
  assert (forall id i, map_get id index = Some i -> i < length unique) as Hlt.
  { intros id i Hi. apply (ix_index _ _ _ I), lookup_lt_Some in Hi. by rewrite length_fmap in Hi. }
  destruct (graph_of_spec unique index edges Hlt) as (Lo & Li & Hg).
  destruct (layers_spec (graph_of unique index edges).1 (graph_of unique index edges).2) as (layer & kept & El & Ll & Hlay).
  { intros u v (e & _ & _ & Hv & _)%Hg. rewrite Lo. by eapply Hlt. }
  { congruence. }
  rewrite Lo in Ll. exists unique, index, layer, kept.
  exists (if positioned unique then omap (fun n => pair (gn_id n) <$> gn_position n) unique else place unique layer []).
  assert (positioned unique = true -> (omap (fun n => pair (gn_id n) <$> gn_position n) unique).*1 = gn_id <$> unique /\
    forall i n p, unique !! i = Some n -> gn_position n = Some p ->
      omap (fun n => pair (gn_id n) <$> gn_position n) unique !! i = Some (gn_id n, p)) as Hpos.
  { clear. unfold positioned. induction unique as [|m l IH]; cbn [forallb]; [done|]. destruct (gn_position m) as [q|] eqn:E; [|done].
    intros [IH1 IH2]%IH. cbn. rewrite E. cbn. split; [by f_equal|]. intros [|i] n p Hn Hp; cbn in Hn |- *; [|by apply IH2].
    injection Hn as ->. congruence. }
  split; [done|]. split.
  { unfold computeGraphLayout. destruct nodes as [|n0 nodes']; [done|].
    rewrite (surjective_pairing (foldl add_unique ([], []) (n0 :: nodes'))). fold unique index. cbv beta iota. fold (positioned unique).
    destruct (positioned unique); [done|]. rewrite (surjective_pairing (graph_of unique index edges)). by rewrite El. }
  split; [done|]. split.
  { destruct (positioned unique) eqn:E; [by apply Hpos|by apply place_ids]. }
  split.
  { destruct Hlay as (H1 & H2 & H3 & H4). split_and!; [by intros u v ?%H1%Hg|by intros u v ?%Hg%H2|done|done]. }
  split.
  - intros i n p Hn Hp. destruct (positioned unique) eqn:E; [by apply Hpos|by apply place_given].
  - intros n Hn Hp. destruct (positioned unique) eqn:E; [|done]. unfold positioned in E. rewrite forallb_elem in E.
    specialize (E n Hn). by rewrite Hp in E.
Qed.

(** The node a name stands for: the first one; and whether it brings its own position. *)
Definition node_of (nodes : list TopologyGraphNode) (id : string) : option TopologyGraphNode := List.find (node_named id) nodes.

Lemma index_known nodes unique index a : indexed nodes unique index -> a ∈ gn_id <$> nodes <-> exists i, map_get a index = Some i.
Proof.
  intros I. split.
  - intros Ha. destruct (decide (a ∈ gn_id <$> unique)) as [(i & Hi)%list_elem_of_lookup_1|Hn]; [exists i; by apply (ix_index _ _ _ I)|].
    apply find_unnamed in Hn. rewrite (ix_find _ _ _ I) in Hn. by apply find_unnamed in Hn.
  - intros [i Hi%(ix_index _ _ _ I)%list_elem_of_lookup_2]. destruct (decide (a ∈ gn_id <$> nodes)) as [|Hn]; [done|].
    apply find_unnamed in Hn. rewrite <-(ix_find _ _ _ I) in Hn. by apply find_unnamed in Hn.
Qed.

Lemma index_inj nodes unique index a b i :
  indexed nodes unique index -> map_get a index = Some i -> map_get b index = Some i -> a = b.
Proof. intros I Ha%(ix_index _ _ _ I) Hb%(ix_index _ _ _ I). congruence. Qed.

(** Layers by place are layers by name. *)
Lemma layered_by_name nodes edges unique index kept (layer : nat -> nat) :
  indexed nodes unique index ->
  layered (fun u v => exists e, e ∈ edges /\ map_get (ge_source e) index = Some u /\ map_get (ge_target e) index = Some v /\ u <> v) kept layer ->
  layered (linked_by nodes edges) (fun a b => exists u v, map_get a index = Some u /\ map_get b index = Some v /\ kept u v)
    (fun a => match map_get a index with Some i => layer i | None => 0 end).
Proof.
  intros I (H1 & H2 & H3 & H4). pose proof (fun a b i => index_inj _ _ _ a b i I) as Inj.
  assert (forall x y, rtc kept x y -> forall a b, map_get a index = Some x -> map_get b index = Some y ->
    rtc (fun a b => exists u v, map_get a index = Some u /\ map_get b index = Some v /\ kept u v) a b) as Hrtc.
  { induction 1 as [x|x z y Hxz _ IH]; intros a b Ha Hb; [by rewrite (Inj a b x Ha Hb)|].
    destruct (H1 _ _ Hxz) as (e & _ & _ & Hz & _). eapply rtc_l; [by exists x, z|]. by apply IH. }
  split_and!.
  - intros a b (u & v & Ha & Hb & (e & He & Hs & Ht & Hne)%H1). split_and!.
    + intros ->. congruence.
    + apply (index_known _ _ _ _ I). eauto.
    + apply (index_known _ _ _ _ I). eauto.
    + exists e. eauto.
  - intros a b (Hab & [u Hu]%(index_known _ _ _ _ I) & [v Hv]%(index_known _ _ _ _ I) & e & He & Es & Et).
    destruct (H2 u v) as [Hk|Hr]; [exists e; subst; split_and!; [done..|]; intros ->; by apply Hab, (Inj _ _ v)|left; eauto|right; eauto].
  - intros a b (u & v & -> & -> & Hk). by apply H3.
  - intros b. destruct (map_get b index) as [v|] eqn:Hb; [|by left]. destruct (H4 v) as [Hz|(u & Hk & Hs)]; [by left|right].
    destruct (H1 _ _ Hk) as (e & _ & Hu & _). exists (ge_source e). rewrite Hu. split; [eauto|done].
Qed.

(** C33: The layout of a graph, whatever its nodes and edges: it always ends; every name gets
    one position, its own when its first node brings one; otherwise its column is its
    layer, where the layers are the longest paths over edges without cycles, and an edge
    that is not counted closes a cycle of counted ones. *)
Theorem layout_layers nodes edges :
  exists pos layer kept, computeGraphLayout nodes edges = Some pos /\ layered (linked_by nodes edges) kept layer /\
    forall id, match node_of nodes id with
               | None => map_get id pos = None
               | Some n =>
                   exists p, map_get id pos = Some p /\
                     match gn_position n with
                     | Some own => p = own
                     | None => px p = (Z.of_nat (layer id) * (GRAPH_NODE_WIDTH + GRAPH_GAP_X))%Z
                     end
               end.
Proof.
  destruct (layout_runs nodes edges) as (unique & index & layer & kept & pos & I & E & Ll & Hids & Hlay & Hown & Hcell).
  exists pos. eexists _, _. split; [exact E|]. split; [by eapply layered_by_name|]. intros id. unfold node_of.
  rewrite <-(ix_find _ _ _ I). destruct (List.find (node_named id) unique) as [n|] eqn:F.
  - apply find_named in F as [Hin <-]. apply list_elem_of_lookup_1 in Hin as [i Hi].
    assert (NoDup pos.*1) as ND by (rewrite Hids; apply (ix_nodup _ _ _ I)).
    assert (exists p, pos !! i = Some (gn_id n, p) /\ match gn_position n with Some own => p = own | None => exists l row, layer !! i = Some l /\ p = cell l row end) as (p & Hp & Hm).
    { destruct (gn_position n) as [own|] eqn:Hn; [exists own; by eauto|]. assert (i < length layer) as [l Hl]%lookup_lt_is_Some_2 by (rewrite Ll; by eapply lookup_lt_Some).
      destruct (place_cell unique layer [] i n l Hi Hl Hn) as (row & Er & _). exists (cell l row).
      rewrite (Hcell n) by (done || by eapply list_elem_of_lookup_2). eauto. }
    exists p. split; [by apply (map_get_elem _ _ _ ND), list_elem_of_lookup_2 with i|].
    destruct (gn_position n); [done|]. destruct Hm as (l & row & Hl & ->).
    assert (map_get (gn_id n) index = Some i) as -> by (apply (ix_index _ _ _ I); by rewrite list_lookup_fmap, Hi).
    cbn. by rewrite (list_lookup_total_correct _ _ _ Hl).
  - apply map_get_None. rewrite Hids. by apply find_unnamed.
Qed.

(** The nodes the layout has to place never overlap: a column or a row apart, gap
    included. *)
Theorem layout_no_overlap nodes edges :
  exists pos, computeGraphLayout nodes edges = Some pos /\
    forall a b n m p q, a <> b -> node_of nodes a = Some n -> node_of nodes b = Some m ->
      gn_position n = None -> gn_position m = None -> map_get a pos = Some p -> map_get b pos = Some q ->
      (GRAPH_NODE_WIDTH + GRAPH_GAP_X <= Z.abs (px p - px q) \/ GRAPH_NODE_HEIGHT + GRAPH_GAP_Y <= Z.abs (py p - py q))%Z.
Proof.
  destruct (layout_runs nodes edges) as (unique & index & layer & kept & pos & I & E & Ll & Hids & _ & _ & Hcell).
  exists pos. split; [exact E|]. intros a b n m p q Hab. unfold node_of. rewrite <-!(ix_find _ _ _ I).
  intros [Hna <-]%find_named [Hnb <-]%find_named Hn Hm Hp Hq.
  assert (NoDup pos.*1) as ND by (rewrite Hids; apply (ix_nodup _ _ _ I)).
  rewrite (Hcell n Hna Hn) in *. clear Hcell.
  apply list_elem_of_lookup_1 in Hna as [i Hi], Hnb as [j Hj].
  assert (forall k x, unique !! k = Some x -> exists l, layer !! k = Some l) as Hl.
  { intros k x Hk. apply lookup_lt_is_Some_2. rewrite Ll. by eapply lookup_lt_Some. }
  destruct (Hl _ _ Hi) as [l1 Hl1], (Hl _ _ Hj) as [l2 Hl2].
  destruct (place_cell unique layer [] i n l1 Hi Hl1 Hn) as (r1 & E1 & _), (place_cell unique layer [] j m l2 Hj Hl2 Hm) as (r2 & E2 & _).
  rewrite (proj1 (map_get_elem _ _ _ ND) (list_elem_of_lookup_2 _ _ _ E1)) in Hp. injection Hp as <-.
  rewrite (proj1 (map_get_elem _ _ _ ND) (list_elem_of_lookup_2 _ _ _ E2)) in Hq. injection Hq as <-.
  destruct (decide (l1 = l2)) as [<-|Hne]; [right|left; unfold cell, GRAPH_NODE_WIDTH, GRAPH_GAP_X; cbn; lia].
  assert (i < j \/ j < i) as [Hij|Hij] by (destruct (Nat.lt_trichotomy i j) as [|[->|]]; [by left|congruence|by right]).
  - pose proof (place_order unique layer [] i j n m l1 _ _ Hij Hi Hj Hl1 Hl2 Hn Hm E1 E2). cbn [snd] in *. lia.
  - pose proof (place_order unique layer [] j i m n l1 _ _ Hij Hj Hi Hl2 Hl1 Hm Hn E2 E1). cbn [snd] in *. lia.
Qed.

Definition demo_node (id : string) : TopologyGraphNode := mkGraphNode id id EmptyString None None None None None None.
Definition demo_edge (a b : string) : TopologyGraphEdge := mkGraphEdge (a +:+ b) a b None false None None [].

(** A cycle of two nodes with a third behind it. *)
Lemma layout_no_overlap_witness :
  computeGraphLayout (demo_node <$> ["a"; "b"; "c"; "d"]) [demo_edge "a" "b"; demo_edge "b" "a"; demo_edge "b" "c"; demo_edge "a" "d"]
    = Some [("a", mkPosition 0 0); ("b", mkPosition 310 0); ("c", mkPosition 620 0); ("d", mkPosition 310 124)] /\
  (310 <= Z.abs (310 - 310) \/ 124 <= Z.abs (0 - 124))%Z.
Proof.
  split; [vm_compute; reflexivity|].
  destruct (layout_no_overlap (demo_node <$> ["a"; "b"; "c"; "d"]) [demo_edge "a" "b"; demo_edge "b" "a"; demo_edge "b" "c"; demo_edge "a" "d"])
    as (pos & E & H). vm_compute in E. injection E as <-.
  apply (H "b" "d" (demo_node "b") (demo_node "d") (mkPosition 310 0) (mkPosition 310 124)); reflexivity || done.
Defined.

(** ** Cleaning a graph *)

Open Scope Z_scope.

(** A graph that needs no cleaning. *)
Definition clean_graph (nodes : list TopologyGraphNode) (edges : list TopologyGraphEdge) : Prop :=
  NoDup (gn_id <$> nodes) /\ NoDup (ge_id <$> edges) /\
  forall e, e ∈ edges -> ge_source e ∈ gn_id <$> nodes /\ ge_target e ∈ gn_id <$> nodes.

Lemma sanitize_nodes_spec nodes seen dup kept seen' dup' :
  sanitize_nodes nodes seen dup = (kept, seen', dup') ->
  NoDup (gn_id <$> kept) /\ (forall n, n ∈ kept -> gn_id n ∉ seen) /\ (forall id, id ∈ seen' <-> id ∈ seen \/ id ∈ gn_id <$> kept) /\
  (forall id, id ∈ gn_id <$> nodes -> id ∈ seen') /\ kept `sublist_of` nodes /\
  (dup' = [] <-> dup = [] /\ kept = nodes).
Proof.
  revert seen dup kept seen' dup'. induction nodes as [|n nodes IH]; intros seen dup kept seen' dup'; cbn [sanitize_nodes].
  - intros [= <- <- <-]. split_and!; [constructor|by intros ? ?%not_elem_of_nil| |by intros ? ?%not_elem_of_nil|done|naive_solver].
    intros id. rewrite fmap_nil, elem_of_nil. naive_solver.
  - case_bool_decide as Hin.
    + intros (H1 & H2 & H3 & H4 & H5 & H6)%IH. split_and!; try done.
      * intros id [->|Hid]%elem_of_cons; [apply H3; by left|by apply H4].
      * by apply sublist_cons.
      * rewrite H6. split; [intros [Hs _]; exfalso|intros [-> ->]].
        -- assert (gn_id n ∈ set_add (gn_id n) dup) as Hd by (apply elem_of_set_add; by left). rewrite Hs in Hd. by apply not_elem_of_nil in Hd.
        -- exfalso. apply sublist_length in H5. cbn in H5. lia.
    + destruct (sanitize_nodes nodes (set_add (gn_id n) seen) dup) as [[k s] d] eqn:E. intros [= <- <- <-].
      destruct (IH _ _ _ _ _ E) as (H1 & H2 & H3 & H4 & H5 & H6). split_and!.
      * rewrite fmap_cons. constructor; [|done]. intros (m & Em & Hm)%list_elem_of_fmap_1. apply (H2 m Hm). rewrite <-Em. apply elem_of_set_add. by left.
      * intros m [->|Hm]%elem_of_cons; [done|]. intros Hs. apply (H2 m Hm), elem_of_set_add. by right.
      * intros id. rewrite H3, elem_of_set_add, fmap_cons, elem_of_cons. naive_solver.
      * intros id [->|Hid]%elem_of_cons; [|by apply H4]. apply H3. left. apply elem_of_set_add. by left.
      * by apply sublist_skip.
      * rewrite H6. naive_solver.
Qed.

Lemma sanitize_nodes_id nodes seen dup :
  NoDup (gn_id <$> nodes) -> (forall n, n ∈ nodes -> gn_id n ∉ seen) -> (sanitize_nodes nodes seen dup).1.1 = nodes.
Proof.
  revert seen. induction nodes as [|n nodes IH]; intros seen ND Hs; cbn [sanitize_nodes]; [done|].
  rewrite fmap_cons in ND. apply NoDup_cons in ND as [Hn ND]. rewrite bool_decide_eq_false_2 by (apply Hs; left).
  specialize (IH (set_add (gn_id n) seen) ND). destruct (sanitize_nodes nodes _ dup) as [[k s] d]. cbn in *. f_equal. apply IH.
  intros m Hm [Em|Hin]%elem_of_set_add; [|by apply (Hs m); [right|]]. apply Hn. rewrite <-Em. by apply list_elem_of_fmap_2.
Qed.

Lemma sanitize_edges_spec known edges seen dup dangling kept dup' dangling' :
  sanitize_edges known edges seen dup dangling = (kept, dup', dangling') ->
  NoDup (ge_id <$> kept) /\ (forall e, e ∈ kept -> ge_id e ∉ seen /\ ge_source e ∈ known /\ ge_target e ∈ known) /\
  kept `sublist_of` edges /\ dangling <= dangling' /\ (dup' = [] /\ dangling' = dangling <-> dup = [] /\ kept = edges).
Proof.
  revert seen dup dangling kept dup' dangling'. induction edges as [|e edges IH]; intros seen dup dangling kept dup' dangling'; cbn [sanitize_edges].
  - intros [= <- <- <-]. split_and!; [constructor|by intros ? ?%not_elem_of_nil|done|lia|naive_solver].
  - case_bool_decide as Hin; [|destruct (_ || _) eqn:Hd].
    + intros (H1 & H2 & H3 & H4 & H5)%IH. split_and!; [done|done|by apply sublist_cons|done|]. rewrite H5. split; [intros [Hs _]; exfalso|intros [_ ->]; exfalso].
      * assert (ge_id e ∈ set_add (ge_id e) dup) as Hx by (apply elem_of_set_add; by left). rewrite Hs in Hx. by apply not_elem_of_nil in Hx.
      * apply sublist_length in H3. cbn in H3. lia.
    + intros (H1 & H2 & H3 & H4 & H5)%IH. split_and!; [done| |by apply sublist_cons|lia|].
      * intros f Hf. destruct (H2 f Hf) as (Hs & ? & ?). split; [|done]. intros Hx. apply Hs, elem_of_set_add. by right.
      * split; [intros [_ ->]; lia|]. intros [_ ->]. apply sublist_length in H3. cbn in H3. lia.
    + destruct (sanitize_edges known edges (set_add (ge_id e) seen) dup dangling) as [[k d] g] eqn:E. intros [= <- <- <-].
      destruct (IH _ _ _ _ _ _ E) as (H1 & H2 & H3 & H4 & H5). apply orb_false_iff in Hd as [Hs Ht].
      apply negb_false_iff, bool_decide_eq_true in Hs, Ht. split_and!.
      * rewrite fmap_cons. constructor; [|done]. intros (m & Em & Hm)%list_elem_of_fmap_1. destruct (H2 m Hm) as [Hx _]. apply Hx. rewrite <-Em.
        apply elem_of_set_add. by left.
      * intros f [->|Hf]%elem_of_cons; [done|]. destruct (H2 f Hf) as (Hx & ? & ?). split; [|done]. intros Hy. apply Hx, elem_of_set_add. by right.
      * by apply sublist_skip.
      * done.
      * rewrite H5. naive_solver.
Qed.

Lemma sanitize_edges_id known edges seen dup dangling :
  NoDup (ge_id <$> edges) -> (forall e, e ∈ edges -> ge_id e ∉ seen /\ ge_source e ∈ known /\ ge_target e ∈ known) ->
  (sanitize_edges known edges seen dup dangling).1.1 = edges.
Proof.
  revert seen. induction edges as [|e edges IH]; intros seen ND Hs; cbn [sanitize_edges]; [done|].
  rewrite fmap_cons in ND. apply NoDup_cons in ND as [Hn ND]. destruct (Hs e ltac:(left)) as (Hx & H1 & H2).
  rewrite bool_decide_eq_false_2, !bool_decide_eq_true_2 by done. cbn [negb orb].
  specialize (IH (set_add (ge_id e) seen) ND). destruct (sanitize_edges known edges _ dup dangling) as [[k d] g]. cbn in *. f_equal. apply IH.
  intros m Hm. destruct (Hs m ltac:(by right)) as (Hy & ? & ?). split; [|done]. intros [Em|Hin]%elem_of_set_add; [|done].
  apply Hn. rewrite <-Em. by apply list_elem_of_fmap_2.
Qed.

(** What is drawn is a graph: names of nodes and of edges are distinct, and every edge
    joins two nodes; nothing is invented or reordered; and nothing is dropped silently:
    no issue is reported exactly when the input was clean, and then all of it is drawn. *)
Theorem sanitize_cleans nodes edges :
  let g := sanitizeGraph nodes edges in
  clean_graph (sg_nodes g) (sg_edges g) /\ sg_nodes g `sublist_of` nodes /\ sg_edges g `sublist_of` edges /\
  (hasGraphDataIssues g = false <-> clean_graph nodes edges) /\
  (hasGraphDataIssues g = false -> sg_nodes g = nodes /\ sg_edges g = edges).
Proof.
  unfold sanitizeGraph. pose proof (sanitize_nodes_id nodes [] []) as Hid. destruct (sanitize_nodes nodes [] []) as [[kn known] dn] eqn:En.
  pose proof (sanitize_edges_id known edges [] [] 0) as Hie. destruct (sanitize_edges known edges [] [] 0) as [[ke de] dang] eqn:Ee.
  apply sanitize_nodes_spec in En as (N1 & N2 & N3 & N4 & N5 & N6). apply sanitize_edges_spec in Ee as (E1 & E2 & E3 & E4 & E5).
  cbn [sg_nodes sg_edges fst] in *.
  assert (clean_graph kn ke) as Hc.
  { split_and!; [done|done|]. intros e He. destruct (E2 e He) as (_ & Hs & Ht). apply N3 in Hs as [?%not_elem_of_nil|Hs], Ht as [?%not_elem_of_nil|Ht]; done. }
  assert (hasGraphDataIssues (mkSanitized kn ke dn de dang) = false <-> dn = [] /\ de = [] /\ dang = 0) as ->.
  { unfold hasGraphDataIssues. cbn. destruct dn, de; [|naive_solver..]. rewrite Z.ltb_ge. split; [intros; split_and!; [done|done|lia]|intros (_ & _ & ->); lia]. }
  assert (dn = [] /\ de = [] /\ dang = 0 <-> kn = nodes /\ ke = edges) as Heq by naive_solver.
  split_and!; [done|done|done| |by rewrite Heq]. rewrite Heq. split; [by intros [-> ->]|]. intros (C1 & C2 & C3). split.
  - apply Hid; [done|by intros ? _ ?%not_elem_of_nil].
  - apply Hie; [done|]. intros e He. destruct (C3 e He) as [Hs Ht]. split_and!; [by intros ?%not_elem_of_nil|by apply N4|by apply N4].
Qed.

(** ** Moving through a graph *)

(** A point that an arrow key may reach, and how far it is. *)
Definition reachable_at (dir : Position) (current : string * Position) (p : string * Position) (score : Z) : Prop :=
  p.1 <> current.1 /\ score_of dir current.2 p.2 = Some score.

Lemma nearest_spec dir current points best :
  match nearest dir current points best with
  | None => best = None /\ forall p s, p ∈ points -> ~ reachable_at dir current p s
  | Some (id, s) =>
      (best = Some (id, s) \/ exists p, p ∈ points /\ p.1 = id /\ reachable_at dir current p s) /\
      (forall id' s', best = Some (id', s') -> s <= s') /\ forall p s', p ∈ points -> reachable_at dir current p s' -> s <= s'
  end.
Proof.
  revert best. induction points as [|p points IH]; intros best; cbn [nearest].
  { destruct best as [[id s]|]; [split_and!; [by left|by intros ? ? [= -> ->]|by intros ? ? ?%not_elem_of_nil]|by split; [|intros ? ? ?%not_elem_of_nil]]. }
  unfold reachable_at in *. destruct (String.eqb_spec p.1 current.1) as [Ep|Np]; [|destruct (score_of dir current.2 p.2) as [sc|] eqn:Es].
  - specialize (IH best). destruct (nearest dir current points best) as [[id s]|].
    + destruct IH as (H1 & H2 & H3). split_and!; [|done|].
      * destruct H1 as [?|(q & Hq & R)]; [by left|right; exists q; split; [by right|done]].
      * intros q s' [->|Hq]%elem_of_cons [Hne Hs]; [done|by eapply H3].
    + destruct IH as [-> H2]. split; [done|]. intros q s [->|Hq]%elem_of_cons [Hne Hs]; [done|by eapply H2].
  - set (better := match best with None => true | Some (_, s) => sc <? s end). specialize (IH (if better then Some (p.1, sc) else best)).
    destruct (nearest dir current points _) as [[id s]|].
    + destruct IH as (H1 & H2 & H3). assert (s <= sc /\ forall id' s', best = Some (id', s') -> s <= s') as [Hsc Hbest].
      { unfold better in H2. destruct best as [[i0 s0]|]; [|split; [by eapply H2|done]]. destruct (Z.ltb_spec sc s0).
        - split; [by eapply H2|]. intros ? ? [= <- <-]. specialize (H2 _ _ eq_refl). lia.
        - specialize (H2 _ _ eq_refl). split; [lia|]. by intros ? ? [= <- <-]. }
      split_and!; [|done|].
      * destruct H1 as [Hb|(q & Hq & R)]; [|right; exists q; split; [by right|done]]. destruct better; [|by left]. injection Hb as <- <-.
        right. exists p. split_and!; [left|done|done|done].
      * intros q s' [->|Hq]%elem_of_cons [Hne Hs]; [rewrite Es in Hs; injection Hs as <-; lia|by eapply H3].
    + destruct IH as [Hb _]. unfold better in Hb. destruct best as [[i0 s0]|]; [|done]. by destruct (sc <? s0).
  - specialize (IH best). destruct (nearest dir current points best) as [[id s]|].
    + destruct IH as (H1 & H2 & H3). split_and!; [|done|].
      * destruct H1 as [?|(q & Hq & R)]; [by left|right; exists q; split; [by right|done]].
      * intros q s' [->|Hq]%elem_of_cons [Hne Hs]; [congruence|by eapply H3].
    + destruct IH as [-> H2]. split; [done|]. intros q s [->|Hq]%elem_of_cons [Hne Hs]; [congruence|by eapply H2].
Qed.

(** An arrow key moves to the nearest other node that lies strictly in its direction,
    among the nodes of the graph with finite coordinates, and stays only when the current
    node is not there or no node lies in that direction. *)
Theorem arrows_move_nearest points currentId key dir :
  DIRECTIONS key = Some dir ->
  let finite := omap finite_point points in
  match findNextNodeId points currentId key with
  | Some id => exists cur p s, (currentId, cur) ∈ finite /\ (id, p) ∈ finite /\ reachable_at dir (currentId, cur) (id, p) s /\
      0 < (px p - px cur) * px dir + (py p - py cur) * py dir /\
      forall q s', q ∈ finite -> reachable_at dir (currentId, cur) q s' -> s <= s'
  | None => currentId ∉ finite.*1 \/ exists cur, (currentId, cur) ∈ finite /\ forall q s, q ∈ finite -> ~ reachable_at dir (currentId, cur) q s
  end.
Proof.
  intros Hd finite. unfold findNextNodeId. fold finite. destruct finite as [|f0 rest] eqn:E; [left; apply not_elem_of_nil|].
  rewrite Hd, <-E. clear E. cbn [mbind option_bind]. destruct (List.find _ finite) as [[id0 cur]|] eqn:F.
  - apply find_some in F as [Hin Hid]. apply String.eqb_eq in Hid. cbn in Hid. subst id0. rewrite <-list_elem_of_In in Hin.
    cbn [mbind option_bind]. pose proof (nearest_spec dir (currentId, cur) finite None) as N.
    destruct (nearest dir (currentId, cur) finite None) as [[id s]|].
    + destruct N as ([?|([i p] & Hp & <- & R)] & _ & Hmin); [done|]. cbn. exists cur, p, s. split_and!; [done|done|done| |done].
      destruct R as [_ Hs]. unfold score_of, centre in Hs. cbn [snd px py] in Hs. destruct (Z.leb_spec ((px p + GRAPH_NODE_WIDTH / 2 - (px cur + GRAPH_NODE_WIDTH / 2)) * px dir + (py p + GRAPH_NODE_HEIGHT / 2 - (py cur + GRAPH_NODE_HEIGHT / 2)) * py dir) 0); [done|]. lia.
    + cbn. right. exists cur. split; [done|]. by destruct N.
  - left. intros (q & -> & Hq)%list_elem_of_fmap_1. rewrite list_elem_of_In in Hq. apply (find_none _ _ F) in Hq. by rewrite String.eqb_refl in Hq.
Qed.

Lemma arrows_move_nearest_witness :
  findNextNodeId [mkNavigable "a" (Fin 0) (Fin 0); mkNavigable "b" (Fin 310) (Fin 124); mkNavigable "c" (Fin 310) (Fin 0); mkNavigable "d" NaN (Fin 0)]
    "a" ArrowRight = Some "c" /\
  exists cur p s, ("a", cur) ∈ [("a", mkPosition 0 0); ("b", mkPosition 310 124); ("c", mkPosition 310 0)] /\
    reachable_at (mkPosition 1 0) ("a", cur) ("c", p) s.
Proof.
  split; [reflexivity|].
  destruct (arrows_move_nearest [mkNavigable "a" (Fin 0) (Fin 0); mkNavigable "b" (Fin 310) (Fin 124); mkNavigable "c" (Fin 310) (Fin 0); mkNavigable "d" NaN (Fin 0)]
    "a" ArrowRight (mkPosition 1 0) eq_refl) as (cur & p & s & H1 & _ & H2 & _). by exists cur, p, s.
Defined.
