(* ===== verification/Flink.v ===== *)
(** * The Flink adapter: [adapters/flink/{client,mapping,adapter}.ts] of domain-api/src

    The client reads the JobManager; the mapping turns a job into a pipeline; the
    adapter builds a snapshot of all of them and keeps it for a while.  Requests that
    the workers of [mapLimited] make side by side share nothing but the slots and are
    made one after the other here.  The network, the clock, the abort signal of the
    time budget and the slots are calls; [iso_datetime] is zod's test of a date text. *)

From S2P Require Import Prelude JsBase JsRegex JsText JsJson JsLib Effects HttpClient Config Services Correlation Pipeline Kube.
From Stdlib Require Import Ascii.
From Stdlib Require String.
Open Scope Z_scope.
Open Scope prog_scope.

(** ** [client.ts]: the answers *)

Inductive FlinkErrorKind := FUnreachable | FTimeout | FHttpError | FInvalidResponse | FOverloaded.

#[export] Instance FlinkErrorKind_eq_dec : EqDecision FlinkErrorKind.
Proof. solve_decision. Defined.

Record FlinkClientError := mkFlinkError { fe_kind : FlinkErrorKind; fe_message : string; fe_status : option Z }.

Definition FLINK_MAX_BODY_BYTES : Z := 2 * 1024 * 1024.

Record FlinkOverview := mkOverview {
  fo_version : string;
  fo_taskmanagers : Z;
  fo_slotsTotal : Z;
  fo_slotsAvailable : Z;
  fo_jobsRunning : Z;
}.

Record FlinkJobSummary := mkSummary {
  fs_jid : string;
  fs_name : string;
  fs_state : string;
  fs_start : Z;
  fs_end : Z;
  fs_modified : Z;
  fs_tasks : list (string * Z);
}.

Record FlinkJobDetail := mkDetail { fd_jid : string; fd_state : string; fd_vertices : list (string * string) }.

(** [z.string().min(1)], [z.number().int().nonnegative()] *)
Definition str_min1 (j : option json) : option string :=
  match j with Some (JStr s) => if min_1 s then Some s else None | _ => None end.

Definition int_nonneg (j : option json) : option Z :=
  match j with Some (JNum n) => if (0 <=? n) && (n <=? 9007199254740991) then Some n else None | _ => None end.

Definition is_hex (a : ascii) : bool := is_digit a || between 97 102 a.

(** [/^[0-9a-f]{32}$/] *)
Definition JID : re := Cat (Nat.iter 32 (fun r => Cat (Chr is_hex) r) Eps) Eol.

Definition jid_of (j : option json) : option string :=
  match j with Some (JStr s) => if test JID s then Some s else None | _ => None end.

Definition flinkOverviewSchema (j : json) : option FlinkOverview :=
  v ← str_min1 (field j "flink-version"); t ← int_nonneg (field j "taskmanagers");
  s ← int_nonneg (field j "slots-total"); a ← int_nonneg (field j "slots-available");
  r ← int_nonneg (field j "jobs-running"); Some (mkOverview v t s a r).

(** [z.record(z.string(), z.number()).default({})] *)
Definition tasks_of (j : option json) : option (list (string * Z)) :=
  match j with
  | None => Some []
  | Some (JObj l) => mapM (fun kv : string * json => n ← as_num (Some kv.2); Some (kv.1, n)) l
  | _ => None
  end.

Definition flinkJobSummarySchema (j : json) : option FlinkJobSummary :=
  i ← jid_of (field j "jid"); n ← str_min1 (field j "name"); s ← str_min1 (field j "state");
  a ← as_num (field j "start-time"); b ← as_num (field j "end-time"); m ← as_num (field j "last-modification");
  t ← tasks_of (field j "tasks"); Some (mkSummary i n s a b m t).

Definition flinkJobsOverviewSchema (j : json) : option (list FlinkJobSummary) :=
  l ← as_array (field j "jobs"); mapM flinkJobSummarySchema l.

Definition vertex_of (j : json) : option (string * string) :=
  n ← as_string (field j "name"); s ← as_string (field j "status"); Some (n, s).

Definition flinkJobDetailSchema (j : json) : option FlinkJobDetail :=
  i ← jid_of (field j "jid"); s ← str_min1 (field j "state");
  v ← match field j "vertices" with None => Some [] | Some (JArr l) => mapM vertex_of l | _ => None end;
  Some (mkDetail i s v).

(** ** [client.ts]: the slots *)

(** The slots are those of [HttpClient]; an aborted request asks for none. *)
Inductive SlotAnswer := SlotGranted | SlotAborted | SlotFull.

Definition flink_acquire (maxConcurrency maxQueue : Z) (aborted : bool) (i : nat) (s : Slots) : Slots * option Acquired :=
  if aborted then (s, None) else let (s', a) := acquire maxConcurrency maxQueue i s in (s', Some a).

(** [onAbort] of a waiter, and [release]. *)
Definition flink_abort : nat -> Slots -> Slots := expire.
Definition flink_release : Slots -> Slots * option nat := release.

(** ** [adapter.ts]: the cache *)

(** [SingleFlightCache]: the value with the end of its life, and the promise in
    flight, by its number. *)
Record FlightCache (V : Type) := mkFlight { ca_entry : option (V * Z); ca_inflight : option nat; ca_next : nat }.
Arguments mkFlight {V}.
Arguments ca_entry {V}.
Arguments ca_inflight {V}.
Arguments ca_next {V}.

Inductive Got (V : Type) := Hit (v : V) | Joined (p : nat) | Started (p : nat).
Arguments Hit {V}.
Arguments Joined {V}.
Arguments Started {V}.

Definition flight_get {V} (now : Z) (c : FlightCache V) : FlightCache V * Got V :=
  let shared :=
    match ca_inflight c with
    | Some p => (c, Joined p)
    | None => (mkFlight (ca_entry c) (Some (ca_next c)) (S (ca_next c)), Started (ca_next c))
    end in
  match ca_entry c with
  | Some (v, expiresAt) => if now <? expiresAt then (c, Hit v) else shared
  | None => shared
  end.

(** The load of [p] resolves, and then [clear] runs; after a rejection only that. *)
Definition flight_loaded {V} (now : Z) (v : V) (ttlMs : Z) (c : FlightCache V) : FlightCache V :=
  mkFlight (Some (v, now + ttlMs)) (ca_inflight c) (ca_next c).

Definition flight_clear {V} (p : nat) (c : FlightCache V) : FlightCache V :=
  mkFlight (ca_entry c) (if bool_decide (ca_inflight c = Some p) then None else ca_inflight c) (ca_next c).

(** ** The calls *)

Inductive FOp : Type :=
| FNow
| FSlot
| FGet (url : string)
| FRelease
| FAborted
| FOverview
| FSnapshot
| FLog (line : string).

Definition FAns (e : FOp) : Type :=
  match e with
  | FNow => Z
  | FSlot => SlotAnswer
  | FGet _ => FetchOutcome
  | FAborted => bool
  | FOverview => result FlinkClientError FlinkOverview
  | FSnapshot => PipelineSnapshot
  | FRelease | FLog _ => unit
  end.

Definition FProg (A : Type) : Type := prog FAns (result FlinkClientError A).
Definition fdo (e : FOp) : prog FAns (FAns e) := perform e.

Section flink.
Context `{JsLib} `{Intl} (iso_datetime : string -> bool) (config : FlinkAdapterConfig).

(** ** [client.ts]: a request *)

Definition flink_error {A} (kind : FlinkErrorKind) (m : string) (status : option Z) : result FlinkClientError A :=
  inl (mkFlinkError kind m status).

Definition waiting_aborted {A} : result FlinkClientError A :=
  flink_error FTimeout "Flink REST request timed out or was cancelled while waiting for a slot" None.

(** [classifyTransport] *)
Definition classifyTransport {A} (aborted : bool) : result FlinkClientError A :=
  if aborted
  then flink_error FTimeout ("Flink REST did not respond within " +:+ pretty (fc_timeoutMs config) +:+ "ms") None
  else flink_error FUnreachable "Flink REST is unreachable" None.

Definition tooLarge {A} (path : string) : result FlinkClientError A :=
  flink_error FInvalidResponse
    ("Flink REST " +:+ path +:+ " response exceeds " +:+ pretty FLINK_MAX_BODY_BYTES +:+ " bytes") None.

(** [readCapped]; without a body there is no text. *)
Definition flink_text (path : string) (r : HttpResponse) : result FlinkClientError string :=
  if match declared r with Fin n => FLINK_MAX_BODY_BYTES <? n | _ => false end then tooLarge path
  else
    match hs_body r with
    | None => inr EmptyString
    | Some (stream, stop) =>
        match read_chunks FLINK_MAX_BODY_BYTES [] 0 stream stop with
        | inl BodyTooLarge => tooLarge path
        | inl ReadAborted => classifyTransport true
        | inl ReadFailed => classifyTransport false
        | inr chunks => inr (join EmptyString chunks)
        end
    end.

(** [res.ok] *)
Definition flink_ok (r : HttpResponse) : bool := (200 <=? hs_status r) && (hs_status r <=? 299).

Definition flink_answer {A} (path : string) (schema : json -> option A) (out : FetchOutcome)
    : result FlinkClientError A :=
  match out with
  | FetchAborted => classifyTransport true
  | FetchFailed => classifyTransport false
  | Fetched r =>
      if negb (flink_ok r) then
        flink_error FHttpError ("Flink REST " +:+ path +:+ " returned HTTP " +:+ pretty (hs_status r)) (Some (hs_status r))
      else
        let! text := flink_text path r in
        match JSON_parse text with
        | None => flink_error FInvalidResponse ("Flink REST " +:+ path +:+ " returned malformed JSON") None
        | Some j =>
            match schema j with
            | None => flink_error FInvalidResponse ("Flink REST " +:+ path +:+ " returned an unexpected shape") None
            | Some a => inr a
            end
        end
  end.

(** The [finally] gives the slot back, whatever happened. *)
Definition flink_get {A} (path : string) (schema : json -> option A) : FProg A :=
  await slot := fdo FSlot in
  match slot with
  | SlotAborted => Ret waiting_aborted
  | SlotFull => Ret (flink_error FOverloaded "Flink REST request queue is full" None)
  | SlotGranted =>
      await out := fdo (FGet (fc_baseUrl config +:+ path)) in
      await _ := fdo FRelease in
      Ret (flink_answer path schema out)
  end.

Definition getOverview : FProg FlinkOverview := flink_get "/overview" flinkOverviewSchema.

Definition getJobsOverview : FProg (list FlinkJobSummary) := flink_get "/jobs/overview" flinkJobsOverviewSchema.

Definition getJob (jobId : string) : FProg FlinkJobDetail :=
  if negb (test JID jobId) then Ret (flink_error FInvalidResponse "Job id is not a 32-character hex string" None)
  else flink_get ("/jobs/" +:+ jobId) flinkJobDetailSchema.

(** ** [mapping.ts] *)

Definition FLINK_SERVICE_ID : string := "svc-flink".
Definition ICEBERG_SERVICE_ID : string := "svc-iceberg".

Definition FLINK_STATE_MAPPING : list (string * (HealthStatus * JobRunResult)) := [
  ("RUNNING", (Healthy, RunRunning));
  ("INITIALIZING", (Unknown, RunUnknown));
  ("CREATED", (Unknown, RunUnknown));
  ("RECONCILING", (Unknown, RunUnknown));
  ("RESTARTING", (Degraded, RunUnknown));
  ("FAILING", (Degraded, RunUnknown));
  ("FAILED", (Unavailable, RunFailed));
  ("CANCELLING", (Unknown, RunUnknown));
  ("CANCELED", (Unavailable, RunUnknown));
  ("SUSPENDED", (Unavailable, RunUnknown));
  ("FINISHED", (Healthy, RunSucceeded))
].

Definition UNKNOWN_STATE : HealthStatus * JobRunResult := (Unknown, RunUnknown).
Definition FAILURE_STATES : list string := ["RESTARTING"; "FAILING"; "FAILED"].

(** What every object inherits: [FLINK_STATE_MAPPING[state]] is then a member of
    [Object.prototype], which has neither a [health] nor a [result]. *)
Definition OBJECT_MEMBERS : list string :=
  ["constructor"; "__defineGetter__"; "__defineSetter__"; "hasOwnProperty"; "__lookupGetter__"; "__lookupSetter__";
   "isPrototypeOf"; "propertyIsEnumerable"; "toString"; "valueOf"; "__proto__"; "toLocaleString"].

(** [None]: both fields are undefined. *)
Definition mapState (state : string) (tasks : list (string * Z)) : option (HealthStatus * JobRunResult) :=
  if String.eqb state "RUNNING" && (0 <? default 0 (map_get "failed" tasks)) then Some (Degraded, RunRunning)
  else
    match map_get state FLINK_STATE_MAPPING with
    | Some mapped => Some mapped
    | None => if bool_decide (state ∈ OBJECT_MEMBERS) then None else Some UNKNOWN_STATE
    end.

(** Runs of other characters become one dash each; [in_run]: the last one was such. *)
Fixpoint dashes (in_run : bool) (s : string) : string :=
  match s with
  | EmptyString => EmptyString
  | String a s' =>
      if between 97 122 a || is_digit a then String a (dashes false s')
      else if in_run then dashes true s' else String "-" (dashes true s')
  end.

Fixpoint drop_dash (s : string) : string :=
  match s with String a s' => if Ascii.eqb a "-" then drop_dash s' else s | EmptyString => s end.

Fixpoint drop_dash_end (s : string) : string :=
  match s with
  | EmptyString => EmptyString
  | String a s' =>
      match drop_dash_end s' with
      | EmptyString => if Ascii.eqb a "-" then EmptyString else str1 a
      | t => String a t
      end
  end.

Definition slug (value : string) : string :=
  let s := drop_dash_end (drop_dash (dashes false (to_lower value))) in
  if String.eqb s EmptyString then "unnamed" else s.

(** A [Date] holds at most 8.64e15 ms. *)
Definition isoOrNull (ms : Z) : option string :=
  if (0 <? ms) && (ms <=? 8640000000000000) then Some (toISOString ms) else None.

Definition table_char (a : ascii) : bool := is_alpha a || is_digit a || str_has a "_.-".

(** [/IcebergSink\s+([A-Za-z0-9_.-]+)/] *)
Definition ICEBERG_SINK : re := Cat (lit "IcebergSink") (Cat (Plus WhiteSpace) (Grp 1 (Plus (Chr table_char)))).

Definition sinks_of (name : string) : list string := omap (capture 1) (matchAll ICEBERG_SINK name).

Definition extractSinkTables (detail : option FlinkJobDetail) : list string :=
  match detail with
  | None => []
  | Some d => js_sort str_cmp (set_of (flat_map (fun v : string * string => sinks_of v.1) (fd_vertices d)))
  end.

Definition stripPrefix (name prefix : string) : string :=
  if min_1 prefix && starts_with prefix name && (String.length prefix <? String.length name)%nat
  then str_drop (String.length prefix) name else name.

Definition PIPELINE_ID_PATTERN : re := Cat (lit "pl-flink-") (Cat (Grp 1 (Nat.iter 32 (fun r => Cat (Chr is_hex) r) Eps)) Eol).

Definition pipelineIdFor (jid : string) : string := "pl-flink-" +:+ jid.

Definition job_of (summary : FlinkJobSummary) (mapped : HealthStatus * JobRunResult) (startedAt : option string) : PipelineJob :=
  mkJob ("job-flink-" +:+ fs_jid summary) (fs_name summary) JobFlink FLINK_SERVICE_ID
    ((fun s => mkLastRun mapped.2 s (isoOrNull (fs_end summary))
       (if bool_decide (fs_state summary ∈ FAILURE_STATES)
        then Some ("Flink reported job state " +:+ fs_state summary) else None)) <$> startedAt)
    [].

Definition sink_stage (table : string) : PipelineStage :=
  mkStage ICEBERG_SERVICE_ID TIceberg Unknown
    (Some ("Sink table " +:+ table +:+ " reported by the Flink job graph; not verified against the catalog")).

Definition table_entity (table : string) : CorrelationEntity := mkEntity IcebergTable ("table-" +:+ slug table) table [].

Definition job_entity (summary : FlinkJobSummary) : CorrelationEntity :=
  mkEntity FlinkJob ("job-flink-" +:+ fs_jid summary) (stripPrefix (fs_name summary) (fc_jobNamePrefix config)) [].

(** The evidence the job graph adds to a link. *)
Definition graph_evidence (summary : FlinkJobSummary) (tableByEntityId : list (string * string)) (l : CorrelationLink)
    : CorrelationLink :=
  match li_relation l with
  | JobWritesTable =>
      mkLink (li_id l) (li_source l) (li_target l) (li_relation l) (li_confidence l) (li_method l)
        (li_evidence l ++ ["Flink job graph of '" +:+ fs_name summary +:+ "' reports an IcebergSink on '" +:+
                           default (li_target l).2 (map_get (li_target l).2 tableByEntityId) +:+ "'"])
  | _ => l
  end.

Definition job_links (summary : FlinkJobSummary) (sinkTables : list string) : list CorrelationLink :=
  map (graph_evidence summary (map_of (map (fun t => ("table-" +:+ slug t, t)) sinkTables)))
    (correlate (job_entity summary :: map table_entity sinkTables)).

(** [Math.min] of the links, or the constant of an ambiguous one. *)
Definition weakest (links : list CorrelationLink) : Z :=
  match links with
  | [] => AMBIGUOUS_CONFIDENCE
  | l :: rest => foldl (fun m l => Z.min m (li_confidence l)) (li_confidence l) rest
  end.

Definition pipeline_for (now : Z) (summary : FlinkJobSummary) (detail : option FlinkJobDetail)
    (mapped : HealthStatus * JobRunResult) : Pipeline :=
  let startedAt := isoOrNull (fs_start summary) in
  let sinkTables := extractSinkTables detail in
  let links := job_links summary sinkTables in
  mkPipeline (pipelineIdFor (fs_jid summary)) (fs_name summary)
    (mkStage FLINK_SERVICE_ID TFlink mapped.1 (Some ("Flink job state " +:+ fs_state summary)) :: map sink_stage sinkTables)
    [job_of summary mapped startedAt] links mapped.1 (weakest links, Inferred)
    (match isoOrNull (fs_modified summary), startedAt with
     | Some t, _ | None, Some t => t | None, None => toISOString now end).

(** [None]: a candidate without a status, which no schema accepts. *)
Definition pipeline_of (now : Z) (summary : FlinkJobSummary) (detail : option FlinkJobDetail) : option Pipeline :=
  pipeline_for now summary detail <$> mapState (fs_state summary) (fs_tasks summary).

(** [pipelineSchema.safeParse(candidate)] *)
Definition parse_pipeline (candidate : option Pipeline) : option Pipeline :=
  p ← candidate; if pipelineSchema iso_datetime p then Some p else None.

Definition by_pipeline_id (a b : Pipeline) : Z := str_cmp (pl_id a) (pl_id b).

Definition buildPipelines (inputs : list (FlinkJobSummary * option FlinkJobDetail)) (now : Z) : list Pipeline * nat :=
  let parsed := map (fun i : FlinkJobSummary * option FlinkJobDetail => parse_pipeline (pipeline_of now i.1 i.2)) inputs in
  (js_sort by_pipeline_id (omap id parsed),
   length (List.filter (fun p => match p with None => true | Some _ => false end) parsed)).

(** ** [adapter.ts] *)

Definition MAX_JOBS : nat := 100.
Definition STALE_AFTER_MS : Z := 60000.
Definition TRANSIENT_KINDS : list FlinkErrorKind := [FOverloaded; FTimeout; FUnreachable].
Definition NEGATIVE_TTL_CAP_MS : Z := 1000.

Definition healthFor (e : FlinkClientError) : HealthStatus :=
  if bool_decide (fe_kind e = FHttpError) && (500 <=? default 0 (fe_status e)) then Degraded else Unknown.

Definition kind_text (k : FlinkErrorKind) : string :=
  match k with
  | FUnreachable => "unreachable" | FTimeout => "timeout" | FHttpError => "http-error"
  | FInvalidResponse => "invalid-response" | FOverloaded => "overloaded"
  end.

Definition unavailable_text (k : FlinkErrorKind) : string :=
  match k with
  | FUnreachable => "Flink JobManager is unreachable; live pipelines are unavailable"
  | FTimeout => "Flink JobManager did not respond in time; live pipelines are unavailable"
  | FHttpError => "Flink JobManager returned an error response; live pipelines are unavailable"
  | FInvalidResponse => "Flink JobManager returned an unexpected response; live pipelines are unavailable"
  | FOverloaded => "Too many pending Flink JobManager requests; live pipelines are temporarily unavailable"
  end.

Definition warningFor (e : FlinkClientError) : prog FAns ListWarning :=
  await _ := fdo (FLog ("Flink adapter: listPipelines failed (" +:+ kind_text (fe_kind e) +:+ ")")) in
  Ret (mkWarning "UPSTREAM_UNAVAILABLE" (unavailable_text (fe_kind e)) (Some FLINK_SERVICE_ID)).

(** [note]: was a failure transient, was one genuine. *)
Definition transient (e : FlinkClientError) : bool := bool_decide (fe_kind e ∈ TRANSIENT_KINDS).

Definition ttl_of (errors : list FlinkClientError) (skipped : nat) : Z :=
  if existsb transient errors then 0
  else if existsb (fun e => negb (transient e)) errors || (0 <? skipped)%nat
       then Z.min (fc_cacheTtlMs config) NEGATIVE_TTL_CAP_MS
  else fc_cacheTtlMs config.

Definition job_detail (s : FlinkJobSummary) : FProg FlinkJobDetail :=
  await aborted := fdo FAborted in
  if (aborted : bool) then Ret (flink_error FTimeout "snapshot time budget exceeded" None) else getJob (fs_jid s).

Definition failed {A} (o : result FlinkClientError A) : option FlinkClientError :=
  match o with inl e => Some e | inr _ => None end.

Definition succeeded {A} (o : result FlinkClientError A) : option A :=
  match o with inl _ => None | inr a => Some a end.

Definition truncated_warning (n : nat) : list ListWarning :=
  if (MAX_JOBS <? n)%nat then
    [mkWarning "TRUNCATED" ("Flink reports " +:+ pretty n +:+ " jobs; only the first " +:+ pretty MAX_JOBS +:+ " are shown")
       (Some FLINK_SERVICE_ID)]
  else [].

Definition partial_warning (n : nat) (aborted : bool) : ListWarning :=
  mkWarning "PARTIAL"
    ("Flink job details were unavailable for " +:+ pretty n +:+ " job(s)" +:+
     (if aborted then " (snapshot time budget exceeded)" else EmptyString) +:+ "; their sink tables are not shown")
    (Some FLINK_SERVICE_ID).

Definition invalid_warning (skipped : nat) : list ListWarning :=
  if (0 <? skipped)%nat then
    [mkWarning "INVALID_JOB" (pretty skipped +:+ " Flink job(s) could not be mapped to a Pipeline and were skipped")
       (Some FLINK_SERVICE_ID)]
  else [].

(** A snapshot and how long it may be reused. *)
Definition buildSnapshot : prog FAns (PipelineSnapshot * Z) :=
  await overview := getJobsOverview in
  match overview with
  | inl e => await w := warningFor e in Ret (mkPipelines [] [w] [], ttl_of [e] 0)
  | inr summaries =>
      let selected := take MAX_JOBS summaries in
      await outcomes := all_of job_detail selected in
      let incomplete :=
        omap (fun p : FlinkJobSummary * result FlinkClientError FlinkJobDetail =>
          (fun _ => pipelineIdFor (fs_jid p.1)) <$> failed p.2) (zip selected outcomes) in
      await partial :=
        match incomplete with
        | [] => Ret []
        | _ => await aborted := fdo FAborted in Ret [partial_warning (length incomplete) aborted]
        end in
      await now := fdo FNow in
      let (pipelines, skipped) := buildPipelines (zip selected (map succeeded outcomes)) now in
      Ret (mkPipelines pipelines (truncated_warning (length summaries) ++ partial ++ invalid_warning skipped) incomplete,
           ttl_of (omap failed outcomes) skipped)
  end.

Definition listPipelines : prog FAns PipelineSnapshot := fdo FSnapshot.

Definition has_code (code : string) (w : ListWarning) : bool := String.eqb (lw_code w) code.

Definition lookup_in (snap : PipelineSnapshot) (i : string) : PipelineLookup :=
  if existsb (has_code "UPSTREAM_UNAVAILABLE") (ps_warnings snap) then mkLookup None (ps_warnings snap) true
  else
    match List.find (fun p => String.eqb (pl_id p) i) (ps_pipelines snap) with
    | None => mkLookup None [] false
    | Some p =>
        if bool_decide (i ∈ ps_incompletePipelineIds snap)
        then mkLookup None (List.filter (has_code "PARTIAL") (ps_warnings snap)) true
        else mkLookup (Some p) [] false
    end.

Definition getPipeline (i : string) : prog FAns PipelineLookup :=
  if negb (test PIPELINE_ID_PATTERN i) then Ret (mkLookup None [] false)
  else await snap := listPipelines in Ret (lookup_in snap i).

Definition flink_base : AdapterMetadata := mkMetadata None ["job.list"] [CProcessing] None None [] [].

Definition flink_metrics (o : FlinkOverview) : list KeyMetric := [
  mkMetric "TaskManagers" (pretty (fo_taskmanagers o)) None;
  mkMetric "Slots total" (pretty (fo_slotsTotal o)) None;
  mkMetric "Slots available" (pretty (fo_slotsAvailable o)) None;
  mkMetric "Jobs running" (pretty (fo_jobsRunning o)) None
].

Definition getMetadata : prog FAns AdapterMetadata :=
  await o := fdo FOverview in
  Ret (match o with
       | inl _ => flink_base
       | inr o => mkMetadata None ["job.list"] [CProcessing] None None (flink_metrics o) []
       end).

Definition getVersion : prog FAns (option string) :=
  await o := fdo FOverview in Ret (fo_version <$> succeeded o).

Definition getHealth : prog FAns AdapterHealth :=
  await o := fdo FOverview in
  await now := fdo FNow in
  Ret (mkHealth (match o with inl e => healthFor e | inr _ => Healthy end) (toISOString now) STALE_AFTER_MS).

Definition flink_fetch : prog FAns (result string (AdapterMetadata * option string * AdapterHealth)) :=
  await m := getMetadata in await v := getVersion in await h := getHealth in Ret (inr (m, v, h)).

Definition FlinkAdapter : ServiceAdapter FAns := mkAdapter FLINK_SERVICE_ID "Flink" TFlink 1 flink_fetch.

Definition FlinkPipelineAdapter : PipelineAdapter FAns := mkPipelineAdapter listPipelines getPipeline.
End flink.
