(* ===== verification/FlinkProofs.v ===== *)
(** * What the Flink adapter shows, and what it asks for *)

From S2P Require Import Prelude JsBase JsRegex JsText JsJson JsLib Effects HttpClient Config Services Correlation Pipeline Kube KubeProofs Flink.
From Stdlib Require Import Ascii.
From Stdlib Require String.
Open Scope Z_scope.
Open Scope prog_scope.

(** ** Links between unlabelled entities *)

Section unlabelled.
Context (es : list CorrelationEntity) (Hl : forall e, e ∈ es -> en_labels e = []).

Local Abbreviation sorted := (js_sort (fun a b => byCodePoint (en_id a) (en_id b)) es).

Lemma unlabelled_ids rule : declared_ids rule sorted = [].
Proof.
  unfold declared_ids. apply set_of_nil. destruct (map _ _) as [|i l] eqn:E; [done|].
  assert (i ∈ i :: l) as Hi by left. rewrite <-E in Hi. apply elem_of_map in Hi as (e & He & _).
  apply elem_of_filterb in He as [[He _]%elem_of_kind Hd]. apply elem_of_js_sort in He.
  unfold declares in Hd. by rewrite (Hl e He) in Hd.
Qed.

Lemma unlabelled_pairs rule s t :
  (s, t) ∈ pairs rule sorted <->
  s ∈ es /\ t ∈ es /\ en_kind s = ru_sourceKind rule /\ en_kind t = ru_targetKind rule /\
  ru_key rule t = ru_key rule s /\ ru_key rule s <> EmptyString.
Proof.
  assert (forall side k e, e ∈ eligible rule side sorted (of_kind k sorted) <-> e ∈ es /\ en_kind e = k) as He.
  { intros side k e. unfold eligible. rewrite unlabelled_ids, elem_of_filterb, elem_of_kind, elem_of_js_sort.
    rewrite (bool_decide_eq_false_2 (en_id e ∈ [])) by apply not_elem_of_nil. rewrite andb_false_r. tauto. }
  unfold pairs. rewrite elem_of_flat_map. split.
  - intros (s' & [Hs Hk]%He & H). destruct (String.eqb_spec (ru_key rule s') EmptyString); [by apply not_elem_of_nil in H|].
    apply elem_of_map in H as (t' & [[Ht Hkt]%He Hkey%String.eqb_eq]%elem_of_filterb & [= -> ->]). done.
  - intros (Hs & Ht & Hks & Hkt & Hkey & Hn). exists s. split; [by apply He|].
    destruct (String.eqb_spec (ru_key rule s) EmptyString); [done|]. apply elem_of_map. exists t.
    rewrite elem_of_filterb, He, String.eqb_eq. done.
Qed.

Lemma unlabelled_link l :
  l ∈ correlate es ->
  exists rule s t a, rule ∈ RULES /\ (s, t) ∈ pairs rule sorted /\ l = name_link rule a s t.
Proof.
  unfold correlate. rewrite elem_of_js_sort, elem_of_flat_map. intros (rule & Hr & [Hd|Hn]%elem_of_app).
  - apply elem_of_flat_map in Hd as (o & [Ho _]%elem_of_kind & Hd). apply elem_of_js_sort in Ho.
    unfold declared_links in Hd. rewrite (Hl o Ho) in Hd. by apply not_elem_of_nil in Hd.
  - apply elem_of_map in Hn as ([s t] & Hp & ->). eauto 10.
Qed.

Lemma unlabelled_linked rule s t :
  rule ∈ RULES -> (s, t) ∈ pairs rule sorted -> exists a, name_link rule a s t ∈ correlate es.
Proof.
  intros Hr Hp. eexists. unfold correlate. apply elem_of_js_sort, elem_of_flat_map. exists rule. split; [done|].
  apply elem_of_app. right. apply elem_of_map. by exists (s, t).
Qed.
End unlabelled.

(** ** Sink tables *)

(** The text starts with a sink: the word, blanks, and the longest run of the characters
    of a table name. *)
Definition sink_at (s ws table post : string) : Prop :=
  s = "IcebergSink" +:+ ws +:+ table +:+ post /\ ws <> EmptyString /\ str_all is_space ws = true /\
  table <> EmptyString /\ str_all table_char table = true /\
  match post with String a _ => table_char a = false | EmptyString => True end.

(** The tables a name of a vertex mentions, from left to right; a mention starts after the
    end of the one before. *)
Inductive names_sinks : string -> list string -> Prop :=
| no_more : names_sinks EmptyString []
| sink_here s ws table post l : sink_at s ws table post -> names_sinks post l -> names_sinks s (table :: l)
| not_here a s l : (forall ws table post, ~ sink_at (String a s) ws table post) -> names_sinks s l ->
    names_sinks (String a s) l.

Lemma str_ascii_inv l : String.list_ascii_of_string (String.string_of_list_ascii l) = l.
Proof. apply String.list_ascii_of_string_of_list_ascii. Qed.

Lemma ascii_str_app a b : String.string_of_list_ascii (a ++ b) = String.string_of_list_ascii a +:+ String.string_of_list_ascii b.
Proof. induction a as [|x a IH]; [done|]. cbn. by rewrite IH. Qed.

Lemma run_Chr {A} p a s c (k : list ascii -> caps -> option A) : run (Chr p) (a :: s) c k = if p a then k s c else None.
Proof. done. Qed.

(** A greedy star before something that always matches takes all it can. *)
Lemma star_takes_all {A} p (k : list ascii -> caps -> option A) :
  (forall s c, k s c <> None) -> forall n s c, (length s <= n)%nat ->
  exists u v, s = u ++ v /\ forallb p u = true /\ match v with b :: _ => p b = false | [] => True end /\
    star true (fun s c k => run (Chr p) s c k) k n s c = k v c.
Proof.
  intros Hk n. induction n as [|n IH]; intros s c Hn.
  - destruct s as [|b s]; [|cbn in Hn; lia]. by exists [], [].
  - destruct s as [|b s]; [by exists [], []|]. cbn [star]. rewrite run_Chr. destruct (p b) eqn:Eb.
    + rewrite (proj2 (Nat.ltb_lt _ _)) by (simpl; lia). destruct (IH s c) as (u & v & -> & Hu & Hv & ->); [cbn in Hn; lia|].
      exists (b :: u), v. cbn. rewrite Eb. split_and!; [done|done|done|]. by pose proof (Hk v c); destruct (k v c).
    + by exists [], (b :: s).
Qed.

Lemma run_of_table s c rest c' :
  run (Grp 1 (Plus (Chr table_char))) s c (fun rest c => Some (rest, c)) = Some (rest, c') ->
  exists table, s = table ++ rest /\ table <> [] /\ forallb table_char table = true /\
    match rest with b :: _ => table_char b = false | [] => True end /\ c' = (1%nat, table) :: c.
Proof.
  destruct s as [|a s]; [done|]. unfold Plus. cbn [run]. destruct (table_char a) eqn:Ea; [|done].
  destruct (star_takes_all table_char (fun s' c' => Some (s', (1%nat, take (length (a :: s) - length s') (a :: s)) :: c'))
    ltac:(done) (length s) s c (le_n _)) as (u & v & Es & Hu & Hv & E).
  cbn [run] in E. rewrite E. intros [= -> <-]. subst s.
  exists (a :: u). cbn [forallb]. rewrite Ea. split_and!; [done|done|done|done|]. do 2 f_equal. apply (take_prefix (a :: u)).
Qed.

Lemma run_sink s rest c :
  run ICEBERG_SINK s [] (fun rest c => Some (rest, c)) = Some (rest, c) ->
  exists ws table, sink_at (String.string_of_list_ascii s) ws table (String.string_of_list_ascii rest) /\ capture 1 c = Some table /\
    (length rest < length s)%nat.
Proof.
  unfold ICEBERG_SINK. cbn [run]. intros (s1 & s2 & c1 & -> & [-> ->]%matches_lit & H2)%run_sound.
  apply run_sound in H2 as (w & s4 & c2 & -> & (Hw & Hws & ->)%matches_Plus_Chr & H3).
  apply run_of_table in H3 as (t & -> & Ht & Hts & Hr & ->). exists (String.string_of_list_ascii w), (String.string_of_list_ascii t).
  split_and!; [|done|rewrite !length_app; cbn; lia]. unfold sink_at, str_all. rewrite !str_ascii_inv, !ascii_str_app, String.string_of_list_ascii_of_string.
  split_and!; [done|by destruct w|done|by destruct t|done|by destruct rest].
Qed.

Lemma matches_chars p s rest c : s <> [] -> forallb p s = true -> matches (Plus (Chr p)) s rest c c.
Proof.
  destruct s as [|a s]; [done|]. cbn. intros _ [Ha Hs]%andb_prop. apply (m_cat _ _ [a] s rest c c c); [by constructor|].
  by apply matches_Star_Chr.
Qed.

Lemma matches_word w rest c : matches (lit w) (String.list_ascii_of_string w) rest c c.
Proof.
  induction w as [|a w IH]; [constructor|]. apply (m_cat _ _ [a] (String.list_ascii_of_string w) rest c c c); [|exact IH].
  constructor. by apply Ascii.eqb_eq.
Qed.

Lemma run_no_sink s ws table post :
  run ICEBERG_SINK s [] (fun rest c => Some (rest, c)) = None -> ~ sink_at (String.string_of_list_ascii s) ws table post.
Proof.
  intros Hr (E & Hw & Hws & Ht & Hts & _). revert Hr. rewrite <-(str_ascii_inv s), E, !str_ascii_app. rewrite !app_assoc.
  set (w := String.list_ascii_of_string ws). set (t := String.list_ascii_of_string table). rewrite <-!app_assoc.
  rewrite (app_assoc (String.list_ascii_of_string "IcebergSink")), (app_assoc _ t), <-(app_assoc _ w).
  apply (run_complete _ _ _ _ [(1%nat, t)]); [|done]. apply (m_cat _ _ _ _ _ _ []); [apply matches_word|].
  apply (m_cat _ _ w t _ _ []); [apply matches_chars; [by destruct ws|done]|]. constructor.
  apply matches_chars; [by destruct table|done].
Qed.

Lemma sinks_of_exact name : names_sinks name (sinks_of name).
Proof.
  unfold sinks_of, matchAll. rewrite <-(String.string_of_list_ascii_of_string name) at 1.
  assert (length (String.list_ascii_of_string name) < S (String.length name))%nat as Hl.
  { assert (length (String.list_ascii_of_string name) = String.length name) as ->; [|lia].
    clear. induction name as [|a n IH]; [done|]. cbn. by rewrite IH. }
  revert Hl. generalize (S (String.length name)) (String.list_ascii_of_string name). intros n.
  induction n as [|n IH]; intros s Hn; [lia|]. cbn [match_all].
  destruct (run ICEBERG_SINK s [] _) as [[rest c]|] eqn:E.
  - apply run_sink in E as (ws & table & Hs & Hc & Hlt). cbn [omap list_omap]. rewrite Hc.
    eapply sink_here; [exact Hs|]. apply IH. lia.
  - destruct s as [|a s]; [constructor|]. apply not_here; [intros ws table post; exact (run_no_sink (a :: s) ws table post E)|]. apply IH. cbn in Hn. lia.
Qed.

(** The tables are those the names of the vertices mention, each once. *)
Definition sink_tables (d : option FlinkJobDetail) (tables : list string) : Prop :=
  NoDup tables /\
  forall t, t ∈ tables <-> exists det v l, d = Some det /\ v ∈ fd_vertices det /\ names_sinks v.1 l /\ t ∈ l.

(** A run of characters of a class that is followed by none of them ends in one place. *)
Lemma span_unique p u v u' v' :
  u +:+ v = u' +:+ v' -> str_all p u = true -> str_all p u' = true ->
  (match v with String a _ => p a = false | EmptyString => True end) ->
  (match v' with String a _ => p a = false | EmptyString => True end) -> u = u' /\ v = v'.
Proof.
  unfold str_all. revert u'. induction u as [|a u IH]; intros [|b u'] E Hu Hu' Hv Hv'; cbn in Hu, Hu'; rewrite ?str_app_nil_l, ?str_app_cons in E; [done|..].
  - rewrite E in Hv. apply andb_prop in Hu' as [Hb _]. cbn in Hv. by rewrite Hv in Hb.
  - rewrite <-E in Hv'. apply andb_prop in Hu as [Ha _]. cbn in Hv'. by rewrite Hv' in Ha.
  - injection E as -> E. apply andb_prop in Hu as [_ Hu], Hu' as [_ Hu']. by destruct (IH u' E Hu Hu' Hv Hv') as [-> ->].
Qed.

Lemma table_not_space a : table_char a = true -> is_space a = false.
Proof. by destruct a as [[] [] [] [] [] [] [] []]. Qed.

Lemma sink_at_unique s ws t post ws' t' post' : sink_at s ws t post -> sink_at s ws' t' post' -> t = t' /\ post = post'.
Proof.
  intros (-> & _ & Hw & Ht & Hts & Hp) (E & _ & Hw' & Ht' & Hts' & Hp'). apply str_app_inj in E.
  assert (forall t post, t <> EmptyString -> str_all table_char t = true ->
    match t +:+ post with String a _ => is_space a = false | EmptyString => True end) as Hf.
  { intros [|a r] q; [done|]. unfold str_all. cbn. intros _ [Ha _]%andb_prop. by apply table_not_space. }
  destruct (span_unique is_space _ _ _ _ E Hw Hw' (Hf _ _ Ht Hts) (Hf _ _ Ht' Hts')) as [_ Et].
  exact (span_unique table_char _ _ _ _ Et Hts Hts' Hp Hp').
Qed.

Lemma names_sinks_fun s l k : names_sinks s l -> names_sinks s k -> l = k.
Proof.
  intros Hl. revert k. induction Hl as [|s ws table post l Hs Hl IH|a s l Hn Hl IH]; intros k Hk.
  - inversion Hk as [|s ws t post l0 Hs|]; [done|]. by destruct Hs as (? & _).
  - inversion Hk as [|s' ws' t' post' l' Hs' Hl'|a' s' l' Hn']; subst.
    + by destruct Hs as (? & _).
    + destruct (sink_at_unique _ _ _ _ _ _ _ Hs Hs') as [-> ->]. f_equal. by apply IH.
    + by destruct (Hn' _ _ _ Hs).
  - inversion Hk as [|s' ws' t' post' l' Hs' Hl'|]; subst; [by destruct (Hn _ _ _ Hs')|by apply IH].
Qed.

Lemma extractSinkTables_exact d : sink_tables d (extractSinkTables d).
Proof.
  destruct d as [d|]; cbn; [|split; [constructor|intros t; split; [by intros ?%not_elem_of_nil|by intros (? & ? & ? & [=] & _)]]].
  split; [apply NoDup_js_sort, NoDup_set_of|].
  intros t. rewrite elem_of_js_sort, elem_of_set_of, elem_of_flat_map. split.
  - intros (v & Hv & Ht). exists d, v, (sinks_of v.1). auto using sinks_of_exact.
  - intros (det & v & l & [= <-] & Hv & Hl & Ht). exists v. split; [done|].
    by rewrite (names_sinks_fun _ _ _ Hl (sinks_of_exact v.1)) in Ht.
Qed.

(** ** Pipelines *)

Section mapping.
Context `{js : JsLib} `{intl : Intl} (iso_datetime : string -> bool) (config : FlinkAdapterConfig).

(** What a state is shown as, and how its last run ended.  Every state not listed is
    unknown, but those that every object inherits have no reading at all. *)
Inductive state_shown (failed : Z) : string -> HealthStatus -> JobRunResult -> Prop :=
| st_running : failed <= 0 -> state_shown failed "RUNNING" Healthy RunRunning
| st_failed_task : 0 < failed -> state_shown failed "RUNNING" Degraded RunRunning
| st_finished : state_shown failed "FINISHED" Healthy RunSucceeded
| st_failed : state_shown failed "FAILED" Unavailable RunFailed
| st_gone state : state ∈ ["CANCELED"; "SUSPENDED"] -> state_shown failed state Unavailable RunUnknown
| st_troubled state : state ∈ ["RESTARTING"; "FAILING"] -> state_shown failed state Degraded RunUnknown
| st_other state :
    state ∉ ["RUNNING"; "FINISHED"; "FAILED"; "CANCELED"; "SUSPENDED"; "RESTARTING"; "FAILING"] ++ OBJECT_MEMBERS ->
    state_shown failed state Unknown RunUnknown.

Definition failed_tasks (s : FlinkJobSummary) : Z := default 0 (map_get "failed" (fs_tasks s)).

Lemma mapState_shown state tasks h r :
  mapState state tasks = Some (h, r) <-> state_shown (default 0 (map_get "failed" tasks)) state h r.
Proof.
  set (n := default 0 (map_get "failed" tasks)). split.
  - unfold mapState. fold n. destruct (String.eqb_spec state "RUNNING") as [->|Hr]; cbn [andb].
    + destruct (Z.ltb_spec 0 n); intros [= <- <-]; constructor; lia.
    + unfold FLINK_STATE_MAPPING. cbn [map_get].
      repeat (case_decide; [subst; try done; intros [= <- <-];
        first [constructor; set_solver | apply st_other; apply (bool_decide_unpack _); reflexivity]|]).
      case_bool_decide; [done|]. intros [= <- <-]. apply st_other. set_solver.
  - intros [Hn|Hn| | |st Hst|st Hst|st Hst]; unfold mapState; fold n; try done.
    + by rewrite (proj2 (Z.ltb_ge _ _)).
    + by rewrite (proj2 (Z.ltb_lt _ _)).
    + repeat (apply elem_of_cons in Hst as [->|Hst]; [done|]). by apply not_elem_of_nil in Hst.
    + repeat (apply elem_of_cons in Hst as [->|Hst]; [done|]). by apply not_elem_of_nil in Hst.
    + apply not_elem_of_app in Hst as [Hst Ho]. rewrite bool_decide_false by done.
      rewrite !not_elem_of_cons in Hst. destruct Hst as (? & ? & ? & ? & ? & ? & ? & _).
      rewrite (proj2 (String.eqb_neq _ _)) by done. cbn [andb]. unfold FLINK_STATE_MAPPING. cbn [map_get].
      repeat (case_decide; [done|]). done.
Qed.

(** What Flink must have said for a pipeline to look as it does. *)
Record evidenced (s : FlinkJobSummary) (d : option FlinkJobDetail) (p : Pipeline) : Prop := {
  fl_id : pl_id p = pipelineIdFor (fs_jid s) /\ pl_name p = fs_name s;
  fl_status : exists result, state_shown (failed_tasks s) (fs_state s) (pl_status p) result /\
    exists job, pl_jobs p = [job] /\ pj_name job = fs_name s /\
      forall run, pj_lastRun job = Some run -> lr_result run = result /\
        (lr_failureReason run <> None <-> fs_state s ∈ ["RESTARTING"; "FAILING"; "FAILED"]);
  fl_stages : exists tables, sink_tables d tables /\
    pl_stages p = mkStage "svc-flink" TFlink (pl_status p) (Some ("Flink job state " +:+ fs_state s)) ::
      map (fun t => mkStage "svc-iceberg" TIceberg Unknown
        (Some ("Sink table " +:+ t +:+ " reported by the Flink job graph; not verified against the catalog"))) tables;
  fl_links : forall l, l ∈ pl_correlationLinks p ->
    li_relation l = JobWritesTable /\ li_source l = (FlinkJob, "job-flink-" +:+ fs_jid s) /\
    li_method l <> DeclaredLabel /\ li_confidence l <= NAME_CONVENTION_CONFIDENCE /\ (pl_correlation p).1 <= li_confidence l /\
    exists t, t ∈ extractSinkTables d /\ li_target l = (IcebergTable, "table-" +:+ slug t) /\
      lastSegmentKey t = firstSignificantToken (stripPrefix (fs_name s) (fc_jobNamePrefix config));
  fl_linked : forall t, t ∈ extractSinkTables d ->
    lastSegmentKey t = firstSignificantToken (stripPrefix (fs_name s) (fc_jobNamePrefix config)) ->
    lastSegmentKey t <> EmptyString ->
    exists l, l ∈ pl_correlationLinks p /\ li_target l = (IcebergTable, "table-" +:+ slug t);
  fl_inferred : (pl_correlation p).2 = Inferred /\
    ((pl_correlation p).1 = AMBIGUOUS_CONFIDENCE /\ pl_correlationLinks p = [] \/
     exists l, l ∈ pl_correlationLinks p /\ (pl_correlation p).1 = li_confidence l);
}.

Lemma weakest_least links l : l ∈ links -> weakest links <= li_confidence l.
Proof.
  assert (forall rest m x, (x = m \/ exists l, l ∈ rest /\ x = li_confidence l) ->
    foldl (fun m l => Z.min m (li_confidence l)) m rest <= x) as Hf.
  { induction rest as [|l' rest IH]; intros m x; cbn [foldl].
    - intros [->|(l1 & H & _)]; [lia|by apply not_elem_of_nil in H].
    - intros [->|(l1 & [->|H]%elem_of_cons & ->)].
      + etrans; [by apply IH; left|]. lia.
      + etrans; [by apply IH; left|]. lia.
      + apply IH. right. eauto. }
  destruct links as [|l0 rest]; [by intros ?%not_elem_of_nil|]. cbn [weakest].
  intros [->|H]%elem_of_cons; apply Hf; eauto.
Qed.

Lemma weakest_one links : weakest links = AMBIGUOUS_CONFIDENCE /\ links = [] \/ exists l, l ∈ links /\ weakest links = li_confidence l.
Proof.
  destruct links as [|l0 rest]; [by left|]. right. cbn [weakest].
  assert (forall rest m, foldl (fun m l => Z.min m (li_confidence l)) m rest = m \/
    exists l, l ∈ rest /\ foldl (fun m l => Z.min m (li_confidence l)) m rest = li_confidence l) as H.
  { clear. induction rest as [|l rest IH]; intros m; cbn [foldl]; [by left|].
    destruct (IH (Z.min m (li_confidence l))) as [->|(l' & Hl & ->)]; [|right; exists l'; split; [by right|done]].
    destruct (Z.min_spec m (li_confidence l)) as [[_ ->]|[_ ->]]; [by left|right; exists l; split; [left|done]]. }
  destruct (H rest (li_confidence l0)) as [->|(l & Hl & ->)]; [exists l0|exists l]; split; try done; [left|by right].
Qed.

Section job.
Context (s : FlinkJobSummary) (sinks : list string).
Local Abbreviation es := (job_entity config s :: map table_entity sinks).
Local Abbreviation writes := (mkRule JobWritesTable FlinkJob IcebergTable OnSource "beluga.io/sink-table"
  (fun e => if decide (en_kind e = IcebergTable) then lastSegmentKey (en_name e) else firstSignificantToken (en_name e))).

Lemma job_unlabelled e : e ∈ es -> en_labels e = [].
Proof. intros [->|(t & _ & ->)%elem_of_map]%elem_of_cons; done. Qed.

Lemma job_pairs rule x y :
  rule ∈ RULES -> (x, y) ∈ pairs rule (js_sort (fun a b => byCodePoint (en_id a) (en_id b)) es) ->
  rule = writes /\ x = job_entity config s /\ exists t, t ∈ sinks /\ y = table_entity t /\
    lastSegmentKey t = firstSignificantToken (stripPrefix (fs_name s) (fc_jobNamePrefix config)).
Proof.
  intros Hr (Hx & Hy & Hkx & Hky & Hk & _)%(unlabelled_pairs _ job_unlabelled).
  apply elem_of_cons in Hx as [->|(tx & _ & ->)%elem_of_map];
    apply elem_of_cons in Hy as [->|(t & Ht & ->)%elem_of_map];
    repeat (apply elem_of_cons in Hr as [->|Hr]; [try (cbn in Hkx, Hky; discriminate)|]); try by apply not_elem_of_nil in Hr.
  split; [done|]. split; [done|]. exists t. split_and!; [done|done|]. exact Hk.
Qed.

Lemma job_links_sound l :
  l ∈ job_links config s sinks ->
  li_relation l = JobWritesTable /\ li_source l = (FlinkJob, "job-flink-" +:+ fs_jid s) /\
  li_method l <> DeclaredLabel /\ li_confidence l <= NAME_CONVENTION_CONFIDENCE /\
  exists t, t ∈ sinks /\ li_target l = (IcebergTable, "table-" +:+ slug t) /\
    lastSegmentKey t = firstSignificantToken (stripPrefix (fs_name s) (fc_jobNamePrefix config)).
Proof.
  intros (l0 & (rule & x & y & a & Hr & Hp & ->)%(unlabelled_link _ job_unlabelled) & ->)%elem_of_map.
  apply (job_pairs rule x y Hr) in Hp as (-> & -> & t & Ht & -> & Hk).
  cbn. split_and!; [done|done|by destruct a|by destruct a|]. exists t. done.
Qed.

Lemma job_links_complete t :
  t ∈ sinks -> lastSegmentKey t = firstSignificantToken (stripPrefix (fs_name s) (fc_jobNamePrefix config)) ->
  lastSegmentKey t <> EmptyString ->
  exists l, l ∈ job_links config s sinks /\ li_target l = (IcebergTable, "table-" +:+ slug t).
Proof.
  intros Ht Hk Hn. destruct (unlabelled_linked es writes (job_entity config s) (table_entity t)) as [a Ha].
  - right. left.
  - apply (unlabelled_pairs _ job_unlabelled). split_and!; [left| |done|done| |].
    + right. apply elem_of_map. by exists t.
    + exact Hk.
    + intros E. apply Hn. by rewrite Hk.
  - eexists. split; [apply elem_of_map; eexists; split; [exact Ha|reflexivity]|]. done.
Qed.
End job.

Lemma pipeline_evidenced now s d p : pipeline_of config now s d = Some p -> evidenced s d p.
Proof.
  unfold pipeline_of. destruct (mapState (fs_state s) (fs_tasks s)) as [[h r]|] eqn:Em; [|done]. intros [= <-].
  apply mapState_shown in Em. split.
  - done.
  - exists r. split; [exact Em|]. eexists. split_and!; [done|done|]. intros run (i & _ & ->)%fmap_Some.
    split; [done|]. cbn [lr_failureReason]. by case_bool_decide.
  - exists (extractSinkTables d). split; [apply extractSinkTables_exact|done].
  - intros l Hl. pose proof (job_links_sound _ _ _ Hl) as (H1 & H2 & H3 & H4 & H5).
    split_and!; [done..| |done]. by apply weakest_least.
  - intros t. apply job_links_complete.
  - split; [done|]. apply weakest_one.
Qed.

Lemma parse_pipeline_Some c p : parse_pipeline iso_datetime c = Some p <-> c = Some p /\ pipelineSchema iso_datetime p = true.
Proof.
  unfold parse_pipeline. destruct c as [q|]; cbn; [|naive_solver]. destruct (pipelineSchema iso_datetime q) eqn:E; naive_solver congruence.
Qed.

Lemma buildPipelines_elem inputs now p :
  p ∈ (buildPipelines iso_datetime config inputs now).1 <->
  exists s d, (s, d) ∈ inputs /\ pipeline_of config now s d = Some p /\ pipelineSchema iso_datetime p = true.
Proof.
  cbn. rewrite elem_of_js_sort, list_elem_of_omap. setoid_rewrite elem_of_map. split.
  - intros (c & ([s d] & Hi & ->) & Hp%parse_pipeline_Some). eauto 10.
  - intros (s & d & Hi & Hp). eexists. split; [exists (s, d); by split|]. by apply parse_pipeline_Some.
Qed.

Lemma omap_split {A} (l : list (option A)) :
  (length (omap id l) + length (List.filter (fun p => match p with None => true | Some _ => false end) l) = length l)%nat.
Proof. induction l as [|[x|] l IH]; cbn; lia. Qed.

(** C29: Every job becomes one pipeline or is counted as skipped, and a pipeline shows
    what Flink said: its health and the result of its run are those of the state of the job,
    in every state; its stages are the job and then exactly the tables that the names of the
    vertices of its graph mention, whatever the state of the vertices, each once and never
    called healthy; its links are inferred ones from this job to those tables, where the
    names agree, all of them there and none above the confidence of a name; its own
    confidence is that of its weakest link; nothing is passed off as declared. *)
Theorem pipelines_are_evidence inputs now p :
  let built := buildPipelines iso_datetime config inputs now in
  (length built.1 + built.2 = length inputs)%nat /\
  (p ∈ built.1 -> exists s d, (s, d) ∈ inputs /\ evidenced s d p).
Proof.
  split.
  - cbn. by rewrite length_js_sort, omap_split, length_map.
  - intros (s & d & Hi & Hp%pipeline_evidenced & _)%buildPipelines_elem. by exists s, d.
Qed.

(** A job in a state that every object inherits has no pipeline. *)
Lemma inherited_state now s d : fs_state s = "constructor" -> pipeline_of config now s d = None.
Proof. intros E. unfold pipeline_of. by rewrite E. Qed.

End mapping.

(** ** Requests *)

Section adapter.
Context `{js : JsLib} `{intl : Intl} (iso_datetime : string -> bool) (config : FlinkAdapterConfig).

(** The requests of a run, by their URL. *)
Definition urls (t : trace FAns) : list string := omap (fun c => match c with Did (FGet url) _ => Some url | _ => None end) t.

(** A slot or the network failed for a reason that may be gone in a moment. *)
Definition failed_for_now (c : call FAns) : Prop :=
  match c with
  | Did FSlot SlotAborted | Did FSlot SlotFull | Did (FGet _) FetchAborted | Did (FGet _) FetchFailed => True
  | _ => False
  end.

(** A run of one request: no slot, or the request, its answer and the slot back. *)
Definition one_request {A} (path : string) (schema : json -> option A) (t : trace FAns) (out : result FlinkClientError A) : Prop :=
  (exists s, t = [Did FSlot s] /\ s <> SlotGranted /\ exists e, out = inl e /\ transient e = true) \/
  (exists o, t = [Did FSlot SlotGranted; Did (FGet (fc_baseUrl config +:+ path)) o; Did FRelease tt] /\
     out = flink_answer config path schema o).

Lemma runs_flink_get {A} path (schema : json -> option A) t out :
  runs (flink_get config path schema) t out -> one_request path schema t out.
Proof.
  unfold flink_get. destruct t as [|c t]; [done|]. intros (s & -> & H). destruct s.
  - destruct t as [|c t]; [done|]. destruct H as (o & -> & H). destruct t as [|c t]; [done|].
    destruct H as ([] & -> & [-> ->]). right. by exists o.
  - destruct H as [-> ->]. left. exists SlotAborted. split_and!; [done|done|]. by eexists.
  - destruct H as [-> ->]. left. exists SlotFull. split_and!; [done|done|]. by eexists.
Qed.

Lemma answer_transient {A} path (schema : json -> option A) o :
  failed_for_now (Did (FGet path) o) -> exists e, flink_answer config path schema o = inl e /\ transient e = true.
Proof. destruct o; [by eexists|by eexists|done]. Qed.

(** A request of its own kind, or none when the budget is spent. *)
Lemma runs_job_detail s t out :
  test JID (fs_jid s) = true -> runs (job_detail config s) t out ->
  (t = [Did FAborted true] /\ exists e, out = inl e /\ transient e = true) \/
  (exists u, t = Did FAborted false :: u /\ one_request ("/jobs/" +:+ fs_jid s) flinkJobDetailSchema u out).
Proof.
  intros Hj. unfold job_detail. destruct t as [|c t]; [done|]. intros ([] & -> & H); cbn in H.
  - destruct H as [-> ->]. left. split; [done|]. by eexists.
  - right. exists t. split; [done|]. unfold getJob in H. rewrite Hj in H. by apply runs_flink_get.
Qed.

Lemma one_request_urls {A} path (schema : json -> option A) t out :
  one_request path schema t out -> urls t = [] \/ urls t = [fc_baseUrl config +:+ path].
Proof. intros [(s & -> & Hs & _)|(o & -> & _)]; [left|right]; done. Qed.

Lemma one_request_transient {A} path (schema : json -> option A) t out c :
  one_request path schema t out -> c ∈ t -> failed_for_now c -> exists e, out = inl e /\ transient e = true.
Proof.
  intros [(s & -> & Hs & He)|(o & -> & ->)] Hc Hf; [done|].
  apply elem_of_cons in Hc as [->|Hc]; [done|]. apply elem_of_cons in Hc as [->|Hc]; [by apply answer_transient|].
  apply list_elem_of_singleton in Hc as ->. done.
Qed.

Lemma mapM_elem {A B} (f : A -> option B) l k b : mapM f l = Some k -> b ∈ k -> exists a, a ∈ l /\ f a = Some b.
Proof.
  revert k. induction l as [|a l IH]; intros k; cbn; [intros [= <-] ?%not_elem_of_nil; done|].
  destruct (f a) as [b'|] eqn:E; [|done]. cbn. destruct (mapM f l) as [k'|]; [|done]. intros [= <-] [->|H]%elem_of_cons.
  - exists a. split; [left|done].
  - destruct (IH k' eq_refl H) as (a' & Ha & Hf). exists a'. split; [by right|done].
Qed.

Lemma summary_jid j s : flinkJobSummarySchema j = Some s -> test JID (fs_jid s) = true.
Proof.
  unfold flinkJobSummarySchema, jid_of. destruct (field j "jid") as [[| | |i| |]|]; try done.
  destruct (test JID i) eqn:E; [|done]. cbn. intros H.
  repeat match type of H with (?x ≫= _) = Some _ => destruct x; [cbn in H|discriminate H] end.
  by injection H as <-.
Qed.

(** The summaries of an overview have the identifiers of jobs. *)
Lemma answer_jids path o summaries s :
  flink_answer config path flinkJobsOverviewSchema o = inr summaries -> s ∈ summaries -> test JID (fs_jid s) = true.
Proof.
  unfold flink_answer. destruct o as [| |r]; try done. destruct (negb _); [done|].
  destruct (flink_text config path r) as [|text]; [done|]. cbn. destruct (JSON_parse text) as [j|]; [|done].
  destruct (flinkJobsOverviewSchema j) as [l|] eqn:E; [|done]. intros [= <-] Hs. unfold flinkJobsOverviewSchema in E.
  destruct (as_array (field j "jobs")) as [k|]; [|done]. cbn in E.
  destruct (mapM_elem _ _ _ _ E Hs) as (x & _ & Hx). by apply (summary_jid x).
Qed.

(** *** A build *)

Definition incomplete_ids (outcomes : list (FlinkJobSummary * result FlinkClientError FlinkJobDetail)) : list string :=
  omap (fun p => (fun _ => pipelineIdFor (fs_jid p.1)) <$> failed p.2) outcomes.

(** The jobs that were asked about, each with what the answer to it was. *)
Definition asked (selected : list FlinkJobSummary) (outcomes : list (result FlinkClientError FlinkJobDetail))
    (ts : list (trace FAns)) : Prop :=
  length ts = length selected /\ length outcomes = length selected /\
  forall k s, selected !! k = Some s -> exists u o, ts !! k = Some u /\ outcomes !! k = Some o /\ runs (job_detail config s) u o.

Lemma runs_build t snap ttl :
  runs (buildSnapshot iso_datetime config) t (snap, ttl) ->
  (exists t1 e line w, one_request "/jobs/overview" flinkJobsOverviewSchema t1 (inl e) /\ t = t1 ++ [Did (FLog line) tt] /\
     snap = mkPipelines [] [w] [] /\ lw_code w = "UPSTREAM_UNAVAILABLE" /\ ttl = ttl_of config [e] 0) \/
  (exists t1 summaries ts outcomes t3 now partial,
     one_request "/jobs/overview" flinkJobsOverviewSchema t1 (inr summaries) /\
     asked (take MAX_JOBS summaries) outcomes ts /\ t = t1 ++ concat ts ++ t3 /\
     (forall c, c ∈ t3 -> match c with Did FAborted _ | Did FNow _ => True | _ => False end) /\
     (forall w, w ∈ partial -> lw_code w = "PARTIAL") /\
     let built := buildPipelines iso_datetime config (zip (take MAX_JOBS summaries) (map succeeded outcomes)) now in
     snap = mkPipelines built.1 (truncated_warning (length summaries) ++ partial ++ invalid_warning built.2)
              (incomplete_ids (zip (take MAX_JOBS summaries) outcomes)) /\
     ttl = ttl_of config (omap failed outcomes) built.2).
Proof.
  unfold buildSnapshot. intros (t1 & t2 & o & -> & H1%runs_flink_get & H2)%runs_bind. destruct o as [e|summaries].
  - left. destruct t2 as [|c t2]; [done|]. destruct H2 as ([] & -> & [-> [= -> ->]]).
    do 4 eexists. split_and!; [exact H1|done|done|done|done].
  - right. apply runs_bind in H2 as (t3 & t4 & outcomes & -> & (ts & -> & Hl & Hk & Hi)%runs_all_of & H2).
    apply runs_bind in H2 as (t5 & t6 & partial & -> & H5 & H6). destruct t6 as [|c t6]; [done|].
    destruct H6 as (now & -> & [-> [= -> ->]]).
    exists t1, summaries, ts, outcomes, (t5 ++ [Did FNow now]), now, partial.
    assert ((forall c, c ∈ t5 -> exists a, c = Did FAborted a) /\ (forall w, w ∈ partial -> lw_code w = "PARTIAL")) as [H3 Hp].
    { destruct (omap _ (zip _ outcomes)); cbn in H5.
      - destruct H5 as [-> ->]. by split; intros ? ?%not_elem_of_nil.
      - destruct t5 as [|c t5]; [done|]. destruct H5 as (a & -> & [-> ->]).
        split; intros x ->%list_elem_of_singleton; [by exists a|done]. }
    split_and!; [exact H1|done|done| |exact Hp|done|done].
    intros c [(a & ->)%H3| ->%list_elem_of_singleton]%elem_of_app; done.
Qed.

(** Whatever is true of the calls of every part is true of the calls of the build. *)
Lemma asked_calls selected outcomes ts c :
  asked selected outcomes ts -> c ∈ concat ts ->
  exists k s u o, selected !! k = Some s /\ outcomes !! k = Some o /\ ts !! k = Some u /\ c ∈ u /\ runs (job_detail config s) u o.
Proof.
  intros (Hl & Hk & Hi) (u & Hu%list_elem_of_In & Hc%list_elem_of_In)%list_elem_of_In%in_concat.
  apply list_elem_of_lookup in Hu as [k Hu]. destruct (lookup_lt_is_Some_2 selected k) as [s Hs].
  { rewrite <-Hl. by eapply lookup_lt_Some. }
  destruct (Hi k s Hs) as (u' & o & Hu' & Ho & Hr). rewrite Hu in Hu'. injection Hu' as <-. eauto 10.
Qed.

(** Slots taken and not given back. *)
Definition balance (t : trace FAns) : Z :=
  foldr (fun c n => match c with Did FSlot SlotGranted => n + 1 | Did FRelease _ => n - 1 | _ => n end) 0 t.

Lemma balance_app t u : balance (t ++ u) = balance t + balance u.
Proof.
  unfold balance. induction t as [|c t IH]; cbn [app foldr]; [lia|]. rewrite IH.
  destruct c as [[] r]; cbn; try lia. destruct r; lia.
Qed.

Lemma urls_app t u : urls (t ++ u) = urls t ++ urls u.
Proof. apply omap_app. Qed.

Lemma one_request_balance {A} path (schema : json -> option A) t out : one_request path schema t out -> balance t = 0.
Proof. intros [(s & -> & Hs & _)|(o & -> & _)]; [by destruct s|done]. Qed.

Lemma job_detail_run s t out :
  test JID (fs_jid s) = true -> runs (job_detail config s) t out ->
  balance t = 0 /\ (urls t = [] \/ urls t = [fc_baseUrl config +:+ "/jobs/" +:+ fs_jid s]) /\
  ((exists c, c ∈ t /\ failed_for_now c) -> exists e, out = inl e /\ transient e = true).
Proof.
  intros Hj [(-> & e & -> & He)|(u & -> & Hu)]%runs_job_detail; [|..|done].
  - split_and!; [done|by left|]. intros (c & ->%list_elem_of_singleton & Hc). done.
  - split_and!; [by apply (one_request_balance _ _ _ _ Hu)|by apply (one_request_urls _ _ _ _ Hu)|].
    intros (c & [->|Hc]%elem_of_cons & Hf); [done|]. by eapply one_request_transient.
Qed.

Lemma parts_bound (ts : list (trace FAns)) :
  (forall u, u ∈ ts -> balance u = 0 /\ (length (urls u) <= 1)%nat) ->
  balance (concat ts) = 0 /\ (length (urls (concat ts)) <= length ts)%nat.
Proof.
  induction ts as [|u ts IH]; intros H; [by cbn; split; [|lia]|]. cbn [concat].
  rewrite balance_app, urls_app, length_app. cbn [length].
  destruct (H u) as [Hb Hu]; [left|]. destruct IH as [IHb IHu]; [intros v Hv; apply H; by right|]. lia.
Qed.

(** Calls that ask nobody. *)
Lemma quiet t :
  (forall c, c ∈ t -> match c with Did FAborted _ | Did FNow _ | Did (FLog _) _ => True | _ => False end) ->
  urls t = [] /\ balance t = 0 /\ forall c, c ∈ t -> ~ failed_for_now c.
Proof.
  intros H. split_and!.
  - induction t as [|c t IH]; [done|]. pose proof (H c ltac:(left)) as Hc. destruct c as [[] r]; try done; cbn; apply IH; intros; apply H; by right.
  - induction t as [|c t IH]; [done|]. pose proof (H c ltac:(left)) as Hc. destruct c as [[] r]; try done; cbn; apply IH; intros; apply H; by right.
  - intros c Hc Hf. specialize (H c Hc). by destruct c as [[] r].
Qed.

Lemma ttl_of_bounds errors skipped :
  0 <= fc_cacheTtlMs config ->
  0 <= ttl_of config errors skipped <= fc_cacheTtlMs config /\
  (errors <> [] \/ skipped <> 0%nat -> ttl_of config errors skipped <= NEGATIVE_TTL_CAP_MS) /\
  (forall e, e ∈ errors -> transient e = true -> ttl_of config errors skipped = 0).
Proof.
  intros Hc. unfold ttl_of, NEGATIVE_TTL_CAP_MS. destruct (existsb transient errors) eqn:Et.
  - split_and!; lia || done.
  - assert (forall e, e ∈ errors -> transient e = false) as Hf.
    { intros e He. destruct (transient e) eqn:E; [|done]. assert (existsb transient errors = true) as X; [|congruence].
      apply existsb_exists. exists e. by rewrite <-list_elem_of_In. }
    split; [case_match; lia|]. split; [|intros e He Ht; rewrite (Hf e He) in Ht; done].
    intros Hn. case_match eqn:E; [lia|]. apply orb_false_iff in E as [E1 E2]. exfalso. destruct Hn as [Hn|Hn].
    + destruct errors as [|e errors]; [done|]. cbn in E1. rewrite (Hf e) in E1 by left. done.
    + apply Nat.ltb_ge in E2. lia.
Qed.

Lemma omap_failed_nil (selected : list FlinkJobSummary) outcomes :
  omap failed outcomes = [] -> incomplete_ids (zip selected outcomes) = [].
Proof.
  unfold incomplete_ids. revert selected. induction outcomes as [|o outcomes IH]; intros [|s selected]; try done.
  cbn. destruct o; cbn; [done|]. apply IH.
Qed.

(** The part of a build that asks about the jobs. *)
Lemma jobs_asked o summaries outcomes ts :
  flink_answer config "/jobs/overview" flinkJobsOverviewSchema o = inr summaries ->
  asked (take MAX_JOBS summaries) outcomes ts ->
  balance (concat ts) = 0 /\ (length (urls (concat ts)) <= MAX_JOBS)%nat /\
  (forall u, u ∈ urls (concat ts) -> exists jid, test JID jid = true /\ u = fc_baseUrl config +:+ "/jobs/" +:+ jid) /\
  ((exists c, c ∈ concat ts /\ failed_for_now c) -> exists e, e ∈ omap failed outcomes /\ transient e = true).
Proof.
  intros Ho Ha. set (selected := take MAX_JOBS summaries) in *.
  assert (forall k u, ts !! k = Some u -> exists s o, outcomes !! k = Some o /\
    runs (job_detail config s) u o /\ test JID (fs_jid s) = true) as Hpart.
  { intros k u Hu. destruct Ha as (Hl & _ & Hi). destruct (lookup_lt_is_Some_2 selected k) as [s Hs].
    { rewrite <-Hl. by eapply lookup_lt_Some. }
    destruct (Hi k s Hs) as (u' & out & Hu' & Hout & Hr). rewrite Hu in Hu'. injection Hu' as <-.
    exists s, out. split_and!; [done..|]. eapply answer_jids; [exact Ho|].
    apply list_elem_of_lookup_2 in Hs. unfold selected in Hs. rewrite <-(take_drop MAX_JOBS summaries). set_solver. }
  destruct (parts_bound ts) as [Hbal Hlen].
  { intros u [k Hu]%list_elem_of_lookup. destruct (Hpart k u Hu) as (s & out & _ & Hr & Hjs).
    destruct (job_detail_run _ _ _ Hjs Hr) as (Hb0 & Hu0 & _). split; [done|]. destruct Hu0 as [->| ->]; cbn; lia. }
  split_and!; [done|destruct Ha as (E & _); unfold selected in E; rewrite length_take in E; lia|..].
  - intros u (c & Hin & Hcu)%list_elem_of_omap.
    destruct (asked_calls _ _ _ _ Ha Hin) as (k & _ & u' & _ & _ & _ & Hu' & Hcin & _).
    destruct (Hpart k u' Hu') as (s & out & _ & Hr & Hjs). destruct (job_detail_run _ _ _ Hjs Hr) as (_ & Hu0 & _).
    assert (u ∈ urls u') as Hin' by (apply list_elem_of_omap; eauto).
    destruct Hu0 as [Hu0|Hu0]; rewrite Hu0 in Hin'; [by apply not_elem_of_nil in Hin'|].
    apply list_elem_of_singleton in Hin' as ->. eauto.
  - intros (c & Hin & Hf). destruct (asked_calls _ _ _ _ Ha Hin) as (k & _ & u' & _ & _ & _ & Hu' & Hcin & _).
    destruct (Hpart k u' Hu') as (s & out & Hout & Hr & Hjs). destruct (job_detail_run _ _ _ Hjs Hr) as (_ & _ & Hf0).
    destruct (Hf0 ltac:(eauto)) as (e & -> & He). exists e. split; [|done]. apply list_elem_of_omap.
    exists (inl e). split; [by eapply list_elem_of_lookup_2|done].
Qed.

(** Building a snapshot is bounded and polite: at most one overview and a hundred
    jobs are asked for, by those URLs and no other, and every slot taken is given
    back.  The result is kept no longer than the time to live; at most a second when
    any answer was bad; not at all when a slot or the network failed for now. *)
Theorem build_is_bounded t snap ttl :
  0 <= fc_cacheTtlMs config -> runs (buildSnapshot iso_datetime config) t (snap, ttl) ->
  (length (urls t) <= S MAX_JOBS)%nat /\
  (forall u, u ∈ urls t -> u = fc_baseUrl config +:+ "/jobs/overview" \/
     exists jid, test JID jid = true /\ u = fc_baseUrl config +:+ "/jobs/" +:+ jid) /\
  balance t = 0 /\ 0 <= ttl <= fc_cacheTtlMs config /\
  (ps_incompletePipelineIds snap <> [] -> ttl <= NEGATIVE_TTL_CAP_MS) /\
  ((exists c, c ∈ t /\ failed_for_now c) -> ttl = 0).
Proof.
  intros Hc [(t1 & e & line & w & H1 & -> & -> & Hw & ->)|(t1 & summaries & ts & outcomes & t3 & now & partial & H1 & Ha & -> & H3 & Hp & -> & ->)]%runs_build.
  - destruct (ttl_of_bounds [e] 0 Hc) as (Hb & _ & Hz). rewrite urls_app, balance_app, (one_request_balance _ _ _ _ H1).
    destruct (quiet [Did (FLog line) tt]) as (-> & -> & Hq); [by intros c ->%list_elem_of_singleton|].
    rewrite app_nil_r. pose proof (one_request_urls _ _ _ _ H1) as Hu.
    split_and!; [destruct Hu as [->| ->]; cbn; lia| |lia|lia|lia|done|].
    + intros u Hin. destruct Hu as [Hu|Hu]; rewrite Hu in Hin; [by apply not_elem_of_nil in Hin|].
      apply list_elem_of_singleton in Hin as ->. by left.
    + intros (c & [Hin|Hin]%elem_of_app & Hf); [|by apply Hq in Hin].
      destruct (one_request_transient _ _ _ _ _ H1 Hin Hf) as (e' & [= <-] & He). apply (Hz e); [left|done].
  - set (selected := take MAX_JOBS summaries) in *. set (skipped := (buildPipelines _ _ _ _).2).
    destruct (ttl_of_bounds (omap failed outcomes) skipped Hc) as (Hb & Hn & Hz).
    assert (exists o, flink_answer config "/jobs/overview" flinkJobsOverviewSchema o = inr summaries) as [o Ho].
    { destruct H1 as [(? & _ & _ & ? & [=] & _)|(o & _ & Ho)]. by exists o. }
    destruct (jobs_asked o _ _ _ Ho Ha) as (Hbal & Hlen & Hform & Hfail).
    destruct (quiet t3) as (Eu3 & Eb3 & Hq). { intros c Hin. specialize (H3 c Hin). by destruct c as [[] ?]. }
    rewrite !urls_app, !balance_app, Eu3, Eb3, Hbal, (one_request_balance _ _ _ _ H1), app_nil_r, length_app.
    pose proof (one_request_urls _ _ _ _ H1) as Hu1.
    split_and!; [destruct Hu1 as [->| ->]; cbn [length]; lia| |lia|lia|lia|..].
    + intros u [Hin|Hin]%elem_of_app; [|by right; apply Hform].
      destruct Hu1 as [Hu1|Hu1]; rewrite Hu1 in Hin; [by apply not_elem_of_nil in Hin|].
      apply list_elem_of_singleton in Hin as ->. by left.
    + cbn [ps_incompletePipelineIds]. intros Hin. apply Hn. left. intros E. by apply Hin, omap_failed_nil.
    + intros (c & [Hin|[Hin|Hin]%elem_of_app]%elem_of_app & Hf); [| |by apply Hq in Hin].
      * by destruct (one_request_transient _ _ _ _ _ H1 Hin Hf) as (e' & ? & _).
      * destruct Hfail as (e & He & Ht); [eauto|]. by apply (Hz e).
Qed.

(** *** One pipeline *)

Lemma find_elem {A} (f : A -> bool) l x : List.find f l = Some x -> x ∈ l /\ f x = true.
Proof. intros [H Hf]%find_some. by rewrite list_elem_of_In. Qed.

Lemma zip_lookup {A B} (l : list A) (k : list B) x y : (x, y) ∈ zip l k -> exists n, l !! n = Some x /\ k !! n = Some y.
Proof.
  revert k. induction l as [|a l IH]; intros [|b k]; cbn; try by intros ?%not_elem_of_nil.
  intros [[= -> ->]|H]%elem_of_cons; [by exists 0%nat|]. destruct (IH k H) as [n Hn]. by exists (S n).
Qed.

(** The failed job of an identifier that is marked incomplete. *)
Lemma incomplete_elem selected outcomes i :
  i ∈ incomplete_ids (zip selected outcomes) <->
  exists k s e, selected !! k = Some s /\ outcomes !! k = Some (inl e) /\ i = pipelineIdFor (fs_jid s).
Proof.
  unfold incomplete_ids. rewrite list_elem_of_omap. split.
  - intros ([s o] & Hin & Ho). destruct o as [e|d]; [|done]. injection Ho as <-.
    apply zip_lookup in Hin as (k & Hs & Ho). eauto 10.
  - intros (k & s & e & Hs & Ho & ->). exists (s, inl e). split; [|done].
    eapply list_elem_of_lookup_2, (lookup_zip_with_Some pair). eauto 10.
Qed.

Lemma no_upstream_warning n partial skipped :
  (forall w, w ∈ partial -> lw_code w = "PARTIAL") ->
  existsb (has_code "UPSTREAM_UNAVAILABLE") (truncated_warning n ++ partial ++ invalid_warning skipped) = false.
Proof.
  intros Hp. rewrite !existsb_app. unfold truncated_warning, invalid_warning.
  assert (existsb (has_code "UPSTREAM_UNAVAILABLE") partial = false) as ->.
  { induction partial as [|w l IH]; [done|]. cbn. unfold has_code at 1. rewrite (Hp w) by left. cbn.
    apply IH. intros v Hv. apply Hp. by right. }
  by destruct (MAX_JOBS <? n)%nat, (0 <? skipped)%nat.
Qed.

Definition read_overview (t : trace FAns) (summaries : list FlinkJobSummary) : Prop :=
  exists o, Did (FGet (fc_baseUrl config +:+ "/jobs/overview")) o ∈ t /\
    flink_answer config "/jobs/overview" flinkJobsOverviewSchema o = inr summaries.

Definition read_detail (t : trace FAns) (jid : string) (det : FlinkJobDetail) : Prop :=
  exists o, Did (FGet (fc_baseUrl config +:+ "/jobs/" +:+ jid)) o ∈ t /\
    flink_answer config ("/jobs/" +:+ jid) flinkJobDetailSchema o = inr det.

Lemma detail_read s u det :
  test JID (fs_jid s) = true -> runs (job_detail config s) u (inr det) -> read_detail u (fs_jid s) det.
Proof.
  intros Hj [(_ & e & [=] & _)|(v & -> & Hv)]%runs_job_detail; [|done].
  destruct Hv as [(? & _ & _ & ? & [=] & _)|(o & -> & Ho)]. exists o. split; [|done]. right. right. left.
Qed.

Lemma read_overview_jid t summaries s : read_overview t summaries -> s ∈ summaries -> test JID (fs_jid s) = true.
Proof. intros (o & _ & Ho). by eapply answer_jids. Qed.

(** The answer about one pipeline is never half of it.  A pipeline that is
    returned is the one asked for, made from a job of the overview and from the
    detail Flink gave for that job; "not found" means that the overview was read and
    that every job with the identifier, among those that are shown, was skipped by
    the schema; in every other case the source is called unavailable, and then the
    overview was not read or the detail of that very job was not. *)
Theorem lookup_is_complete t snap ttl i :
  runs (buildSnapshot iso_datetime config) t (snap, ttl) ->
  let r := lookup_in snap i in
  match lk_pipeline r with
  | Some p =>
      lk_unavailable r = false /\ pl_id p = i /\
      exists summaries s det now, read_overview t summaries /\ s ∈ summaries /\ i = pipelineIdFor (fs_jid s) /\
        read_detail t (fs_jid s) det /\ pipeline_of config now s (Some det) = Some p
  | None =>
      if lk_unavailable r then
        (exists t1 e, one_request "/jobs/overview" flinkJobsOverviewSchema t1 (inl e) /\ forall c, c ∈ t1 -> c ∈ t) \/
        (exists summaries s u e, read_overview t summaries /\ s ∈ summaries /\ i = pipelineIdFor (fs_jid s) /\
           runs (job_detail config s) u (inl e) /\ forall c, c ∈ u -> c ∈ t)
      else
        exists summaries now, read_overview t summaries /\
          forall s, s ∈ take MAX_JOBS summaries -> pipelineIdFor (fs_jid s) = i ->
            exists d, parse_pipeline iso_datetime (pipeline_of config now s d) = None
  end.
Proof.
  intros [(t1 & e & line & w & H1 & -> & -> & Hw & ->)|(t1 & summaries & ts & outcomes & t3 & now & partial & H1 & Ha & -> & H3 & Hp & -> & ->)]%runs_build r.
  - assert (r = mkLookup None [w] true) as ->.
    { unfold r, lookup_in. cbn. unfold has_code. by rewrite Hw. }
    cbn. left. exists t1, e. split; [done|]. set_solver.
  - assert (read_overview (t1 ++ concat ts ++ t3) summaries) as Hr.
    { destruct H1 as [(? & _ & _ & ? & [=] & _)|(o & -> & Ho)]. exists o. split; [set_solver|done]. }
    set (selected := take MAX_JOBS summaries) in *.
    assert (forall s, s ∈ selected -> s ∈ summaries) as Hsel.
    { intros s Hs. unfold selected in Hs. rewrite <-(take_drop MAX_JOBS summaries). set_solver. }
    assert (forall k u, ts !! k = Some u -> forall c, c ∈ u -> c ∈ t1 ++ concat ts ++ t3) as Hin.
    { intros k u Hu c Hc. apply elem_of_app. right. apply elem_of_app. left. apply list_elem_of_In, in_concat.
      exists u. split; [apply list_elem_of_In; by eapply list_elem_of_lookup_2|by apply list_elem_of_In]. }
    unfold r, lookup_in. cbn [ps_warnings ps_pipelines ps_incompletePipelineIds]. rewrite (no_upstream_warning _ _ _ Hp).
    destruct Ha as (_ & Hout & Hat). destruct (List.find _ _) as [p|] eqn:Ef.
    + apply find_elem in Ef as [(s & d & (k & Hs & Hd)%zip_lookup & Hp' & _)%buildPipelines_elem Hid%String.eqb_eq].
      assert (pipelineIdFor (fs_jid s) = i) as Hid' by (rewrite <-Hid; symmetry; by apply (pipeline_evidenced iso_datetime) in Hp' as [[? _] _ _ _ _ _]).
      case_bool_decide as Hi; cbn.
      * apply incomplete_elem in Hi as (k' & s' & e & Hs' & Ho' & ->). right.
        destruct (Hat k' s' Hs') as (u & o & Hu & Ho & Hrun). pose proof (eq_trans (eq_sym Ho) Ho') as [= ->].
        exists summaries, s', u, e. split_and!; [done|by eapply Hsel, list_elem_of_lookup_2|done|done|by apply (Hin k')].
      * split; [done|]. split; [done|]. destruct (Hat k s Hs) as (u & o & Hu & Ho & Hrun).
        rewrite list_lookup_fmap in Hd. pose proof (eq_trans (eq_sym Hd) (f_equal (fmap succeeded) Ho)) as [= ->].
        destruct o as [e|det].
        { exfalso. apply Hi, incomplete_elem. exists k, s, e. split_and!; [done|done|]. by rewrite <-Hid'. }
        exists summaries, s, det, now. assert (s ∈ summaries) as Hss by (by eapply Hsel, list_elem_of_lookup_2).
        split_and!; [done|done|done| |exact Hp'].
        destruct (detail_read _ _ _ (read_overview_jid _ _ _ Hr Hss) Hrun) as (o & Hc & Ha). exists o. split; [|done].
        by apply (Hin k u).
    + cbn. exists summaries, now. split; [done|]. intros s [k Hs]%list_elem_of_lookup Hid.
      destruct (Hat k s Hs) as (u & o & _ & Ho & _). exists (succeeded o).
      destruct (parse_pipeline iso_datetime (pipeline_of config now s (succeeded o))) as [p|] eqn:Eq; [exfalso|done].
      apply parse_pipeline_Some in Eq as [Eq Hsch].
      assert (p ∈ (buildPipelines iso_datetime config (zip selected (map succeeded outcomes)) now).1) as Hp'.
      { apply buildPipelines_elem. exists s, (succeeded o). split_and!; [|done|done].
        eapply list_elem_of_lookup_2, (lookup_zip_with_Some pair). exists s, (succeeded o). split_and!; [done|exact Hs|].
        rewrite list_lookup_fmap, Ho. done. }
      apply list_elem_of_In in Hp'. pose proof (find_none _ _ Ef _ Hp') as Hf. cbn in Hf.
      apply (pipeline_evidenced iso_datetime) in Eq as [[Ei _] _ _ _ _ _]. by rewrite Ei, Hid, String.eqb_refl in Hf.
Qed.
End adapter.

(** ** The cache *)

Section cache.
Context {V : Type}.

(** What happens to one cache, in the order of time; a promise that is started is
    loading until it resolves or rejects, and settled until its callbacks ran. *)
Record Flights := mkFlights { fl_cache : FlightCache V; fl_loading : list nat; fl_settled : list nat; fl_log : list (V * Z * Z) }.

Inductive flight_step : Flights -> Flights -> Prop :=
| flight_hit now x v : flight_get now (fl_cache x) = (fl_cache x, Hit v) -> flight_step x x
| flight_join now x p : flight_get now (fl_cache x) = (fl_cache x, Joined p) -> flight_step x x
| flight_start now x c p :
    flight_get now (fl_cache x) = (c, Started p) ->
    flight_step x (mkFlights c (p :: fl_loading x) (fl_settled x) (fl_log x))
| flight_resolves now x p v ttl :
    p ∈ fl_loading x ->
    flight_step x (mkFlights (flight_loaded now v ttl (fl_cache x)) (splice p (fl_loading x)) (p :: fl_settled x)
                     ((v, now, ttl) :: fl_log x))
| flight_rejects x p :
    p ∈ fl_loading x ->
    flight_step x (mkFlights (fl_cache x) (splice p (fl_loading x)) (p :: fl_settled x) (fl_log x))
| flight_cleared x p :
    p ∈ fl_settled x ->
    flight_step x (mkFlights (flight_clear p (fl_cache x)) (fl_loading x) (splice p (fl_settled x)) (fl_log x)).

Definition no_flights : Flights := mkFlights (mkFlight None None 0) [] [] [].

(** One load at a time, and the entry is the value of the last one that resolved. *)
Definition flights_ok (x : Flights) : Prop :=
  fl_loading x ++ fl_settled x = match ca_inflight (fl_cache x) with Some p => [p] | None => [] end /\
  ca_entry (fl_cache x) = (fun e : V * Z * Z => (e.1.1, e.1.2 + e.2)) <$> head (fl_log x).

(** The promise that is loading or settled is the one in flight. *)
Lemma flight_of x p :
  flights_ok x ->
  (p ∈ fl_loading x -> ca_inflight (fl_cache x) = Some p /\ fl_loading x = [p] /\ fl_settled x = []) /\
  (p ∈ fl_settled x -> ca_inflight (fl_cache x) = Some p /\ fl_loading x = [] /\ fl_settled x = [p]).
Proof.
  intros [Hf _]. destruct (ca_inflight (fl_cache x)) as [q|], (fl_loading x) as [|r [|r' l]], (fl_settled x) as [|t [|t' k]];
    cbn in Hf; try done; simplify_eq; split; intros Hp; try (by apply not_elem_of_nil in Hp);
    by apply list_elem_of_singleton in Hp as ->.
Qed.

Lemma flights_step x y : flights_ok x -> flight_step x y -> flights_ok y.
Proof.
  intros H Hs. destruct Hs as [now x v Hg|now x p Hg|now x c p Hg|now x p v ttl Hp|x p Hp|x p Hp]; [done|done|..];
    try (apply (flight_of _ p) in Hp as (Eq & El & Es); [|done]); pose proof H as [Hf He]; unfold flights_ok.
  - assert (ca_inflight (fl_cache x) = None /\ c = mkFlight (ca_entry (fl_cache x)) (Some p) (S p)) as [En ->].
    { unfold flight_get in Hg. destruct (ca_inflight (fl_cache x)), (ca_entry (fl_cache x)) as [[v e]|];
        try destruct (now <? e); simplify_eq; done. }
    rewrite En in Hf. apply app_nil in Hf as [Hl Hse]. cbn. by rewrite Hl, Hse.
  - cbn. by rewrite Eq, El, Es; cbn; rewrite decide_True.
  - cbn. by rewrite Eq, El, Es; cbn; rewrite decide_True.
  - cbn. by rewrite Eq, El, Es; cbn; rewrite bool_decide_true, decide_True.
Qed.

(** Whatever comes in whatever order, one load is in flight at most, and a value
    that is served from the cache is that of the last load that resolved, within the
    time to live it was given; so a failure that was given none is never served
    again while the clock does not go back. *)
Theorem cache_is_fresh x now v :
  rtc flight_step no_flights x -> flight_get now (fl_cache x) = (fl_cache x, Hit v) ->
  (length (fl_loading x) <= 1)%nat /\ exists at_ ttl, head (fl_log x) = Some (v, at_, ttl) /\ now < at_ + ttl.
Proof.
  intros Hr Hg. assert (flights_ok x) as [Hf He].
  { assert (flights_ok no_flights) as H0 by done. revert H0. induction Hr as [x|x y z Hs _ IH]; [done|]. intros H0.
    apply IH; [done|]. by eapply flights_step. }
  split. { destruct (ca_inflight (fl_cache x)), (fl_loading x) as [|? []]; cbn in *; (lia || done). }
  unfold flight_get in Hg. rewrite He in Hg. destruct (head (fl_log x)) as [[[w t0] ttl]|]; cbn in Hg.
  - destruct (Z.ltb_spec now (t0 + ttl)); [injection Hg as ->; eauto|]. by destruct (ca_inflight (fl_cache x)).
  - by destruct (ca_inflight (fl_cache x)).
Qed.
End cache.

(** ** A JobManager with two jobs *)

Definition demo_jid : string := "0123456789abcdef0123456789abcdef".
Definition demo_jid2 : string := "fedcba9876543210fedcba9876543210".

Definition demo_config : FlinkAdapterConfig := mkFlinkConfig "http://flink:8081" 2000 "beluga-" 5000 5000 8 64.

Definition demo_summary_json (jid name state : string) : json :=
  JObj [("jid", JStr jid); ("name", JStr name); ("state", JStr state); ("start-time", JNum 1000); ("end-time", JNum (-1));
        ("last-modification", JNum 2000)].

Definition flink_js : JsLib := {|
  JSON_parse := fun text =>
    if String.eqb text "overview" then
      Some (JObj [("jobs", JArr [demo_summary_json demo_jid "beluga-cdc_orders" "RUNNING"; demo_summary_json demo_jid2 "x" "FAILED"])])
    else if String.eqb text "detail" then
      Some (JObj [("jid", JStr demo_jid); ("state", JStr "RUNNING");
                  ("vertices", JArr [JObj [("name", JStr "Sink: IcebergSink lakekeeper.lake.orders"); ("status", JStr "RUNNING")]])])
    else None;
  Number := fun _ => NaN;
  Date_parse := fun _ => None;
|}.

Definition flink_intl : Intl := {| toISOString := fun _ => "1970-01-01T00:00:02.000Z"; localeCompare := str_cmp |}.

Definition demo_jobmanager (h : trace FAns) (e : FOp) : FAns e :=
  match e as e return FAns e with
  | FNow => 5000
  | FSlot => SlotGranted
  | FGet url =>
      if String.eqb url "http://flink:8081/jobs/overview" then Fetched (mkHttpResponse 200 None (Some (["overview"], StreamDone)))
      else if String.eqb url ("http://flink:8081/jobs/" +:+ demo_jid) then Fetched (mkHttpResponse 200 None (Some (["detail"], StreamDone)))
      else Fetched (mkHttpResponse 404 None None)
  | FAborted => false
  | FOverview => inl (mkFlinkError FUnreachable EmptyString None)
  | FSnapshot => mkPipelines [] [] []
  | FRelease | FLog _ => tt
  end.

Definition demo_build : trace FAns * (PipelineSnapshot * Z) :=
  answer demo_jobmanager [] (@buildSnapshot flink_js flink_intl (fun _ => true) demo_config).

Definition demo_summary : FlinkJobSummary := mkSummary demo_jid "beluga-cdc_orders" "RUNNING" 1000 (-1) 2000 [].
Definition demo_detail : FlinkJobDetail :=
  mkDetail demo_jid "RUNNING" [("Sink: IcebergSink lakekeeper.lake.orders", "RUNNING")].

Lemma demo_build_runs :
  runs (@buildSnapshot flink_js flink_intl (fun _ => true) demo_config) demo_build.1 (demo_build.2.1, demo_build.2.2).
Proof. rewrite <-surjective_pairing. apply answer_runs. Qed.

Lemma pipelines_are_evidence_witness :
  exists p, @pipeline_of flink_intl demo_config 5000 demo_summary (Some demo_detail) = Some p /\
  p ∈ (@buildPipelines flink_intl (fun _ => true) demo_config [(demo_summary, Some demo_detail)] 5000).1 /\
  map li_confidence (pl_correlationLinks p) = [60] /\ length (pl_stages p) = 2%nat /\
  exists s d, (s, d) ∈ [(demo_summary, Some demo_detail)] /\ evidenced demo_config s d p.
Proof.
  destruct (@pipeline_of flink_intl demo_config 5000 demo_summary (Some demo_detail)) as [p|] eqn:E; [|discriminate E].
  exists p. split; [reflexivity|].
  assert (p ∈ (@buildPipelines flink_intl (fun _ => true) demo_config [(demo_summary, Some demo_detail)] 5000).1) as Hp.
  { injection E as <-. vm_compute. left. }
  split; [exact Hp|]. split; [injection E as <-; vm_compute; reflexivity|]. split; [injection E as <-; vm_compute; reflexivity|].
  exact (proj2 (@pipelines_are_evidence flink_intl (fun _ => true) demo_config [(demo_summary, Some demo_detail)] 5000 p) Hp).
Defined.

Lemma build_is_bounded_witness :
  urls demo_build.1 = ["http://flink:8081/jobs/overview"; "http://flink:8081/jobs/" +:+ demo_jid; "http://flink:8081/jobs/" +:+ demo_jid2] /\
  ps_incompletePipelineIds demo_build.2.1 = [pipelineIdFor demo_jid2] /\ demo_build.2.2 = 1000 /\ balance demo_build.1 = 0.
Proof.
  split; [vm_compute; reflexivity|]. split; [vm_compute; reflexivity|]. split; [vm_compute; reflexivity|].
  apply (@build_is_bounded flink_js flink_intl (fun _ => true) demo_config demo_build.1 demo_build.2.1 demo_build.2.2);
    [vm_compute; discriminate|exact demo_build_runs].
Defined.

Lemma lookup_is_complete_witness :
  exists p, lk_pipeline (lookup_in demo_build.2.1 (pipelineIdFor demo_jid)) = Some p /\ pl_id p = pipelineIdFor demo_jid /\
    lk_unavailable (lookup_in demo_build.2.1 (pipelineIdFor demo_jid2)) = true.
Proof.
  eexists. split; [vm_compute; reflexivity|]. split; [|vm_compute; reflexivity].
  exact (proj1 (proj2 (@lookup_is_complete flink_js flink_intl (fun _ => true) demo_config demo_build.1 demo_build.2.1 demo_build.2.2
    (pipelineIdFor demo_jid) demo_build_runs))).
Defined.
