(* ===== verification/GithubApp.v ===== *)
(** * [domain-api/src/sso-change/githubApp.ts]

    The GitHub side of a change request: the transport with its backoff and its
    deadline, the installation token, and the methods of [GitChangeOps].  The
    methods are programs over the calls below.  The fields that the concurrent
    calls of one client share ([retryAt], [token], [tokenInflight]) are read and
    written by calls of their own, so a theorem that holds for every answer holds
    under every interleaving of the methods.  The signature of the JWT, the
    network and the parsers of [JsLib] are parameters. *)

From S2P Require Import Prelude JsBase JsRegex JsText JsJson JsLib SsoEdit Effects SsoPorts.
From Stdlib Require Import Ascii.
From Stdlib Require String.
Open Scope Z_scope.
Open Scope prog_scope.

(** ** Constants *)

Definition hex_lower (a : ascii) : bool := is_digit a || between 97 102 a.
Definition times (n : nat) (r : re) : re := foldr Cat Eps (replicate n r).

Definition BRANCH_RE : re :=
  Cat (Cat (lit "sso/") (Cat (Alt (lit "flink") (lit "filer")) (Cat (lit "-") (times 12 (Chr hex_lower))))) Eol.
Definition SHA_RE : re := Cat (times 40 (Chr hex_lower)) Eol.

Definition GROUPS_FILE_PATH : string := "policies/groups.yaml".
Definition READABLE_PATHS : list string := [SSO_FILE_PATH; GROUPS_FILE_PATH].

Definition DEFAULT_TIMEOUT_MS : Z := 10000.
Definition MAX_BODY_BYTES : Z := 2 * 1024 * 1024.
Definition MAX_BACKOFF_MS : Z := 60 * 60000.
Definition DEFAULT_BACKOFF_MS : Z := 60000.
Definition JWT_BACKDATE_S : Z := 60.
Definition JWT_TTL_S : Z := 540.
Definition TOKEN_REFRESH_MARGIN_MS : Z := 5 * 60000.
Definition MAX_PR_PAGES : nat := 5.

Record GithubTarget := mkTarget { tg_owner : string; tg_repo : string; tg_branch : string }.

Definition SSO_GITHUB_TARGET : GithubTarget := mkTarget "dasomel" "beluga" "main".

Record GithubAppOptions := mkOptions {
  appId : string;
  installationId : string;
  target : option GithubTarget;
  timeoutMs : option Z;
  createDeadlineMs : option Z;
}.

(** ** The calls *)

Record HttpReply := mkHttp {
  h_status : Z;
  h_ratelimit_remaining : option string;
  h_ratelimit_reset : option string;
  h_retry_after : option string;
  h_content_length : option string;
  h_link : option string;
  (** [None]: reading the body fails *)
  h_text : option string;
}.

Inductive FetchResult := FetchTimeout | FetchUnreachable | FetchReply (r : HttpReply).

Inductive Op : Type :=
| HNow
| HLog (line : string)
| HRetryAt
| HSetRetryAt (t : Z)
| HToken
| HSetToken (t : option (string * Z))
(** [this.tokenInflight ??= ...]: [None] when this call is now the one that mints,
    else the outcome of the mint that was in flight: the message of its
    [GithubUnavailableError] ([mintToken] throws nothing else), or the token *)
| HJoinMint
(** the [finally] of the mint *)
| HMinted
| HFetch (method pathAndQuery bearer : string) (body : option json) (timeout : Z).

Definition HAns (e : Op) : Type :=
  match e with
  | HNow | HRetryAt => Z
  | HLog _ | HSetRetryAt _ | HSetToken _ | HMinted => unit
  | HToken => option (string * Z)
  | HJoinMint => option (result string string)
  | HFetch _ _ _ _ _ => FetchResult
  end.

Definition HProg (A : Type) : Type := prog HAns (result Exn A).
Definition hthrow {A} (x : Exn) : HProg A := Ret (inl x).
Definition unavailable {A} (m : string) : HProg A := hthrow (GithubUnavailableError m).
Definition hreturn {A} (a : A) : HProg A := Ret (inr a).

Record Reply := mkReply { r_status : Z; r_json : option json; r_link : option string }.

(** ** Texts *)

Definition b64url (s : string) : string :=
  str_map (fun a =>
    if Ascii.eqb a "+" then "-" else if Ascii.eqb a "/" then "_" else if Ascii.eqb a "=" then EmptyString else str1 a)
    (to_base64 s).

(** [message] and [errors[].message] of an error, joined. *)
Definition errorText (j : option json) : string :=
  let of_error (e : json) :=
    match e with
    | JStr s => s
    | _ => match field e "message" with None | Some JNull => EmptyString | Some v => String_of v end
    end in
  let message := match ofield j "message" with Some (JStr m) => [m] | _ => [] end in
  let errors := match ofield j "errors" with Some (JArr es) => map of_error es | _ => [] end in
  str_take 300 (join " | " (message ++ errors)).

Definition path_encode (path : string) : string := join "/" (map encodeURIComponent (split_char "/" path)).

Section client.
Context `{JsLib} (sign : string -> string) (o : GithubAppOptions).

Definition this_target : GithubTarget := default SSO_GITHUB_TARGET (target o).
Definition this_timeoutMs : Z := default DEFAULT_TIMEOUT_MS (timeoutMs o).
Definition this_createDeadlineMs : Z := default CREATE_PR_DEADLINE_MS (createDeadlineMs o).

Definition signJwt : prog HAns string :=
  await now := perform HNow in
  let nowS := now / 1000 in
  let head := b64url (json_text (JObj [("alg", JStr "RS256"); ("typ", JStr "JWT")])) in
  let payload := b64url (json_text (JObj [("iat", JNum (nowS - JWT_BACKDATE_S)); ("exp", JNum (nowS + JWT_TTL_S));
                                          ("iss", JStr (appId o))])) in
  Ret (head +:+ "." +:+ payload +:+ "." +:+ b64url (sign (head +:+ "." +:+ payload))).

(** ** Transport *)

Definition repoPath (suffix : string) : string :=
  "/repos/" +:+ encodeURIComponent (tg_owner this_target) +:+ "/" +:+ encodeURIComponent (tg_repo this_target) +:+ suffix.

Definition readBody (res : HttpReply) : result Exn string :=
  if num_gt (match h_content_length res with Some s => Number s | None => Fin 0 end) MAX_BODY_BYTES
  then inl (GithubUnavailableError "response-too-large")
  else
    match h_text res with
    | None => inl (GithubUnavailableError "unreachable")
    | Some text =>
        if MAX_BODY_BYTES <? Z.of_nat (String.length text)
        then inl (GithubUnavailableError "response-too-large")
        else inr text
    end.

Definition rate_limited (res : HttpReply) : bool :=
  (h_status res =? 429) || ((h_status res =? 403) && bool_decide (h_ratelimit_remaining res = Some "0")).

Definition header_number (h : option string) : jsnum := match h with Some s => Number s | None => Fin 0 end.

(** The rate limit: [until], and [retryAt] within its bounds. *)
Definition back_off (res : HttpReply) : prog HAns unit :=
  await until :=
    match finite_pos (header_number (h_ratelimit_reset res)) with
    | Some reset => Ret (reset * 1000)
    | None =>
        match finite_pos (header_number (h_retry_after res)) with
        | Some retryAfter => await now := perform HNow in Ret (now + retryAfter * 1000)
        | None => Ret 0
        end
    end in
  await now := perform HNow in
  perform (Ans:=HAns) (HSetRetryAt (Z.min (Z.max until (now + DEFAULT_BACKOFF_MS)) (now + MAX_BACKOFF_MS))).

Definition reply_of (res : HttpReply) (text : string) : Reply :=
  mkReply (h_status res) (if String.eqb text EmptyString then None else JSON_parse text) (h_link res).

(** What [send] makes of an answer. *)
Definition receive (res : HttpReply) : HProg Reply :=
  match readBody res with
  | inl x => hthrow x
  | inr text =>
      if rate_limited res then
        await _ := back_off res in unavailable "rate-limited"
      else if 500 <=? h_status res then unavailable ("http-" +:+ pretty (h_status res))
      else hreturn (reply_of res text)
  end.

(** [deadline]: the store of the asynchronous context, [None] outside
    [createChangePr]. *)
Definition send (deadline : option Z) (method pathAndQuery bearer : string) (body : option json) : HProg Reply :=
  await now := perform HNow in
  await retryAt := perform HRetryAt in
  if now <? retryAt then unavailable "rate-limited"
  else
    await remaining :=
      match deadline with
      | None => Ret None
      | Some d => await now := perform HNow in Ret (Some (d - now))
      end in
    if match remaining with Some r => r <=? 0 | None => false end then unavailable "deadline-exceeded"
    else
      await res := perform (HFetch method pathAndQuery bearer body
        match remaining with Some r => Z.min this_timeoutMs r | None => this_timeoutMs end) in
      match res with
      | FetchTimeout => unavailable "timeout"
      | FetchUnreachable => unavailable "unreachable"
      | FetchReply res => receive res
      end.

Definition mint_path : string := "/app/installations/" +:+ encodeURIComponent (installationId o) +:+ "/access_tokens".

Definition minted_token (res : Reply) : option (string * Z) :=
  match ofield (r_json res) "token", Date_parse (String_opt (ofield (r_json res) "expires_at")) with
  | Some (JStr token), Some expiresAt =>
      if negb (r_status res =? 201) || String.eqb token EmptyString then None else Some (token, expiresAt)
  | _, _ => None
  end.

Definition mintToken (deadline : option Z) : HProg string :=
  await jwt := signJwt in
  attempt res := send deadline "POST" mint_path jwt (Some (JObj [])) in
  match minted_token res with
  | None => unavailable ("installation-token-" +:+ pretty (r_status res))
  | Some (token, expiresAt) =>
      await _ := perform (HSetToken (Some (token, expiresAt - TOKEN_REFRESH_MARGIN_MS))) in
      hreturn token
  end.

Definition mint_or_join (deadline : option Z) : HProg string :=
  await inflight := perform HJoinMint in
  match inflight with
  | Some (inl m) => unavailable m
  | Some (inr token) => hreturn token
  | None =>
      await outcome := mintToken deadline in
      await _ := perform HMinted in
      Ret outcome
  end.

Definition installationToken (deadline : option Z) : HProg string :=
  await token := perform HToken in
  match token with
  | None => mint_or_join deadline
  | Some (value, refreshAt) =>
      await now := perform HNow in
      if now <? refreshAt then hreturn value else mint_or_join deadline
  end.

Definition api (deadline : option Z) (method suffix : string) (body : option json) : HProg Reply :=
  let path := repoPath suffix in
  attempt token := installationToken deadline in
  attempt reply := send deadline method path token body in
  if r_status reply =? 401 then
    await _ := perform (HSetToken None) in
    attempt token := installationToken deadline in
    send deadline method path token body
  else hreturn reply.

(** ** Reads *)

Definition guardBranch (branch : string) : result Exn unit :=
  if test BRANCH_RE branch then inr tt
  else inl (GitWriteError KRejected "branch name is not an allowed sso/* branch").

Definition sha_field (j : option json) (key : string) : option string :=
  match ofield j key with Some (JStr sha) => if test SHA_RE sha then Some sha else None | _ => None end.

Definition findBranch (deadline : option Z) (branch : string) : HProg (option string) :=
  attempt _ := Ret (guardBranch branch) in
  attempt res := api deadline "GET" ("/git/ref/heads/" +:+ path_encode branch) None in
  if r_status res =? 404 then hreturn None
  else
    match sha_field (ofield (r_json res) "object") "sha" with
    | Some sha => if r_status res =? 200 then hreturn (Some sha) else unavailable ("ref-" +:+ pretty (r_status res))
    | None => unavailable ("ref-" +:+ pretty (r_status res))
    end.

Definition toPr (j : option json) : option PrInfo :=
  match ofield j "number", ofield j "html_url", ofield j "state" with
  | Some (JNum number), Some (JStr url), Some (JStr s) =>
      let state := if String.eqb s "open" then Some PrStateOpen else if String.eqb s "closed" then Some PrStateClosed else None in
      match state with
      | None => None
      | Some state =>
          let merged :=
            match ofield j "merged_at", ofield j "merged" with Some (JStr _), _ | _, Some (JBool true) => true | _, _ => false end in
          Some (mkPr number url (as_string (ofield j "created_at") ≫= Date_parse) state merged
                  (if merged then sha_field j "merge_commit_sha" else None))
      end
  | _, _, _ => None
  end.

Definition full_name : string := tg_owner this_target +:+ "/" +:+ tg_repo this_target.

Definition isOurs (j : option json) : bool :=
  match ofield (ofield (ofield j "head") "repo") "full_name" with
  | Some (JStr name) => String.eqb (to_lower name) (to_lower full_name)
  | _ => false
  end.

(** [Date.parse(p.createdAt ?? "") >= notBefore] *)
Definition young (notBefore : option Z) (p : PrInfo) : bool :=
  match notBefore with
  | None => true
  | Some t => match pi_createdAt p with Some c => t <=? c | None => false end
  end.

Definition is_open (p : PrInfo) : bool := bool_decide (pi_state p = PrStateOpen).

Definition our_prs (notBefore : option Z) (l : list json) : list PrInfo :=
  List.filter (young notBefore) (omap (fun p => toPr (Some p)) (List.filter (fun p => isOurs (Some p)) l)).

Definition pick_pr (prs : list PrInfo) : option PrInfo :=
  match List.find is_open prs with Some p => Some p | None => head prs end.

Definition findPrByBranch (deadline : option Z) (branch : string) (notBefore : option Z) : HProg (option PrInfo) :=
  attempt _ := Ret (guardBranch branch) in
  let head := encodeURIComponent (tg_owner this_target +:+ ":" +:+ branch) in
  attempt res := api deadline "GET" ("/pulls?head=" +:+ head +:+ "&state=all&per_page=5") None in
  match r_json res with
  | Some (JArr l) =>
      if r_status res =? 200 then hreturn (pick_pr (our_prs notBefore l))
      else unavailable ("pulls-" +:+ pretty (r_status res))
  | _ => unavailable ("pulls-" +:+ pretty (r_status res))
  end.

(** The pull request of a 200. *)
Definition pr_of (res : Reply) : option PrInfo := if r_status res =? 200 then toPr (r_json res) else None.

Definition getPr (deadline : option Z) (number : Z) : HProg (option PrInfo) :=
  if number <=? 0 then unavailable "invalid-pr-number"
  else
    attempt res := api deadline "GET" ("/pulls/" +:+ pretty number) None in
    if r_status res =? 404 then hreturn None
    else
      match pr_of res with
      | None => unavailable ("pull-" +:+ pretty (r_status res))
      | Some pr => hreturn (if isOurs (r_json res) then Some pr else None)
      end.

Definition compare_status (s : option json) : option CompareStatus :=
  match s with
  | Some (JStr s) =>
      if String.eqb s "identical" then Some Identical else if String.eqb s "ahead" then Some Ahead
      else if String.eqb s "behind" then Some Behind else if String.eqb s "diverged" then Some Diverged else None
  | _ => None
  end.

Definition compare (deadline : option Z) (base head : string) : HProg CompareStatus :=
  if negb (test SHA_RE base) || negb (test SHA_RE head) then unavailable "invalid-sha"
  else
    attempt res := api deadline "GET" ("/compare/" +:+ base +:+ "..." +:+ head +:+ "?per_page=1") None in
    match compare_status (ofield (r_json res) "status") with
    | Some status => if r_status res =? 200 then hreturn status else unavailable ("compare-" +:+ pretty (r_status res))
    | None => unavailable ("compare-" +:+ pretty (r_status res))
    end.

Definition sso_pr (p : json) : option (Z * string) :=
  match field p "number", ofield (field p "head") "ref" with
  | Some (JNum number), Some (JStr ref) => if starts_with "sso/" ref && isOurs (Some p) then Some (number, ref) else None
  | _, _ => None
  end.

Definition has_next (link : option string) : bool :=
  match link with Some l => includes ("rel=" +:+ dq +:+ "next" +:+ dq) l | None => false end.

(** [pages]: how many pages the loop may still ask for; [page] is the next one. *)
Fixpoint list_pages (deadline : option Z) (pages page : nat) (out : list (Z * string)) : HProg (list (Z * string)) :=
  match pages with
  | O => hreturn out
  | S pages' =>
      attempt res := api deadline "GET" ("/pulls?state=open&per_page=100&page=" +:+ pretty (Z.of_nat page)) None in
      match r_json res with
      | Some (JArr l) =>
          if r_status res =? 200 then
            let out := out ++ omap sso_pr l in
            if negb (has_next (r_link res)) then hreturn out
            else
              await _ := if bool_decide (page = MAX_PR_PAGES)
                         then perform (HLog ("[sso-github] open pull request list truncated at " +:+
                                pretty (Z.of_nat MAX_PR_PAGES) +:+ " pages; orphan detection is incomplete"))
                         else Ret tt in
              list_pages deadline pages' (S page) out
          else unavailable ("pulls-" +:+ pretty (r_status res))
      | _ => unavailable ("pulls-" +:+ pretty (r_status res))
      end
  end.

Definition listOpenSsoPrs (deadline : option Z) : HProg (list (Z * string)) := list_pages deadline MAX_PR_PAGES 1 [].

Definition contents_path (path : string) : string := "/contents/" +:+ path_encode path.

(** The file of a 200. *)
Definition contents_of (path : string) (res : Reply) : option (string * string) :=
  match sha_field (r_json res) "sha", ofield (r_json res) "content" with
  | Some sha, Some (JStr content) =>
      if (r_status res =? 200) && bool_decide (as_string (ofield (r_json res) "path") = Some path)
      then Some (sha, from_base64 content) else None
  | _, _ => None
  end.

(** [None]: 404 *)
Definition readContents (deadline : option Z) (path ref : string) : HProg (option (string * string)) :=
  attempt res := api deadline "GET" (contents_path path +:+ "?ref=" +:+ encodeURIComponent ref) None in
  if r_status res =? 404 then hreturn None
  else
    match contents_of path res with
    | Some file => hreturn (Some file)
    | None => unavailable ("contents-" +:+ pretty (r_status res))
    end.

Definition readFile (deadline : option Z) (path ref : string) : HProg (string * string) :=
  if negb (bool_decide (path ∈ READABLE_PATHS)) then unavailable "path-not-readable"
  else
    attempt file := readContents deadline path ref in
    match file with None => unavailable "contents-404" | Some f => hreturn f end.

(** ** Writes *)

Definition closePr (deadline : option Z) (number : Z) : HProg PrInfo :=
  if number <=? 0 then unavailable "invalid-pr-number"
  else
    attempt res := api deadline "PATCH" ("/pulls/" +:+ pretty number) (Some (JObj [("state", JStr "closed")])) in
    match pr_of res with None => unavailable ("close-" +:+ pretty (r_status res)) | Some pr => hreturn pr end.

Definition refuse {A} (reply : Reply) (step : string) : HProg A :=
  hthrow (GitWriteError (if r_status reply =? 409 then KConflict else KRejected)
    (step +:+ " refused (" +:+ pretty (r_status reply) +:+ ")")).

Definition rejected {A} (m : string) : HProg A := hthrow (GitWriteError KRejected m).
Definition conflict {A} (m : string) : HProg A := hthrow (GitWriteError KConflict m).

(** 1. The branch. *)
Definition ensure_branch (deadline : option Z) (i : CreateChangePrInput) : HProg unit :=
  attempt ref := api deadline "POST" "/git/refs"
    (Some (JObj [("ref", JStr ("refs/heads/" +:+ cc_branch i)); ("sha", JStr (cc_baseCommitSha i))])) in
  if r_status ref =? 201 then hreturn tt
  else
    let exists_ := (r_status ref =? 422) && includes_ci "reference already exists" (errorText (r_json ref)) in
    if exists_ then
      attempt b := findBranch deadline (cc_branch i) in
      match b with None => refuse ref "branch" | Some _ => hreturn tt end
    else refuse ref "branch".

(** 2. The file on the branch. *)
Definition ensure_file (deadline : option Z) (i : CreateChangePrInput) : HProg unit :=
  attempt onBranch := readContents deadline (cc_path i) (cc_branch i) in
  match onBranch with
  | None => rejected "sso.yaml is missing on the branch"
  | Some (blobSha, text) =>
      if String.eqb text (cc_content i) then hreturn tt
      else if negb (String.eqb blobSha (cc_baseBlobSha i)) then conflict "branch content changed outside this request"
      else
        attempt put := api deadline "PUT" (contents_path (cc_path i))
          (Some (JObj [("message", JStr (cc_commitMessage i)); ("content", JStr (to_base64 (cc_content i)));
                       ("sha", JStr blobSha); ("branch", JStr (cc_branch i))])) in
        if negb (r_status put =? 200) && negb (r_status put =? 201) then
          if (r_status put =? 409) || (r_status put =? 422) then
            attempt now := readContents deadline (cc_path i) (cc_branch i) in
            if bool_decide (snd <$> now = Some (cc_content i)) then hreturn tt
            else conflict ("content write refused (" +:+ pretty (r_status put) +:+ ")")
          else refuse put "content write"
        else hreturn tt
  end.

(** 3. The pull request. *)
Definition ensure_pr (deadline : option Z) (i : CreateChangePrInput) : HProg CreatedPr :=
  attempt created := api deadline "POST" "/pulls"
    (Some (JObj [("title", JStr (cc_title i)); ("head", JStr (cc_branch i)); ("base", JStr (tg_branch this_target));
                 ("body", JStr (cc_body i)); ("maintainer_can_modify", JBool false)])) in
  if r_status created =? 201 then
    match toPr (r_json created) with
    | None => unavailable "pull-malformed"
    | Some pr => hreturn (mkCreated (pi_number pr) (pi_url pr))
    end
  else if (r_status created =? 422) && includes_ci "pull request already exists" (errorText (r_json created)) then
    attempt existing := findPrByBranch deadline (cc_branch i) (cc_notBefore i) in
    match existing with
    | Some pr => hreturn (mkCreated (pi_number pr) (pi_url pr))
    | None => refuse created "pull request"
    end
  else refuse created "pull request".

Definition createChangePrUnguarded (deadline : option Z) (i : CreateChangePrInput) : HProg CreatedPr :=
  attempt _ := Ret (guardBranch (cc_branch i)) in
  if negb (String.eqb (cc_path i) SSO_FILE_PATH) then rejected "path is not the allowed sso.yaml"
  else if negb (test SHA_RE (cc_baseCommitSha i)) || negb (test SHA_RE (cc_baseBlobSha i)) then rejected "malformed base SHA"
  else
    attempt _ := ensure_branch deadline i in
    attempt _ := ensure_file deadline i in
    ensure_pr deadline i.

Definition git_exn (x : Exn) : Exn :=
  match x with
  | GitWriteError k m => GitWriteError k m
  | GithubUnavailableError m => GitWriteError KUnknown m
  | _ => GitWriteError KUnknown "unexpected error"
  end.

Definition createChangePr (i : CreateChangePrInput) : HProg CreatedPr :=
  await now := perform HNow in
  catch (createChangePrUnguarded (Some (now + this_createDeadlineMs)) i) (fun x => hthrow (git_exn x)).

End client.
