(* ===== verification/GithubSso.v ===== *)
(** * [domain-api/src/adapters/sso/githubSsoAdapter.ts]

    The snapshot of the two files on GitHub that reads and change requests start
    from.  The methods run interleaved and share the fields of the adapter:
    every read or write of a field is a call, and so are the clock, a request and
    joining a refresh that is in flight.  A snapshot is an object: [SnapRef] is a
    reference with its read-only properties, [Cell] holds those that are assigned
    later.  The YAML parser, the URL parser ([EditLib]), [JSON.parse] and
    [Number] ([JsLib]) are parameters. *)
From S2P Require Import Prelude JsBase JsRegex JsText JsJson JsLib PolicyValidate SsoSchema SsoEdit Config.
From S2P Require Import Effects Threads SsoPorts GithubApp.
From Stdlib Require Import Ascii.
From Stdlib Require String.
Open Scope Z_scope.
Open Scope prog_scope.

(** ** Data *)

Definition DEFAULT_TTL_MS : Z := 60000.
Definition DEFAULT_STALE_MAX_MS : Z := 10 * 60000.
Definition MAX_BODY_BYTES : Z := 1024 * 1024.
Definition MAX_BACKOFF_MS : Z := 60 * 60000.

Record GithubSsoAdapterOptions := mkSsoOptions {
  so_target : option (GithubTarget * string);
  so_baseDomain : string;
  so_ttlMs : option Z;
  so_staleMaxMs : option Z;
}.

(** What the adapter throws: a [SsoConfigError] with its message, or with the
    issues its message is made of; a [TransportError]. *)
Inductive Fault :=
| FConfig (m : string)
| FInvalid (where_ : string) (e : ResolveError)
| FTransport (reason : string) (retryAtMs : option Z).

Record SnapRef := mkRef {
  sn_id : nat;
  sn_commitSha : string;
  sn_blobSha : string;
  sn_config : SsoConfig;
  sn_text : string;
}.

#[export] Instance SsoConfig_eq_dec : EqDecision SsoConfig.
Proof. solve_decision. Defined.

#[export] Instance SnapRef_eq_dec : EqDecision SnapRef.
Proof. solve_decision. Defined.

Record Cell := mkCell {
  ce_etag : option string;
  ce_groupNames : option (list string);
  ce_confirmedAt : Z;
}.

(** [SsoResponse] of this adapter: [status], [kind], [repo], [path] and [ref] are
    constants; [stale] is the presence of a reason. *)
Record SsoResponse := mkResponse {
  rs_commitSha : string;
  rs_blobSha : string;
  rs_fetchedAt : Z;
  rs_staleReason : option string;
  rs_config : SsoConfig;
}.

Definition render (snap : SnapRef) (cell : Cell) (staleReason : option string) : SsoResponse :=
  mkResponse (sn_commitSha snap) (sn_blobSha snap) (ce_confirmedAt cell) staleReason (sn_config snap).

(** A response as it arrives; the body is a list of chunks and whether it ends. *)
Record Res := mkRes {
  q_status : Z;
  q_ratelimit_remaining : option string;
  q_ratelimit_reset : option string;
  q_retry_after : option string;
  q_content_length : option string;
  q_etag : option string;
  q_body : option (list string * bool);
}.

Inductive Fetched := NetTimeout | NetUnreachable | NetReply (r : Res).

(** ** The calls *)

Inductive SOp : Type :=
| SNow
| SSnapshot
| SAlloc (commitSha blobSha : string) (config : SsoConfig) (text : string) (cell : Cell)
| SSetSnapshot (snap : SnapRef)
| SRead (snap : SnapRef)
(** [previous.confirmedAt = t; previous.etag = etag ?? previous.etag], and what
    [previous] holds then *)
| SConfirm (snap : SnapRef) (t : Z) (etag : option string)
| SSetGroups (snap : SnapRef) (names : list string)
| SInvalid
| SSetInvalid (v : option (string * Fault))
| SRetryAt
| SSetRetryAt (t : Z)
| SLastFailure
| SSetLastFailure (m : string)
(** [this.inflight ??= ...]: the refresh, and whether this call is the one that runs it *)
| SJoin
| SAwait (g : nat)
| SDone (g : nat) (outcome : result Fault SsoResponse)
| SFetch (url accept : string) (etag : option string).

Definition SAns (e : SOp) : Type :=
  match e with
  | SNow | SRetryAt => Z
  | SSnapshot => option SnapRef
  | SAlloc _ _ _ _ _ => SnapRef
  | SRead _ | SConfirm _ _ _ => Cell
  | SInvalid => option (string * Fault)
  | SLastFailure => string
  | SJoin => nat * bool
  | SAwait _ => result Fault SsoResponse
  | SFetch _ _ _ => Fetched
  | _ => unit
  end.

Definition SProg (A : Type) : Type := prog SAns (result Fault A).
Definition fail {A} (x : Fault) : SProg A := Ret (inl x).
Definition ok_ {A} (a : A) : SProg A := Ret (inr a).
Definition do_ (e : SOp) : prog SAns (SAns e) := perform e.

(** ** The fields *)

Record Fields := mkFields {
  f_heap : list (SnapRef * Cell);
  f_snapshot : option SnapRef;
  f_retryAt : Z;
  f_lastFailure : string;
  f_invalid : option (string * Fault);
  f_inflight : option nat;
  (** the outcomes of the refreshes that were started *)
  f_outcomes : list (option (result Fault SsoResponse));
}.

Definition new_adapter : Fields := mkFields [] None 0 "unavailable" None None [].

Definition set_heap (s : Fields) (h : list (SnapRef * Cell)) : Fields :=
  mkFields h (f_snapshot s) (f_retryAt s) (f_lastFailure s) (f_invalid s) (f_inflight s) (f_outcomes s).

(** The cell a reference points to, and an assignment to it. *)
Definition cell_of (s : Fields) (snap : SnapRef) : option Cell :=
  match f_heap s !! sn_id snap with
  | Some (snap', cell) => if decide (snap' = snap) then Some cell else None
  | None => None
  end.

Definition update_cell (s : Fields) (snap : SnapRef) (f : Cell -> Cell) : Fields :=
  set_heap s (alter (fun rc : SnapRef * Cell => if decide (rc.1 = snap) then (rc.1, f rc.2) else rc) (sn_id snap) (f_heap s)).

(** What a call answers and does to the fields; [None]: the outside answers, or
    the call waits. *)
Definition inner (s : Fields) (e : SOp) : option (SAns e * Fields) :=
  match e as e return option (SAns e * Fields) with
  | SNow | SFetch _ _ _ => None
  | SSnapshot => Some (f_snapshot s, s)
  | SAlloc commitSha blobSha config text cell =>
      let snap := mkRef (length (f_heap s)) commitSha blobSha config text in
      Some (snap, set_heap s (f_heap s ++ [(snap, cell)]))
  | SSetSnapshot snap =>
      Some (tt, mkFields (f_heap s) (Some snap) (f_retryAt s) (f_lastFailure s) (f_invalid s) (f_inflight s) (f_outcomes s))
  | SRead snap => (fun c => (c, s)) <$> cell_of s snap
  | SConfirm snap t etag =>
      (fun c =>
        let c' := mkCell (match etag with Some e => Some e | None => ce_etag c end) (ce_groupNames c) t in
        (c', update_cell s snap (fun _ => c'))) <$> cell_of s snap
  | SSetGroups snap names => Some (tt, update_cell s snap (fun c => mkCell (ce_etag c) (Some names) (ce_confirmedAt c)))
  | SInvalid => Some (f_invalid s, s)
  | SSetInvalid v =>
      Some (tt, mkFields (f_heap s) (f_snapshot s) (f_retryAt s) (f_lastFailure s) v (f_inflight s) (f_outcomes s))
  | SRetryAt => Some (f_retryAt s, s)
  | SSetRetryAt t =>
      Some (tt, mkFields (f_heap s) (f_snapshot s) t (f_lastFailure s) (f_invalid s) (f_inflight s) (f_outcomes s))
  | SLastFailure => Some (f_lastFailure s, s)
  | SSetLastFailure m =>
      Some (tt, mkFields (f_heap s) (f_snapshot s) (f_retryAt s) m (f_invalid s) (f_inflight s) (f_outcomes s))
  | SJoin =>
      match f_inflight s with
      | Some g => Some ((g, false), s)
      | None =>
          let g := length (f_outcomes s) in
          Some ((g, true), mkFields (f_heap s) (f_snapshot s) (f_retryAt s) (f_lastFailure s) (f_invalid s) (Some g)
                             (f_outcomes s ++ [None]))
      end
  | SAwait g => (fun r => (r, s)) <$> mjoin (f_outcomes s !! g)
  | SDone g outcome =>
      Some (tt, mkFields (f_heap s) (f_snapshot s) (f_retryAt s) (f_lastFailure s) (f_invalid s) None
                  (<[g := Some outcome]> (f_outcomes s)))
  end.

Definition outside (e : SOp) : bool := match e with SNow | SFetch _ _ _ => true | _ => false end.

Definition field_act : Fields -> forall e : SOp, SAns e -> Fields -> Prop := act inner outside.

(** ** The methods *)

Section adapter.
Context `{JsLib} `{EditLib} (o : GithubSsoAdapterOptions).

Definition so_path : string := default SSO_FILE_PATH (snd <$> so_target o).
Definition the_target : GithubTarget := default SSO_GITHUB_TARGET (fst <$> so_target o).
Definition ttlMs : Z := default DEFAULT_TTL_MS (so_ttlMs o).
Definition staleMaxMs : Z := default DEFAULT_STALE_MAX_MS (so_staleMaxMs o).
Definition baseDomain : string := so_baseDomain o.

Definition source_unavailable (reason : string) : Fault := FConfig ("GitHub SSO source unavailable (" +:+ reason +:+ ")").

Definition is_config (x : Fault) : bool := match x with FTransport _ _ => false | _ => true end.

Definition repoUrl (suffix : string) : string :=
  "/repos/" +:+ encodeURIComponent (tg_owner the_target) +:+ "/" +:+ encodeURIComponent (tg_repo the_target) +:+ suffix.

(** *** Requests *)

Definition get (url accept : string) (etag : option string) : SProg Res :=
  await res := do_ (SFetch url accept etag) in
  match res with
  | NetTimeout => fail (FTransport "timeout" None)
  | NetUnreachable => fail (FTransport "unreachable" None)
  | NetReply r => ok_ r
  end.

(** The loop over the chunks; [ends]: the stream is not broken. *)
Fixpoint read_stream (size : Z) (text : string) (chunks : list string) (ends : bool) : result Fault string :=
  match chunks with
  | [] => if ends then inr text else inl (FTransport "unreachable" None)
  | value :: chunks' =>
      let size := size + Z.of_nat (String.length value) in
      if MAX_BODY_BYTES <? size then inl (FConfig "GitHub response too large")
      else read_stream size (text +:+ value) chunks' ends
  end.

(** The text of a 200. *)
Definition ok_text (res : Res) : result Fault string :=
  if num_gt (match q_content_length res with Some s => Number s | None => Fin 0 end) MAX_BODY_BYTES
  then inl (FConfig "GitHub response too large")
  else match q_body res with None => inr EmptyString | Some (chunks, ends) => read_stream 0 EmptyString chunks ends end.

Definition res_limited (res : Res) : bool :=
  (q_status res =? 429) || ((q_status res =? 403) && bool_decide (q_ratelimit_remaining res = Some "0")).

Definition readOk (res : Res) : SProg string :=
  if negb (q_status res =? 200) then
    if negb (res_limited res) then fail (FTransport ("http-" +:+ pretty (q_status res)) None)
    else
      await until :=
        match finite_pos (header_number (q_ratelimit_reset res)) with
        | Some reset => Ret (Some (reset * 1000))
        | None =>
            match finite_pos (header_number (q_retry_after res)) with
            | Some retryAfter => await now := do_ SNow in Ret (Some (now + retryAfter * 1000))
            | None => Ret None
            end
        end in
      fail (FTransport "rate-limited" until)
  else Ret (ok_text res).

Definition head_url : string := repoUrl ("/commits/" +:+ encodeURIComponent (tg_branch the_target)).
Definition sha_accept : string := "application/vnd.github.sha".

(** The commit and the etag of the branch head. *)
Definition fetchHead : SProg (string * option string) :=
  await previous := do_ SSnapshot in
  await etag := match previous with
                | Some snap => await cell := do_ (SRead snap) in Ret (ce_etag cell)
                | None => Ret None
                end in
  attempt res := get head_url sha_accept etag in
  match previous, q_status res =? 304 with
  | Some snap, true =>
      await cell := do_ (SRead snap) in ok_ (sn_commitSha snap, ce_etag cell)
  | _, _ =>
      attempt text := readOk res in
      let commitSha := trim text in
      if negb (test SHA_RE commitSha) then fail (FConfig "GitHub returned a malformed commit SHA")
      else ok_ (commitSha, q_etag res)
  end.

Definition contentsSchema (j : json) : option (string * string * string) :=
  match field j "type", field j "encoding", field j "path", field j "sha", field j "content" with
  | Some (JStr t), Some (JStr e), Some (JStr path), Some (JStr sha), Some (JStr content) =>
      if String.eqb t "file" && String.eqb e "base64" && test SHA_RE sha then Some (path, sha, content) else None
  | _, _, _, _, _ => None
  end.

(** The blob and the text in the body of a contents answer. *)
Definition contents_in (filePath body : string) : result Fault (string * string) :=
  match JSON_parse body with
  | None => inl (FConfig "GitHub contents response is not JSON")
  | Some j =>
      match contentsSchema j with
      | Some (path, sha, content) =>
          if String.eqb path filePath then inr (sha, from_base64 content)
          else inl (FConfig "GitHub contents response is not the expected file")
      | None => inl (FConfig "GitHub contents response is not the expected file")
      end
  end.

Definition file_url (filePath commitSha : string) : string :=
  repoUrl ("/contents/" +:+ path_encode filePath +:+ "?ref=" +:+ encodeURIComponent commitSha).
Definition json_accept : string := "application/vnd.github+json".

Definition fetchContents (filePath commitSha : string) : SProg (string * string) :=
  attempt res := get (file_url filePath commitSha) json_accept None in
  attempt body := readOk res in
  Ret (contents_in filePath body).

(** The configuration in a text. *)
Definition config_in (commitSha text : string) : result Fault SsoConfig :=
  match yamlParse text with
  | None => inl (FConfig ("Malformed YAML in " +:+ so_path +:+ " at " +:+ commitSha))
  | Some raw =>
      match resolveSsoFile parseUrl raw baseDomain with
      | inl e => inl (FInvalid (so_path +:+ " at " +:+ commitSha) e)
      | inr config => inr config
      end
  end.

Definition fetchFile (commitSha : string) : SProg (string * SsoConfig * string) :=
  attempt (blobSha, yamlText) := fetchContents so_path commitSha in
  match config_in commitSha yamlText with
  | inl x => fail x
  | inr config => ok_ (blobSha, config, yamlText)
  end.

(** *** Refreshing *)

Definition degraded (reason : string) : SProg SsoResponse :=
  await invalid := do_ SInvalid in
  match invalid with
  | Some (_, error) => fail error
  | None =>
      await previous := do_ SSnapshot in
      match previous with
      | None => fail (source_unavailable reason)
      | Some snap =>
          await now := do_ SNow in
          await cell := do_ (SRead snap) in
          if now - ce_confirmedAt cell <=? staleMaxMs then ok_ (render snap cell (Some reason))
          else fail (source_unavailable reason)
      end
  end.

(** The body of the [try]. *)
Definition refresh_try : SProg SsoResponse :=
  attempt (headSha, headEtag) := fetchHead in
  await invalid := do_ SInvalid in
  attempt _ :=
    match invalid with
    | Some (c, error) =>
        if String.eqb c headSha then fail error else await _ := do_ (SSetInvalid None) in ok_ tt
    | None => ok_ tt
    end in
  await _ := do_ (SSetRetryAt 0) in
  await previous := do_ SSnapshot in
  let load :=
    await file := fetchFile headSha in
    match file with
    | inl x =>
        await _ := if is_config x then do_ (SSetInvalid (Some (headSha, x))) else Ret tt in fail x
    | inr (blobSha, config, text) =>
        await now := do_ SNow in
        let cell := mkCell headEtag None now in
        await snap := do_ (SAlloc headSha blobSha config text cell) in
        await _ := do_ (SSetSnapshot snap) in
        ok_ (render snap cell None)
    end in
  match previous with
  | None => load
  | Some snap =>
      if String.eqb headSha (sn_commitSha snap) then
        await now := do_ SNow in
        await cell := do_ (SConfirm snap now headEtag) in
        ok_ (render snap cell None)
      else load
  end.

Definition back_off_until (until : option Z) (now : Z) : Z :=
  Z.min (Z.max (default 0 until) (now + ttlMs)) (now + MAX_BACKOFF_MS).

Definition refresh : SProg SsoResponse :=
  catch refresh_try (fun x =>
    match x with
    | FTransport reason until =>
        await now := do_ SNow in
        await _ := do_ (SSetLastFailure reason) in
        await _ := do_ (SSetRetryAt (back_off_until until now)) in
        degraded reason
    | _ =>
        await _ := do_ (SSetLastFailure "invalid-source") in
        await now := do_ SNow in
        await _ := do_ (SSetRetryAt (now + ttlMs)) in
        fail x
    end).

Definition join_refresh : SProg SsoResponse :=
  await (g, start) := do_ SJoin in
  if (start : bool) then
    await outcome := refresh in
    await _ := do_ (SDone g outcome) in
    Ret outcome
  else do_ (SAwait g).

(** *** Reading *)

Definition getSsoConfig : SProg SsoResponse :=
  await snap := do_ SSnapshot in
  await cached :=
    match snap with
    | None => Ret None
    | Some snap =>
        await now := do_ SNow in
        await cell := do_ (SRead snap) in
        Ret (if now - ce_confirmedAt cell <? ttlMs then Some (render snap cell None) else None)
    end in
  match cached with
  | Some response => ok_ response
  | None =>
      await now := do_ SNow in
      await retryAt := do_ SRetryAt in
      if now <? retryAt then
        await reason := do_ SLastFailure in degraded reason
      else join_refresh
  end.

Definition group_fault (x : Exn) : Fault := FConfig (exn_message x).

Definition groups_in (commitSha text : string) : result Fault (list string) :=
  match parseGroupNames text (GROUPS_FILE_PATH +:+ " at " +:+ commitSha) with
  | inl x => inl (group_fault x)
  | inr names => inr names
  end.

(** The group names of a snapshot, fetched once. *)
Definition groupNames (snap : SnapRef) : SProg (list string) :=
  await cell := do_ (SRead snap) in
  match ce_groupNames cell with
  | Some names => ok_ names
  | None =>
      await now := do_ SNow in
      await retryAt := do_ SRetryAt in
      if now <? retryAt then
        await reason := do_ SLastFailure in fail (source_unavailable reason)
      else
        await groups := fetchContents GROUPS_FILE_PATH (sn_commitSha snap) in
        let names :=
          match groups with inl x => inl x | inr (_, text) => groups_in (sn_commitSha snap) text end in
        match names with
        | inr names => await _ := do_ (SSetGroups snap names) in ok_ names
        | inl (FTransport reason until) =>
            await now := do_ SNow in
            await _ := do_ (SSetLastFailure reason) in
            await _ := do_ (SSetRetryAt (back_off_until until now)) in
            fail (source_unavailable reason)
        | inl x =>
            await now := do_ SNow in
            await _ := do_ (SSetLastFailure "invalid-source") in
            await _ := do_ (SSetRetryAt (now + ttlMs)) in
            fail x
        end
  end.

Definition readBase (fresh : bool) : SProg SsoBase :=
  attempt response :=
    if fresh then
      await now := do_ SNow in
      await retryAt := do_ SRetryAt in
      if now <? retryAt then
        await reason := do_ SLastFailure in fail (source_unavailable reason)
      else join_refresh
    else getSsoConfig in
  match rs_staleReason response with
  | Some _ => fail (FConfig "GitHub SSO source is stale or unavailable; refusing to base a change on it")
  | None =>
      await snap := do_ SSnapshot in
      match snap with
      | None => fail (FConfig "GitHub SSO source moved during the read; retry")
      | Some snap =>
          if negb (String.eqb (sn_commitSha snap) (rs_commitSha response))
          then fail (FConfig "GitHub SSO source moved during the read; retry")
          else
            attempt names := groupNames snap in
            ok_ (mkBase (sn_commitSha snap) (sn_blobSha snap) (sn_text snap) baseDomain (sn_config snap) names)
      end
  end.
End adapter.

(** ** [FileSsoAdapter] of domain-api/src/adapters/sso/ssoAdapter.ts

    The source of local development: the two files of a checkout, with the parsed
    file kept while its modification time stays the same. *)
Open Scope result_scope.

Section file_adapter.
Context `{EditLib} `{Host} (config : SsoAdapterConfig).

Definition file_base_domain : string := default DEFAULT_BASE_DOMAIN (sc_baseDomain config).

Definition sso_error {A} (m : string) : result Fault A := inl (FConfig m).

(** [yaml.parse] and [resolveSsoFile] of a text. *)
Definition file_config (filePath : string) (raw : option json) : result Fault SsoConfig :=
  match raw with
  | None => sso_error ("Malformed YAML in SSO configuration file: " +:+ filePath)
  | Some raw =>
      match resolveSsoFile parseUrl raw file_base_domain with
      | inl e => inl (FInvalid filePath e)
      | inr c => inr c
      end
  end.

Definition file_readBase : result Fault SsoBase :=
  match present (sc_filePath config) with
  | None => sso_error "SSO configuration file is not available"
  | Some filePath =>
      if negb (existsSync filePath) then sso_error "SSO configuration file is not available"
      else
        let groupsPath := default (path_beside filePath "../../policies/groups.yaml") (sc_groupsFilePath config) in
        match readFileSync filePath, readFileSync groupsPath with
        | Some text, Some groupsText =>
            let! c := file_config filePath (yamlParse text) in
            let! names := match parseGroupNames groupsText groupsPath with inl x => inl (group_fault x) | inr names => inr names end in
            inr (mkBase "local-file" (gitBlobSha text) text file_base_domain c names)
        | _, _ => sso_error "Failed to read SSO source files"
        end
  end.

Inductive FileAnswer := NotConfigured (message : string) | Configured (path : string) (c : SsoConfig) (loadedAt : Z).

(** [cachedMtimeMs] and [cachedResult] *)
Definition FileCache : Type := option (Z * FileAnswer).

(** A YAML document that is an object (or a list): not [null] and no scalar. *)
Definition is_object (raw : option json) : bool :=
  match raw with Some (JObj _) | Some (JArr _) => true | _ => false end.

(** [mtime]: what [statSync] says, [None] when it throws; [now]: the clock. *)
Definition file_getSsoConfig (cache : FileCache) (mtime : option Z) (now : Z) : FileCache * result Fault FileAnswer :=
  match present (sc_filePath config) with
  | None =>
      (cache, inr (NotConfigured (if sc_isProduction config
        then "SSO configuration file is not configured (SSO_CONFIG_FILE unset in production)"
        else "SSO configuration file not configured")))
  | Some filePath =>
      if negb (existsSync filePath)
      then (cache, inr (NotConfigured ("SSO configuration file not found: " +:+ filePath)))
      else
        match mtime with
        | None => (cache, sso_error ("Failed to stat SSO configuration file: " +:+ filePath))
        | Some mtimeMs =>
            let load :=
              match readFileSync filePath with
              | None => (cache, sso_error ("Failed to read SSO configuration file: " +:+ filePath))
              | Some text =>
                  let raw := yamlParse text in
                  match raw with
                  | Some _ =>
                      if negb (is_object raw)
                      then (cache, sso_error ("SSO configuration file must contain a YAML object: " +:+ filePath))
                      else
                        match file_config filePath raw with
                        | inl e => (cache, inl e)
                        | inr c => let a := Configured filePath c now in (Some (mtimeMs, a), inr a)
                        end
                  | None => (cache, sso_error ("Malformed YAML in SSO configuration file: " +:+ filePath))
                  end
              end in
            match cache with
            | Some (cachedMtimeMs, a) => if cachedMtimeMs =? mtimeMs then (cache, inr a) else load
            | None => load
            end
        end
  end.
End file_adapter.
