(* ===== verification/GithubSsoProofs.v ===== *)
(** * What the SSO source serves

    Under every interleaving of reads, fresh reads and refreshes. *)

From S2P Require Import Prelude JsBase JsRegex JsText JsJson JsLib SsoSchema SsoEdit Effects Threads SsoPorts GithubApp GithubSso.
From Stdlib Require Import Ascii.
From Stdlib Require String.
Open Scope Z_scope.

Section proofs.
Context `{JsLib} `{EditLib} (o : GithubSsoAdapterOptions).

(** ** Facts about the calls of a run *)

Section facts.
Context (F : call SAns -> Prop).

(** GitHub answered with this file at this commit. *)
Definition file_at (path commitSha blobSha text : string) : Prop :=
  exists res body,
    F (Did (SFetch (file_url o path commitSha) json_accept None) (NetReply res)) /\
    q_status res = 200 /\ ok_text res = inr body /\ contents_in path body = inr (blobSha, text).

(** GitHub answered that the head of the branch is this commit, with this etag. *)
Definition head_answer (commitSha : string) (etag : option string) : Prop :=
  exists sent res text,
    F (Did (SFetch (head_url o) sha_accept sent) (NetReply res)) /\
    q_status res = 200 /\ ok_text res = inr text /\ trim text = commitSha /\ q_etag res = etag.

Definition etag_of (commitSha : string) (etag : option string) : Prop :=
  match etag with Some t => head_answer commitSha (Some t) | None => True end.

(** An answer that says so, or that the etag given with this commit still holds. *)
Definition head_call (commitSha : string) (c : call SAns) : Prop :=
  F c /\ exists sent res, c = Did (SFetch (head_url o) sha_accept sent) (NetReply res) /\
    ((q_status res = 200 /\ exists text, ok_text res = inr text /\ trim text = commitSha) \/
     (q_status res = 304 /\ etag_of commitSha sent)).

Definition is_head (commitSha : string) : Prop := exists c, head_call commitSha c.

(** The commit, the file and the configuration of a snapshot belong together. *)
Definition one_commit (commitSha blobSha : string) (config : SsoConfig) (text : string) : Prop :=
  file_at (so_path o) commitSha blobSha text /\ config_in o commitSha text = inr config.

Definition ref_sound (snap : SnapRef) : Prop :=
  one_commit (sn_commitSha snap) (sn_blobSha snap) (sn_config snap) (sn_text snap).

Definition groups_sound (commitSha : string) (names : list string) : Prop :=
  exists blob text, file_at GROUPS_FILE_PATH commitSha blob text /\ groups_in commitSha text = inr names.

(** A time of confirmation is the time some call wrote into a snapshot of the commit. *)
Definition confirmed (commitSha : string) (t : Z) : Prop :=
  is_head commitSha /\
  ((exists snap etag cell, F (Did (SConfirm snap t etag) cell) /\ sn_commitSha snap = commitSha) \/
   exists blob config text cell snap, F (Did (SAlloc commitSha blob config text cell) snap) /\ ce_confirmedAt cell = t).

Definition cell_sound (commitSha : string) (cell : Cell) : Prop :=
  etag_of commitSha (ce_etag cell) /\ confirmed commitSha (ce_confirmedAt cell) /\
  match ce_groupNames cell with Some names => groups_sound commitSha names | None => True end.

(** A response of a refresh or of the cache: its parts belong together and GitHub
    confirmed its commit at [fetchedAt]. *)
Definition response_sound (r : SsoResponse) : Prop :=
  (exists text, one_commit (rs_commitSha r) (rs_blobSha r) (rs_config r) text) /\
  confirmed (rs_commitSha r) (rs_fetchedAt r).

(** The last look at the clock. *)
Fixpoint clock (h : trace SAns) : option Z :=
  match h with
  | [] => None
  | Did SNow t :: _ => Some t
  | _ :: h' => clock h'
  end.

(** After the calls [hb], GitHub answered that this commit is the head; and [t] is the
    last look at the clock, which came after the answer. *)
Definition head_since (hb h : trace SAns) (commitSha : string) : Prop :=
  exists l c m, h = l ++ c :: m ++ hb /\ head_call commitSha c.

Definition seen_since (hb h : trace SAns) (commitSha : string) (t : Z) : Prop :=
  exists l c m, h = l ++ c :: m ++ hb /\ head_call commitSha c /\ clock l = Some t.

(** How fresh a response is that was made by the calls after [hb]: not stale, GitHub
    gave its commit as the head among them, and [fetchedAt] is the clock after that
    answer; stale, the clock was within the stale window of [fetchedAt] and no invalid
    commit was known. *)
Definition timely (hb h : trace SAns) (r : SsoResponse) : Prop :=
  match rs_staleReason r with
  | None => seen_since hb h (rs_commitSha r) (rs_fetchedAt r)
  | Some _ =>
      exists l now, h = l ++ hb /\ clock l = Some now /\ now - rs_fetchedAt r <= staleMaxMs o /\ Did SInvalid None ∈ l
  end.

Definition honest (hb h : trace SAns) (out : result Fault SsoResponse) : Prop :=
  match out with inr r => response_sound r /\ timely hb h r | inl x => is_config x = true end.

(** The clock was past [retryAt]. *)
Definition past_backoff (h : trace SAns) : Prop :=
  exists now retryAt, Did SNow now ∈ h /\ Did SRetryAt retryAt ∈ h /\ retryAt <= now.

(** *** What a call may assume and must ensure *)

Definition given (h : trace SAns) (e : SOp) : SAns e -> Prop :=
  match e with
  | SSnapshot => fun r => match r with Some snap => ref_sound snap | None => True end
  | SRead snap => cell_sound (sn_commitSha snap)
  | SConfirm snap t etag => fun r => ce_confirmedAt r = t /\ F (Did (SConfirm snap t etag) r)
  | SAlloc commitSha blobSha config text cell => fun r =>
      (sn_commitSha r = commitSha /\ sn_blobSha r = blobSha /\ sn_config r = config /\ sn_text r = text) /\
      F (Did (SAlloc commitSha blobSha config text cell) r)
  | SNow => fun r => F (Did SNow r)
  | SFetch url accept etag => fun r => F (Did (SFetch url accept etag) r)
  | SAwait g => fun r => F (Did (SDone g r) tt)
  | SDone g out => fun r => F (Did (SDone g out) r)
  | SInvalid => fun r => match r with Some (_, x) => is_config x = true | None => True end
  | _ => fun _ => True
  end.

Definition ok (h : trace SAns) (e : SOp) (_ : SAns e) : Prop :=
  match e with
  | SAlloc commitSha blobSha config text cell =>
      one_commit commitSha blobSha config text /\ etag_of commitSha (ce_etag cell) /\ ce_groupNames cell = None /\
      seen_since [] h commitSha (ce_confirmedAt cell)
  | SSetSnapshot snap => ref_sound snap
  | SConfirm snap t etag => seen_since [] h (sn_commitSha snap) t /\ etag_of (sn_commitSha snap) etag
  | SSetGroups snap names => groups_sound (sn_commitSha snap) names
  | SSetInvalid v => match v with Some (_, x) => is_config x = true | None => True end
  | SSetRetryAt t =>
      t = 0 /\ (exists c, is_head c) \/
      exists now, clock h = Some now /\ Z.min (now + ttlMs o) (now + MAX_BACKOFF_MS) <= t <= Z.max (now + ttlMs o) (now + MAX_BACKOFF_MS)
  | SFetch _ _ _ => past_backoff h
  | SDone g out => exists l hb, h = l ++ Did SJoin (g, true) :: hb /\ honest (Did SJoin (g, true) :: hb) h out
  | _ => True
  end.

Lemma seen_is_head hb h commitSha t : seen_since hb h commitSha t -> is_head commitSha.
Proof. intros (l & c & m & _ & Hc & _). by exists c. Qed.

Lemma head_since_grows l hb h commitSha : head_since hb h commitSha -> head_since hb (l ++ h) commitSha.
Proof. intros (k & c & m & -> & Hc). exists (l ++ k), c, m. by rewrite <-app_assoc. Qed.

Lemma head_then_clock hb h commitSha now : head_since hb h commitSha -> seen_since hb (Did SNow now :: h) commitSha now.
Proof. intros (k & c & m & -> & Hc). by exists (Did SNow now :: k), c, m. Qed.

Lemma seen_cons hb h commitSha t e r : e <> SNow -> seen_since hb h commitSha t -> seen_since hb (Did e r :: h) commitSha t.
Proof.
  intros He (k & c & m & -> & Hc & Ht). exists (Did e r :: k), c, m. split_and!; [done..|]. by destruct e.
Qed.

Lemma seen_start hb h commitSha t : seen_since hb h commitSha t -> seen_since [] h commitSha t.
Proof. intros (k & c & m & -> & Hc & Ht). exists k, c, (m ++ hb). by rewrite app_nil_r. Qed.

(** What is fresh after [m ++ hb] is so after [hb]. *)
Lemma honest_before m hb h out : honest (m ++ hb) h out -> honest hb h out.
Proof.
  destruct out as [x|r]; [done|]. intros [Hs Ht]. split; [done|]. unfold timely in *. destruct (rs_staleReason r).
  - destruct Ht as (l & now & -> & Hc & Hn & Hi). exists (l ++ m), now. rewrite <-app_assoc. split_and!; [done| |done|].
    + clear -Hc. induction l as [|[[] r] l IH]; cbn in *; try done; by apply IH.
    + apply elem_of_app. by left.
  - destruct Ht as (l & c & k & -> & Hc & Hn). exists l, c, (k ++ m). by rewrite <-app_assoc.
Qed.

(** A call that looks at nothing leaves an answer as fresh as it was. *)
Lemma honest_cons hb h out e r : e <> SNow -> honest hb h out -> honest hb (Did e r :: h) out.
Proof.
  intros He. destruct out as [x|resp]; [done|]. intros [Hs Ht]. split; [done|]. unfold timely in *.
  destruct (rs_staleReason resp); [|by apply seen_cons]. destruct Ht as (l & now & -> & Hc & Hn & Hi).
  exists (Did e r :: l), now. split_and!; [done|by destruct e|done|by right].
Qed.
End facts.

(** ** The fields stay sound *)

Record sound (F : call SAns -> Prop) (s : Fields) : Prop := {
  snd_heap : forall i snap cell, f_heap s !! i = Some (snap, cell) ->
    sn_id snap = i /\ ref_sound F snap /\ cell_sound F (sn_commitSha snap) cell;
  snd_snapshot : forall snap, f_snapshot s = Some snap -> ref_sound F snap;
  snd_invalid : forall c x, f_invalid s = Some (c, x) -> is_config x = true;
  snd_outcomes : forall g out, f_outcomes s !! g = Some (Some out) -> F (Did (SDone g out) tt);
}.

Lemma sound_start F : sound F new_adapter.
Proof. split; by intros ? *. Qed.

Lemma update_cell_sound F s snap f :
  sound F s -> (forall cell, cell_sound F (sn_commitSha snap) cell -> cell_sound F (sn_commitSha snap) (f cell)) ->
  sound F (update_cell s snap f).
Proof.
  intros [Hh Hs Hi Ho] Hf. split; cbn [update_cell set_heap f_heap f_snapshot f_invalid f_outcomes]; try done.
  intros i snap' cell. destruct (decide (i = sn_id snap)) as [->|Hne].
  - rewrite list_lookup_alter_eq. destruct (f_heap s !! sn_id snap) as [[snap0 cell0]|] eqn:E; [|done].
    apply Hh in E as (Hid & Hr & Hc). cbn [fmap option_fmap option_map fst snd]. case_decide as Ed; intros [= <- <-]; [|done].
    subst snap0. split_and!; [done..|]. by apply Hf.
  - rewrite list_lookup_alter_ne by done. apply Hh.
Qed.

Lemma sound_act F s h e r s' :
  sound F s -> field_act s e r s' -> F (Did e r) ->
  given F h e r /\ (ok F h e r -> sound F s').
Proof.
  intros Hs Ha HF. pose proof Hs as [Hh Hsn Hi Ho]. destruct Ha as [Ha|[Hout ->]].
  2: { destruct e; try done; by split. }
  assert (forall snap c, cell_of s snap = Some c -> cell_sound F (sn_commitSha snap) c) as Hcell.
  { unfold cell_of. intros snap c. destruct (f_heap s !! sn_id snap) as [[snap' cell]|] eqn:E; [|done].
    case_decide as Ed; [|done]. intros [= <-]. subst snap'. by apply Hh in E as (_ & _ & Hc). }
  destruct e; cbn [inner] in Ha; cbn [given ok];
    lazymatch type of Ha with
    | Some _ = Some _ => injection Ha as <- <-
    | _ => idtac
    end; try done.
  - split; [|done]. destruct (f_snapshot s) as [snap|]; [by apply Hsn|done].
  - split; [by split_and!|]. intros (Hone & He & Hg & Hseen). split; try done. intros i snap c. cbn [f_heap set_heap].
    intros [Hl|[Hl Hl']]%lookup_app_Some; [by apply Hh|].
    apply list_lookup_singleton_Some in Hl' as [Hi' Hc]. injection Hc as <- <-. cbn [sn_id]. split; [lia|]. split; [exact Hone|].
    split_and!; [exact He| |by rewrite Hg]. split; [by eapply seen_is_head|right; eauto 10].
  - split; [done|]. intros Hok. split; try done. intros snap0 [= <-]. exact Hok.
  - destruct (cell_of s snap) as [c|] eqn:E; [|done]. injection Ha as <- <-. split; [by apply Hcell|done].
  - destruct (cell_of s snap) as [c|] eqn:E; [|done]. injection Ha as <- <-. split; [done|]. intros [Hc He].
    destruct (Hcell _ _ E) as (He' & _ & Hg). apply update_cell_sound; [done|]. intros _ _.
    split_and!; [by destruct etag| |done]. split; [by eapply seen_is_head|left; eauto 10].
  - split; [done|]. intros Hok. apply update_cell_sound; [done|]. intros c (He & Hc & _). by split_and!.
  - split; [|done]. destruct (f_invalid s) as [[c x]|] eqn:E; [|done]. by eapply Hi.
  - split; [done|]. intros Hok. split; try done. intros c x E. cbn [f_invalid] in E. by subst v.
  - split; [done|]. intros _. destruct (f_inflight s); injection Ha as <- <-; [done|]. split; try done.
    intros g out. cbn [f_outcomes]. intros [Hg|[_ Hg]]%lookup_app_Some; [by apply Ho|].
    by apply list_lookup_singleton_Some in Hg as [_ [=]].
  - destruct (f_outcomes s !! g) as [[out|]|] eqn:E; [|done..]. cbn in Ha. injection Ha as <- <-.
    split; [by apply Ho|done].
  - split; [done|]. intros _. split; try done. intros g' out. cbn [f_outcomes].
    intros [(-> & Heq & _)|[_ Hg]]%list_lookup_insert_Some; [by injection Heq as ->|by apply Ho].
Qed.

(** ** The methods *)

Section methods.
Context (F : call SAns -> Prop).

Local Abbreviation Rely := (rely (given F) (ok F)).

Lemma past_backoff_cons c h : past_backoff h -> past_backoff (c :: h).
Proof. intros (now & retryAt & H1 & H2 & H3). exists now, retryAt. split_and!; [by right..|done]. Qed.

Hint Resolve past_backoff_cons : beluga.

(** One call; what it must ensure holds without more. *)
Lemma rely_do {B} (post : trace SAns -> B -> Prop) h e f :
  (forall r, given F h e r -> ok F h e r) ->
  (forall r, given F h e r -> Rely post (Did e r :: h) (f r)) -> Rely post h (bind (do_ e) f).
Proof. intros Hok Hf. apply rely_perform. intros r Hr. split; [by apply Hok|by apply Hf]. Qed.

Lemma get_spec url accept etag h :
  past_backoff h ->
  Rely (fun h' out => past_backoff h' /\
    match out with inr res => F (Did (SFetch url accept etag) (NetReply res)) | inl _ => True end) h (get url accept etag).
Proof.
  intros Hp. unfold get. apply rely_do; [done|]. intros [| |r] Hr; (split; [by apply past_backoff_cons|done]).
Qed.

Lemma readOk_spec res h :
  past_backoff h ->
  Rely (fun h' out => past_backoff h' /\
    match out with inr text => q_status res = 200 /\ ok_text res = inr text | inl _ => True end) h (readOk res).
Proof.
  intros Hp. unfold readOk. destruct (q_status res =? 200) eqn:E; cbn [negb].
  - apply Z.eqb_eq in E. split; [done|]. by destruct (ok_text res).
  - destruct (res_limited res); cbn [negb]; [|done].
    destruct (finite_pos (header_number (q_ratelimit_reset res))); [done|].
    destruct (finite_pos (header_number (q_retry_after res))); [|done].
    apply rely_assoc, rely_do; [done|]. intros now Hnow. split; [by apply past_backoff_cons|done].
Qed.

Lemma fetchHead_spec h :
  past_backoff h ->
  Rely (fun h' out => past_backoff h' /\
    match out with inr (sha, etag) => head_since F h h' sha /\ etag_of F sha etag | inl _ => True end) h (fetchHead o).
Proof.
  intros Hp. unfold fetchHead. apply rely_do; [done|]. intros previous Hprev.
  eapply rely_bind with (mid := fun h' etag => (past_backoff h' /\
    match previous with Some snap => etag_of F (sn_commitSha snap) etag | None => etag = None end) /\
    exists l, h' = l ++ h).
  { destruct previous as [snap|].
    - apply rely_do; [done|]. intros cell (He & _). split; [split; [by do 2 apply past_backoff_cons|done]|].
      by exists [Did (SRead snap) cell; Did SSnapshot (Some snap)].
    - split; [by split; [apply past_backoff_cons|]|]. by exists [Did SSnapshot None]. }
  intros h1 etag [[Hp1 He] [l1 ->]]. unfold get. apply rely_assoc, rely_do; [done|]. intros reply Hreply.
  assert (past_backoff (Did (SFetch (head_url o) sha_accept etag) reply :: l1 ++ h)) as Hp2 by (by apply past_backoff_cons).
  destruct reply as [| |res]; [done|done|]. cbn [bind_ok bind].
  assert (forall sha, head_call F sha (Did (SFetch (head_url o) sha_accept etag) (NetReply res)) -> forall l2,
    head_since F h (l2 ++ Did (SFetch (head_url o) sha_accept etag) (NetReply res) :: l1 ++ h) sha) as Hsince by (intros sha Hc l2; by exists l2, (Did (SFetch (head_url o) sha_accept etag) (NetReply res)), l1).
  assert (Rely (fun h' out => past_backoff h' /\
    match out with inr (sha, etag) => head_since F h h' sha /\ etag_of F sha etag | inl _ => True end)
    (Did (SFetch (head_url o) sha_accept etag) (NetReply res) :: l1 ++ h)
    (bind_ok (readOk res) (fun text =>
      if negb (test SHA_RE (trim text)) then fail (FConfig "GitHub returned a malformed commit SHA")
      else ok_ (trim text, q_etag res)))) as Hread.
  { eapply rely_bind_ok; [by apply rely_grows, readOk_spec|by intros h' x [[Hx _] _]|].
    intros h4 text [(Hp4 & Hst & Ht) [l2 ->]]. destruct (test SHA_RE (trim text)); cbn [negb]; [|done].
    split; [done|]. split.
    - apply Hsince. split; [done|]. exists etag, res. split; [done|]. left. split; [done|by exists text].
    - destruct (q_etag res) as [tag|] eqn:Et; [|done]. by exists etag, res, text. }
  destruct previous as [snap|]; cbn [bind ok_ bind_ok]; [|exact Hread].
  destruct (q_status res =? 304) eqn:E; [|exact Hread]. apply Z.eqb_eq in E.
  apply rely_do; [done|]. intros cell (Hc & _). split; [by apply past_backoff_cons|]. split; [|done].
  assert (head_call F (sn_commitSha snap) (Did (SFetch (head_url o) sha_accept etag) (NetReply res))) as Hcall.
  { split; [done|]. exists etag, res. split; [done|]. by right. }
  exact (Hsince _ Hcall [Did (SRead snap) cell]).
Qed.

Lemma fetchContents_spec path sha h :
  past_backoff h ->
  Rely (fun h' out => past_backoff h' /\
    match out with inr (blob, text) => file_at F path sha blob text | inl _ => True end) h (fetchContents o path sha).
Proof.
  intros Hp. unfold fetchContents. eapply rely_bind_ok; [by apply get_spec|by intros h' x [Hx _]|].
  intros h1 res [Hp1 Hres]. eapply rely_bind_ok; [by apply readOk_spec|by intros h' x [Hx _]|].
  intros h2 body (Hp2 & Hst & Ht). split; [done|].
  destruct (contents_in path body) as [x|[blob text]] eqn:Ec; [done|]. by exists res, body.
Qed.

Lemma fetchFile_spec sha h :
  past_backoff h ->
  Rely (fun h' out => past_backoff h' /\
    match out with inr (blob, config, text) => one_commit F sha blob config text | inl _ => True end) h (fetchFile o sha).
Proof.
  intros Hp. unfold fetchFile. eapply rely_bind_ok; [by apply fetchContents_spec|by intros h' x [Hx _]|].
  intros h1 [blob text] [Hp1 Hf]. destruct (config_in o sha text) as [x|config] eqn:Ec; by split.
Qed.

Lemma render_sound snap cell reason :
  ref_sound F snap -> cell_sound F (sn_commitSha snap) cell -> response_sound F (render snap cell reason).
Proof. intros Hr (_ & Hc & _). split; [by exists (sn_text snap)|done]. Qed.

Lemma degraded_spec reason h :
  Rely (fun h' out => honest F h h' out /\ match out with inr r => is_Some (rs_staleReason r) | inl _ => True end) h
    (degraded o reason).
Proof.
  unfold degraded. apply rely_do; [done|]. intros [[c x]|] Hx; [by split|].
  apply rely_do; [done|]. intros [snap|] Hs; [|done].
  apply rely_do; [done|]. intros now Hn. apply rely_do; [done|]. intros cell Hc.
  destruct (now - ce_confirmedAt cell <=? staleMaxMs o) eqn:E; [|done]. apply Z.leb_le in E.
  split; [|by eexists]. split; [by apply render_sound|].
  exists [Did (SRead snap) cell; Did SNow now; Did SSnapshot (Some snap); Did SInvalid None], now.
  split_and!; [done..|]. by do 3 right; left.
Qed.

Lemma load_spec hb sha etag h :
  past_backoff h -> head_since F hb h sha -> etag_of F sha etag ->
  Rely (fun h' out => match out with inr r => honest F hb h' (inr r) | inl x => True end) h
    (bind (fetchFile o sha) (fun file =>
      match file with
      | inl x => bind (if is_config x then do_ (SSetInvalid (Some (sha, x))) else Ret tt) (fun _ => fail x)
      | inr (blobSha, config, text) =>
          bind (do_ SNow) (fun now =>
          bind (do_ (SAlloc sha blobSha config text (mkCell etag None now))) (fun snap =>
          bind (do_ (SSetSnapshot snap)) (fun _ => ok_ (render snap (mkCell etag None now) None))))
      end)).
Proof.
  intros Hp Hh He. eapply rely_bind; [by apply rely_grows, fetchFile_spec|]. intros h1 [x|[[blob config] text]] [[Hp1 Hf] [l ->]].
  - destruct (is_config x) eqn:Ex; [|done]. apply rely_do; [done|]. done.
  - apply rely_do; [done|]. intros now Hn.
    assert (seen_since F hb (Did SNow now :: l ++ h) sha now) as Hseen by (by apply head_then_clock, head_since_grows).
    apply rely_do; [intros snap _; split_and!; [exact Hf|exact He|done|by eapply seen_start]|].
    intros snap [(E1 & E2 & E3 & E4) HF].
    assert (ref_sound F snap) as Hr by (unfold ref_sound; by rewrite E1, E2, E3, E4).
    apply rely_do; [done|]. intros ? _. split.
    + split; [by exists (sn_text snap)|]. cbn [render rs_commitSha rs_fetchedAt ce_confirmedAt]. rewrite E1.
      split; [by eapply seen_is_head|right; eauto 10].
    + unfold timely. cbn [render rs_staleReason rs_commitSha rs_fetchedAt ce_confirmedAt]. rewrite E1. apply seen_cons; [done|]. by apply seen_cons.
Qed.

Lemma refresh_try_spec h :
  past_backoff h ->
  Rely (fun h' out => match out with inr r => honest F h h' (inr r) | inl x => True end) h (refresh_try o).
Proof.
  intros Hp. unfold refresh_try. eapply rely_bind_ok; [by apply fetchHead_spec|done|].
  intros h1 [sha etag] (Hp1 & Hh & He). apply rely_do; [done|]. intros invalid Hi.
  eapply rely_bind_ok with (mid := fun h' _ => past_backoff h' /\ head_since F h h' sha).
  { assert (past_backoff (Did SInvalid invalid :: h1) /\ head_since F h (Did SInvalid invalid :: h1) sha) as [Hp2 Hh2].
    { split; [by apply past_backoff_cons|]. by apply (head_since_grows _ [_]). }
    destruct invalid as [[c x]|]; [|by split]. destruct (String.eqb c sha); [by split|].
    apply rely_do; [done|]. intros ? _. split; [by apply past_backoff_cons|]. by apply (head_since_grows _ [_]). }
  { done. }
  intros h2 [] [Hp2 Hh2].
  apply rely_do; [intros ? _; left; split; [done|]; destruct Hh as (? & c & ? & _ & Hc); by exists sha, c|]. intros [] _.
  apply rely_do; [done|]. intros previous Hprev. cbv zeta.
  assert (past_backoff (Did SSnapshot previous :: Did (SSetRetryAt 0) tt :: h2)) as Hp3 by (by do 2 apply past_backoff_cons).
  assert (head_since F h (Did SSnapshot previous :: Did (SSetRetryAt 0) tt :: h2) sha) as Hh3 by (by apply (head_since_grows _ [_; _])).
  destruct previous as [snap|]; [|by apply load_spec].
  destruct (String.eqb_spec sha (sn_commitSha snap)) as [->|]; [|by apply load_spec].
  apply rely_do; [done|]. intros now Hn. pose proof (head_then_clock F _ _ _ now Hh3) as Hseen.
  apply rely_do; [intros cell _; split; [by eapply seen_start|done]|]. intros cell [Hc HF].
  split; [split; [by exists (sn_text snap)|]|].
  - cbn [render rs_commitSha rs_fetchedAt]. rewrite Hc. split; [by eapply seen_is_head|left; eauto 10].
  - unfold timely. cbn [render rs_staleReason rs_commitSha rs_fetchedAt]. rewrite Hc. by apply seen_cons.
Qed.

Lemma refresh_spec h : past_backoff h -> Rely (honest F h) h (refresh o).
Proof.
  intros Hp. unfold refresh, catch. eapply rely_bind; [by apply rely_grows, refresh_try_spec|].
  intros h1 [x|r] [Hr [l ->]]; [|exact Hr].
  destruct x as [m|w e|reason until].
  1,2: apply rely_do; [done|]; intros ? _; apply rely_do; [done|]; intros now Hn;
    (apply rely_do; [intros ? _; right; exists now; split; [done|lia]|]); by intros ? _.
  apply rely_do; [done|]. intros now Hn. apply rely_do; [done|]. intros ? _.
  apply rely_do; [intros ? _; right; exists now; split; [done|unfold back_off_until; lia]|]. intros ? _.
  eapply rely_mono; [apply degraded_spec|]. intros h' out [Ho _]. by apply (honest_before _ (_ :: _ :: _ :: l)) in Ho.
Qed.

(** A response of the refresh [g]: this call joined it, and ran it or waited for it. *)
Definition refreshed (h : trace SAns) (out : result Fault SsoResponse) : Prop :=
  exists g b, Did SJoin (g, b) ∈ h /\
    (Did (SDone g out) tt ∈ h \/ Did (SAwait g) out ∈ h) /\ F (Did (SDone g out) tt).

Lemma join_refresh_spec h : past_backoff h -> Rely refreshed h (join_refresh o).
Proof.
  intros Hp. unfold join_refresh. apply rely_do; [done|]. intros [g [|]] _.
  - eapply rely_bind; [by apply rely_grows, refresh_spec, past_backoff_cons|]. intros h1 out [Hout [l ->]].
    apply rely_do; [intros ? _; by exists l, h|]. intros [] HF. exists g, true.
    split; [right; apply elem_of_app; right; left|]. split; [left; left|exact HF].
  - intros out Hout. split; [done|]. exists g, false. split; [right; left|]. split; [right; left|exact Hout].
Qed.

(** A snapshot confirmed within the time to live. *)
Definition cached (h : trace SAns) (r : SsoResponse) : Prop :=
  response_sound F r /\ rs_staleReason r = None /\ exists now, clock h = Some now /\ now - rs_fetchedAt r < ttlMs o.

(** What [getSsoConfig] answers: from the cache, while it backs off, or by a refresh. *)
Definition served (h : trace SAns) (out : result Fault SsoResponse) : Prop :=
  refreshed h out \/
  match out with inr r => cached h r \/ is_Some (rs_staleReason r) /\ honest F [] h (inr r) | inl _ => True end.

Lemma getSsoConfig_spec h : Rely served h (getSsoConfig o).
Proof.
  unfold getSsoConfig. apply rely_do; [done|]. intros snap Hs.
  eapply rely_bind with (mid := fun h' out => match out with Some r => cached h' r | None => True end).
  { destruct snap as [snap|]; [|done]. apply rely_do; [done|]. intros now Hn. apply rely_do; [done|]. intros cell Hc.
    destruct (now - ce_confirmedAt cell <? ttlMs o) eqn:E; [|done]. apply Z.ltb_lt in E.
    split; [by apply render_sound|]. split; [done|]. by exists now. }
  intros h1 [r|] Hr; [right; by left|]. apply rely_do; [done|]. intros now Hn. apply rely_do; [done|]. intros retryAt _.
  destruct (now <? retryAt) eqn:E.
  - apply rely_do; [done|]. intros reason _.
    eapply rely_mono; [apply degraded_spec|]. intros h' [x|r] [Ho Hst]; [by right|right; right].
    split; [done|]. apply (honest_before F (Did SLastFailure reason :: Did SRetryAt retryAt :: Did SNow now :: h1) []). by rewrite app_nil_r.
  - apply Z.ltb_ge in E. eapply rely_mono; [apply join_refresh_spec|].
    + exists now, retryAt. split_and!; [right; left|left|done].
    + intros h' out Ho. by left.
Qed.

Lemma groupNames_spec snap h :
  ref_sound F snap ->
  Rely (fun _ out => match out with inr names => groups_sound F (sn_commitSha snap) names | inl _ => True end) h
    (groupNames o snap).
Proof.
  intros Hs. unfold groupNames. apply rely_do; [done|]. intros cell (_ & _ & Hg).
  destruct (ce_groupNames cell) as [names|]; [exact Hg|].
  apply rely_do; [done|]. intros now Hn. apply rely_do; [done|]. intros retryAt _.
  destruct (now <? retryAt) eqn:E; [apply rely_do; [done|]; by intros reason _|]. apply Z.ltb_ge in E.
  eapply rely_bind; [apply fetchContents_spec|].
  { exists now, retryAt. split_and!; [right; left|left|done]. }
  intros h1 groups [_ Hgr]. cbv zeta.
  assert (forall names, match groups with inl x => inl x | inr (_, text) => groups_in (sn_commitSha snap) text end = inr names ->
    groups_sound F (sn_commitSha snap) names) as Hnames.
  { intros names. destruct groups as [x|[blob text]]; [done|]. intros E'. by exists blob, text. }
  destruct (match groups with inl x => inl x | inr (_, text) => groups_in (sn_commitSha snap) text end) as [x|names].
  - destruct x as [m|w e|reason until].
    all: apply rely_do; [done|]; intros now' Hn'; apply rely_do; [done|]; intros ? _;
      (apply rely_do; [intros ? _; right; exists now'; split; [done|unfold back_off_until; lia]|]); by intros ? _.
  - apply rely_do; [intros ? _; by apply Hnames|]. intros ? _. by apply Hnames.
Qed.

(** A base: one commit, its files and groups, never stale, and for a fresh read
    confirmed by a refresh of this call or one in flight. *)
Definition base_sound (fresh : bool) (h : trace SAns) (b : SsoBase) : Prop :=
  one_commit F (sb_commitSha b) (sb_blobSha b) (sb_config b) (sb_text b) /\
  groups_sound F (sb_commitSha b) (sb_groupNames b) /\ sb_baseDomain b = baseDomain o /\
  exists l h0 r, h = l ++ h0 /\ rs_commitSha r = sb_commitSha b /\ rs_staleReason r = None /\
    if fresh then refreshed h0 (inr r) else served h0 (inr r).

Lemma readBase_spec fresh h :
  Rely (fun h' out => match out with inr b => base_sound fresh h' b | inl _ => True end) h (readBase o fresh).
Proof.
  unfold readBase. eapply rely_bind_ok with
    (mid := fun h' out => match out with inr _ => if fresh then refreshed h' out else served h' out | inl _ => True end).
  { destruct fresh.
    - apply rely_do; [done|]. intros now Hn. apply rely_do; [done|]. intros retryAt _.
      destruct (now <? retryAt) eqn:E; [apply rely_do; [done|]; by intros reason _|]. apply Z.ltb_ge in E.
      eapply rely_mono; [apply join_refresh_spec|intros h' [x|r] Hr; [done|exact Hr]].
      exists now, retryAt. split_and!; [right; left|left|done].
    - eapply rely_mono; [apply getSsoConfig_spec|]. intros h' [x|r] Hr; [done|exact Hr]. }
  { done. }
  intros h1 r Hr. destruct (rs_staleReason r) eqn:Est; [done|]. apply rely_do; [done|]. intros [snap|] Hs; [|done].
  destruct (String.eqb_spec (sn_commitSha snap) (rs_commitSha r)) as [Ec|]; [|done]. cbn [negb].
  eapply rely_bind_ok; [apply rely_grows, groupNames_spec, Hs|done|].
  intros h2 names [Hg [l ->]]. cbn [sb_commitSha sb_blobSha sb_config sb_text sb_groupNames sb_baseDomain].
  split; [exact Hs|]. split; [exact Hg|]. split; [done|].
  exists (l ++ [Did SSnapshot (Some snap)]), h1, r. rewrite <-app_assoc. done.
Qed.
End methods.

(** ** Every interleaving *)

(** A call of the adapter, and what it returned. *)
Inductive Request := GetSsoConfig | ReadBase (fresh : bool).

Definition Returned : Type := Request * result Fault (SsoResponse + SsoBase).

Definition request (q : Request) : prog SAns Returned :=
  match q with
  | GetSsoConfig => bind (getSsoConfig o) (fun out => Ret (q, match out with inl x => inl x | inr r => inr (inl r) end))
  | ReadBase fresh => bind (readBase o fresh) (fun out => Ret (q, match out with inl x => inl x | inr b => inr (inr b) end))
  end.

(** Requests come at any time and run interleaved. *)
Definition reachable (x : Sys SAns Fields Returned) : Prop :=
  system field_act (fun p => exists q, p = request q) new_adapter x.

Definition returned_sound (F : call SAns -> Prop) (h : trace SAns) (a : Returned) : Prop :=
  match a with
  | (GetSsoConfig, inr (inl r)) => served F h (inr r)
  | (ReadBase fresh, inr (inr b)) => base_sound F fresh h b
  | (_, inl _) => True
  | _ => False
  end.

Lemma request_spec F q : rely (given F) (ok F) (returned_sound F) [] (request q).
Proof.
  destruct q as [|fresh].
  - eapply rely_bind; [apply getSsoConfig_spec|]. by intros h [x|r] Hr.
  - eapply rely_bind; [apply readBase_spec|]. by intros h [x|b] Hb.
Qed.

(** The calls of a run. *)
Definition in_log (x : Sys SAns Fields Returned) (c : call SAns) : Prop := c ∈ sys_log x.

Lemma reachable_run x :
  reachable x ->
  sound (in_log x) (sys_state x) /\
  (forall i h p, sys_pool x !! i = Some (h, p) -> well_run given ok returned_sound (in_log x) h p) /\
  (forall c, in_log x c -> exists i h p, sys_pool x !! i = Some (h, p) /\ c ∈ h).
Proof.
  intros Hx. eapply (rely_guarantee field_act _ given ok sound returned_sound); [apply sound_start| | |exact Hx|done].
  - intros F p [q ->]. apply request_spec.
  - intros F s h e r s' Hs Ha HF. exact (sound_act F s h e r s' Hs Ha HF).
Qed.

(** A request of [x] whose calls up to some point are [h]. *)
Definition got_to (x : Sys SAns Fields Returned) (h : trace SAns) : Prop :=
  exists i l p, sys_pool x !! i = Some (l ++ h, p).

(** *** The order of the calls *)

(** What a call joined, and which refresh it ended. *)
Definition joined_by (c : call SAns) : option (nat * bool) :=
  match c with Did e r => match e as e return SAns e -> option (nat * bool) with SJoin => Some | _ => fun _ => None end r end.

Definition ended_by (c : call SAns) : option nat := match c with Did (SDone g _) _ => Some g | _ => None end.

(** A refresh in flight has no outcome, and one that is done has. *)
Record ordered (x : Sys SAns Fields Returned) : Prop := {
  ord_pool : forall i h p c, sys_pool x !! i = Some (h, p) -> c ∈ h -> c ∈ sys_log x;
  ord_inflight : forall g, f_inflight (sys_state x) = Some g -> f_outcomes (sys_state x) !! g = Some None;
  ord_joined : forall g b, Did SJoin (g, b) ∈ sys_log x -> (g < length (f_outcomes (sys_state x)))%nat;
  ord_done : forall g out, Did (SDone g out) tt ∈ sys_log x -> exists out', f_outcomes (sys_state x) !! g = Some (Some out');
  ord_log : forall l g b l0, sys_log x = l ++ Did SJoin (g, b) :: l0 -> forall out, Did (SDone g out) tt ∉ l0;
}.

(** What the calls do to the refreshes. *)
Lemma act_refreshes s e r s' :
  field_act s e r s' ->
  match e as e return SAns e -> Prop with
  | SJoin => fun r =>
      (r.2 = false /\ f_inflight s = Some r.1 /\ s' = s) \/
      (r.1 = length (f_outcomes s) /\ f_inflight s' = Some r.1 /\ f_outcomes s' = f_outcomes s ++ [None])
  | SDone g out => fun _ => f_inflight s' = None /\ f_outcomes s' = <[g := Some out]> (f_outcomes s)
  | _ => fun _ => f_inflight s' = f_inflight s /\ f_outcomes s' = f_outcomes s
  end r.
Proof.
  intros [Ha|[Ho ->]]; [|by destruct e].
  destruct e; cbn [inner] in Ha; try (by simplify_eq); try (by destruct (cell_of s snap); simplify_eq/=).
  - destruct (f_inflight s) as [g|] eqn:E; simplify_eq; [by left|by right].
  - by destruct (mjoin _); simplify_eq/=.
Qed.

Lemma reachable_ordered x : reachable x -> ordered x.
Proof.
  intros Hx. induction Hx as [|x y Hx IH Hs].
  { split; cbn; [by intros ? *|done|by intros ?? ?%elem_of_nil|by intros ?? ?%elem_of_nil|by intros []]. }
  pose proof (system_step _ _ _ _ _ Hx Hs) as Hy. destruct (reachable_run _ Hy) as (_ & Hrun & _).
  destruct Hs as [s pool log p Hp|s pool log i h e k r s' Hi Ha]; destruct IH as [Op Oi Oj Od Ol]; cbn [sys_pool sys_state sys_log] in *.
  - split; cbn [sys_pool sys_state sys_log]; try done. intros j h q c [Hj|[_ Hj]]%lookup_app_Some; [by eapply Op|].
    apply list_lookup_singleton_Some in Hj as [_ [= <- <-]]. by intros ?%elem_of_nil.
  - pose proof (lookup_lt_Some _ _ _ Hi) as Hlt. apply act_refreshes in Ha.
    destruct (Hrun i (Did e r :: h) (k r)) as [_ Hok]; [by rewrite list_lookup_insert_eq|]. specialize (Hok [] e r h eq_refl). clear Hrun Hy Hx.
    split; cbn [sys_pool sys_state sys_log].
    + intros j h' q c [(-> & [= <- <-] & _)|[_ Hj]]%list_lookup_insert_Some; [|intros ?; right; by eapply Op].
      intros [->|Hc]%elem_of_cons; [left|right; by eapply Op].
    + destruct e; try (destruct Ha as [-> ->]; by apply Oi); [|by destruct Ha as [-> _]].
      destruct Ha as [(_ & _ & ->)|(E & -> & ->)]; [by apply Oi|]. intros g [= <-]. rewrite E. by apply list_lookup_middle.
    + intros g b [Hc|Hc]%elem_of_cons.
      * apply (f_equal joined_by) in Hc. destruct e; try discriminate Hc. injection Hc as <-. cbn [fst snd] in Ha.
        destruct Ha as [(_ & Hf & ->)|(-> & _ & ->)]; [|rewrite length_app; cbn; lia]. by eapply lookup_lt_Some, Oi.
      * apply Oj in Hc. destruct e; try (by destruct Ha as [_ ->]).
        -- destruct Ha as [(_ & _ & ->)|(_ & _ & ->)]; [done|]. rewrite length_app. lia.
        -- destruct Ha as [_ ->]. by rewrite length_insert.
    + intros g out [Hc|Hc]%elem_of_cons.
      * apply (f_equal ended_by) in Hc. destruct e; try discriminate Hc. injection Hc as ->. destruct Ha as [_ ->]. destruct Hok as (l & hb & -> & _).
        exists outcome. apply list_lookup_insert_eq. apply (Oj _ true). eapply Op; [exact Hi|]. apply elem_of_app. right. left.
      * apply Od in Hc as [out' Hc]. destruct e; try (destruct Ha as [_ ->]; by exists out').
        -- exists out'. destruct Ha as [(_ & _ & ->)|(_ & _ & ->)]; [done|]. by apply lookup_app_l_Some.
        -- destruct Ha as [_ ->]. destruct (decide (g0 = g)) as [->|]; [|exists out'; by rewrite list_lookup_insert_ne].
           exists outcome. apply list_lookup_insert_eq. by eapply lookup_lt_Some.
    + intros [|c l] g b l0; cbn [app]; [|intros El%(f_equal tail); by eapply Ol].
      intros El out. pose proof (f_equal tail El) as Et. cbn [tail] in Et. subst l0. intros [out' Hd]%Od.
      pose proof (f_equal (fun k => head k ≫= joined_by) El) as Hc. cbn in Hc. destruct e; try discriminate Hc. injection Hc as ->. cbn [fst snd] in Ha. destruct Ha as [(_ & Hf & _)|(-> & _ & _)].
      * apply Oi in Hf. congruence.
      * apply lookup_lt_Some in Hd. lia.
Qed.

(** *** What the requests return *)

(** Some request got the answer of GitHub that this commit is the head, and its next
    looks at the clock ended at [t]. *)
Definition confirmed_at (x : Sys SAns Fields Returned) (commitSha : string) (t : Z) : Prop :=
  exists l c m, got_to x (l ++ c :: m) /\ head_call (in_log x) commitSha c /\ clock l = Some t.

Lemma confirmed_run x commitSha t : reachable x -> confirmed (in_log x) commitSha t -> confirmed_at x commitSha t.
Proof.
  intros Hx [_ Hc]. destruct (reachable_run x Hx) as (_ & Hpool & Hlog).
  assert (forall c, in_log x c -> exists i h0 l p, sys_pool x !! i = Some (l ++ c :: h0, p) /\
    match c with Did e r => ok (in_log x) h0 e r end) as Hat.
  { intros c (i & h & p & Hi & Hin)%Hlog. apply list_elem_of_split in Hin as (l & h0 & ->). exists i, h0, l, p.
    split; [done|]. destruct (Hpool _ _ _ Hi) as [_ Hok]. destruct c as [e r]. exact (Hok l e r h0 eq_refl). }
  destruct Hc as [(snap & etag & cell & (i & h0 & l & p & Hi & (k & c & m & -> & Hc & Hk) & _)%Hat & <-)|
    (blob & config & text & cell & snap & (i & h0 & l & p & Hi & _ & _ & _ & k & c & m & -> & Hc & Hk)%Hat & <-)].
  all: exists k, c, (m ++ []); split; [|by split]; eexists i, (l ++ [_]), p; rewrite <-app_assoc; exact Hi.
Qed.

(** The response [r] is that of the refresh [g].  The request with the calls [h] joined
    it before it was over, and ran it to its end or waited for it; and among the calls of
    the refresh are those that make [r] as fresh as it says. *)
Definition by_refresh (x : Sys SAns Fields Returned) (h : trace SAns) (g : nat) (r : SsoResponse) : Prop :=
  (exists b, Did SJoin (g, b) ∈ h /\
     forall l l0, sys_log x = l ++ Did SJoin (g, b) :: l0 -> forall out, Did (SDone g out) tt ∉ l0) /\
  (Did (SDone g (inr r)) tt ∈ h \/ Did (SAwait g) (inr r) ∈ h) /\
  exists hr hb, got_to x (Did (SDone g (inr r)) tt :: hr) /\ timely (in_log x) (Did SJoin (g, true) :: hb) hr r.

Lemma refreshed_by x l h r :
  reachable x -> refreshed (in_log x) h (inr r) ->
  response_sound (in_log x) r /\ exists g, by_refresh x (l ++ h) g r.
Proof.
  intros Hx (g & b & Hj & Hd & HF). destruct (reachable_run x Hx) as (_ & Hpool & Hlog).
  destruct (Hlog _ HF) as (j & h' & q & Hq & Hin). apply list_elem_of_split in Hin as (l' & h0 & ->).
  destruct (Hpool _ _ _ Hq) as [_ Hok]. destruct (Hok l' (SDone g (inr r)) tt h0 eq_refl) as (k & hb & -> & Hs & Ht).
  split; [done|]. exists g. split_and!.
  - exists b. split; [apply elem_of_app; by right|]. intros k1 k2 E. by eapply ord_log, E; apply reachable_ordered.
  - rewrite !elem_of_app. tauto.
  - exists (k ++ Did SJoin (g, true) :: hb), hb. split; [by exists j, l', q|done].
Qed.


(** C13: A change is based on one commit: the text, the blob, the configuration and
    the group names of a base are those of the two files at its commit, GitHub
    confirmed that commit as the head at some time [t], and it is never a stale answer.
    A fresh base is the answer of a refresh that was not over when the request joined it
    and in which GitHub gave the commit as the head; any other may also have been
    confirmed within the time to live of a look of the request at the clock. *)
Theorem base_is_one_commit x i h fresh b :
  reachable x -> sys_pool x !! i = Some (h, Ret (ReadBase fresh, inr (inr b))) ->
  let F := in_log x in
  file_at F (so_path o) (sb_commitSha b) (sb_blobSha b) (sb_text b) /\
  config_in o (sb_commitSha b) (sb_text b) = inr (sb_config b) /\
  (exists blob text, file_at F GROUPS_FILE_PATH (sb_commitSha b) blob text /\
     groups_in (sb_commitSha b) text = inr (sb_groupNames b)) /\
  exists t, confirmed_at x (sb_commitSha b) t /\
    ((exists g r, by_refresh x h g r /\ rs_staleReason r = None /\ rs_commitSha r = sb_commitSha b /\ rs_fetchedAt r = t) \/
     fresh = false /\ exists l h0 now, h = l ++ h0 /\ clock h0 = Some now /\ now - t < ttlMs o).
Proof.
  intros Hx Hi F. destruct (reachable_run x Hx) as (_ & Hpool & _). destruct (Hpool _ _ _ Hi) as [Hb _].
  destruct Hb as ([Hf Hc] & Hg & _ & l & h0 & r & -> & Er & Est & Hr). split_and!; [done..|]. exists (rs_fetchedAt r).
  assert (refreshed F h0 (inr r) -> confirmed_at x (sb_commitSha b) (rs_fetchedAt r) /\
    ((exists g r', by_refresh x (l ++ h0) g r' /\ rs_staleReason r' = None /\ rs_commitSha r' = sb_commitSha b /\
        rs_fetchedAt r' = rs_fetchedAt r) \/
     fresh = false /\ exists l' h1 now, l ++ h0 = l' ++ h1 /\ clock h1 = Some now /\ now - rs_fetchedAt r < ttlMs o)) as Href.
  { intros Hr'. destruct (refreshed_by x l h0 r Hx Hr') as ([_ Hcf] & g & Hby). rewrite <-Er.
    split; [by apply confirmed_run|]. left. by exists g, r. }
  destruct fresh; [by apply Href|]. destruct Hr as [Hr|[([_ Hcf] & _ & now & Hn & Ht)|[[reason Hst] _]]]; [by apply Href| |congruence].
  rewrite <-Er. split; [by apply confirmed_run|]. right. split; [done|]. by exists l, h0, now.
Qed.

(** The backoff holds under every interleaving: GitHub is asked only by a
    request that found the clock past [retryAt], and [retryAt] is moved at most
    [MAX_BACKOFF_MS] (or the time to live) ahead, or reset by a request that had
    just seen the head. *)
Theorem source_backs_off x i l h e r p :
  reachable x -> sys_pool x !! i = Some (l ++ Did e r :: h, p) ->
  match e with
  | SFetch _ _ _ => exists now retryAt, Did SNow now ∈ h /\ Did SRetryAt retryAt ∈ h /\ retryAt <= now
  | SSetRetryAt t =>
      t = 0 /\ (exists c, is_head (in_log x) c) \/
      exists now, clock h = Some now /\
        Z.min (now + ttlMs o) (now + MAX_BACKOFF_MS) <= t <= Z.max (now + ttlMs o) (now + MAX_BACKOFF_MS)
  | _ => True
  end.
Proof.
  intros Hx Hi. destruct (reachable_run x Hx) as (_ & Hpool & _). destruct (Hpool _ _ _ Hi) as [_ Hok].
  specialize (Hok l e r h eq_refl). by destruct e.
Qed.
End proofs.

(** ** Witnesses *)

Definition sha_a : string := "aaaaaaaaaaaaaaaaaaaaaaaaaaaaaaaaaaaaaaaa".
Definition sha_b : string := "bbbbbbbbbbbbbbbbbbbbbbbbbbbbbbbbbbbbbbbb".

Definition sso_lib : EditLib :=
  {| el_doc := list string;
     parseDocument s := Some (split_char "," s);
     toJS := demo_file;
     SsoEdit.render := join ",";
     yamlParse s :=
       if String.eqb s "groups" then Some (JObj [("groups", JArr [JObj [("name", JStr "admins")]])])
       else Some (demo_file (split_char "," s));
     edit _ _ g := inr g;
     sha256 s := s;
     sha1 s := s;
     createTwoFilesPatch a b := a;
     parseUrl := demo_url |}.

Definition contents_json (path content : string) : json :=
  JObj [("type", JStr "file"); ("encoding", JStr "base64"); ("path", JStr path); ("sha", JStr sha_a);
        ("content", JStr (to_base64 content))].

Definition sso_js : JsLib :=
  {| JSON_parse s := map_get s
       [("good", contents_json SSO_FILE_PATH "admins"); ("bad", contents_json SSO_FILE_PATH "nobody");
        ("groups", contents_json GROUPS_FILE_PATH "groups")];
     Number _ := NaN; Date_parse _ := None |}.

Definition sso_demo : GithubSsoAdapterOptions := mkSsoOptions None "example.org" None None.

Definition reply (text : string) : Fetched := NetReply (mkRes 200 None None None None None (Some ([text], true))).

(** The clock advances 100 ms per answer; the head is [sha_b] from answer [moves] on,
    and the file at [sha_b] is not a valid configuration. *)
Definition sso_outer (moves n : nat) (e : SOp) : SAns e :=
  match e with
  | SNow => 1000 + 100 * Z.of_nat n
  | SFetch url _ _ =>
      if String.eqb url (head_url sso_demo) then reply (if (n <? moves)%nat then sha_a else sha_b)
      else if String.eqb url (file_url sso_demo SSO_FILE_PATH sha_a) then reply "good"
      else if String.eqb url (file_url sso_demo SSO_FILE_PATH sha_b) then reply "bad"
      else reply "groups"
  | SRetryAt => 0
  | SSnapshot | SInvalid => None
  | SAlloc c b config text _ => mkRef 0 c b config text
  | SRead _ | SConfirm _ _ _ => mkCell None None 0
  | SLastFailure => EmptyString
  | SJoin => (0%nat, false)
  | SAwait _ => inl (FConfig EmptyString)
  | SSetSnapshot _ | SSetGroups _ _ | SSetInvalid _ | SSetRetryAt _ | SSetLastFailure _ | SDone _ _ => tt
  end.

Definition sso_request (q : Request) : prog SAns Returned := @request sso_js sso_lib sso_demo q.

Definition run_request (moves : nat) (q : Request) (s : Fields) (n : nat) : option (Returned * Fields * nat * trace SAns) :=
  alone inner outside (sso_outer moves) (sso_request q) s n [].

(** A request after others: it starts and runs to its end. *)
Lemma request_run moves q s n a s' n' h' pool log :
  run_request moves q s n = Some (a, s', n', h') ->
  @reachable sso_js sso_lib sso_demo (mkSys s pool log) ->
  exists log', @reachable sso_js sso_lib sso_demo (mkSys s' (pool ++ [(h', Ret a)]) log').
Proof.
  intros Hr Hs. eapply alone_system; [exact Hr|]. eapply system_step; [exact Hs|]. apply sys_spawn. by exists q.
Qed.

Lemma reachable_start : @reachable sso_js sso_lib sso_demo (mkSys new_adapter [] []).
Proof. apply system_start. Qed.

(** An invalid commit can be masked: after a fresh read found that the head is
    a commit whose file is not valid, and the adapter remembers it, a read within
    the time to live still serves the previous commit as current. *)
Theorem invalid_commit_masked :
  exists x c fault h' r n h,
    @reachable sso_js sso_lib sso_demo x /\
    f_invalid (sys_state x) = Some (c, fault) /\ is_config fault = true /\
    sys_pool x !! 1%nat = Some (h', Ret (ReadBase true, inl fault)) /\
    @is_head sso_js sso_demo (fun call => call ∈ h') c /\
    run_request 5 GetSsoConfig (sys_state x) n = Some ((GetSsoConfig, inr (inl r)), sys_state x, S n, h) /\
    rs_staleReason r = None /\ rs_commitSha r <> c.
Proof.
  destruct (request_run 5 GetSsoConfig new_adapter 0 _ _ _ _ [] [] ltac:(vm_compute; reflexivity) reachable_start) as [log Hx].
  match type of Hx with reachable _ (mkSys ?s ?pool _) =>
    destruct (request_run 5 (ReadBase true) s 4 _ _ _ _ pool log ltac:(vm_compute; reflexivity) Hx) as [log' Hy] end.
  match type of Hy with reachable _ ?y => exists y end.
  eexists _, _, _, _, 8%nat, _. split; [exact Hy|]. split; [reflexivity|]. split; [reflexivity|].
  split; [reflexivity|]. split; [|split; [vm_compute; reflexivity|split; [reflexivity|discriminate]]].
  exists (Did (SFetch (head_url sso_demo) sha_accept None) (reply sha_b)). split; [found|].
  exists None, (mkRes 200 None None None None None (Some ([sha_b], true))). split; [reflexivity|]. left. split; [reflexivity|by exists sha_b].
Qed.


Lemma base_is_one_commit_witness :
  exists x h b, sys_pool x !! 0%nat = Some (h, Ret (ReadBase true, inr (inr b))) /\ sb_groupNames b = ["admins"] /\
    exists g r, @by_refresh sso_js sso_demo x h g r /\ @confirmed_at sso_js sso_demo x (sb_commitSha b) (rs_fetchedAt r).
Proof.
  destruct (request_run 9 (ReadBase true) new_adapter 0 _ _ _ _ [] [] ltac:(vm_compute; reflexivity) reachable_start) as [log Hx].
  destruct (@base_is_one_commit sso_js sso_lib sso_demo _ 0%nat _ true _ Hx eq_refl)
    as (_ & _ & _ & t & Ht & [(g & r & Hr & _ & _ & <-)|[[=] _]]).
  match type of Hx with reachable _ ?x => exists x end. eexists _, _. split; [reflexivity|]. split; [reflexivity|].
  exists g, r. split; [exact Hr|exact Ht].
Defined.

Lemma source_backs_off_witness :
  exists now retryAt (h : trace SAns), Did SNow now ∈ h /\ Did SRetryAt retryAt ∈ h /\ retryAt <= now.
Proof.
  destruct (request_run 9 (ReadBase true) new_adapter 0 _ _ _ _ [] [] ltac:(vm_compute; reflexivity) reachable_start) as [log Hx].
  match type of Hx with reachable _ (mkSys _ ([] ++ [(?t, ?q)]) _) =>
    edestruct (@source_backs_off sso_js sso_lib sso_demo _ 0%nat (take 10 t) (drop 11 t)
      (SFetch (file_url sso_demo SSO_FILE_PATH sha_a) json_accept None) (reply "good") q Hx) as (now & retryAt & H1 & H2 & H3)
  end.
  - vm_compute. reflexivity.
  - exists now, retryAt. eexists. split; [exact H1|]. split; [exact H2|exact H3].
Defined.
