(* ===== verification/GithubAppProofs.v ===== *)
(** * What the GitHub client sends, and what its answers mean *)

From S2P Require Import Prelude JsBase JsRegex JsText JsJson JsLib SsoEdit Effects SsoPorts GithubApp.
From Stdlib Require Import Ascii.
From Stdlib Require String.
Open Scope Z_scope.

Section client.
Context `{JsLib} (sign : string -> string) (o : GithubAppOptions).

(** ** Calls and replies *)

(** The reply a request got, when it got one. *)
Definition gave (a : FetchResult) (reply : Reply) : Prop :=
  exists r text, a = FetchReply r /\ readBody r = inr text /\ rate_limited r = false /\ h_status r < 500 /\
    reply = reply_of r text.

(** [c], when it is a request, is this one, and was answered so. *)
Definition sends (m p : string) (body : option json) (P : FetchResult -> Prop) (c : call HAns) : Prop :=
  match c with Did (HFetch m' p' _ body' _) a => m' = m /\ p' = p /\ body' = body /\ P a | _ => True end.

Definition is_fetch (c : call HAns) : bool := match c with Did (HFetch _ _ _ _ _) _ => true | _ => false end.
Definition fetches (l : trace HAns) : nat := length (List.filter is_fetch l).

(** The request is in the history with this reply. *)
Definition replied (h : trace HAns) (m p : string) (body : option json) (reply : Reply) : Prop :=
  exists b t a, Did (HFetch m p b body t) a ∈ h /\ gave a reply.

Definition mint_body : option json := Some (JObj []).

Definition minting (c : call HAns) : Prop := sends "POST" (mint_path o) mint_body (fun _ => True) c.

(** ** What every call satisfies *)

(** The request is made at once after the clock, the backoff and the deadline were
    looked at, with what is left of the deadline. *)
Definition paced (deadline : option Z) (h : trace HAns) (timeout : Z) : Prop :=
  exists now retryAt h0, retryAt <= now /\
    match deadline with
    | None => h = Did HRetryAt retryAt :: Did HNow now :: h0 /\ timeout = this_timeoutMs o
    | Some d =>
        exists now', h = Did HNow now' :: Did HRetryAt retryAt :: Did HNow now :: h0 /\
          now' < d /\ timeout = Z.min (this_timeoutMs o) (d - now')
    end.

(** [retryAt] is set from the clock, at least [DEFAULT_BACKOFF_MS] and at most
    [MAX_BACKOFF_MS] ahead. *)
Definition backed_off (h : trace HAns) (t : Z) : Prop :=
  exists now h0, h = Did HNow now :: h0 /\ now + DEFAULT_BACKOFF_MS <= t <= now + MAX_BACKOFF_MS.

(** [W]: the requests of the method; the others mint a token. *)
Definition op_ok (deadline : option Z) (W : trace HAns -> string -> string -> option json -> Prop)
    (h : trace HAns) (e : Op) : Prop :=
  match e with
  | HFetch m p _ body t =>
      paced deadline h t /\ (m = "POST" /\ p = mint_path o /\ body = mint_body \/ W h m p body)
  | HSetRetryAt t => backed_off h t
  | _ => True
  end.

(** ** The transport *)

(** What was done between two points: at most [n] requests, every call as [Q] says. *)
Definition span (n : nat) (Q : call HAns -> Prop) (h h' : trace HAns) : Prop :=
  exists l, h' = l ++ h /\ (fetches l <= n)%nat /\ Forall Q l.

Definition send_post (h : trace HAns) (m p : string) (body : option json) (h' : trace HAns) (out : result Exn Reply)
    : Prop :=
  exists l, h' = l ++ h /\ (fetches l <= 1)%nat /\
    match out with
    | inl x => (exists msg, x = GithubUnavailableError msg) /\ Forall (sends m p body (fun _ => True)) l
    | inr reply => Forall (sends m p body (fun a => gave a reply)) l /\ replied l m p body reply
    end.

Ltac extend := first [reflexivity | rewrite !app_comm_cons; reflexivity].

Lemma back_off_bounds until now :
  now + DEFAULT_BACKOFF_MS <= Z.min (Z.max until (now + DEFAULT_BACKOFF_MS)) (now + MAX_BACKOFF_MS) <= now + MAX_BACKOFF_MS.
Proof. unfold DEFAULT_BACKOFF_MS, MAX_BACKOFF_MS. lia. Qed.

Lemma readBody_throws r x : readBody r = inl x -> exists msg, x = GithubUnavailableError msg.
Proof. unfold readBody. intros E. repeat case_match; simplify_eq; eauto. Qed.

(** No request in [l]. *)
Definition quiet (l : trace HAns) : Prop := Forall (fun c => is_fetch c = false) l.

Lemma quiet_fetches l : quiet l -> fetches l = 0%nat.
Proof. unfold quiet, fetches. induction 1 as [|c l Hc Hl IH]; [done|]. cbn [List.filter]. by rewrite Hc. Qed.

Lemma quiet_sends l m p body P : quiet l -> Forall (sends m p body P) l.
Proof. intros Hl. eapply Forall_impl; [exact Hl|]. intros [[] r] Hc; cbn in *; done. Qed.

Lemma fetches_app l k : fetches (l ++ k) = (fetches l + fetches k)%nat.
Proof. unfold fetches. by rewrite List.filter_app, length_app. Qed.

(** One request between quiet calls. *)
Lemma one_request l1 l2 m p b body t a :
  quiet l1 -> quiet l2 ->
  fetches (l1 ++ Did (HFetch m p b body t) a :: l2) = 1%nat /\
  forall P : FetchResult -> Prop, P a -> Forall (sends m p body P) (l1 ++ Did (HFetch m p b body t) a :: l2).
Proof.
  intros H1 H2. split.
  - rewrite fetches_app, (quiet_fetches l1) by done. apply quiet_fetches in H2. unfold fetches in *.
    cbn [List.filter is_fetch length]. lia.
  - intros P HP. apply Forall_app. split; [by apply quiet_sends|]. constructor; [done|by apply quiet_sends].
Qed.

Lemma send_threw h0 l1 l2 m p b body t a msg :
  quiet l1 -> quiet l2 ->
  send_post h0 m p body (l1 ++ Did (HFetch m p b body t) a :: l2 ++ h0) (inl (GithubUnavailableError msg)).
Proof.
  intros H1 H2. destruct (one_request l1 l2 m p b body t a H1 H2) as [Hf Hs].
  exists (l1 ++ Did (HFetch m p b body t) a :: l2). split_and!; [by rewrite <-app_assoc|lia|by eexists|by apply Hs].
Qed.

(** [l] is what was done since [h0]. *)
Lemma receive_spec deadline W h0 l m p body b t r :
  quiet l ->
  always (op_ok deadline W) (send_post h0 m p body)
    (Did (HFetch m p b body t) (FetchReply r) :: l ++ h0) (receive r).
Proof.
  intros Hl. unfold receive.
  destruct (readBody r) as [x|text] eqn:Eb.
  { apply readBody_throws in Eb as [msg ->]. walk. apply (send_threw _ []); [constructor|done]. }
  destruct (rate_limited r) eqn:Er.
  { unfold back_off. walk; try done.
    all: try (eexists _, _; split; [reflexivity|apply back_off_bounds]).
    all: match goal with |- send_post _ _ _ _ ?h' _ =>
      lazymatch h' with
      | ?a :: ?b :: ?c :: Did (HFetch _ _ _ _ _) _ :: _ => apply (send_threw _ [a; b; c])
      | ?a :: ?b :: Did (HFetch _ _ _ _ _) _ :: _ => apply (send_threw _ [a; b])
      end; [repeat constructor|done] end. }
  destruct (500 <=? h_status r) eqn:E5; walk; [apply (send_threw _ []); [constructor|done]|]. apply Z.leb_gt in E5.
  assert (gave (FetchReply r) (reply_of r text)) as Hg by (by exists r, text).
  destruct (one_request [] l m p b body t (FetchReply r) ltac:(constructor) Hl) as [Hf Hs].
  exists ([] ++ Did (HFetch m p b body t) (FetchReply r) :: l). split_and!; [done|lia|by apply Hs|].
  exists b, t, (FetchReply r). split; [left|done].
Qed.

(** The request itself, after the quiet calls [l]. *)
Lemma fetch_spec deadline (W : trace HAns -> string -> string -> option json -> Prop) h l m p b body t :
  quiet l -> paced deadline (l ++ h) t ->
  (m = "POST" /\ p = mint_path o /\ body = mint_body \/ W (l ++ h) m p body) ->
  always (op_ok deadline W) (send_post h m p body) (l ++ h)
    (bind (perform (HFetch m p b body t)) (fun res =>
      match res with
      | FetchTimeout => unavailable "timeout"
      | FetchUnreachable => unavailable "unreachable"
      | FetchReply res => receive res
      end)).
Proof.
  intros Hl Hp HW. apply always_perform; [done|]. intros [| |r].
  - apply (send_threw _ []); [constructor|done].
  - apply (send_threw _ []); [constructor|done].
  - by apply receive_spec.
Qed.

Lemma send_spec deadline (W : trace HAns -> string -> string -> option json -> Prop) h m p b body :
  (m = "POST" /\ p = mint_path o /\ body = mint_body \/ forall l, W (l ++ h) m p body) ->
  always (op_ok deadline W) (send_post h m p body) h (send o deadline m p b body).
Proof.
  intros HW.
  assert (forall l, quiet l -> forall msg, send_post h m p body (l ++ h) (inl (GithubUnavailableError msg))) as Hx.
  { intros l Hl msg. exists l. rewrite quiet_fetches by done. split_and!; [done|lia|by eexists|by apply quiet_sends]. }
  assert (forall l, m = "POST" /\ p = mint_path o /\ body = mint_body \/ W (l ++ h) m p body) as HW'
    by (intros l; destruct HW as [HW|HW]; [by left|right; apply HW]).
  unfold send. apply always_perform; [done|]. intros now. apply always_perform; [done|]. intros retryAt. cbn [HAns] in *.
  destruct (now <? retryAt) eqn:Er.
  { apply (Hx [_; _]). repeat constructor. }
  apply Z.ltb_ge in Er. destruct deadline as [d|].
  - apply always_assoc, always_perform; [done|]. intros now'. apply always_ret. cbn [HAns] in *.
    destruct (d - now' <=? 0) eqn:Ed; [apply (Hx [_; _; _]); repeat constructor|]. apply Z.leb_gt in Ed.
    apply (fetch_spec _ _ h [_; _; _]); [repeat constructor| |apply (HW' [_; _; _])].
    exists now, retryAt, h. split; [done|]. exists now'. split_and!; [done|lia|done].
  - apply always_ret. apply (fetch_spec _ _ h [_; _]); [repeat constructor| |apply (HW' [_; _])].
    exists now, retryAt, h. done.
Qed.

(** ** The token *)

Lemma sends_mono m p body (P Q : FetchResult -> Prop) c :
  (forall a, P a -> Q a) -> sends m p body P c -> sends m p body Q c.
Proof. intros HPQ. destruct c as [[] r]; cbn; try done. intros (-> & -> & -> & HP). auto. Qed.

Lemma span_refl Q h : span 0 Q h h.
Proof. by exists []. Qed.

Lemma span_trans n k (Q : call HAns -> Prop) h h' h'' : span n Q h h' -> span k Q h' h'' -> span (n + k) Q h h''.
Proof.
  intros (l & -> & Hl & HQ) (l' & -> & Hl' & HQ'). exists (l' ++ l). rewrite fetches_app.
  split_and!; [by rewrite app_assoc|lia|by apply Forall_app].
Qed.

Lemma span_weaken n k (Q R : call HAns -> Prop) h h' :
  (n <= k)%nat -> (forall c, Q c -> R c) -> span n Q h h' -> span k R h h'.
Proof. intros Hn HQ (l & -> & Hl & HF). exists l. split_and!; [done|lia|by eapply Forall_impl]. Qed.

Lemma span_quiet n (Q : call HAns -> Prop) h h' e r :
  is_fetch (Did e r) = false -> Q (Did e r) -> span n Q h h' -> span n Q h (Did e r :: h').
Proof.
  intros He HQ (l & -> & Hl & HF). exists (Did e r :: l). split_and!; [done| |by constructor].
  unfold fetches in *. cbn [List.filter]. by rewrite He.
Qed.

(** What a request does, when it got a reply and when it did not. *)
Lemma send_post_threw h m p body h' x :
  send_post h m p body h' (inl x) ->
  (exists msg, x = GithubUnavailableError msg) /\ span 1 (sends m p body (fun _ => True)) h h'.
Proof. intros (l & -> & Hf & Hx & Hs). split; [done|]. by exists l. Qed.

Lemma send_post_gave h m p body h' reply :
  send_post h m p body h' (inr reply) ->
  span 1 (sends m p body (fun a => gave a reply)) h h' /\ replied h' m p body reply.
Proof.
  intros (l & -> & Hf & Hs & b & t & a & Ha & Hg). split; [by exists l|].
  exists b, t, a. split; [|done]. apply elem_of_app. by left.
Qed.

Definition token_post (h h' : trace HAns) (out : result Exn string) : Prop :=
  span 1 minting h h' /\ match out with inl x => exists msg, x = GithubUnavailableError msg | inr _ => True end.

Ltac span_steps := repeat (apply span_quiet; [done|done|]).

Lemma mint_spec deadline W h h0 :
  span 0 minting h0 h -> always (op_ok deadline W) (token_post h0) h (mintToken sign o deadline).
Proof.
  intros H0. unfold mintToken. unfold signJwt. apply always_assoc, always_perform; [done|]. intros now. apply always_ret.
  eapply always_bind_ok; [apply send_spec; by left| |].
  - intros h' x [Hx Hs]%send_post_threw. split; [|done].
    apply (span_trans 0 1 _ _ (Did HNow now :: h)); [by apply span_quiet|].
    eapply span_weaken; [..|exact Hs]; [done|]. intros [[] r]; cbn; naive_solver.
  - intros h' res [Hs _]%send_post_gave.
    assert (span 1 minting h0 h') as Hm.
    { apply (span_trans 0 1 _ _ (Did HNow now :: h)); [by apply span_quiet|].
      eapply span_weaken; [..|exact Hs]; [done|]. intros [[] r]; cbn; naive_solver. }
    destruct (minted_token res) as [[token expiresAt]|]; walk; try done.
    + split; [by apply span_quiet|done].
    + split; [done|by eexists].
Qed.

Lemma mint_or_join_spec deadline W h h0 :
  span 0 minting h0 h -> always (op_ok deadline W) (token_post h0) h (mint_or_join sign o deadline).
Proof.
  intros H0. unfold mint_or_join. apply always_perform; [done|]. intros [[m|token]|].
  - split; [|by eexists]. apply (span_weaken 0 1 minting minting); [lia|done|apply span_quiet; [done|done|exact H0]].
  - split; [|done]. apply (span_weaken 0 1 minting minting); [lia|done|apply span_quiet; [done|done|exact H0]].
  - eapply always_bind; [apply mint_spec; by apply span_quiet|]. intros h' out [Hs Ho].
    apply always_perform; [done|]. intros []. split; [by apply span_quiet|done].
Qed.

Lemma token_spec deadline W h :
  always (op_ok deadline W) (token_post h) h (installationToken sign o deadline).
Proof.
  unfold installationToken. apply always_perform; [done|]. intros [[value refreshAt]|].
  - apply always_perform; [done|]. intros now. cbn [HAns] in *. destruct (now <? refreshAt).
    + split; [|done]. apply (span_weaken 0 1 minting minting); [lia|done|span_steps; apply span_refl].
    + apply mint_or_join_spec. span_steps. apply span_refl.
  - apply mint_or_join_spec. span_steps. apply span_refl.
Qed.

(** ** One call of the API *)

(** The requests of one call of [api]: those that mint, and its own, each answered
    by the reply or a 401. *)
Definition api_call (m sfx : string) (body : option json) (reply : Reply) (c : call HAns) : Prop :=
  minting c \/
  sends m (repoPath o sfx) body (fun a => gave a reply \/ exists r0, gave a r0 /\ r_status r0 = 401) c.

(** The same when it throws. *)
Definition api_threw (m sfx : string) (body : option json) (c : call HAns) : Prop :=
  minting c \/ sends m (repoPath o sfx) body (fun _ => True) c.

Definition api_post (h : trace HAns) (m sfx : string) (body : option json) (h' : trace HAns) (out : result Exn Reply)
    : Prop :=
  match out with
  | inl x => (exists msg, x = GithubUnavailableError msg) /\ span 4 (api_threw m sfx body) h h'
  | inr reply => span 4 (api_call m sfx body reply) h h' /\ replied h' m (repoPath o sfx) body reply
  end.

Lemma api_spec deadline (W : trace HAns -> string -> string -> option json -> Prop) h m sfx body :
  (forall l, W (l ++ h) m (repoPath o sfx) body) ->
  always (op_ok deadline W) (api_post h m sfx body) h (api sign o deadline m sfx body).
Proof.
  intros HW. unfold api.
  eapply always_bind_ok; [apply token_spec| |].
  { intros h' x [Hs Hx]. split; [done|]. eapply span_weaken; [..|exact Hs]; [lia|]. by left. }
  intros h1 token [H1 _]. eapply always_bind_ok.
  { apply send_spec. right. destruct H1 as (l & -> & _). intros l'. rewrite app_assoc. apply HW. }
  { intros h' x [Hx Hs]%send_post_threw. split; [done|].
    apply (span_trans 1 3 _ _ h1); (eapply span_weaken; [..|eassumption]; [lia|]); [by left|by right]. }
  intros h2 reply [H2 Hr]%send_post_gave. cbv beta zeta. destruct (r_status reply =? 401) eqn:E.
  - apply Z.eqb_eq in E. apply always_perform; [done|]. intros [].
    assert (span 2 (fun c => minting c \/
      sends m (repoPath o sfx) body (fun a => exists r0, gave a r0 /\ r_status r0 = 401) c) h (Did (HSetToken None) tt :: h2)) as H3.
    { apply span_quiet; [done|by left|]. apply (span_trans 1 1 _ _ h1); (eapply span_weaken; [..|eassumption]; [lia|]).
      - by left.
      - intros c Hc. right. eapply sends_mono; [|exact Hc]. intros a Ha. by exists reply. }
    eapply always_bind_ok; [apply token_spec| |].
    { intros h' x [Hs Hx]. split; [done|].
      apply (span_trans 2 2 _ _ (Did (HSetToken None) tt :: h2)); (eapply span_weaken; [..|eassumption]; [lia|]).
      - intros c [Hc|Hc]; [by left|right]. by eapply sends_mono; [|exact Hc].
      - by left. }
    intros h3 token' [H4 _]. eapply always_mono; [apply send_spec; right|done|].
    { destruct H3 as (l & El & _), H4 as (l' & -> & _). rewrite El. intros l''. rewrite !app_assoc. apply HW. }
    intros h' [x|reply'] Hp.
    + apply send_post_threw in Hp as [Hx Hs]. split; [done|].
      apply (span_trans 2 2 _ _ (Did (HSetToken None) tt :: h2)).
      { eapply span_weaken; [..|exact H3]; [lia|].
        intros c [Hc|Hc]; [by left|right]. by eapply sends_mono; [|exact Hc]. }
      apply (span_trans 1 1 _ _ h3); (eapply span_weaken; [..|eassumption]; [lia|]); [by left|].
      intros c Hc. right. by eapply sends_mono; [|exact Hc].
    + apply send_post_gave in Hp as [Hs Hr']. split; [|done].
      apply (span_trans 2 2 _ _ (Did (HSetToken None) tt :: h2)).
      { eapply span_weaken; [..|exact H3]; [lia|].
        intros c [Hc|Hc]; [by left|right]. eapply sends_mono; [|exact Hc]. auto. }
      apply (span_trans 1 1 _ _ h3); (eapply span_weaken; [..|eassumption]; [lia|]); [by left|].
      intros c Hc. right. eapply sends_mono; [|exact Hc]. auto.
  - cbn [always hreturn]. split; [|done].
    apply (span_trans 1 3 _ _ h1); (eapply span_weaken; [..|eassumption]; [lia|]); [by left|].
    intros c Hc. right. eapply sends_mono; [|exact Hc]. auto.
Qed.

(** ** [createChangePr] *)

Definition refs_body (i : CreateChangePrInput) : option json :=
  Some (JObj [("ref", JStr ("refs/heads/" +:+ cc_branch i)); ("sha", JStr (cc_baseCommitSha i))]).

(** The file write carries the blob of the base. *)
Definition put_body (i : CreateChangePrInput) : option json :=
  Some (JObj [("message", JStr (cc_commitMessage i)); ("content", JStr (to_base64 (cc_content i)));
              ("sha", JStr (cc_baseBlobSha i)); ("branch", JStr (cc_branch i))]).

Definition pulls_body (i : CreateChangePrInput) : option json :=
  Some (JObj [("title", JStr (cc_title i)); ("head", JStr (cc_branch i)); ("base", JStr (tg_branch (this_target o)));
              ("body", JStr (cc_body i)); ("maintainer_can_modify", JBool false)]).

Definition on_branch_path (i : CreateChangePrInput) : string :=
  contents_path (cc_path i) +:+ "?ref=" +:+ encodeURIComponent (cc_branch i).

(** GitHub answered that the branch holds this file. *)
Definition saw (h : trace HAns) (i : CreateChangePrInput) (file : string * string) : Prop :=
  exists reply, replied h "GET" (repoPath o (on_branch_path i)) None reply /\ contents_of (cc_path i) reply = Some file.

Definition saw_base (h : trace HAns) (i : CreateChangePrInput) : Prop :=
  exists text, saw h i (cc_baseBlobSha i, text) /\ text <> cc_content i.

(** The branch holds the content: GitHub showed it, or accepted the write. *)
Definition file_done (h : trace HAns) (i : CreateChangePrInput) : Prop :=
  (exists sha, saw h i (sha, cc_content i)) \/
  exists reply, replied h "PUT" (repoPath o (contents_path SSO_FILE_PATH)) (put_body i) reply /\
    (r_status reply = 200 \/ r_status reply = 201).

Definition pulls_of_branch (branch : string) : string :=
  "/pulls?head=" +:+ encodeURIComponent (tg_owner (this_target o) +:+ ":" +:+ branch) +:+ "&state=all&per_page=5".

(** The pull request was created, or is one of ours on this branch that is not
    older than the request. *)
Definition pr_made (h : trace HAns) (i : CreateChangePrInput) (c : CreatedPr) : Prop :=
  exists pr, c = mkCreated (pi_number pr) (pi_url pr) /\
    ((exists reply, replied h "POST" (repoPath o "/pulls") (pulls_body i) reply /\ r_status reply = 201 /\
        toPr (r_json reply) = Some pr) \/
     (exists reply l, replied h "GET" (repoPath o (pulls_of_branch (cc_branch i))) None reply /\ r_status reply = 200 /\
        r_json reply = Some (JArr l) /\ pr ∈ our_prs o (cc_notBefore i) l)).

Definition guarded (i : CreateChangePrInput) : Prop :=
  test BRANCH_RE (cc_branch i) = true /\ cc_path i = SSO_FILE_PATH /\
  test SHA_RE (cc_baseCommitSha i) = true /\ test SHA_RE (cc_baseBlobSha i) = true.

Definition get_request (m p : string) (body : option json) : Prop :=
  m = "GET" /\ (exists sfx, p = repoPath o sfx) /\ body = None.

(** The requests of [createChangePr] other than those for a token. *)
Definition create_wire (i : CreateChangePrInput) (h : trace HAns) (m p : string) (body : option json) : Prop :=
  get_request m p body \/
  guarded i /\
  (m = "POST" /\ p = repoPath o "/git/refs" /\ body = refs_body i \/
   m = "PUT" /\ p = repoPath o (contents_path SSO_FILE_PATH) /\ body = put_body i /\ saw_base h i \/
   m = "POST" /\ p = repoPath o "/pulls" /\ body = pulls_body i /\ file_done h i).

(** A request for a pull request was answered, and not with 201. *)
Definition pulls_refused (c : call HAns) : Prop :=
  match c with
  | Did (HFetch m p _ _ _) a =>
      m = "POST" -> p = repoPath o "/pulls" -> exists r0, gave a r0 /\ r_status r0 <> 201
  | _ => True
  end.

Lemma replied_mono l h m p body reply : replied h m p body reply -> replied (l ++ h) m p body reply.
Proof. intros (b & t & a & Hin & Hg). exists b, t, a. split; [|done]. apply elem_of_app. by right. Qed.

Lemma saw_mono l h i file : saw h i file -> saw (l ++ h) i file.
Proof. intros (reply & Hr & Hc). exists reply. split; [by apply replied_mono|done]. Qed.

Lemma saw_base_mono l h i : saw_base h i -> saw_base (l ++ h) i.
Proof. intros (text & Hs & Ht). exists text. split; [by apply saw_mono|done]. Qed.

Lemma file_done_mono l h i : file_done h i -> file_done (l ++ h) i.
Proof.
  intros [[sha Hs]|(reply & Hr & Hst)]; [left; exists sha; by apply saw_mono|].
  right. exists reply. split; [by apply replied_mono|done].
Qed.

Lemma repoPath_inj a b : repoPath o a = repoPath o b -> a = b.
Proof. unfold repoPath. intros E. do 4 apply str_app_inj in E. done. Qed.

Lemma repoPath_not_mint a : repoPath o a <> mint_path o.
Proof. unfold repoPath, mint_path. rewrite !str_app_cons. done. Qed.

Lemma minting_refused c : minting c -> pulls_refused c.
Proof. destruct c as [[] r]; cbn; try done. intros (-> & -> & _) _ E. symmetry in E. by apply repoPath_not_mint in E. Qed.

Lemma other_refused m sfx body P c :
  m <> "POST" \/ sfx <> "/pulls" -> sends m (repoPath o sfx) body P c -> pulls_refused c.
Proof.
  destruct c as [[] r]; cbn; try done. intros [Hm|Hs] (-> & -> & _); [done|]. intros _ E. by apply repoPath_inj in E.
Qed.

Lemma threw_refused n m sfx body h h' :
  m <> "POST" \/ sfx <> "/pulls" -> span n (api_threw m sfx body) h h' -> span n pulls_refused h h'.
Proof.
  intros Hm Hs. eapply span_weaken; [..|exact Hs]; [done|].
  intros c [Hc|Hc]; [by apply minting_refused|by eapply other_refused].
Qed.

Lemma call_refused n m sfx body reply h h' :
  m <> "POST" \/ sfx <> "/pulls" -> span n (api_call m sfx body reply) h h' -> span n pulls_refused h h'.
Proof.
  intros Hm Hs. eapply span_weaken; [..|exact Hs]; [done|].
  intros c [Hc|Hc]; [by apply minting_refused|by eapply other_refused].
Qed.

Lemma pulls_call_refused n reply body h h' :
  r_status reply <> 201 -> span n (api_call "POST" "/pulls" body reply) h h' -> span n pulls_refused h h'.
Proof.
  intros Hr Hs. eapply span_weaken; [..|exact Hs]; [done|].
  intros c [Hc|Hc]; [by apply minting_refused|]. destruct c as [[] r]; cbn; try done.
  destruct Hc as (-> & -> & -> & [Hg|(r0 & Hg & Hs')]); intros _ _; [by exists reply|]. exists r0. split; [done|lia].
Qed.

Definition step_exn (x : Exn) : Prop :=
  (exists msg, x = GithubUnavailableError msg) \/ exists k msg, x = GitWriteError k msg /\ k <> KUnknown.

(** A step that asks for no pull request. *)
Definition step_post {A} (n : nat) (h0 : trace HAns) (R : trace HAns -> A -> Prop) (h' : trace HAns) (out : result Exn A)
    : Prop :=
  span n pulls_refused h0 h' /\ match out with inl x => step_exn x | inr a => R h' a end.

Lemma call_rule {A} deadline i h h0 n m sfx body (f : Reply -> HProg A) post :
  m <> "POST" \/ sfx <> "/pulls" -> (forall l, create_wire i (l ++ h) m (repoPath o sfx) body) ->
  span n pulls_refused h0 h ->
  (forall h' x, span (n + 4) pulls_refused h0 h' -> step_exn x -> post h' (inl x)) ->
  (forall h' reply, span (n + 4) pulls_refused h0 h' -> (exists l, h' = l ++ h) ->
    replied h' m (repoPath o sfx) body reply -> always (op_ok deadline (create_wire i)) post h' (f reply)) ->
  always (op_ok deadline (create_wire i)) post h (bind_ok (api sign o deadline m sfx body) f).
Proof.
  intros Hm HW H0 Hx Hf. eapply always_bind_ok; [by apply api_spec|..]; unfold api_post.
  - intros h' x [Hex Hs]. apply Hx; [|by left]. eapply span_trans; [exact H0|]. by eapply threw_refused.
  - intros h' reply [Hs Hr]. apply Hf; [| |done].
    + eapply span_trans; [exact H0|]. by eapply call_refused.
    + destruct Hs as (l & -> & _). eauto.
Qed.

Lemma get_wire i h sfx : create_wire i h "GET" (repoPath o sfx) None.
Proof. left. split_and!; [done|eauto|done]. Qed.

Lemma unavailable_exn msg : step_exn (GithubUnavailableError msg).
Proof. left. by eexists. Qed.

Lemma refuse_exn reply step : step_exn (GitWriteError (if r_status reply =? 409 then KConflict else KRejected) step).
Proof. right. eexists _, _. split; [done|]. by destruct (r_status reply =? 409). Qed.

Lemma definite_exn k msg : k <> KUnknown -> step_exn (GitWriteError k msg).
Proof. right. eauto. Qed.

#[local] Hint Resolve unavailable_exn refuse_exn definite_exn : beluga.

Lemma findBranch_spec deadline i h h0 n branch :
  span n pulls_refused h0 h ->
  always (op_ok deadline (create_wire i)) (step_post (n + 4) h0 (fun _ _ => True)) h (findBranch sign o deadline branch).
Proof.
  intros H0. unfold findBranch, guardBranch. destruct (test BRANCH_RE branch); cbn [bind_ok bind].
  2: { split; [by eapply span_weaken; [| |exact H0]; [lia|]|by apply definite_exn]. }
  eapply call_rule; [by left|intros l; apply get_wire|exact H0|by split|].
  intros h' reply Hs _ _. unfold hreturn, unavailable, hthrow.
  repeat case_match; split; auto with beluga.
Qed.

Lemma findPrByBranch_spec deadline i h h0 n branch notBefore :
  span n pulls_refused h0 h ->
  always (op_ok deadline (create_wire i))
    (step_post (n + 4) h0 (fun h' out =>
      (forall pr, out = Some pr -> exists reply l, replied h' "GET" (repoPath o (pulls_of_branch branch)) None reply /\
        r_status reply = 200 /\ r_json reply = Some (JArr l) /\ pr ∈ our_prs o notBefore l) /\
      exists l, h' = l ++ h)) h
    (findPrByBranch sign o deadline branch notBefore).
Proof.
  intros H0. unfold findPrByBranch, guardBranch. destruct (test BRANCH_RE branch); cbn [bind_ok bind].
  2: { split; [by eapply span_weaken; [| |exact H0]; [lia|]|by apply definite_exn]. }
  eapply call_rule; [by left|intros l; apply get_wire|exact H0|by split|].
  intros h' reply Hs Hl Hr. unfold hreturn, unavailable, hthrow.
  destruct (r_json reply) as [[| | | |l|]|] eqn:Ej; try (split; auto with beluga).
  destruct (r_status reply =? 200) eqn:E200; [|split; auto with beluga]. apply Z.eqb_eq in E200.
  split; [done|]. split; [|done]. intros pr Hpr. exists reply, l. split_and!; [done..|].
  unfold pick_pr in Hpr. destruct (List.find _ _) as [p|] eqn:Ef; [injection Hpr as ->|].
  - apply List.find_some in Ef as [Ef _]. by apply list_elem_of_In.
  - by apply head_Some_elem_of in Hpr.
Qed.

Lemma readContents_spec deadline i h h0 n :
  span n pulls_refused h0 h ->
  always (op_ok deadline (create_wire i))
    (step_post (n + 4) h0 (fun h' file => (forall f, file = Some f -> saw h' i f) /\ exists l, h' = l ++ h)) h
    (readContents sign o deadline (cc_path i) (cc_branch i)).
Proof.
  intros H0. unfold readContents.
  eapply call_rule; [by left|intros l; apply get_wire|exact H0|by split|].
  intros h' reply Hs Hl Hr. unfold hreturn, unavailable, hthrow.
  case_match; [split; [done|by split]|]. destruct (contents_of _ _) as [file|] eqn:Ec.
  - split; [done|]. split; [|done]. intros f [= <-]. by exists reply.
  - split; auto with beluga.
Qed.

Lemma ensure_branch_spec deadline i h h0 :
  guarded i -> span 0 pulls_refused h0 h ->
  always (op_ok deadline (create_wire i)) (step_post 8 h0 (fun _ _ => True)) h (ensure_branch sign o deadline i).
Proof.
  intros Hg H0. unfold ensure_branch.
  assert (forall n h' x, (n <= 8)%nat -> span n pulls_refused h0 h' -> step_exn x ->
    step_post 8 h0 (fun _ (_ : unit) => True) h' (inl x)) as Hx.
  { intros n h' x Hn Hs Hex. split; [|done]. by eapply span_weaken; [| |exact Hs]. }
  eapply call_rule; [by right| |exact H0|intros h' x; apply Hx; lia|].
  { intros l. right. split; [done|]. by left. }
  intros h' reply Hs _ _. unfold refuse, hthrow, hreturn.
  destruct (r_status reply =? 201).
  { split; [|done]. by eapply span_weaken; [| |exact Hs]; [lia|]. }
  cbv zeta. destruct (_ && _); [|eapply Hx; [|exact Hs|auto with beluga]; lia].
  eapply always_bind_ok; [apply findBranch_spec, Hs|..].
  - intros h2 x [Hs2 Hex]. eapply Hx; [|exact Hs2|done]. lia.
  - intros h2 [sha|] [Hs2 _]; [by split|]. eapply Hx; [|exact Hs2|auto with beluga]. lia.
Qed.

Lemma ensure_file_spec deadline i h h0 :
  guarded i -> span 8 pulls_refused h0 h ->
  always (op_ok deadline (create_wire i)) (step_post 20 h0 (fun h' _ => file_done h' i)) h (ensure_file sign o deadline i).
Proof.
  intros Hg H0. unfold ensure_file, rejected, conflict, refuse, hthrow, hreturn.
  assert (forall n h' x, (n <= 20)%nat -> span n pulls_refused h0 h' -> step_exn x ->
    step_post 20 h0 (fun h' (_ : unit) => file_done h' i) h' (inl x)) as Hx.
  { intros n h' x Hn Hs Hex. split; [|done]. by eapply span_weaken; [| |exact Hs]. }
  assert (forall n h', (n <= 20)%nat -> span n pulls_refused h0 h' -> file_done h' i ->
    step_post 20 h0 (fun h' (_ : unit) => file_done h' i) h' (inr tt)) as Hr.
  { intros n h' Hn Hs Hd. split; [|done]. by eapply span_weaken; [| |exact Hs]. }
  eapply always_bind_ok; [by eapply readContents_spec|..].
  { intros h' x [Hs Hex]. eapply Hx; [|exact Hs|done]. lia. }
  intros h1 [[blobSha text]|] [Hs1 [Hf _]]; [|eapply Hx; [|exact Hs1|auto with beluga]; lia].
  specialize (Hf _ eq_refl). destruct (String.eqb_spec text (cc_content i)) as [->|Ht].
  { eapply Hr; [|exact Hs1|]; [lia|]. left. by exists blobSha. }
  destruct (String.eqb_spec blobSha (cc_baseBlobSha i)) as [->|Hb]; cbn [negb];
    [|eapply Hx; [|exact Hs1|auto with beluga]; lia].
  assert (cc_path i = SSO_FILE_PATH) as Ep by apply Hg. rewrite Ep at 1.
  eapply call_rule; [by left| |exact Hs1|intros h' x; apply Hx; lia|].
  { intros l. right. split; [done|]. right. left. split_and!; [done..|]. apply saw_base_mono. by exists text. }
  intros h2 put Hs2 _ Hput. destruct (r_status put =? 200) eqn:E200; cbn [negb andb].
  { apply Z.eqb_eq in E200. eapply Hr; [|exact Hs2|]; [lia|]. right. exists put. split; [done|by left]. }
  destruct (r_status put =? 201) eqn:E201; cbn [negb].
  { apply Z.eqb_eq in E201. eapply Hr; [|exact Hs2|]; [lia|]. right. exists put. split; [done|by right]. }
  destruct (_ || _); [|eapply Hx; [|exact Hs2|auto with beluga]; lia].
  eapply always_bind_ok; [by eapply readContents_spec|..].
  { intros h' x [Hs Hex]. eapply Hx; [|exact Hs|done]. lia. }
  intros h3 now [Hs3 [Hn _]]. case_bool_decide as En; [|eapply Hx; [|exact Hs3|auto with beluga]; lia].
  destruct now as [[sha text']|]; [|done]. injection En as ->.
  eapply Hr; [|exact Hs3|]; [lia|]. left. exists sha. by apply Hn.
Qed.

(** How [createChangePr] ends, before and after the exceptions are mapped. *)
Definition create_post (i : CreateChangePrInput) (h0 h' : trace HAns) (out : result Exn CreatedPr) : Prop :=
  span 28 (fun _ => True) h0 h' /\
  match out with
  | inr c => file_done h' i /\ pr_made h' i c
  | inl x => step_exn x /\ ((forall msg, x <> GithubUnavailableError msg) -> span 28 pulls_refused h0 h')
  end.

Lemma create_post_threw i h0 h' n x :
  (n <= 28)%nat -> span n pulls_refused h0 h' -> step_exn x -> create_post i h0 h' (inl x).
Proof.
  intros Hn Hs Hx. split; [by eapply span_weaken; [| |exact Hs]|].
  split; [done|]. intros _. by eapply span_weaken; [| |exact Hs].
Qed.

Lemma ensure_pr_spec deadline i h h0 :
  guarded i -> span 20 pulls_refused h0 h -> file_done h i ->
  always (op_ok deadline (create_wire i)) (create_post i h0) h (ensure_pr sign o deadline i).
Proof.
  intros Hg H0 Hd. unfold ensure_pr, refuse, unavailable, hthrow, hreturn.
  eapply always_bind_ok; [apply api_spec|..]; unfold api_post.
  { intros l. right. split; [done|]. do 2 right. split_and!; [done..|]. by apply file_done_mono. }
  { intros h' x [[msg ->] Hs]. split; [|split; [auto with beluga|intros Hn; by destruct (Hn msg)]].
    apply (span_trans 20 8 _ _ h); (eapply span_weaken; [..|eassumption]; [lia|done]). }
  intros h1 created [Hs Hr]. destruct (r_status created =? 201) eqn:E; cbv zeta.
  - apply Z.eqb_eq in E.
    assert (span 28 (fun _ => True) h0 h1) as Ht
      by (apply (span_trans 20 8 _ _ h); (eapply span_weaken; [..|eassumption]; [lia|done])).
    destruct (toPr (r_json created)) as [pr|] eqn:Epr; (split; [done|]).
    + split; [destruct Hs as (l & -> & _); by apply file_done_mono|].
      exists pr. split; [done|]. left. by exists created.
    + split; [auto with beluga|]. intros Hn. by destruct (Hn "pull-malformed").
  - apply Z.eqb_neq in E. assert (span 24 pulls_refused h0 h1) as H1.
    { apply (span_trans 20 4 _ _ h); [done|]. by eapply pulls_call_refused. }
    destruct (_ && _); [|eapply create_post_threw; [|exact H1|auto with beluga]; lia].
    eapply always_bind_ok; [by eapply findPrByBranch_spec|..].
    { intros h' x [Hs' Hx]. eapply create_post_threw; [|exact Hs'|done]. lia. }
    intros h2 [pr|] [Hs2 [Hf [l ->]]].
    + split; [by eapply span_weaken; [| |exact Hs2]; [lia|]|].
      destruct Hs as (l1 & -> & _). split; [by do 2 apply file_done_mono|].
      exists pr. split; [done|]. right. by apply Hf.
    + eapply create_post_threw; [|exact Hs2|auto with beluga]. lia.
Qed.

Lemma createChangePrUnguarded_spec deadline i h :
  always (op_ok deadline (create_wire i)) (create_post i h) h (createChangePrUnguarded sign o deadline i).
Proof.
  unfold createChangePrUnguarded, guardBranch, rejected, hthrow.
  assert (forall x, step_exn x -> create_post i h h (inl x)) as Hx.
  { intros x. apply (create_post_threw _ _ _ 0); [lia|apply span_refl]. }
  destruct (test BRANCH_RE _) eqn:E1; cbn [bind_ok bind]; [|apply Hx; auto with beluga].
  destruct (String.eqb_spec (cc_path i) SSO_FILE_PATH) as [E2|]; cbn [negb]; [|apply Hx; auto with beluga].
  destruct (test SHA_RE (cc_baseCommitSha i)) eqn:E3; cbn [negb orb]; [|apply Hx; auto with beluga].
  destruct (test SHA_RE (cc_baseBlobSha i)) eqn:E4; cbn [negb]; [|apply Hx; auto with beluga].
  assert (guarded i) as Hg by done.
  eapply always_bind_ok; [apply ensure_branch_spec; [done|apply span_refl]|..].
  { intros h' x [Hs Hex]. eapply create_post_threw; [|exact Hs|done]. lia. }
  intros h1 [] [H1 _]. eapply always_bind_ok; [by apply ensure_file_spec|..].
  { intros h' x [Hs Hex]. eapply create_post_threw; [|exact Hs|done]. lia. }
  intros h2 [] [H2 Hd]. by apply ensure_pr_spec.
Qed.

(** The calls and the end of [createChangePr], with the deadline from its first
    look at the clock. *)
Definition created_post (i : CreateChangePrInput) (h' : trace HAns) (out : result Exn CreatedPr) : Prop :=
  (fetches h' <= 28)%nat /\
  match out with
  | inr c => file_done h' i /\ pr_made h' i c
  | inl (GitWriteError KUnknown _) => True
  | inl (GitWriteError _ _) => Forall pulls_refused h'
  | inl _ => False
  end.

Lemma createChangePr_spec i now :
  always (op_ok (Some (now + this_createDeadlineMs o)) (create_wire i)) (created_post i) [Did HNow now]
    (catch (createChangePrUnguarded sign o (Some (now + this_createDeadlineMs o)) i) (fun x => hthrow (git_exn x))).
Proof.
  assert (forall n (Q : call HAns -> Prop) h', span n Q [Did HNow now] h' -> Q (Did HNow now) ->
    (fetches h' <= n)%nat /\ Forall Q h') as Hspan.
  { intros n Q h' (l & -> & Hl & HQ) H0. rewrite fetches_app. split; [cbn; lia|].
    apply Forall_app. split; [done|by constructor]. }
  eapply always_bind; [apply createChangePrUnguarded_spec|]. intros h' [x|c] [Hs Ho].
  - apply (Hspan _ _ _) in Hs as [Hf _]; [|done]. split; [done|]. destruct Ho as [[[msg ->]|(k & msg & -> & Hk)] Hr]; [done|].
    destruct (Hspan 28%nat pulls_refused h' (Hr ltac:(done)) I) as [_ HF]. by destruct k.
  - apply (Hspan _ _ _) in Hs as [Hf _]; [|done]. by split.
Qed.
End client.

(** ** Histories and traces *)

Section histories.
Context `{JsLib}.

Lemma replied_history t m p body reply : replied (rev t ++ []) m p body reply <-> replied t m p body reply.
Proof. unfold replied. setoid_rewrite app_nil_r. setoid_rewrite list_elem_of_In. by setoid_rewrite <-in_rev. Qed.

Lemma saw_history o t i file : saw o (rev t ++ []) i file <-> saw o t i file.
Proof. unfold saw. by setoid_rewrite replied_history. Qed.

Lemma file_done_history o t i : file_done o (rev t ++ []) i <-> file_done o t i.
Proof. unfold file_done. setoid_rewrite saw_history. by setoid_rewrite replied_history. Qed.

Lemma create_wire_history o i t m p body : create_wire o i (rev t ++ []) m p body <-> create_wire o i t m p body.
Proof. unfold create_wire, saw_base. setoid_rewrite saw_history. by rewrite file_done_history. Qed.

Lemma pr_made_history o t i c : pr_made o (rev t ++ []) i c <-> pr_made o t i c.
Proof. unfold pr_made. by setoid_rewrite replied_history. Qed.

Lemma fetches_rev t : fetches (rev t ++ []) = fetches t.
Proof.
  rewrite app_nil_r. induction t as [|c t IH]; [done|]. cbn [rev]. rewrite fetches_app, IH.
  unfold fetches. cbn [List.filter]. destruct (is_fetch c); cbn; lia.
Qed.

(** The calls and the end of [createChangePr]; only its first call, the look at
    the clock, comes before the deadline is known. *)
Lemma createChangePr_calls sign o i t out :
  runs (createChangePr sign o i) t out ->
  created_post o i (rev t ++ []) out /\
  exists start t', t = Did HNow start :: t' /\
    forall t1 c t2, t' = t1 ++ c :: t2 ->
      ok_call (op_ok o (Some (start + this_createDeadlineMs o)) (create_wire o i)) (rev (Did HNow start :: t1) ++ []) c.
Proof.
  unfold createChangePr. cbn [bind perform runs]. destruct t as [|c t]; [done|]. intros (start & -> & Hr).
  pose proof (createChangePr_spec sign o i start) as Hs. split.
  - pose proof (always_post _ _ _ _ _ _ Hs Hr) as Hp. cbn [rev]. by rewrite <-app_assoc.
  - exists start, t. split; [done|]. intros t1 c t2 Et. pose proof (always_calls _ _ _ _ _ _ _ _ _ Hs Hr Et) as Hc.
    cbn [rev]. by rewrite <-app_assoc.
Qed.

End histories.

(** ** Theorems *)

Section theorems.
Context `{JsLib} (sign : string -> string) (o : GithubAppOptions).

(** [createChangePr] sends nothing but reads, token requests, and three writes:
    the branch from the base commit, the new content of sso.yaml over the blob
    of the base on that branch, and a pull request of the branch against the
    configured target.  The file is written only after GitHub showed that the
    branch still holds the base; the pull request is asked for only when the
    branch holds the content.  There is no merge, and no write to another path
    or branch. *)
Theorem create_requests i t out t1 m p b body timeout a t2 :
  runs (createChangePr sign o i) t out -> t = t1 ++ Did (HFetch m p b body timeout) a :: t2 ->
  m = "POST" /\ p = mint_path o /\ body = mint_body \/
  get_request o m p body \/
  guarded i /\
  (m = "POST" /\ p = repoPath o "/git/refs" /\ body = refs_body i \/
   m = "PUT" /\ p = repoPath o (contents_path SSO_FILE_PATH) /\ body = put_body i /\ saw_base o t1 i \/
   m = "POST" /\ p = repoPath o "/pulls" /\ body = pulls_body o i /\ file_done o t1 i).
Proof.
  intros Hr Et. apply createChangePr_calls in Hr as (_ & start & t' & Et' & Hc). rewrite Et in Et'.
  destruct t1 as [|c t1]; [done|]. injection Et' as -> Et'. symmetry in Et'.
  destruct (Hc _ _ _ Et') as [_ [Hm|Hw]]; [by left|right]. by apply create_wire_history.
Qed.

(** What [createChangePr] answers is the truth about GitHub.  It returns a
    pull request only when the branch holds the content and GitHub either
    created that pull request or listed it as one of this repository, on this
    branch and not older than the request; it answers [conflict] or [rejected]
    only when GitHub refused every request for a pull request it made, so none
    exists because of it; anything in doubt is [unknown], and nothing else is
    thrown. *)
Theorem create_answers i t out :
  runs (createChangePr sign o i) t out ->
  match out with
  | inr c => file_done o t i /\ pr_made o t i c
  | inl (GitWriteError KUnknown _) => True
  | inl (GitWriteError _ _) => Forall (pulls_refused o) t
  | inl _ => False
  end.
Proof.
  intros Hr. apply createChangePr_calls in Hr as ((_ & Hp) & _).
  assert (Forall (pulls_refused o) (rev t ++ []) -> Forall (pulls_refused o) t) as Hrev.
  { rewrite app_nil_r, !Forall_forall. intros HF c Hc. apply HF. apply list_elem_of_In. rewrite <-in_rev. by apply list_elem_of_In. }
  destruct out as [[]|c]; try done.
  - destruct k; auto.
  - by rewrite <-file_done_history, <-pr_made_history.
Qed.
End theorems.

(** ** Witnesses *)

Definition demo_sha : string := "0123456789abcdef0123456789abcdef01234567".

Definition demo_texts : list (string * json) :=
  [("token", JObj [("token", JStr "ghs_x"); ("expires_at", JStr "later")]);
   ("base", JObj [("sha", JStr demo_sha); ("path", JStr SSO_FILE_PATH); ("content", JStr (to_base64 "old"))]);
   ("pr", JObj [("number", JNum 7); ("html_url", JStr "https://github.com/x"); ("state", JStr "open")]);
   ("prs", JArr [JObj [("number", JNum 7); ("html_url", JStr "https://github.com/x"); ("state", JStr "open");
                       ("created_at", JStr "now"); ("head", JObj [("repo", JObj [("full_name", JStr "Dasomel/beluga")])])]])].

#[local] Instance demo_js : JsLib :=
  {| JSON_parse s := map_get s demo_texts; Number _ := NaN; Date_parse _ := Some 4000000000 |}.

Definition demo_sign (s : string) : string := s.

Definition demo_app : GithubAppOptions := mkOptions "1" "2" None None None.

Definition demo_create : CreateChangePrInput :=
  mkCreate "sso/flink-0123456789ab" demo_sha demo_sha SSO_FILE_PATH "new" "title" "body" None "message".

Definition demo_http (status : Z) (text : string) : FetchResult :=
  FetchReply (mkHttp status None None None None None (Some text)).

Definition demo_github (h : trace HAns) (e : Op) : HAns e :=
  match e with
  | HNow => 1000 * Z.of_nat (length h)
  | HRetryAt => 0
  | HLog _ | HSetRetryAt _ | HSetToken _ | HMinted => tt
  | HToken => Some ("ghs_x", 4000000000)
  | HJoinMint => None
  | HFetch m p _ _ _ =>
      if String.eqb m "PUT" then demo_http 200 EmptyString
      else if String.eqb m "GET" then demo_http 200 "base"
      else if String.eqb p (mint_path demo_app) then demo_http 201 "token"
      else demo_http 201 "pr"
  end.

Definition demo_created : trace HAns * result Exn CreatedPr := answer demo_github [] (createChangePr demo_sign demo_app demo_create).

Lemma create_requests_witness :
  exists b timeout a t2, demo_created.1 = take 18 demo_created.1 ++
    Did (HFetch "PUT" (repoPath demo_app (contents_path SSO_FILE_PATH)) b (put_body demo_create) timeout) a :: t2 /\
    guarded demo_create.
Proof.
  do 4 eexists. split; [vm_compute; reflexivity|].
  edestruct (create_requests demo_sign demo_app demo_create demo_created.1 demo_created.2 (take 18 demo_created.1))
    as [(E & _)|[(E & _)|[Hg _]]]; [apply answer_runs|vm_compute; reflexivity|discriminate E..|exact Hg].
Defined.

Lemma create_answers_witness :
  demo_created.2 = inr (mkCreated 7 "https://github.com/x") /\
  file_done demo_app demo_created.1 demo_create /\
  pr_made demo_app demo_created.1 demo_create (mkCreated 7 "https://github.com/x").
Proof.
  split; [vm_compute; reflexivity|].
  apply (create_answers demo_sign demo_app demo_create demo_created.1 (inr (mkCreated 7 "https://github.com/x"))).
  change (runs (createChangePr demo_sign demo_app demo_create) demo_created.1
    (inr (mkCreated 7 "https://github.com/x"))).
  replace (inr (mkCreated 7 "https://github.com/x")) with demo_created.2 by (vm_compute; reflexivity).
  apply answer_runs.
Defined.
