(* ===== verification/SsoReconciler.v ===== *)
(** * [domain-api/src/sso-change/{compensation,reconciler}.ts]

    The recovery loop as programs over the ports: one definition per method, with
    its guards, its calls in their order, and what it does when a call throws.
    The in-memory state of the class is [State]; [tick] is its single-flight guard. *)
From S2P Require Import Prelude JsBase JsJson PolicyValidate SsoStore SsoStoreProofs SsoSchema SsoEdit SsoPrText Effects.
From S2P Require Import SsoPorts.
From Stdlib Require Import Ascii.
From Stdlib Require String.
Open Scope prog_scope.

(** ** Constants *)

Definition DEFAULT_RECONCILE_INTERVAL_MS : Z := 30000.
Definition MIN_RECONCILE_INTERVAL_MS : Z := 5000.
Definition SUBMITTED_GRACE_MS : Z := 120000.
Definition LIST_LIMIT : nat := 100.
Definition SWEEP_WINDOW_MS : Z := 7 * 24 * 3600000.
Definition SWEEP_BATCH : nat := 20.
Definition SWEEP_RECHECK_MS : Z := 10 * 60000.
Definition PR_ADOPT_SKEW_MS : Z := 5 * 60000.
Definition GROUPS_FILE_PATH : string := "policies/groups.yaml".

(** ** Compensation *)

Definition isTerminalLoss (s : ChangeStage) : bool :=
  match s with Failed | Rejected => true | _ => false end.

Definition orphan_event (current : ChangeRecord) (prNumber : Z) (actor : string * option string)
    (closed : bool) (source : option string) : NewEvent :=
  mkEvent (Some (cr_id current)) (Stage (cr_stage current)) actor.1 actor.2 (Some (cr_endpoint current))
    None None None (Some prNumber) None None None
    (Some (JObj ([("compensation", JStr (if closed then "closed_orphan_pr" else "close_orphan_pr_failed"));
                  ("prNumber", JNum prNumber)] ++
                 match source with Some s => [("source", JStr s)] | None => [] end))).

Definition closeOrphanPr (current : ChangeRecord) (prNumber : Z) (actor : string * option string)
    (log : string -> prog Ans unit) (source : option string) : prog Ans unit :=
  await r := perform (EClosePr prNumber) in
  await closed := (match r with
                   | inr _ => Ret true
                   | inl x =>
                       await _ := log ("could not close orphan pull request #" +:+ pretty prNumber +:+
                                       " of request " +:+ cr_id current +:+ ": " +:+ exn_message x) in
                       Ret false
                   end) in
  await e := perform (ERecord (orphan_event current prNumber actor closed source)) in
  match e with
  | inr _ => Ret tt
  | inl x => log ("could not record closed_orphan_pr for request " +:+ cr_id current +:+ ": " +:+ exn_message x)
  end.

(** ** The reconciler *)

(** [loggedOrphans], [sweptAt]. *)
Record State := mkState { st_logged : list Z; st_swept : list (string * Z) }.

(** [for (const a of l)] over a loop state. *)
Fixpoint fold_prog {A S} (l : list A) (f : S -> A -> prog Ans S) (s : S) : prog Ans S :=
  match l with
  | [] => Ret s
  | a :: l' => await s' := f s a in fold_prog l' f s'
  end.

Definition system_actor : string * option string := ("system:reconciler", None).

Definition notBefore (record : ChangeRecord) : Z := (cr_createdAt record - PR_ADOPT_SKEW_MS)%Z.

(** [{ source: "reconciler", ...detail }] *)
Definition move (record : ChangeRecord) (s : ChangeStage) (fields : TransitionFields) (reason : string)
    (detail : list (string * json)) : Prog (option ChangeRecord) :=
  perform (ETransition (cr_id record) (cr_stage record) s fields
    (mkTEvent (Some reason) (Some (JObj (("source", JStr "reconciler") :: detail))) None) None).

Definition openPr (record : ChangeRecord) (number : Z) (url reason : string) (closeIfOrphan : bool) : Prog unit :=
  attempt moved := move record PrOpen (mkFields (Some number) (Some url) None) reason [] in
  match moved with
  | Some _ => return_ tt
  | None =>
      if closeIfOrphan then
        attempt current := perform (EGet (cr_id record)) in
        match current with
        | Some c =>
            if isTerminalLoss (cr_stage c) then
              await _ := closeOrphanPr c number system_actor log None in return_ tt
            else return_ tt
        | None => return_ tt
        end
      else return_ tt
  end.

Section reconciler.
Context `{EditLib} (baseDomain : string) (argocd : bool).

Definition recovered_body (record : ChangeRecord) (diff : string) : PrBodyInput :=
  mkPrBody (cr_actorUsername record) (cr_actorSub record)
    (Some "(not available: the pull request was recreated by the recovery pass)")
    (cr_baseBlobSha record) (cr_sourceCommitSha record) diff.

Definition recovered_input (record : ChangeRecord) (change : BuiltChange) : CreateChangePrInput :=
  mkCreate (cr_branch record) (cr_sourceCommitSha record) (cr_baseBlobSha record) SSO_FILE_PATH
    (bc_editedText change) (prTitle (cr_endpoint record))
    (prBody (recovered_body record (bc_diff change))) (Some (notBefore record))
    (commitMessage (cr_endpoint record) (cr_actorUsername record) (cr_actorSub record)).

(** Both reads are started before either is awaited. *)
Definition rebuild (record : ChangeRecord) : Prog CreateChangePrInput :=
  await sso := perform (EReadFile SSO_FILE_PATH (cr_sourceCommitSha record)) in
  await groups := perform (EReadFile GROUPS_FILE_PATH (cr_sourceCommitSha record)) in
  match sso, groups with
  | inl x, _ => throw x
  | _, inl x => throw x
  | inr (blobSha, text), inr (_, groupsText) =>
      if negb (String.eqb blobSha (cr_baseBlobSha record)) || negb (String.eqb (gitBlobSha text) (cr_baseBlobSha record))
      then throw (OtherError "base blob at the recorded commit does not match the request")
      else
        match parseGroupNames groupsText (GROUPS_FILE_PATH +:+ " at " +:+ cr_sourceCommitSha record) with
        | inl x => throw x
        | inr groupNames =>
            match buildChange text baseDomain groupNames (mkPatch (cr_endpoint record) (map JStr (cr_patch record))) with
            | inl e => throw (build_exn e)
            | inr change => return_ (recovered_input record change)
            end
        end
  end.

(** A row in [unknown_recovering] goes back to [submitted]; a stale [submitted] row
    is touched. *)
Definition resubmit (record : ChangeRecord) : Prog (option ChangeRecord) :=
  move record Submitted no_fields "re-running the idempotent writer"
    (if bool_decide (cr_stage record = UnknownRecovering) then [] else [("recovery", JStr "started")]).

Definition rewrite_pr (current : ChangeRecord) (rebuilt : CreateChangePrInput) : Prog unit :=
  await created := perform (ECreatePr rebuilt) in
  match created with
  | inr pr => openPr current (cp_prNumber pr) (cp_prUrl pr) "pull request recreated" true
  | inl (GitWriteError KConflict _) =>
      attempt _ := move current Failed no_fields "git conflict" [] in return_ tt
  | inl (GitWriteError KRejected _) =>
      attempt _ := move current Failed no_fields "git write rejected" [] in return_ tt
  | inl x => throw x
  end.

Definition recover (record : ChangeRecord) : Prog unit :=
  attempt pr := perform (EFindPr (cr_branch record) (Some (notBefore record))) in
  match pr with
  | Some p => openPr record (pi_number p) (pi_url p) "pull request found on GitHub" (bool_decide (pi_state p = PrStateOpen))
  | None =>
      attempt b := perform (EFindBranch (cr_branch record)) in
      match b with
      | None =>
          attempt _ := move record Failed no_fields "not found on GitHub" [("reason", JStr "not found on GitHub")] in
          return_ tt
      | Some _ =>
          attempt rebuilt := rebuild record in
          attempt current := resubmit record in
          match current with
          | None => return_ tt
          | Some c => rewrite_pr c rebuilt
          end
      end
  end.

Definition checkPr (record : ChangeRecord) : Prog unit :=
  attempt pr := match cr_prNumber record with
                         | Some n => perform (EGetPr n)
                         | None => perform (EFindPr (cr_branch record) (Some (notBefore record)))
                         end in
  match pr with
  | None => return_ tt
  | Some p =>
      if bool_decide (pi_state p = PrStateOpen) then return_ tt
      else
        match pi_merged p, pi_mergeCommitSha p with
        | true, Some sha =>
            attempt _ := move record Merged (mkFields None None (Some sha)) "pull request merged" [] in return_ tt
        | true, None => return_ tt
        | false, _ => attempt _ := move record Rejected no_fields "pull request closed without merge" [] in return_ tt
        end
  end.

(** The loop over the applications: [false] when one is not there yet. *)
Fixpoint all_synced (mergeCommitSha : string) (apps : list string) : Prog bool :=
  match apps with
  | [] => return_ true
  | name :: apps' =>
      attempt app := perform (EGetApp name) in
      match app_revision app with
      | Some revision =>
          if negb (String.eqb (app_syncStatus app) "Synced") then return_ false
          else
            attempt relation := perform (ECompare mergeCommitSha revision) in
            if bool_decide (relation ∈ [Identical; Ahead]) then all_synced mergeCommitSha apps' else return_ false
      | None => return_ false
      end
  end.

Definition checkApplied (record : ChangeRecord) : Prog unit :=
  if negb argocd then return_ tt
  else
    match cr_mergeCommitSha record with
    | None => return_ tt
    | Some sha =>
        attempt synced := all_synced sha ARGOCD_APPS in
        if synced : bool then
          attempt _ := move record Applied no_fields "both Applications synced at or after the merge commit" [] in
          return_ tt
        else return_ tt
    end.

Definition reconcile (record : ChangeRecord) : Prog unit :=
  match cr_stage record with
  | Submitted =>
      await now := perform ENow in
      if (now - cr_updatedAt record <? SUBMITTED_GRACE_MS)%Z then return_ tt else recover record
  | UnknownRecovering => recover record
  | PrOpen => checkPr record
  | Merged => checkApplied record
  | _ => return_ tt
  end.

Definition reconcile_logged (record : ChangeRecord) : prog Ans unit :=
  await r := reconcile record in
  match r with
  | inr _ => Ret tt
  | inl x => log ("request " +:+ cr_id record +:+ " (" +:+ stage_name (cr_stage record) +:+ "): " +:+ exn_message x)
  end.

(** ** The sweep *)

Definition sweep_record (record : ChangeRecord) : Prog unit :=
  attempt pr := perform (EFindPr (cr_branch record) (Some (notBefore record))) in
  match pr with
  | Some p =>
      if bool_decide (pi_state p = PrStateOpen) then
        await _ := closeOrphanPr record (pi_number p) system_actor log (Some "sweep") in return_ tt
      else return_ tt
  | None => return_ tt
  end.

Definition sweep_one (now : Z) (swept : list (string * Z)) (record : ChangeRecord)
    : prog Ans (list (string * Z)) :=
  if match map_get (cr_id record) swept with Some last => (now - last <? SWEEP_RECHECK_MS)%Z | None => false end
  then Ret swept
  else
    await r := sweep_record record in
    await _ := (match r with
                | inr _ => Ret tt
                | inl x => log ("sweep of request " +:+ cr_id record +:+ " (" +:+ stage_name (cr_stage record) +:+
                                "): " +:+ exn_message x)
                end) in
    Ret (map_set (cr_id record) now swept).

Definition keep_listed (records : list ChangeRecord) (swept : list (string * Z)) : list (string * Z) :=
  List.filter (fun kv : string * Z => bool_decide (kv.1 ∈ map cr_id records)) swept.

Definition sweepTerminal (s : State) : prog Ans State :=
  await now := perform ENow in
  await r := perform (EListRecentTerminal (now - SWEEP_WINDOW_MS)%Z SWEEP_BATCH) in
  match r with
  | inl x =>
      await _ := log ("could not list terminal requests for the sweep: " +:+ exn_message x) in Ret s
  | inr records =>
      await swept := fold_prog records (sweep_one now) (keep_listed records (st_swept s)) in
      Ret (mkState (st_logged s) swept)
  end.

(** ** Orphans *)

(** The state survives a throw: what was logged before it stays logged. *)
Fixpoint log_orphans (owned : list string) (prs : list (Z * string)) (logged : list Z)
    : prog Ans (list Z * result Exn unit) :=
  match prs with
  | [] => Ret (logged, inr tt)
  | (number, b) :: prs' =>
      if bool_decide (b ∈ owned) || bool_decide (number ∈ logged) then log_orphans owned prs' logged
      else
        await r := perform (EFindByBranch b) in
        match r with
        | inl x => Ret (logged, inl x)
        | inr (Some _) => log_orphans owned prs' logged
        | inr None =>
            await _ := log ("orphan pull request #" +:+ pretty number +:+ " (" +:+ b +:+
                            ") has no change request; not adopting it") in
            log_orphans owned prs' (set_add number logged)
        end
  end.

Definition logOrphans (records : list ChangeRecord) (s : State) : prog Ans State :=
  await prs := perform EListSsoPrs in
  await r := (match prs with
              | inl x => Ret (st_logged s, inl x)
              | inr prs => log_orphans (map cr_branch records) prs (st_logged s)
              end) in
  await _ := (match r.2 with
              | inl x => log ("could not list open sso/* pull requests: " +:+ exn_message x)
              | inr _ => Ret tt
              end) in
  Ret (mkState r.1 (st_swept s)).

(** ** A tick *)

Definition tickBody (s : State) : prog Ans State :=
  await r := perform (EListOpen LIST_LIMIT) in
  match r with
  | inl x => await _ := log ("could not list open requests: " +:+ exn_message x) in Ret s
  | inr records =>
      await _ := each records reconcile_logged in
      await s1 := sweepTerminal s in
      logOrphans records s1
  end.

(** [tickBody] throws nothing, so the only failure is the lease's. *)
Definition guardedTick (s : State) : prog Ans State :=
  await r := perform EAcquireLease in
  match r with
  | inl x => await _ := log ("tick failed: " +:+ exn_message x) in Ret s
  | inr false => Ret s
  | inr true =>
      await s' := tickBody s in
      await _ := perform EReleaseLease in
      Ret s'
  end.

End reconciler.

(** ** The timer and the single-flight guard *)

Definition SHUTDOWN_DRAIN_MS : Z := 10000.

(** [stopAndDrain]: not called; waiting for the tick in flight; or done, with [cut] when
    the limit passed first. *)
Inductive Drain := NotDraining | Draining | Drained (cut : bool).

(** [handle], [running] (the tick in flight, [inflight]), the number of ticks started. *)
Record Timer := mkTimer { tm_armed : bool; tm_running : bool; tm_started : nat; tm_drain : Drain }.

(** [start()], [stop()], [tick()], [stopAndDrain()], and what happens by itself: the
    interval fires, the tick in flight settles, the limit of the drain passes. *)
Inductive timer_event := TStart | TStop | TTick | TDrain | TFire | TSettle | TLimit.

Definition tick_timer (t : Timer) : Timer :=
  if tm_running t then t else mkTimer (tm_armed t) true (S (tm_started t)) (tm_drain t).

Definition timer_step (t : Timer) (e : timer_event) : Timer :=
  match e with
  | TStart => mkTimer true (tm_running t) (tm_started t) (tm_drain t)
  | TStop => mkTimer false (tm_running t) (tm_started t) (tm_drain t)
  | TTick => tick_timer t
  | TFire => if tm_armed t then tick_timer t else t
  | TSettle =>
      mkTimer (tm_armed t) false (tm_started t) (match tm_drain t with Draining => Drained false | d => d end)
  | TDrain => mkTimer false (tm_running t) (tm_started t) (if tm_running t then Draining else Drained false)
  | TLimit => mkTimer (tm_armed t) (tm_running t) (tm_started t) (match tm_drain t with Draining => Drained true | d => d end)
  end.

(** Once drained, the timer starts nothing: without another [start()] or [tick()], the
    ticks are those that had started, and unless the limit cut it none is in flight. *)
Lemma drain_is_final t events :
  (forall e, e ∈ events -> e = TFire \/ e = TSettle \/ e = TLimit \/ e = TStop) ->
  let t' := foldl timer_step (timer_step t TDrain) events in
  tm_started t' = tm_started t /\ tm_armed t' = false /\ (tm_drain t' = Drained false -> tm_running t' = false).
Proof.
  intros He t'. unfold t'. clear t'.
  enough (forall u, tm_armed u = false -> (tm_drain u = Drained false -> tm_running u = false) ->
    let u' := foldl timer_step u events in
    tm_started u' = tm_started u /\ tm_armed u' = false /\ (tm_drain u' = Drained false -> tm_running u' = false)) as Hall.
  { apply (Hall (timer_step t TDrain)); [done|]. cbn. by destruct (tm_running t). }
  revert He. induction events as [|e events IH]; intros He u Ha Hd; [done|]. cbn [foldl].
  assert (tm_armed (timer_step u e) = false /\ tm_started (timer_step u e) = tm_started u /\
    (tm_drain (timer_step u e) = Drained false -> tm_running (timer_step u e) = false)) as (A & <- & D).
  { destruct (He e ltac:(left)) as [-> |[-> |[-> | ->]]]; cbn; rewrite ?Ha; split_and!; try done; by destruct (tm_drain u). }
  apply IH; [|done|done]. intros e' H'. apply He. by right.
Qed.

(** [Math.max(options.intervalMs ?? DEFAULT, MIN)] *)
Definition interval_ms (requested : option Z) : Z :=
  Z.max (default DEFAULT_RECONCILE_INTERVAL_MS requested) MIN_RECONCILE_INTERVAL_MS.

(** ** Histories of calls

    What the statements about the flow say of the calls made so far, and the
    answers of a world in which everything works, for concrete runs. *)
(** The last answer is first in a history, last in a trace. *)
Lemma elem_of_history (c : call Ans) (t : trace Ans) : c ∈ rev t ++ [] <-> c ∈ t.
Proof. by rewrite app_nil_r, rev_alt, <-reverse_unfold, elem_of_reverse || rewrite app_nil_r, !list_elem_of_In, <-in_rev. Qed.

Definition no_write (t : trace Ans) : Prop := forall c, c ∈ t -> git_write c = false.

Lemma no_write_history t : no_write (rev t ++ []) <-> no_write t.
Proof. unfold no_write. by setoid_rewrite elem_of_history. Qed.

Lemma no_write_nil : no_write [].
Proof. unfold no_write. intros c Hc. by apply not_elem_of_nil in Hc. Qed.

Lemma no_write_cons c t : git_write c = false -> no_write t -> no_write (c :: t).
Proof. unfold no_write. intros Hc Ht x Hx. apply elem_of_cons in Hx as [->|Hx]; auto. Qed.

Create HintDb history.
#[export] Hint Resolve no_write_nil no_write_cons list_elem_of_here list_elem_of_further : history.

(** A record the store answered with. *)
Definition read_record (h : trace Ans) (r : ChangeRecord) : Prop :=
  (exists i x s f e v, Did (ETransition i x s f e v) (inr (Some r)) ∈ h) \/
  (exists i, Did (EGet i) (inr (Some r)) ∈ h).

(** Tidy up the case analysis of a walk. *)
Ltac facts :=
  repeat match goal with
  | H : negb _ = false |- _ => apply negb_false_iff in H
  | H : orb _ _ = false |- _ => apply orb_false_iff in H as [? ?]
  | H : String.eqb _ _ = true |- _ => apply String.eqb_eq in H
  | H : bool_decide _ = true |- _ => apply bool_decide_eq_true in H
  | H : bool_decide _ = false |- _ => apply bool_decide_eq_false in H
  | H : (if ?b then None else Some _) = _ |- _ => destruct b eqn:?; [try discriminate H|try discriminate H]
  end; simplify_eq/=.

(** What GitHub said of the pull request of the request: by its number when it has
    one, else by its branch, and then not one older than the request. *)
Definition found_pr (h : trace Ans) (record : ChangeRecord) (pr : option PrInfo) : Prop :=
  match cr_prNumber record with
  | Some n => Did (EGetPr n) (inr pr) ∈ h
  | None => Did (EFindPr (cr_branch record) (Some (notBefore record))) (inr pr) ∈ h
  end.

Lemma read_record_trace t r : read_record (rev t ++ []) r <-> read_record t r.
Proof. unfold read_record. by setoid_rewrite elem_of_history. Qed.

Lemma found_pr_trace t r o : found_pr (rev t ++ []) r o <-> found_pr t r o.
Proof. unfold found_pr. destruct (cr_prNumber r); apply elem_of_history. Qed.

(** ** A world in which everything works *)

Definition demo_record (s : ChangeStage) : ChangeRecord :=
  toRecord (updated_row 1000000 s no_fields (submitted_row 1000000 "r-1" (demo_input "k1" "p1"))).

Definition demo_sha : string := "0123456789abcdef0123456789abcdef01234567".

(** Everything works; the store still has [cas] of a moved request and knows [cur]. *)
Definition demo_answers (cur : ChangeRecord) (h : trace Ans) (e : Eff) : Ans e :=
  match e as e return Ans e with
  | ENow => 1000000
  | ELog _ | ERecordDetached _ | EReleaseLease => tt
  | EReady => true
  | ERecord _ => inr tt
  | EFindByKey _ => inr None
  | ETransition _ _ _ _ _ _ | EGet _ | EFindByBranch _ => inr (Some cur)
  | ESubmit i => inr (toRecord (submitted_row 1000000 "r-1" i), false)
  | EListOpen _ | EListRecentTerminal _ _ => inr [cur]
  | EAcquireLease => inr true
  | EReadBase _ => inr (mkBase "c0" demo_sha "admins" "example.org" demo_config ["admins"; "engineers"])
  | ECreatePr _ => inr (mkCreated 7 "https://github.com/o/r/pull/7")
  | EFindBranch _ => inr (Some "c1")
  | EFindPr _ _ | EGetPr _ =>
      inr (Some (mkPr 7 "https://github.com/o/r/pull/7" (Some 2000) PrStateOpen false None))
  | EClosePr n => inr (mkPr n "https://github.com/o/r/pull/7" (Some 2000) PrStateClosed false None)
  | ECompare _ _ => inr Identical
  | EListSsoPrs => inr []
  | EReadFile _ _ => inr ("b0", "admins")
  | EGetApp n => inr (mkApp n "Synced" (Some "m1") None)
  end.
