(* ===== verification/SsoRoutes.v ===== *)
(** * [domain-api/src/routes/ssoChanges.ts] and [schema/ssoChange.ts]

    The five routes as programs over the ports: the gates in the order of their
    middleware, the validation of the request, then the handler with its early
    returns and its [try]/[catch] blocks.  An uncaught exception is the outcome
    [inl]; the application answers it with 500. *)

From S2P Require Import Prelude JsBase JsRegex JsJson PolicyValidate SsoStore SsoSchema SsoEdit SsoPrText Effects.
From S2P Require Import SsoPorts SsoReconciler.
From Stdlib Require Import Ascii.
From Stdlib Require String.
Open Scope prog_scope.

(** ** Requests *)

Record Principal := mkPrincipal { p_sub : string; p_username : option string; p_groups : list string }.

(** What [registerSsoChangeRoutes] was given: the audit store, the Git writer,
    [SSO_WRITE_ENABLED], an adapter with [readBase]. *)
Record Deps := mkDeps { has_store : bool; has_writer : bool; write_enabled : bool; has_readBase : bool }.

Definition hex_lower (a : ascii) : bool := is_digit a || between 97 102 a.
Definition IDEMPOTENCY_KEY_RE : re := seq (replicate 32 (Chr hex_lower) ++ [Eol]).
Definition SHA_RE : re := seq (replicate 40 (Chr hex_lower) ++ [Eol]).
Definition MAX_REASON_LENGTH : nat := 500.

Record RequestBody := mkBody {
  rb_endpoint : string;
  rb_allowedGroups : list json;
  rb_reason : option string;
  rb_baseBlobSha : option string;
}.

Definition max_len (n : nat) (s : string) : bool := (String.length s <=? n)%nat.

Definition ssoChangeRequestBodySchema (j : json) : option RequestBody :=
  l ← strict ["endpoint"; "allowedGroups"; "reason"; "baseBlobSha"] j;
  endpoint ← map_get "endpoint" l ≫= dec_str (fun s => nonempty_string s && max_len 64 s);
  groups ← as_array (map_get "allowedGroups" l);
  reason ← optional (dec_str (max_len MAX_REASON_LENGTH)) (map_get "reason" l);
  sha ← optional (dec_str (test SHA_RE)) (map_get "baseBlobSha" l);
  if (length groups <=? 64)%nat then Some (mkBody endpoint groups reason sha) else None.

Definition ssoChangeCancelBodySchema (j : json) : option (option string) :=
  l ← strict ["reason"] j; optional (dec_str (max_len MAX_REASON_LENGTH)) (map_get "reason" l).

(** The parts of a request a validator reads: query, header, JSON body. *)
Record PostRequest := mkPost { q_dryRun : option string; q_key : option string; q_body : json }.

Definition postQuery (q : option string) : option bool :=
  match q with
  | None => Some false
  | Some s => if String.eqb s "true" then Some true else if String.eqb s "false" then Some false else None
  end.

Definition postHeaders (k : option string) : option (option string) :=
  match k with
  | None => Some None
  | Some s => if test IDEMPOTENCY_KEY_RE s then Some (Some s) else None
  end.

Definition validatePost (r : PostRequest) : option (bool * option string * RequestBody) :=
  dryRun ← postQuery (q_dryRun r); key ← postHeaders (q_key r);
  body ← ssoChangeRequestBodySchema (q_body r); Some (dryRun, key, body).

(** ** Answers *)

Record RecordView := mkView {
  v_id : string;
  v_stage : ChangeStage;
  v_endpoint : string;
  v_patch : list string;
  v_baseBlobSha : string;
  v_sourceCommitSha : string;
  v_branch : string;
  v_pr : option (Z * string);
  v_mergeCommitSha : option string;
  v_createdAt : Z;
  v_updatedAt : Z;
  v_diff : option string;
}.

Record Preview := mkPreview {
  pv_endpoint : string;
  pv_patch : list string;
  pv_before : option (list string);
  pv_after : list string;
  pv_baseBlobSha : string;
  pv_sourceCommitSha : string;
  pv_diff : string;
}.

Record Contract := mkContract {
  co_editableEndpoints : list string;
  co_requiredGroups : list string;
  co_availableGroups : list string;
  co_current : list (string * option (list string));
  co_sourceCommitSha : string;
  co_baseBlobSha : string;
  co_gitWriterConfigured : bool;
}.

Inductive Body :=
| BError (code message : string)
| BRecord (v : RecordView)
| BPreview (p : Preview)
| BContract (c : Contract)
| BList (l : list RecordView).

Record Response := mkResponse { r_status : Z; r_body : Body }.

Definition failure (status : Z) (code message : string) : Response := mkResponse status (BError code message).

Definition view (r : ChangeRecord) (diff : option string) : RecordView :=
  mkView (cr_id r) (cr_stage r) (cr_endpoint r) (cr_patch r) (cr_baseBlobSha r) (cr_sourceCommitSha r)
    (cr_branch r)
    (match cr_prNumber r, cr_prUrl r with Some n, Some u => Some (n, u) | _, _ => None end)
    (cr_mergeCommitSha r) (cr_createdAt r) (cr_updatedAt r) diff.

Definition ok_record (status : Z) (r : ChangeRecord) (diff : option string) : Response :=
  mkResponse status (BRecord (view r diff)).

(** ** The gates *)

Definition ROUTE_LIST_LIMIT : nat := 20.
Definition DENIED_AUDIT_INTERVAL_MS : Z := 10000.
Definition DENIED_AUDIT_MAX_SUBJECTS : nat := 1000.

(** [deniedAt] *)
Definition DeniedMap : Type := list (string * Z).

Definition denied_event (sub : string) (username : option string) (method path : string) : NewEvent :=
  mkEvent None Denied sub username None None None None None None None None
    (Some (JObj [("method", JStr method); ("path", JStr path)])).

(** The throttle: whether to record, and the map afterwards. *)
Definition deniedThrottle (now : Z) (sub : string) (denied : DeniedMap) : bool * DeniedMap :=
  if (now - default 0 (map_get sub denied) <? DENIED_AUDIT_INTERVAL_MS)%Z then (false, denied)
  else
    (true, map_set sub now (if (DENIED_AUDIT_MAX_SUBJECTS <=? length denied)%nat then [] else denied)).

Definition auditDenied (deps : Deps) (denied : DeniedMap) (p : Principal) (method path : string) : prog Ans DeniedMap :=
  if negb (has_store deps) then Ret denied
  else
    await now := perform ENow in
    let (record, denied') := deniedThrottle now (p_sub p) denied in
    if record then
      await _ := perform (ERecordDetached (denied_event (p_sub p) (p_username p) method path)) in Ret denied'
    else Ret denied'.

Definition adminGate (deps : Deps) (denied : DeniedMap) (principal : option Principal) (method path : string)
    : prog Ans (DeniedMap * option Response) :=
  match principal with
  | None => Ret (denied, Some (failure 401 "UNAUTHENTICATED" "Authentication required"))
  | Some p =>
      if negb (bool_decide (REQUIRED_GROUP ∈ p_groups p)) then
        await denied' := auditDenied deps denied p method path in
        Ret (denied', Some (failure 403 "FORBIDDEN" ("Membership of group '" +:+ REQUIRED_GROUP +:+ "' is required")))
      else Ret (denied, None)
  end.

Definition writeEnabledGate (deps : Deps) : prog Ans (option Response) :=
  Ret (if write_enabled deps then None
       else Some (failure 503 "CONSUMER_NOT_DEPLOYED" "SSO changes are not enabled on this deployment")).

Definition no_store : Response :=
  failure 503 "AUDIT_UNAVAILABLE" "Audit store is unavailable; no change was made".

Definition storeGate (deps : Deps) : prog Ans (option Response) :=
  if negb (has_store deps) then Ret (Some no_store)
  else await ready := perform EReady in Ret (if ready : bool then None else Some no_store).

Fixpoint run_gates (gates : list (prog Ans (option Response))) (handler : Prog Response) : Prog Response :=
  match gates with
  | [] => handler
  | g :: gates' =>
      await r := g in
      match r with Some answer => return_ answer | None => run_gates gates' handler end
  end.

Definition invalid_request : Response := failure 400 "VALIDATION_ERROR" "invalid request".

Definition route (deps : Deps) (denied : DeniedMap) (principal : option Principal) (method path : string)
    (gates : list (prog Ans (option Response))) (handler : Principal -> Prog Response)
    : prog Ans (DeniedMap * result Exn Response) :=
  await g := adminGate deps denied principal method path in
  match g.2, principal with
  | Some answer, _ => Ret (g.1, inr answer)
  | None, Some p => await r := run_gates gates (handler p) in Ret (g.1, r)
  | None, None => Ret (g.1, inr no_store)
  end.

(** ** Errors of the store *)

Definition audit_log (c : StoreErrorCode) : prog Ans unit := log ("[audit] store error: " +:+ store_message c).

Definition auditUnavailable (x : Exn) : Prog Response :=
  match x with
  | StoreError c =>
      await _ := audit_log c in return_ (failure 503 "AUDIT_UNAVAILABLE" "Audit store is unavailable")
  | _ => throw x
  end.

Definition storeFailure (x : Exn) : Prog Response :=
  match x with
  | StoreError OPEN_REQUEST_EXISTS =>
      return_ (failure 409 "OPEN_REQUEST_EXISTS" "An SSO change request is already open")
  | StoreError IDEMPOTENCY_KEY_COLLISION =>
      return_ (failure 409 "IDEMPOTENCY_KEY_COLLISION" "Idempotency-Key collides with an earlier request; retry with a new key")
  | StoreError IDEMPOTENCY_MISMATCH =>
      return_ (failure 422 "IDEMPOTENCY_MISMATCH" "Idempotency-Key was used with a different payload")
  | StoreError UNAVAILABLE => await _ := audit_log UNAVAILABLE in return_ no_store
  | _ => throw x
  end.

(** ** [transitionOrLocal] *)

Definition local_record (r : ChangeRecord) (s : ChangeStage) (f : TransitionFields) : ChangeRecord :=
  mkChange (cr_id r) s (cr_filePath r) (cr_endpoint r) (cr_idempotencyKey r) (cr_payloadSha256 r)
    (cr_baseBlobSha r) (cr_sourceCommitSha r) (cr_patch r) (cr_actorSub r) (cr_actorUsername r) (cr_branch r)
    (coalesce (tf_prNumber f) (cr_prNumber r)) (coalesce (tf_prUrl f) (cr_prUrl r)) (cr_mergeCommitSha r)
    (cr_createdAt r) (cr_updatedAt r) (cr_version r).

Definition transitionOrLocal (r : ChangeRecord) (s : ChangeStage) (f : TransitionFields) (reason : option string)
    : prog Ans ChangeRecord :=
  await moved :=
    (attempt moved := perform (ETransition (cr_id r) (cr_stage r) s f (mkTEvent reason None None) None) in
     match moved with
     | Some m => return_ (Some m)
     | None => perform (EGet (cr_id r))
     end) in
  match moved with
  | inr (Some current) => Ret current
  | inr None => Ret (local_record r s f)
  | inl x =>
      await _ := log ("[audit] transition of " +:+ cr_id r +:+ " to " +:+ stage_name s +:+ " failed: " +:+ exn_message x) in
      Ret (local_record r s f)
  end.

(** ** POST /api/v1/sso/change-requests *)

Definition str_prefix (n : nat) (s : string) : string := String.substring 0 n s.

Definition readBase (deps : Deps) (fresh : bool) : Prog SsoBase :=
  if has_readBase deps then perform (EReadBase fresh)
  else throw (SsoConfigError "SSO source does not support change requests").

Definition source_failure (x : Exn) : Prog Response :=
  match x with SsoConfigError m => return_ (failure 503 "SERVICE_UNAVAILABLE" m) | _ => throw x end.

Definition rejection_name (c : RejectionCode) : string :=
  match c with PATCH_REJECTED => "PATCH_REJECTED" | NO_EFFECTIVE_CHANGE => "NO_EFFECTIVE_CHANGE" end.

Definition changeBranch (endpoint key : string) : string := "sso/" +:+ endpoint +:+ "-" +:+ str_prefix 12 key.

Definition previewed_event (p : Principal) (reason : option string) (b : SsoBase) (c : BuiltChange) : NewEvent :=
  mkEvent None Previewed (p_sub p) (p_username p) (Some (bc_endpoint c)) None (Some (sb_blobSha b))
    (Some (bc_payloadSha256 c)) None None None reason
    (Some (JObj [("sourceCommitSha", JStr (sb_commitSha b));
                 ("before", match bc_before c with Some l => JStrs l | None => JNull end);
                 ("after", JStrs (bc_after c))])).

Definition preview (b : SsoBase) (c : BuiltChange) : Preview :=
  mkPreview (bc_endpoint c) (bc_after c) (bc_before c) (bc_after c) (sb_blobSha b) (sb_commitSha b) (bc_diff c).

Definition submit_input (p : Principal) (reason : option string) (key : string) (b : SsoBase) (c : BuiltChange)
    : SubmitInput :=
  mkSubmit SSO_FILE_PATH (bc_endpoint c) key (bc_payloadSha256 c) (sb_blobSha b) (sb_commitSha b) (bc_after c)
    (p_sub p) (p_username p) (changeBranch (bc_endpoint c) key) reason.

Definition create_input (p : Principal) (reason : option string) (key : string) (b : SsoBase) (c : BuiltChange)
    (record : ChangeRecord) : CreateChangePrInput :=
  mkCreate (changeBranch (bc_endpoint c) key) (sb_commitSha b) (sb_blobSha b) SSO_FILE_PATH (bc_editedText c)
    (prTitle (bc_endpoint c))
    (prBody (mkPrBody (p_username p) (p_sub p) reason (sb_blobSha b) (sb_commitSha b) (bc_diff c)))
    (Some (cr_createdAt record - PR_ADOPT_SKEW_MS)%Z)
    (commitMessage (bc_endpoint c) (p_username p) (p_sub p)).

Definition sso_change_log (line : string) : prog Ans unit := log ("[sso-change] " +:+ line).

(** The pull request exists. *)
Definition pr_created (p : Principal) (created : ChangeRecord) (pr : CreatedPr) (diff : string) : Prog Response :=
  await record := transitionOrLocal created PrOpen (mkFields (Some (cp_prNumber pr)) (Some (cp_prUrl pr)) None) None in
  if isTerminalLoss (cr_stage record) then
    await _ := closeOrphanPr record (cp_prNumber pr) (p_sub p, p_username p) sso_change_log None in
    return_ (failure 409 "REQUEST_NOT_ACTIVE"
      ("Request " +:+ cr_id created +:+ " was " +:+ stage_name (cr_stage record) +:+
       " while the pull request was created; the pull request was closed"))
  else return_ (ok_record 201 record (Some diff)).

(** Anything but a definite refusal leaves the outcome unknown. *)
Definition write_failed (created : ChangeRecord) (x : Exn) : Prog Response :=
  match x with
  | GitWriteError KConflict _ =>
      await _ := transitionOrLocal created Failed no_fields (Some "git conflict") in
      return_ (failure 409 "STALE_BASE" "GitHub reported a conflict; preview again")
  | GitWriteError KRejected _ =>
      await _ := transitionOrLocal created Failed no_fields (Some "git write rejected") in
      return_ (failure 502 "GIT_WRITE_FAILED" ("GitHub refused the change; request " +:+ cr_id created +:+ " failed"))
  | _ =>
      await _ := transitionOrLocal created UnknownRecovering no_fields (Some "git write outcome unknown") in
      return_ (failure 502 "GIT_WRITE_UNKNOWN"
        ("GitHub did not confirm the pull request; request " +:+ cr_id created +:+ " is recovering"))
  end.

Definition submitChange (p : Principal) (body : RequestBody) (key : string) (b : SsoBase) (c : BuiltChange)
    : Prog Response :=
  await r := perform (ESubmit (submit_input p (rb_reason body) key b c)) in
  match r with
  | inl x => storeFailure x
  | inr (record, true) => return_ (ok_record 200 record None)
  | inr (record, false) =>
      await w := perform (ECreatePr (create_input p (rb_reason body) key b c record)) in
      match w with
      | inr pr => pr_created p record pr (bc_diff c)
      | inl x => write_failed record x
      end
  end.

Definition previewChange (p : Principal) (body : RequestBody) (b : SsoBase) (c : BuiltChange) : Prog Response :=
  await r := perform (ERecord (previewed_event p (rb_reason body) b c)) in
  match r with
  | inl x => storeFailure x
  | inr _ => return_ (mkResponse 200 (BPreview (preview b c)))
  end.

Section routes.
Context `{EditLib}.

(** From the base file on; [key] is [None] for a preview. *)
Definition prepareChange (deps : Deps) (p : Principal) (body : RequestBody) (key : option string) : Prog Response :=
  await base := readBase deps (match key with Some _ => true | None => false end) in
  match base with
  | inl x => source_failure x
  | inr b =>
      if match key with Some _ => negb (bool_decide (rb_baseBlobSha body = Some (sb_blobSha b))) | None => false end
      then return_ (failure 409 "STALE_BASE" "gitops/values/sso.yaml changed since the preview; preview again")
      else
        match buildChange (sb_text b) (sb_baseDomain b) (sb_groupNames b) (mkPatch (rb_endpoint body) (rb_allowedGroups body)) with
        | inl (BuildRejected r) => return_ (failure 422 (rejection_name (rej_code r)) (rej_message r))
        | inl (Thrown m) => throw (OtherError m)
        | inr c =>
            match key with
            | None => previewChange p body b c
            | Some k => submitChange p body k b c
            end
        end
  end.

(** A replay answers from the record. *)
Definition replayOr (body : RequestBody) (key : string) (next : Prog Response) : Prog Response :=
  await r := perform (EFindByKey key) in
  match r with
  | inl x => storeFailure x
  | inr (Some existing) =>
      return_ (if String.eqb (cr_payloadSha256 existing) (payloadSha256 (mkPatch (rb_endpoint body) (rb_allowedGroups body)))
               then ok_record 200 existing None
               else failure 422 "IDEMPOTENCY_MISMATCH" "Idempotency-Key was used with a different payload")
  | inr None => next
  end.

Definition postHandler (deps : Deps) (r : PostRequest) (p : Principal) : Prog Response :=
  match validatePost r with
  | None => return_ invalid_request
  | Some (true, _, body) => prepareChange deps p body None
  | Some (false, key, body) =>
      if negb (has_writer deps) then
        return_ (failure 503 "GIT_WRITER_UNCONFIGURED" "Git write path is not configured")
      else
        match key with
        | None => return_ (failure 400 "VALIDATION_ERROR" "Idempotency-Key header is required")
        | Some k =>
            match rb_baseBlobSha body with
            | None => return_ (failure 400 "VALIDATION_ERROR" "baseBlobSha (from the preview) is required")
            | Some _ => replayOr body k (prepareChange deps p body (Some k))
            end
        end
  end.

Definition CHANGE_PATH : string := "/api/v1/sso/change-requests".

Definition postRoute (deps : Deps) (denied : DeniedMap) (principal : option Principal) (r : PostRequest)
    : prog Ans (DeniedMap * result Exn Response) :=
  route deps denied principal "POST" CHANGE_PATH [writeEnabledGate deps; storeGate deps] (postHandler deps r).

End routes.

(** ** GET /contract, GET / *)

Definition current_groups (b : SsoBase) (name : string) : option (list string) :=
  match List.find (fun e => String.eqb (ep_name e) name) (cf_endpoints (sb_config b)) with
  | Some e => ep_allowedGroups e
  | None => None
  end.

Definition contract (deps : Deps) (b : SsoBase) : Contract :=
  mkContract EDITABLE_ENDPOINTS [REQUIRED_GROUP] (sb_groupNames b)
    (map (fun name => (name, current_groups b name)) EDITABLE_ENDPOINTS)
    (sb_commitSha b) (sb_blobSha b) (has_writer deps).

Definition contractHandler (deps : Deps) (p : Principal) : Prog Response :=
  await base := readBase deps false in
  match base with
  | inl x => source_failure x
  | inr b => return_ (mkResponse 200 (BContract (contract deps b)))
  end.

Definition contractRoute (deps : Deps) (denied : DeniedMap) (principal : option Principal)
    : prog Ans (DeniedMap * result Exn Response) :=
  route deps denied principal "GET" (CHANGE_PATH +:+ "/contract") [writeEnabledGate deps; storeGate deps]
    (contractHandler deps).

Definition listHandler (status : option string) (p : Principal) : Prog Response :=
  if bool_decide (status = Some "open") then
    await r := perform (EListOpen ROUTE_LIST_LIMIT) in
    match r with
    | inl x => auditUnavailable x
    | inr l => return_ (mkResponse 200 (BList (map (fun r => view r None) l)))
    end
  else return_ invalid_request.

Definition listRoute (deps : Deps) (denied : DeniedMap) (principal : option Principal) (status : option string)
    : prog Ans (DeniedMap * result Exn Response) :=
  route deps denied principal "GET" CHANGE_PATH [writeEnabledGate deps; storeGate deps] (listHandler status).

(** ** POST /{id}/cancel *)

Definition cancel_event (record : ChangeRecord) (p : Principal) (detail : list (string * json)) : NewEvent :=
  mkEvent (Some (cr_id record)) (Stage (cr_stage record)) (p_sub p) (p_username p) (Some (cr_endpoint record))
    None None None None None None None (Some (JObj detail)).

(** [inr true]: the pull request is merged; [inr false]: it is closed, or there is none. *)
Definition closeRequestPr (record : ChangeRecord) : Prog bool :=
  attempt pr := match cr_prNumber record with
                         | Some n => perform (EGetPr n)
                         | None => perform (EFindPr (cr_branch record) (Some (notBefore record)))
                         end in
  match pr with
  | None => return_ false
  | Some p =>
      if pi_merged p then return_ true
      else if bool_decide (pi_state p = PrStateOpen) then
        attempt _ := perform (EClosePr (pi_number p)) in return_ false
      else return_ false
  end.

Definition close_failed (record : ChangeRecord) (p : Principal) (x : Exn) : Prog Response :=
  let text := match x with GithubUnavailableError m => m | _ => "unexpected error" end in
  await r := perform (ERecord (cancel_event record p [("cancel", JStr "close_failed"); ("error", JStr text)])) in
  await _ := (match r with
              | inl e => log ("[audit] could not record close_failed event: " +:+ exn_message e)
              | inr _ => Ret tt
              end) in
  return_ (failure 502 "GITHUB_UNAVAILABLE"
    ("GitHub could not close the pull request; request " +:+ cr_id record +:+ " is still active")).

Definition finishCancel (record : ChangeRecord) (p : Principal) (reason : option string) : Prog Response :=
  await r := perform (ETransition (cr_id record) (cr_stage record) Failed no_fields
    (mkTEvent (Some (default "cancelled by admin" reason)) (Some (JObj [("cancelledBy", JStr (p_sub p))]))
       (Some (p_sub p, p_username p))) (Some (cr_version record))) in
  match r with
  | inl x => auditUnavailable x
  | inr None => return_ (failure 409 "REQUEST_NOT_ACTIVE" "Request changed state meanwhile")
  | inr (Some done) => return_ (ok_record 200 done None)
  end.

Definition cancelActive (record : ChangeRecord) (p : Principal) (reason : option string) : Prog Response :=
  await r := perform (ERecord (cancel_event record p [("cancel", JStr "requested"); ("by", JStr (p_sub p))])) in
  match r with
  | inl x => auditUnavailable x
  | inr _ =>
      await c := closeRequestPr record in
      match c with
      | inl x => close_failed record p x
      | inr true => return_ (failure 409 "REQUEST_NOT_ACTIVE" "The pull request is already merged")
      | inr false => finishCancel record p reason
      end
  end.

(** A young [submitted] row may still be creating its pull request. *)
Definition inFlight (record : ChangeRecord) : prog Ans bool :=
  if bool_decide (cr_stage record = Submitted) then
    await now := perform ENow in Ret (now - cr_updatedAt record <? SUBMITTED_GRACE_MS)%Z
  else Ret false.

Definition cancelHandler (deps : Deps) (valid_id : bool) (i : string) (body : option json) (p : Principal) : Prog Response :=
  match valid_id, match body with Some j => ssoChangeCancelBodySchema j | None => Some None end with
  | true, Some reason =>
      if negb (has_writer deps) then
        return_ (failure 503 "GIT_WRITER_UNCONFIGURED" "Git write path is not configured")
      else
        await r := perform (EGet i) in
        match r with
        | inl x => auditUnavailable x
        | inr None => return_ (failure 404 "NOT_FOUND" "No such change request")
        | inr (Some record) =>
            if negb (bool_decide (cr_stage record ∈ ACTIVE_STAGES)) then
              return_ (failure 409 "REQUEST_NOT_ACTIVE" ("Request is " +:+ stage_name (cr_stage record) +:+ ", not active"))
            else
              await young := inFlight record in
              if young : bool then
                return_ (failure 409 "REQUEST_IN_FLIGHT"
                  "The request was submitted moments ago and may still be creating its pull request; retry shortly")
              else cancelActive record p reason
        end
  | _, _ => return_ invalid_request
  end.

(** [valid_id]: the path parameter is a UUID. *)
Definition cancelRoute (deps : Deps) (denied : DeniedMap) (principal : option Principal) (valid_id : bool)
    (i : string) (body : option json) : prog Ans (DeniedMap * result Exn Response) :=
  route deps denied principal "POST" (CHANGE_PATH +:+ "/" +:+ i +:+ "/cancel")
    [writeEnabledGate deps; storeGate deps] (cancelHandler deps valid_id i body).

(** ** GET /{id} *)

Definition getHandler (valid_id : bool) (i : string) (p : Principal) : Prog Response :=
  if negb valid_id then return_ invalid_request
  else
    await r := perform (EGet i) in
    match r with
    | inl x => auditUnavailable x
    | inr None => return_ (failure 404 "NOT_FOUND" "No such change request")
    | inr (Some record) => return_ (ok_record 200 record None)
    end.

Definition getRoute (deps : Deps) (denied : DeniedMap) (principal : option Principal) (valid_id : bool) (i : string)
    : prog Ans (DeniedMap * result Exn Response) :=
  route deps denied principal "GET" (CHANGE_PATH +:+ "/" +:+ i) [storeGate deps] (getHandler valid_id i).
