(* ===== verification/Auth.v ===== *)
(** * [domain-api/src/auth/{authConfig,oidc,middleware}.ts] and [routes/me.ts]

    Who a request is from.  [jwtVerify] of the jose library is a parameter: what it
    answers for a token under the options of the verifier.  The middleware gives a
    principal to the routes behind it or answers itself. *)

From S2P Require Import Prelude JsBase JsRegex JsText JsJson JsLib PolicyValidate SsoSchema HttpClient Config SsoRoutes.
From Stdlib Require Import Ascii.
From Stdlib Require String.
Open Scope Z_scope.

(** ** [authConfig.ts] *)

Definition DEFAULT_OIDC_AUDIENCE : string := "beluga-manager".

Record OidcConfig := mkOidc { oc_issuer : string; oc_audience : string; oc_jwksUri : string }.

Inductive AuthConfig := AuthDisabled | AuthOidc (c : OidcConfig).

Definition loadAuthConfig `{Host} (env : Env) : result string AuthConfig :=
  let mode := default "oidc" (present (trimmed env "AUTH_MODE")) in
  if String.eqb mode "disabled" then
    if isProduction env then inl "AUTH_MODE=disabled is not allowed when NODE_ENV=production" else inr AuthDisabled
  else if negb (String.eqb mode "oidc") then inl "AUTH_MODE must be 'oidc' or 'disabled'"
  else
    match present (trimmed env "OIDC_ISSUER") with
    | None => inl "OIDC_ISSUER is required when AUTH_MODE=oidc"
    | Some issuer =>
        match new_URL issuer with
        | None => inl "OIDC_ISSUER is not a valid URL"
        | Some url =>
            if negb (String.eqb (w_protocol url) "https:") then inl "OIDC_ISSUER must use https"
            else if has_credentials url then inl "OIDC_ISSUER must not embed credentials"
            else if nonempty (w_search url) || nonempty (w_hash url)
            then inl "OIDC_ISSUER must not have a query or fragment"
            else if ends_with "/" issuer then inl "OIDC_ISSUER must not end with '/'"
            else
              inr (AuthOidc (mkOidc issuer (default DEFAULT_OIDC_AUDIENCE (present (trimmed env "OIDC_AUDIENCE")))
                (issuer +:+ "/protocol/openid-connect/certs")))
        end
    end.

(** ** [oidc.ts] *)

Definition CLOCK_TOLERANCE_S : Z := 30.
Definition MAX_TOKEN_LENGTH : Z := 8192.

Record VerifyOptions := mkVerify {
  vo_jwksUri : string;
  vo_algorithms : list string;
  vo_issuer : string;
  vo_audience : string;
  vo_clockTolerance : Z;
  vo_requiredClaims : list string;
}.

(** The payload of a verified token; the [code] of a [JOSEError]; any other error. *)
Inductive JoseAnswer := Verified (payload : json) | JoseError (code : string) | JoseFailure.

Inductive AuthErrorKind := Invalid | Unavailable.

Definition isInvalidTokenError (e : JoseAnswer) : bool :=
  match e with
  | JoseError code =>
      starts_with "ERR_JWT_" code || starts_with "ERR_JWS_" code || starts_with "ERR_JWE_" code ||
      String.eqb code "ERR_JOSE_ALG_NOT_ALLOWED" || String.eqb code "ERR_JWKS_NO_MATCHING_KEY" ||
      String.eqb code "ERR_JWKS_MULTIPLE_MATCHING_KEYS"
  | _ => false
  end.

Definition add_group (out : list string) (item : json) : list string :=
  match item with
  | JStr item =>
      let name := match item with String "/" rest => rest | _ => item end in
      if String.eqb name EmptyString || str_has "/" name then out
      else if bool_decide (name ∈ out) then out else out ++ [name]
  | _ => out
  end.

Definition normalizeGroups (claim : option json) : list string :=
  match claim with Some (JArr items) => foldl add_group [] items | _ => [] end.

(** [sub] is required by the options; jose leaves its type to the caller. *)
Definition toPrincipal (payload : json) : Principal :=
  mkPrincipal (String_opt (field payload "sub"))
    (present (as_string (field payload "preferred_username")))
    (normalizeGroups (field payload "groups")).

Definition verify_options (c : OidcConfig) : VerifyOptions :=
  mkVerify (oc_jwksUri c) ["RS256"] (oc_issuer c) (oc_audience c) CLOCK_TOLERANCE_S ["exp"; "sub"].

Definition verify (jwtVerify : VerifyOptions -> string -> JoseAnswer) (c : OidcConfig) (token : string)
    : result AuthErrorKind Principal :=
  if MAX_TOKEN_LENGTH <? Z.of_nat (String.length token) then inl Invalid
  else
    match jwtVerify (verify_options c) token with
    | Verified payload =>
        if negb (bool_decide (as_string (field payload "typ") = Some "Bearer")) then inl Invalid
        else inr (toPrincipal payload)
    | e => if isInvalidTokenError e then inl Invalid else inl Unavailable
    end.

(** ** [middleware.ts] *)

Definition PUBLIC_PATHS : list string := ["/api/v1/health"; "/api/v1/openapi.json"; "/api/v1/docs"].

Definition BEARER : re :=
  Cat (lit_ci "Bearer ")
    (Cat (Grp 1 (Cat (Plus (Chr token_char)) (Star true (Chr (fun a => Ascii.eqb a "="))))) Eol).

(** The answer and its [WWW-Authenticate] header. *)
Record Refusal := mkRefusal { rf_response : Response; rf_challenge : option string }.

Definition unauthorized (message : string) (invalidToken : bool) : Refusal :=
  mkRefusal (failure 401 "UNAUTHENTICATED" message)
    (Some (if invalidToken then "Bearer error=" +:+ dq +:+ "invalid_token" +:+ dq else "Bearer")).

(** [inr]: the request goes on, with the principal of the context. *)
Definition createAuthMiddleware (check : string -> result AuthErrorKind Principal) (path : string)
    (authorization : option string) : Refusal + option Principal :=
  if bool_decide (path ∈ PUBLIC_PATHS) then inr None
  else
    match authorization with
    | None => inl (unauthorized "Authentication required" false)
    | Some header =>
        match exec BEARER header ≫= capture 1 with
        | None => inl (unauthorized "Authorization header must be 'Bearer <token>'" true)
        | Some token =>
            match check token with
            | inr principal => inr (Some principal)
            | inl Invalid => inl (unauthorized "Invalid or expired token" true)
            | inl Unavailable =>
                inl (mkRefusal (failure 503 "SERVICE_UNAVAILABLE" "Authentication service unavailable") None)
            end
        end
    end.

Definition requireGroup (group : string) (principal : option Principal) : Refusal + unit :=
  match principal with
  | None => inl (unauthorized "Authentication required" false)
  | Some p =>
      if negb (bool_decide (group ∈ p_groups p))
      then inl (mkRefusal (failure 403 "FORBIDDEN" ("Membership of group '" +:+ group +:+ "' is required")) None)
      else inr tt
  end.

(** ** [me.ts] *)

Record Me := mkMe { me_sub : string; me_name : option string; me_groups : list string }.

Definition me (principal : option Principal) : Refusal + Me :=
  match principal with
  | None => inl (unauthorized "Authentication required" false)
  | Some p => inr (mkMe (p_sub p) (present (p_username p)) (p_groups p))
  end.
