(* ===== verification/SsoForm.v ===== *)
(** * The edit form of the SSO view: [web/src/views/SsoEditForm.tsx], [SsoView.tsx]

    The form is a state machine: the user selects groups and gives a reason, asks the
    server for a preview and submits the previewed draft under an idempotency key.  What
    it sends is proved against the server's own reading of a request. *)
From S2P Require Import Prelude JsBase JsRegex PolicyValidate JsText Uri JsJson JsLib Effects Session SsoStore SsoSchema.
From S2P Require Import SsoEdit Config Services Console ApiClient SsoPorts SsoRoutes Auth.
From Stdlib Require Import Ascii.
From Stdlib Require String.
Open Scope Z_scope.

(** ** Reading back what [JSON.stringify] writes: strings and lists of strings *)

Definition is_bslash (a : ascii) : bool := Ascii.eqb a "092"%char.
Definition is_dq (a : ascii) : bool := Ascii.eqb a "034"%char.

(** The character a JSON escape stands for, and what follows it. *)
Definition read_escape (s : string) : option (ascii * string) :=
  match s with
  | String a r =>
      if Ascii.eqb a "b" then Some ("008"%char, r)
      else if Ascii.eqb a "t" then Some ("009"%char, r)
      else if Ascii.eqb a "n" then Some ("010"%char, r)
      else if Ascii.eqb a "f" then Some ("012"%char, r)
      else if Ascii.eqb a "r" then Some ("013"%char, r)
      else if Ascii.eqb a "u" then
        match r with
        | String _ (String _ (String h (String l r))) =>
            h ← hex_value h; l ← hex_value l; Some (ascii_of_N (16 * h + l), r)
        | _ => None
        end
      else Some (a, r)
  | EmptyString => None
  end.

(** A character of a string literal. *)
Definition read_char (s : string) : option (ascii * string) :=
  match s with
  | String a r => if is_bslash a then read_escape r else Some (a, r)
  | EmptyString => None
  end.

(** The text of a character: not empty, no quote first, and read back whatever follows;
    for an escape of four digits the rest is cut off by its length. *)
Definition json_char_back (a : ascii) : bool :=
  match json_char a with
  | String x EmptyString => negb (is_bslash x) && negb (is_dq x) && Ascii.eqb x a
  | String x (String y EmptyString) =>
      is_bslash x && negb (Ascii.eqb y "u") && bool_decide (read_escape (str1 y) = Some (a, EmptyString))
  | String x (String y (String z (String w (String h (String l EmptyString))))) =>
      is_bslash x && Ascii.eqb y "u" && bool_decide ((h ← hex_value h; l ← hex_value l; Some (ascii_of_N (16 * h + l))) = Some a)
  | _ => false
  end.

Lemma read_escape_one y a r : Ascii.eqb y "u" = false -> read_escape (str1 y) = Some (a, EmptyString) -> read_escape (String y r) = Some (a, r).
Proof. unfold read_escape, str1. intros ->. repeat (destruct (Ascii.eqb y _); [by intros [= <-]|]). by intros [= <-]. Qed.

Lemma read_json_char a r : read_char (json_char a +:+ r) = Some (a, r) /\ exists x s, json_char a = String x s /\ is_dq x = false.
Proof.
  pose proof (all_bytes_spec json_char_back a ltac:(by vm_compute)) as H. unfold json_char_back in H.
  destruct (json_char a) as [|x [|y [|z [|w [|h [|l []]]]]]]; try done; rewrite ?str_app_cons, ?str_app_nil_l; cbn [read_char].
  - rewrite !andb_true_iff, !negb_true_iff in H. destruct H as [[-> Hd] ->%Ascii.eqb_eq]. eauto.
  - rewrite !andb_true_iff, !negb_true_iff, bool_decide_eq_true in H. destruct H as [[Hx Hy] He]. rewrite Hx.
    split; [by apply read_escape_one|]. exists x, (str1 y). split; [done|]. by apply Ascii.eqb_eq in Hx as ->.
  - rewrite !andb_true_iff, bool_decide_eq_true in H. destruct H as [[Hx ->%Ascii.eqb_eq] He]. rewrite Hx.
    split; [|eexists x, _; split; [done|]; by apply Ascii.eqb_eq in Hx as ->]. cbn.
    destruct (hex_value h) as [h'|]; [|done]. cbn in *. destruct (hex_value l) as [l'|]; [|done]. cbn in *. by injection He as ->.
Qed.

Lemma dq_app r : dq +:+ r = String "034"%char r.
Proof. done. Qed.

(** A string literal ends where it ends, whatever follows. *)
Lemma json_string_inj s s' r r' : json_string s +:+ r = json_string s' +:+ r' -> s = s' /\ r = r'.
Proof.
  unfold json_string. rewrite !str_app_assoc, !dq_app. intros [= E].
  rewrite <- !dq_app in E. revert s' E. induction s as [|a s IH]; intros [|a' s'] E; cbn [str_map] in E; rewrite ?str_app_nil_l, ?str_app_assoc in E.
  - rewrite !dq_app in E. by injection E as ->.
  - exfalso. destruct (read_json_char a' EmptyString) as [_ (x & w & Ew & Hx)]. rewrite Ew, str_app_cons, dq_app in E. by injection E as <- _.
  - exfalso. destruct (read_json_char a EmptyString) as [_ (x & w & Ew & Hx)]. rewrite Ew, str_app_cons, dq_app in E. by injection E as -> _.
  - destruct (read_json_char a (str_map json_char s +:+ dq +:+ r)) as [H1 _].
    destruct (read_json_char a' (str_map json_char s' +:+ dq +:+ r')) as [H2 _]. rewrite E, H2 in H1. injection H1 as -> E'.
    by destruct (IH s' (eq_sym E')) as [-> ->].
Qed.

Lemma join_app1 sep x l r :
  join sep (x :: l) +:+ r = x +:+ (match l with [] => r | _ => sep +:+ join sep l +:+ r end).
Proof. destruct l; [done|]. cbn [join]. by rewrite !str_app_assoc. Qed.

Lemma json_strings_inj l l' r r' :
  json_text (JStrs l) +:+ r = json_text (JStrs l') +:+ r' -> l = l' /\ r = r'.
Proof.
  unfold JStrs. cbn [json_text]. rewrite !map_map. cbn [json_text]. rewrite !str_app_assoc, !str_app_cons, !str_app_nil_l. intros [= E].
  destruct l as [|x l], l' as [|x' l']; cbn [map] in *.
  - cbn [join] in E. rewrite !str_app_nil_l in E. by injection E as ->.
  - exfalso. rewrite join_app1 in E. unfold json_string at 1 in E. by rewrite !str_app_assoc, dq_app in E.
  - exfalso. rewrite join_app1 in E. unfold json_string at 1 in E. by rewrite !str_app_assoc, dq_app in E.
  - revert x l' x' E. induction l as [|y l IH]; intros x l' x' E; rewrite !join_app1 in E; apply json_string_inj in E as [-> E].
    + destruct l' as [|y' l']; [|done]. cbn in E. by injection E as ->.
    + destruct l' as [|y' l']; [done|]. cbn [map] in E. injection E as E. by destruct (IH _ _ _ E) as [[= -> ->] ->].
Qed.

(** ** The form *)

(** [contract.current[endpoint] ?? null] *)
Definition current_of (contract : Contract) (endpoint : string) : option (list string) :=
  match map_get endpoint (co_current contract) with Some v => v | None => None end.

(** The groups that can be ticked: the required ones, the available ones, the current ones. *)
Definition form_options (contract : Contract) (endpoint : string) : list string :=
  set_of (co_requiredGroups contract ++ co_availableGroups contract ++ default [] (current_of contract endpoint)).

Record SsoEditForm := mkForm {
  fm_endpoint : string;
  fm_contract : Contract;
  fm_selected : list string;
  fm_reason : string;
  fm_preview : option (string * string);
  fm_key : option (string * string);
  fm_previewing : option SsoChangeDraft;
  fm_submitting : option (SsoChangeDraft * string * string);
  fm_submitted : option ChangeStage;
}.

Definition open_form (endpoint : string) (contract : Contract) : SsoEditForm :=
  mkForm endpoint contract (set_of (default [] (current_of contract endpoint) ++ co_requiredGroups contract)) EmptyString
    None None None None None.

Definition form_draft (f : SsoEditForm) : SsoChangeDraft :=
  mkDraft (fm_endpoint f) (List.filter (fun g => bool_decide (g ∈ fm_selected f)) (form_options (fm_contract f) (fm_endpoint f)))
    (present (Some (trim (fm_reason f)))).

(** The preview is that of the draft as it is now. *)
Definition previewStale (f : SsoEditForm) : bool :=
  match fm_preview f with
  | Some (base, fingerprint) => negb (String.eqb fingerprint (draftFingerprint (form_draft f) base))
  | None => false
  end.

Definition ended (stage : ChangeStage) : bool := match stage with Failed | Rejected => true | _ => false end.
Definition locked (f : SsoEditForm) : bool := match fm_submitted f with Some s => negb (ended s) | None => false end.

Definition toggle (group : string) (f : SsoEditForm) : SsoEditForm :=
  if bool_decide (group ∈ co_requiredGroups (fm_contract f)) then f
  else mkForm (fm_endpoint f) (fm_contract f)
    (if bool_decide (group ∈ fm_selected f) then List.filter (fun g => negb (String.eqb g group)) (fm_selected f) else fm_selected f ++ [group])
    (fm_reason f) (fm_preview f) (fm_key f) (fm_previewing f) (fm_submitting f) (fm_submitted f).

(** What the form asks the API for. *)
Inductive Sent := SentPreview (draft : SsoChangeDraft) | SentSubmit (draft : SsoChangeDraft) (baseBlobSha key : string).

(** The button is disabled while a request is on its way and after a success. *)
Definition runPreview (f : SsoEditForm) : SsoEditForm * list Sent :=
  if bool_decide (fm_previewing f <> None) || bool_decide (fm_submitting f <> None) || locked f then (f, [])
  else
    (mkForm (fm_endpoint f) (fm_contract f) (fm_selected f) (fm_reason f) (fm_preview f) (fm_key f) (Some (form_draft f)) None None,
     [SentPreview (form_draft f)]).

Definition preview_answered (answer : option string) (f : SsoEditForm) : SsoEditForm :=
  match fm_previewing f with
  | None => f
  | Some draft =>
      mkForm (fm_endpoint f) (fm_contract f) (fm_selected f) (fm_reason f)
        (match answer with Some base => Some (base, draftFingerprint draft base) | None => fm_preview f end)
        (fm_key f) None (fm_submitting f) (fm_submitted f)
  end.

(** [fresh]: the key [newIdempotencyKey()] would give now. *)
Definition key_for (fingerprint fresh : string) (f : SsoEditForm) : string :=
  match fm_key f with
  | Some (fp, key) => if String.eqb fp fingerprint then key else fresh
  | None => fresh
  end.

Definition runSubmit (fresh : string) (f : SsoEditForm) : SsoEditForm * list Sent :=
  match fm_preview f with
  | None => (f, [])
  | Some (base, _) =>
      if locked f || bool_decide (fm_submitting f <> None) || previewStale f then (f, [])
      else
        let draft := form_draft f in
        let fingerprint := draftFingerprint draft base in
        let key := key_for fingerprint fresh f in
        (mkForm (fm_endpoint f) (fm_contract f) (fm_selected f) (fm_reason f) (fm_preview f) (Some (fingerprint, key)) (fm_previewing f)
           (Some (draft, base, key)) None,
         [SentSubmit draft base key])
  end.

(** The answer to a submit: the stage of the record, or the code of the error. *)
Definition submit_answered (answer : ChangeStage + option string) (f : SsoEditForm) : SsoEditForm :=
  match fm_submitting f with
  | None => f
  | Some _ =>
      let key := match answer with
                 | inl stage => if ended stage then None else fm_key f
                 | inr code => if bool_decide (code = Some "IDEMPOTENCY_KEY_COLLISION") then None else fm_key f
                 end in
      mkForm (fm_endpoint f) (fm_contract f) (fm_selected f) (fm_reason f) (fm_preview f) key (fm_previewing f) None
        (match answer with inl stage => Some stage | inr _ => None end)
  end.

Inductive FormInput :=
| Toggle (group : string) | SetReason (text : string) | ReadContract (contract : Contract)
| ClickPreview | PreviewAnswered (answer : option string) | ClickSubmit (bytes : list Z) | SubmitAnswered (answer : ChangeStage + option string).

Definition form_step (f : SsoEditForm) (i : FormInput) : SsoEditForm * list Sent :=
  match i with
  | Toggle g => (toggle g f, [])
  | SetReason text => (mkForm (fm_endpoint f) (fm_contract f) (fm_selected f) text (fm_preview f) (fm_key f) (fm_previewing f) (fm_submitting f) (fm_submitted f), [])
  | ReadContract c => (mkForm (fm_endpoint f) c (fm_selected f) (fm_reason f) (fm_preview f) (fm_key f) (fm_previewing f) (fm_submitting f) (fm_submitted f), [])
  | ClickPreview => runPreview f
  | PreviewAnswered a => (preview_answered a f, [])
  | ClickSubmit bytes => runSubmit (newIdempotencyKey bytes) f
  | SubmitAnswered a => (submit_answered a f, [])
  end.

(** [SsoView] shows the form to administrators, for an endpoint of the contract. *)
Definition shows_form (groups : option (list string)) (contract : Contract) (editing : string) : bool :=
  isSsoAdmin groups && bool_decide (editing ∈ co_editableEndpoints contract).

(** [cancellable] of a request in the banner *)
Definition cancellable (stage : ChangeStage) : bool := match stage with Submitted | PrOpen | UnknownRecovering => true | _ => false end.

(** ** The fingerprint of a draft *)

Lemma json_text_four a b c d :
  json_text (JArr [a; b; c; d]) = "[" +:+ json_text a +:+ "," +:+ json_text b +:+ "," +:+ json_text c +:+ "," +:+ json_text d +:+ "]".
Proof. cbn [json_text map join]. by rewrite !str_app_assoc. Qed.

Lemma app_inj_head (x y y' : string) : x +:+ y = x +:+ y' -> y = y'.
Proof. induction x as [|a x IH]; [by rewrite !str_app_nil_l|]. rewrite !str_app_cons. by intros [= ?%IH]. Qed.

(** Two drafts have one fingerprint exactly when they ask for the same: one endpoint, the
    same groups in some order, one reason, over one base. *)
Lemma fingerprint_same d d' base base' :
  draftFingerprint d base = draftFingerprint d' base' <->
  sd_endpoint d = sd_endpoint d' /\ sd_allowedGroups d ≡ₚ sd_allowedGroups d' /\
  default EmptyString (sd_reason d) = default EmptyString (sd_reason d') /\ base = base'.
Proof.
  unfold draftFingerprint. split.
  - rewrite !json_text_four. intros E%app_inj_head. apply (json_string_inj (sd_endpoint d) (sd_endpoint d')) in E as [He E%app_inj_head].
    apply json_strings_inj in E as [Eg E%app_inj_head].
    apply (json_string_inj (default EmptyString (sd_reason d)) (default EmptyString (sd_reason d'))) in E as [Er E%app_inj_head].
    apply (json_string_inj base base') in E as [Eb _]. split_and!; try done.
    by rewrite <- (js_sort_perm str_cmp (sd_allowedGroups d)), Eg, js_sort_perm.
  - intros (-> & Hp & -> & ->). by rewrite (js_sort_str_canonical _ _ Hp).
Qed.

(** ** What the SSO edit form sends, and how the server reads it *)
Local Arguments draftFingerprint : simpl never.
Local Arguments max_len : simpl never.
Local Arguments nonempty_string : simpl never.
Local Arguments test : simpl never.

(** ** The runs of a form *)

(** The contract the server sends requires the administrators. *)
Definition served (c : Contract) : Prop := co_requiredGroups c = [REQUIRED_GROUP].

Definition keys_of (i : FormInput) : list string := match i with ClickSubmit bytes => [newIdempotencyKey bytes] | _ => [] end.
Definition previews_of (i : FormInput) (f : SsoEditForm) : list (SsoChangeDraft * string) :=
  match i, fm_previewing f with PreviewAnswered (Some base), Some d => [(d, base)] | _, _ => [] end.

(** The generator never gives a key twice and gives sixteen bytes; contracts come from
    the server. *)
Definition environment (keys : list string) (i : FormInput) : Prop :=
  match i with
  | ClickSubmit bytes => length bytes = 16%nat /\ Forall (fun b => 0 <= b < 256) bytes /\ newIdempotencyKey bytes ∉ keys
  | ReadContract c => served c
  | _ => True
  end.

(** [form_run sent previewed keys f]: a form sent [sent], the server answered the previews
    [previewed] with their base, [keys] were generated, and the form is in [f]. *)
Inductive form_run : list Sent -> list (SsoChangeDraft * string) -> list string -> SsoEditForm -> Prop :=
| form_opened endpoint contract : served contract -> form_run [] [] [] (open_form endpoint contract)
| form_next sent previewed keys f i : form_run sent previewed keys f -> environment keys i ->
    form_run (sent ++ (form_step f i).2) (previewed ++ previews_of i f) (keys ++ keys_of i) (form_step f i).1.

Definition key_text (k : string) : bool := (String.length k =? 32)%nat && str_all hex_lower k.

Definition good_draft (d : SsoChangeDraft) : Prop := NoDup (sd_allowedGroups d) /\ REQUIRED_GROUP ∈ sd_allowedGroups d.

(** What was previewed, up to the order of the groups. *)
Definition previewed_as (previewed : list (SsoChangeDraft * string)) (d : SsoChangeDraft) (base : string) : Prop :=
  exists d', (d', base) ∈ previewed /\ draftFingerprint d' base = draftFingerprint d base.

Record form_ok (sent : list Sent) (previewed : list (SsoChangeDraft * string)) (keys : list string) (f : SsoEditForm) : Prop := {
  fo_contract : served (fm_contract f);
  fo_required : REQUIRED_GROUP ∈ fm_selected f;
  fo_previewing : forall d, fm_previewing f = Some d -> SentPreview d ∈ sent;
  fo_preview : forall base fp, fm_preview f = Some (base, fp) -> exists d, (d, base) ∈ previewed /\ fp = draftFingerprint d base;
  fo_previewed : forall d base, (d, base) ∈ previewed -> SentPreview d ∈ sent;
  fo_key : forall fp k, fm_key f = Some (fp, k) -> k ∈ keys /\
    forall d base, SentSubmit d base k ∈ sent -> draftFingerprint d base = fp;
  fo_keys : forall d base k, SentSubmit d base k ∈ sent -> k ∈ keys;
  fo_once : forall d base d' base' k, SentSubmit d base k ∈ sent -> SentSubmit d' base' k ∈ sent ->
    draftFingerprint d base = draftFingerprint d' base';
  fo_submits : forall d base k, SentSubmit d base k ∈ sent -> good_draft d /\ previewed_as previewed d base;
  fo_submitting : forall d base k, fm_submitting f = Some (d, base, k) -> fm_key f = Some (draftFingerprint d base, k);
  fo_texts : Forall (fun k => key_text k = true) keys;
}.

Lemma draft_good f : served (fm_contract f) -> REQUIRED_GROUP ∈ fm_selected f -> good_draft (form_draft f).
Proof.
  intros Hc Hr. unfold good_draft, form_draft, form_options. cbn [sd_allowedGroups]. split.
  - apply NoDup_ListNoDup, List.NoDup_filter, NoDup_ListNoDup, NoDup_set_of.
  - apply list_elem_of_In, filter_In. split; [|by apply bool_decide_eq_true].
    apply list_elem_of_In, elem_of_set_of, elem_of_app. left. rewrite Hc. by left.
Qed.

Lemma hex_digit_lower n : (n < 16)%N -> hex_lower (hex_digit n) = true.
Proof.
  intros Hn. assert (forallb (fun i => hex_lower (hex_digit (N.of_nat i))) (List.seq 0 16) = true) as Ha by (by vm_compute).
  rewrite <- (N2Nat.id n). apply (proj1 (forallb_forall _ _) Ha), in_seq. lia.
Qed.

Lemma str_all_app p s t : str_all p (s +:+ t) = str_all p s && str_all p t.
Proof. unfold str_all. induction s as [|a s IH]; [by rewrite str_app_nil_l|]. rewrite str_app_cons. cbn. by rewrite IH, andb_assoc. Qed.

Lemma join_nil l : join EmptyString l = foldr (fun x y => x +:+ y) EmptyString l.
Proof.
  induction l as [|x [|y l] IH]; [done|cbn; by rewrite str_app_nil_r|]. change (join EmptyString (x :: y :: l)) with (x +:+ (EmptyString +:+ join EmptyString (y :: l))).
  by rewrite str_app_nil_l, IH.
Qed.

Lemma bytes_key bytes : Forall (fun b => 0 <= b < 256) bytes ->
  String.length (newIdempotencyKey bytes) = (2 * length bytes)%nat /\ str_all hex_lower (newIdempotencyKey bytes) = true.
Proof.
  unfold newIdempotencyKey. rewrite join_nil. induction 1 as [|b bytes Hb _ [IH1 IH2]]; [done|].
  change (foldr (fun x y => x +:+ y) EmptyString (map byte_hex (b :: bytes))) with (byte_hex b +:+ foldr (fun x y => x +:+ y) EmptyString (map byte_hex bytes)).
  rewrite length_text, str_all_app, IH1, IH2. unfold byte_hex. rewrite length_text, str_all_app. cbn. split; [lia|].
  assert (b / 16 < 16) by (apply Z.div_lt_upper_bound; lia). assert (0 <= b / 16) by (apply Z.div_pos; lia).
  assert (0 <= b mod 16 < 16) by (apply Z.mod_pos_bound; lia). unfold str1. cbn. rewrite !andb_true_r, !hex_digit_lower by lia. done.
Qed.

(** Sixteen bytes make a key of the format the server asks for. *)
Lemma key_of_bytes bytes : length bytes = 16%nat -> Forall (fun b => 0 <= b < 256) bytes -> key_text (newIdempotencyKey bytes) = true.
Proof. intros Hl [E1 E2]%bytes_key. unfold key_text. by rewrite E1, E2, Hl. Qed.

Section steps.
Context (sent : list Sent) (previewed : list (SsoChangeDraft * string)) (keys : list string) (f : SsoEditForm).
Context (Hf : form_ok sent previewed keys f).

(** The user changes the draft, or the contract is read again. *)
Lemma edit_ok contract selected reason : served contract -> REQUIRED_GROUP ∈ selected ->
  form_ok sent previewed keys
    (mkForm (fm_endpoint f) contract selected reason (fm_preview f) (fm_key f) (fm_previewing f) (fm_submitting f) (fm_submitted f)).
Proof. destruct Hf. by split. Qed.

Lemma toggle_ok g : form_ok sent previewed keys (toggle g f).
Proof.
  pose proof Hf as []. unfold toggle. case_bool_decide as Hg; [done|]. apply edit_ok; [done|]. rewrite fo_contract0 in Hg.
  case_bool_decide.
  - apply list_elem_of_In, filter_In. split; [by apply list_elem_of_In|]. apply negb_true_iff, String.eqb_neq. intros <-. apply Hg. by left.
  - apply elem_of_app. by left.
Qed.

Lemma preview_ok : form_ok (sent ++ (runPreview f).2) previewed keys (runPreview f).1.
Proof.
  unfold runPreview. destruct (_ || _ || _) eqn:E; cbn [fst snd]; [by rewrite app_nil_r|].
  rewrite !orb_false_iff, !bool_decide_eq_false in E. destruct E as [[_ Hs] _]. destruct Hf.
  assert (forall x, x ∈ sent ++ [SentPreview (form_draft f)] <-> x ∈ sent \/ x = SentPreview (form_draft f)) as Hin by set_solver.
  split; cbn; try done.
  - intros d [= <-]. rewrite Hin. by right.
  - intros d base Hd. rewrite Hin. left. eauto.
  - intros fp k Hk. destruct (fo_key0 fp k Hk) as [? Hall]. split; [done|]. intros d base [Hd|Hd]%Hin; [auto|done].
  - intros d base k [Hd|Hd]%Hin; [eauto|done].
  - intros d base d' base' k [Hd|Hd]%Hin [Hd'|Hd']%Hin; try done. eauto.
  - intros d base k [Hd|Hd]%Hin; [eauto|done].
Qed.

Lemma answered_ok answer :
  form_ok sent (previewed ++ previews_of (PreviewAnswered answer) f) keys (preview_answered answer f).
Proof.
  unfold preview_answered, previews_of. destruct (fm_previewing f) as [d|] eqn:Ed.
  2: { destruct answer; by rewrite app_nil_r. }
  destruct Hf. destruct answer as [base|].
  - split; cbn; try done.
    + intros b fp [= <- <-]. exists d. split; [|done]. apply elem_of_app. right. by left.
    + intros x b [Hx|[= -> ->]%list_elem_of_singleton]%elem_of_app; [eauto|]. auto.
    + intros x b k Hx. destruct (fo_submits0 x b k Hx) as [? (y & Hy & E)]. split; [done|]. exists y. split; [|done].
      apply elem_of_app. by left.
  - rewrite app_nil_r. by split.
Qed.

Lemma finished_ok answer : form_ok sent previewed keys (submit_answered answer f).
Proof.
  unfold submit_answered. destruct (fm_submitting f) as [[[d base] k]|] eqn:Es; [|done]. destruct Hf. split; cbn; try done.
  intros fp k' Hk. apply fo_key0. destruct answer as [stage|code]; [by destruct (ended stage)|by case_bool_decide].
Qed.
End steps.

Lemma more_keys_ok sent previewed keys f k :
  key_text k = true -> form_ok sent previewed keys f -> form_ok sent previewed (keys ++ [k]) f.
Proof.
  intros Hk []. split; try done.
  - intros fp k' Hk'. destruct (fo_key0 fp k' Hk') as [? ?]. split; [apply elem_of_app; by left|done].
  - intros d base k' Hd. apply elem_of_app. left. eauto.
  - apply Forall_app. split; [done|]. by constructor.
Qed.

(** The key of a submit: the one of the last submit of the same draft, or a new one. *)
Lemma key_for_cases fp fresh f :
  fm_key f = Some (fp, key_for fp fresh f) \/
  key_for fp fresh f = fresh /\ forall k, fm_key f <> Some (fp, k).
Proof.
  unfold key_for. destruct (fm_key f) as [[fp' k]|]; [|by right].
  destruct (String.eqb_spec fp' fp) as [->|Hne]; [by left|]. right. split; [done|]. by intros k' [= ? _].
Qed.

Lemma submit_ok sent previewed keys f fresh :
  form_ok sent previewed keys f -> key_text fresh = true -> fresh ∉ keys ->
  form_ok (sent ++ (runSubmit fresh f).2) previewed (keys ++ [fresh]) (runSubmit fresh f).1.
Proof.
  intros Hf Ht Hn. pose proof (more_keys_ok _ _ _ _ fresh Ht Hf) as Hm.
  unfold runSubmit. destruct (fm_preview f) as [[base fp]|] eqn:Ep; [|cbn; by rewrite app_nil_r].
  destruct (locked f || _ || _) eqn:E; cbn [fst snd]; [by rewrite app_nil_r|].
  rewrite !orb_false_iff in E. destruct E as [_ Est]. unfold previewStale in Est. rewrite Ep in Est.
  apply negb_false_iff, String.eqb_eq in Est. set (d := form_draft f) in *. set (fp' := draftFingerprint d base) in *. subst fp.
  set (k := key_for fp' fresh f). pose proof Hf as Hf'. destruct Hf'.
  assert (forall x, x ∈ sent ++ [SentSubmit d base k] <-> x ∈ sent \/ x = SentSubmit d base k) as Hin by set_solver.
  assert (forall d' b', SentSubmit d' b' k ∈ sent -> draftFingerprint d' b' = fp') as Hsame.
  { intros d' b' Hd. destruct (key_for_cases fp' fresh f) as [Hk|[Hk _]].
    - destruct (fo_key0 _ _ Hk) as [_ Hall]. by apply Hall.
    - exfalso. apply Hn. rewrite <- Hk. by eapply fo_keys0. }
  assert (k ∈ keys ++ [fresh]) as Hkin.
  { apply elem_of_app. destruct (key_for_cases fp' fresh f) as [Hk|[Hk _]].
    - destruct (fo_key0 _ _ Hk) as [? _]. by left.
    - right. unfold k. rewrite Hk. by left. }
  destruct Hm. split; cbn; try done.
  - intros x Hx. rewrite Hin. left. auto.
  - intros b fp [= <- <-]. eauto.
  - intros x b Hx. rewrite Hin. left. eauto.
  - intros fp k0 [= <- <-]. split; [done|]. intros x b [Hx|[= -> ->]]%Hin; [by apply Hsame|done].
  - intros x b k0 [Hx|[= -> -> ->]]%Hin; [eauto|done].
  - intros x b x' b' k0 [Hx|[= -> -> ->]]%Hin [Hx'|Hx']%Hin; [eauto|injection Hx' as -> -> ->; by apply Hsame|by rewrite (Hsame _ _ Hx')|by injection Hx' as -> ->].
  - intros x b k0 [Hx|[= -> -> ->]]%Hin; [eauto|]. split; [by apply draft_good|].
    destruct (fo_preview0 _ _ Ep) as (y & Hy & E). by exists y.
  - by intros x b k0 [= <- <- <-].
Qed.

Lemma form_run_ok sent previewed keys f : form_run sent previewed keys f -> form_ok sent previewed keys f.
Proof.
  induction 1 as [endpoint contract Hc|sent previewed keys f i _ IH He].
  - split; cbn; try done; try set_solver. rewrite Hc. apply elem_of_set_of, elem_of_app. right. by left.
  - destruct i as [g|text|c| |a|bytes|a]; cbn [form_step previews_of keys_of fst snd]; rewrite ?app_nil_r.
    + by apply toggle_ok.
    + apply edit_ok; [done|by destruct IH|by destruct IH].
    + apply edit_ok; [done|done|by destruct IH].
    + by apply preview_ok.
    + by apply answered_ok.
    + destruct He as (Hl & Hb & Hn). apply submit_ok; [done|by apply key_of_bytes|done].
    + by apply finished_ok.
Qed.

Lemma submit_sends fresh f d base k : SentSubmit d base k ∈ (runSubmit fresh f).2 ->
  k = key_for (draftFingerprint d base) fresh f.
Proof.
  unfold runSubmit. destruct (fm_preview f) as [[b fp]|]; [|by intros ?%elem_of_nil].
  destruct (_ || _); cbn [snd]; [by intros ?%elem_of_nil|]. by intros [= -> -> ->]%list_elem_of_singleton.
Qed.

(** C19: The edit form, whatever the user clicks, whenever answers come and even if the
    contract changes meanwhile.  Every submit asks for what the server previewed over the
    same base, with the administrators among its groups and no group twice; two submits
    under one idempotency key ask for the same; while a submit is on its way there is no
    other, and after a failure that is no key collision the same draft is sent again
    under the same key. *)
Theorem form_is_careful sent previewed keys f :
  form_run sent previewed keys f ->
  (forall d base k, SentSubmit d base k ∈ sent -> good_draft d /\ key_text k = true /\
    exists d', SentPreview d' ∈ sent /\ (d', base) ∈ previewed /\ sd_endpoint d' = sd_endpoint d /\
      sd_allowedGroups d' ≡ₚ sd_allowedGroups d /\ default EmptyString (sd_reason d') = default EmptyString (sd_reason d)) /\
  (forall d base d' base' k, SentSubmit d base k ∈ sent -> SentSubmit d' base' k ∈ sent ->
    sd_endpoint d = sd_endpoint d' /\ sd_allowedGroups d ≡ₚ sd_allowedGroups d' /\
    default EmptyString (sd_reason d) = default EmptyString (sd_reason d') /\ base = base') /\
  (forall d base k, fm_submitting f = Some (d, base, k) -> forall fresh,
    (runSubmit fresh f).2 = [] /\
    forall code d' base' k', code <> Some "IDEMPOTENCY_KEY_COLLISION" ->
      SentSubmit d' base' k' ∈ (runSubmit fresh (submit_answered (inr code) f)).2 ->
      draftFingerprint d' base' = draftFingerprint d base -> k' = k).
Proof.
  intros [] %form_run_ok. split_and!.
  - intros d base k Hd. destruct (fo_submits0 d base k Hd) as [Hg (d' & Hd' & E)]. split_and!; [done| |].
    + eapply Forall_forall in fo_texts0; [done|]. by eapply fo_keys0.
    + apply fingerprint_same in E as (? & ? & ? & _). exists d'. split_and!; try done. by eapply fo_previewed0.
  - intros d base d' base' k Hd Hd'. by apply fingerprint_same, (fo_once0 d base d' base' k).
  - intros d base k Hs fresh. split.
    + unfold runSubmit. destruct (fm_preview f) as [[]|]; [|done]. rewrite Hs.
      by rewrite (bool_decide_eq_true_2 (Some (d, base, k) <> None)), orb_true_r by done.
    + intros code d' base' k' Hc Hsent E. apply submit_sends in Hsent as ->. rewrite E. unfold submit_answered, key_for. rewrite Hs. cbn.
      rewrite bool_decide_eq_false_2 by done. rewrite (fo_submitting0 d base k Hs). by rewrite String.eqb_refl.
Qed.

(** ** The server reads what the form sends *)

Definition header (name : string) (l : list (string * string)) : option string := map_get name l.

(** The parts of a request the change-request route reads, for the two URLs the console
    sends it to. *)
Definition post_of (baseUrl : string) (r : FetchRequest) : option PostRequest :=
  match fr_body r with
  | None => None
  | Some body =>
      if String.eqb (fr_method r) "POST" then
        if String.eqb (fr_url r) (baseUrl +:+ CHANGE_PATH) then Some (mkPost None (header "Idempotency-Key" (fr_headers r)) body)
        else if String.eqb (fr_url r) (baseUrl +:+ CHANGE_PATH +:+ "?dryRun=true") then
          Some (mkPost (Some "true") (header "Idempotency-Key" (fr_headers r)) body)
        else None
      else None
  end.

Definition sizes_ok (d : SsoChangeDraft) : Prop :=
  sd_endpoint d <> EmptyString /\ (String.length (sd_endpoint d) <= 64)%nat /\ (length (sd_allowedGroups d) <= 64)%nat /\
  match sd_reason d with Some r => (String.length r <= MAX_REASON_LENGTH)%nat | None => True end.

Definition body_of (d : SsoChangeDraft) (base : option string) : RequestBody :=
  mkBody (sd_endpoint d) (map JStr (sd_allowedGroups d)) (sd_reason d) base.

Lemma matches_times p n s c : length s = n -> forallb p s = true -> matches (PolicyValidate.seq (replicate n (Chr p) ++ [Eol])) s [] c c.
Proof.
  revert s. induction n as [|n IH]; intros [|a s] Hl Hp; try done.
  - cbn. change (@nil ascii) with (@nil ascii ++ []) at 1. econstructor; constructor.
  - cbn in *. apply andb_true_iff in Hp as [Ha Hp]. change (a :: s) with ([a] ++ s). econstructor; [by constructor|]. apply IH; [lia|done].
Qed.

Lemma key_text_accepted k : key_text k = true -> test IDEMPOTENCY_KEY_RE k = true.
Proof.
  unfold key_text. intros [Hl%Nat.eqb_eq Hh]%andb_true_iff. apply test_iff. exists (String.list_ascii_of_string k), [], []. split; [by rewrite app_nil_r|].
  apply matches_times; [|exact Hh]. rewrite <- Hl. clear. induction k as [|a k IH]; [done|]. cbn. by rewrite IH.
Qed.

Lemma answered_runs path resp t r : runs (answered path resp) t r -> forall q a, Did (OpFetch q) a ∉ t.
Proof.
  unfold answered. destruct resp as [x|]; [|by intros [-> _] q a ?%elem_of_nil].
  destruct (response_ok x); [by intros [-> _] q a ?%elem_of_nil|].
  intros (t1 & t2 & u & -> & H1 & [-> _])%runs_bind q a. rewrite app_nil_r. destruct (fs_status x =? 401).
  - destruct t1 as [|c t1]; [done|]. destruct H1 as (y & -> & [-> _]). intros Hc%list_elem_of_singleton. discriminate.
  - destruct H1 as [-> _]. by intros ?%elem_of_nil.
Qed.

(** A call of the client is one request, with the token it was given. *)
Lemma send_runs base method path body extra t r :
  runs (apiSend base method path body extra) t r ->
  exists token resp t', t = Did OpToken token ::
    Did (OpFetch (mkFetch method (base +:+ path) (("Content-Type", "application/json") :: extra ++ bearer token) (Some body))) resp :: t' /\
    forall q a, Did (OpFetch q) a ∉ t'.
Proof.
  unfold apiSend. intros (t1 & t2 & token & -> & H1 & H2)%runs_bind. destruct t1 as [|c t1]; [done|]. destruct H1 as (y & -> & [-> ->]).
  apply runs_bind in H2 as (t3 & t4 & resp & -> & H3 & H4). destruct t3 as [|c t3]; [done|]. destruct H3 as (z & -> & [-> ->]).
  exists y, z, t4. split; [done|]. by eapply answered_runs.
Qed.

Definition one_fetch (t : trace WAns) (q : FetchRequest) : Prop :=
  (exists resp, Did (OpFetch q) resp ∈ t) /\ forall q' resp, Did (OpFetch q') resp ∈ t -> q' = q.

Lemma one_fetch_intro token q resp t' : (forall q a, Did (OpFetch q) a ∉ t') -> one_fetch (Did OpToken token :: Did (OpFetch q) resp :: t') q.
Proof.
  intros Ht. split; [exists resp; right; by left|]. intros q' a. rewrite !elem_of_cons. intros [E|[E|E]]; [discriminate| |by apply Ht in E].
  assert (forall (c : call WAns), c = Did (OpFetch q) resp -> match c with Did (OpFetch q0) _ => q0 = q | _ => True end) as Hc by (by intros ? ->).
  exact (Hc _ E).
Qed.

#[local] Opaque SHA_RE.

Lemma dec_str_true p s : p s = true -> dec_str p (JStr s) = Some s.
Proof. unfold dec_str, guard_str. cbn [as_string]. by intros ->. Qed.

(** The body of a draft passes the schema of the server and is read as the draft. *)
Lemma body_reads d base :
  sizes_ok d -> match base with Some b => test SHA_RE b = true | None => True end ->
  ssoChangeRequestBodySchema (JObj (draft_json d ++ match base with Some b => [("baseBlobSha", JStr b)] | None => [] end)) = Some (body_of d base).
Proof.
  intros (He & Hel & Hg & Hr) Hb. unfold ssoChangeRequestBodySchema, body_of, draft_json, JStrs. destruct d as [endpoint groups reason].
  cbn [sd_endpoint sd_allowedGroups sd_reason] in *. set (l := (_ ++ _) ++ _).
  assert (strict ["endpoint"; "allowedGroups"; "reason"; "baseBlobSha"] (JObj l) = Some l) as -> by (by destruct reason, base).
  assert (map_get "endpoint" l = Some (JStr endpoint)) as El by done.
  assert (map_get "allowedGroups" l = Some (JArr (map JStr groups))) as Gl by done.
  assert (map_get "reason" l = JStr <$> reason) as Rl by (by destruct reason, base).
  assert (map_get "baseBlobSha" l = JStr <$> base) as Bl by (by destruct reason, base).
  clearbody l. cbn [mbind option_bind]. rewrite El, Gl, Rl, Bl. cbn [mbind option_bind as_array].
  rewrite (dec_str_true _ endpoint) by (apply andb_true_iff; split; [by destruct endpoint|by apply Nat.leb_le]).
  cbn [mbind option_bind].
  assert (optional (dec_str (max_len MAX_REASON_LENGTH)) (JStr <$> reason) = Some reason) as ->.
  { destruct reason as [r|]; [|done]. cbn [fmap option_fmap option_map optional]. rewrite (dec_str_true _ r); [done|by apply Nat.leb_le]. }
  assert (optional (dec_str (test SHA_RE)) (JStr <$> base) = Some base) as ->.
  { destruct base as [b|]; [|done]. cbn [fmap option_fmap option_map optional]. by rewrite (dec_str_true _ b). }
  cbn [mbind option_bind]. rewrite length_map. by rewrite (proj2 (Nat.leb_le _ _) Hg).
Qed.

(** C27: From the form to the server.  A submit of the form is one request of the client.  When
    the draft is within the sizes of the schema and the previewed base is a blob hash, the
    route accepts the request and reads from it the key, the draft and the base of the preview,
    and nothing else; and the payload it compares for a replay is that of every other submit
    under the key that lists the groups in the same order (in another order it is not:
    [reordered_retry]). *)
Theorem server_reads_form `{EditLib} url sent previewed keys f d base k t r :
  form_run sent previewed keys f -> SentSubmit d base k ∈ sent -> sizes_ok d -> test SHA_RE base = true ->
  runs (submitSsoChange url d base k) t r ->
  exists q post, one_fetch t q /\ post_of url q = Some post /\ validatePost post = Some (false, Some k, body_of d (Some base)) /\
    forall d' base', SentSubmit d' base' k ∈ sent -> sd_allowedGroups d' = sd_allowedGroups d ->
      base' = base /\
      payloadSha256 (mkPatch (rb_endpoint (body_of d' (Some base'))) (rb_allowedGroups (body_of d' (Some base')))) =
      payloadSha256 (mkPatch (rb_endpoint (body_of d (Some base))) (rb_allowedGroups (body_of d (Some base)))).
Proof.
  intros [] %form_run_ok Hd Hs Hb (token & resp & t' & -> & Hn)%send_runs.
  eexists _, (mkPost None (Some k) (submit_body d base)). split; [by apply one_fetch_intro|]. split_and!.
  - unfold post_of. cbn [fr_body fr_method fr_url fr_headers]. change (String.eqb "POST" "POST") with true. cbn [andb].
    change CHANGE_PATH with BASE. by rewrite String.eqb_refl.
  - unfold validatePost. cbn [q_dryRun q_key q_body postQuery postHeaders mbind option_bind].
    rewrite key_text_accepted by (eapply Forall_forall in fo_texts0; [done|]; by eapply fo_keys0).
    cbn [mbind option_bind]. unfold submit_body. by rewrite (body_reads d (Some base) Hs Hb).
  - intros d' base' Hd' Hg. pose proof (fo_once0 d' base' d base k Hd' Hd) as (He & _ & _ & Eb)%fingerprint_same.
    split; [done|]. unfold body_of. cbn [rb_endpoint rb_allowedGroups]. by rewrite He, Hg.
Qed.

Definition form_contract (available : list string) : Contract :=
  mkContract ["flink"; "filer"] ["admins"] available [("flink", Some ["admins"])] EmptyString EmptyString true.
Definition sha_a : string := "aaaaaaaaaaaaaaaaaaaaaaaaaaaaaaaaaaaaaaaa".
Definition zero_bytes : list Z := [0; 0; 0; 0; 0; 0; 0; 0; 0; 0; 0; 0; 0; 0; 0; 0].
Definition flink_draft : SsoChangeDraft := mkDraft "flink" ["admins"; "eng"] None.

Definition run_form (inputs : list FormInput) (f : SsoEditForm) : SsoEditForm * list Sent :=
  foldl (fun acc i => let r := form_step acc.1 i in (r.1, acc.2 ++ r.2)) (f, []) inputs.

Definition first_inputs : list FormInput := [Toggle "eng"; ClickPreview; PreviewAnswered (Some sha_a); ClickSubmit zero_bytes].

Lemma first_form_run : exists previewed keys,
  form_run (run_form first_inputs (open_form "flink" (form_contract ["eng"; "ops"]))).2 previewed keys
    (run_form first_inputs (open_form "flink" (form_contract ["eng"; "ops"]))).1.
Proof.
  eexists _, _. pose proof (form_opened "flink" (form_contract ["eng"; "ops"]) eq_refl) as R.
  apply (form_next _ _ _ _ (Toggle "eng")) in R; [|done]. apply (form_next _ _ _ _ ClickPreview) in R; [|done].
  apply (form_next _ _ _ _ (PreviewAnswered (Some sha_a))) in R; [|done].
  apply (form_next _ _ _ _ (ClickSubmit zero_bytes)) in R; [exact R|].
  split; [done|]. split; [repeat constructor; lia|]. set_solver.
Qed.

Lemma form_is_careful_witness : good_draft flink_draft /\ key_text (newIdempotencyKey zero_bytes) = true.
Proof.
  destruct first_form_run as (previewed & keys & R).
  destruct (form_is_careful _ _ _ _ R) as (Hd & _).
  destruct (Hd flink_draft sha_a (newIdempotencyKey zero_bytes)) as (Hg & Hk & _).
  { vm_compute. right. left. }
  split; [exact Hg|exact Hk].
Defined.

(** The network answers the submit with 502; there is a token. *)
Definition browser (h : trace WAns) (e : WOp) : WAns e :=
  match e with OpToken => Some "token-a" | OpFetch _ => Some (mkFetched 502 None) | OpUnauthorized => tt end.

Lemma server_reads_form_witness :
  exists q post, post_of "https://m" q = Some post /\
    validatePost post = Some (false, Some (newIdempotencyKey zero_bytes), body_of flink_draft (Some sha_a)).
Proof.
  destruct first_form_run as (previewed & keys & R).
  assert (SentSubmit flink_draft sha_a (newIdempotencyKey zero_bytes) ∈ (run_form first_inputs (open_form "flink" (form_contract ["eng"; "ops"]))).2) as Hd.
  { vm_compute. right. left. }
  assert (sizes_ok flink_draft) as Hs by (unfold sizes_ok; cbn; split; [discriminate|]; split; [lia|]; split; [lia|exact I]).
  destruct (server_reads_form (H:=demo_lib) "https://m" _ _ _ _ flink_draft sha_a (newIdempotencyKey zero_bytes) _ _ R Hd Hs ltac:(vm_compute; reflexivity)
    (answer_runs browser [] (submitSsoChange "https://m" flink_draft sha_a (newIdempotencyKey zero_bytes)))) as (q & post & _ & Hp & Hv & _).
  exists q, post. split; [exact Hp|exact Hv].
Defined.

(** The order of the groups counts for the server and not for the form: when the contract
    is read again between a failed submit and its retry and lists the same groups in
    another order, the retry carries the old key with another payload. *)
Lemma reordered_retry :
  let l := [Toggle "eng"; Toggle "ops"; ClickPreview; PreviewAnswered (Some sha_a); ClickSubmit zero_bytes;
            SubmitAnswered (inr (Some "GIT_WRITE_UNKNOWN")); ReadContract (form_contract ["ops"; "eng"]); ClickSubmit (map (Z.add 1) zero_bytes)] in
  (run_form l (open_form "flink" (form_contract ["eng"; "ops"]))).2 =
    [SentPreview (mkDraft "flink" ["admins"; "eng"; "ops"] None);
     SentSubmit (mkDraft "flink" ["admins"; "eng"; "ops"] None) sha_a (newIdempotencyKey zero_bytes);
     SentSubmit (mkDraft "flink" ["admins"; "ops"; "eng"] None) sha_a (newIdempotencyKey zero_bytes)].
Proof. by vm_compute. Qed.

(** ** Who sees the form *)

(** A path of more than one slash at the start is what the server ignores. *)
Definition double_slash (g : string) : bool := starts_with "//" g.

Lemma add_group_elem out items x :
  x ∈ foldl add_group out items <-> x ∈ out \/ exists g, JStr g ∈ items /\
    x = match g with String "/" rest => rest | _ => g end /\ x <> EmptyString /\ str_has "/" x = false.
Proof.
  revert out. induction items as [|item items IH]; intros out; [set_solver|]. cbn [foldl]. rewrite IH. unfold add_group at 1.
  destruct item as [| | |g| |]; try (split; [intros [?|(h & ? & ?)]; [by left|right; exists h; split; [by right|done]]|
    intros [?|(h & Hh & ?)]; [by left|right; exists h; split; [by apply elem_of_cons in Hh as [[=]|]|done]]]).
  set (name := match g with String "/" rest => rest | _ => g end).
  assert (forall y, y ∈ (if String.eqb name EmptyString || str_has "/" name then out else if bool_decide (name ∈ out) then out else out ++ [name]) <->
    y ∈ out \/ y = name /\ name <> EmptyString /\ str_has "/" name = false) as Hn.
  { intros y. destruct (String.eqb_spec name EmptyString) as [E|E], (str_has "/" name) eqn:Eh; cbn; try (naive_solver congruence).
    case_bool_decide; set_solver. }
  rewrite Hn. setoid_rewrite elem_of_cons. split.
  - intros [[?|(-> & ? & ?)]|(h & ? & ? & ? & ?)]; [by left|right; exists g; auto|right; exists h; auto].
  - intros [?|(h & [[= ->]|?] & ? & ? & ?)]; [by left; left|left; right; subst; auto|right; exists h; auto].
Qed.

Lemma drop_slashes_admin g : double_slash g = false -> drop_slashes g = ADMIN_GROUP ->
  (match g with String "/" rest => rest | _ => g end) = ADMIN_GROUP.
Proof.
  unfold double_slash. destruct g as [|a g]; [done|]. cbn. destruct (Ascii.eqb_spec a "/") as [->|Ha].
  - destruct g as [|b g]; [done|]. cbn. destruct (Ascii.eqb_spec b "/") as [->|Hb]; [by destruct g|]. by intros _ ->.
  - intros _ E. by destruct a as [[] [] [] [] [] [] [] []].
Qed.

(** The console offers changes to whoever the server would let make them: a user whose
    groups the server reads as an administrator's is shown the form, and a user who is
    shown the form is an administrator to the server unless a group path starts with two
    slashes, which the server ignores and the console strips. *)
Theorem console_admin_agrees user items :
  field (ou_profile user) "groups" = Some (JArr items) ->
  (REQUIRED_GROUP ∈ normalizeGroups (Some (JArr items)) -> isSsoAdmin (Some (au_groups (toAuthUser user))) = true) /\
  (isSsoAdmin (Some (au_groups (toAuthUser user))) = true -> (forall g, g ∈ au_groups (toAuthUser user) -> double_slash g = false) ->
    REQUIRED_GROUP ∈ normalizeGroups (Some (JArr items))) /\
  isSsoAdmin (Some ["//admins"]) = true /\ REQUIRED_GROUP ∉ normalizeGroups (Some (JArr [JStr "//admins"])).
Proof.
  intros Hf. unfold toAuthUser. rewrite Hf. cbn [au_groups]. unfold isSsoAdmin, normalizeGroups. cbn [default]. rewrite !add_group_elem.
  assert (forall g, g ∈ omap string_item items <-> JStr g ∈ items) as Hg.
  { intros g. rewrite list_elem_of_omap. split; [|by intros ?; exists (JStr g)]. by intros ([] & Hi & [= ->]). }
  split_and!.
  - intros [?%elem_of_nil|(g & Hi & E & _)]; [done|]. apply existsb_exists. exists g. split; [by apply list_elem_of_In, Hg|].
    apply String.eqb_eq. destruct g as [|a g]; [done|]. destruct a as [[] [] [] [] [] [] [] []]; cbn in E |- *; by rewrite <- E.
  - intros (g & Hi%list_elem_of_In & E%String.eqb_eq)%existsb_exists Hd. right. exists g. split; [by apply Hg|].
    split; [symmetry; apply drop_slashes_admin; [by apply Hd|done]|done].
  - done.
  - intros [?%elem_of_nil|(g & [= ->]%list_elem_of_singleton & E & _)]; done.
Qed.

Definition admin_token : OidcUser := mkOidcUser (JObj [("sub", JStr "u1"); ("groups", JArr [JStr "/admins"; JNum 1])]) "token-a" None false.

Lemma console_admin_agrees_witness : isSsoAdmin (Some (au_groups (toAuthUser admin_token))) = true.
Proof.
  destruct (console_admin_agrees admin_token [JStr "/admins"; JNum 1] eq_refl) as (Hs & _). apply Hs. vm_compute. left.
Defined.
