(* ===== verification/Startup.v ===== *)
(** * Start-up: [createSsoAdapterFromEnv], [adapters/upstream/config.ts],
    [adapters/runtime.ts], [wiring.ts], [app.ts], [server.ts] of domain-api/src

    How the environment becomes the running application: which adapters, which
    verifier, which store and writer; and how a request passes the middleware on its
    way to the routes of the change requests. *)

From S2P Require Import Prelude JsBase JsRegex JsText JsJson JsLib Effects PolicyValidate SsoSchema SsoEdit SsoPorts.
From S2P Require Import Decision HttpClient Config Services Kube Listings SsoReconciler SsoRoutes Auth.
From Stdlib Require Import Ascii.
From Stdlib Require String.
Open Scope Z_scope.
Open Scope result_scope.

Section startup.
Context `{JsLib} `{Host}.

Inductive SsoSource := GithubSource (baseDomain : string) | FileSource (c : SsoAdapterConfig).

Definition createSsoAdapterFromEnv (env : Env) : result string SsoSource :=
  let source := match present (trimmed env "SSO_SOURCE") with
                | Some raw => Some raw
                | None => if isProduction env then None else Some "file"
                end in
  match source with
  | None => inl "SSO_SOURCE must be set to 'github' or 'file' when NODE_ENV=production"
  | Some s =>
      if String.eqb s "github" then let! d := resolveBaseDomain env in inr (GithubSource d)
      else if String.eqb s "file" then
        let c := loadSsoAdapterConfig env in
        inr (FileSource (mkSsoConfig (sc_filePath c) (sc_isProduction c)
          (Some (default DEFAULT_BASE_DOMAIN (present (trimmed env "BASE_DOMAIN")))) (sc_groupsFilePath c)))
      else inl "SSO_SOURCE must be 'github' or 'file'"
  end.

(** ** [upstream/config.ts] *)

Definition TRINO_HISTORY_ACK_VALUE : string := "shared-service-credential".

Definition env_bool (env : Env) (name : string) : result string bool :=
  match present (env name) with
  | None => inr false
  | Some raw =>
      if String.eqb raw "true" then inr true
      else if String.eqb raw "false" then inr false
      else inl (name +:+ " must be exactly 'true' or 'false'")
  end.

(** [\d{1,9}] *)
Definition nine_digits : re := Cat (Cat Digit (upto 8 Digit)) Eol.

Definition env_int (env : Env) (name : string) (min max : Z) : result string (option Z) :=
  match present (env name) with
  | None => inr None
  | Some raw =>
      match if test nine_digits raw then Number raw else NaN with
      | Fin value =>
          if (min <=? value) && (value <=? max) then inr (Some value)
          else inl (name +:+ " must be an integer between " +:+ pretty min +:+ " and " +:+ pretty max)
      | _ => inl (name +:+ " must be an integer between " +:+ pretty min +:+ " and " +:+ pretty max)
      end
  end.

Definition required (env : Env) (name why : string) : result string string :=
  match present (env name) with
  | Some value => inr value
  | None => inl (name +:+ " is required (" +:+ why +:+ ")")
  end.

Inductive TokenProvider := TokenFile (path : string) | StaticToken (token : string).

Definition tokenProviderFrom (env : Env) (prefix : string) : result string (TokenProvider * list string) :=
  match present (env (prefix +:+ "_TOKEN_FILE")) with
  | Some file =>
      match verifyTokenFile (statSync file) (readFileSync file) with
      | inl m => inl (prefix +:+ "_TOKEN_FILE " +:+ m)
      | inr warnings => inr (TokenFile file, map (fun w => "warning: " +:+ prefix +:+ "_TOKEN_FILE " +:+ w) warnings)
      end
  | None =>
      match present (env (prefix +:+ "_TOKEN")) with
      | None => inl (prefix +:+ "_TOKEN_FILE or " +:+ prefix +:+ "_TOKEN is required")
      | Some token =>
          match normalizeToken (Some token) with
          | None => inl (prefix +:+ "_TOKEN is not a valid bearer token (value not shown)")
          | Some _ => inr (StaticToken token, [])
          end
      end
  end.

Record LakekeeperCatalogMapping := mkMapping { lm_name : string; lm_warehouse : string }.

(** [entry.includes("=") ? entry.split("=", 2) : [entry, entry]] *)
Definition parse_warehouse (entry : string) : LakekeeperCatalogMapping :=
  if str_has "=" entry then
    match split_char "=" entry with
    | name :: warehouse :: _ => mkMapping (trim name) (trim warehouse)
    | _ => mkMapping EmptyString EmptyString
    end
  else mkMapping (trim entry) (trim entry).

Definition parseWarehouses (raw : option string) : list LakekeeperCatalogMapping :=
  List.filter (fun m => nonempty (lm_name m) && nonempty (lm_warehouse m))
    (map parse_warehouse (List.filter nonempty (map trim (split_char "," (default EmptyString raw))))).

Record Common := mkCommon { cm_allowInsecureBearer : bool; cm_timeoutMs : option Z; cm_maxConcurrent : option Z }.

Definition makeClient (upstream baseUrl : string) (common : Common) (headers : list (string * string))
    : result string UpstreamHttpClient :=
  match new_URL baseUrl with
  | None => inl (upstream +:+ " adapter: base URL is not a valid http(s) URL")
  | Some u =>
      match newClient (mkClientOptions upstream (mkUrl (w_protocol u) (w_hostname u) (w_pathname u)) true headers
              (cm_timeoutMs common) None (cm_maxConcurrent common) None (cm_allowInsecureBearer common)) with
      | inl m => inl (upstream +:+ " adapter: " +:+ m)
      | inr c => inr c
      end
  end.

Record TrinoHistory := mkTrino {
  th_client : UpstreamHttpClient;
  th_token : TokenProvider;
  th_redactSql : bool;
  th_cacheTtlMs : option Z;
  th_negativeCacheTtlMs : option Z;
}.

Record LakekeeperSource := mkLakekeeper {
  lk_client : UpstreamHttpClient;
  lk_token : TokenProvider;
  lk_catalogs : list LakekeeperCatalogMapping;
  lk_cacheTtlMs : option Z;
  lk_negativeCacheTtlMs : option Z;
}.

Record UpstreamWiring := mkUpstream {
  uw_queryHistory : option TrinoHistory;
  uw_dataAssets : option LakekeeperSource;
  uw_diagnostics : list string;
}.

(** [\x21-\x7E] *)
Definition header_text : re := Cat (Star true (Chr (between 33 126))) Eol.

Definition path_char (a : ascii) : bool := is_alpha a || is_digit a || str_has a "_.~-".
Definition base_path : re := Cat (Plus (Cat (lit "/") (Plus (Chr path_char)))) Eol.

Definition load_trino (env : Env) (common : Common) (negative : option Z) : result string (TrinoHistory * list string) :=
  let! baseUrl := required env "BELUGA_TRINO_BASE_URL" "Trino coordinator origin" in
  let! (token, warnings) := tokenProviderFrom env "BELUGA_TRINO" in
  if negb (bool_decide (env "BELUGA_TRINO_HISTORY_ACK" = Some TRINO_HISTORY_ACK_VALUE)) then
    inl ("BELUGA_TRINO_HISTORY_ACK=" +:+ TRINO_HISTORY_ACK_VALUE +:+
         " is required: query history is shared by all callers (no per-caller authz)")
  else
    let sqlMode := default "literals" (env "BELUGA_TRINO_HISTORY_SQL") in
    if negb (String.eqb sqlMode "literals") && negb (String.eqb sqlMode "none")
    then inl "BELUGA_TRINO_HISTORY_SQL must be 'literals' or 'none'"
    else
      let! cacheTtlMs := env_int env "BELUGA_TRINO_HISTORY_CACHE_TTL_MS" 0 600000 in
      let user := env "BELUGA_TRINO_USER" in
      if negb (test header_text (default EmptyString user))
      then inl "BELUGA_TRINO_USER contains characters not allowed in a header"
      else
        let! client := makeClient "trino" baseUrl common
                         (match present user with Some u => [("X-Trino-User", u)] | None => [] end) in
        inr (mkTrino client token (String.eqb sqlMode "literals") cacheTtlMs negative,
             warnings ++ ["Trino query history adapter enabled (read-only)"]).

Definition load_lakekeeper (env : Env) (common : Common) (negative : option Z)
    : result string (LakekeeperSource * list string) :=
  let! baseUrl := required env "BELUGA_LAKEKEEPER_BASE_URL" "Lakekeeper origin" in
  let! (token, warnings) := tokenProviderFrom env "BELUGA_LAKEKEEPER" in
  let catalogs := parseWarehouses (env "BELUGA_LAKEKEEPER_WAREHOUSES") in
  match catalogs with
  | [] => inl "BELUGA_LAKEKEEPER_WAREHOUSES must list at least one `warehouse` or `catalog=warehouse`"
  | _ =>
      let basePath := strip_slashes (default "/catalog" (env "BELUGA_LAKEKEEPER_BASE_PATH")) in
      if negb (test base_path basePath) then inl "BELUGA_LAKEKEEPER_BASE_PATH must be an absolute path such as /catalog"
      else
        let! cacheTtlMs := env_int env "BELUGA_LAKEKEEPER_CACHE_TTL_MS" 0 600000 in
        let! client := makeClient "lakekeeper" (strip_slashes baseUrl +:+ basePath) common [] in
        inr (mkLakekeeper client token catalogs cacheTtlMs negative,
             warnings ++ ["Lakekeeper catalog source enabled (read-only; node-level authorization NOT enforced)"])
  end.

(** An adapter that is switched on, with its diagnostics. *)
Definition when_on {A} (on : bool) (load : result string (A * list string)) : result string (option A * list string) :=
  if on then let! (a, d) := load in inr (Some a, d) else inr (None, []).

Definition loadUpstreamWiring (env : Env) : result string UpstreamWiring :=
  let! trinoEnabled := env_bool env "BELUGA_TRINO_ENABLED" in
  let! lakekeeperEnabled := env_bool env "BELUGA_LAKEKEEPER_ENABLED" in
  if negb trinoEnabled && negb lakekeeperEnabled then inr (mkUpstream None None [])
  else
    let! timeoutMs := env_int env "BELUGA_UPSTREAM_TIMEOUT_MS" 1 30000 in
    let! maxConcurrent := env_int env "BELUGA_UPSTREAM_MAX_CONCURRENT" 1 32 in
    let! negative := env_int env "BELUGA_UPSTREAM_NEGATIVE_CACHE_TTL_MS" 0 600000 in
    let! allowInsecureBearer := env_bool env "BELUGA_UPSTREAM_ALLOW_INSECURE_BEARER" in
    let common := mkCommon allowInsecureBearer timeoutMs maxConcurrent in
    let! (history, d1) := when_on trinoEnabled (load_trino env common negative) in
    let! (assets, d2) := when_on lakekeeperEnabled (load_lakekeeper env common negative) in
    inr (mkUpstream history assets (d1 ++ d2)).

(** ** [runtime.ts] *)

Inductive AdapterKind := FlinkLive | KubeLive (baseDomain : string) | StubData.

Inductive Fixtures := FixturesStub | FixturesPartial.

Record Runtime := mkRuntime {
  rt_adapters : list (Service * AdapterKind);
  rt_flink : option FlinkAdapterConfig;
  rt_kube : option KubeApiConfig;
  rt_fixtures : Fixtures;
}.

Definition adapter_kind (env : Env) (flink : option FlinkAdapterConfig) (kube : option KubeApiConfig) (svc : Service)
    : result string (Service * AdapterKind) :=
  if String.eqb (sv_id svc) "svc-flink"
  then inr (svc, match flink with Some _ => FlinkLive | None => StubData end)
  else
    match kube with
    | Some _ => let! d := resolveBaseDomain env in inr (svc, KubeLive d)
    | None => inr (svc, StubData)
    end.

Definition createRuntime (env : Env) : result string Runtime :=
  let! flink := loadFlinkAdapterConfig env in
  let! kube := loadKubeApiConfig env in
  let! adapters := rmap (adapter_kind env flink kube) services in
  inr (mkRuntime adapters flink kube (match kube, flink with None, None => FixturesStub | _, _ => FixturesPartial end)).

(** ** [wiring.ts] *)

(** [githubKey]: the key the App client signs with. *)
Record GitWriter := mkWriter { gw_config : GithubAppConfig; gw_privateKey : string }.

Definition createGitWriter (env : Env) : option GitWriter * list string :=
  match loadGithubAppConfig env with
  | None =>
      (None, ["GitHub App writer not configured (GITHUB_APP_ID / GITHUB_APP_INSTALLATION_ID / GITHUB_APP_PRIVATE_KEY_FILE)"])
  | Some config =>
      match readFileSync (ga_privateKeyFile config) with
      | Some pem =>
          if isPrivateKey pem then (Some (mkWriter config pem), [])
          else (None, ["GitHub App writer not configured (private key file is missing, unreadable or not a private key)"])
      | None => (None, ["GitHub App writer not configured (private key file is missing, unreadable or not a private key)"])
      end
  end.

Definition createArgocdReader (env : Env) : result string (option KubeApiConfig * list string) :=
  let! config := loadKubeApiConfig env in
  match config with
  | None => inr (None, ["ArgoCD reader not configured (KUBE_API_URL / KUBE_API_TOKEN_FILE / KUBE_API_CA_FILE)"])
  | Some c =>
      if accessSync (ka_tokenFile c) && accessSync (ka_caFile c) then inr (Some c, [])
      else inr (None, ["ArgoCD reader not configured (service account token or CA file is not readable)"])
  end.

Record ReconcilerWiring := mkRecWiring { rw_baseDomain : string; rw_intervalMs : Z }.

Record WiredApp := mkWired {
  wi_runtime : Runtime;
  wi_upstream : UpstreamWiring;
  wi_sso : SsoSource;
  wi_auth : AuthConfig;
  wi_store : option AuditDbConfig;
  wi_gitWriter : option GitWriter;
  wi_argocd : option KubeApiConfig;
  wi_writeEnabled : bool;
  wi_reconciler : option ReconcilerWiring;
  wi_diagnostics : list string;
}.

Definition createAppFromEnv (env : Env) : result string WiredApp :=
  let! auditDb := loadAuditDbConfig env in
  let! writeEnabled := loadSsoWriteEnabled env in
  let! reconcileIntervalMs := loadReconcileIntervalMs env in
  let! _ := loadKubeApiConfig env in
  let! runtime := createRuntime env in
  let! upstream := loadUpstreamWiring env in
  let! ssoAdapter := createSsoAdapterFromEnv env in
  let! auth := loadAuthConfig env in
  let (gitWriter, d1) := createGitWriter env in
  let! (argocd, d2) := createArgocdReader env in
  let! reconciler :=
    match auditDb, gitWriter with
    | Some _, Some _ => let! d := resolveBaseDomain env in inr (Some (mkRecWiring d reconcileIntervalMs))
    | _, _ => inr None
    end in
  inr (mkWired runtime upstream ssoAdapter auth auditDb gitWriter argocd writeEnabled reconciler
         (uw_diagnostics upstream ++ d1 ++ d2)).

(** [server.ts]: the address to bind and the application, or exit code 1. *)
Definition start_server (env : Env) : result string (option string * WiredApp) :=
  let! hostname := loadListenHost env in
  let! app := createAppFromEnv env in inr (hostname, app).

Definition is_on {A} (o : option A) : bool := match o with Some _ => true | None => false end.

(** The port of [serve]. *)
Definition listen_port (env : Env) : jsnum := match env "PORT" with None => Fin 8787 | Some raw => Number raw end.

(** What the process prints once it listens: the host it was told, the port and the
    address it is bound to. *)
Definition listening_lines (hostname : option string) (w : WiredApp) (port : Z) (address : string) : list string := [
  "Beluga Domain API listening on http://" +:+ default "localhost" hostname +:+ ":" +:+ pretty port +:+
    " (bound to " +:+ address +:+ (match present hostname with Some _ => EmptyString | None => ", all interfaces" end) +:+ ")";
  "Authentication: " +:+ (match wi_auth w with
    | AuthOidc _ => "OIDC bearer JWT required on /api/v1/* (except health, openapi, docs)"
    | AuthDisabled => "DISABLED (development only)" end);
  "Flink adapter: " +:+ (if is_on (rt_flink (wi_runtime w)) then "enabled (read-only)" else "disabled (stub data)");
  "OpenAPI document: http://localhost:" +:+ pretty port +:+ "/api/v1/openapi.json";
  "Docs (Swagger UI): http://localhost:" +:+ pretty port +:+ "/api/v1/docs"].

(** *** The process: the reconciler is started with the server and drained on a signal *)

Inductive Signal := SIGTERM | SIGINT.

#[export] Instance Signal_eq_dec : EqDecision Signal.
Proof. solve_decision. Defined.

(** How a process ends: by [process.exit], or by a signal nobody handles. *)
Inductive Ended := Exit (code : Z) | Killed (by_ : Signal).

(** [sr_handlers]: the signals with a [once] handler. *)
Record Server := mkServer { sr_timer : Timer; sr_handlers : list Signal; sr_ended : option Ended }.

Definition idle_timer : Timer := mkTimer false false 0 NotDraining.

Definition server_of (w : WiredApp) : Server :=
  if is_on (wi_reconciler w) then mkServer (timer_step idle_timer TStart) [SIGTERM; SIGINT] None
  else mkServer idle_timer [] None.

(** The lines of the log at start, then the server or the exit code. *)
Definition boot (env : Env) : list string * (Z + Server) :=
  match start_server env with
  | inl m => (["Configuration error: " +:+ m], inl 1)
  | inr (_, w) =>
      (map (fun line => "[upstream] " +:+ line) (wi_diagnostics w) ++
       (if is_on (wi_reconciler w) then ["SSO change reconciler: started"] else []), inr (server_of w))
  end.

(** [stopAndDrain().finally(() => process.exit(0))] *)
Definition exit_when_drained (s : Server) : Server :=
  match sr_ended s, tm_drain (sr_timer s) with
  | None, Drained _ => mkServer (sr_timer s) (sr_handlers s) (Some (Exit 0))
  | _, _ => s
  end.

Inductive server_event := OnSignal (s : Signal) | OnTimer (e : timer_event).

Definition server_step (s : Server) (e : server_event) : Server :=
  match sr_ended s, e with
  | Some _, _ => s
  | None, OnSignal x =>
      if bool_decide (x ∈ sr_handlers s)
      then exit_when_drained (mkServer (timer_step (sr_timer s) TDrain)
             (List.filter (fun y => negb (bool_decide (y = x))) (sr_handlers s)) None)
      else mkServer (sr_timer s) (sr_handlers s) (Some (Killed x))
  | None, OnTimer e => exit_when_drained (mkServer (timer_step (sr_timer s) e) (sr_handlers s) None)
  end.

(** ** [app.ts]: what the routes are registered with *)

(** [refs]: with live pipelines the fixtures name none of the fixtures' pipelines. *)
Definition refs {A} (without : A -> A) (live : bool) (items : list A) : list A := if live then map without items else items.

Definition event_without (e : Event) : Event :=
  mkEvt (ev_id e) (ev_timestamp e) (ev_severity e) (ev_message e) (ev_relatedServiceId e) None (ev_relatedResourceId e) (ev_source e).

Definition resource_without (r : Listings.Resource) : Listings.Resource :=
  mkK8s (kr_id r) (kr_kind r) (kr_name r) (kr_namespace r) (kr_status r) (kr_cpuUsage r) (kr_memoryUsage r) (kr_capacity r)
    (kr_storageClass r) (kr_relatedServiceId r) None (kr_relatedEventIds r) (kr_logsUrl r).

Definition decision_without (r : DecisionRecord) : DecisionRecord :=
  mkDecisionRecord (dd_id r) (dd_snapshotId r) (dd_correlationId r) (dd_evaluatedAt r) (dd_result r) (dd_inputSignals r)
    (dd_maxAgeMs r) (dd_relatedResourceId r) (dd_relatedServiceId r) None.

Definition live_pipelines (w : WiredApp) : bool := is_on (rt_flink (wi_runtime w)).

Definition app_resources (w : WiredApp) : list Listings.Resource := refs resource_without (live_pipelines w) resources.
Definition app_decisions (w : WiredApp) (records : list DecisionRecord) : list DecisionRecord :=
  refs decision_without (live_pipelines w) records.

(** [live?.eventSource ?? refs(events)] *)
Definition app_events `{Intl} (w : WiredApp) : KProg EventBatch :=
  match rt_kube (wi_runtime w) with
  | Some k => listEvents (ka_apiUrl k) (ka_tokenFile k) (ka_caFile k) None
  | None => kok (mkBatch (refs event_without (live_pipelines w) events) [])
  end.

Definition fixtures_text (f : Fixtures) : string := match f with FixturesStub => "stub" | FixturesPartial => "partial" end.

Definition wired_health (w : WiredApp) : HealthWiring :=
  mkHealthWiring (Some (fixtures_text (rt_fixtures (wi_runtime w)))) (is_on (wi_gitWriter w))
    (is_on (wi_argocd w)) (live_pipelines w) (is_on (uw_queryHistory (wi_upstream w)))
    (is_on (uw_dataAssets (wi_upstream w))).

(** [status]: what the store answers, when there is one. *)
Definition app_health (packageVersion status : string) (w : WiredApp) : DomainApiHealth :=
  healthRoute packageVersion (if is_on (wi_store w) then Some status else None) (wired_health w).

(** *** Errors that no route answers itself *)

Record ApiError := mkApiError { ae_status : Z; ae_code : string; ae_message : string }.

Definition defaultHook (issues : list string) : ApiError := mkApiError 400 "VALIDATION_ERROR" (join "; " issues).

Definition notFound (method path : string) : ApiError :=
  mkApiError 404 "NOT_FOUND" ("No route matches " +:+ method +:+ " " +:+ path).

(** An [HTTPException] with its status, or anything else. *)
Inductive Thrown := HTTPException (status : Z) | OtherError (message : string).

(** The answer, and whether the error goes to the log. *)
Definition onError (err : Thrown) : ApiError * bool :=
  match err with
  | HTTPException 400 => (mkApiError 400 "VALIDATION_ERROR" "Malformed request body", false)
  | _ => (mkApiError 500 "INTERNAL_ERROR" "Internal server error", true)
  end.

(** ** [app.ts]: a request of the change-request routes *)

(** Both SSO adapters can back a change. *)
Definition deps_of (w : WiredApp) : Deps :=
  mkDeps (bool_decide (is_Some (wi_store w))) (is_on (wi_gitWriter w)) (wi_writeEnabled w) true.

(** The middleware of the application: none when authentication is disabled. *)
Definition app_auth (jwtVerify : VerifyOptions -> string -> JoseAnswer) (w : WiredApp) (path : string)
    (authorization : option string) : Refusal + option Principal :=
  match wi_auth w with
  | AuthDisabled => inr None
  | AuthOidc c => createAuthMiddleware (verify jwtVerify c) path authorization
  end.

(** A route behind the middleware. *)
Definition guarded {A} (jwtVerify : VerifyOptions -> string -> JoseAnswer) (w : WiredApp) (path : string)
    (authorization : option string) (route : option Principal -> prog Ans A) : prog Ans (Refusal + A) :=
  match app_auth jwtVerify w path authorization with
  | inl refusal => Ret (inl refusal)
  | inr principal => bind (route principal) (fun a => Ret (inr a))
  end.
End startup.
