(* ===== verification/Lakekeeper.v ===== *)
(** * The catalog source: [adapters/upstream/lakekeeperCatalog.ts] of domain-api/src

    Reads catalogs, namespaces and tables from an Iceberg REST catalog and presents
    them as data assets.  The clock, the HTTP client ([HttpClient]) and the caches
    ([Memo]) are calls: the start of a load answers the settled value of a load that
    is alive, or nothing, and then this call runs the load and settles it. *)

From S2P Require Import Prelude JsBase JsRegex JsText JsJson JsLib Zod AssetId Memo Effects Services DataAssets Kube Startup.
From Stdlib Require Import Ascii.
From Stdlib Require String.
Open Scope Z_scope.
Open Scope prog_scope.

Definition NS_SEP : string := str1 "031".
Definition PAGE_SIZE : Z := 100.
Definition MAX_PAGES : nat := 10.
Definition OPERATION_BUDGET_MS : Z := 6000.
Definition PREFIX_TTL_MS : Z := 5 * 60 * 1000.
Definition SERVICE_ID : string := "svc-iceberg".
Definition UPSTREAM : string := "lakekeeper".

Definition NODE_AUTHZ_WARNING : ListWarning :=
  mkWarning "NODE_AUTHZ_NOT_ENFORCED"
    "Visibility reflects Manager's service credential at the catalog, not the end user; node-level OPA filtering is not implemented (ADR-0004 D7)"
    (Some SERVICE_ID).

Definition malformed : LoadError := UpstreamError Malformed UPSTREAM None.

(** ** The answers of the catalog *)

Definition namespaceSchema (j : json) : option (list string) :=
  array_min1 string_min1 j.

Record ConfigAnswer := mkConfigAnswer { cf_defaults : option (list (string * string)); cf_overrides : option (list (string * string)) }.

Definition configSchema (j : json) : option ConfigAnswer :=
  _ ← is_object j; d ← opt_field record_of (field j "defaults"); o ← opt_field record_of (field j "overrides");
  Some (mkConfigAnswer d o).

(** [z.string().nullish()], and what [!next] makes of it. *)
Definition next_token (j : option json) : option (option string) :=
  match j with
  | None | Some JNull => Some None
  | Some (JStr s) => Some (if present1 s then Some s else None)
  | _ => None
  end.

Definition listNamespacesSchema (j : json) : option (list (list string) * option string) :=
  n ← field j "namespaces" ≫= array_of namespaceSchema; t ← next_token (field j "next-page-token"); Some (n, t).

(** The name of a table; its namespace is an array of strings. *)
Definition identifier_of (j : json) : option string :=
  _ ← field j "namespace" ≫= array_of string_of; field j "name" ≫= string_min1.

Definition listTablesSchema (j : json) : option (list string * option string) :=
  n ← field j "identifiers" ≫= array_of identifier_of; t ← next_token (field j "next-page-token"); Some (n, t).

(** A string, or an object with a [type]; the rest of it is kept. *)
Definition icebergTypeSchema (j : json) : option json :=
  match j with
  | JStr _ => Some j
  | _ => _ ← field j "type" ≫= string_of; Some j
  end.

Record StructField := mkStructField { sf_id : Z; sf_name : string; sf_required : bool; sf_type : json; sf_doc : option string }.

Definition structFieldSchema (j : json) : option StructField :=
  i ← field j "id" ≫= int_of; n ← field j "name" ≫= string_min1; r ← field j "required" ≫= bool_of;
  t ← field j "type" ≫= icebergTypeSchema; d ← opt_field string_of (field j "doc"); Some (mkStructField i n r t d).

Record IcebergSchema := mkIcebergSchema { is_schema_id : option Z; is_fields : list StructField }.

Definition schemaSchema (j : json) : option IcebergSchema :=
  i ← opt_field int_of (field j "schema-id"); f ← field j "fields" ≫= array_of structFieldSchema;
  Some (mkIcebergSchema i f).

Record PartitionField := mkPartitionField { pf_source_id : Z; pf_transform : string; pf_name : string }.

Definition partitionFieldSchema (j : json) : option PartitionField :=
  i ← field j "source-id" ≫= int_of; t ← field j "transform" ≫= string_of; n ← field j "name" ≫= string_of;
  Some (mkPartitionField i t n).

Record PartitionSpec := mkPartitionSpec { ps_spec_id : option Z; ps_fields : list PartitionField }.

Definition partitionSpecSchema (j : json) : option PartitionSpec :=
  i ← opt_field int_of (field j "spec-id"); f ← field j "fields" ≫= array_of partitionFieldSchema;
  Some (mkPartitionSpec i f).

Record TableMetadata := mkTableMetadata {
  tm_format_version : option Z;
  tm_location : option string;
  tm_schemas : option (list IcebergSchema);
  tm_schema : option IcebergSchema;
  tm_current_schema_id : option Z;
  tm_partition_specs : option (list PartitionSpec);
  tm_default_spec_id : option Z;
  tm_snapshots : option (list json);
  tm_last_updated_ms : option Z;
  tm_properties : option (list (string * string));
}.

Definition loadTableSchema (j : json) : option TableMetadata :=
  m ← field j "metadata"; _ ← is_object m;
  v ← opt_field int_of (field m "format-version"); l ← opt_field string_min1 (field m "location");
  ss ← opt_field (array_of schemaSchema) (field m "schemas"); s ← opt_field schemaSchema (field m "schema");
  c ← opt_field int_of (field m "current-schema-id");
  ps ← opt_field (array_of partitionSpecSchema) (field m "partition-specs");
  d ← opt_field int_of (field m "default-spec-id"); sn ← opt_field (array_of Some) (field m "snapshots");
  u ← opt_field number_of (field m "last-updated-ms"); p ← opt_field record_of (field m "properties");
  Some (mkTableMetadata v l ss s c ps d sn u p).

(** ** Mapping *)

(** [n]: how much deeper a type is rendered (four levels in all).  A field that is
    [null] makes the access to its name throw. *)
Fixpoint render_type (n : nat) (type : option json) : result LoadError string :=
  match type with
  | Some (JStr s) => inr s
  | Some (JObj l) =>
      match n with
      | O => inr "complex"
      | S n =>
          let get k := map_get k l in
          match get "type" with
          | Some (JStr "struct") =>
              let fields := default [] (as_array (get "fields")) in
              (let! rendered := rmap (fun f =>
                 match f with
                 | JNull => inl AnyError
                 | _ => let! t := render_type n (field f "type") in inr (String_opt (field f "name") +:+ ": " +:+ t)
                 end) fields in
               inr ("struct<" +:+ join ", " rendered +:+ ">"))%result
          | Some (JStr "list") => (let! t := render_type n (get "element") in inr ("list<" +:+ t +:+ ">"))%result
          | Some (JStr "map") =>
              (let! k := render_type n (get "key") in let! v := render_type n (get "value") in
               inr ("map<" +:+ k +:+ ", " +:+ v +:+ ">"))%result
          | _ => inr "complex"
          end
      end
  | _ => inr "complex"
  end.

Definition renderIcebergType (type : json) : result LoadError string := render_type 4 (Some type).

Definition catalogId (catalog : string) : string := deriveAssetId KCatalog [catalog].
Definition schemaId (catalog : string) (ns : list string) : string := deriveAssetId KSchema (catalog :: ns).

(** [ns.slice(0, -1)] *)
Definition but_last (ns : list string) : list string := take (length ns - 1) ns.

Definition catalogAsset (catalog : string) : result LoadError DataAsset :=
  parse_with dataAssetSchema
    (mkAsset (catalogId catalog) catalog KCatalog SERVICE_ID Unknown (Some catalog) (Some []) (Some None) (Some [])).

Definition schemaAsset (catalog : string) (ns : list string) : result LoadError DataAsset :=
  parse_with dataAssetSchema
    (mkAsset (schemaId catalog ns) (join "." ns) KSchema SERVICE_ID Unknown (Some catalog) (Some ns)
       (Some (Some (if (length ns =? 1)%nat then catalogId catalog else schemaId catalog (but_last ns))))
       (Some (catalog :: but_last ns))).

Definition tableAsset (catalog : string) (ns : list string) (table : string) : result LoadError DataAsset :=
  parse_with dataAssetSchema
    (mkAsset (deriveAssetId KTable (catalog :: ns ++ [table])) (join "." ns +:+ "." +:+ table) KTable SERVICE_ID Unknown
       (Some catalog) (Some ns) (Some (Some (schemaId catalog ns))) (Some (catalog :: ns))).

Definition current_schema (md : TableMetadata) : option IcebergSchema :=
  match tm_schemas md ≫= List.find (fun s => bool_decide (is_schema_id s = tm_current_schema_id md)) with
  | Some s => Some s
  | None =>
      match tm_schemas md with
      | Some [s] => Some s
      | _ => tm_schema md
      end
  end.

Definition current_spec (md : TableMetadata) : option PartitionSpec :=
  tm_partition_specs md ≫= List.find (fun s => bool_decide (ps_spec_id s = tm_default_spec_id md)).

Definition spec_fields (md : TableMetadata) : list PartitionField := from_option ps_fields [] (current_spec md).

(** [f.doc ? ... : {}] *)
Definition non_empty (s : option string) : option string := s ≫= fun s => if present1 s then Some s else None.

Definition column_of (sourceIds : list Z) (f : StructField) : result LoadError DataAssetColumn :=
  (let! ty := renderIcebergType (sf_type f) in
   inr (mkColumn (sf_name f) ty (negb (sf_required f)) (non_empty (sf_doc f))
     (if bool_decide (sf_id f ∈ sourceIds) then Some true else None)))%result.

Definition partition_text (schema : IcebergSchema) (f : PartitionField) : string :=
  let source := default (pf_name f) (map_get (pf_source_id f) (map_of (map (fun f => (sf_id f, sf_name f)) (is_fields schema)))) in
  if String.eqb (pf_transform f) "identity" then source else pf_transform f +:+ "(" +:+ source +:+ ")".

Section lakekeeper.
Context `{intl : Intl}.

(** [new Date(ms)] is a date up to 8.64e15 ms from the epoch. *)
Definition updated_text (md : TableMetadata) : option string :=
  tm_last_updated_ms md ≫= fun ms => if Z.abs ms <=? 8640000000000000 then Some (toISOString ms) else None.

Definition format_text (md : TableMetadata) : option string :=
  (fun v => "Iceberg v" +:+ pretty (v : Z) +:+
     match non_empty (tm_properties md ≫= map_get "write.format.default") with
     | Some f => " (" +:+ f +:+ ")"
     | None => EmptyString
     end) <$> tm_format_version md.

Definition mapLoadTable (catalog : string) (ns : list string) (table : string) (body : json) : result LoadError DataAssetDetail :=
  match loadTableSchema body with
  | None => inl malformed
  | Some md =>
      match current_schema md with
      | None => inl malformed
      | Some schema =>
          (let! columns := rmap (column_of (map pf_source_id (spec_fields md))) (is_fields schema) in
           let! asset := tableAsset catalog ns table in
           parse_with dataAssetDetailSchema
             (mkAssetDetail asset (Some columns) (tm_location md) (format_text md) None
                (Some (mkSummaryOf ((fun l => Z.of_nat (length l)) <$> tm_snapshots md) (updated_text md)
                  (non_empty (Some (join ", " (map (partition_text schema) (spec_fields md)))))))))%result
      end
  end.
End lakekeeper.

(** ** Paths *)

Definition nsPath (ns : list string) : result LoadError string :=
  if forallb isSafeUpstreamSegment ns then inr (encodeURIComponent (join NS_SEP ns)) else inl malformed.

Definition tablePath (name : string) : result LoadError string :=
  if isSafeUpstreamSegment name then inr (encodeURIComponent name) else inl malformed.

Definition prefix_first (a : ascii) : bool := is_alpha a || is_digit a || str_has a "_-~".
Definition prefix_char (a : ascii) : bool := is_alpha a || is_digit a || str_has a "_.-~".

(** [/^[A-Za-z0-9_\-~][A-Za-z0-9_.\-~]*$/] *)
Definition SAFE_PREFIX : re := Cat (Chr prefix_first) (Cat (Star true (Chr prefix_char)) Eol).

(** ** The calls *)

Inductive LOp : Type :=
| LNow
| LGetJson (path : string) (query : list (string * option string)) (deadline : Z)
| LPrefix (key : string)
| LPrefixSettled (key : string) (r : result LoadError string)
| LList (key : string)
| LListSettled (key : string) (r : result LoadError DataAssetListResult) (weight : nat)
| LGet (key : string)
| LGetSettled (key : string) (r : result LoadError (option DataAssetDetail)) (weight : nat).

Definition LAns (e : LOp) : Type :=
  match e with
  | LNow => Z
  | LGetJson _ _ _ => result LoadError json
  | LPrefix _ => option (result LoadError string)
  | LList _ => option (result LoadError DataAssetListResult)
  | LGet _ => option (result LoadError (option DataAssetDetail))
  | LPrefixSettled _ _ | LListSettled _ _ _ | LGetSettled _ _ _ => unit
  end.

Definition LProg (A : Type) : Type := prog LAns (result LoadError A).
Definition ldo (e : LOp) : prog LAns (LAns e) := perform e.

Definition throw {A} (e : LoadError) : LProg A := Ret (inl e).

(** A step that may throw and asks nothing. *)
Definition pure_ {A} (r : result LoadError A) : LProg A := Ret r.

(** A loop over a list that stops at the first exception. *)
Fixpoint for_ok {A B} (f : A -> LProg B) (l : list A) : LProg (list B) :=
  match l with
  | [] => Ret (inr [])
  | a :: l' => attempt b := f a in attempt bs := for_ok f l' in Ret (inr (b :: bs))
  end.

(** ** Reading *)

Definition prefix_load (warehouse : string) (deadline : Z) : LProg string :=
  attempt body := ldo (LGetJson "/v1/config" [("warehouse", Some warehouse)] deadline) in
  match configSchema body with
  | None => throw malformed
  | Some c =>
      let raw := default EmptyString
        (match cf_overrides c ≫= map_get "prefix" with Some p => Some p | None => cf_defaults c ≫= map_get "prefix" end) in
      if String.eqb raw EmptyString then Ret (inr EmptyString)
      else if negb (test SAFE_PREFIX raw) || String.eqb raw ".." || (128 <? String.length raw)%nat then throw malformed
      else Ret (inr ("/" +:+ raw))
  end.

Definition prefixFor (mapping : LakekeeperCatalogMapping) (deadline : Z) : LProg string :=
  let key := "prefix:" +:+ lm_warehouse mapping in
  await hit := ldo (LPrefix key) in
  match hit with
  | Some r => Ret r
  | None =>
      await r := prefix_load (lm_warehouse mapping) deadline in
      await _ := ldo (LPrefixSettled key r) in Ret r
  end.

Definition LISTING_TRUNCATED : ListWarning :=
  mkWarning "LISTING_TRUNCATED"
    ("Upstream listing exceeded " +:+ pretty (Z.of_nat MAX_PAGES * PAGE_SIZE) +:+ " items and was truncated") (Some SERVICE_ID).

(** [pages]: the pages the loop may still read; the array of warnings is passed on. *)
Fixpoint drain_loop {T} (fetchPage : option string -> LProg (list T * option string)) (pages : nat) (token : option string)
    (all : list T) (warnings : list ListWarning) : LProg (list T * list ListWarning) :=
  match pages with
  | O => Ret (inr (all, warnings ++ [LISTING_TRUNCATED]))
  | S pages =>
      attempt page := fetchPage token in
      let (items, next) := page in
      match next with
      | None => Ret (inr (all ++ items, warnings))
      | Some token => drain_loop fetchPage pages (Some token) (all ++ items) warnings
      end
  end.

Definition drain {T} (fetchPage : option string -> LProg (list T * option string)) (warnings : list ListWarning)
    : LProg (list T * list ListWarning) := drain_loop fetchPage MAX_PAGES None [] warnings.

Definition page_query (pageToken : option string) : list (string * option string) :=
  [("pageToken", pageToken); ("pageSize", Some (pretty PAGE_SIZE))].

(** One level below the parent, and nothing else. *)
Definition is_child (parent ns : list string) : bool :=
  (length ns =? length parent + 1)%nat && bool_decide (take (length parent) ns = parent).

Definition namespaces_page (prefix : string) (parent : list string) (deadline : Z) (pageToken : option string)
    : LProg (list (list string) * option string) :=
  attempt body := ldo (LGetJson ("/v1" +:+ prefix +:+ "/namespaces")
    (("parent", match parent with [] => None | _ => Some (join NS_SEP parent) end) :: page_query pageToken) deadline) in
  match listNamespacesSchema body with
  | None => throw malformed
  | Some (namespaces, next) =>
      if negb (forallb (is_child parent) namespaces) then throw malformed
      else Ret (inr (List.filter (forallb isSafeUpstreamSegment) namespaces, next))
  end.

Definition listNamespaces (prefix : string) (parent : list string) (deadline : Z) (warnings : list ListWarning)
    : LProg (list (list string) * list ListWarning) := drain (namespaces_page prefix parent deadline) warnings.

Definition tables_page (prefix : string) (ns : list string) (deadline : Z) (pageToken : option string)
    : LProg (list string * option string) :=
  attempt p := pure_ (nsPath ns) in
  attempt body := ldo (LGetJson ("/v1" +:+ prefix +:+ "/namespaces/" +:+ p +:+ "/tables") (page_query pageToken) deadline) in
  match listTablesSchema body with
  | None => throw malformed
  | Some (identifiers, next) => Ret (inr (List.filter isSafeUpstreamSegment identifiers, next))
  end.

Definition listTables (prefix : string) (ns : list string) (deadline : Z) (warnings : list ListWarning)
    : LProg (list string * list ListWarning) := drain (tables_page prefix ns deadline) warnings.

Section source.
Context `{intl : Intl} (catalogs : list LakekeeperCatalogMapping).

Definition byName (name : string) : option LakekeeperCatalogMapping :=
  map_get name (map_of (map (fun c => (lm_name c, c)) catalogs)).

Definition mapping_of (segments : list string) : option LakekeeperCatalogMapping := head segments ≫= byName.

Definition nothing_there : DataAssetListResult := mkAssets [] [NODE_AUTHZ_WARNING].

Definition top_level (deadline : Z) : LProg DataAssetListResult :=
  attempt _ := for_ok (fun mapping => prefixFor mapping deadline) catalogs in
  attempt assets := pure_ (rmap (fun c => catalogAsset (lm_name c)) catalogs) in
  Ret (inr (mkAssets assets [NODE_AUTHZ_WARNING])).

Definition children (kind : DataAssetKind) (mapping : LakekeeperCatalogMapping) (ns : list string) (deadline : Z)
    : LProg DataAssetListResult :=
  let catalog := lm_name mapping in
  attempt prefix := prefixFor mapping deadline in
  attempt (namespaces, warnings) := listNamespaces prefix ns deadline [NODE_AUTHZ_WARNING] in
  attempt schemas := pure_ (rmap (schemaAsset catalog) namespaces) in
  match kind with
  | KSchema =>
      attempt (names, warnings) := listTables prefix ns deadline warnings in
      attempt tables := pure_ (rmap (tableAsset catalog ns) names) in
      Ret (inr (mkAssets (schemas ++ tables) warnings))
  | _ => Ret (inr (mkAssets schemas warnings))
  end.

Definition listUncached (parentId : option string) : LProg DataAssetListResult :=
  await now := ldo LNow in
  let deadline := now + OPERATION_BUDGET_MS in
  match parentId with
  | None => top_level deadline
  | Some p =>
      match parseAssetId p with
      | None | Some (KTable, _) => Ret (inr nothing_there)
      | Some (kind, segments) =>
          match mapping_of segments with
          | None => Ret (inr nothing_there)
          | Some mapping => children kind mapping (tail segments) deadline
          end
      end
  end.

(** A catalog or a namespace, without a count of its children. *)
Definition container (asset : result LoadError DataAsset) : result LoadError (option DataAssetDetail) :=
  (let! a := asset in
   let! d := parse_with dataAssetDetailSchema (mkAssetDetail a None None None (Some None) None) in inr (Some d))%result.

Definition load_asset (prefix : string) (kind : DataAssetKind) (catalog : string) (segments : list string) (deadline : Z)
    : LProg (option DataAssetDetail) :=
  match kind with
  | KCatalog => pure_ (container (catalogAsset catalog))
  | KSchema =>
      let ns := tail segments in
      attempt p := pure_ (nsPath ns) in
      attempt _ := ldo (LGetJson ("/v1" +:+ prefix +:+ "/namespaces/" +:+ p) [] deadline) in
      pure_ (container (schemaAsset catalog ns))
  | _ =>
      let ns := but_last (tail segments) in
      let table := default EmptyString (last segments) in
      attempt p := pure_ (nsPath ns) in
      attempt t := pure_ (tablePath table) in
      attempt body := ldo (LGetJson ("/v1" +:+ prefix +:+ "/namespaces/" +:+ p +:+ "/tables/" +:+ t) [] deadline) in
      pure_ (let! d := mapLoadTable catalog ns table body in inr (Some d))%result
  end.

Definition is_not_found (e : LoadError) : bool :=
  match e with UpstreamError NotFound _ _ => true | _ => false end.

Definition getUncached (i : string) : LProg (option DataAssetDetail) :=
  match parseAssetId i with
  | None => Ret (inr None)
  | Some (kind, segments) =>
      match mapping_of segments with
      | None => Ret (inr None)
      | Some mapping =>
          await now := ldo LNow in
          let deadline := now + OPERATION_BUDGET_MS in
          attempt prefix := prefixFor mapping deadline in
          catch (load_asset prefix kind (lm_name mapping) segments deadline)
            (fun e => if is_not_found e then Ret (inr None) else throw e)
      end
  end.

(** ** The source *)

Definition listable (parentId : string) : bool :=
  match parseAssetId parentId with
  | None | Some (KTable, _) => false
  | Some (_, segments) => bool_decide (is_Some (mapping_of segments))
  end.

Definition list_weight (r : result LoadError DataAssetListResult) : nat :=
  match r with inr l => length (al_assets l) | inl _ => 1 end.

Definition list_memo (parentId : option string) : LProg DataAssetListResult :=
  let key := "list:" +:+ default EmptyString parentId in
  await hit := ldo (LList key) in
  match hit with
  | Some r => Ret r
  | None =>
      await r := listUncached parentId in
      await _ := ldo (LListSettled key r (list_weight r)) in Ret r
  end.

Definition list_ (parentId : option string) : LProg DataAssetListResult :=
  match parentId with
  | Some p => if listable p then list_memo parentId else Ret (inr nothing_there)
  | None => list_memo parentId
  end.

Definition get_weight (r : result LoadError (option DataAssetDetail)) : nat :=
  match r with inr d => 1 + length (default [] (d ≫= dd_columns)) | inl _ => 1 end.

Definition get_memo (i : string) : LProg (option DataAssetDetail) :=
  let key := "get:" +:+ i in
  await hit := ldo (LGet key) in
  match hit with
  | Some r => Ret r
  | None =>
      await r := getUncached i in
      await _ := ldo (LGetSettled key r (get_weight r)) in Ret r
  end.

Definition get_ (i : string) : LProg (option DataAssetDetail) :=
  match parseAssetId i with
  | None => Ret (inr None)
  | Some (_, segments) => if bool_decide (is_Some (mapping_of segments)) then get_memo i else Ret (inr None)
  end.

Definition createLakekeeperDataAssetSource : DataAssetSource LAns := mkSource false list_ get_.
End source.
