(* ===== verification/LakekeeperProofs.v ===== *)
(** * What the catalog source asks, and what it answers

    The theorems of [Lakekeeper]: the paths it reads, the children it lists, and the
    pages it goes through. *)

From S2P Require Import Prelude JsBase JsRegex JsText Uri JsJson JsLib Zod AssetId Memo Effects Services DataAssets Kube Startup Lakekeeper.
From Stdlib Require Import Ascii.
From Stdlib Require String.
Open Scope Z_scope.
Open Scope prog_scope.

(** ** Objects and their paths *)

(** What the source may ask the catalog for. *)
Inductive Asked :=
| AConfig (warehouse : string)
| ANamespaces (parent : list string)
| ANamespace (ns : list string)
| ATables (ns : list string)
| ATable (ns : list string) (table : string).

(** A component of a path that says a namespace, to a server that decodes it. *)
Definition says_namespace (p : string) (ns : list string) : Prop :=
  split_char "031" <$> decodeURIComponent p = Some ns.

(** The path between the slashes, without the prefix of the warehouse. *)
Definition says (a : Asked) (components : list string) (query : list (string * option string)) : Prop :=
  match a with
  | AConfig w => components = ["config"] /\ query = [("warehouse", Some w)]
  | ANamespaces parent =>
      components = ["namespaces"] /\
      map_get "parent" query = Some (match parent with [] => None | _ => Some (join NS_SEP parent) end)
  | ANamespace ns => exists p, components = ["namespaces"; p] /\ says_namespace p ns
  | ATables ns => exists p, components = ["namespaces"; p; "tables"] /\ says_namespace p ns
  | ATable ns table =>
      exists p t, components = ["namespaces"; p; "tables"; t] /\ says_namespace p ns /\ decodeURIComponent t = Some table
  end.

(** The components of the path are [v1], the prefix when there is one, and what says
    [a]; none of them is empty or a dot segment. *)
Definition reads_object (a : Asked) (path : string) (query : list (string * option string)) : Prop :=
  exists prefix components,
    split_char "/" path = EmptyString :: "v1" :: prefix ++ components /\ (length prefix <= 1)%nat /\
    says a components query /\
    forall c, c ∈ prefix ++ components -> c <> EmptyString /\ dot_segment c = false.

Definition slashed (components : list string) : string := foldr (fun c t => "/" +:+ c +:+ t) EmptyString components.

Lemma split_slashed cs : (forall c, c ∈ cs -> str_has "/" c = false) -> split_char "/" (slashed cs) = EmptyString :: cs.
Proof.
  induction cs as [|c cs IH]; intros H; [done|]. cbn [slashed foldr]. rewrite str_app_cons. cbn [split_char Ascii.eqb].
  change (EmptyString :: split_char "/" (c +:+ slashed cs) = EmptyString :: c :: cs). f_equal.
  specialize (IH ltac:(intros; apply H; by right)). destruct cs as [|c' cs].
  - cbn [slashed foldr]. rewrite str_app_nil_r. apply split_one, H. left.
  - cbn [slashed foldr] in IH |- *. rewrite str_app_cons in IH |- *.
    rewrite split_app by (apply H; left). cbn [split_char Ascii.eqb] in IH. by injection IH as ->.
Qed.

(** A component that can stand in a path. *)
Definition clean (c : string) : Prop := str_has "/" c = false /\ c <> EmptyString /\ dot_segment c = false.

Definition prefix_ok (p : string) : Prop := p = EmptyString \/ exists raw, p = "/" +:+ raw /\ clean raw.

Lemma reads_object_path a p cs query :
  prefix_ok p -> (forall c, c ∈ cs -> clean c) -> says a cs query -> reads_object a ("/v1" +:+ p +:+ slashed cs) query.
Proof.
  intros Hp Hcs Hs.
  assert (exists prefix, p = slashed prefix /\ (length prefix <= 1)%nat /\ forall c, c ∈ prefix -> clean c) as (prefix & -> & Hl & Hpre).
  { destruct Hp as [->|(raw & -> & Hr)]; [exists []; split_and!; [done|cbn; lia|intros ? []%not_elem_of_nil]|].
    exists [raw]. split_and!; [cbn [slashed foldr]; by rewrite str_app_nil_r|cbn; lia|]. by intros c ->%list_elem_of_singleton. }
  exists prefix, cs. split_and!; [|done|done|].
  - assert ("/v1" +:+ slashed prefix +:+ slashed cs = slashed ("v1" :: prefix ++ cs)) as ->.
    { cbn [slashed foldr]. unfold slashed. rewrite foldr_app. fold (slashed cs). rewrite str_app_cons.
      change (String "/" ("v1" +:+ slashed prefix +:+ slashed cs) = "/" +:+ "v1" +:+ foldr (fun c t => "/" +:+ c +:+ t) (slashed cs) prefix).
      rewrite (str_app_cons "/"), str_app_nil_l. do 2 f_equal. clear Hp Hl Hpre. induction prefix as [|c pre IH]; [done|].
      cbn [slashed foldr]. rewrite !str_app_assoc. do 2 f_equal. apply IH. }
    apply split_slashed. intros c. rewrite elem_of_cons, elem_of_app. intros [->|[H|H]]; [done|by apply Hpre|by apply Hcs].
  - intros c [H|H]%elem_of_app; [apply Hpre in H|apply Hcs in H]; by destruct H as (_ & ? & ?).
Qed.

(** *** Encoded names *)

Lemma safe_has c s : unsafe_char c = true -> isSafeUpstreamSegment s = true -> str_has c s = false.
Proof.
  intros Hc (_ & Hs%negb_true_iff)%andb_prop. revert Hs. clear -Hc.
  induction s as [|a s IH]; [done|]. cbn [String.list_ascii_of_string existsb str_has].
  intros [Ha Hs]%orb_false_iff. rewrite (IH Hs), orb_false_r. destruct (Ascii.eqb a c) eqn:E; [|done].
  apply Ascii.eqb_eq in E as ->. congruence.
Qed.

Lemma safe_not_dots s : isSafeUpstreamSegment s = true -> s <> "." /\ s <> "..".
Proof. by split; intros ->. Qed.

Lemma encoded_clean s : s <> EmptyString -> s <> "." -> s <> ".." -> clean (encodeURIComponent s).
Proof.
  intros H0 H1 H2. split_and!; [apply encoded_no_slash| |].
  - intros E. apply H0. pose proof (decode_encodeURIComponent s) as D. rewrite E in D. by injection D.
  - destruct (dot_segment (encodeURIComponent s)) eqn:E; [|done]. by apply encoded_dot_segment in E as [?|?].
Qed.

Lemma tablePath_ok name t : tablePath name = inr t -> clean t /\ decodeURIComponent t = Some name.
Proof.
  unfold tablePath. case_match eqn:Hs; [|done]. intros [= <-]. split; [|apply decode_encodeURIComponent].
  pose proof (safe_not_dots _ Hs) as []. apply encoded_clean; [by apply safe_nonempty|done|done].
Qed.

Lemma split_namespace ns : ns <> [] -> forallb isSafeUpstreamSegment ns = true -> split_char "031" (join NS_SEP ns) = ns.
Proof.
  intros Hne Hs. apply (split_join "031"); [done|]. intros s Hin. apply safe_has; [done|].
  by eapply forallb_elem in Hs.
Qed.

Lemma nsPath_ok ns p : ns <> [] -> nsPath ns = inr p -> clean p /\ says_namespace p ns.
Proof.
  unfold nsPath. case_match eqn:Hs; [|done]. intros Hne [= <-].
  pose proof (split_namespace ns Hne Hs) as Hsplit. split.
  - assert (forall x, split_char "031" x = [x] -> join NS_SEP ns = x -> isSafeUpstreamSegment x = true) as Hx.
    { intros x Hx Hj. rewrite Hj, Hx in Hsplit. subst ns. cbn in Hs. by rewrite andb_true_r in Hs. }
    by apply encoded_clean; intros E; apply Hx in E.
  - unfold says_namespace. rewrite decode_encodeURIComponent. cbn. by rewrite Hsplit.
Qed.

Lemma safe_prefix raw : test SAFE_PREFIX raw = true -> clean raw.
Proof.
  intros (s1 & s2 & c & Hs & Hm)%test_iff. unfold SAFE_PREFIX in Hm.
  apply matches_Cat_inv in Hm as (f & r & c1 & -> & (a & -> & Ha & ->)%matches_Chr_inv & Hm).
  apply matches_Cat_inv in Hm as (b & e & c2 & -> & [Hb ->]%matches_Star_Chr & (-> & -> & _)%matches_Eol_inv).
  rewrite !app_nil_r in Hs. destruct raw as [|a' raw]; [done|]. cbn in Hs. injection Hs as -> Hs.
  split_and!; [|done|].
  - cbn [str_has]. apply orb_false_iff. split.
    + destruct (Ascii.eqb a "/") eqn:E; [|done]. by apply Ascii.eqb_eq in E as ->.
    + subst b. clear -Hb. induction raw as [|x raw IH]; [done|]. cbn in Hb |- *. apply andb_prop in Hb as [Hx Hb].
      rewrite (IH Hb), orb_false_r. destruct (Ascii.eqb x "/") eqn:E; [|done]. by apply Ascii.eqb_eq in E as ->.
  - apply dot_segment_first; [destruct (Ascii.eqb a ".") eqn:E|destruct (Ascii.eqb a "%") eqn:E]; try done;
      by apply Ascii.eqb_eq in E as ->.
Qed.

(** ** Reading, by composition *)

(** What the caches answer is what some run of the load they keep answered. *)
Definition honest_call (c : call LAns) : Prop :=
  match c with
  | Did (LPrefix key) hit =>
      forall p, hit = Some (inr p) -> exists w d t, key = "prefix:" +:+ w /\ runs (prefix_load w d) t (inr p)
  | _ => True
  end.

Definition requests (t : trace LAns) : nat :=
  length (List.filter (fun c : call LAns => match c with Did (LGetJson _ _ _) _ => true | _ => false end) t).

Lemma requests_app t u : requests (t ++ u) = (requests t + requests u)%nat.
Proof. unfold requests. by rewrite List.filter_app, length_app. Qed.

(** Every request satisfies [P], at most [n] are made, and the outcome satisfies [Q]. *)
Definition reads {A} (P : string -> list (string * option string) -> Z -> Prop) (n : nat) (Q : A -> Prop)
    (p : prog LAns A) : Prop :=
  forall t a, Forall honest_call t -> runs p t a ->
    (forall path query d r, Did (LGetJson path query d) r ∈ t -> P path query d) /\ (requests t <= n)%nat /\ Q a.

Lemma reads_ret {A} P n (Q : A -> Prop) a : Q a -> reads P n Q (Ret a).
Proof. intros HQ t b _ [-> ->]. split_and!; [by intros ???? ?%not_elem_of_nil|cbn; lia|done]. Qed.

Lemma reads_bind {A B} P n m (Q : A -> Prop) (R : B -> Prop) p f :
  reads P n Q p -> (forall a, Q a -> reads P m R (f a)) -> reads P (n + m) R (bind p f).
Proof.
  intros Hp Hf t b Hh (t1 & t2 & a & -> & H1 & H2)%runs_bind. apply Forall_app in Hh as [Hh1 Hh2].
  destruct (Hp _ _ Hh1 H1) as (P1 & N1 & Q1). destruct (Hf a Q1 _ _ Hh2 H2) as (P2 & N2 & Q2). rewrite requests_app.
  split_and!; [|lia|done]. intros path query d r [H|H]%elem_of_app; [by eapply P1|by eapply P2].
Qed.

Lemma reads_mono {A} (P P' : _ -> _ -> _ -> Prop) n m (Q R : A -> Prop) p :
  reads P n Q p -> (forall x y z, P x y z -> P' x y z) -> (n <= m)%nat -> (forall a, Q a -> R a) -> reads P' m R p.
Proof. intros Hp HP Hn HQ t a Hh H. destruct (Hp t a Hh H) as (? & ? & ?). split_and!; [eauto|lia|auto]. Qed.

(** The value of an outcome, if it has one. *)
Definition ok_and {A} (Q : A -> Prop) (r : result LoadError A) : Prop := match r with inl _ => True | inr a => Q a end.

Lemma ok_any {A} (r : result LoadError A) : ok_and (fun _ => True) r.
Proof. by destruct r. Qed.

Lemma reads_value {A} P n (Q : A -> Prop) a : Q a -> reads P n Q (Ret a).
Proof. intros HQ. by apply (reads_mono P P 0 n Q); [apply reads_ret|..|lia|]. Qed.

Lemma reads_threw {A} P n (Q : A -> Prop) e : reads P n (ok_and Q) (Ret (inl e)).
Proof. by apply reads_value. Qed.

Lemma reads_any {A} P n (p : LProg A) : reads P n (ok_and (fun _ => True)) p -> reads P n (fun _ => True) p.
Proof. intros H. by apply (reads_mono P P n n (ok_and (fun _ => True))). Qed.

Lemma reads_attempt {A B} P n m (Q : A -> Prop) (R : B -> Prop) (p : LProg A) (f : A -> LProg B) :
  reads P n (ok_and Q) p -> (forall a, Q a -> reads P m (ok_and R) (f a)) -> reads P (n + m) (ok_and R) (bind_ok p f).
Proof.
  intros Hp Hf. apply (reads_bind P n m (ok_and Q)); [done|]. intros [e|a] Ha; [by apply reads_ret|by apply Hf].
Qed.

Lemma reads_get {A} (P : _ -> _ -> _ -> Prop) m (R : A -> Prop) path query d (f : json -> LProg A) :
  P path query d -> (forall j, reads P m (ok_and R) (f j)) -> reads P (S m) (ok_and R) (bind_ok (ldo (LGetJson path query d)) f).
Proof.
  intros HP Hf. apply (reads_attempt P 1 m (fun _ => True)); [|intros a _; apply Hf].
  intros t a _ Hr. destruct t as [|c t]; [done|]. destruct Hr as (r & -> & -> & ->). split_and!; [|cbn; lia|by destruct r].
  intros path' query' d' r' Hin. apply list_elem_of_singleton in Hin. by injection Hin as -> -> -> _.
Qed.

Lemma reads_other {A} (P : _ -> _ -> _ -> Prop) n (Q : A -> Prop) (e : LOp) f :
  (forall path query d, e <> LGetJson path query d) -> (forall r, honest_call (Did e r) -> reads P n Q (f r)) ->
  reads P n Q (bind (ldo e) f).
Proof.
  intros He Hf t a Hh (t1 & t2 & r & -> & H1 & H2)%runs_bind. destruct t1 as [|c t1]; [done|]. destruct H1 as (r' & -> & -> & <-).
  apply Forall_app in Hh as [Hh1 Hh2]. apply Forall_cons in Hh1 as [Hh1 _].
  destruct (Hf r Hh1 t2 a Hh2 H2) as (P2 & N2 & Q2). rewrite requests_app.
  split_and!; [|by destruct e; try (exfalso; by eapply He)|done].
  intros path query d x [H|H]%elem_of_app; [|by eapply P2]. apply list_elem_of_singleton in H.
  exfalso. apply (He path query d). by injection H.
Qed.

(** *** The operations *)

Lemma reads_prefix_load w d : reads (fun path query d' => d' = d /\ path = "/v1/config" /\ query = [("warehouse", Some w)]) 1
  (ok_and prefix_ok) (prefix_load w d).
Proof.
  unfold prefix_load. apply (reads_get _ 0); [done|]. intros j. destruct (configSchema j) as [c|]; [|by apply reads_ret].
  set (raw := default _ _). destruct (String.eqb raw EmptyString); [apply reads_ret; by left|].
  destruct (test SAFE_PREFIX raw) eqn:E; [|by apply reads_ret]. cbn [negb orb].
  case_match; apply reads_ret; [done|]. right. exists raw. split; [done|by apply safe_prefix].
Qed.

(** A request for the configuration of the warehouse, or for one of [asked]. *)
Definition confined (mapping : LakekeeperCatalogMapping) (asked : Asked -> Prop) (deadline : Z)
    (path : string) (query : list (string * option string)) (d : Z) : Prop :=
  d = deadline /\ exists a, (a = AConfig (lm_warehouse mapping) \/ asked a) /\ reads_object a path query.

Lemma confined_path mapping (asked : Asked -> Prop) d a p cs query path :
  path = "/v1" +:+ p +:+ slashed cs -> asked a -> prefix_ok p -> (forall c, c ∈ cs -> clean c) -> says a cs query ->
  confined mapping asked d path query d.
Proof. intros -> Ha Hp Hc Hs. split; [done|]. exists a. split; [by right|]. by apply reads_object_path. Qed.

Lemma prefix_load_ok w d t p : runs (prefix_load w d) t (inr p) -> prefix_ok p.
Proof.
  intros H. enough (Forall honest_call t) as Hh by (by apply (reads_prefix_load w d t (inr p) Hh H)).
  unfold prefix_load in H. destruct t as [|c t]; [done|]. destruct H as (r & -> & H). apply Forall_cons. split; [done|].
  destruct r as [e|j]; [by destruct H as [-> _]|]. cbn [bind] in H.
  revert H. by repeat case_match; intros [-> _].
Qed.

Lemma reads_prefixFor mapping asked d : reads (confined mapping asked d) 1 (ok_and prefix_ok) (prefixFor mapping d).
Proof.
  unfold prefixFor. apply reads_other; [done|]. intros [r|] Hh.
  - apply reads_value. destruct r as [e|p]; [done|]. destruct (Hh p eq_refl) as (w & d' & t & _ & Hr).
    by eapply prefix_load_ok.
  - apply (reads_bind _ 1 0 (ok_and prefix_ok)).
    + eapply reads_mono; [apply reads_prefix_load| |lia|done]. intros path query d' (-> & -> & ->).
      split; [done|]. exists (AConfig (lm_warehouse mapping)). split; [by left|].
      exists [], ["config"]. split_and!; [done|cbn; lia|done|]. by intros c ->%list_elem_of_singleton.
    + intros r Hr. apply reads_other; [done|]. intros _ _. by apply reads_ret.
Qed.

(** A loop over pages makes at most one request for each. *)
Lemma reads_drain_loop {T} P (Q : list T -> Prop) (fetch : option string -> LProg (list T * option string)) n :
  (forall x y, Q x -> Q y -> Q (x ++ y)) ->
  (forall token, reads P 1 (ok_and (fun p => Q p.1)) (fetch token)) ->
  forall token all ws, Q all -> reads P n (ok_and (fun r => Q r.1)) (drain_loop fetch n token all ws).
Proof.
  intros Happ Hf. induction n as [|n IH]; intros token all ws Hall; [by apply reads_ret|]. cbn [drain_loop].
  apply (reads_attempt P 1 n (fun p => Q p.1)); [apply Hf|]. intros [items [tok|]] Hi; [apply IH; auto|].
  apply reads_value. by apply Happ.
Qed.

Lemma reads_drain {T} P (Q : T -> Prop) (fetch : option string -> LProg (list T * option string)) ws :
  (forall token, reads P 1 (ok_and (fun p => Forall Q p.1)) (fetch token)) ->
  reads P MAX_PAGES (ok_and (fun r => Forall Q r.1)) (drain fetch ws).
Proof. intros Hf. apply reads_drain_loop; [intros x y; apply Forall_app_2|done|constructor]. Qed.

Lemma Forall_filter_by {A} (p q : A -> bool) l :
  forallb p l = true -> Forall (fun x => p x = true /\ q x = true) (List.filter q l).
Proof.
  intros Hp. apply Forall_forall. intros x [Hx Hq]%elem_of_filterb. split; [by eapply forallb_elem in Hp|done].
Qed.

Lemma clean_word w : str_has "/" w = false -> w <> EmptyString -> dot_segment w = false -> clean w.
Proof. done. Qed.

Lemma reads_namespaces mapping (asked : Asked -> Prop) d p parent ws :
  asked (ANamespaces parent) -> prefix_ok p ->
  reads (confined mapping asked d) MAX_PAGES
    (ok_and (fun r => Forall (fun ns => is_child parent ns = true /\ forallb isSafeUpstreamSegment ns = true) r.1))
    (listNamespaces p parent d ws).
Proof.
  intros Ha Hp. apply reads_drain. intros token. apply (reads_get _ 0).
  - apply (confined_path mapping asked d (ANamespaces parent) p ["namespaces"]); [done|done|done| |by split].
    by intros c ->%list_elem_of_singleton.
  - intros j. destruct (listNamespacesSchema j) as [[namespaces next]|]; [|by apply reads_ret].
    destruct (forallb (is_child parent) namespaces) eqn:E; apply reads_ret; [|done]. by apply Forall_filter_by.
Qed.

Lemma reads_tables mapping (asked : Asked -> Prop) d p ns ws :
  asked (ATables ns) -> ns <> [] -> prefix_ok p ->
  reads (confined mapping asked d) MAX_PAGES (ok_and (fun r => Forall (fun t => isSafeUpstreamSegment t = true) r.1))
    (listTables p ns d ws).
Proof.
  intros Ha Hne Hp. apply reads_drain. intros token. unfold tables_page.
  destruct (nsPath ns) as [e|c] eqn:E.
  { by apply reads_threw. }
  destruct (nsPath_ok ns c Hne E) as [Hc Hs]. cbn [pure_ bind_ok bind]. apply (reads_get _ 0).
  - apply (confined_path mapping asked d (ATables ns) p ["namespaces"; c; "tables"]); [done|done|done| |by exists c].
    intros x. rewrite !elem_of_cons, elem_of_nil. by intros [->|[->|[->|[]]]].
  - intros j. destruct (listTablesSchema j) as [[names next]|]; [|by apply reads_ret]. apply reads_ret.
    cbn. apply Forall_forall. by intros x [_ ?]%elem_of_filterb.
Qed.

(** *** Listing *)

(** A child of a node: a namespace one level below, or a table in it. *)
Definition child_asset (kind : DataAssetKind) (catalog : string) (ns : list string) (a : DataAsset) : Prop :=
  da_parentId a = Some (Some (deriveAssetId kind (catalog :: ns))) /\ da_catalog a = Some catalog /\
  da_status a = Unknown /\ da_serviceId a = SERVICE_ID /\ da_path a = Some (catalog :: ns) /\
  exists name, isSafeUpstreamSegment name = true /\ da_id a = deriveAssetId (da_kind a) (catalog :: ns ++ [name]) /\
    (da_kind a = KSchema /\ da_namespace a = Some (ns ++ [name]) \/
     kind = KSchema /\ da_kind a = KTable /\ da_namespace a = Some ns).

Lemma parse_with_inr {A} (schema : A -> bool) a b : parse_with schema a = inr b -> b = a.
Proof. unfold parse_with. case_match; [|done]. by intros [= <-]. Qed.

Lemma but_last_snoc (ns : list string) name : but_last (ns ++ [name]) = ns.
Proof. unfold but_last. rewrite length_app. cbn. rewrite Nat.add_sub. apply take_app_length. Qed.

Lemma is_child_snoc parent ns : is_child parent ns = true -> exists name, ns = parent ++ [name].
Proof.
  intros [Hl%Nat.eqb_eq Hp%bool_decide_eq_true]%andb_prop. rewrite <-(take_drop (length parent) ns), Hp.
  destruct (drop (length parent) ns) as [|name [|]] eqn:E; apply (f_equal length) in E; rewrite length_drop in E; cbn in E;
    [lia|eauto|lia].
Qed.

Lemma schemaAsset_child kind catalog ns name a :
  (kind = KCatalog <-> ns = []) -> kind = KCatalog \/ kind = KSchema ->
  forallb isSafeUpstreamSegment (ns ++ [name]) = true -> schemaAsset catalog (ns ++ [name]) = inr a -> child_asset kind catalog ns a.
Proof.
  intros Hk Hkk Hs ->%parse_with_inr. rewrite forallb_app in Hs. apply andb_prop in Hs as [_ Hs]. cbn in Hs.
  rewrite andb_true_r in Hs. unfold child_asset. cbn [da_parentId da_catalog da_status da_serviceId da_path da_id da_kind da_namespace].
  rewrite but_last_snoc, length_app. cbn [length]. split_and!; [|done..|].
  - destruct ns as [|x ns]; cbn.
    + by rewrite (proj2 Hk eq_refl).
    + replace (length ns + 1 =? 0)%nat with false by (symmetry; apply Nat.eqb_neq; lia).
      destruct Hkk as [-> | ->]; [|done]. by pose proof (proj1 Hk eq_refl).
  - exists name. split_and!; [done|done|by left].
Qed.

Lemma tableAsset_child catalog ns name a :
  isSafeUpstreamSegment name = true -> tableAsset catalog ns name = inr a -> child_asset KSchema catalog ns a.
Proof. intros Hs ->%parse_with_inr. unfold child_asset. cbn. split_and!; [done..|]. exists name. split_and!; [done|done|by right]. Qed.

Lemma rmap_Forall {A B} (f : A -> result LoadError B) (P : A -> Prop) (Q : B -> Prop) l bs :
  (forall a b, P a -> f a = inr b -> Q b) -> Forall P l -> rmap f l = inr bs -> Forall Q bs.
Proof.
  intros Hf. revert bs. induction l as [|a l IH]; intros bs; cbn [rmap]; [by intros _ [= <-]|].
  intros [Ha Hl]%Forall_cons. destruct (f a) as [|b] eqn:E; [done|]. cbn. destruct (rmap f l) as [|bs'] eqn:E'; [done|].
  intros [= <-]. constructor; [by eapply Hf|by apply IH].
Qed.

(** What a node may be asked about. *)
Definition children_of (kind : DataAssetKind) (ns : list string) (a : Asked) : Prop :=
  a = ANamespaces ns \/ kind = KSchema /\ a = ATables ns.

Lemma reads_children kind mapping ns d :
  (kind = KCatalog <-> ns = []) -> kind = KCatalog \/ kind = KSchema ->
  reads (confined mapping (children_of kind ns) d) 21
    (ok_and (fun r => Forall (child_asset kind (lm_name mapping) ns) (al_assets r))) (children kind mapping ns d).
Proof.
  intros Hk Hkk. unfold children. apply (reads_attempt _ 1 20 prefix_ok); [apply reads_prefixFor|]. intros p Hp.
  apply (reads_attempt _ 10 10 (fun r => Forall (fun x => is_child ns x = true /\ forallb isSafeUpstreamSegment x = true) r.1));
    [apply (reads_namespaces mapping (children_of kind ns)); [by left|done]|].
  intros [namespaces ws] Hns. cbn [fst] in Hns.
  destruct (rmap (schemaAsset (lm_name mapping)) namespaces) as [e|schemas] eqn:E; [by apply reads_threw|].
  assert (Forall (child_asset kind (lm_name mapping) ns) schemas) as Hsch.
  { refine (rmap_Forall _ _ _ _ _ _ Hns E). intros x a [(name & ->)%is_child_snoc Hs] Ha.
    by eapply schemaAsset_child in Ha. }
  cbn [pure_ bind_ok bind]. destruct Hkk as [-> | ->]; [by apply reads_value|].
  apply (reads_attempt _ 10 0 (fun r => Forall (fun t => isSafeUpstreamSegment t = true) r.1)).
  - apply (reads_tables mapping (children_of KSchema ns)); [by right|intros ->; by pose proof (proj2 Hk eq_refl)|done].
  - intros [names ws'] Hn. cbn [fst] in Hn.
    destruct (rmap (tableAsset (lm_name mapping) ns) names) as [e|tables] eqn:E'; [by apply reads_threw|].
    apply reads_ret. cbn. apply Forall_app_2; [done|]. refine (rmap_Forall _ _ _ _ _ _ Hn E').
    intros x a Hx Ha. by eapply tableAsset_child.
Qed.

(** *** One asset *)

(** What stands for an asset at the catalog; a catalog is known by its configuration. *)
Definition object_of (kind : DataAssetKind) (rest : list string) (a : Asked) : Prop :=
  match kind with
  | KCatalog => False
  | KSchema => a = ANamespace rest
  | _ => exists ns table, rest = ns ++ [table] /\ a = ATable ns table
  end.

Lemma last_snoc_list (l : list string) : l <> [] -> exists ns x, l = ns ++ [x] /\ but_last l = ns /\ last l = Some x.
Proof.
  intros Hne. destruct (exists_last Hne) as (ns & x & ->). exists ns, x.
  split_and!; [done|apply but_last_snoc|apply last_snoc].
Qed.

Lemma last_tail (x : string) (l : list string) : l <> [] -> last (x :: l) = last l.
Proof. by destruct l. Qed.

Lemma reads_load_asset `{Intl} kind mapping prefix d cat rest :
  address_length kind (length (cat :: rest)) -> prefix_ok prefix ->
  reads (confined mapping (object_of kind rest) d) 1 (fun _ => True) (load_asset prefix kind (lm_name mapping) (cat :: rest) d).
Proof.
  intros (Hk & Hmin & Hone) Hp.
  destruct kind; cbn [length min_segments] in *; [|done| |by apply reads_value]; unfold load_asset; cbn [tail]; apply reads_any.
  - destruct (last_snoc_list rest) as (ns & x & -> & -> & Hx); [by intros ->; cbn in *; lia|].
    rewrite last_tail, Hx by (intros E; apply (f_equal length) in E; rewrite length_app in E; cbn in E; lia). cbv [from_option id].
    destruct (nsPath ns) as [e|c] eqn:E; [by apply reads_threw|]. assert (ns <> []) as Hne.
    { intros ->. cbn in Hmin. lia. }
    destruct (nsPath_ok ns c Hne E) as [Hc Hs]. destruct (tablePath x) as [e|c'] eqn:E'; [by apply reads_threw|].
    apply tablePath_ok in E' as [Hc' Hx']. cbn [pure_ bind_ok bind]. apply (reads_get _ 0); [|intros j; apply reads_ret, ok_any].
    apply (confined_path mapping _ d (ATable ns x) prefix ["namespaces"; c; "tables"; c']); [by cbn; rewrite str_app_nil_r|by exists ns, x|done| |by exists c, c'].
    intros y. rewrite !elem_of_cons, elem_of_nil. by intros [-> | [-> | [-> | [-> | []]]]].
  - destruct (nsPath rest) as [e|c] eqn:E; [by apply reads_threw|].
    destruct (nsPath_ok rest c) as [Hc Hs]; [by intros ->; cbn in *; lia|done|].
    cbn [pure_ bind_ok bind]. apply (reads_get _ 0); [|intros j; apply reads_ret, ok_any].
    apply (confined_path mapping _ d (ANamespace rest) prefix ["namespaces"; c]); [by cbn; rewrite str_app_nil_r|done|done| |by exists c].
    intros y. rewrite !elem_of_cons, elem_of_nil. by intros [-> | [-> | []]].
Qed.

Lemma mapping_name catalogs segments mapping :
  mapping_of catalogs segments = Some mapping -> exists rest, segments = lm_name mapping :: rest.
Proof.
  unfold mapping_of, byName. destruct segments as [|s rest]; [done|]. cbn. intros H%map_get_of_elem.
  apply elem_of_map in H as (c & _ & [= -> ->]). by exists rest.
Qed.

(** ** Theorems *)

Lemma reads_now {A} (P : Z -> string -> list (string * option string) -> Z -> Prop) n (Q : A -> Prop) f t a :
  (forall now, reads (P now) n Q (f now)) -> Forall honest_call t -> runs (bind (ldo LNow) f) t a ->
  (forall path query d r, Did (LGetJson path query d) r ∈ t -> exists now, Did LNow now ∈ t /\ P now path query d) /\
  (requests t <= n)%nat /\ Q a.
Proof.
  intros Hf Hh (t1 & t2 & now & -> & H1 & H2)%runs_bind. destruct t1 as [|c t1]; [done|]. destruct H1 as (r & -> & -> & <-).
  apply Forall_cons in Hh as [_ Hh]. destruct (Hf now t2 a Hh H2) as (HP & Hn & HQ). split_and!; [|done|done].
  intros path query d x H. exists now. split; [left|]. eapply HP. by apply elem_of_cons in H as [?|?].
Qed.

(** The requests of a run are about the asset [i] names, in a configured catalog,
    within the time budget of the operation. *)
Definition reads_for (catalogs : list LakekeeperCatalogMapping) (objects : DataAssetKind -> list string -> Asked -> Prop)
    (i : string) (t : trace LAns) : Prop :=
  forall path query d r, Did (LGetJson path query d) r ∈ t ->
    exists kind rest mapping now, parseAssetId i = Some (kind, lm_name mapping :: rest) /\
      byName catalogs (lm_name mapping) = Some mapping /\ Did LNow now ∈ t /\
      confined mapping (objects kind rest) (now + OPERATION_BUDGET_MS) path query d.

Lemma runs_one (e : LOp) t r : runs (ldo e) t r -> t = [Did e r].
Proof. destruct t as [|c t]; [done|]. by intros (r' & -> & -> & ->). Qed.

(** A cached call makes no request, or those of its load. *)
Lemma getUncached_reads `{Intl} catalogs i t r :
  Forall honest_call t -> runs (getUncached catalogs i) t r -> reads_for catalogs object_of i t /\ (requests t <= 2)%nat.
Proof.
  intros Hh. unfold getUncached. destruct (parseAssetId i) as [[kind segments]|] eqn:Ep.
  2:{ intros [-> _]. split; [by intros ???? ?%not_elem_of_nil|cbn; lia]. }
  destruct (mapping_of catalogs segments) as [mapping|] eqn:Em.
  2:{ intros [-> _]. split; [by intros ???? ?%not_elem_of_nil|cbn; lia]. }
  destruct (mapping_name _ _ _ Em) as [rest ->]. intros Hr.
  pose proof (fun HF => reads_now (fun now => confined mapping (object_of kind rest) (now + OPERATION_BUDGET_MS)) 2
    (fun _ => True) _ t r HF Hh Hr) as HR. destruct HR as (HP & Hn & _).
  { intros now. cbv beta zeta. apply (reads_mono (confined mapping (object_of kind rest) (now + OPERATION_BUDGET_MS)) _ (1 + 1) _
      (ok_and (fun _ => True))); [|done|lia|done].
    apply (reads_attempt _ 1 1 prefix_ok); [apply reads_prefixFor|]. intros p Hp. unfold catch.
    apply (reads_mono (confined mapping (object_of kind rest) (now + OPERATION_BUDGET_MS)) _ (1 + 0) _ (fun _ => True));
      [|done|lia|by intros [|] _].
    apply (reads_bind _ 1 0 (fun _ => True)); [|by intros [e|a] _; [case_match|]; apply reads_ret].
    apply reads_load_asset; [by eapply parse_length|done]. }
  split; [|done]. intros path query d x Hx. destruct (HP _ _ _ _ Hx) as (now & Hin & Hc).
  exists kind, rest, mapping, now. by split_and!.
Qed.

Lemma no_requests catalogs objects i : reads_for catalogs objects i [] /\ (requests [] <= 0)%nat.
Proof. split; [by intros ???? ?%not_elem_of_nil|done]. Qed.

(** The children of a node, in the kinds that have some. *)
Lemma listed_kind i kind catalog rest :
  parseAssetId i = Some (kind, catalog :: rest) -> kind <> KTable ->
  (kind = KCatalog <-> rest = []) /\ (kind = KCatalog \/ kind = KSchema).
Proof.
  intros (Hk & Hmin & Hone)%parse_length Ht. cbn in Hmin, Hone. split.
  - split; [intros Hc; specialize (Hone Hc); destruct rest; [done|cbn in Hone; lia]|].
    intros ->. destruct kind; cbn in Hmin; [done|done|lia|done].
  - destruct kind; auto; done.
Qed.

Lemma listUncached_reads catalogs i t r :
  Forall honest_call t -> runs (listUncached catalogs (Some i)) t r ->
  reads_for catalogs children_of i t /\ (requests t <= 21)%nat /\
  ok_and (fun l => al_assets l = [] \/ exists kind catalog rest, parseAssetId i = Some (kind, catalog :: rest) /\
    Forall (child_asset kind catalog rest) (al_assets l)) r.
Proof.
  intros Hh Hr. unfold listUncached in Hr.
  destruct (parseAssetId i) as [[kind segments]|] eqn:Ep; [destruct (decide (kind = KTable)) as [->|Hkt]|].
  1,3: pose proof (fun HF => reads_now (fun _ _ _ _ => False) 0 (fun r => r = inr nothing_there) _ t r HF Hh Hr) as HR;
    destruct HR as (HP & Hn & ->); [intros now; by apply reads_ret|];
    split_and!; [by intros ???? (? & _ & [])%HP|lia|by left].
  destruct (mapping_of catalogs segments) as [mapping|] eqn:Em.
  2:{ pose proof (fun HF => reads_now (fun _ _ _ _ => False) 0 (fun r => r = inr nothing_there) _ t r HF Hh Hr) as HR.
      destruct HR as (HP & Hn & ->); [intros now; destruct kind; by try apply reads_ret|].
      split_and!; [by intros ???? (? & _ & [])%HP|lia|by left]. }
  destruct (mapping_name _ _ _ Em) as [rest ->]. destruct (listed_kind _ _ _ _ Ep Hkt) as [Hk1 Hk2].
  pose proof (fun HF => reads_now (fun now => confined mapping (children_of kind rest) (now + OPERATION_BUDGET_MS)) 21
    (ok_and (fun l => Forall (child_asset kind (lm_name mapping) rest) (al_assets l))) _ t r HF Hh Hr) as HR.
  destruct HR as (HP & Hn & HQ).
  { intros now. destruct Hk2 as [-> | ->]; by apply reads_children; auto. }
  split_and!; [|done|destruct r; [done|]; cbn in *; eauto 10].
  intros path query d x Hx. destruct (HP _ _ _ _ Hx) as (now & Hin & Hc).
  exists kind, rest, mapping, now. by split_and!.
Qed.

(** A call that settles the load it ran makes the requests of the load. *)
Lemma reads_for_end catalogs objects i e t :
  (forall path query d, e <> LGetJson path query d) -> reads_for catalogs objects i t ->
  forall r, reads_for catalogs objects i (Did e r :: t).
Proof.
  intros He Ht r path query d x [Hx|Hx]%elem_of_cons; [exfalso; apply (He path query d); by injection Hx|].
  destruct (Ht _ _ _ _ Hx) as (kind & rest & mapping & now & ? & ? & ? & ?). exists kind, rest, mapping, now.
  split_and!; [done|done|by right|done].
Qed.

Lemma reads_for_snoc catalogs objects i e t r :
  (forall path query d, e <> LGetJson path query d) -> reads_for catalogs objects i t ->
  reads_for catalogs objects i (t ++ [Did e r]).
Proof.
  intros He Ht path query d x [Hx|Hx]%elem_of_app;
    [|apply list_elem_of_singleton in Hx; exfalso; apply (He path query d); by injection Hx].
  destruct (Ht _ _ _ _ Hx) as (kind & rest & mapping & now & ? & ? & Hn & ?). exists kind, rest, mapping, now.
  split_and!; [done|done|apply elem_of_app; by left|done].
Qed.

Lemma requests_other e r : (forall path query d, e <> LGetJson path query d) -> requests [Did e r] = 0%nat.
Proof. intros He. destruct e; try done. exfalso. by eapply He. Qed.

Lemma requests_settled e h t e' u :
  (forall path query d, e <> LGetJson path query d) -> (forall path query d, e' <> LGetJson path query d) ->
  requests (Did e h :: t ++ [Did e' u]) = requests t.
Proof.
  intros H1 H2. change (Did e h :: t ++ [Did e' u]) with ([Did e h] ++ t ++ [Did e' u]).
  rewrite !requests_app, !requests_other by done. lia.
Qed.

(** A memoised load: the start answers a value, or the load runs and is settled. *)
Lemma runs_memo {A} (e : LOp) (hit : LAns e -> option (result LoadError A)) (settle : result LoadError A -> LOp) (load : LProg A) t r :
  runs (bind (ldo e) (fun h => match hit h with
    | Some r => Ret r
    | None => bind load (fun r => bind (ldo (settle r)) (fun _ => Ret r))
    end)) t r ->
  (exists h, t = [Did e h] /\ hit h = Some r) \/
  exists h t1 u, t = Did e h :: t1 ++ [Did (settle r) u] /\ runs load t1 r.
Proof.
  intros H. destruct t as [|c t]; [done|]. destruct H as (h & -> & H). cbn [bind] in H.
  destruct (hit h) as [r'|] eqn:E.
  - destruct H as [-> ->]. left. eauto.
  - right. apply runs_bind in H as (t1 & t2 & r' & -> & H1 & H2). destruct t2 as [|c t2]; [done|].
    destruct H2 as (u & -> & -> & ->). eauto.
Qed.

Lemma top_level_reads catalogs deadline mapping_asks :
  (forall m, m ∈ catalogs -> mapping_asks (lm_warehouse m)) ->
  reads (fun path query d => d = deadline /\ path = "/v1/config" /\ exists w, query = [("warehouse", Some w)] /\ mapping_asks w)
    (length catalogs) (fun _ => True) (top_level catalogs deadline).
Proof.
  intros Ha. unfold top_level. apply reads_any. rewrite <-(Nat.add_0_r (length catalogs)).
  apply (reads_attempt _ _ _ (fun _ => True)).
  - induction catalogs as [|m ms IH]; [by apply reads_ret|].
    cbn [for_ok length]. apply (reads_attempt _ 1 _ (fun _ => True)).
    + unfold prefixFor. apply reads_other; [done|]. intros [r|] _; [by apply reads_value, ok_any|].
      apply (reads_bind _ 1 0 (fun _ => True)).
      * eapply reads_mono; [apply reads_prefix_load| |lia|done]. intros path query d (-> & -> & ->). 
        split_and!; [done|done|]. exists (lm_warehouse m). split; [done|]. apply Ha. by left.
      * intros r _. apply reads_other; [done|]. intros _ _. apply reads_ret, ok_any.
    + intros p _. replace (length ms) with (length ms + 0)%nat by lia. apply (reads_attempt _ _ 0 (fun _ => True)).
      * apply IH. intros x Hx. apply Ha. by right.
      * intros ps _. by apply reads_ret.
  - intros ps _. destruct (rmap _ _); by apply reads_ret.
Qed.

Lemma runs_get `{Intl} catalogs i t r :
  runs (get_ catalogs i) t r -> t = [] \/ (exists h, t = [Did (LGet ("get:" +:+ i)) h]) \/
  exists h t1 w, t = Did (LGet ("get:" +:+ i)) h :: t1 ++ [Did (LGetSettled ("get:" +:+ i) r w) tt] /\ runs (getUncached catalogs i) t1 r.
Proof.
  unfold get_. destruct (parseAssetId i) as [[kind segments]|]; [|by intros [-> _]; left].
  case_bool_decide; [|by intros [-> _]; left]. intros Hr. right. unfold get_memo in Hr.
  apply (runs_memo (LGet _) (fun h => h) (fun r => LGetSettled _ r _) (getUncached catalogs i)) in Hr as
    [(h & -> & _)|(h & t1 & [] & -> & Hr)]; [left; eauto|right; eauto].
Qed.

Lemma runs_list_memo catalogs p t r :
  let key := "list:" +:+ default EmptyString p in
  runs (list_memo catalogs p) t r -> t = [Did (LList key) (Some r)] \/
    exists h t1 w, t = Did (LList key) h :: t1 ++ [Did (LListSettled key r w) tt] /\ runs (listUncached catalogs p) t1 r.
Proof.
  cbv zeta. unfold list_memo. intros Hr.
  apply (runs_memo (LList _) (fun h => h) (fun r => LListSettled _ r _) (listUncached catalogs p)) in Hr as
    [(h & -> & ->)|(h & t1 & [] & -> & Hr)]; [by left|right; eauto].
Qed.

(** C16: The catalog source reads what it was asked for and nothing else.  Whatever
    identifier a client sends, every request of a run is made with the time budget of the
    operation, for the configuration of the warehouse of the catalog the identifier
    names, or for the namespace or table it names (its children, when listing); the path
    says exactly these names to a server that decodes it, and has no empty or dot segment
    and no more components.  At most two requests fetch an asset and 21 list children;
    the top level asks only for the configurations of the configured warehouses. *)
Theorem catalog_reads_confined `{Intl} catalogs i t :
  Forall honest_call t ->
  (forall r, runs (src_get (createLakekeeperDataAssetSource catalogs) i) t r ->
     reads_for catalogs object_of i t /\ (requests t <= 2)%nat) /\
  (forall r, runs (src_list (createLakekeeperDataAssetSource catalogs) (Some i)) t r ->
     reads_for catalogs children_of i t /\ (requests t <= 21)%nat) /\
  (forall r, runs (src_list (createLakekeeperDataAssetSource catalogs) None) t r ->
     (requests t <= length catalogs)%nat /\
     forall path query d x, Did (LGetJson path query d) x ∈ t ->
       path = "/v1/config" /\ exists m, m ∈ catalogs /\ query = [("warehouse", Some (lm_warehouse m))]).
Proof.
  intros Hh. cbn [createLakekeeperDataAssetSource src_get src_list]. split_and!.
  - intros r [->|[(h & ->)|(h & t1 & w & -> & Hr)]]%runs_get.
    + destruct (no_requests catalogs object_of i). split; [done|lia].
    + destruct (no_requests catalogs object_of i). split; [by apply reads_for_end|cbn; lia].
    + apply Forall_cons in Hh as [_ [Hh _]%Forall_app]. destruct (getUncached_reads _ _ _ _ Hh Hr) as [H1 H2].
      split; [by apply reads_for_end, reads_for_snoc|]. rewrite requests_settled by done. lia.
  - intros r Hr. cbn [list_] in Hr. destruct (listable catalogs i); [apply runs_list_memo in Hr as [->|(h & t1 & w & -> & Hr)]|destruct Hr as [-> _]].
    + destruct (no_requests catalogs children_of i). split; [by apply reads_for_end|cbn; lia].
    + apply Forall_cons in Hh as [_ [Hh _]%Forall_app]. destruct (listUncached_reads _ _ _ _ Hh Hr) as (H1 & H2 & _).
      split; [by apply reads_for_end, reads_for_snoc|]. rewrite requests_settled by done. lia.
    + destruct (no_requests catalogs children_of i). split; [done|lia].
  - intros r [->|(h & t1 & w & -> & Hr)]%runs_list_memo.
    + split; [cbn; lia|]. by intros path query d x Hx%list_elem_of_singleton.
    + apply Forall_cons in Hh as [_ [Hh _]%Forall_app].
      pose proof (fun HF => reads_now (fun now path query d => d = now + OPERATION_BUDGET_MS /\ path = "/v1/config" /\
        exists w, query = [("warehouse", Some w)] /\ exists m, m ∈ catalogs /\ lm_warehouse m = w) (length catalogs)
        (fun _ => True) _ t1 r HF Hh Hr) as HR. destruct HR as (HP & Hn & _).
      { intros now. apply (top_level_reads catalogs _ (fun w => exists m, m ∈ catalogs /\ lm_warehouse m = w)). eauto. }
      split; [by rewrite requests_settled|]. intros path query d x Hx.
      apply elem_of_cons in Hx as [Hx|[Hx|Hx%list_elem_of_singleton]%elem_of_app]; [done| |done].
      destruct (HP _ _ _ _ Hx) as (now & _ & _ & -> & w' & -> & m & Hm & <-). split; [done|]. by exists m.
Qed.

(** ** Pages *)

(** The calls of a run that reads a listing from [token] on, page by page: how many pages,
    their items, and whether the last one had no successor. *)
Inductive pages {T} (fetch : option string -> LProg (list T * option string)) :
    option string -> trace LAns -> nat -> list T -> bool -> Prop :=
| pages_end token t items : runs (fetch token) t (inr (items, None)) -> pages fetch token t 1 items true
| pages_cut token : pages fetch token [] 0 [] false
| pages_more token t u items next n rest e :
    runs (fetch token) t (inr (items, Some next)) -> pages fetch (Some next) u n rest e ->
    pages fetch token (t ++ u) (S n) (items ++ rest) e.

(** The same of requests and answers alone: one request for each page, the first without a
    token and each other with the token of the answer before, to the one whose answer has
    none. *)
Inductive all_pages {T} (path : string) (query : option string -> list (string * option string)) (deadline : Z)
    (items_in : json -> option (list T * option string)) : option string -> trace LAns -> list T -> Prop :=
| last_page token body items :
    items_in body = Some (items, None) ->
    all_pages path query deadline items_in token [Did (LGetJson path (query token) deadline) (inr body)] items
| page_before token body items next t rest :
    items_in body = Some (items, Some next) -> all_pages path query deadline items_in (Some next) t rest ->
    all_pages path query deadline items_in token
      (Did (LGetJson path (query token) deadline) (inr body) :: t) (items ++ rest).

Lemma pages_all {T} (fetch : option string -> LProg (list T * option string)) path query d items_in token t n items :
  (forall token u items next, runs (fetch token) u (inr (items, next)) ->
     exists body, u = [Did (LGetJson path (query token) d) (inr body)] /\ items_in body = Some (items, next)) ->
  pages fetch token t n items true -> all_pages path query d items_in token t items.
Proof.
  intros Hf. remember true as e eqn:Ee. induction 1 as [token t items Hr|token|token t u items next n rest e Hr Hp IH]; [|done|].
  - destruct (Hf _ _ _ _ Hr) as (body & -> & Hb). by apply last_page.
  - destruct (Hf _ _ _ _ Hr) as (body & -> & Hb). apply (page_before _ _ _ _ _ _ _ next); auto.
Qed.

Lemma runs_attempt {A B} (p : LProg A) (f : A -> LProg B) t b :
  runs (bind_ok p f) t (inr b) -> exists t1 t2 a, t = t1 ++ t2 /\ runs p t1 (inr a) /\ runs (f a) t2 (inr b).
Proof. intros (t1 & t2 & [e|a] & -> & H1 & H2)%runs_bind; [by destruct H2|eauto 10]. Qed.

Lemma drain_loop_pages {T} (fetch : option string -> LProg (list T * option string)) n token all ws t out ws' :
  runs (drain_loop fetch n token all ws) t (inr (out, ws')) ->
  exists k rest e, pages fetch token t k rest e /\ (k <= n)%nat /\ out = all ++ rest /\
    ws' = ws ++ (if e : bool then [] else [LISTING_TRUNCATED]) /\ (e = false -> k = n).
Proof.
  revert token all t. induction n as [|n IH]; intros token all t; cbn [drain_loop].
  - intros [-> [= -> ->]]. exists 0%nat, [], false. rewrite app_nil_r. split_and!; [constructor|done..].
  - intros (t1 & t2 & [items [next|]] & -> & H1 & H2)%runs_attempt.
    + apply IH in H2 as (k & rest & e & Hp & Hk & -> & -> & He). exists (S k), (items ++ rest), e.
      rewrite app_assoc. split_and!; [by econstructor|lia|done|done|intros ->; by rewrite He].
    + destruct H2 as [-> [= -> ->]]. exists 1%nat, items, true. rewrite !app_nil_r.
      split_and!; [by econstructor|lia|done|done|done].
Qed.

(** What the caches of lists answer is what some run of the listing answered. *)
Definition honest_list (catalogs : list LakekeeperCatalogMapping) (c : call LAns) : Prop :=
  match c with
  | Did (LList key) hit =>
      forall l, hit = Some (inr l) -> exists p t, key = "list:" +:+ default EmptyString p /\
        (p = None \/ exists i, p = Some i /\ listable catalogs i = true) /\
        Forall honest_call t /\ runs (listUncached catalogs p) t (inr l)
  | _ => True
  end.

(** The keys of the cache tell the nodes apart. *)
Lemma list_key_inj catalogs i p :
  listable catalogs i = true -> (p = None \/ exists j, p = Some j /\ listable catalogs j = true) ->
  "list:" +:+ default EmptyString p = "list:" +:+ i -> p = Some i.
Proof.
  intros Hi Hp He%str_app_inj. destruct Hp as [->|(j & -> & _)]; cbn in He; [|by subst]. by subst i.
Qed.

Lemma list_answer catalogs i t l :
  Forall honest_call t -> Forall (honest_list catalogs) t -> runs (list_ catalogs (Some i)) t (inr l) ->
  listable catalogs i = false /\ l = nothing_there \/
  listable catalogs i = true /\ exists t', Forall honest_call t' /\ runs (listUncached catalogs (Some i)) t' (inr l) /\
    ((exists a b, t = a ++ t' ++ b) \/ t = [Did (LList ("list:" +:+ i)) (Some (inr l))]).
Proof.
  intros Hh Hl Hr. destruct (listable catalogs i) eqn:Hi; [right|left; cbn [list_] in Hr; rewrite Hi in Hr; by destruct Hr as [_ [= ->]]].
  split; [done|]. cbn [list_] in Hr. rewrite Hi in Hr. apply runs_list_memo in Hr as [->|(h & t1 & w & -> & Hr)].
  - apply Forall_cons in Hl as [Hl _]. destruct (Hl l eq_refl) as (p & t' & Hk & Hp & Ht & Hr).
    exists t'. rewrite (list_key_inj catalogs i p Hi Hp ltac:(by symmetry)) in Hr. auto.
  - exists t1. apply Forall_cons in Hh as [_ [Hh _]%Forall_app]. split_and!; [done..|]. left.
    by exists [Did (LList ("list:" +:+ i)) h], [Did (LListSettled ("list:" +:+ i) (inr l) w) tt].
Qed.

(** The children on a page: namespaces, all one level below the parent, and tables, with
    names that can be addressed. *)
Definition namespaces_in (parent : list string) (body : json) : option (list (list string) * option string) :=
  '(namespaces, next) ← listNamespacesSchema body;
  if forallb (is_child parent) namespaces then Some (List.filter (forallb isSafeUpstreamSegment) namespaces, next) else None.

Definition tables_in (body : json) : option (list string * option string) :=
  '(identifiers, next) ← listTablesSchema body; Some (List.filter isSafeUpstreamSegment identifiers, next).

(** In these calls every page was read, of the namespaces and then of the tables, up to one
    without a successor, and every item of them that can be addressed is listed. *)
Definition complete_listing (t : trace LAns) (mapping : LakekeeperCatalogMapping) (kind : DataAssetKind) (ns : list string)
    (assets : list DataAsset) : Prop :=
  exists before u v after prefix d namespaces schemas tables, t = before ++ u ++ v ++ after /\
    all_pages ("/v1" +:+ prefix +:+ "/namespaces")
      (fun token => ("parent", match ns with [] => None | _ => Some (join NS_SEP ns) end) :: page_query token) d
      (namespaces_in ns) None u namespaces /\
    rmap (schemaAsset (lm_name mapping)) namespaces = inr schemas /\ assets = schemas ++ tables /\
    match kind with
    | KSchema => exists p names, nsPath ns = inr p /\
        all_pages ("/v1" +:+ prefix +:+ "/namespaces/" +:+ p +:+ "/tables") page_query d tables_in None v names /\
        rmap (tableAsset (lm_name mapping) ns) names = inr tables
    | _ => v = [] /\ tables = []
    end.

Lemma complete_part a t b mapping kind ns assets :
  complete_listing t mapping kind ns assets -> complete_listing (a ++ t ++ b) mapping kind ns assets.
Proof.
  intros (before & u & v & after & prefix & d & namespaces & schemas & tables & -> & H).
  exists (a ++ before), u, v, (after ++ b), prefix, d, namespaces, schemas, tables. split; [|exact H]. by rewrite <-!app_assoc.
Qed.

Lemma runs_pure {A} (r : result LoadError A) t b : runs (pure_ r) t (inr b) -> t = [] /\ r = inr b.
Proof. by intros [-> ->]. Qed.

Lemma drain_pages {T} (fetch : option string -> LProg (list T * option string)) ws t out ws' :
  runs (drain fetch ws) t (inr (out, ws')) ->
  exists k e, pages fetch None t k out e /\ (k <= MAX_PAGES)%nat /\
    ws' = ws ++ (if e : bool then [] else [LISTING_TRUNCATED]) /\ (e = false -> k = MAX_PAGES).
Proof. intros (k & rest & e & ? & ? & -> & ? & ?)%drain_loop_pages. by exists k, e. Qed.

Lemma runs_get_json path query d t j : runs (ldo (LGetJson path query d)) t (inr j) -> t = [Did (LGetJson path query d) (inr j)].
Proof. by intros ->%runs_one. Qed.

Lemma namespaces_page_run prefix parent d token t items next :
  runs (namespaces_page prefix parent d token) t (inr (items, next)) ->
  exists body, t = [Did (LGetJson ("/v1" +:+ prefix +:+ "/namespaces")
    (("parent", match parent with [] => None | _ => Some (join NS_SEP parent) end) :: page_query token) d) (inr body)] /\
    namespaces_in parent body = Some (items, next).
Proof.
  intros (t1 & t2 & body & -> & ->%runs_get_json & H)%runs_attempt. exists body. unfold namespaces_in.
  destruct (listNamespacesSchema body) as [[l n]|]; [|by destruct H]. cbn [mbind option_bind].
  destruct (forallb (is_child parent) l); [|by destruct H]. cbn [negb] in H. by destruct H as [-> [= -> ->]].
Qed.

Lemma tables_page_run prefix ns d token t items next :
  runs (tables_page prefix ns d token) t (inr (items, next)) ->
  exists p, nsPath ns = inr p /\ exists body,
    t = [Did (LGetJson ("/v1" +:+ prefix +:+ "/namespaces/" +:+ p +:+ "/tables") (page_query token) d) (inr body)] /\
    tables_in body = Some (items, next).
Proof.
  intros (t0 & t' & p & -> & [-> Hp]%runs_pure & (t1 & t2 & body & -> & ->%runs_get_json & H)%runs_attempt)%runs_attempt.
  exists p. split; [done|]. exists body. unfold tables_in.
  destruct (listTablesSchema body) as [[l n]|]; [|by destruct H]. by destruct H as [-> [= -> ->]].
Qed.

Lemma pages_ran {T} (fetch : option string -> LProg (list T * option string)) token t n items :
  pages fetch token t n items true -> exists token' u items' next, runs (fetch token') u (inr (items', next)).
Proof. by inversion 1; eauto 10. Qed.

Lemma children_warnings kind mapping ns d t l :
  runs (children kind mapping ns d) t (inr l) ->
  exists ws, al_warnings l = NODE_AUTHZ_WARNING :: ws /\ Forall (fun w => w = LISTING_TRUNCATED) ws /\
    (ws = [] -> complete_listing t mapping kind ns (al_assets l)).
Proof.
  intros (t1 & t2 & prefix & -> & _ & (t3 & t4 & [namespaces ws1] & -> & H3 & H4)%runs_attempt)%runs_attempt.
  apply drain_pages in H3 as (n & e & Hp & _ & -> & _). cbv beta iota in H4.
  apply runs_attempt in H4 as (t5 & t6 & schemas & -> & [-> Hs]%runs_pure & H6). rewrite app_nil_l.
  assert (Forall (fun w => w = LISTING_TRUNCATED) (if e then [] else [LISTING_TRUNCATED])) as Hf by (destruct e; repeat constructor).
  assert (e = true -> all_pages ("/v1" +:+ prefix +:+ "/namespaces")
      (fun token => ("parent", match ns with [] => None | _ => Some (join NS_SEP ns) end) :: page_query token) d
      (namespaces_in ns) None t3 namespaces) as Hu.
  { intros ->. eapply pages_all; [|exact Hp]. intros. by apply namespaces_page_run. }
  destruct kind; try (destruct H6 as [-> [= ->]]; eexists; split_and!; [done|done|]; intros He; cbn [al_assets];
    exists t1, t3, [], [], prefix, d, namespaces, schemas, []; rewrite !app_nil_r; split_and!; try done; apply Hu; by destruct e).
  apply runs_attempt in H6 as (t7 & t8 & [names ws2] & -> & H7 & H8).
  apply drain_pages in H7 as (m & e' & Hp' & _ & -> & _). cbv beta iota in H8.
  apply runs_attempt in H8 as (t9 & t10 & tables & -> & [-> Ht]%runs_pure & [-> [= ->]]). cbn [al_warnings al_assets].
  exists ((if e then [] else [LISTING_TRUNCATED]) ++ (if e' then [] else [LISTING_TRUNCATED])). split_and!; [done| |].
  - apply Forall_app_2; [done|]. destruct e'; repeat constructor.
  - destruct e; [|done]. destruct e'; [|done]. intros _. exists t1, t3, t7, [], prefix, d, namespaces, schemas, tables.
    rewrite !app_nil_r. split_and!; [done|by apply Hu|done|done|].
    destruct (pages_ran _ _ _ _ _ Hp') as (? & ? & ? & ? & (p & En & _)%tables_page_run). exists p, names.
    split_and!; [done| |done]. eapply pages_all; [|exact Hp'].
    intros token u items next (p' & Ep & Hb)%tables_page_run. rewrite En in Ep. by injection Ep as ->.
Qed.

Lemma listUncached_children catalogs i t l :
  listable catalogs i = true -> Forall honest_call t -> runs (listUncached catalogs (Some i)) t (inr l) ->
  exists kind mapping ns d now t2, t = [Did LNow now] ++ t2 /\ parseAssetId i = Some (kind, lm_name mapping :: ns) /\ byName catalogs (lm_name mapping) = Some mapping /\
    (kind = KCatalog <-> ns = []) /\ (kind = KCatalog \/ kind = KSchema) /\
    Forall honest_call t2 /\ runs (children kind mapping ns d) t2 (inr l).
Proof.
  unfold listable, listUncached. intros Hi Hh (t1 & t2 & now & -> & ->%runs_one & Hr)%runs_bind.
  apply Forall_app in Hh as [_ Hh]. destruct (parseAssetId i) as [[kind segments]|] eqn:Ep; [|done].
  destruct (mapping_of catalogs segments) as [mapping|] eqn:Em; [|exfalso; destruct kind; try done; by apply bool_decide_eq_true in Hi as [? ?]].
  destruct (mapping_name _ _ _ Em) as [rest ->].
  assert (kind <> KTable) as Hkt by (by intros ->). destruct (listed_kind _ _ _ _ Ep Hkt) as [Hk1 Hk2].
  exists kind, mapping, rest, (now + OPERATION_BUDGET_MS), now, t2. split_and!; [done..|]. by destruct Hk2 as [-> | ->].
Qed.

Lemma child_parses kind catalog ns a i :
  parseAssetId i = Some (kind, catalog :: ns) -> kind = KCatalog \/ kind = KSchema -> (kind = KCatalog <-> ns = []) ->
  child_asset kind catalog ns a -> (String.length (da_id a) <= MAX_ASSET_ID_LENGTH)%nat ->
  exists name, parseAssetId (da_id a) = Some (da_kind a, catalog :: ns ++ [name]).
Proof.
  intros Hi Hk Hkn (_ & _ & _ & _ & _ & name & Hs & He & Ha) Hl. exists name. rewrite He in Hl |- *. apply parse_derived; [|..|done].
  - unfold address_length. cbn [length]. rewrite length_app. cbn [length].
    destruct Ha as [[-> _]|(-> & -> & _)]; cbn; split_and!; try done; [lia|].
    destruct ns; [|cbn; lia]. by destruct Hkn as [_ Hkn]; specialize (Hkn eq_refl).
  - intros s. rewrite elem_of_cons, elem_of_app, list_elem_of_singleton. intros [->|[Hin| ->]]; [..|done];
      (eapply parse_safe; [exact Hi|]); [left|by right].
Qed.

(** C28: A listing is the children of a node, and says what it leaves out.  Listing an
    identifier answers nothing for a node that cannot have children here; otherwise every
    asset listed is a namespace or table directly under the node the identifier names, has
    this node as parent and an identifier of its own that addresses it again, when it is
    not longer than an identifier may be.  The warning that nothing is filtered per user is
    always there, and a listing without a further one is complete: among the requests of the
    run are those of every page, each but the first with the token of the page before, to
    one without a successor, and all their items that can be addressed are listed.  A cached
    answer is one of another run for the same node, and complete in that run. *)
Theorem listing_is_children `{Intl} catalogs i t l :
  Forall honest_call t -> Forall (honest_list catalogs) t ->
  runs (src_list (createLakekeeperDataAssetSource catalogs) (Some i)) t (inr l) ->
  exists ws, al_warnings l = NODE_AUTHZ_WARNING :: ws /\ Forall (fun w => w = LISTING_TRUNCATED) ws /\
    (listable catalogs i = false /\ al_assets l = [] \/
     exists kind mapping ns, parseAssetId i = Some (kind, lm_name mapping :: ns) /\
       byName catalogs (lm_name mapping) = Some mapping /\
       (ws = [] -> exists t', complete_listing t' mapping kind ns (al_assets l) /\
          (t' = t \/ t = [Did (LList ("list:" +:+ i)) (Some (inr l))] /\ runs (listUncached catalogs (Some i)) t' (inr l))) /\
       forall a, a ∈ al_assets l -> child_asset kind (lm_name mapping) ns a /\
         ((String.length (da_id a) <= MAX_ASSET_ID_LENGTH)%nat ->
          exists name, parseAssetId (da_id a) = Some (da_kind a, lm_name mapping :: ns ++ [name]))).
Proof.
  intros Hh Hl [[Hi ->]|(Hi & t' & Ht & Hr & Hpart)]%list_answer; [exists []; split_and!; [done|done|by left]| |done|done].
  destruct (listUncached_children _ _ _ _ Hi Ht Hr) as (kind & mapping & ns & d & now & t2 & -> & Hp & Hm & Hkn & Hk & Ht2 & Hr2).
  destruct (children_warnings _ _ _ _ _ _ Hr2) as (ws & Hw & Hf & Hc).
  destruct (reads_children kind mapping ns d Hkn Hk _ _ Ht2 Hr2) as (_ & _ & Ha). cbn in Ha.
  exists ws. split_and!; [done|done|]. right. exists kind, mapping, ns. split_and!; [done..| |].
  - intros Hn%Hc%(complete_part [Did LNow now] _ []). rewrite app_nil_r in Hn.
    destruct Hpart as [(a & b & ->)|Hhit]; [|by eauto]. eexists. split; [by apply complete_part|by left].
  - intros a Hin. eapply Forall_forall in Ha; [|exact Hin]. split; [done|]. intros Hlen. by eapply child_parses.
Qed.

(** The loop over the pages of a listing ends: after at most ten pages it answers the
    items of all of them in order, and adds the warning of a truncated listing exactly
    when the tenth page had a successor. *)
Theorem drain_ends {T} (fetch : option string -> LProg (list T * option string)) ws t out ws' :
  runs (drain fetch ws) t (inr (out, ws')) ->
  exists n e, pages fetch None t n out e /\ (n <= MAX_PAGES)%nat /\
    (if e : bool then ws' = ws else n = MAX_PAGES /\ ws' = ws ++ [LISTING_TRUNCATED]).
Proof.
  intros (k & e & Hp & Hk & -> & He)%drain_pages. exists k, e. split_and!; [done|done|].
  destruct e; [by rewrite app_nil_r|]. by rewrite He.
Qed.

(** ** Witnesses *)

(** Empty caches are honest. *)
Definition no_hit (c : call LAns) : bool :=
  match c with
  | Did (LPrefix _) (Some _) | Did (LList _) (Some _) => false
  | _ => true
  end.

Lemma cold_honest catalogs t : forallb no_hit t = true -> Forall honest_call t /\ Forall (honest_list catalogs) t.
Proof.
  induction t as [|[e r] t IH]; [by repeat constructor|]. cbn [forallb]. intros [Hc [H1 H2]%IH]%andb_prop.
  split; constructor; try done; destruct e; try done; by destruct r.
Qed.

Definition demo_catalogs : list LakekeeperCatalogMapping := [mkMapping "lake" "wh"].

(** A catalog with one warehouse, one namespace and two tables in it; one name cannot be
    addressed. *)
Definition demo_catalog (h : trace LAns) (e : LOp) : LAns e :=
  match e with
  | LNow => 0
  | LGetJson path query _ =>
      if String.eqb path "/v1/config" then inr (JObj [("overrides", JObj [("prefix", JStr "p1")])])
      else if String.eqb path "/v1/p1/namespaces/sales/tables" then
        inr (JObj [("identifiers", JArr [JObj [("namespace", JArr []); ("name", JStr "orders")]; JObj [("namespace", JArr []); ("name", JStr "..")]])])
      else if String.eqb path "/v1/p1/namespaces" then
        inr (JObj [("namespaces", JArr [JArr [JStr "sales"; JStr "eu"]])])
      else inr (JObj [])
  | LPrefix _ | LList _ | LGet _ => None
  | LPrefixSettled _ _ | LListSettled _ _ _ | LGetSettled _ _ _ => tt
  end.

Definition demo_intl : Intl := {| toISOString := fun _ => EmptyString; localeCompare := fun _ _ => 0 |}.

Definition demo_get := answer demo_catalog [] (get_ (intl:=demo_intl) demo_catalogs "asset-schema-lake.sales").
Definition demo_list := answer demo_catalog [] (list_ demo_catalogs (Some "asset-schema-lake.sales")).

Lemma catalog_reads_confined_witness : (requests demo_get.1 <= 2)%nat /\ (requests demo_list.1 <= 21)%nat.
Proof.
  split.
  - refine (proj2 (proj1 (catalog_reads_confined (H:=demo_intl) demo_catalogs "asset-schema-lake.sales" demo_get.1 _) demo_get.2 _));
      [apply (cold_honest demo_catalogs); vm_compute; reflexivity|exact (answer_runs demo_catalog [] (get_ (intl:=demo_intl) demo_catalogs "asset-schema-lake.sales"))].
  - refine (proj2 (proj1 (proj2 (catalog_reads_confined (H:=demo_intl) demo_catalogs "asset-schema-lake.sales" demo_list.1 _)) demo_list.2 _));
      [apply (cold_honest demo_catalogs); vm_compute; reflexivity|exact (answer_runs demo_catalog [] (list_ demo_catalogs (Some "asset-schema-lake.sales")))].
Defined.

Definition demo_listing : DataAssetListResult :=
  mkAssets [
    mkAsset "asset-schema-lake.sales.eu" "sales.eu" KSchema SERVICE_ID Unknown (Some "lake") (Some ["sales"; "eu"])
      (Some (Some "asset-schema-lake.sales")) (Some ["lake"; "sales"]);
    mkAsset "asset-table-lake.sales.orders" "sales.orders" KTable SERVICE_ID Unknown (Some "lake") (Some ["sales"])
      (Some (Some "asset-schema-lake.sales")) (Some ["lake"; "sales"])] [NODE_AUTHZ_WARNING].

Lemma listing_is_children_witness : exists ws, al_warnings demo_listing = NODE_AUTHZ_WARNING :: ws.
Proof.
  destruct (listing_is_children (H:=demo_intl) demo_catalogs "asset-schema-lake.sales" demo_list.1 demo_listing) as (ws & H & _).
  - apply (cold_honest demo_catalogs). vm_compute. reflexivity.
  - apply cold_honest. vm_compute. reflexivity.
  - assert (demo_list.2 = inr demo_listing) as <- by (vm_compute; reflexivity).
    exact (answer_runs demo_catalog [] (list_ demo_catalogs (Some "asset-schema-lake.sales"))).
  - exists ws. exact H.
Defined.

Lemma drain_ends_witness : exists n e, pages (fun _ : option string => Ret (inr (["a"], None))) None [] n ["a"] e.
Proof.
  destruct (drain_ends (fun _ : option string => Ret (inr (["a"], None))) [] [] ["a"] []) as (n & e & H & _).
  - by vm_compute.
  - exists n, e. exact H.
Defined.
