(* ===== verification/ViewsProofs.v ===== *)
(** * What the views show: links between them, graphs, pages, and the hand-over of a table *)
From S2P Require Import Prelude JsBase JsText JsJson JsLib AssetId Correlation Config Effects Services Pipeline DataAssets.
From S2P Require Import Ci Decision Kube Listings WebTable Console ApiClient Translations I18n Graph GraphProofs Views Startup Lakekeeper LakekeeperProofs.
From Stdlib Require Import Ascii.
From Stdlib Require String.
Open Scope Z_scope.

(** ** Links between views *)

(** The state of a view is that of the view of the tab. *)
Definition belongs (tab : string) (v : ViewState) : bool :=
  match v with
  | VServices _ _ => String.eqb tab "services" | VPipelines _ => String.eqb tab "pipelines"
  | VArchitecture _ _ _ => String.eqb tab "architecture" | VOperations _ _ _ => String.eqb tab "operations"
  | VCatalog _ => String.eqb tab "catalog" | VQuery _ _ => String.eqb tab "query"
  | VOther => bool_decide (tab ∈ ["overview"; "policy"; "sso"])
  end.

Lemma effect_belongs tab t v : belongs tab (operations_effect t v) = belongs tab v.
Proof. destruct v; cbn [operations_effect]; try done. by destruct (present (initialEventId t)). Qed.

Lemma initial_belongs tab t q : tab ∈ nav_ids -> belongs tab (initial_view tab t q) = true.
Proof.
  unfold nav_ids. rewrite !elem_of_cons, elem_of_nil. intros Hin.
  repeat (destruct Hin as [-> | Hin]); try done.
  change (initial_view "operations" t q) with (operations_effect t (VOperations (match present (initialResourceId t) with Some _ => SecResources | None => SecEvents end) None (initialEventId t))).
  by rewrite effect_belongs.
Qed.

Lemma render_belongs s tab t q : tab ∈ nav_ids -> belongs (sh_tab s) (sh_view s) = true -> belongs tab (render_view s tab t q) = true.
Proof.
  intros Hin Hb. unfold render_view. destruct (String.eqb_spec tab (sh_tab s)) as [->|_]; [|by apply initial_belongs].
  destruct (String.eqb _ _); cbn [andb]; [|by apply initial_belongs].
  case_match; [done|by rewrite effect_belongs].
Qed.

Lemma view_step_belongs tab e v : belongs tab v = true -> belongs tab (view_step e v) = true.
Proof. by destruct e as [| | | | |[]| | |], v. Qed.

Lemma tab_name_nav t : tab_name t ∈ nav_ids.
Proof. by destruct t; apply (bool_decide_unpack _). Qed.

Lemma shell_belongs stored s : shell_run stored s -> sh_tab s ∈ nav_ids /\ belongs (sh_tab s) (sh_view s) = true.
Proof.
  induction 1 as [|s e _ [Ht Hb] Ho]; [split; [by apply (bool_decide_unpack _)|done]|].
  destruct e as [tab|tg|d| |e]; cbn in Ho |- *; [|apply and_comm|..].
  - split; [done|by apply render_belongs].
  - split; [apply render_belongs; [apply tab_name_nav|done]|apply tab_name_nav].
  - split; [by apply (bool_decide_unpack _)|]. apply render_belongs; [by apply (bool_decide_unpack _)|done].
  - done.
  - split; [done|by apply view_step_belongs].
Qed.

(** What a link promises: the service is in the list, the pipeline is the selected one,
    the events are those of the id, the resource is in the list. *)
Definition shown (t : EventNavigationTarget) (v : ViewState) : Prop :=
  match nt_tab t, v with
  | TabServices, VServices term type =>
      forall lower services s, s ∈ services -> sv_id s = nt_id t -> s ∈ filteredServices lower term type services
  | TabPipelines, VPipelines selected =>
      forall pipelines p, NoDup (pl_id <$> pipelines) -> p ∈ pipelines -> pl_id p = nt_id t -> pipelines_selected selected pipelines = Some p
  | TabOperations, VOperations section kind focus =>
      if nt_event t
      then section = SecEvents /\ forall compare events e, e ∈ shown_events compare focus events <-> e ∈ events /\ ev_id e = nt_id t
      else section = SecResources /\ forall resources r, r ∈ resources -> r ∈ shown_resources kind resources
  | _, _ => False
  end.

Lemma includes_self s : includes s s = true.
Proof. pose proof (includes_middle s EmptyString EmptyString) as E. by rewrite str_app_nil_l, str_app_nil_r in E. Qed.

Lemma search_finds_id lower services s :
  s ∈ services -> s ∈ filteredServices lower (sv_id s) "ALL" services.
Proof.
  intros Hin. apply elem_of_filterb. split; [done|]. unfold matches_search. cbv zeta.
  rewrite (includes_self (lower (sv_id s))). by destruct (includes _ (lower (sv_name s))).
Qed.

Lemma select_finds pipelines p : NoDup (pl_id <$> pipelines) -> p ∈ pipelines -> pipelines_selected (Some (pl_id p)) pipelines = Some p.
Proof.
  cbn [pipelines_selected]. induction pipelines as [|q l IH]; [by intros _ ?%elem_of_nil|].
  cbn [fmap list_fmap]. intros [Hq Hn]%NoDup_cons Hin. cbn [List.find]. destruct (String.eqb_spec (pl_id q) (pl_id p)) as [E|E].
  - apply elem_of_cons in Hin as [->|Hin]; [done|]. exfalso. apply Hq. rewrite E. by apply (list_elem_of_fmap_2 pl_id).
  - apply elem_of_cons in Hin as [->|Hin]; [done|]. by apply IH.
Qed.

Lemma focus_shows compare i events e : i <> EmptyString -> e ∈ shown_events compare (Some i) events <-> e ∈ events /\ ev_id e = i.
Proof.
  intros Hi. unfold shown_events, present. apply String.eqb_neq in Hi. rewrite Hi. rewrite elem_of_filterb, String.eqb_eq.
  unfold sortByTimestampDesc. by rewrite elem_of_js_sort.
Qed.

Lemma mounted_shows t q : link_target t = true -> shown t (initial_view (tab_name (nt_tab t)) (Some t) q).
Proof.
  unfold link_target. rewrite andb_true_iff, negb_true_iff, String.eqb_neq. intros [Hi Hf].
  destruct t as [tab i name resource event]; cbn [nt_id nt_tab nt_resource nt_event] in *. destruct tab.
  - cbn. intros lower services s Hin <-. by apply search_finds_id.
  - cbn -[pipelines_selected]. intros pipelines p Hn Hin <-. by apply select_finds.
  - assert (present (Some i) = Some i) as Hp by (unfold present; by apply String.eqb_neq in Hi; rewrite Hi).
    destruct resource, event; try done; cbn -[present shown_events]; rewrite Hp; cbn -[shown_events].
    + split; [done|]. tauto.
    + split; [done|]. intros. by apply focus_shows.
Qed.

(** The click that changes nothing: the operations view is open for this very target. *)
Definition repeats (s : Shell) (t : EventNavigationTarget) : bool :=
  String.eqb (sh_tab s) "operations" && String.eqb (tab_name (nt_tab t)) "operations" &&
  String.eqb (default EmptyString (nt_id <$> sh_eventTarget s)) (nt_id t).

Lemma remounts s t :
  sh_tab s ∈ ["overview"; "architecture"; "operations"] -> repeats s t = false ->
  render_view s (tab_name (nt_tab t)) (Some t) (sh_queryTarget s) = initial_view (tab_name (nt_tab t)) (Some t) (sh_queryTarget s).
Proof.
  intros Hs Hr. unfold render_view. destruct (String.eqb_spec (tab_name (nt_tab t)) (sh_tab s)) as [E|E]; [|done].
  unfold repeats in Hr. rewrite <-E in Hr, Hs |- *. destruct (nt_tab t); cbn [tab_name] in *.
  1,2: apply (bool_decide_pack _) in Hs; done.
  change (String.eqb (default EmptyString (nt_id <$> sh_eventTarget s)) (nt_id t) = false) in Hr. change (view_key "operations" (sh_eventTarget s) (sh_queryTarget s)) with (default EmptyString (nt_id <$> sh_eventTarget s)).
  change (view_key "operations" (Some t) (sh_queryTarget s)) with (nt_id t). by rewrite String.eqb_sym, Hr.
Qed.

(** C17: Links between views.  Whatever was clicked before, the shell shows one of its nine
    tabs and the state of its view; a table opened from the catalog is the one selected
    in the query view, on its first page; and a link to a service, a pipeline, an event or
    a resource ends on the tab of its target, where the service is among those listed,
    the pipeline is the one selected, the events are those of the id, or the resources are
    listed without a filter: unless the operations view is already open for the id, when
    the click of the same link leaves the view as it is, whatever it shows by then. *)
Theorem links_land stored s :
  shell_run stored s ->
  sh_tab s ∈ nav_ids /\ belongs (sh_tab s) (sh_view s) = true /\
  (forall d, offered s (ClickOpenInQuery d) ->
     sh_view (shell_step s (ClickOpenInQuery d)) = VQuery (Some (da_id (dd_asset d))) 1) /\
  (forall t, offered s (ClickTarget t) ->
     let s' := shell_step s (ClickTarget t) in
     sh_tab s' = tab_name (nt_tab t) /\ (repeats s t = false -> shown t (sh_view s')) /\
     (sh_tab s = "operations" -> sh_eventTarget s = Some t -> nt_tab t = TabOperations -> sh_view s' = sh_view s)).
Proof.
  intros Hr. destruct (shell_belongs _ _ Hr) as [Ht Hb]. split_and!; [done|done| |].
  - intros d Ho. cbn in Ho. unfold shell_step, navigateToCatalogQuery, set_shell. cbn [sh_view]. unfold render_view. by rewrite Ho.
  - intros t [Hs Hl]. cbn [shell_step]. unfold navigateToEventTarget, set_shell. cbn [sh_tab sh_view]. split_and!; [done| |].
    + intros Hn. rewrite remounts by done. by apply mounted_shows.
    + intros E1 E2 E3. rewrite E3. unfold render_view. rewrite E1, E2. cbn [tab_name]. rewrite !String.eqb_refl. cbn [andb].
      rewrite !bool_decide_eq_true_2 by done. done.
Qed.

Definition demo_table : DataAssetDetail :=
  mkAssetDetail (mkAsset "a" "analytics.orders" KTable "svc-iceberg" Healthy None None None None) None None None None None.

(** From the events of the overview to a resource, to the events, and the same resource
    again: the second click leaves the events. *)
Definition at_resource : Shell := shell_step (shell_step (new_shell None) (ClickTarget (createEventFocusTarget "e1"))) (ClickTarget (to_resource "r1")).
Definition back_at_events : Shell := shell_step at_resource (InView (ShowSection SecEvents)).

Lemma back_at_events_run : shell_run None back_at_events.
Proof. repeat first [apply shell_next|apply shell_new]; try done; split; try done; by apply (bool_decide_unpack _). Qed.

Lemma links_land_witness :
  shell_run None back_at_events /\ offered back_at_events (ClickTarget (to_resource "r1")) /\
  sh_view at_resource = VOperations SecResources None None /\
  sh_view (shell_step back_at_events (ClickTarget (to_resource "r1"))) = VOperations SecEvents None None /\
  shown (to_pipeline "p1" None) (sh_view (shell_step back_at_events (ClickTarget (to_pipeline "p1" None)))).
Proof.
  assert (offered back_at_events (ClickTarget (to_resource "r1"))) as Ho by (split; [by apply (bool_decide_unpack _)|done]).
  assert (offered back_at_events (ClickTarget (to_pipeline "p1" None))) as Hp by (split; [by apply (bool_decide_unpack _)|done]).
  split_and!; [apply back_at_events_run|done|done| |].
  - destruct (links_land None back_at_events back_at_events_run) as (_ & _ & _ & Hl). by destruct (Hl _ Ho) as (_ & _ & ->).
  - destruct (links_land None back_at_events back_at_events_run) as (_ & _ & _ & Hl). destruct (Hl _ Hp) as (_ & Hs & _). by apply Hs.
Defined.

(** ** The hand-over of a table to the query view *)

Lemma active_listed assets i :
  query_active_asset assets (Some i) = Some i <-> exists a, a ∈ assets /\ da_kind a = KTable /\ da_id a = i.
Proof.
  unfold query_active_asset. cbv zeta. destruct (existsb _ (table_assets assets)) eqn:E.
  - split; [|done]. intros _. apply existsb_elem in E as (a & [Ha Hk]%elem_of_filterb & Hi%String.eqb_eq).
    apply bool_decide_eq_true in Hk. by exists a.
  - assert (forall a, a ∈ assets -> da_kind a = KTable -> da_id a <> i) as Hn.
    { intros a Ha Hk Hi. apply not_true_iff_false in E. apply E. apply existsb_elem. exists a.
      split; [apply elem_of_filterb; split; [done|by apply bool_decide_eq_true]|by apply String.eqb_eq]. }
    split; [|intros (a & Ha & Hk & Hi); by destruct (Hn a)].
    destruct (head (table_assets assets)) as [a|] eqn:Eh; [|done]. cbn. intros [= Hi]. exists a.
    assert (a ∈ table_assets assets) as [Ha Hk]%elem_of_filterb by (destruct (table_assets assets); [done|injection Eh as ->; by left]).
    by apply bool_decide_eq_true in Hk.
Qed.

Lemma no_tables_no_asset assets : (forall a, a ∈ assets -> da_kind a = KCatalog) -> forall selected, query_active_asset assets selected = None.
Proof.
  intros Hc selected. assert (table_assets assets = []) as E.
  { unfold table_assets. destruct (List.filter _ assets) as [|a l] eqn:E; [done|]. exfalso.
    assert (a ∈ List.filter (fun a => bool_decide (da_kind a = KTable)) assets) as [Ha Hk]%elem_of_filterb by (rewrite E; by left).
    apply bool_decide_eq_true in Hk. rewrite (Hc a Ha) in Hk. done. }
  unfold query_active_asset. rewrite E. by destruct selected.
Qed.

Lemma catalogs_listed catalogs d t l a : runs (top_level catalogs d) t (inr l) -> a ∈ al_assets l -> da_kind a = KCatalog.
Proof.
  intros (t1 & t2 & x & -> & _ & (t3 & t4 & assets & -> & [_ Ha]%runs_pure & [_ [= ->]])%runs_attempt)%runs_attempt. cbn [al_assets].
  assert (forall (c : LakekeeperCatalogMapping) b, True -> catalogAsset (lm_name c) = inr b -> da_kind b = KCatalog) as Hk.
  { intros c b _ Hc. unfold catalogAsset, parse_with in Hc. case_match; [|done]. by injection Hc as <-. }
  apply (rmap_Forall _ (fun _ => True) _ _ _ Hk) in Ha; [intros Hin; by apply (proj1 (Forall_forall _ _) Ha)|by apply Forall_true].
Qed.

Lemma top_listing catalogs t l :
  Forall (honest_list catalogs) t -> runs (list_ catalogs None) t (inr l) -> forall a, a ∈ al_assets l -> da_kind a = KCatalog.
Proof.
  assert (forall t, runs (listUncached catalogs None) t (inr l) -> forall a, a ∈ al_assets l -> da_kind a = KCatalog) as Hu.
  { intros t' (t1 & t2 & now & -> & _ & Hr)%runs_bind a. exact (catalogs_listed catalogs (now + OPERATION_BUDGET_MS) t2 l a Hr). }
  intros Hh Hr. cbn [list_] in Hr. apply runs_list_memo in Hr as [->|(h & t1 & w & -> & Hr)]; [|by apply (Hu t1)].
  apply Forall_cons in Hh as [Hl _]. destruct (Hl l eq_refl) as (p & t' & Hk & Hp & _ & Hr).
  destruct Hp as [->|(i & -> & Hi)]; [by apply (Hu t')|]. exfalso. apply str_app_inj in Hk. cbn in Hk. by subst i.
Qed.

(** The hand-over of a table from the catalog to the query view.  The view opens the table
    exactly when it is among the assets of its own list; but the live catalog lists
    nothing but catalogs when no parent is named, as the view does: whatever table the
    user opened, and whatever is cached, the query view then shows none. *)
Theorem query_handoff `{Intl} catalogs deadline log t l :
  Forall (honest_list catalogs) t ->
  runs (assetsRoute deadline log (createLakekeeperDataAssetSource catalogs) 1 LIST_PAGE_SIZE None None None) t (AssetOk l) ->
  (forall a, a ∈ ls_data l -> da_kind a = KCatalog) /\
  (forall selected, query_active_asset (ls_data l) selected = None) /\
  (forall assets i, query_active_asset assets (Some i) = Some i <-> exists a, a ∈ assets /\ da_kind a = KTable /\ da_id a = i).
Proof.
  intros Hh Hr. assert (forall a, a ∈ ls_data l -> da_kind a = KCatalog) as Hc.
  { unfold assetsRoute, withRouteDeadline in Hr. apply runs_bind in Hr as (t1 & t2 & r & -> & Hw & Hr).
    apply runs_bind in Hw as (t3 & t4 & r' & -> & Hl & (t5 & t6 & late & -> & _ & [_ ->])%runs_bind).
    apply Forall_app in Hh as [[Hh _]%Forall_app _].
    assert (exists al, r' = inr al /\ (forall a, a ∈ ls_data l -> a ∈ al_assets al)) as (al & -> & Hsub).
    { destruct late; [apply runs_bind in Hr as (? & ? & ? & _ & _ & [_ Hr]); done|].
      destruct r' as [e|al]; [apply runs_bind in Hr as (? & ? & ? & _ & _ & [_ Hr]); done|]. exists al. split; [done|].
      rewrite paginate_page in Hr by (unfold LIST_PAGE_SIZE; lia). destruct Hr as [_ [= ->]]. cbn [ls_data]. intros a Ha.
      apply elem_of_take in Ha as (i & Ha & _). apply list_elem_of_lookup_2 in Ha. change (drop _ ?x) with x in Ha.
      by apply elem_of_filterb in Ha as [Ha _]. }
    intros a Ha. exact (top_listing catalogs t3 al Hh Hl a (Hsub a Ha)). }
  split_and!; [done| |apply active_listed]. intros selected. by apply no_tables_no_asset.
Qed.

Definition no_deadline (ms : Z) : prog LAns bool := Ret false.
Definition no_log (line : string) : prog LAns unit := Ret tt.
Definition demo_listing (intl : Intl) : prog LAns (AssetAnswer (Listing DataAsset)) :=
  assetsRoute no_deadline no_log (createLakekeeperDataAssetSource demo_catalogs) 1 LIST_PAGE_SIZE None None None.

Lemma query_handoff_witness :
  exists l, (answer demo_catalog [] (demo_listing demo_intl)).2 = AssetOk l /\ map da_name (ls_data l) = ["lake"] /\
    query_active_asset (ls_data l) (Some (deriveAssetId KTable ["lake"; "sales"; "orders"])) = None.
Proof.
  eexists. split; [vm_compute; reflexivity|]. split; [reflexivity|].
  refine (proj1 (proj2 (query_handoff (H:=demo_intl) demo_catalogs no_deadline no_log (answer demo_catalog [] (demo_listing demo_intl)).1 _ _ _)) _).
  - apply (cold_honest demo_catalogs). vm_compute. reflexivity.
  - exact (answer_runs demo_catalog [] (demo_listing demo_intl)).
Defined.

(** ** The graph of correlation links *)

Lemma after_colon k k' i i' : entity_kind_name k +:+ ":" +:+ i = entity_kind_name k' +:+ ":" +:+ i' -> k = k' /\ i = i'.
Proof. destruct k, k'; intros E; try discriminate; (split; [done|by do 2 apply str_app_inj in E]). Qed.

Lemma end_key_inj e f : end_key e = end_key f -> e = f.
Proof. destruct e, f. unfold end_key. cbn [fst snd]. by intros [-> ->]%after_colon. Qed.

(** The nodes made so far: one for each end seen, in the order of the first sight. *)
Definition nodes_of text p (ends : list (CorrelationEntityKind * string)) (nodes : list TopologyGraphNode) : Prop :=
  NoDup (map gn_id nodes) /\ forall n, n ∈ nodes <-> exists e, e ∈ ends /\ n = correlation_node text p e.

Lemma correlation_node_id text p e : gn_id (correlation_node text p e) = end_key e.
Proof. unfold correlation_node. by destruct (inferCorrelationNodeStatus p e.2). Qed.

Lemma add_end_nodes text p ends nodes e : nodes_of text p ends nodes -> nodes_of text p (ends ++ [e]) (add_end text p nodes e).
Proof.
  intros [Hn Hin]. unfold add_end. destruct (existsb _ nodes) eqn:E.
  - split; [done|]. intros n. rewrite Hin. setoid_rewrite elem_of_app. setoid_rewrite list_elem_of_singleton.
    apply existsb_elem in E as (m & Hm & Hi%String.eqb_eq). apply Hin in Hm as (f & Hf & ->).
    rewrite correlation_node_id in Hi. apply end_key_inj in Hi as ->. naive_solver.
  - split.
    + rewrite map_app. apply NoDup_app. split_and!; [done| |by apply NoDup_singleton]. cbn [map].
      intros i Hi ->%list_elem_of_singleton. apply elem_of_map in Hi as (m & Hm & Hi).
      apply not_true_iff_false in E. apply E. apply existsb_elem. exists m. split; [done|]. apply String.eqb_eq. by rewrite <-Hi, correlation_node_id.
    + intros n. setoid_rewrite elem_of_app. setoid_rewrite list_elem_of_singleton. rewrite Hin. naive_solver.
Qed.

Lemma graph_nodes text p ends : nodes_of text p ends (foldl (add_end text p) [] ends).
Proof.
  induction ends as [|e ends IH] using rev_ind; [split; [constructor|]; intros n; split; [by intros ?%elem_of_nil|by intros (e & ?%elem_of_nil & _)]|].
  rewrite foldl_app. by apply add_end_nodes.
Qed.

(** What health a node shows: of a job that is called so, or of the stage of that service. *)
Inductive evidence (p : Pipeline) (i : string) : HealthStatus -> Prop :=
  | of_job job : job ∈ pl_jobs p -> pj_id job = i \/ pj_name job = i -> evidence p i (inferJobStatus job)
  | of_stage stage : stage ∈ pl_stages p -> pg_serviceId stage = i -> (forall job, job ∈ pl_jobs p -> pj_id job <> i /\ pj_name job <> i) ->
      evidence p i (pg_status stage).

Lemma inferred_evidence p i : (inferCorrelationNodeStatus p i).1 = Unknown \/ evidence p i (inferCorrelationNodeStatus p i).1.
Proof.
  unfold inferCorrelationNodeStatus. destruct (List.find (is_job i) (pl_jobs p)) as [job|] eqn:E.
  - right. apply find_some in E as [Hin%list_elem_of_In [He%String.eqb_eq|He%String.eqb_eq]%orb_prop]; apply of_job; eauto.
  - destruct (List.find _ (pl_stages p)) as [stage|] eqn:E'; [right|by left].
    apply find_some in E' as [Hin%list_elem_of_In He%String.eqb_eq]. apply of_stage; [done|done|].
    intros job Hj%list_elem_of_In. pose proof (find_none _ _ E job Hj) as Hn. unfold is_job in Hn.
    apply orb_false_iff in Hn as [H1%String.eqb_neq H2%String.eqb_neq]. done.
Qed.

Lemma job_healthy job : inferJobStatus job = Healthy <-> exists run, pj_lastRun job = Some run /\ lr_result run ∈ [RunRunning; RunSucceeded].
Proof.
  unfold inferJobStatus. destruct (pj_lastRun job) as [run|]; cbn [fmap option_fmap option_map]; [|split; [done|by intros (? & ? & _)]].
  split.
  - intros E. exists run. split; [done|]. destruct (lr_result run); try done; by apply (bool_decide_unpack _).
  - intros (r & [= <-] & Hr). rewrite !elem_of_cons, elem_of_nil in Hr. destruct Hr as [->|[->|[]]]; done.
Qed.

Lemma clean_no_issues nodes edges :
  NoDup (map gn_id nodes) -> NoDup (map ge_id edges) ->
  (forall e, e ∈ edges -> ge_source e ∈ map gn_id nodes /\ ge_target e ∈ map gn_id nodes) -> hasGraphDataIssues (sanitizeGraph nodes edges) = false.
Proof. intros Hn He Hd. destruct (sanitize_cleans nodes edges) as (_ & _ & _ & Hc & _). by apply Hc. Qed.

Lemma node_subtitle text p e : gn_subtitle (correlation_node text p e) = e.2.
Proof. unfold correlation_node. by destruct (inferCorrelationNodeStatus p e.2). Qed.

Lemma node_status text p e : gn_status (correlation_node text p e) = Some (inferCorrelationNodeStatus p e.2).1.
Proof. unfold correlation_node. by destruct (inferCorrelationNodeStatus p e.2). Qed.

Lemma healthy_evidence p i : evidence p i Healthy ->
  (exists job run, job ∈ pl_jobs p /\ (pj_id job = i \/ pj_name job = i) /\ pj_lastRun job = Some run /\ lr_result run ∈ [RunRunning; RunSucceeded]) \/
  exists stage, stage ∈ pl_stages p /\ pg_serviceId stage = i /\ pg_status stage = Healthy.
Proof.
  intros He. remember Healthy as h eqn:Hh. destruct He as [job Hj Hi|stage Hs Hi _]; [left|right; by exists stage].
  apply job_healthy in Hh as (run & Hr & Hl). by exists job, run.
Qed.

(** The graph of the correlation links of a pipeline.  It has one node for each entity a
    link names and no other, one edge for each link, in order, between the nodes of its
    two ends, dashed unless the link was declared; when no two links share an id all of
    it is drawn.  A node is shown healthy only on evidence: a job of that id or name whose
    last run succeeded or is running, or, when no job is called so, the stage of a service
    of that id that is healthy. *)
Theorem correlation_graph_evidence text p :
  let g := buildPipelineCorrelationGraph text p in
  NoDup (map gn_id g.1) /\
  (forall n, n ∈ g.1 <-> exists link e, link ∈ pl_correlationLinks p /\ e ∈ link_ends link /\ n = correlation_node text p e) /\
  map ge_id g.2 = map li_id (pl_correlationLinks p) /\
  (forall e, e ∈ g.2 -> ge_source e ∈ map gn_id g.1 /\ ge_target e ∈ map gn_id g.1) /\
  (forall link, link ∈ pl_correlationLinks p -> ge_dashed (correlation_edge text link) = false <-> li_method link = DeclaredLabel) /\
  (NoDup (map li_id (pl_correlationLinks p)) -> hasGraphDataIssues (sanitizeGraph g.1 g.2) = false) /\
  (forall n, n ∈ g.1 -> gn_status n = Some Healthy ->
     (exists job run, job ∈ pl_jobs p /\ (pj_id job = gn_subtitle n \/ pj_name job = gn_subtitle n) /\
        pj_lastRun job = Some run /\ lr_result run ∈ [RunRunning; RunSucceeded]) \/
     exists stage, stage ∈ pl_stages p /\ pg_serviceId stage = gn_subtitle n /\ pg_status stage = Healthy).
Proof.
  cbv zeta. destruct (graph_nodes text p (flat_map link_ends (pl_correlationLinks p))) as [Hn Hin].
  assert (forall e, e ∈ (buildPipelineCorrelationGraph text p).2 ->
    ge_source e ∈ map gn_id (buildPipelineCorrelationGraph text p).1 /\ ge_target e ∈ map gn_id (buildPipelineCorrelationGraph text p).1) as He.
  { cbn [buildPipelineCorrelationGraph fst snd]. intros e (link & Hl & ->)%elem_of_map.
    split; apply elem_of_map; [exists (correlation_node text p (li_source link))|exists (correlation_node text p (li_target link))];
      rewrite correlation_node_id; (split; [|done]); apply Hin; eexists; (split; [|done]); apply elem_of_flat_map; exists link;
      (split; [done|]); unfold link_ends; rewrite !elem_of_cons; auto. }
  assert (map ge_id (map (correlation_edge text) (pl_correlationLinks p)) = map li_id (pl_correlationLinks p)) as Hid by (rewrite map_map; by apply map_ext).
  split_and!; [done| |done|done| | |].
  - intros n. cbn [buildPipelineCorrelationGraph fst]. rewrite Hin. split.
    + intros (e & (link & Hl & He')%elem_of_flat_map & ->). by exists link, e.
    + intros (link & e & Hl & He' & ->). exists e. split; [|done]. apply elem_of_flat_map. by exists link.
  - intros link _. unfold correlation_edge. cbn [ge_dashed]. by destruct (li_method link).
  - intros Hl. apply clean_no_issues; [done|cbn [buildPipelineCorrelationGraph snd]; by rewrite Hid|done].
  - intros n (e & _ & ->)%Hin. rewrite node_subtitle, node_status. intros [= Hs].
    destruct (inferred_evidence p e.2) as [Hu|He']; [by rewrite Hu in Hs|]. rewrite Hs in He'. by apply healthy_evidence.
Qed.

(** A topic is shown with the health of a job of the same name. *)
Definition orders_topic : CorrelationEntityKind * string := (KafkaTopic, "orders").
Definition orders_job : PipelineJob := mkJob "job-1" "orders" JobFlink "svc-flink" (Some (mkLastRun RunSucceeded "2026-07-19T00:00:00Z" None None)) [].
Definition orders_link : CorrelationLink :=
  mkLink "l1" orders_topic (FlinkJob, "job-1") TopicFeedsJob 95 DeclaredLabel [].
Definition orders_pipeline : Pipeline := mkPipeline "p" "orders" [] [orders_job] [orders_link] Unknown (95, Inferred) "2026-07-19T00:00:00Z".

Lemma topic_wears_job_health text :
  gn_status (correlation_node text orders_pipeline orders_topic) = Some Healthy /\
  forall stage, stage ∈ pl_stages orders_pipeline -> pg_serviceId stage <> "orders".
Proof. split; [done|]. by intros stage ?%elem_of_nil. Qed.

(** ** Pages of a table *)

Lemma pages_enough n size : 0 <= n -> 1 <= size -> n <= totalPages n size * size /\ (0 < n -> (totalPages n size - 1) * size < n).
Proof.
  intros Hn Hs. unfold totalPages. pose proof (Z.div_mod (n + size - 1) size ltac:(lia)) as Hd.
  pose proof (Z.mod_pos_bound (n + size - 1) size ltac:(lia)) as Hm. set (q := (n + size - 1) / size) in *. nia.
Qed.

Lemma next_pages n size k : foldl (pager_click n size) 1 (repeat NextPage k) = Z.min (Z.of_nat k + 1) (totalPages n size).
Proof.
  induction k as [|k IH]; [cbn; unfold totalPages; lia|]. replace (S k) with (k + 1)%nat by lia. rewrite repeat_app, foldl_app, IH. cbn [repeat foldl pager_click].
  destruct (Z.leb_spec (totalPages n size) (Z.min (Z.of_nat k + 1) (totalPages n size))); lia.
Qed.

(** The pager.  Whatever is clicked, the page is one of the pages, which is not empty when
    there are rows; every page is reached by clicking next; and the pages together are
    the rows, each once and in order. *)
Theorem pager_shows_all {A} (items : list A) size clicks :
  1 <= size ->
  let total := Z.of_nat (length items) in
  let page := foldl (pager_click total size) 1 clicks in
  1 <= page <= totalPages total size /\ (items <> [] -> (paginate items page size).1 <> []) /\
  (forall k, 1 <= k <= totalPages total size -> foldl (pager_click total size) 1 (repeat NextPage (Z.to_nat (k - 1))) = k) /\
  concat (map (fun i => (paginate items (Z.of_nat i + 1) size).1) (seq 0 (Z.to_nat (totalPages total size)))) = items.
Proof.
  intros Hs. cbv zeta. set (total := Z.of_nat (length items)).
  destruct (pages_enough total size ltac:(lia) Hs) as [Hcover Hlast].
  assert (1 <= foldl (pager_click total size) 1 clicks <= totalPages total size) as Hp.
  { induction clicks as [|c clicks IH] using rev_ind; [cbn; unfold totalPages; lia|]. rewrite foldl_app. cbn [foldl].
    set (page := foldl (pager_click total size) 1 clicks) in *. destruct c; cbn [pager_click].
    - destruct (Z.leb_spec page 1); lia.
    - destruct (Z.leb_spec (totalPages total size) page); lia. }
  split_and!; try lia.
  - intros Hne. rewrite paginate_page by lia. cbn [fst]. set (page := foldl (pager_click total size) 1 clicks) in *.
    assert (0 < total) as Hpos by (destruct items; [done|cbn in total; lia]).
    intros E%(f_equal length). rewrite length_take, length_drop in E. cbn in E. specialize (Hlast Hpos). nia.
  - intros k Hk. rewrite next_pages. lia.
  - rewrite (map_ext _ (fun p => take (Z.to_nat size) (drop (p * Z.to_nat size) items))).
    + rewrite concat_pages, take_ge; [done|]. nia.
    + intros p. rewrite paginate_page by lia. cbn [fst]. do 2 f_equal. nia.
Qed.

(** ** Graphs whose nodes have a position of their own *)

Definition apart (p q : Position) : Prop :=
  GRAPH_NODE_WIDTH + GRAPH_GAP_X <= Z.abs (px p - px q) \/ GRAPH_NODE_HEIGHT + GRAPH_GAP_Y <= Z.abs (py p - py q).

Lemma find_distinct nodes n : NoDup (gn_id <$> nodes) -> n ∈ nodes -> node_of nodes (gn_id n) = Some n.
Proof.
  unfold node_of. induction nodes as [|m nodes IH]; [by intros _ ?%elem_of_nil|]. rewrite fmap_cons. intros [Hm Hn]%NoDup_cons Hin.
  cbn [List.find]. unfold node_named. destruct (String.eqb_spec (gn_id m) (gn_id n)) as [E|E].
  - apply elem_of_cons in Hin as [->|Hin]; [done|]. exfalso. apply Hm. rewrite E. by apply list_elem_of_fmap_2.
  - apply elem_of_cons in Hin as [->|Hin]; [done|]. by apply IH.
Qed.

Lemma drawn_own nodes edges :
  NoDup (gn_id <$> nodes) ->
  exists pos, computeGraphLayout nodes edges = Some pos /\ forall n own, n ∈ nodes -> gn_position n = Some own -> drawn_at pos n = own.
Proof.
  intros Hn. destruct (layout_runs nodes edges) as (unique & index & layer & kept & pos & I & E & _ & Hids & _ & Hown & _).
  exists pos. split; [exact E|]. intros n own Hin Ho. pose proof (find_distinct _ _ Hn Hin) as F. unfold node_of in F.
  rewrite <-(ix_find _ _ _ I) in F. apply find_named in F as [Hu _]. apply list_elem_of_lookup_1 in Hu as [i Hi].
  assert (NoDup pos.*1) as ND by (rewrite Hids; apply (ix_nodup _ _ _ I)). unfold drawn_at.
  by rewrite (proj1 (map_get_elem _ _ _ ND) (list_elem_of_lookup_2 _ _ _ (Hown i n own Hi Ho))).
Qed.

Lemma stage_ids p : gn_id <$> (buildGraph p).1 = (fun s => stageNodeId (pl_id p) (pg_serviceId s)) <$> pl_stages p.
Proof. cbn [buildGraph fst]. rewrite fmap_imap. apply list_eq. intros i. rewrite list_lookup_imap, list_lookup_fmap. done. Qed.

Lemma stage_id_inj i a b : stageNodeId i a = stageNodeId i b -> a = b.
Proof. unfold stageNodeId. by intros ?%str_app_inj%str_app_inj. Qed.

(** The graph of a pipeline whose stages are of distinct services: one node for each stage,
    drawn in the order of the stages, no two overlapping; one edge from each stage to the
    next; and a click on a node selects its stage. *)
Theorem stages_drawn_in_order p :
  NoDup (pg_serviceId <$> pl_stages p) ->
  let g := buildGraph p in
  NoDup (gn_id <$> g.1) /\
  (exists pos, computeGraphLayout g.1 g.2 = Some pos /\
    forall i s, pl_stages p !! i = Some s -> exists n, n ∈ g.1 /\ gn_id n = stageNodeId (pl_id p) (pg_serviceId s) /\
      gn_status n = Some (pg_status s) /\ drawn_at pos n = mkPosition (Z.of_nat i * (GRAPH_NODE_WIDTH + GRAPH_GAP_X)) 0) /\
  (forall e, e ∈ g.2 <-> exists i s s', pl_stages p !! i = Some s /\ pl_stages p !! S i = Some s' /\ e = stage_edge (pl_id p) s s') /\
  (forall e, e ∈ g.2 -> ge_source e ∈ gn_id <$> g.1 /\ ge_target e ∈ gn_id <$> g.1) /\
  (forall s, s ∈ pl_stages p -> select_stage p (Some (stageNodeId (pl_id p) (pg_serviceId s))) = Some s).
Proof.
  intros Hn g. assert (NoDup (gn_id <$> g.1)) as Hd.
  { unfold g. rewrite stage_ids. rewrite (list_fmap_compose pg_serviceId (stageNodeId (pl_id p))).
    apply NoDup_fmap_2; [|done]. intros a b. apply stage_id_inj. }
  assert (forall e, e ∈ g.2 <-> exists i s s', pl_stages p !! i = Some s /\ pl_stages p !! S i = Some s' /\ e = stage_edge (pl_id p) s s') as He.
  { intros e. unfold g. cbn [buildGraph snd]. rewrite list_elem_of_lookup. setoid_rewrite lookup_zip_with_Some.
    setoid_rewrite lookup_tail. naive_solver. }
  split_and!; [done| |done| |].
  - destruct (drawn_own g.1 g.2 Hd) as (pos & E & Hown). exists pos. split; [done|]. intros i s Hi.
    exists (stage_node (pl_id p) i s). assert (stage_node (pl_id p) i s ∈ g.1) as Hin.
    { apply list_elem_of_lookup. exists i. unfold g. cbn [buildGraph fst]. by rewrite list_lookup_imap, Hi. }
    split_and!; [done|done|done|]. by apply Hown.
  - intros e (i & s & s' & H1 & H2 & ->)%He. unfold g. rewrite stage_ids.
    split; apply list_elem_of_fmap; [exists s|exists s']; (split; [done|]); by eapply list_elem_of_lookup_2.
  - intros s Hs. unfold select_stage. replace (String.eqb _ EmptyString) with false.
    2: { symmetry. apply String.eqb_neq. unfold stageNodeId. by destruct (pl_id p). }
    clear -Hn Hs. induction (pl_stages p) as [|a l IH]; [by apply elem_of_nil in Hs|]. rewrite fmap_cons in Hn. apply NoDup_cons in Hn as [Ha Hn].
    cbn [List.find]. destruct (String.eqb_spec (stageNodeId (pl_id p) (pg_serviceId a)) (stageNodeId (pl_id p) (pg_serviceId s))) as [E|E].
    + apply stage_id_inj in E. apply elem_of_cons in Hs as [->|Hs]; [done|]. exfalso. apply Ha. rewrite E. by apply list_elem_of_fmap_2.
    + apply elem_of_cons in Hs as [->|Hs]; [done|]. by apply IH.
Qed.

(** The graph of the infrastructure: its resources are drawn in the columns of their
    kinds, and no two of them overlap; a click on a node selects a resource of that id. *)
Theorem resources_drawn_apart resources :
  let g := infra_graph_of resources in
  NoDup (gn_id <$> g.1) /\
  (exists pos, computeGraphLayout g.1 g.2 = Some pos /\
    (forall n m, n ∈ g.1 -> m ∈ g.1 -> n <> m -> apart (drawn_at pos n) (drawn_at pos m)) /\
    forall n, n ∈ g.1 -> exists r, r ∈ resources /\ gn_id n = kr_id r /\ gn_status n = Some (kr_status r) /\
      px (drawn_at pos n) = kind_column (kr_kind r) * (GRAPH_NODE_WIDTH + GRAPH_GAP_X)) /\
  (forall n, n ∈ g.1 -> gn_id n <> EmptyString -> exists r, select_resource resources (Some (gn_id n)) = Some r /\ kr_id r = gn_id n).
Proof.
  intros g. destruct (infra_graph resources) as (Hids & Hd & Hpos & Hnode & _ & _).
  set (topology := buildInfraTopology resources) in *.
  assert (NoDup (gn_id <$> g.1)) as Hn.
  { change (NoDup (map gn_id (map infra_graph_node topology.1))). rewrite map_map. by rewrite (map_ext _ in_id). }
  destruct (drawn_own g.1 g.2 Hn) as (pos & E & Hown).
  assert (forall n, n ∈ g.1 -> exists i, i ∈ topology.1 /\ n = infra_graph_node i /\
    drawn_at pos n = mkPosition (in_column i * (GRAPH_NODE_WIDTH + GRAPH_GAP_X)) (in_row i * (GRAPH_NODE_HEIGHT + GRAPH_GAP_Y))) as Hg.
  { intros n Hin. pose proof Hin as (i & Hi & ->)%elem_of_map. exists i. split_and!; [done|done|]. by apply Hown. }
  split_and!; [done| |].
  - exists pos. split_and!; [done| |].
    + intros n m (i & Hi & -> & ->)%Hg (j & Hj & -> & ->)%Hg Hne. unfold apart. cbn [px py].
      assert (position i <> position j) as Hp.
      { intros Ep. apply Hne. f_equal. clear -Hpos Hi Hj Ep. induction (topology.1) as [|a l IH]; [by apply elem_of_nil in Hi|].
        cbn [map] in Hpos. apply NoDup_cons in Hpos as [Ha Hl]. apply elem_of_cons in Hi as [->|Hi], Hj as [->|Hj]; [done| | |by apply IH];
          exfalso; apply Ha; apply elem_of_map; eauto. }
      unfold position in Hp. unfold GRAPH_NODE_WIDTH, GRAPH_GAP_X, GRAPH_NODE_HEIGHT, GRAPH_GAP_Y.
      destruct (Z.eq_dec (in_column i) (in_column j)) as [Ec|Ec]; [right|left; lia].
      assert (in_row i <> in_row j) by (intros Er; apply Hp; by rewrite Ec, Er). lia.
    + intros n (i & Hi & -> & ->)%Hg. destruct (Hnode i Hi) as (Hr & Hid & Hc & _). exists (in_resource i).
      split_and!; [done|done|done|]. cbn [px]. by rewrite Hc.
  - intros n (i & Hi & -> & _)%Hg Hne. destruct (Hnode i Hi) as (Hr & Hid & _). cbn [infra_graph_node gn_id] in *.
    unfold select_resource. apply String.eqb_neq in Hne. rewrite Hne.
    destruct (List.find (fun r => String.eqb (kr_id r) (in_id i)) resources) as [r|] eqn:F.
    + exists r. split; [done|]. by apply find_some in F as [_ ->%String.eqb_eq].
    + exfalso. pose proof (find_none _ _ F (in_resource i) (proj1 (list_elem_of_In _ _) Hr)) as Hx. cbn in Hx.
      by rewrite <-Hid, String.eqb_refl in Hx.
Qed.

(** ** The keyboard in a graph *)

Lemma active_known (ids : list string) (o : option string) i : (o ≫= fun i => if bool_decide (i ∈ ids) then Some i else None) = Some i -> i ∈ ids.
Proof. destruct o as [j|]; [|done]. cbn. case_bool_decide; [|done]. by intros [= <-]. Qed.

(** A graph with nodes has one tab stop, which is one of them. *)
Lemma one_tab_stop nodes active selected : nodes <> [] -> exists i, tabStopId nodes active selected = Some i /\ i ∈ map gn_id nodes.
Proof.
  intros Hne. unfold tabStopId, resolveActiveNodeId. cbv zeta.
  destruct (active ≫= _) as [i|] eqn:E; [exists i; split; [done|by apply active_known in E]|].
  destruct (selected ≫= _) as [i|] eqn:E'; [exists i; split; [done|by apply active_known in E']|].
  destruct nodes as [|n nodes]; [done|]. exists (gn_id n). cbn. split; [done|left].
Qed.

Lemma navigable_finite positions nodes : (omap finite_point (navigable positions nodes)) = (fun n => (gn_id n, drawn_at positions n)) <$> nodes.
Proof.
  unfold navigable. induction nodes as [|n nodes IH]; [done|]. cbn [map fmap list_fmap]. cbn. destruct (drawn_at positions n). cbn. f_equal. exact IH.
Qed.

Lemma next_in_points points currentId k i : findNextNodeId points currentId k = Some i -> i ∈ (omap finite_point points).*1.
Proof.
  destruct (DIRECTIONS k) as [dir|] eqn:Ed.
  - intros E. pose proof (arrows_move_nearest points currentId k dir Ed) as Hm. cbv zeta in Hm. rewrite E in Hm.
    destruct Hm as (_ & p & _ & _ & Hp & _). apply list_elem_of_fmap. by exists (i, p).
  - unfold findNextNodeId. rewrite Ed. destruct (omap finite_point points) as [|q l] eqn:El; [done|]. rewrite <-El.
    intros E. assert (exists q, q ∈ js_sort reading_order (omap finite_point points) /\ q.1 = i) as (x & Hx & <-).
    { apply fmap_Some in E as (x & E & ->). exists x. split; [|done]. destruct k; try done.
      - by apply head_Some_elem_of.
      - by apply last_Some_elem_of. }
    apply elem_of_js_sort in Hx. by apply list_elem_of_fmap_2.
Qed.

(** The keyboard moves the focus to a node of the graph, an arrow to one that lies in its
    direction; with a modifier, for any other key, and outside the nodes nothing happens,
    and the page scrolls as usual. *)
Theorem arrows_stay_in_graph positions nodes key modifier focused active :
  NoDup (map gn_id nodes) ->
  let r := handleGraphKeyDown positions nodes key modifier focused active in
  (r.1 = active \/ exists m, m ∈ nodes /\ r.1 = Some (gn_id m) /\ r.2 = true) /\
  (modifier = true \/ isNavigationKey key = None \/ focused = None -> r = (active, false)) /\
  forall k dir n m, modifier = false -> isNavigationKey key = Some k -> DIRECTIONS k = Some dir -> n ∈ nodes -> focused = Some (gn_id n) ->
    m ∈ nodes -> r.1 = Some (gn_id m) -> r.1 <> active ->
    0 < (px (drawn_at positions m) - px (drawn_at positions n)) * px dir + (py (drawn_at positions m) - py (drawn_at positions n)) * py dir.
Proof.
  intros Hd r. unfold r, handleGraphKeyDown. split_and!.
  - destruct (isNavigationKey key) as [k|], focused as [i|]; try by left. destruct modifier; [by left|].
    destruct (findNextNodeId _ i k) as [j|] eqn:E; [right|by left]. apply next_in_points in E. rewrite navigable_finite in E.
    rewrite <-list_fmap_compose in E. apply list_elem_of_fmap in E as (m & -> & Hm). by exists m.
  - intros [-> | [-> | ->]]; [by destruct (isNavigationKey key), focused|done|by destruct (isNavigationKey key)].
  - intros k dir n m -> -> Hdir Hn -> Hm. destruct (findNextNodeId _ (gn_id n) k) as [j|] eqn:E; [|by intros ? []].
    cbn [fst]. intros [= ->] _. pose proof (arrows_move_nearest (navigable positions nodes) (gn_id n) k dir Hdir) as Hx.
    cbv zeta in Hx. rewrite E, navigable_finite in Hx. destruct Hx as (cur & p & s & Hc & Hp & _ & Hx & _).
    assert (forall a x, a ∈ nodes -> (gn_id a, x) ∈ (fun n => (gn_id n, drawn_at positions n)) <$> nodes -> x = drawn_at positions a) as Hone.
    { clear -Hd. intros a x Ha (b & [= Hab Hx] & Hb)%list_elem_of_fmap. subst x. f_equal.
      clear -Hd Ha Hb Hab. induction nodes as [|c l IH]; [by apply elem_of_nil in Ha|]. cbn [map] in Hd. apply NoDup_cons in Hd as [Hc Hl].
      apply elem_of_cons in Ha as [->|Ha], Hb as [->|Hb]; [done| | |by apply IH]; exfalso; apply Hc; apply elem_of_map; eauto. }
    by rewrite <-(Hone n cur Hn Hc), <-(Hone m p Hm Hp).
Qed.
