(* ===== verification/SsoRouteProofs.v ===== *)
(** * What the change-request routes guarantee

    Every statement is about all runs: whatever the store, GitHub and the clock
    answer, with every exception they may throw. *)

From S2P Require Import Prelude JsBase JsJson PolicyValidate SsoStore SsoStoreProofs SsoSchema SsoEdit SsoPrText Effects.
From S2P Require Import SsoPorts SsoReconciler SsoRoutes.
From Stdlib Require String.
Open Scope prog_scope.

(** ** Submitting *)

Section routes.
Context `{EditLib}.

(** The pull request carries exactly the change that was audited. *)
Definition audited_pr (p : Principal) (h : trace Ans) (i : CreateChangePrInput) : Prop :=
  exists j rec b c patch,
    Did (EReadBase true) (inr b) ∈ h /\ Did (ESubmit j) (inr (rec, false)) ∈ h /\
    buildChange (sb_text b) (sb_baseDomain b) (sb_groupNames b) patch = inr c /\
    si_actorSub j = p_sub p /\ si_filePath j = cc_path i /\ si_branch j = cc_branch i /\
    si_baseBlobSha j = cc_baseBlobSha i /\ si_baseBlobSha j = sb_blobSha b /\
    si_sourceCommitSha j = cc_baseCommitSha i /\ si_sourceCommitSha j = sb_commitSha b /\
    si_endpoint j = bc_endpoint c /\ si_allowedGroups j = bc_after c /\ cc_content i = bc_editedText c.

(** What a call of the submit route requires of the calls before it. *)
Definition post_call (principal : option Principal) (h : trace Ans) (e : Eff) : Prop :=
  match e with
  | ECreatePr i =>
      exists p, principal = Some p /\ REQUIRED_GROUP ∈ p_groups p /\ Did EReady true ∈ h /\
        no_write h /\ audited_pr p h i
  | EClosePr n =>
      exists i pr r, Did (ECreatePr i) (inr pr) ∈ h /\ cp_prNumber pr = n /\
        read_record h r /\ isTerminalLoss (cr_stage r) = true
  | ETransition i x s _ _ _ =>
      exists j rec, Did (ESubmit j) (inr (rec, false)) ∈ h /\ i = cr_id rec /\ x = cr_stage rec /\
        s ∈ [PrOpen; UnknownRecovering; Failed]
  | _ => True
  end.

Lemma post_calls deps denied principal r :
  always (post_call principal) (fun _ _ => True) [] (postRoute deps denied principal r).
Proof.
  unfold postRoute. walk; try exact I; cbn [post_call]; facts.
  all: try (exists (submit_input p (rb_reason r1) s s1 b0), c; split_and!; [found|done|done|]; set_solver).
  - exists p. split_and!; [done|done|found|auto 7 with history|].
    exists (submit_input p (rb_reason r1) s s1 b0), c, s1, b0, (mkPatch (rb_endpoint r1) (rb_allowedGroups r1)).
    split_and!; [found|found|done..].
  - exists (create_input p (rb_reason r1) s s1 b0 c), c0, c1. split_and!; [found|done| |done].
    left. do 6 eexists. found.
  - exists (create_input p (rb_reason r1) s s1 b0 c), c0, c1. split_and!; [found|done| |done].
    right. eexists. found.
Qed.

Lemma audited_pr_trace p t i : audited_pr p (rev t ++ []) i <-> audited_pr p t i.
Proof. unfold audited_pr. by setoid_rewrite elem_of_history. Qed.

(** A pull request is asked for only with these calls before it. *)
Lemma post_calls_audited deps denied principal r t out t1 i w t2 :
  runs (postRoute deps denied principal r) t out -> t = t1 ++ Did (ECreatePr i) w :: t2 ->
  exists p, principal = Some p /\ REQUIRED_GROUP ∈ p_groups p /\ Did EReady true ∈ t1 /\
    no_write t1 /\ audited_pr p t1 i.
Proof.
  intros Hr Et. destruct (always_calls _ _ _ _ _ _ _ _ _ (post_calls deps denied principal r) Hr Et)
    as (p & Hp & Hg & Hy & Hw & Ha).
  rewrite elem_of_history in Hy. rewrite no_write_history in Hw. rewrite audited_pr_trace in Ha. by exists p.
Qed.

(** C2: fail closed: the submit route asks GitHub for a pull request only for an
    administrator, after the audit store answered that it is ready and committed a
    new request, as its first write, and what it asks for is the audited change:
    same actor, branch, file, base commit and blob, and the content built from
    that base with the audited groups. *)
Theorem submit_writes_audited deps denied principal r t out t1 i w t2 :
  runs (postRoute deps denied principal r) t out -> t = t1 ++ Did (ECreatePr i) w :: t2 ->
  exists p, principal = Some p /\ REQUIRED_GROUP ∈ p_groups p /\ Did EReady true ∈ t1 /\
    no_write t1 /\ audited_pr p t1 i.
Proof. apply post_calls_audited. Qed.

(** The submit route closes a pull request only when it created it in the
    same request and the store then said that the change request is [failed] or
    [rejected]. *)
Theorem submit_closes_own_orphan deps denied principal r t out t1 n w t2 :
  runs (postRoute deps denied principal r) t out -> t = t1 ++ Did (EClosePr n) w :: t2 ->
  exists i pr cur, Did (ECreatePr i) (inr pr) ∈ t1 /\ cp_prNumber pr = n /\
    read_record t1 cur /\ isTerminalLoss (cr_stage cur) = true.
Proof.
  intros Hr Et. destruct (always_calls _ _ _ _ _ _ _ _ _ (post_calls deps denied principal r) Hr Et)
    as (i & pr & cur & Hi & Hn & Hc & Hl).
  rewrite elem_of_history in Hi. rewrite read_record_trace in Hc. by exists i, pr, cur.
Qed.

(** ** What the answers mean *)

(** The store opened a new request. *)
Definition opened (c : call Ans) : bool :=
  match c with
  | Did e w =>
      match e return Ans e -> bool with
      | ESubmit _ => fun w => match w with inr (_, false) => true | _ => false end
      | _ => fun _ => false
      end w
  end.

(** GitHub confirmed a new pull request. *)
Definition made (c : call Ans) : bool :=
  match c with
  | Did e w =>
      match e return Ans e -> bool with
      | ECreatePr _ => fun w => match w with inr _ => true | inl _ => false end
      | _ => fun _ => false
      end w
  end.

(** No request was opened and GitHub was not written to. *)
Definition untouched (h : trace Ans) : Prop := forall c, c ∈ h -> git_write c = false /\ opened c = false.
Definition unmade (h : trace Ans) : Prop := forall c, c ∈ h -> made c = false.

Lemma untouched_cons c h : git_write c = false -> opened c = false -> untouched h -> untouched (c :: h).
Proof. intros Hg Ho Hh x [->|Hx]%elem_of_cons; auto. Qed.

Lemma unmade_cons c h : made c = false -> unmade h -> unmade (c :: h).
Proof. intros Hm Hh x [->|Hx]%elem_of_cons; auto. Qed.

(** A call of the store that the answer waits for failed with this code. *)
Definition store_failed (h : trace Ans) (x : StoreErrorCode) : Prop :=
  (exists key, Did (EFindByKey key) (inl (StoreError x)) ∈ h) \/
  (exists i, Did (ESubmit i) (inl (StoreError x)) ∈ h) \/
  (exists e, Did (ERecord e) (inl (StoreError x)) ∈ h).

(** The new request was opened and GitHub answered this. *)
Definition tried (h : trace Ans) (rec : ChangeRecord) (w : result Exn CreatedPr) : Prop :=
  (exists j, Did (ESubmit j) (inr (rec, false)) ∈ h) /\ (exists i, Did (ECreatePr i) w ∈ h).

(** The store was asked to move the request on from the stage it was opened in. *)
Definition moved (h : trace Ans) (rec : ChangeRecord) (s : ChangeStage) (f : TransitionFields) : Prop :=
  exists t w, Did (ETransition (cr_id rec) (cr_stage rec) s f t None) w ∈ h.

Local Notation Said e w := (@Did Eff Ans e w).

(** What a refusal may say, and what it takes. *)
Inductive refused (deps : Deps) (principal : option Principal) (r : PostRequest) (h : trace Ans) : Z -> string -> Prop :=
| no_token : principal = None -> (forall c, c ∉ h) -> refused deps principal r h 401 "UNAUTHENTICATED"
| not_admin p : principal = Some p -> REQUIRED_GROUP ∉ p_groups p -> refused deps principal r h 403 "FORBIDDEN"
| not_deployed : write_enabled deps = false -> refused deps principal r h 503 "CONSUMER_NOT_DEPLOYED"
| no_audit : has_store deps = false \/ Said EReady false ∈ h \/ store_failed h UNAVAILABLE ->
    refused deps principal r h 503 "AUDIT_UNAVAILABLE"
| malformed : validatePost r = None -> refused deps principal r h 400 "VALIDATION_ERROR"
| incomplete key body : validatePost r = Some (false, key, body) -> key = None \/ rb_baseBlobSha body = None ->
    refused deps principal r h 400 "VALIDATION_ERROR"
| no_writer : has_writer deps = false -> refused deps principal r h 503 "GIT_WRITER_UNCONFIGURED"
| no_source : has_readBase deps = false \/ (exists f m, Said (EReadBase f) (inl (SsoConfigError m)) ∈ h) ->
    refused deps principal r h 503 "SERVICE_UNAVAILABLE"
| bad_patch dry key body f b rej : validatePost r = Some (dry, key, body) -> Said (EReadBase f) (inr b) ∈ h ->
    buildChange (sb_text b) (sb_baseDomain b) (sb_groupNames b) (mkPatch (rb_endpoint body) (rb_allowedGroups body))
      = inl (BuildRejected rej) -> refused deps principal r h 422 (rejection_name (rej_code rej))
| key_reused key body existing : validatePost r = Some (false, Some key, body) ->
    Said (EFindByKey key) (inr (Some existing)) ∈ h ->
    cr_payloadSha256 existing <> payloadSha256 (mkPatch (rb_endpoint body) (rb_allowedGroups body)) ->
    refused deps principal r h 422 "IDEMPOTENCY_MISMATCH"
| key_mismatch : store_failed h IDEMPOTENCY_MISMATCH -> refused deps principal r h 422 "IDEMPOTENCY_MISMATCH"
| already_open : store_failed h OPEN_REQUEST_EXISTS -> refused deps principal r h 409 "OPEN_REQUEST_EXISTS"
| key_collision : store_failed h IDEMPOTENCY_KEY_COLLISION -> refused deps principal r h 409 "IDEMPOTENCY_KEY_COLLISION"
| moved_on key body b : validatePost r = Some (false, Some key, body) -> Said (EReadBase true) (inr b) ∈ h ->
    rb_baseBlobSha body <> Some (sb_blobSha b) -> refused deps principal r h 409 "STALE_BASE".

(** Each answer, with the calls that justify it. *)
Inductive answered (deps : Deps) (principal : option Principal) (r : PostRequest) (h : trace Ans) : Response -> Prop :=
| refusal s code m : refused deps principal r h s code -> untouched h -> answered deps principal r h (failure s code m)
| previewed b c j : Said (EReadBase false) (inr b) ∈ h -> Said (ERecord j) (inr tt) ∈ h -> untouched h ->
    answered deps principal r h (mkResponse 200 (BPreview (preview b c)))
| replayed key body existing : validatePost r = Some (false, Some key, body) ->
    Said (EFindByKey key) (inr (Some existing)) ∈ h ->
    cr_payloadSha256 existing = payloadSha256 (mkPatch (rb_endpoint body) (rb_allowedGroups body)) -> untouched h ->
    answered deps principal r h (ok_record 200 existing None)
| resubmitted j rec : Said (ESubmit j) (inr (rec, true)) ∈ h -> untouched h ->
    answered deps principal r h (ok_record 200 rec None)
| conflicted rec m m' : tried h rec (inl (GitWriteError KConflict m)) -> moved h rec Failed no_fields -> unmade h ->
    answered deps principal r h (failure 409 "STALE_BASE" m')
| rejected rec m m' : tried h rec (inl (GitWriteError KRejected m)) -> moved h rec Failed no_fields -> unmade h ->
    answered deps principal r h (failure 502 "GIT_WRITE_FAILED" m')
| uncertain rec x m' : tried h rec (inl x) -> (forall m, x <> GitWriteError KConflict m /\ x <> GitWriteError KRejected m) ->
    moved h rec UnknownRecovering no_fields -> unmade h ->
    answered deps principal r h (failure 502 "GIT_WRITE_UNKNOWN" m')
| created rec pr record diff : tried h rec (inr pr) ->
    moved h rec PrOpen (mkFields (Some (cp_prNumber pr)) (Some (cp_prUrl pr)) None) ->
    read_record h record \/ record = local_record rec PrOpen (mkFields (Some (cp_prNumber pr)) (Some (cp_prUrl pr)) None) ->
    isTerminalLoss (cr_stage record) = false -> answered deps principal r h (ok_record 201 record (Some diff))
| lost rec pr record m : tried h rec (inr pr) ->
    moved h rec PrOpen (mkFields (Some (cp_prNumber pr)) (Some (cp_prUrl pr)) None) ->
    read_record h record -> isTerminalLoss (cr_stage record) = true ->
    (exists w, Said (EClosePr (cp_prNumber pr)) w ∈ h) -> (exists e w, Said (ERecord e) w ∈ h) ->
    answered deps principal r h (failure 409 "REQUEST_NOT_ACTIVE" m).

Definition post_answer (deps : Deps) (principal : option Principal) (r : PostRequest) (h : trace Ans)
    (out : DeniedMap * result Exn Response) : Prop :=
  match out.2 with inl _ => untouched h | inr a => answered deps principal r h a end.

Ltac evidence :=
  lazymatch goal with
  | H : negb _ = true |- _ => apply negb_true_iff in H; evidence
  | H : bool_decide _ = false |- _ => apply bool_decide_eq_false in H; evidence
  | H : String.eqb _ _ = true |- _ => apply String.eqb_eq in H; evidence
  | H : String.eqb _ _ = false |- _ => apply String.eqb_neq in H; evidence
  | u : unit |- _ => destruct u; evidence
  | |- untouched _ =>
      repeat (apply untouched_cons; [reflexivity|reflexivity|]); intros ? ?%not_elem_of_nil; done
  | |- unmade _ => repeat (apply unmade_cons; [reflexivity|]); intros ? ?%not_elem_of_nil; done
  | |- Did _ _ ∈ _ => found
  | |- exists _, _ => eexists; evidence
  | |- _ \/ _ => first [left; evidence | right; evidence]
  | |- _ /\ _ => split; evidence
  | |- store_failed _ _ => unfold store_failed; evidence
  | |- tried _ _ _ => split; eexists; found
  | |- moved _ _ _ _ => do 2 eexists; found
  | |- read_record _ _ => first [left; do 6 eexists; found | right; eexists; found]
  | |- refused _ _ _ _ _ _ => econstructor; evidence
  | |- answered _ _ _ _ _ => econstructor; evidence
  | |- forall c, c ∉ [] => intros ?; apply not_elem_of_nil
  | |- forall m : string, _ /\ _ => intros ?; split; discriminate
  | _ => first [eassumption | reflexivity | congruence | by apply String.eqb_neq]
  end.

Lemma post_answers deps denied principal r :
  always (fun _ _ => True) (post_answer deps principal r) [] (postRoute deps denied principal r).
Proof. unfold postRoute. walk; try exact I; facts; repeat case_match; unfold post_answer; cbn [snd]; evidence. Qed.

(** The tables speak only of which calls were made. *)
Section same_calls.
Context (deps : Deps) (principal : option Principal) (r : PostRequest) (h t : trace Ans) (E : forall c, c ∈ h <-> c ∈ t).

Lemma same_failed x : store_failed h x -> store_failed t x.
Proof using E. unfold store_failed. by setoid_rewrite E. Qed.

Lemma same_untouched : untouched h -> untouched t.
Proof using E. intros Hh c Hc. by apply Hh, E. Qed.

Lemma same_unmade : unmade h -> unmade t.
Proof using E. intros Hh c Hc. by apply Hh, E. Qed.

Lemma same_tried rec w : tried h rec w -> tried t rec w.
Proof using E. unfold tried. by setoid_rewrite E. Qed.

Lemma same_moved rec s f : moved h rec s f -> moved t rec s f.
Proof using E. unfold moved. by setoid_rewrite E. Qed.

Lemma same_read rec : read_record h rec -> read_record t rec.
Proof using E. unfold read_record. by setoid_rewrite E. Qed.

#[local] Hint Resolve same_failed same_untouched same_unmade same_tried same_moved same_read : core.

Ltac same := repeat match goal with X : Did _ _ ∈ h |- _ => apply E in X end.

Lemma same_refused s c : refused deps principal r h s c -> refused deps principal r t s c.
Proof using E.
  intros []; same;
    [ apply no_token; [done|]; intros ? ?%E; naive_solver
    | eapply not_admin | apply not_deployed | apply no_audit; rewrite <-E; intuition | apply malformed
    | eapply incomplete | apply no_writer | apply no_source; setoid_rewrite <-E | eapply bad_patch | eapply key_reused
    | apply key_mismatch | apply already_open | apply key_collision | eapply moved_on ]; eauto.
Qed.

Lemma same_answered a : answered deps principal r h a -> answered deps principal r t a.
Proof using E.
  intros []; same;
    [ apply refusal; [by apply same_refused|] | eapply previewed | eapply replayed | eapply resubmitted | eapply conflicted
    | eapply rejected | eapply uncertain | eapply created; [| |intuition|] | eapply lost; [| | | |setoid_rewrite <-E|setoid_rewrite <-E] ]; eauto.
Qed.

Lemma same_post out : post_answer deps principal r h out -> post_answer deps principal r t out.
Proof using E. unfold post_answer. destruct out.2; [apply same_untouched|apply same_answered]. Qed.
End same_calls.


(** ** Previews *)

Lemma validatePost_query r b k body :
  validatePost r = Some (b, k, body) -> postQuery (q_dryRun r) = Some b.
Proof.
  unfold validatePost. destruct (postQuery (q_dryRun r)) as [b'|]; [|done]. simpl.
  destruct (postHeaders (q_key r)); [|done]. simpl.
  destruct (ssoChangeRequestBodySchema (q_body r)); [|done]. by intros [= <- _ _].
Qed.

(** Nothing but reads and the audit rows of previews and denials. *)
Definition preview_call (c : call Ans) : bool :=
  match c with
  | Did (ESubmit _) _ | Did (ETransition _ _ _ _ _ _) _ | Did (ECreatePr _) _ | Did (EClosePr _) _ => false
  | Did (ERecord e) _ => bool_decide (ev_stage e = Previewed)
  | _ => true
  end.

Definition preview_done (h : trace Ans) (out : DeniedMap * result Exn Response) : Prop :=
  match out.2 with
  | inr a => r_status a = 200%Z ->
      exists p j, r_body a = BPreview p /\ Did (ERecord j) (inr tt) ∈ h /\ ev_stage j = Previewed /\
        ev_baseBlobSha j = Some (pv_baseBlobSha p) /\ ev_endpoint j = Some (pv_endpoint p)
  | inl _ => True
  end.

Lemma preview_calls deps denied principal r :
  q_dryRun r = Some "true" ->
  always (fun _ e => forall w, preview_call (Did e w) = true) preview_done [] (postRoute deps denied principal r).
Proof.
  intros Hq. assert (forall k body, validatePost r <> Some (false, k, body)) as Hv.
  { intros k body E%validatePost_query. by rewrite Hq in E. }
  unfold postRoute. walk; facts; try (by destruct (Hv _ _ eq_refl)); try (by edestruct Hv); try done.
  unfold preview_done. cbn [snd]. intros _. exists (preview s b0), (previewed_event p (rb_reason r1) s b0).
  destruct u. split_and!; [done|left|done..].
Qed.

(** A preview ([dryRun=true]) changes nothing: it submits no request, moves
    none and writes nothing to GitHub, and it is answered only after its own audit
    row, with the same endpoint and base blob, is stored. *)
Theorem preview_is_read_only deps denied principal r t out :
  q_dryRun r = Some "true" -> runs (postRoute deps denied principal r) t out ->
  (forall c, c ∈ t -> preview_call c = true) /\ preview_done t out.
Proof.
  intros Hq Hr. pose proof (preview_calls deps denied principal r Hq) as Hp. split.
  - intros [e w] Hc. apply list_elem_of_split in Hc as (t1 & t2 & Et).
    exact (always_calls _ _ _ _ _ _ _ _ _ Hp Hr Et w).
  - pose proof (always_post _ _ _ _ _ _ Hp Hr) as Hd. unfold preview_done in *.
    destruct out.2; [done|]. by setoid_rewrite elem_of_history in Hd.
Qed.

End routes.

(** ** The gates *)

(** Every route runs behind the administrators' gate. *)
Lemma denied_route deps denied principal method path gates handler t out :
  (forall p, principal = Some p -> REQUIRED_GROUP ∉ p_groups p) ->
  runs (route deps denied principal method path gates handler) t out ->
  match principal with
  | None => t = [] /\ out = (denied, inr (failure 401 "UNAUTHENTICATED" "Authentication required"))
  | Some p =>
      out.2 = inr (failure 403 "FORBIDDEN" ("Membership of group '" +:+ REQUIRED_GROUP +:+ "' is required")) /\
      if has_store deps then
        exists now, out.1 = (deniedThrottle now (p_sub p) denied).2 /\
          t = Did ENow now ::
              if (deniedThrottle now (p_sub p) denied).1
              then [Did (ERecordDetached (denied_event (p_sub p) (p_username p) method path)) tt] else []
      else t = [] /\ out.1 = denied
  end.
Proof.
  intros Hp. unfold route, adminGate. destruct principal as [p|]; [|by intros [-> ->]].
  rewrite bool_decide_false by auto. cbn [negb]. unfold auditDenied.
  destruct (has_store deps); cbn [negb bind perform runs].
  - destruct t as [|c t]; [done|]. intros (now & -> & H).
    revert H. cbn [bind]. destruct (deniedThrottle now (p_sub p) denied) as [record denied'] eqn:Et.
    destruct record; intros H.
    + destruct t as [|c t]; [by destruct H|]. destruct H as ([] & -> & -> & ->). split; [done|]. exists now. by rewrite Et.
    + destruct H as [-> ->]. split; [done|]. exists now. by rewrite Et.
  - intros [-> ->]. done.
Qed.

(** Deny by default: on every route of the change requests, a requester whose
    token lacks the group [admins] is answered 403 (401 without a token), and
    reaches nothing: no handler, no GitHub call, no read of the store; the only
    effect is the throttled audit row of the denial. *)
Theorem only_admins_pass `{EditLib} deps denied principal post status i valid_id cancel t out p :
  p ∈ [postRoute deps denied principal post; contractRoute deps denied principal;
       listRoute deps denied principal status; cancelRoute deps denied principal valid_id i cancel;
       getRoute deps denied principal valid_id i] ->
  (forall q, principal = Some q -> REQUIRED_GROUP ∉ p_groups q) -> runs p t out ->
  (exists a, out.2 = inr a /\ r_status a = match principal with None => 401%Z | Some _ => 403%Z end) /\
  forall c, c ∈ t -> exists now q method path,
    c = Did ENow now \/
    c = Did (ERecordDetached (denied_event (p_sub q) (p_username q) method path)) tt /\ principal = Some q.
Proof.
  intros Hin Hp Hr.
  assert (exists method path gates handler, p = route deps denied principal method path gates handler)
    as (method & path & gates & handler & ->).
  { repeat (apply elem_of_cons in Hin as [->|Hin]; [by do 4 eexists|]). by apply not_elem_of_nil in Hin. }
  apply denied_route in Hr; [|done]. destruct principal as [q|]; [|].
  - destruct Hr as [Ho Ht]. split; [eauto|]. intros c Hc. destruct (has_store deps).
    + destruct Ht as (now & _ & ->). exists now, q, method, path.
      apply elem_of_cons in Hc as [->|Hc]; [by left|]. right. destruct (deniedThrottle _ _ _).1; [|by apply not_elem_of_nil in Hc].
      apply list_elem_of_singleton in Hc as ->. done.
    + destruct Ht as [-> _]. by apply not_elem_of_nil in Hc.
  - destruct Hr as [-> ->]. split; [eauto|]. intros c Hc. by apply not_elem_of_nil in Hc.
Qed.

(** ** Cancelling *)

(** The request was read, is active, and is no longer in its grace period. *)
Definition cancellable (h : trace Ans) (record : ChangeRecord) : Prop :=
  (exists i, Did (EGet i) (inr (Some record)) ∈ h) /\ cr_stage record ∈ ACTIVE_STAGES /\
  (cr_stage record = Submitted ->
     exists now, Did ENow now ∈ h /\ (SUBMITTED_GRACE_MS <= now - cr_updatedAt record)%Z).

(** The intent of the administrator is stored. *)
Definition intent (h : trace Ans) (p : Principal) (record : ChangeRecord) : Prop :=
  exists e, Did (ERecord e) (inr tt) ∈ h /\ ev_requestId e = Some (cr_id record) /\
    ev_actorSub e = p_sub p /\ ev_stage e = Stage (cr_stage record).

Definition cancel_call (principal : option Principal) (h : trace Ans) (e : Eff) : Prop :=
  match e with
  | EClosePr n =>
      exists p record pr, principal = Some p /\ REQUIRED_GROUP ∈ p_groups p /\ cancellable h record /\
        intent h p record /\ found_pr h record (Some pr) /\ pi_number pr = n /\ pi_state pr = PrStateOpen /\
        pi_merged pr = false
  | ETransition i x s f t v =>
      exists p record, principal = Some p /\ REQUIRED_GROUP ∈ p_groups p /\ cancellable h record /\
        intent h p record /\ i = cr_id record /\ x = cr_stage record /\ s = Failed /\ f = no_fields /\
        te_actor t = Some (p_sub p, p_username p) /\ v = Some (cr_version record) /\
        exists o, found_pr h record o /\
          forall pr, o = Some pr -> pi_merged pr = false /\
            (pi_state pr = PrStateOpen -> exists closed, Did (EClosePr (pi_number pr)) (inr closed) ∈ h)
  | ECreatePr _ | ESubmit _ => False
  | _ => True
  end.

Ltac cancel_facts c :=
  try match goal with u : unit |- _ => destruct u end;
  match goal with
  | |- cancellable _ _ =>
      split_and!; [eexists; found|done|];
      first [ done | intros _; eexists; split; [found|lia] ]
  | |- intent _ _ _ => eexists; split_and!; [found|done..]
  | |- found_pr _ _ _ => unfold found_pr; match goal with E : cr_prNumber c = _ |- _ => rewrite E end; found
  | |- exists o, found_pr _ _ o /\ _ =>
      unfold found_pr; match goal with E : cr_prNumber c = _ |- _ => rewrite E end;
      eexists; split; [found|]; intros ? Epr;
      first [ discriminate Epr
            | injection Epr as <-; split; [done|]; first [done | intros _; eexists; found] ]
  | |- _ => done
  end.

Lemma cancel_calls deps denied principal valid_id i body :
  always (cancel_call principal) (fun _ _ => True) [] (cancelRoute deps denied principal valid_id i body).
Proof.
  unfold cancelRoute. walk; try exact I; cbn [cancel_call]; facts.
  all: exists p, c.
  all: try match goal with E : pi_state ?q = PrStateOpen |- exists pr : PrInfo, _ => exists q end.
  all: split_and!; cancel_facts c.
Qed.

Lemma cancel_call_trace principal t e : cancel_call principal (rev t ++ []) e -> cancel_call principal t e.
Proof.
  unfold cancel_call, cancellable, intent. destruct e; try done; setoid_rewrite elem_of_history;
    by setoid_rewrite found_pr_trace.
Qed.

(** C12: a cancel closes a pull request, or moves a request, only for an
    administrator, for a request it read as active and out of its grace period,
    and after the administrator's intent is stored; the pull request is the one
    GitHub reports for this request, open and not merged; the request moves to
    [failed] only from the stage and the row version that were read, and only when
    no open pull request is left.  It never creates anything. *)
Theorem cancel_is_safe deps denied principal valid_id i body t out t1 e w t2 :
  runs (cancelRoute deps denied principal valid_id i body) t out -> t = t1 ++ Did e w :: t2 ->
  cancel_call principal t1 e.
Proof.
  intros Hr Et. apply cancel_call_trace.
  exact (always_calls _ _ _ _ _ _ _ _ _ (cancel_calls deps denied principal valid_id i body) Hr Et).
Qed.

Definition cancel_answer (h : trace Ans) (out : DeniedMap * result Exn Response) : Prop :=
  match out.2 with
  | inl _ => True
  | inr a =>
      r_status a = 200%Z <->
      exists i x f t v d, Did (ETransition i x Failed f t v) (inr (Some d)) ∈ h /\ r_body a = BRecord (view d None)
  end.

Lemma cancel_answers deps denied principal valid_id i body :
  always (fun _ _ => True) cancel_answer [] (cancelRoute deps denied principal valid_id i body).
Proof.
  unfold cancelRoute. walk; try exact I; facts; unfold cancel_answer; cbn [snd]; try exact I.
  all: split; [first [discriminate | intros _; do 6 eexists; split; [found|reflexivity]]|].
  all: try done.
  all: intros (? & ? & ? & ? & ? & ? & _ & ?); discriminate.
Qed.

(** A cancel is answered 200 exactly when its compare-and-set moved the
    request to [failed], and the answer is the request as moved; in every other
    case, unexpected errors included, it does not claim the cancel happened. *)
Theorem cancel_answers_cas deps denied principal valid_id i body t out :
  runs (cancelRoute deps denied principal valid_id i body) t out -> cancel_answer t out.
Proof.
  intros Hr. pose proof (always_post _ _ _ _ _ _ (cancel_answers deps denied principal valid_id i body) Hr) as Ha.
  unfold cancel_answer in *. destruct out.2; [done|]. by setoid_rewrite elem_of_history in Ha.
Qed.

(** ** A concrete run *)

Definition demo_admin : Principal := mkPrincipal "u-1" (Some "ann") ["admins"].
Definition demo_deps : Deps := mkDeps true true true true.
Definition demo_key : string := "0123456789abcdef0123456789abcdef".

Definition demo_post (dryRun : string) : PostRequest :=
  mkPost (Some dryRun) (Some demo_key)
    (JObj [("endpoint", JStr "flink"); ("allowedGroups", JStrs ["admins"; "engineers"]); ("baseBlobSha", JStr demo_sha)]).

(** A submit that meets a request cancelled meanwhile: it creates the pull request
    and closes it again. *)
Definition demo_submit : prog Ans (DeniedMap * result Exn Response) :=
  @postRoute demo_lib demo_deps [] (Some demo_admin) (demo_post "false").
Definition demo_lost : trace Ans * (DeniedMap * result Exn Response) :=
  answer (demo_answers (demo_record Failed)) [] demo_submit.

Lemma submit_writes_audited_witness :
  exists i, no_write (take 4 demo_lost.1) /\ @audited_pr demo_lib demo_admin (take 4 demo_lost.1) i.
Proof.
  edestruct (@submit_writes_audited demo_lib demo_deps [] (Some demo_admin) (demo_post "false") demo_lost.1
    demo_lost.2 (take 4 demo_lost.1)) as (p & Hp & _ & _ & Hw & Ha).
  - apply answer_runs.
  - lazy. reflexivity.
  - injection Hp as <-. eexists. split; [exact Hw|exact Ha].
Defined.

Lemma submit_closes_own_orphan_witness :
  exists i pr, Did (ECreatePr i) (inr pr) ∈ take 6 demo_lost.1 /\ cp_prNumber pr = 7%Z.
Proof.
  edestruct (@submit_closes_own_orphan demo_lib demo_deps [] (Some demo_admin) (demo_post "false") demo_lost.1
    demo_lost.2 (take 6 demo_lost.1) 7) as (i & pr & cur & Hi & Hn & _).
  - apply answer_runs.
  - lazy. reflexivity.
  - exists i, pr. split; [exact Hi|exact Hn].
Defined.


Lemma preview_is_read_only_witness :
  let run := answer (demo_answers (demo_record Failed)) []
               (@postRoute demo_lib demo_deps [] (Some demo_admin) (demo_post "true")) in
  (exists a, run.2.2 = inr a /\ r_status a = 200%Z) /\ preview_done run.1 run.2.
Proof.
  intros run. split; [eexists; split; [lazy; reflexivity|reflexivity]|].
  apply (@preview_is_read_only demo_lib demo_deps [] (Some demo_admin) (demo_post "true") run.1 run.2);
    [reflexivity|apply answer_runs].
Defined.

Definition demo_cancel : prog Ans (DeniedMap * result Exn Response) :=
  cancelRoute demo_deps [] (Some demo_admin) true "r-1" None.
Definition demo_cancelled : trace Ans * (DeniedMap * result Exn Response) :=
  answer (demo_answers (demo_record PrOpen)) [] demo_cancel.

Lemma only_admins_pass_witness :
  let eve := mkPrincipal "u-9" None ["engineers"] in
  let run := answer (demo_answers (demo_record PrOpen)) [] (cancelRoute demo_deps [] (Some eve) true "r-1" None) in
  length run.1 = 2%nat /\ exists a, run.2.2 = inr a /\ r_status a = 403%Z.
Proof.
  intros eve run. split; [reflexivity|].
  apply (@only_admins_pass demo_lib demo_deps [] (Some eve) (demo_post "true") None "r-1" true None run.1 run.2
    (cancelRoute demo_deps [] (Some eve) true "r-1" None)).
  - do 3 right. left.
  - intros q [= <-]. apply (bool_decide_unpack _). exact I.
  - apply answer_runs.
Defined.

Lemma cancel_is_safe_witness :
  exists p record, Some demo_admin = Some p /\ intent (take 4 demo_cancelled.1) p record.
Proof.
  edestruct (cancel_is_safe demo_deps [] (Some demo_admin) true "r-1" None demo_cancelled.1 demo_cancelled.2
    (take 4 demo_cancelled.1) (EClosePr 7)) as (p & record & _ & Hp & _ & _ & Hi & _).
  - apply answer_runs.
  - lazy. reflexivity.
  - exists p, record. split; [exact Hp|exact Hi].
Defined.

Lemma cancel_answers_cas_witness :
  (exists a, demo_cancelled.2.2 = inr a /\ r_status a = 200%Z) /\ cancel_answer demo_cancelled.1 demo_cancelled.2.
Proof.
  split; [eexists; split; [lazy; reflexivity|reflexivity]|].
  apply (cancel_answers_cas demo_deps [] (Some demo_admin) true "r-1" None). apply answer_runs.
Defined.
