(* ===== verification/StartupProofs.v ===== *)
(** * Start-up and authentication: who may reach what *)

From S2P Require Import Prelude JsBase JsRegex JsText JsJson JsLib Effects PolicyValidate SsoStore SsoSchema SsoEdit SsoPorts.
From S2P Require Import Decision Pipeline HttpClient Config Services Kube KubeProofs Listings.
From S2P Require Import SsoReconciler SsoRoutes SsoRouteProofs Auth Startup.
From Stdlib Require Import Ascii.
From Stdlib Require String.
Open Scope Z_scope.
Open Scope prog_scope.

(** ** Groups *)

Lemma elem_of_add_group out item g :
  g ∈ add_group out item <->
  g ∈ out \/ (item = JStr g \/ item = JStr ("/" +:+ g)) /\ g <> EmptyString /\ str_has "/" g = false.
Proof.
  assert (forall name, g ∈ (if String.eqb name EmptyString || str_has "/" name then out
      else if bool_decide (name ∈ out) then out else out ++ [name]) <->
    g ∈ out \/ g = name /\ g <> EmptyString /\ str_has "/" g = false) as Hn.
  { intros name. destruct (String.eqb_spec name EmptyString) as [->|He]; cbn [orb].
    { split; [by left|]. by intros [?|(-> & ? & _)]. }
    destruct (str_has "/" name) eqn:Es.
    { split; [by left|]. intros [?|(-> & _ & E)]; [done|]. by rewrite Es in E. }
    case_bool_decide as Hin; [split; [by left|]; by intros [?|(-> & _)]|].
    rewrite elem_of_app, list_elem_of_singleton. split; [intros [?| ->]; auto|]. intros [?|(-> & _)]; auto. }
  destruct item as [| | |s| |]; cbn [add_group]; try (split; [by left|intros [?|[[?|?] _]]; done]).
  assert (exists name, add_group out (JStr s) = (if String.eqb name EmptyString || str_has "/" name then out
      else if bool_decide (name ∈ out) then out else out ++ [name]) /\
    (s = name \/ s = "/" +:+ name) /\ (s = name -> starts_with "/" name = false)) as (name & En & Hs & Hno).
  { destruct s as [|a s]; [exists EmptyString; by auto|]. destruct (Ascii.eqb_spec a "/") as [->|Ha].
    - exists s. split_and!; [done|by right|]. intros E. exfalso. apply (f_equal String.length) in E. cbn in E. lia.
    - exists (String a s). split_and!; [by destruct a as [[] [] [] [] [] [] [] []]|by left|].
      intros _. unfold starts_with. rewrite prefix_cons. apply andb_false_iff. left. apply Ascii.eqb_neq. auto. }
  cbn [add_group] in En. rewrite En, Hn. split.
  - intros [?|(<- & ? & ?)]; [by left|]. right. split; [|done]. destruct Hs as [<-| ->]; auto.
  - intros [?|([[= ->]|[= ->]] & He & Hg)]; [by left| |].
    + destruct Hs as [<-| ->]; [by right|]. by rewrite str_app_cons in Hg.
    + right. destruct Hs as [<-|Hs]; [|].
      { specialize (Hno eq_refl). rewrite str_app_cons in Hno. unfold starts_with in Hno.
        rewrite prefix_cons, Ascii.eqb_refl, prefix_nil in Hno. done. }
      rewrite !str_app_cons, !str_app_nil_l in Hs. by injection Hs as ->.
Qed.

(** The groups of a token: the names that stand alone, with or without the slash of
    a top-level path. *)
Lemma elem_of_normalizeGroups claim g :
  g ∈ normalizeGroups claim <->
  exists items, claim = Some (JArr items) /\ (JStr g ∈ items \/ JStr ("/" +:+ g) ∈ items) /\
    g <> EmptyString /\ str_has "/" g = false.
Proof.
  assert (forall items out, g ∈ foldl add_group out items <->
    g ∈ out \/ (JStr g ∈ items \/ JStr ("/" +:+ g) ∈ items) /\ g <> EmptyString /\ str_has "/" g = false) as Hf.
  { induction items as [|i items IH]; intros out; cbn [foldl]; [set_solver|].
    rewrite IH, elem_of_add_group, !elem_of_cons. naive_solver. }
  destruct claim as [[| | | |items|]|]; cbn [normalizeGroups];
    try (split; [by intros ?%not_elem_of_nil|by intros (? & ? & _)]).
  rewrite Hf. split.
  - intros [?%not_elem_of_nil|(Hi & Hg)]; [done|]. eauto.
  - intros (k & [= <-] & Hi). by right.
Qed.

Lemma NoDup_normalizeGroups claim : NoDup (normalizeGroups claim).
Proof.
  destruct claim as [[| | | |items|]|]; try constructor. cbn [normalizeGroups].
  assert (NoDup (@nil string)) as H by constructor. revert H. generalize (@nil string).
  induction items as [|i items IH]; intros out Ho; cbn [foldl]; [done|]. apply IH.
  destruct i as [| | |s| |]; cbn [add_group]; try done.
  set (name := match s with String "/" rest => rest | _ => s end). clearbody name.
  destruct (_ || _); [done|]. case_bool_decide as Hd; [done|].
  apply NoDup_app. split_and!; [done|intros x Hx ->%list_elem_of_singleton; done|apply NoDup_singleton].
Qed.

(** ** Tokens *)

(** The header carries a token the library verified under these options, not too
    long and an access token; [p] is who it names. *)
Definition token_of (jwtVerify : VerifyOptions -> string -> JoseAnswer) (c : OidcConfig) (authorization : option string)
    (p : Principal) : Prop :=
  exists header token payload,
    authorization = Some header /\ (exec BEARER header ≫= capture 1) = Some token /\
    Z.of_nat (String.length token) <= MAX_TOKEN_LENGTH /\ jwtVerify (verify_options c) token = Verified payload /\
    as_string (field payload "typ") = Some "Bearer" /\ p = toPrincipal payload.

Lemma verify_inr jwtVerify c token p :
  verify jwtVerify c token = inr p ->
  exists payload, Z.of_nat (String.length token) <= MAX_TOKEN_LENGTH /\
    jwtVerify (verify_options c) token = Verified payload /\
    as_string (field payload "typ") = Some "Bearer" /\ p = toPrincipal payload.
Proof.
  unfold verify. destruct (Z.ltb_spec MAX_TOKEN_LENGTH (Z.of_nat (String.length token))); [done|].
  destruct (jwtVerify _ token) as [payload|code|]; [|by destruct (isInvalidTokenError _)|done].
  case_bool_decide; [|done]. intros [= <-]. eauto 10.
Qed.

Lemma middleware_inr jwtVerify c path authorization po :
  createAuthMiddleware (verify jwtVerify c) path authorization = inr po ->
  po = None /\ path ∈ PUBLIC_PATHS \/ exists p, po = Some p /\ (path ∉ PUBLIC_PATHS) /\ token_of jwtVerify c authorization p.
Proof.
  unfold createAuthMiddleware. case_bool_decide as Hp; [intros [= <-]; by left|].
  destruct authorization as [header|]; [|done].
  destruct (exec BEARER header ≫= capture 1) as [token|] eqn:Et; [|done].
  destruct (verify jwtVerify c token) as [[]|p] eqn:Ev; try done. intros [= <-].
  apply verify_inr in Ev as (payload & Hv). right. exists p. split; [done|]. split; [done|].
  exists header, token, payload. naive_solver.
Qed.

Section startup.
Context `{js : JsLib} `{host : Host}.
Implicit Types (env : Env) (w : WiredApp).

(** ** What was wired *)

Lemma createAppFromEnv_inr env w :
  createAppFromEnv env = inr w ->
  loadAuditDbConfig env = inr (wi_store w) /\ loadSsoWriteEnabled env = inr (wi_writeEnabled w) /\
  createRuntime env = inr (wi_runtime w) /\ loadUpstreamWiring env = inr (wi_upstream w) /\
  createSsoAdapterFromEnv env = inr (wi_sso w) /\ loadAuthConfig env = inr (wi_auth w) /\
  wi_gitWriter w = (createGitWriter env).1 /\
  (exists d, createArgocdReader env = inr (wi_argocd w, d)) /\
  forall r, wi_reconciler w = Some r ->
    is_Some (wi_store w) /\ is_Some (wi_gitWriter w) /\ resolveBaseDomain env = inr (rw_baseDomain r) /\
    loadReconcileIntervalMs env = inr (rw_intervalMs r).
Proof.
  unfold createAppFromEnv. destruct (createGitWriter env) as [git d1]. rewrite !rbind_inr.
  intros (db & Hdb & H). apply rbind_inr in H as (we & Hwe & H). apply rbind_inr in H as (ms & Hms & H).
  apply rbind_inr in H as (kube & _ & H). apply rbind_inr in H as (rt & Hrt & H).
  apply rbind_inr in H as (up & Hup & H). apply rbind_inr in H as (sso & Hsso & H).
  apply rbind_inr in H as (auth & Hauth & H). apply rbind_inr in H as ([argocd d2] & Hargo & H).
  apply rbind_inr in H as (rec & Hrec & [= <-]). cbn. split_and!; try done; [eauto|].
  intros r ->. destruct db as [db|], git as [git|]; try done.
  apply rbind_inr in Hrec as (d & Hd & [= <-]). cbn. eauto.
Qed.

Lemma present_Some v s : present v = Some s -> v = Some s /\ s <> EmptyString.
Proof. destruct v as [t|]; [|done]. cbn. destruct (String.eqb_spec t EmptyString); [done|]. by intros [= ->]. Qed.

(** *** Authentication *)

Lemma loadAuthConfig_oidc env c :
  loadAuthConfig env = inr (AuthOidc c) ->
  trimmed env "OIDC_ISSUER" = Some (oc_issuer c) /\
  (exists u, new_URL (oc_issuer c) = Some u /\ w_protocol u = "https:" /\ has_credentials u = false) /\
  oc_jwksUri c = oc_issuer c +:+ "/protocol/openid-connect/certs" /\ oc_audience c <> EmptyString.
Proof.
  unfold loadAuthConfig. destruct (String.eqb _ "disabled"); [by destruct (isProduction env)|].
  destruct (negb _); [done|]. destruct (present (trimmed env "OIDC_ISSUER")) as [issuer|] eqn:Ei; [|done].
  apply present_Some in Ei as [Ei _]. destruct (new_URL issuer) as [u|] eqn:Eu; [|done].
  destruct (String.eqb_spec (w_protocol u) "https:") as [Ep|]; cbn [negb]; [|done].
  destruct (has_credentials u) eqn:Ec; [done|]. destruct (_ || _); [done|]. destruct (ends_with _ _); [done|].
  intros [= <-]. cbn. split_and!; [done|eauto|done|].
  destruct (present (trimmed env "OIDC_AUDIENCE")) as [a|] eqn:Ea; [|done]. by apply present_Some in Ea as [_ ?].
Qed.

Lemma loadAuthConfig_production env a :
  isProduction env = true -> loadAuthConfig env = inr a -> exists c, a = AuthOidc c.
Proof.
  intros Hp. unfold loadAuthConfig. rewrite Hp. destruct (String.eqb _ "disabled"); [done|].
  destruct (negb _); [done|]. repeat case_match; try done. intros [= <-]. eauto.
Qed.

(** *** The base domain *)

(** The domain is written out, or the issuer is [https://sso.<domain>/realms/...]. *)
Definition domain_declared env (d : string) : Prop :=
  isValidDnsName d = true /\
  (trimmed env "BASE_DOMAIN" = Some d \/
   exists issuer u, trimmed env "OIDC_ISSUER" = Some issuer /\ new_URL issuer = Some u /\
     w_protocol u = "https:" /\ w_hostname u = "sso." +:+ d).

Lemma baseDomainFromIssuer_inr issuer d :
  baseDomainFromIssuer issuer = inr d ->
  isValidDnsName d = true /\ exists u, new_URL issuer = Some u /\ w_protocol u = "https:" /\ w_hostname u = "sso." +:+ d.
Proof.
  unfold baseDomainFromIssuer. destruct (new_URL issuer) as [u|]; [|done].
  destruct (String.eqb_spec (w_protocol u) "https:") as [Ep|]; cbn [negb]; [|done].
  destruct (_ || _); [done|]. destruct (negb _); [done|].
  pose proof (join_split_char "." (w_hostname u)) as Hj.
  destruct (split_char "." (w_hostname u)) as [|first rest] eqn:Es; [done|].
  destruct (Nat.ltb_spec (length (first :: rest)) 3) as [|Hl]; [done|]. cbn [orb].
  destruct (String.eqb_spec first "sso") as [->|]; cbn [negb]; [|done].
  destruct (isValidDnsName (join "." rest)) eqn:Ev; cbn [negb]; [|done]. intros [= <-].
  split; [done|]. exists u. split_and!; [done..|]. rewrite <-Hj. destruct rest as [|r rest]; [cbn in Hl; lia|].
  reflexivity.
Qed.

Lemma resolveBaseDomain_production env d :
  isProduction env = true -> resolveBaseDomain env = inr d -> domain_declared env d.
Proof.
  intros Hp. unfold resolveBaseDomain, domain_declared. rewrite Hp.
  destruct (present (trimmed env "BASE_DOMAIN")) as [e|] eqn:Ee.
  - apply present_Some in Ee as [Ee _]. destruct (isValidDnsName e) eqn:Ev; [|done]. cbn [negb orb].
    destruct (str_has _ e); [|done]. intros [= <-]. eauto.
  - destruct (present (trimmed env "OIDC_ISSUER")) as [i|] eqn:Ei; [|done]. apply present_Some in Ei as [Ei _].
    intros (Hv & u & Hu)%baseDomainFromIssuer_inr. eauto 10.
Qed.

(** The base domain of a GitHub source is declared; a file source takes [BASE_DOMAIN] as
    it is written, and without one the domain of development. *)
Definition source_declared env (s : SsoSource) : Prop :=
  match s with
  | GithubSource d => trimmed env "SSO_SOURCE" = Some "github" /\ domain_declared env d
  | FileSource c =>
      trimmed env "SSO_SOURCE" = Some "file" /\ sc_filePath c = present (trimmed env "SSO_CONFIG_FILE") /\
      match present (trimmed env "BASE_DOMAIN") with
      | Some d => sc_baseDomain c = Some d
      | None => sc_baseDomain c = Some DEFAULT_BASE_DOMAIN
      end
  end.

Lemma source_production env s :
  isProduction env = true -> createSsoAdapterFromEnv env = inr s -> source_declared env s.
Proof.
  intros Hp. unfold createSsoAdapterFromEnv. rewrite Hp.
  destruct (present (trimmed env "SSO_SOURCE")) as [v|] eqn:Ev; [|done]. apply present_Some in Ev as [Ev _].
  destruct (String.eqb_spec v "github") as [->|].
  - intros (d & Hd%resolveBaseDomain_production & [= <-])%rbind_inr; [|done]. by split.
  - destruct (String.eqb_spec v "file") as [->|]; [|done]. intros [= <-]. split; [done|]. cbn.
    unfold loadSsoAdapterConfig. rewrite Hp.
    split; [by destruct (present (trimmed env "SSO_CONFIG_FILE"))|by destruct (present (trimmed env "BASE_DOMAIN"))].
Qed.

Lemma loadSsoWriteEnabled_inr env b :
  loadSsoWriteEnabled env = inr b -> b = bool_decide (trimmed env "SSO_WRITE_ENABLED" = Some "true").
Proof.
  unfold loadSsoWriteEnabled. destruct (present (trimmed env "SSO_WRITE_ENABLED")) as [raw|] eqn:Er.
  - apply present_Some in Er as [-> _].
    destruct (String.eqb_spec raw "false") as [->|]; [intros [= <-]; by rewrite bool_decide_false|].
    destruct (String.eqb_spec raw "true") as [->|]; [intros [= <-]; by rewrite bool_decide_true|done].
  - intros [= <-]. rewrite bool_decide_false; [done|]. intros E. by rewrite E in Er.
Qed.

Lemma runtime_domains env rt svc d :
  isProduction env = true -> createRuntime env = inr rt -> (svc, KubeLive d) ∈ rt_adapters rt -> domain_declared env d.
Proof.
  intros Hp. unfold createRuntime. intros (f & _ & (k & _ & (a & Ha%rmap_inr & [= <-])%rbind_inr)%rbind_inr)%rbind_inr.
  cbn [rt_adapters]. intros Hin. apply list_elem_of_lookup in Hin as [i Hi].
  destruct (Forall2_lookup_r _ _ _ _ _ Ha Hi) as (svc' & _ & Hk). unfold adapter_kind in Hk.
  destruct (String.eqb _ _); [by destruct f|]. destruct k; [|done].
  apply rbind_inr in Hk as (d' & Hd & [= _ <-]). by apply resolveBaseDomain_production.
Qed.

(** C14: Fail closed at start-up.  With [NODE_ENV=production] the server starts only
    with authentication against an https issuer, with a source of the SSO file that
    is named, with writes on exactly when [SSO_WRITE_ENABLED] says true, and with a
    reconciler only next to an audit store and a writer; the base domain of the GitHub
    source, of the live services and of the reconciler is declared and never defaulted,
    where the file source takes the domain of development when there is no [BASE_DOMAIN];
    and then a request passes the middleware only on a public path or with a verified
    token. *)
Theorem production_is_closed env w :
  isProduction env = true -> createAppFromEnv env = inr w ->
  exists c, wi_auth w = AuthOidc c /\ trimmed env "OIDC_ISSUER" = Some (oc_issuer c) /\
    (exists u, new_URL (oc_issuer c) = Some u /\ w_protocol u = "https:" /\ has_credentials u = false) /\
    source_declared env (wi_sso w) /\
    (forall svc d, (svc, KubeLive d) ∈ rt_adapters (wi_runtime w) -> domain_declared env d) /\
    (wi_writeEnabled w = true <-> trimmed env "SSO_WRITE_ENABLED" = Some "true") /\
    (forall r, wi_reconciler w = Some r ->
      is_Some (wi_store w) /\ is_Some (wi_gitWriter w) /\ domain_declared env (rw_baseDomain r)) /\
    forall jwtVerify path authorization po, app_auth jwtVerify w path authorization = inr po ->
      po = None /\ path ∈ PUBLIC_PATHS \/ exists p, po = Some p /\ token_of jwtVerify c authorization p.
Proof.
  intros Hp (_ & Hw & Hrt & _ & Hs & Ha & _ & _ & Hr)%createAppFromEnv_inr.
  destruct (loadAuthConfig_production _ _ Hp Ha) as [c Ec]. rewrite Ec in Ha.
  apply loadAuthConfig_oidc in Ha as (Hi & Hu & _). exists c. split_and!; try done.
  - by apply source_production.
  - intros svc d. by apply (runtime_domains env).
  - apply loadSsoWriteEnabled_inr in Hw as ->. by rewrite bool_decide_eq_true.
  - intros r (Hst & Hg & Hd & _)%Hr. split_and!; [done..|]. by apply resolveBaseDomain_production.
  - intros jv path au po. unfold app_auth. rewrite Ec.
    intros [?|(p & -> & _ & Ht)]%middleware_inr; [by left|]. right. eauto.
Qed.
(** ** A request of the change-request routes *)

(** Writes that are switched off reach neither GitHub nor the store. *)
Lemma gated_off deps denied principal method path gates handler t out c :
  write_enabled deps = false ->
  runs (route deps denied principal method path (writeEnabledGate deps :: gates) handler) t out -> c ∈ t ->
  git_write c = false.
Proof.
  intros Hw Hr (i & Hi)%list_elem_of_lookup_1. apply list_elem_of_split_length in Hi as (t1 & t2 & Ht & _).
  assert (always (fun _ e => match e with ECreatePr _ | EClosePr _ => False | _ => True end) (fun _ _ => True) []
    (route deps denied principal method path (writeEnabledGate deps :: gates) handler)) as Ha.
  { unfold route, run_gates, writeEnabledGate. rewrite Hw. walk; exact I. }
  pose proof (always_calls _ _ _ _ _ _ _ _ _ Ha Hr Ht) as Hc. destruct c as [e r]. cbn in Hc. by destruct e.
Qed.

(** The routes of the change requests for a principal. *)
Definition change_routes `{EditLib} (deps : Deps) (denied : DeniedMap) (post : PostRequest) (status : option string)
    (valid_id : bool) (i : string) (cancel : option json)
    : list (option Principal -> prog Ans (DeniedMap * result Exn Response)) :=
  [fun p => postRoute deps denied p post; fun p => contractRoute deps denied p; fun p => SsoRoutes.listRoute deps denied p status;
   fun p => cancelRoute deps denied p valid_id i cancel; fun p => getRoute deps denied p valid_id i].

Lemma change_route `{EditLib} deps denied post status valid_id i cancel r :
  r ∈ change_routes deps denied post status valid_id i cancel ->
  exists method path gates handler,
    (forall p, r p = route deps denied p method path gates handler) /\
    ((exists gates', gates = writeEnabledGate deps :: gates') \/ r = fun p => getRoute deps denied p valid_id i).
Proof.
  intros Hin. repeat (apply elem_of_cons in Hin as [->|Hin]; [do 4 eexists; split; [reflexivity|eauto]|]).
  by apply not_elem_of_nil in Hin.
Qed.

Lemma get_no_write deps denied principal valid_id i t out c :
  runs (getRoute deps denied principal valid_id i) t out -> c ∈ t -> git_write c = false.
Proof.
  intros Hr (k & Hi)%list_elem_of_lookup_1. apply list_elem_of_split_length in Hi as (t1 & t2 & Ht & _).
  assert (always (fun _ e => match e with ECreatePr _ | EClosePr _ => False | _ => True end) (fun _ _ => True) []
    (getRoute deps denied principal valid_id i)) as Ha by (unfold getRoute; walk; exact I).
  pose proof (always_calls _ _ _ _ _ _ _ _ _ Ha Hr Ht) as Hc. destruct c as [e r]. cbn in Hc. by destruct e.
Qed.

(** Nothing but what a refused request leaves behind. *)
Definition denial (c : call Ans) : bool := match c with Did ENow _ | Did (ERecordDetached _) _ => true | _ => false end.

(** The token names its bearer a member of the administrators. *)
Definition admin_payload (payload : json) : Prop :=
  exists items, field payload "groups" = Some (JArr items) /\ (JStr "admins" ∈ items \/ JStr "/admins" ∈ items).

(** C3: From the header to GitHub.  On a production server, a request of the
    change-request routes causes a call to GitHub, ArgoCD or the store, other than the
    row of a denial, only when its [Authorization] header carries a token the OIDC
    library verified for the configured issuer, audience and algorithm, an access
    token whose groups claim lists the administrators; and it writes to GitHub only
    when writes are switched on. *)
Theorem routes_need_admin_token `{EditLib} env w jwtVerify path authorization denied post status valid_id i cancel r t out c :
  isProduction env = true -> createAppFromEnv env = inr w ->
  r ∈ change_routes (deps_of w) denied post status valid_id i cancel ->
  runs (guarded jwtVerify w path authorization r) t out -> c ∈ t -> denial c = false ->
  (exists conf token header payload, wi_auth w = AuthOidc conf /\ authorization = Some header /\
    (exec BEARER header ≫= capture 1) = Some token /\
    jwtVerify (mkVerify (oc_jwksUri conf) ["RS256"] (oc_issuer conf) (oc_audience conf) 30 ["exp"; "sub"]) token
      = Verified payload /\
    as_string (field payload "typ") = Some "Bearer" /\ admin_payload payload) /\
  (git_write c = true -> trimmed env "SSO_WRITE_ENABLED" = Some "true").
Proof.
  intros Hp Hw Hin Hr Hc Hd. pose proof (createAppFromEnv_inr _ _ Hw) as (_ & Hwe & _ & _ & _ & Ha & _).
  destruct (loadAuthConfig_production _ _ Hp Ha) as [conf Ec]. apply loadSsoWriteEnabled_inr in Hwe.
  apply change_route in Hin as (method & rpath & gates & handler & Hroute & Hgates).
  unfold guarded, app_auth in Hr. rewrite Ec in Hr.
  destruct (createAuthMiddleware (verify jwtVerify conf) path authorization) as [ref|po] eqn:Em.
  { destruct Hr as [-> _]. by apply not_elem_of_nil in Hc. }
  apply runs_bind in Hr as (t1 & t2 & a & -> & Hr & [-> _]). rewrite app_nil_r in Hc. split.
  - assert ((exists p, po = Some p /\ REQUIRED_GROUP ∈ p_groups p) \/
      (forall p, po = Some p -> REQUIRED_GROUP ∉ p_groups p)) as [(p & -> & Hg)|Hno].
    { destruct po as [p|]; [|by right]. destruct (decide (REQUIRED_GROUP ∈ p_groups p)); [left; eauto|right].
      by intros ? [= <-]. }
    + apply middleware_inr in Em as [[? _]|(p' & [= <-] & _ & Ht)]; [done|].
      destruct Ht as (header & token & payload & -> & Htok & _ & Hv & Hty & ->).
      exists conf, token, header, payload. split_and!; try done.
      apply elem_of_normalizeGroups in Hg as (items & Hi & Hg & _). by exists items.
    + exfalso. rewrite Hroute in Hr. apply denied_route in Hr; [|done]. destruct po as [p|]; [|destruct Hr as [-> _]; by apply not_elem_of_nil in Hc].
      destruct Hr as [_ Hr]. destruct (has_store (deps_of w)); [|destruct Hr as [-> _]; by apply not_elem_of_nil in Hc].
      destruct Hr as (now & _ & ->). apply elem_of_cons in Hc as [->|Hc]; [done|].
      destruct (deniedThrottle _ _ _).1; [|by apply not_elem_of_nil in Hc]. by apply list_elem_of_singleton in Hc as ->.
  - intros Hg. destruct (wi_writeEnabled w) eqn:Eb; [by symmetry in Hwe; apply bool_decide_eq_true in Hwe|]. exfalso.
    destruct Hgates as [[gates' ->]| ->].
    + rewrite Hroute in Hr. by rewrite (gated_off (deps_of w) _ _ _ _ _ _ _ _ _ Eb Hr Hc) in Hg.
    + by rewrite (get_no_write _ _ _ _ _ _ _ _ Hr Hc) in Hg.
Qed.
(** ** Settings *)

Lemma intEnv_bounds env name fallback min max v :
  intEnv env name fallback min max = inr v -> min <= fallback <= max -> min <= v <= max.
Proof.
  unfold intEnv. destruct (present _) as [raw|]; [|by intros [= ->]].
  destruct (Number raw) as [| | |z]; try done. destruct (Z.ltb_spec z min), (Z.ltb_spec max z); try done.
  intros [= <-] _. lia.
Qed.

Lemma env_int_bounds env name min max v : env_int env name min max = inr (Some v) -> min <= v <= max.
Proof.
  unfold env_int. destruct (present _) as [raw|]; [|done].
  destruct (if test nine_digits raw then Number raw else NaN) as [| | |z]; try done.
  destruct (Z.leb_spec min z), (Z.leb_spec z max); try done. intros [= <-]. lia.
Qed.

(** The origin of a URL without credentials. *)
Definition bare_origin (origin : string) (protocols : list string) : Prop :=
  exists raw u, new_URL raw = Some u /\ w_origin u = origin /\ w_protocol u ∈ protocols /\
    has_credentials u = false /\ has_location u = false.

Definition flink_in_bounds env (c : FlinkAdapterConfig) : Prop :=
  bare_origin (fc_baseUrl c) ["http:"; "https:"] /\ 1 <= fc_timeoutMs c <= 30000 /\
  (if allowNoCache env then 0 else 1000) <= fc_cacheTtlMs c <= 60000 /\ 1 <= fc_snapshotBudgetMs c <= 60000 /\
  0 <= fc_maxQueue c <= 1024 /\ 1 <= fc_maxConcurrency c <= 32.

Lemma loadFlink_bounds env c : loadFlinkAdapterConfig env = inr (Some c) -> flink_in_bounds env c.
Proof.
  unfold loadFlinkAdapterConfig. destruct (present _) as [raw|]; [|done].
  intros (url & Hu & H)%rbind_inr. apply rbind_inr in H as (t & Ht & H). apply rbind_inr in H as (ttl & Httl & H).
  apply rbind_inr in H as (b & Hb & H). apply rbind_inr in H as (q & Hq & H). apply rbind_inr in H as (n & Hn & [= <-]).
  apply intEnv_bounds in Ht, Hb, Hq, Hn; [|done..]. apply intEnv_bounds in Httl; [|by destruct (allowNoCache env)].
  unfold flink_in_bounds, MIN_CACHE_TTL_MS, MAX_TIMEOUT_MS in *. cbn.
  split_and!; try (destruct (allowNoCache env); lia).
  revert Hu. unfold flink_url. destruct (new_URL raw) as [u|] eqn:Eu; [|done].
  destruct (String.eqb_spec (w_protocol u) "http:"), (String.eqb_spec (w_protocol u) "https:"); cbn [negb andb];
    try done; (destruct (has_credentials u) eqn:Ec; [done|]; destruct (has_location u) eqn:El; [done|]); intros [= <-];
    exists raw, u; split_and!; try done; set_solver.
Qed.

Lemma loadKube_origin env c : loadKubeApiConfig env = inr (Some c) -> bare_origin (ka_apiUrl c) ["https:"].
Proof.
  unfold loadKubeApiConfig. destruct (negb _); [done|].
  destruct (new_URL _) as [u|] eqn:Eu; [|done]. destruct (String.eqb_spec (w_protocol u) "https:"); cbn [negb]; [|done].
  destruct (has_credentials u) eqn:Ec; [done|]. destruct (has_location u) eqn:El; [done|]. intros [= <-].
  eexists _, u. split_and!; [exact Eu|done| |done..]. set_solver.
Qed.

(** The slots and the timeout of an upstream client, and a bearer over plain http
    only to this host or when that is allowed. *)
Definition client_in_bounds env (c : UpstreamHttpClient) : Prop :=
  1 <= hc_timeoutMs c <= 30000 /\ 1 <= hc_maxConcurrent c <= 32 /\ 0 <= hc_maxQueued c /\
  (u_protocol (o_base (hc_options c)) = "https:" \/
   u_protocol (o_base (hc_options c)) = "http:" /\
     (u_hostname (o_base (hc_options c)) ∈ LOOPBACK \/
      env_bool env "BELUGA_UPSTREAM_ALLOW_INSECURE_BEARER" = inr true)).

Definition ttl_in_bounds (ttl : option Z) : Prop := forall v, ttl = Some v -> 0 <= v <= 600000.

Definition upstream_in_bounds env (u : UpstreamWiring) : Prop :=
  (forall h, uw_queryHistory u = Some h ->
    client_in_bounds env (th_client h) /\ ttl_in_bounds (th_cacheTtlMs h) /\ ttl_in_bounds (th_negativeCacheTtlMs h)) /\
  (forall l, uw_dataAssets u = Some l ->
    client_in_bounds env (lk_client l) /\ ttl_in_bounds (lk_cacheTtlMs l) /\ ttl_in_bounds (lk_negativeCacheTtlMs l) /\
    lk_catalogs l <> [] /\ forall m, m ∈ lk_catalogs l -> lm_name m <> EmptyString /\ lm_warehouse m <> EmptyString).

Lemma default_bounds (o : option Z) d min max :
  (forall v, o = Some v -> min <= v <= max) -> min <= d <= max -> min <= default d o <= max.
Proof. destruct o; cbn; auto. Qed.

Lemma client_slots env o timeout slots_ :
  o_timeoutMs o = timeout -> o_maxConcurrent o = slots_ -> o_maxQueued o = None ->
  (forall v, timeout = Some v -> 1 <= v <= 30000) -> (forall v, slots_ = Some v -> 1 <= v <= 32) ->
  (u_protocol (o_base o) = "https:" \/
   u_protocol (o_base o) = "http:" /\ (u_hostname (o_base o) ∈ LOOPBACK \/
      env_bool env "BELUGA_UPSTREAM_ALLOW_INSECURE_BEARER" = inr true)) ->
  client_in_bounds env (mkClient o (default DEFAULT_UPSTREAM_TIMEOUT_MS timeout)
    (default DEFAULT_MAX_BODY_BYTES (o_maxBodyBytes o)) (Z.max 1 (default DEFAULT_MAX_CONCURRENT slots_))
    (Z.max 0 (default DEFAULT_MAX_QUEUED (o_maxQueued o)))).
Proof.
  intros _ _ -> Ht Hn Hp. unfold client_in_bounds. cbn.
  pose proof (default_bounds timeout DEFAULT_UPSTREAM_TIMEOUT_MS _ _ Ht).
  pose proof (default_bounds slots_ DEFAULT_MAX_CONCURRENT _ _ Hn).
  unfold DEFAULT_UPSTREAM_TIMEOUT_MS, DEFAULT_MAX_CONCURRENT, DEFAULT_MAX_QUEUED in *. split_and!; try lia. exact Hp.
Qed.

Lemma makeClient_bounds env upstream baseUrl common headers c :
  makeClient upstream baseUrl common headers = inr c ->
  (forall v, cm_timeoutMs common = Some v -> 1 <= v <= 30000) ->
  (forall v, cm_maxConcurrent common = Some v -> 1 <= v <= 32) ->
  env_bool env "BELUGA_UPSTREAM_ALLOW_INSECURE_BEARER" = inr (cm_allowInsecureBearer common) ->
  client_in_bounds env c.
Proof.
  unfold makeClient. destruct (new_URL baseUrl) as [u|]; [|done]. unfold newClient. cbn.
  destruct (String.eqb_spec (w_protocol u) "http:") as [Eh|Eh], (String.eqb_spec (w_protocol u) "https:") as [Es|Es];
    cbn; try done.
  - congruence.
  - case_bool_decide as El; cbn.
    + intros [= <-] Ht Hn _. apply client_slots; cbn; auto.
    + destruct (cm_allowInsecureBearer common) eqn:Ea; [|done]. intros [= <-] Ht Hn He. apply client_slots; cbn; auto.
  - intros [= <-] Ht Hn _. apply client_slots; cbn; auto.
Qed.

Lemma optional_bounds env name min max o :
  env_int env name min max = inr o -> forall v, o = Some v -> min <= v <= max.
Proof. intros Ho v ->. by eapply env_int_bounds. Qed.

Lemma parseWarehouses_named raw m :
  m ∈ parseWarehouses raw -> lm_name m <> EmptyString /\ lm_warehouse m <> EmptyString.
Proof.
  unfold parseWarehouses. rewrite elem_of_filterb. intros [_ [Hn Hw]%andb_true_iff].
  unfold nonempty in *. by rewrite !negb_true_iff, !String.eqb_neq in *.
Qed.

Lemma when_on_Some {A} on (load : result string (A * list string)) a d :
  when_on on load = inr (Some a, d) -> load = inr (a, d).
Proof. destruct on; [|done]. cbn. destruct load as [m|[a' d']]; [done|]. by intros [= -> ->]. Qed.

Lemma loadUpstreamWiring_bounds env u : loadUpstreamWiring env = inr u -> upstream_in_bounds env u.
Proof.
  unfold loadUpstreamWiring. rewrite rbind_inr. intros (tr & _ & H). apply rbind_inr in H as (lk & _ & H).
  destruct (negb tr && negb lk); [by injection H as <-|].
  apply rbind_inr in H as (timeout & Ht & H). apply rbind_inr in H as (slots_ & Hn & H).
  apply rbind_inr in H as (negative & Hneg & H). apply rbind_inr in H as (insecure & Hi & H).
  apply rbind_inr in H as ([history d1] & Hh & H). apply rbind_inr in H as ([assets d2] & Ha & [= <-]).
  pose proof (optional_bounds _ _ _ _ _ Ht) as Ht'. pose proof (optional_bounds _ _ _ _ _ Hn) as Hn'.
  pose proof (optional_bounds _ _ _ _ _ Hneg) as Hneg'. split; cbn.
  - intros h ->. apply when_on_Some in Hh. unfold load_trino in Hh.
    apply rbind_inr in Hh as (url & _ & Hh). apply rbind_inr in Hh as ([tok w1] & _ & Hh).
    destruct (negb _); [done|]. destruct (negb _ && negb _); [done|]. apply rbind_inr in Hh as (ttl & Httl & Hh).
    destruct (negb _); [done|]. apply rbind_inr in Hh as (client & Hc & [= <- _]). cbn.
    split_and!; [by eapply makeClient_bounds|exact (optional_bounds _ _ _ _ _ Httl)|exact Hneg'].
  - intros l ->. apply when_on_Some in Ha. unfold load_lakekeeper in Ha.
    apply rbind_inr in Ha as (url & _ & Ha). apply rbind_inr in Ha as ([tok w1] & _ & Ha).
    destruct (parseWarehouses (env "BELUGA_LAKEKEEPER_WAREHOUSES")) as [|m ms] eqn:Em; [done|].
    destruct (negb _); [done|]. apply rbind_inr in Ha as (ttl & Httl & Ha).
    apply rbind_inr in Ha as (client & Hc & [= <- _]). cbn.
    split_and!; [by eapply makeClient_bounds|exact (optional_bounds _ _ _ _ _ Httl)|exact Hneg'|done|].
    intros m'. rewrite <-Em. apply parseWarehouses_named.
Qed.

Lemma createRuntime_inr env rt :
  createRuntime env = inr rt ->
  loadFlinkAdapterConfig env = inr (rt_flink rt) /\ loadKubeApiConfig env = inr (rt_kube rt).
Proof.
  unfold createRuntime. rewrite rbind_inr. intros (f & Hf & H). apply rbind_inr in H as (k & Hk & H).
  apply rbind_inr in H as (a & _ & [= <-]). by split.
Qed.

Definition db_in_bounds (db : AuditDbConfig) : Prop :=
  1 <= ad_port db <= 65535 /\ isValidDnsName (ad_host db) = true /\ ad_database db <> EmptyString /\
  ad_passwordFile db <> EmptyString /\ ad_sslCaFile db <> EmptyString.

Lemma required_db_inr env name v : required_db env name = inr v -> v <> EmptyString.
Proof. unfold required_db. destruct (present _) as [s|] eqn:E; [|done]. intros [= <-]. by apply present_Some in E as [_ ?]. Qed.

Lemma loadAuditDb_bounds env db : loadAuditDbConfig env = inr (Some db) -> db_in_bounds db.
Proof.
  unfold loadAuditDbConfig. destruct (present _) as [h|]; [|done].
  destruct (isValidDnsName h) eqn:Ev; cbn [negb]; [|done]. rewrite rbind_inr. intros (port & Hp & H).
  apply rbind_inr in H as (d & Hd & H). apply rbind_inr in H as (f & Hf & H). apply rbind_inr in H as (c & Hc & [= <-]).
  apply intEnv_bounds in Hp; [|done]. apply required_db_inr in Hd, Hf, Hc. done.
Qed.

Lemma createGitWriter_ids env g :
  (createGitWriter env).1 = Some g ->
  test all_digits (ga_appId (gw_config g)) = true /\ test all_digits (ga_installationId (gw_config g)) = true /\
  isPrivateKey (gw_privateKey g) = true /\ readFileSync (ga_privateKeyFile (gw_config g)) = Some (gw_privateKey g).
Proof.
  unfold createGitWriter, loadGithubAppConfig.
  destruct (negb (test all_digits (default EmptyString (trimmed env "GITHUB_APP_ID")))) eqn:E1; [done|].
  destruct (negb (test all_digits (default EmptyString (trimmed env "GITHUB_APP_INSTALLATION_ID")))) eqn:E2; [done|].
  cbn [orb]. destruct (String.eqb _ EmptyString); [done|]. cbn.
  destruct (readFileSync _) as [pem|] eqn:Er; [|done]. destruct (isPrivateKey pem) eqn:Ek; [|done]. intros [= <-]. cbn.
  apply negb_false_iff in E1, E2. by rewrite E1, E2, Ek.
Qed.

(** Whatever the environment holds, a server that starts has every setting in its
    bounds: timeouts, cache times, concurrency, queue lengths, ports and the interval
    of the reconciler; the upstream addresses are origins without credentials or
    paths, those that carry the cluster token https; a bearer token goes over plain
    http only to this host or where that is allowed in writing; the App client signs
    with a key that was read and parsed. *)
Theorem settings_in_bounds env hostname w :
  start_server env = inr (hostname, w) ->
  upstream_in_bounds env (wi_upstream w) /\
  (forall c, rt_flink (wi_runtime w) = Some c -> flink_in_bounds env c) /\
  (forall c, rt_kube (wi_runtime w) = Some c \/ wi_argocd w = Some c -> bare_origin (ka_apiUrl c) ["https:"]) /\
  (forall db, wi_store w = Some db -> db_in_bounds db) /\
  (forall r, wi_reconciler w = Some r -> 5000 <= rw_intervalMs r <= 3600000) /\
  (forall g, wi_gitWriter w = Some g ->
    test all_digits (ga_appId (gw_config g)) = true /\ test all_digits (ga_installationId (gw_config g)) = true /\
    isPrivateKey (gw_privateKey g) = true) /\
  (forall h, hostname = Some h -> isIP h = true \/ isValidDnsName h = true).
Proof.
  unfold start_server. rewrite rbind_inr. intros (h & Hh & Hw). apply rbind_inr in Hw as (w' & Hw & [= -> ->]).
  apply createAppFromEnv_inr in Hw as (Hdb & _ & Hrt & Hup & _ & _ & Hg & (d & Hargo) & Hrec).
  apply createRuntime_inr in Hrt as [Hf Hk]. split_and!.
  - by apply loadUpstreamWiring_bounds.
  - intros c Ec. rewrite Ec in Hf. by apply loadFlink_bounds.
  - intros c [Ec|Ec]; [rewrite Ec in Hk; by eapply loadKube_origin|].
    unfold createArgocdReader in Hargo. rewrite Ec in Hargo. apply rbind_inr in Hargo as ([k|] & Hk' & Ha); [|done].
    destruct (_ && _); [|done]. injection Ha as -> _. by eapply loadKube_origin.
  - intros db Edb. rewrite Edb in Hdb. by eapply loadAuditDb_bounds.
  - intros r (_ & _ & _ & Hms)%Hrec. by apply intEnv_bounds in Hms.
  - intros g Eg. rewrite Eg in Hg. symmetry in Hg. apply createGitWriter_ids in Hg as (? & ? & ? & _). done.
  - intros hn ->. revert Hh. unfold loadListenHost. destruct (present _) as [raw|]; [|done].
    destruct (isIP raw) eqn:Ei, (isValidDnsName raw) eqn:Ev; cbn; try done; intros [= <-]; auto.
Qed.
End startup.

(** ** What the fixtures served next to live sources refer to *)

Section served.
Context `{JsLib} `{Host} `{Intl}.

Lemma refs_elem {A} (without : A -> A) live items a :
  a ∈ refs without live items -> live = false /\ a ∈ items \/ live = true /\ exists b, b ∈ items /\ a = without b.
Proof. destruct live; cbn; [intros (b & ? & ->)%elem_of_map; right; eauto|by left]. Qed.

(** No answer names a pipeline that is not served: with live pipelines neither a resource
    nor a decision nor an event names one, and without them those named are in the
    fixtures. *)
Theorem pipelines_stay_linked w p :
  (forall r, r ∈ app_resources w -> kr_relatedPipelineId r = Some p -> live_pipelines w = false /\ p ∈ map pl_id pipelines) /\
  (forall records r, r ∈ app_decisions w records -> dd_relatedPipelineId r = Some p -> live_pipelines w = false) /\
  (forall t b e, runs (app_events w) t (inr b) -> e ∈ eb_events b -> ev_relatedPipelineId e = Some p ->
     live_pipelines w = false /\ p ∈ map pl_id pipelines).
Proof.
  destruct fixtures_are_linked as (_ & _ & _ & Hrs & Hes).
  pose proof (proj1 (forallb_elem _ _) Hrs) as Hr. pose proof (proj1 (forallb_elem _ _) Hes) as He. split_and!.
  - intros r [[-> Hin]|[_ (b & _ & ->)]]%refs_elem Hp; [|done]. split; [done|].
    specialize (Hr r Hin). apply andb_prop in Hr as [[_ Hl]%andb_prop _]. rewrite Hp in Hl. by apply bool_decide_eq_true in Hl.
  - by intros records r [[-> Hin]|[_ (b & _ & ->)]]%refs_elem Hp.
  - intros t b e. unfold app_events. destruct (rt_kube _) as [k|].
    + intros Hrun [_ Hn]%(listEvents_live _ _ _ _ _ _ _ Hrun) Hp. by rewrite Hn in Hp.
    + intros [_ [= ->]]. cbn [eb_events]. intros [[-> Hin]|[_ (b & _ & ->)]]%refs_elem Hp; [|done]. split; [done|].
      specialize (He e Hin). apply andb_prop in He as [[_ Hl]%andb_prop _]. rewrite Hp in Hl. by apply bool_decide_eq_true in Hl.
Qed.

(** The events are not kept linked: with events of the cluster the resources still name
    events of the fixtures, which no listing of events holds. *)
Theorem live_events_unlinked w :
  is_Some (rt_kube (wi_runtime w)) ->
  (exists r i, r ∈ app_resources w /\ i ∈ kr_relatedEventIds r) /\
  (forall t b e r, runs (app_events w) t (inr b) -> e ∈ eb_events b -> r ∈ app_resources w -> ev_id e ∉ kr_relatedEventIds r).
Proof.
  intros [k Hk]. split.
  - unfold app_resources, refs. destruct (live_pipelines w); eexists; exists "evt-6"; (split; [left|left]).
  - unfold app_events. rewrite Hk. intros t b e r Hrun [[x Hx] _]%(listEvents_live _ _ _ _ _ _ _ Hrun) Hr Hi.
    assert (forallb (starts_with "evt-") (kr_relatedEventIds r) = true) as Hall.
    { assert (forallb (fun r => forallb (starts_with "evt-") (kr_relatedEventIds r)) resources = true) as Hf by (vm_compute; done).
      rewrite forallb_elem in Hf. apply refs_elem in Hr as [[_ Hr]|[_ (b' & Hr & ->)]]; [by apply Hf|exact (Hf b' Hr)]. }
    rewrite forallb_elem in Hall. specialize (Hall _ Hi). by destruct Hx as [Hx|Hx]; rewrite Hx in Hall.
Qed.

(** What the API says of itself is how it was started: the fixtures count as complete
    only when neither events nor pipelines nor the health of a service is read live. *)
Theorem health_tells env w version status :
  createAppFromEnv env = inr w ->
  let health key := map_get key (dh_components (app_health version status w)) in
  (health "fixtures" = Some "stub" <-> rt_kube (wi_runtime w) = None /\ live_pipelines w = false) /\
  (health "fixtures" = Some "stub" -> Forall (fun a => a.2 = StubData) (rt_adapters (wi_runtime w))) /\
  (health "flink" = Some "live" <-> is_Some (rt_flink (wi_runtime w))) /\
  (health "gitWriter" = Some "configured" <-> is_Some (wi_gitWriter w)) /\
  (health "auditStore" = Some "not-configured" \/ health "auditStore" = Some status) /\
  (wi_writeEnabled w = true -> health "gitWriter" = Some "unconfigured" -> wi_reconciler w = None).
Proof.
  intros (_ & _ & Hrt & _ & _ & _ & _ & _ & Hrec)%createAppFromEnv_inr health. unfold createRuntime in Hrt.
  apply rbind_inr in Hrt as (f & Hf & Hrt). apply rbind_inr in Hrt as (k & Hk & Hrt).
  apply rbind_inr in Hrt as (a & Ha%rmap_inr & [= Hw]). unfold health, app_health, wired_health, live_pipelines. rewrite <-Hw in *.
  cbn [rt_flink rt_kube rt_fixtures rt_adapters]. unfold healthRoute. cbn. split_and!.
  - destruct f, k; cbn; naive_solver.
  - destruct f, k; cbn; try done. intros _. clear -Ha.
    induction Ha as [|svc b l l' Hb _ IH]; constructor; [|done]. unfold adapter_kind in Hb.
    destruct (String.eqb _ _); injection Hb as <-; done.
  - destruct f; cbn; [|split; [done|by intros []]]. split; [by eexists|done].
  - destruct (wi_gitWriter w); cbn; [|split; [done|by intros []]]. split; [by eexists|done].
  - destruct (wi_store w); cbn; auto.
  - intros _. destruct (wi_reconciler w) as [r|]; [|done]. destruct (Hrec r eq_refl) as (_ & [g Hg] & _). by rewrite Hg.
Qed.
End served.

(** ** The end of the process *)

(** What the timer does of itself. *)
Definition by_itself (e : server_event) : Prop :=
  match e with OnSignal _ => True | OnTimer e => e = TFire \/ e = TSettle \/ e = TLimit end.

(** A signal came twice. *)
Definition twice (x : Signal) (es : list server_event) : Prop := exists l m r, es = l ++ OnSignal x :: m ++ OnSignal x :: r.

(** The handlers that are left, the drain, and how the process ended. *)
Definition server_sound (w : WiredApp) (es : list server_event) (s : Server) : Prop :=
  (forall x, x ∉ sr_handlers s -> wi_reconciler w = None \/ OnSignal x ∈ es) /\
  (tm_drain (sr_timer s) <> NotDraining -> tm_armed (sr_timer s) = false) /\
  (tm_drain (sr_timer s) = Drained false -> tm_running (sr_timer s) = false) /\
  match sr_ended s with
  | None => forall cut, tm_drain (sr_timer s) <> Drained cut
  | Some (Exit c) => c = 0 /\ exists cut, tm_drain (sr_timer s) = Drained cut
  | Some (Killed x) => wi_reconciler w = None \/ twice x es
  end.

Lemma twice_snoc x es e : twice x es -> twice x (es ++ [e]).
Proof.
  intros (l & m & r & ->). exists l, m, (r ++ [e]). by rewrite <-!app_assoc, !app_comm_cons, <-!app_assoc.
Qed.

Lemma exit_when_drained_sound w es t handlers :
  (forall x, x ∉ handlers -> wi_reconciler w = None \/ OnSignal x ∈ es) ->
  (tm_drain t <> NotDraining -> tm_armed t = false) -> (tm_drain t = Drained false -> tm_running t = false) ->
  server_sound w es (exit_when_drained (mkServer t handlers None)).
Proof.
  intros Hh Ha Hd. unfold exit_when_drained. cbn [sr_ended sr_timer sr_handlers].
  destruct (tm_drain t) as [| |cut] eqn:E; split_and!; cbn [sr_ended sr_timer sr_handlers]; rewrite ?E; try done; eauto.
Qed.

Lemma server_step_sound w es s e : by_itself e -> server_sound w es s -> server_sound w (es ++ [e]) (server_step s e).
Proof.
  intros He (Hh & Ha & Hd & Hs). assert (forall x, x ∉ sr_handlers s -> wi_reconciler w = None \/ OnSignal x ∈ es ++ [e]) as Hh'.
  { intros x [?|?]%Hh; [by left|right]. apply elem_of_app. by left. }
  unfold server_step. destruct (sr_ended s) as [[c|x]|] eqn:Es.
  - split_and!; [done..|]. by rewrite Es.
  - split_and!; [done..|]. rewrite Es. destruct Hs as [?|?]; [by left|right; by apply twice_snoc].
  - destruct e as [x|e].
    + case_bool_decide as Hx.
      * apply exit_when_drained_sound.
        -- intros y Hy. destruct (decide (y = x)) as [->|Hne]; [right; apply elem_of_app; right; left|].
           apply Hh'. intros Hin. apply Hy, elem_of_filterb. split; [done|]. by rewrite bool_decide_eq_false_2.
        -- done.
        -- cbn. by destruct (tm_running _).
      * split_and!; [done..|]. cbn [sr_ended]. destruct (Hh x Hx) as [?|Hin]; [by left|right].
        apply list_elem_of_split in Hin as (l & m & ->). exists l, m, []. by rewrite <-app_assoc.
    + apply exit_when_drained_sound; [done|..]; (destruct He as [-> |[-> | ->]]; cbn [timer_step]).
      * destruct (tm_armed _) eqn:Er; [|done]. unfold tick_timer. destruct (tm_running _); cbn; rewrite ?Er; auto.
      * cbn. destruct (tm_drain _) eqn:E; intros ?; try done; by apply Ha.
      * cbn. destruct (tm_drain _) eqn:E; intros ?; try done; by apply Ha.
      * destruct (tm_armed _) eqn:Er; [|exact Hd]. unfold tick_timer.
        destruct (tm_running _); cbn; by intros ?%Hs.
      * done.
      * cbn. by destruct (tm_drain _) eqn:E.
Qed.

(** A signal does not cut a tick short.  Whatever signals come and whenever the ticks
    settle, a server with a reconciler ends by [exit(0)] only, after the drain, with no
    tick in flight unless the limit of ten seconds passed; it is killed only by a signal
    that came twice. *)
Theorem shutdown_is_orderly w es :
  Forall by_itself es ->
  let s := foldl server_step (server_of w) es in
  match sr_ended s with
  | None => True
  | Some (Exit c) =>
      c = 0 /\ tm_armed (sr_timer s) = false /\
      exists cut, tm_drain (sr_timer s) = Drained cut /\ (cut = false -> tm_running (sr_timer s) = false)
  | Some (Killed x) => wi_reconciler w = None \/ twice x es
  end.
Proof.
  intros Hes. cbv zeta. assert (server_sound w es (foldl server_step (server_of w) es)) as (_ & Ha & Hd & Hs).
  { induction es as [|e es IH] using rev_ind.
    - unfold server_of. destruct (wi_reconciler w) eqn:E; cbn; split_and!; try done; cbn; [|by left].
      intros [] Hx; exfalso; apply Hx; [left|right; left].
    - apply Forall_app in Hes as [H1 H2]. rewrite foldl_app. apply server_step_sound; [by inversion H2|by apply IH]. }
  destruct (sr_ended _) as [[c|x]|]; [|done|done]. destruct Hs as [-> [cut Hc]]. split_and!; [done| |].
  - apply Ha. by rewrite Hc.
  - exists cut. split; [done|]. intros ->. by apply Hd.
Qed.

(** ** A concrete deployment *)

Definition demo_web_url (s : string) : option WebUrl :=
  if String.eqb s "https://sso.example.org/realms/beluga"
  then Some (mkWebUrl "https:" EmptyString EmptyString "sso.example.org" EmptyString "/realms/beluga" EmptyString EmptyString
               "https://sso.example.org")
  else None.

Definition demo_host : Host := {|
  new_URL := demo_web_url;
  new_URL_at _ _ := None;
  isIP _ := false;
  existsSync _ := true;
  accessSync _ := true;
  readFileSync _ := Some "key";
  statSync _ := None;
  bundled_sso_yaml := "/repo/gitops/values/sso.yaml";
  path_beside _ p := p;
  isPrivateKey k := String.eqb k "key";
|}.

Definition demo_numbers : JsLib := {|
  JSON_parse _ := None;
  Number _ := Fin 7000;
  Date_parse _ := None;
|}.

Definition demo_env : Env := fun name => map_get name [
  ("NODE_ENV", "production"); ("OIDC_ISSUER", " https://sso.example.org/realms/beluga "); ("SSO_SOURCE", "github");
  ("SSO_WRITE_ENABLED", "true"); ("MANAGER_DB_HOST", "db"); ("MANAGER_DB_NAME", "manager");
  ("MANAGER_DB_PASSWORD_FILE", "/run/pw"); ("MANAGER_DB_SSL_CA_FILE", "/run/ca"); ("GITHUB_APP_ID", "12");
  ("GITHUB_APP_INSTALLATION_ID", "34"); ("GITHUB_APP_PRIVATE_KEY_FILE", "/run/key");
  ("SSO_RECONCILE_INTERVAL_MS", "7000"); ("LISTEN_HOST", "localhost")].

Definition demo_wired : WiredApp :=
  Eval vm_compute in
  match @start_server demo_numbers demo_host demo_env with
  | inr (_, w) => w
  | inl m => mkWired (mkRuntime [] None None FixturesStub) (mkUpstream None None []) (GithubSource m) AuthDisabled None None None
               false None []
  end.

Definition demo_payload : json :=
  JObj [("sub", JStr "u-1"); ("typ", JStr "Bearer"); ("groups", JStrs ["/admins"; "/team/admins"; "engineers"])].

Definition demo_jose (o : VerifyOptions) (token : string) : JoseAnswer :=
  if String.eqb token "aaa.bbb.ccc" then Verified demo_payload else JoseError "ERR_JWS_INVALID".

Definition demo_settings_start : @start_server demo_numbers demo_host demo_env = inr (Some "localhost", demo_wired).
Proof. vm_compute. reflexivity. Defined.

Definition demo_start : @createAppFromEnv demo_numbers demo_host demo_env = inr demo_wired.
Proof. vm_compute. reflexivity. Defined.

Lemma production_is_closed_witness :
  exists c p, wi_auth demo_wired = AuthOidc c /\
    app_auth demo_jose demo_wired CHANGE_PATH (Some "bearer aaa.bbb.ccc") = inr (Some p) /\
    token_of demo_jose c (Some "bearer aaa.bbb.ccc") p.
Proof.
  destruct (@production_is_closed demo_numbers demo_host demo_env demo_wired eq_refl demo_start)
    as (c & Hc & _ & _ & _ & _ & _ & _ & Ht).
  destruct (Ht demo_jose CHANGE_PATH (Some "bearer aaa.bbb.ccc") (Some (toPrincipal demo_payload)))
    as [[? _]|(p & [= <-] & Hp)]; [vm_compute; reflexivity|done|].
  exists c, (toPrincipal demo_payload). split_and!; [exact Hc|vm_compute; reflexivity|exact Hp].
Defined.

(** A production server with the file source and no base domain serves the hosts of
    development. *)
Definition demo_file_env : Env := fun name => map_get name [
  ("NODE_ENV", "production"); ("OIDC_ISSUER", "https://sso.example.org/realms/beluga"); ("SSO_SOURCE", "file");
  ("SSO_CONFIG_FILE", "/config/sso.yaml")].

Lemma file_source_defaults :
  exists w c, @createAppFromEnv demo_numbers demo_host demo_file_env = inr w /\ isProduction demo_file_env = true /\
    wi_sso w = FileSource c /\ sc_baseDomain c = Some DEFAULT_BASE_DOMAIN.
Proof. eexists _, _. split; [vm_compute; reflexivity|]. split_and!; reflexivity. Qed.

Definition demo_guarded : trace Ans * (Refusal + DeniedMap * result Exn Response) :=
  answer (demo_answers (demo_record PrOpen)) []
    (guarded demo_jose demo_wired CHANGE_PATH (Some "Bearer aaa.bbb.ccc")
       (fun p => @postRoute demo_lib (deps_of demo_wired) [] p (demo_post "false"))).

Lemma routes_need_admin_token_witness :
  exists i out, demo_guarded.1 !! 4%nat = Some (Did (ECreatePr i) out) /\ admin_payload demo_payload.
Proof.
  destruct (demo_guarded.1 !! 4%nat) as [c|] eqn:Ec; [|vm_compute in Ec; discriminate Ec].
  edestruct (@routes_need_admin_token demo_numbers demo_host demo_lib demo_env demo_wired demo_jose CHANGE_PATH
    (Some "Bearer aaa.bbb.ccc") [] (demo_post "false") None true EmptyString None
    (fun p => @postRoute demo_lib (deps_of demo_wired) [] p (demo_post "false")) demo_guarded.1 demo_guarded.2 c)
    as [(conf & token & header & payload & _ & [= <-] & Ht & Hv & _ & Ha) _].
  - reflexivity.
  - exact demo_start.
  - left.
  - apply answer_runs.
  - by eapply list_elem_of_lookup_2.
  - vm_compute in Ec. injection Ec as <-. reflexivity.
  - vm_compute in Ht. injection Ht as <-. vm_compute in Hv. injection Hv as <-.
    vm_compute in Ec. injection Ec as <-. do 2 eexists. split; [reflexivity|exact Ha].
Defined.

Lemma settings_in_bounds_witness :
  exists r, wi_reconciler demo_wired = Some r /\ 5000 <= rw_intervalMs r <= 3600000.
Proof.
  destruct (@settings_in_bounds demo_numbers demo_host demo_env (Some "localhost") demo_wired demo_settings_start)
    as (_ & _ & _ & _ & Hr & _).
  eexists. split; [reflexivity|]. exact (Hr _ eq_refl).
Defined.

(** A tick is in flight when the signal comes; the process exits once it settled. *)
Lemma shutdown_is_orderly_witness :
  sr_ended (foldl server_step (server_of demo_wired) [OnTimer TFire; OnSignal SIGTERM]) = None /\
  exists cut, tm_drain (sr_timer (foldl server_step (server_of demo_wired) [OnTimer TFire; OnSignal SIGTERM; OnTimer TSettle])) = Drained cut.
Proof.
  split; [reflexivity|].
  assert (Forall by_itself [OnTimer TFire; OnSignal SIGTERM; OnTimer TSettle]) as He by (repeat constructor; cbn; auto).
  destruct (shutdown_is_orderly demo_wired _ He) as (_ & _ & cut & Hc & _). by exists cut.
Defined.

(** A deployment with the cluster: Kubernetes is read, Flink is not. *)
Definition demo_live : WiredApp :=
  mkWired (mkRuntime [] None (Some (mkKubeApi "https://10.0.0.1" "/token" "/ca")) FixturesPartial) (mkUpstream None None [])
    (GithubSource EmptyString) AuthDisabled None None None false None [].

Lemma live_events_unlinked_witness : exists r i, r ∈ app_resources demo_live /\ i ∈ kr_relatedEventIds r.
Proof.
  refine (proj1 (@live_events_unlinked demo_numbers demo_host {| toISOString _ := EmptyString; localeCompare _ _ := 0 |} demo_live _)).
  by eexists.
Defined.

Lemma health_tells_witness :
  map_get "fixtures" (dh_components (app_health "0.1.0" "ok" demo_wired)) = Some "stub" /\ rt_kube (wi_runtime demo_wired) = None.
Proof.
  destruct (@health_tells demo_numbers demo_host demo_env demo_wired "0.1.0" "ok" demo_start) as ([Hf _] & _).
  split; [reflexivity|]. by apply Hf.
Defined.
