(* ===== verification/SsoReconcilerProofs.v ===== *)
(** * What the reconciler guarantees

    Every stage it writes is justified by what GitHub or ArgoCD answered, every
    pull request it creates is the audited change of a request it holds, every
    pull request it closes belongs to a request that ended, and a tick reaches
    every open request whatever happens to the others. *)

From S2P Require Import Prelude JsBase JsJson PolicyValidate SsoStore SsoStoreProofs SsoSchema SsoEdit SsoPrText Effects.
From S2P Require Import SsoPorts SsoReconciler.
From Stdlib Require String.
Open Scope prog_scope.

Section reconciler.
Context `{EditLib} (baseDomain : string) (argocd : bool).

(** ** Justified stages *)

(** The row the reconciler holds of request [r]: the one it listed, or the one its
    own compare-and-set to [submitted] answered with. *)
Definition holds (h : trace Ans) (r c : ChangeRecord) : Prop :=
  c = r \/
  exists f t, Did (ETransition (cr_id r) (cr_stage r) Submitted f t None) (inr (Some c)) ∈ h.

(** GitHub knows no pull request of the request that is as young as the request. *)
Definition no_pr (h : trace Ans) (r : ChangeRecord) : Prop :=
  Did (EFindPr (cr_branch r) (Some (notBefore r))) (inr None) ∈ h.

(** A request in recovery: [unknown_recovering], or [submitted] past its grace. *)
Definition recovering (h : trace Ans) (r : ChangeRecord) : Prop :=
  cr_stage r = UnknownRecovering \/
  cr_stage r = Submitted /\
    exists now, Did ENow now ∈ h /\ (SUBMITTED_GRACE_MS <= now - cr_updatedAt r)%Z.

(** The base file at the recorded commit is the one that was reviewed, and the
    pull request asked for is the audited change of the request, rebuilt from it. *)
Definition rebuilt (h : trace Ans) (r : ChangeRecord) (i : CreateChangePrInput) : Prop :=
  exists text groups change names,
    Did (EReadFile SSO_FILE_PATH (cr_sourceCommitSha r)) (inr (cr_baseBlobSha r, text)) ∈ h /\
    gitBlobSha text = cr_baseBlobSha r /\
    Did (EReadFile GROUPS_FILE_PATH (cr_sourceCommitSha r)) (inr groups) ∈ h /\
    buildChange text baseDomain names (mkPatch (cr_endpoint r) (map JStr (cr_patch r))) = inr change /\
    i = recovered_input r change.

Definition synced (h : trace Ans) (sha name : string) : Prop :=
  exists app revision relation,
    Did (EGetApp name) (inr app) ∈ h /\ app_syncStatus app = "Synced" /\ app_revision app = Some revision /\
    Did (ECompare sha revision) (inr relation) ∈ h /\ relation ∈ [Identical; Ahead].

(** Why request [r] may move to stage [s] with the fields [f]. *)
Definition justified (h : trace Ans) (r : ChangeRecord) (s : ChangeStage) (f : TransitionFields) : Prop :=
  match s with
  | PrOpen =>
      recovering h r /\
      ((exists p, Did (EFindPr (cr_branch r) (Some (notBefore r))) (inr (Some p)) ∈ h /\
          f = mkFields (Some (pi_number p)) (Some (pi_url p)) None) \/
       (exists i pr, Did (ECreatePr i) (inr pr) ∈ h /\ rebuilt h r i /\
          f = mkFields (Some (cp_prNumber pr)) (Some (cp_prUrl pr)) None))
  | Submitted =>
      recovering h r /\ no_pr h r /\ f = no_fields /\
      (exists sha, Did (EFindBranch (cr_branch r)) (inr (Some sha)) ∈ h) /\ exists i, rebuilt h r i
  | Failed =>
      recovering h r /\ no_pr h r /\ f = no_fields /\
      (Did (EFindBranch (cr_branch r)) (inr None) ∈ h \/
       exists i k m, Did (ECreatePr i) (inl (GitWriteError k m)) ∈ h /\ k <> KUnknown)
  | Merged =>
      cr_stage r = PrOpen /\ exists p sha, found_pr h r (Some p) /\ pi_state p = PrStateClosed /\
        pi_merged p = true /\ pi_mergeCommitSha p = Some sha /\ f = mkFields None None (Some sha)
  | Rejected =>
      cr_stage r = PrOpen /\ f = no_fields /\
      exists p, found_pr h r (Some p) /\ pi_state p = PrStateClosed /\ pi_merged p = false
  | Applied =>
      cr_stage r = Merged /\ f = no_fields /\
      exists sha, cr_mergeCommitSha r = Some sha /\ forall name, name ∈ ARGOCD_APPS -> synced h sha name
  | UnknownRecovering => False
  end.

(** The row that is moved: after a rewrite of the pull request, the resubmitted one. *)
Definition moves (h : trace Ans) (r : ChangeRecord) (s : ChangeStage) (c : ChangeRecord) : Prop :=
  match s with PrOpen | Failed => holds h r c | _ => c = r end.

(** What a call made for request [r] requires of the calls before it. *)
Definition reconcile_call (r : ChangeRecord) (h : trace Ans) (e : Eff) : Prop :=
  match e with
  | ETransition i x s f t v =>
      (exists c, moves h r s c /\ i = cr_id c /\ x = cr_stage c) /\ v = None /\ justified h r s f
  | ECreatePr i =>
      recovering h r /\ no_pr h r /\ rebuilt h r i /\
      exists f t c, Did (ETransition (cr_id r) (cr_stage r) Submitted f t None) (inr (Some c)) ∈ h
  | EClosePr n =>
      (exists c i, Did (EGet i) (inr (Some c)) ∈ h /\ isTerminalLoss (cr_stage c) = true) /\
      (exists c f t, holds h r c /\ Did (ETransition (cr_id c) (cr_stage c) PrOpen f t None) (inr None) ∈ h) /\
      ((exists p, Did (EFindPr (cr_branch r) (Some (notBefore r))) (inr (Some p)) ∈ h /\ pi_number p = n /\
          pi_state p = PrStateOpen) \/
       (exists i pr, Did (ECreatePr i) (inr pr) ∈ h /\ cp_prNumber pr = n))
  | ESubmit _ => False
  | _ => True
  end.

Ltac holding := first [by left | right; do 2 eexists; found].
Ltac in_recovery := first [by left | right; split; [done|]; eexists; split; [found|lia]].
Ltac is_rebuilt := do 4 eexists; split_and!; [found|done|found|eassumption|reflexivity].
Ltac held_row :=
  match goal with
  | |- exists c, _ /\ cr_id ?a = cr_id c /\ _ =>
      exists a; cbn [moves]; split_and!; [first [done|holding]|done|done]
  | |- exists c f t, holds _ _ c /\ _ => do 3 eexists; split; [|found]; holding
  end.
Ltac pr_of_request :=
  unfold found_pr; match goal with E : cr_prNumber _ = _ |- _ => rewrite E end; found.

Ltac solve_call :=
  match goal with
  | |- justified _ _ _ _ => cbn [justified]; solve_call
  | |- recovering _ _ => in_recovery
  | |- rebuilt _ _ _ => is_rebuilt
  | |- no_pr _ _ => unfold no_pr; found
  | |- exists c, _ /\ cr_id _ = cr_id c /\ _ => held_row
  | |- exists c f t, holds _ _ c /\ _ => held_row
  | |- exists i, rebuilt _ _ i => eexists; is_rebuilt
  | |- (exists p : PrInfo, _) \/ _ =>
      first [ left; eexists; split_and!; [found|done..]
            | right; do 2 eexists; split_and!; [found|first [is_rebuilt|done]..] ]
  | |- exists (c : ChangeRecord) i, _ => do 2 eexists; split; [found|done]
  | |- exists sha : string, Did (EFindBranch _) _ ∈ _ => eexists; found
  | |- exists f t c, _ => do 3 eexists; found
  | |- _ \/ exists i k m, _ =>
      first [left; found | right; do 3 eexists; split; [found|done]]
  | |- exists (p : PrInfo) (sha : string), _ => do 2 eexists; split_and!; [pr_of_request|done..]
  | |- exists p : PrInfo, _ => eexists; split_and!; [pr_of_request|done..]
  | |- _ /\ _ => split; solve_call
  | |- _ => done
  end.

Lemma not_open p : pi_state p <> PrStateOpen -> pi_state p = PrStateClosed.
Proof. by destruct (pi_state p). Qed.

Lemma synced_more l h sha name : synced h sha name -> synced (l ++ h) sha name.
Proof.
  intros (app & revision & relation & H1 & H2 & H3 & H4 & H5). exists app, revision, relation.
  split_and!; [|done|done| |done]; apply elem_of_app; by right.
Qed.

Lemma all_synced_calls r h sha apps :
  always (reconcile_call r) (fun h' o => o = inr true -> forall name, name ∈ apps -> synced h' sha name) h
    (all_synced sha apps).
Proof.
  revert h. induction apps as [|name apps IH]; intros h; cbn [all_synced].
  { intros _ x Hx. by apply not_elem_of_nil in Hx. }
  apply always_perform; [exact I|intros [|app]]; [done|].
  destruct (app_revision app) as [revision|] eqn:Er; [|done].
  destruct (String.eqb_spec (app_syncStatus app) "Synced") as [Es|]; cbn [negb]; [|done].
  apply always_perform; [exact I|intros [|relation]]; [done|].
  case_bool_decide as Hrel; [|done].
  eapply always_mono; [exact (always_grows _ _ _ _ (IH _))|by intros ? ? []|]. cbv beta.
  intros h' o [Hall [l ->]] Ho x Hx. apply elem_of_cons in Hx as [->|Hx]; [|by apply Hall].
  apply synced_more. exists app, revision, relation. split_and!; [found|done|done|found|done].
Qed.

Lemma checkApplied_calls r h :
  cr_stage r = Merged ->
  always (reconcile_call r) (fun _ _ => True) h (checkApplied argocd r).
Proof.
  intros Es. unfold checkApplied. destruct argocd; cbn [negb]; [|done].
  destruct (cr_mergeCommitSha r) as [sha|] eqn:Em; [|done].
  eapply always_bind; [apply all_synced_calls|]. cbv beta. intros h' [x|b] Hb; [done|].
  destruct b; [|done]. walk; try exact I. cbn [reconcile_call justified].
  split_and!; [held_row|done|done|done|]. exists sha. auto.
Qed.

Lemma reconcile_calls h r :
  always (reconcile_call r) (fun _ _ => True) h (reconcile baseDomain argocd r).
Proof.
  unfold reconcile. destruct (cr_stage r) eqn:Es; try by (apply checkApplied_calls).
  all: walk; try exact I; cbn [reconcile_call]; facts.
  all: try match goal with Hn : pi_state _ <> PrStateOpen |- _ => apply not_open in Hn end.
  all: split_and!; solve_call.
Qed.

(** ** A whole tick *)

(** What a tick requires of the calls before each of its calls. *)
Definition tick_call (h : trace Ans) (e : Eff) : Prop :=
  match e with
  | ETransition _ _ _ _ _ _ | ECreatePr _ =>
      Did EAcquireLease (inr true) ∈ h /\
      exists l r, Did (EListOpen LIST_LIMIT) (inr l) ∈ h /\ r ∈ l /\ reconcile_call r h e
  | EClosePr n =>
      Did EAcquireLease (inr true) ∈ h /\
      ((exists l r, Did (EListOpen LIST_LIMIT) (inr l) ∈ h /\ r ∈ l /\ reconcile_call r h e) \/
       (exists since l r p, Did (EListRecentTerminal since SWEEP_BATCH) (inr l) ∈ h /\ r ∈ l /\
          Did (EFindPr (cr_branch r) (Some (notBefore r))) (inr (Some p)) ∈ h /\
          pi_number p = n /\ pi_state p = PrStateOpen))
  | ESubmit _ => False
  | _ => True
  end.

Lemma elem_of_later (c : call Ans) l h : c ∈ h -> c ∈ l ++ h.
Proof. intros Hc. apply elem_of_app. by right. Qed.

Lemma logged_calls h r :
  always (reconcile_call r) (fun _ _ => True) h (reconcile_logged baseDomain argocd r).
Proof.
  unfold reconcile_logged. eapply always_bind; [apply reconcile_calls|]. intros h' [x|u] _; [|done].
  walk; done.
Qed.

Lemma always_fold {A S} ok (inv : trace Ans -> Prop) (l : list A) (f : S -> A -> prog Ans S) s h :
  inv h -> (forall h s a, a ∈ l -> inv h -> always ok (fun h' _ => inv h') h (f s a)) ->
  always ok (fun h' _ => inv h') h (fold_prog l f s).
Proof.
  revert h s. induction l as [|a l IH]; intros h s Hh Hf; cbn [fold_prog]; [done|].
  eapply always_bind; [apply Hf; [left|done]|]. intros h1 s1 Hi. apply IH; [exact Hi|].
  intros h2 s2 b Hb. apply Hf. by right.
Qed.

(** The requests of the listing, one after the other. *)
Lemma requests_calls h l :
  Did EAcquireLease (inr true) ∈ h -> Did (EListOpen LIST_LIMIT) (inr l) ∈ h ->
  always tick_call (fun h' _ => Did EAcquireLease (inr true) ∈ h') h (each l (reconcile_logged baseDomain argocd)).
Proof.
  intros Hle Hli. eapply always_mono; [apply (always_each _
    (fun h => Did EAcquireLease (inr true) ∈ h /\ Did (EListOpen LIST_LIMIT) (inr l) ∈ h))| |]; [done| |done|by intros ? ? []].
  clear h Hle Hli. intros h r Hr [Hle Hli].
  eapply always_mono; [exact (always_grows _ _ _ _ (logged_calls h r))| |].
  - intros h' e [Hc [k ->]].
    assert (exists l r, Did (EListOpen LIST_LIMIT) (inr l) ∈ k ++ h /\ r ∈ l /\ reconcile_call r (k ++ h) e) as Hx.
    { exists l, r. split_and!; [by apply elem_of_later|done|done]. }
    destruct e; try exact I; cbn [tick_call]; try (split; [by apply elem_of_later|]); auto.
  - intros h' u [_ [k ->]]. split; by apply elem_of_later.
Qed.

Lemma sweep_one_calls h now since l sw r :
  Did EAcquireLease (inr true) ∈ h -> Did (EListRecentTerminal since SWEEP_BATCH) (inr l) ∈ h -> r ∈ l ->
  always tick_call (fun h' _ => Did EAcquireLease (inr true) ∈ h' /\
      Did (EListRecentTerminal since SWEEP_BATCH) (inr l) ∈ h') h (sweep_one now sw r).
Proof.
  intros Hle Hli Hr. unfold sweep_one. case_match; [done|].
  walk; try exact I; cbn [tick_call]; facts; try (split; found).
  all: split; [found|right]; exists since, l, r; eexists; split_and!; [found|done|found|done|done].
Qed.

Lemma sweep_calls h s :
  Did EAcquireLease (inr true) ∈ h -> always tick_call (fun _ _ => True) h (sweepTerminal s).
Proof.
  intros Hle. unfold sweepTerminal. apply always_perform; [exact I|intros now].
  apply always_perform; [exact I|intros [x|l]]; [walk; exact I|].
  eapply always_bind; [|intros h' sw _; exact I].
  eapply always_mono; [apply (always_fold _ (fun h' => Did EAcquireLease (inr true) ∈ h' /\
    Did (EListRecentTerminal (now - SWEEP_WINDOW_MS) SWEEP_BATCH) (inr l) ∈ h'))|done|done].
  - split; found.
  - intros h' sw r Hr [Hle' Hli]. by apply sweep_one_calls.
Qed.

(** Looking for orphans only reads and logs. *)
Lemma log_orphans_calls owned prs h logged :
  always tick_call (fun _ _ => True) h (log_orphans owned prs logged).
Proof.
  revert h logged. induction prs as [|[n b] prs IH]; intros h logged; cbn [log_orphans]; [exact I|].
  case_match; [apply IH|]. apply always_perform; [exact I|intros [x|[c|]]]; [exact I|apply IH|].
  apply always_perform; [exact I|intros u]. apply IH.
Qed.

Lemma orphans_calls h l s : always tick_call (fun _ _ => True) h (logOrphans l s).
Proof.
  unfold logOrphans. apply always_perform; [exact I|intros [x|prs]]; [walk; exact I|].
  eapply always_bind; [apply log_orphans_calls|]. intros h' r _. walk; exact I.
Qed.

Lemma tick_calls s : always tick_call (fun _ _ => True) [] (guardedTick baseDomain argocd s).
Proof.
  unfold guardedTick. apply always_perform; [exact I|intros [x|[]]]; [walk; exact I| |exact I].
  eapply (always_bind _ (fun _ _ => True)); [|intros; walk; exact I].
  unfold tickBody. apply always_perform; [exact I|intros [x|l]]; [walk; exact I|].
  eapply always_bind; [apply requests_calls; found|]. cbv beta. intros h1 _ Hle.
  eapply always_bind; [by apply sweep_calls|]. intros h2 s2 _. apply orphans_calls.
Qed.

(** C10: every stage the reconciler writes is justified by what it was told before:
    [pr_open] by a pull request of the branch, not older than the request, or by
    the one it created; [failed] by neither pull request nor branch on GitHub, or a
    definite refusal; [merged] and [rejected] by the closed pull request;
    [applied] by both Applications being synced at or after the merge commit; and
    only for a request of its listing, under the lease, from the stage it holds.
    It asks for a pull request only for a request in recovery that has none, after
    its own compare-and-set, and for the audited change; it closes one only after
    it lost the compare-and-set to a request that ended, or when the store lists
    the request as ended. *)
Theorem reconciler_is_justified s t s' t1 e w t2 :
  runs (guardedTick baseDomain argocd s) t s' -> t = t1 ++ Did e w :: t2 -> tick_call (rev t1) e.
Proof.
  intros Hr Et. rewrite <-(app_nil_r (rev t1)).
  exact (always_calls _ _ _ _ _ _ _ _ _ (tick_calls s) Hr Et).
Qed.

(** C38: a tick reaches every open request: whatever the calls made for one
    request answer or throw, each request of the listing gets its own run of
    [reconcile], in the order of the listing, and then the sweep and the search
    for orphans run. *)
Theorem tick_reaches_every_request s t s' l t0 :
  runs (tickBody baseDomain argocd s) t s' -> t = Did (EListOpen LIST_LIMIT) (inr l) :: t0 ->
  exists ts t1 t2 s1, t0 = concat ts ++ t1 ++ t2 /\
    Forall2 (fun r t => exists t' u, t' `prefix_of` t /\ runs (reconcile baseDomain argocd r) t' u) l ts /\
    runs (sweepTerminal s) t1 s1 /\ runs (logOrphans l s1) t2 s'.
Proof.
  unfold tickBody. intros Hr ->. destruct Hr as (r & Ec & Hr).
  assert (r = inr l) as ->.
  { apply (f_equal (fun c : call Ans => match c with Did (EListOpen _) x => Some x | _ => None end)) in Ec.
    by injection Ec as ->. }
  cbn [bind] in Hr. apply runs_bind in Hr as (ta & tb & u & -> & (ts & -> & Hts)%runs_each & Hr).
  apply runs_bind in Hr as (t1 & t2 & s1 & -> & Hs & Ho). exists ts, t1, t2, s1. split_and!; [done| |done|done].
  eapply Forall2_impl; [exact Hts|]. intros c tc Hc. unfold reconcile_logged in Hc.
  apply runs_bind in Hc as (t' & t'' & o & -> & Hc & _). exists t', o. split; [by eexists|done].
Qed.
End reconciler.

(** ** A concrete tick *)

(** One merged request, both Applications synced. *)
Definition demo_merged : ChangeRecord :=
  mkChange "r-1" Merged "gitops/values/sso.yaml" "flink" "k1" "p1" "b0" "c0" ["admins"] "u-1" (Some "ann")
    "sso/flink-k1" (Some 7) (Some "https://github.com/o/r/pull/7") (Some "m0") 1000 1000 1000000.

Definition demo_tick : trace Ans * State :=
  answer (demo_answers demo_merged) [] (@guardedTick demo_lib "example.org" true (mkState [] [])).

Definition demo_applied : Eff :=
  ETransition "r-1" Merged Applied no_fields
    (mkTEvent (Some "both Applications synced at or after the merge commit")
       (Some (JObj [("source", JStr "reconciler")])) None) None.

Lemma reconciler_is_justified_witness :
  @tick_call demo_lib "example.org" (rev (take 6 demo_tick.1)) demo_applied.
Proof.
  eapply (@reconciler_is_justified demo_lib "example.org" true (mkState [] []) demo_tick.1 demo_tick.2
    (take 6 demo_tick.1) demo_applied); [apply answer_runs|]. lazy. reflexivity.
Defined.

Lemma tick_reaches_every_request_witness :
  let run := answer (demo_answers demo_merged) [] (@tickBody demo_lib "example.org" true (mkState [] [])) in
  exists ts t1 t2 s1, drop 1 run.1 = concat ts ++ t1 ++ t2 /\ length ts = 1%nat /\
    runs (logOrphans [demo_merged] s1) t2 run.2.
Proof.
  intros run.
  edestruct (@tick_reaches_every_request demo_lib "example.org" true (mkState [] []) run.1 run.2 [demo_merged]
    (drop 1 run.1)) as (ts & t1 & t2 & s1 & E & Hts & _ & Ho).
  - apply answer_runs.
  - lazy. reflexivity.
  - exists ts, t1, t2, s1. split; [exact E|]. split; [|exact Ho].
    apply Forall2_length in Hts. exact (eq_sym Hts).
Defined.
