(* ===== verification/GithubLink.v ===== *)
(** * The change-request flow over the GitHub client

    The ports of the flow are implemented by the methods of the client; the other
    calls (store, clock, log, ArgoCD) stay calls.  What the flow guarantees
    against its ports then holds on the wire. *)

From S2P Require Import Prelude JsBase JsRegex JsText JsJson JsLib SsoStore SsoSchema SsoEdit Effects SsoPorts.
From S2P Require Import SsoReconciler SsoRoutes SsoRouteProofs.
From S2P Require Import GithubApp GithubAppProofs.
From Stdlib Require Import Ascii.
From Stdlib Require String.
Open Scope Z_scope.

Abbreviation All := (SumAns (Ans1:=Ans) (Ans2:=HAns)).

Section link.
Context `{JsLib} (sign : string -> string) (o : GithubAppOptions).

(** The method behind a port; reads and closes run outside [createChangePr]. *)
Definition github (e : Eff) : option (prog HAns (Ans e)) :=
  match e with
  | ECreatePr i => Some (createChangePr sign o i)
  | EFindBranch b => Some (findBranch sign o None b)
  | EFindPr b notBefore => Some (findPrByBranch sign o None b notBefore)
  | EGetPr n => Some (getPr sign o None n)
  | EClosePr n => Some (closePr sign o None n)
  | ECompare base head => Some (GithubApp.compare sign o None base head)
  | EListSsoPrs => Some (listOpenSsoPrs sign o None)
  | EReadFile path ref => Some (readFile sign o None path ref)
  | _ => None
  end.

Definition impl (e : Eff) : prog All (Ans e) :=
  match github e with Some p => lift p | None => perform (Ans:=All) (inl e) end.

(** ** What the client promises the flow *)

(** The requests a port may cause besides those for a token. *)
Definition wire (e : Eff) (h : trace HAns) (m p : string) (body : option json) : Prop :=
  match e with
  | ECreatePr i => create_wire o i h m p body
  | EClosePr n =>
      m = "PATCH" /\ p = repoPath o ("/pulls/" +:+ pretty n) /\ body = Some (JObj [("state", JStr "closed")]) /\ 0 < n
  | _ => get_request o m p body
  end.

Definition git_error (x : Exn) : Prop :=
  match x with GithubUnavailableError _ | GitWriteError KRejected _ => True | _ => False end.

Definition is_sha (s : string) : Prop := test SHA_RE s = true.

(** A merge commit only of a merged pull request. *)
Definition pr_wf (pr : PrInfo) : Prop :=
  match pi_mergeCommitSha pr with Some s => pi_merged pr = true /\ is_sha s | None => True end.

(** What every answer of the client satisfies. *)
Definition git_answer (e : Eff) : Ans e -> Prop :=
  match e with
  | ECreatePr _ => fun r => match r with inl x => exists k m, x = GitWriteError k m | inr _ => True end
  | EFindBranch b => fun r =>
      match r with
      | inl x => git_error x
      | inr (Some sha) => is_sha sha /\ test BRANCH_RE b = true
      | inr None => test BRANCH_RE b = true
      end
  | EFindPr b notBefore => fun r =>
      match r with
      | inl x => git_error x
      | inr (Some pr) => pr_wf pr /\ young notBefore pr = true
      | inr None => True
      end
  | EGetPr n => fun r =>
      match r with inl x => git_error x | inr (Some pr) => pr_wf pr /\ 0 < n | inr None => 0 < n end
  | EClosePr n => fun r => match r with inl x => git_error x | inr pr => pr_wf pr /\ 0 < n end
  | ECompare base head => fun r => match r with inl x => git_error x | inr _ => is_sha base /\ is_sha head end
  | EListSsoPrs => fun r =>
      match r with inl x => git_error x | inr l => Forall (fun p : Z * string => starts_with "sso/" p.2 = true) l end
  | EReadFile path _ => fun r =>
      match r with inl x => git_error x | inr (sha, _) => is_sha sha /\ path ∈ READABLE_PATHS end
  | _ => fun _ => True
  end.

Lemma api_then {A} (W : trace HAns -> string -> string -> option json -> Prop) (P : result Exn A -> Prop)
    h m sfx body (f : Reply -> HProg A) :
  (forall h, W h m (repoPath o sfx) body) -> (forall x, git_error x -> P (inl x)) ->
  (forall h' reply, always (op_ok o None W) (fun _ => P) h' (f reply)) ->
  always (op_ok o None W) (fun _ => P) h (bind_ok (api sign o None m sfx body) f).
Proof.
  intros HW Hx Hf. eapply always_bind_ok; [apply api_spec; intros l; apply HW|..].
  - intros h' x [[msg ->] _]. by apply Hx.
  - intros h' reply _. apply Hf.
Qed.

Lemma sha_field_sha j key s : sha_field j key = Some s -> is_sha s.
Proof. unfold sha_field, is_sha. intros E. repeat case_match; simplify_eq; done. Qed.

Lemma toPr_wf j pr : toPr j = Some pr -> pr_wf pr.
Proof.
  unfold toPr. intros E. destruct (ofield j "number") as [[]|]; try done. destruct (ofield j "html_url") as [[]|]; try done.
  destruct (ofield j "state") as [[]|]; try done. cbv zeta in E. destruct (if String.eqb s0 "open" then _ else _); [|done].
  injection E as <-. unfold pr_wf. cbn [pi_mergeCommitSha pi_merged].
  match goal with |- match (if ?b then _ else _) with _ => _ end => destruct b end; [|done].
  destruct (sha_field j "merge_commit_sha") eqn:Es; [|done]. by apply sha_field_sha in Es.
Qed.

Lemma our_prs_wf notBefore l pr : pr ∈ our_prs o notBefore l -> pr_wf pr /\ young notBefore pr = true.
Proof.
  unfold our_prs. rewrite elem_of_filterb, list_elem_of_omap. intros [(j & _ & Hj) Hy]. split; [|done].
  by apply toPr_wf in Hj.
Qed.

Lemma contents_sha path reply sha text : contents_of path reply = Some (sha, text) -> is_sha sha.
Proof.
  unfold contents_of. destruct (sha_field _ _) as [s|] eqn:Es; [|done]. apply sha_field_sha in Es.
  intros E. repeat case_match; simplify_eq; done.
Qed.

(** ** Every method *)

(** [deadline]: of [createChangePr], which sets it after its first call. *)
Definition polite (e : Eff) (deadline : option Z) (start : trace HAns) (p : prog HAns (Ans e)) : Prop :=
  always (op_ok o deadline (wire e)) (fun _ => git_answer e) start p.

Ltac answers := unfold unavailable, hthrow, hreturn; repeat case_match; simplify_eq; cbn; auto.

Lemma get_ok sfx : get_request o "GET" (repoPath o sfx) None.
Proof. split_and!; [done|eauto|done]. Qed.

Lemma findBranch_polite b : polite (EFindBranch b) None [] (findBranch sign o None b).
Proof.
  unfold polite, findBranch, guardBranch. destruct (test BRANCH_RE b) eqn:Eb; cbn [bind_ok bind]; [|done].
  apply api_then; [intros h; apply get_ok|done|]. intros h reply.
  destruct (r_status reply =? 404); [by cbn; rewrite Eb|].
  destruct (sha_field _ _) as [sha|] eqn:Es; [|done]. apply sha_field_sha in Es. by destruct (_ =? 200).
Qed.

Lemma findPr_polite b notBefore : polite (EFindPr b notBefore) None [] (findPrByBranch sign o None b notBefore).
Proof.
  unfold polite, findPrByBranch, guardBranch. destruct (test BRANCH_RE b); cbn [bind_ok bind]; [|done].
  apply api_then; [intros h; apply get_ok|done|]. intros h reply.
  destruct (r_json reply) as [[| | | |l|]|]; try done. destruct (_ =? 200); [|done].
  cbn [always hreturn git_answer]. destruct (pick_pr _) as [pr|] eqn:Ep; [|done]. apply (our_prs_wf notBefore l).
  unfold pick_pr in Ep. destruct (List.find _ _) eqn:Ef; [injection Ep as ->|by apply head_Some_elem_of].
  apply List.find_some in Ef as [Ef _]. by apply list_elem_of_In.
Qed.

Lemma pr_of_wf reply pr : pr_of reply = Some pr -> pr_wf pr.
Proof. unfold pr_of. destruct (_ =? 200); [apply toPr_wf|done]. Qed.

Lemma getPr_polite n : polite (EGetPr n) None [] (getPr sign o None n).
Proof.
  unfold polite, getPr. destruct (n <=? 0) eqn:En; [done|]. apply Z.leb_gt in En.
  apply api_then; [intros h; apply get_ok|done|]. intros h reply.
  destruct (r_status reply =? 404); [done|]. destruct (pr_of reply) as [pr|] eqn:Ep; [|done].
  apply pr_of_wf in Ep. by destruct (isOurs _ _).
Qed.

Lemma closePr_polite n : polite (EClosePr n) None [] (closePr sign o None n).
Proof.
  unfold polite, closePr. destruct (n <=? 0) eqn:En; [done|]. apply Z.leb_gt in En.
  apply api_then; [done|done|]. intros h reply. destruct (pr_of reply) as [pr|] eqn:Ep; [|done].
  by apply pr_of_wf in Ep.
Qed.

Lemma compare_polite base head : polite (ECompare base head) None [] (GithubApp.compare sign o None base head).
Proof.
  unfold polite, GithubApp.compare. destruct (test SHA_RE base) eqn:E1; cbn [negb orb]; [|done].
  destruct (test SHA_RE head) eqn:E2; cbn [negb]; [|done].
  apply api_then; [intros h; apply get_ok|done|]. intros h reply.
  destruct (compare_status _); [|done]. by destruct (_ =? 200).
Qed.

Lemma list_pages_polite pages page out h :
  Forall (fun p : Z * string => starts_with "sso/" p.2 = true) out ->
  always (op_ok o None (wire EListSsoPrs)) (fun _ => git_answer EListSsoPrs) h (list_pages sign o None pages page out).
Proof.
  revert page out h. induction pages as [|pages IH]; intros page out h Ho; cbn [list_pages]; [done|].
  apply (api_then (wire EListSsoPrs) (git_answer EListSsoPrs)); [intros h'; apply get_ok|done|]. intros h' reply.
  destruct (r_json reply) as [[| | | |l|]|]; try done. destruct (_ =? 200); [|done].
  assert (Forall (fun p : Z * string => starts_with "sso/" p.2 = true) (out ++ omap (sso_pr o) l)) as Hout.
  { apply Forall_app. split; [done|]. apply Forall_forall. intros [n ref] (j & _ & Hj)%list_elem_of_omap.
    unfold sso_pr in Hj. destruct (field j "number") as [[]|]; try done. destruct (ofield _ "ref") as [[]|]; try done.
    destruct (starts_with "sso/" s) eqn:Es; [|done]. cbn [andb] in Hj. destruct (isOurs _ _); [|done]. by injection Hj as <- <-. }
  cbv zeta. destruct (negb _); [done|]. destruct (bool_decide _).
  - apply always_perform; [done|]. intros ?. by apply IH.
  - apply always_ret. by apply IH.
Qed.

Lemma readFile_polite path ref : polite (EReadFile path ref) None [] (readFile sign o None path ref).
Proof.
  unfold polite, readFile. case_bool_decide as Hp; cbn [negb]; [|done].
  eapply always_bind_ok with (mid := fun _ r =>
    match r with inl x => git_error x | inr f => forall sha text, f = Some (sha, text) -> is_sha sha end).
  - unfold readContents. apply (api_then (wire (EReadFile path ref))
      (fun r : result Exn (option (string * string)) =>
        match r with inl x => git_error x | inr f => forall sha text, f = Some (sha, text) -> is_sha sha end));
      [intros h'; apply get_ok|done|].
    intros h reply. destruct (r_status reply =? 404); [done|]. destruct (contents_of path reply) as [f|] eqn:Ec; [|done].
    intros sha text [= ->]. by eapply contents_sha.
  - intros h x Hx. done.
  - intros h [[sha text]|] Hf; [|done]. split; [by apply (Hf _ text)|done].
Qed.

(** What a method answers, and under which deadline its calls are made. *)
Definition well_served (e : Eff) (t : trace HAns) (r : Ans e) : Prop :=
  git_answer e r /\
  forall t1 c t2, t = t1 ++ c :: t2 ->
    exists deadline,
      (deadline = None \/
       exists i start, e = ECreatePr i /\ head t1 = Some (Did HNow start) /\
         deadline = Some (start + this_createDeadlineMs o)) /\
      ok_call (op_ok o deadline (wire e)) (rev t1 ++ []) c.

Lemma polite_served e p t r : polite e None [] p -> runs p t r -> well_served e t r.
Proof.
  intros Hp Hr. split; [exact (always_post _ _ _ _ _ _ Hp Hr)|]. intros t1 c t2 Et. exists None.
  split; [by left|]. exact (always_calls _ _ _ _ _ _ _ _ _ Hp Hr Et).
Qed.

Lemma create_served i t r : runs (createChangePr sign o i) t r -> well_served (ECreatePr i) t r.
Proof.
  intros Hr. apply createChangePr_calls in Hr as [[_ Hp] (start & t' & -> & Hc)]. split.
  - cbn [git_answer]. destruct r as [[]|]; naive_solver.
  - intros [|c1 t1] c t2 Et; injection Et as <- Et.
    + exists None. split; [by left|done].
    + exists (Some (start + this_createDeadlineMs o)). split; [right; by exists i, start|]. exact (Hc t1 c t2 Et).
Qed.

Lemma github_served e p t r : github e = Some p -> runs p t r -> well_served e t r.
Proof.
  destruct e; try done; intros [= <-].
  - apply create_served.
  - apply polite_served, findBranch_polite.
  - apply polite_served, findPr_polite.
  - apply polite_served, getPr_polite.
  - apply polite_served, closePr_polite.
  - apply polite_served, compare_polite.
  - apply polite_served. by apply list_pages_polite.
  - apply polite_served, readFile_polite.
Qed.

(** ** The flow on the wire *)

(** What is below one call of the flow: itself, or the calls of the method that
    implements it. *)
Definition serves (c : call Ans) (u : trace All) : Prop :=
  match c with
  | Did e r =>
      match github e with
      | None => u = [Did (Ans:=All) (inl e) r]
      | Some p => exists t, u = map right_call t /\ runs p t r /\ well_served e t r
      end
  end.

Lemma does_serves c u : does impl c u -> serves c u.
Proof.
  destruct c as [e r]. unfold does, impl, serves. destruct (github e) as [p|] eqn:Eg.
  - intros (t & -> & Hr)%runs_lift. exists t. split_and!; [done..|by eapply github_served].
  - cbn [perform runs]. destruct u as [|c u]; [done|]. by intros (r' & -> & -> & ->).
Qed.

(** A call of the flow that is not implemented by the client is on the wire. *)
Lemma served_below v1 ts e r :
  Forall2 (does impl) v1 ts -> Did e r ∈ v1 -> github e = None -> Did (Ans:=All) (inl e) r ∈ concat ts.
Proof.
  induction 1 as [|c u v1 ts Hc Hts IH]; [by intros ?%not_elem_of_nil|]. intros Hin Hg. cbn [concat]. apply elem_of_app.
  apply elem_of_cons in Hin as [<-|Hin]; [left|right; by apply IH].
  apply does_serves in Hc. cbn [serves] in Hc. rewrite Hg in Hc. subst u. left.
Qed.

(** The outcome of a request. *)
Definition fetched (c : call All) : option FetchResult :=
  match c with Did (inr (HFetch _ _ _ _ _)) a => Some a | _ => None end.

(** A request on the wire belongs to a method of the client. *)
Lemma request_of_method {A} (p : prog Ans A) t out t1 m path b body timeout a t2 :
  runs (link impl p) t out -> t = t1 ++ Did (Ans:=All) (inr (HFetch m path b body timeout)) a :: t2 ->
  exists v v1 e r v2 ts1 w1 w2,
    runs p v out /\ v = v1 ++ Did e r :: v2 /\ Forall2 (does impl) v1 ts1 /\ t1 = concat ts1 ++ map right_call w1 /\
    well_served e (w1 ++ Did (HFetch m path b body timeout) a :: w2) r.
Proof.
  intros (v & ts & Hp & Et & Hd)%runs_link Hw.
  destruct (does_split impl _ _ _ _ _ _ Hd Et Hw) as (v1 & [e r] & v2 & ts1 & u1 & u2 & -> & Hv & Hc & ->).
  apply does_serves in Hc. cbn [serves] in Hc. destruct (github e) as [q|] eqn:Eg.
  - destruct Hc as (w & Ew & _ & Hs). symmetry in Ew. apply map_eq_app in Ew as (w1 & w' & -> & <- & Ew).
    apply map_eq_cons in Ew as ([e' r'] & w2 & -> & Ec & <-). cbn [right_call] in Ec.
    pose proof (f_equal fetched Ec) as Ea. injection Ec as ->. injection Ea as ->.
    exists (v1 ++ Did e r :: v2), v1, e, r, v2, ts1, w1, w2. done.
  - destruct u1 as [|c1 u1]; [|by destruct u1]. done.
Qed.

(** A run of the client is a run of its port. *)
Lemma run_create i t r :
  runs (createChangePr sign o i) t r -> runs (link impl (perform (ECreatePr i))) (map right_call t) r.
Proof.
  intros Hr. cbn [link perform]. apply runs_bind. exists (map right_call t), [], r.
  split_and!; [by rewrite app_nil_r| |done]. apply runs_lift. by exists t.
Qed.

(** ** Theorems *)

(** C36: every run of a handler or a tick over the GitHub client is a run of it
    against its ports, in which every answer of GitHub is well-formed and every
    call is made of the requests its method may send.  So what is proved of the
    flow for every answer of the ports holds over the client. *)
Theorem flow_over_github {A} (p : prog Ans A) t a :
  runs (link impl p) t a -> exists v ts, runs p v a /\ t = concat ts /\ Forall2 serves v ts.
Proof.
  intros (v & ts & Hp & -> & Hd)%runs_link. exists v, ts. split_and!; [done..|].
  eapply Forall2_impl; [exact Hd|]. apply does_serves.
Qed.

(** Nothing is written to GitHub without an audited request.  When the submit
    route runs over the client, a request that creates a branch, writes a file or
    opens a pull request is sent only for an administrator, after the store
    committed the new request row, and its branch, base commit, base blob and
    content are those of that row. *)
Theorem wire_is_audited `{EditLib} deps denied principal req t out t1 m path b body timeout a t2 :
  runs (link impl (postRoute deps denied principal req)) t out ->
  t = t1 ++ Did (Ans:=All) (inr (HFetch m path b body timeout)) a :: t2 ->
  m <> "GET" -> m <> "PATCH" -> path <> mint_path o ->
  exists p j rec c i,
    principal = Some p /\ REQUIRED_GROUP ∈ p_groups p /\
    Did (Ans:=All) (inl (ESubmit j)) (inr (rec, false)) ∈ t1 /\ si_actorSub j = p_sub p /\
    si_branch j = cc_branch i /\ si_baseBlobSha j = cc_baseBlobSha i /\ si_sourceCommitSha j = cc_baseCommitSha i /\
    si_filePath j = SSO_FILE_PATH /\ si_allowedGroups j = bc_after c /\ cc_content i = bc_editedText c /\
    (m = "POST" /\ path = repoPath o "/git/refs" /\ body = refs_body i \/
     m = "PUT" /\ path = repoPath o (contents_path SSO_FILE_PATH) /\ body = put_body i \/
     m = "POST" /\ path = repoPath o "/pulls" /\ body = pulls_body o i).
Proof.
  intros Hr Et Hget Hpatch Hmint.
  destruct (request_of_method _ _ _ _ _ _ _ _ _ _ _ Hr Et) as (v & v1 & e & r & v2 & ts1 & w1 & w2 & Hv & Ev & Hd & -> & Ha & Hs).
  destruct (Hs _ _ _ eq_refl) as (deadline & _ & Hok). destruct Hok as [_ [(_ & Em & _)|Hw]]; [done|].
  destruct e; try (by destruct Hw as (Em & _)).
  destruct Hw as [(Em & _)|[Hg Hw]]; [done|].
  destruct (post_calls_audited _ _ _ _ _ _ _ _ _ _ Hv Ev) as (p & -> & Hadm & _ & _ & Haud).
  destruct Haud as (j & rec & base & c & patch & _ & Hsub & _ & Hact & Hpath & Hbr & Hblob & _ & Hcom & _ & _ & Hgr & Hcon).
  exists p, j, rec, c, i. split_and!; try done.
  - apply elem_of_app. left. by eapply served_below.
  - rewrite Hpath. apply Hg.
  - naive_solver.
Qed.

(** C40: every answer of the client is well-formed: a merge commit is a commit hash
    and only of a merged pull request, a pull request that was looked up is not
    older than asked, branches and files are those that may be read, and nothing
    but the errors of the port is thrown. *)
Theorem github_answers e p t r : github e = Some p -> runs p t r -> git_answer e r.
Proof. intros Hg Hr. by apply (github_served _ _ _ _ Hg Hr). Qed.

(** The client is polite under every interleaving of its methods: each request
    is sent right after the clock was found past the shared [retryAt], with no
    more than the configured timeout, and a rate limit moves [retryAt] at least a
    minute and at most an hour ahead of the clock. *)
Theorem client_backs_off e p t r t1 c t2 :
  github e = Some p -> runs p t r -> t = t1 ++ c :: t2 ->
  match c with
  | Did (HFetch _ _ _ _ timeout) _ =>
      timeout <= this_timeoutMs o /\
      exists now retryAt t0 t0', t1 = t0 ++ Did HNow now :: Did HRetryAt retryAt :: t0' /\ retryAt <= now /\
        (length t0' <= 1)%nat
  | Did (HSetRetryAt u) _ =>
      exists now t0, t1 = t0 ++ [Did HNow now] /\ now + 60000 <= u <= now + 3600000
  | _ => True
  end.
Proof.
  intros Hg Hr Et. destruct (proj2 (github_served _ _ _ _ Hg Hr) _ _ _ Et) as (deadline & _ & Hok).
  rewrite app_nil_r in Hok. destruct c as [[] a]; try done.
  - destruct Hok as (now & h0 & Eh & Hb). exists now, (rev h0). split; [|exact Hb].
    rewrite <-(rev_involutive t1), Eh. done.
  - destruct Hok as [(now & retryAt & h0 & Hle & Hd) _]. destruct deadline as [d|].
    + destruct Hd as (now' & Eh & Hn & ->). split; [lia|]. exists now, retryAt, (rev h0), [Did HNow now'].
      split_and!; [|done|simpl; lia]. rewrite <-(rev_involutive t1), Eh. cbn [rev]. by rewrite <-!app_assoc.
    + destruct Hd as [Eh ->]. split; [done|]. exists now, retryAt, (rev h0), [].
      split_and!; [|done|simpl; lia]. rewrite <-(rev_involutive t1), Eh. cbn [rev]. by rewrite <-!app_assoc.
Qed.

(** C39: [createChangePr] gives up in time: it sends at most 28 requests, and every
    one of them must be answered before the deadline counted from its first look
    at the clock, which with the default budget is before the reconciler takes a
    submitted request for orphaned. *)
Theorem create_in_time i t out t1 m path b body timeout a t2 :
  runs (createChangePr sign o i) t out -> t = t1 ++ Did (HFetch m path b body timeout) a :: t2 ->
  (fetches t <= 28)%nat /\
  exists start now t0, head t1 = Some (Did HNow start) /\ t1 = t0 ++ [Did HNow now] /\
    now < start + this_createDeadlineMs o /\ now + timeout <= start + this_createDeadlineMs o /\
    (createDeadlineMs o = None -> now + timeout < start + SUBMITTED_GRACE_MS).
Proof.
  intros Hr Et. split.
  { rewrite <-fetches_rev. by apply createChangePr_calls in Hr as [[Hf _] _]. }
  apply createChangePr_calls in Hr as (_ & start & t' & Et' & Hc). rewrite Et in Et'.
  destruct t1 as [|c t1]; [done|]. injection Et' as -> Et'. symmetry in Et'.
  destruct (Hc _ _ _ Et') as [(now & retryAt & h0 & _ & now' & Eh & Hn & Ht) _].
  exists start, now', (rev (Did HRetryAt retryAt :: Did HNow now :: h0)). split_and!; [done| |done|lia|].
  - rewrite app_nil_r in Eh. rewrite <-(rev_involutive (_ :: t1)), Eh. done.
  - unfold this_createDeadlineMs in *. intros E. rewrite E in *. cbn in *. unfold CREATE_PR_DEADLINE_MS, SUBMITTED_GRACE_MS in *. lia.
Qed.
End link.

(** ** Witnesses *)

#[local] Existing Instance demo_js.

Definition demo_impl : forall e, prog All (Ans e) := impl demo_sign demo_app.

Lemma flow_over_github_witness :
  exists v ts, runs (perform (ECreatePr demo_create)) v demo_created.2 /\
    map right_call demo_created.1 = concat ts /\ Forall2 (serves demo_sign demo_app) v ts.
Proof.
  apply (flow_over_github demo_sign demo_app (perform (ECreatePr demo_create))). apply run_create, answer_runs.
Defined.

(** The store and the base of a submit; GitHub as in the runs of the client. *)
Definition demo_all (h : trace All) (e : Eff + Op) : All e :=
  match e as e return All e with
  | inl e =>
      match e as e return Ans e with
      | EReadBase _ => inr (mkBase demo_sha demo_sha "admins" "example.org" demo_config ["admins"; "engineers"])
      | e => demo_answers (demo_record PrOpen) [] e
      end
  | inr e => demo_github [] e
  end.

Definition demo_wire : trace All * (DeniedMap * result Exn Response) :=
  answer demo_all [] (link demo_impl demo_submit).

Lemma wire_is_audited_witness :
  exists j rec, Did (Ans:=All) (inl (ESubmit j)) (inr (rec, false)) ∈ take 22 demo_wire.1 /\ si_actorSub j = "u-1".
Proof.
  edestruct (@wire_is_audited demo_js demo_sign demo_app demo_lib demo_deps [] (Some demo_admin) (demo_post "false") demo_wire.1
    demo_wire.2 (take 22 demo_wire.1) "PUT" (repoPath demo_app (contents_path SSO_FILE_PATH)))
    as (p & j & rec & c & i & Hp & _ & Hj & Ha & _).
  - apply answer_runs.
  - vm_compute. reflexivity.
  - done.
  - done.
  - done.
  - injection Hp as <-. exists j, rec. split; [exact Hj|exact Ha].
Defined.

Definition demo_found : trace HAns * result Exn (option PrInfo) :=
  answer (fun h e =>
    match e as e return HAns e with
    | HFetch "GET" _ _ _ _ => demo_http 200 "prs"
    | e => demo_github h e
    end) [] (findPrByBranch demo_sign demo_app None "sso/flink-0123456789ab" (Some 1000)).

Lemma github_answers_witness :
  exists pr, demo_found.2 = inr (Some pr) /\ pr_wf pr /\ young (Some 1000) pr = true.
Proof.
  eexists. split; [vm_compute; reflexivity|].
  apply (github_answers demo_sign demo_app (EFindPr "sso/flink-0123456789ab" (Some 1000))
    (findPrByBranch demo_sign demo_app None "sso/flink-0123456789ab" (Some 1000)) demo_found.1
    (inr (Some (mkPr 7 "https://github.com/x" (Some 4000000000) PrStateOpen false None)))); [reflexivity|].
  replace (inr (Some (mkPr 7 "https://github.com/x" (Some 4000000000) PrStateOpen false None))) with demo_found.2
    by (vm_compute; reflexivity).
  apply answer_runs.
Defined.

(** The second call of the API is answered with a rate limit. *)
Definition demo_limited : trace HAns * result Exn CreatedPr :=
  answer (fun h e =>
    match e as e return HAns e with
    | HFetch "GET" _ _ _ _ => FetchReply (mkHttp 429 None None None None None (Some EmptyString))
    | e => demo_github h e
    end) [] (createChangePr demo_sign demo_app demo_create).

Lemma client_backs_off_witness :
  exists now t0, take 14 demo_limited.1 = t0 ++ [Did HNow now] /\ now + 60000 <= 73000 <= now + 3600000.
Proof.
  apply (client_backs_off demo_sign demo_app (ECreatePr demo_create) (createChangePr demo_sign demo_app demo_create)
    demo_limited.1 demo_limited.2 (take 14 demo_limited.1) (Did (HSetRetryAt 73000) tt) []).
  - reflexivity.
  - apply answer_runs.
  - vm_compute. reflexivity.
Defined.

Lemma create_in_time_witness :
  (fetches demo_created.1 <= 28)%nat /\
  exists start now t0, head (take 18 demo_created.1) = Some (Did HNow start) /\
    take 18 demo_created.1 = t0 ++ [Did HNow now] /\ now < start + SUBMITTED_GRACE_MS.
Proof.
  edestruct (create_in_time demo_sign demo_app demo_create demo_created.1 demo_created.2 (take 18 demo_created.1))
    as (Hf & start & now & t0 & Hs & Ht & _ & _ & Hg).
  - apply answer_runs.
  - vm_compute. reflexivity.
  - split; [exact Hf|]. exists start, now, t0. split; [exact Hs|]. split; [exact Ht|]. specialize (Hg eq_refl). lia.
Defined.
