(* ===== verification/SsoSystem.v ===== *)
(** * Replicas, requests and ticks, interleaved

    Any number of route handlers and reconciler ticks, of any number of replicas,
    run against one database; a step is one call of one of them.  The store
    answers as [SsoStore] does, with a fault whenever it likes; everything else
    (GitHub, ArgoCD, the clock) answers anything. *)

From S2P Require Import Prelude JsBase JsJson PolicyValidate SsoStore SsoStoreProofs SsoSchema SsoEdit SsoPrText Effects.
From S2P Require Import SsoPorts SsoReconciler SsoRoutes SsoRouteProofs SsoReconcilerProofs.
From Stdlib Require String.
Open Scope prog_scope.

(** ** The store behind the port *)

Definition lift {A} (r : result StoreErrorCode A) : result Exn A :=
  match r with inl c => inl (StoreError c) | inr a => inr a end.

(** [answers db e r db']: the call [e] may answer [r] and leave [db']. *)
Definition answers (db : Db) (e : Eff) : Ans e -> Db -> Prop :=
  match e as e return Ans e -> Db -> Prop with
  | ESubmit i => fun r db' => exists f now uuid,
      r = lift (submit f now uuid i db).2 /\ db' = (submit f now uuid i db).1
  | ETransition i x s t ev v => fun r db' => exists f now,
      r = lift (transition f now i x s t ev v db).2 /\ db' = (transition f now i x s t ev v db).1
  | ERecord ev => fun r db' => exists f, r = lift (recordEvent f ev db).2 /\ db' = (recordEvent f ev db).1
  | ERecordDetached ev => fun _ db' => exists f, db' = (recordEvent f ev db).1
  | EGet i => fun r db' => db' = db /\ exists f, r = lift (get f i db)
  | EFindByKey k => fun r db' => db' = db /\ exists f, r = lift (findByKey f k db)
  | EFindByBranch b => fun r db' => db' = db /\ exists f, r = lift (findByBranch f b db)
  | EListOpen n => fun r db' => db' = db /\ exists f, r = lift (listOpen f n db)
  | EListRecentTerminal since n => fun r db' => db' = db /\ exists f, r = lift (listRecentTerminal f since n db)
  | _ => fun _ db' => db' = db
  end.

(** ** The system *)

(** A thread: the calls it made, and what is left of it. *)
Definition thread : Type := trace Ans * prog Ans unit.

Record System := mkSystem { sy_db : Db; sy_threads : list thread }.

Definition void {A} (p : prog Ans A) : prog Ans unit := bind p (fun _ => Ret tt).

Section system.
Context `{EditLib} (baseDomain : string).

(** What a replica starts: a request to one of the routes, or a tick. *)
Inductive starts : prog Ans unit -> Prop :=
| starts_post deps denied principal r : starts (void (postRoute deps denied principal r))
| starts_contract deps denied principal : starts (void (contractRoute deps denied principal))
| starts_list deps denied principal status : starts (void (listRoute deps denied principal status))
| starts_cancel deps denied principal valid i body : starts (void (cancelRoute deps denied principal valid i body))
| starts_get deps denied principal valid i : starts (void (getRoute deps denied principal valid i))
| starts_tick argocd s : starts (void (guardedTick baseDomain argocd s)).

Inductive sys_step : System -> System -> Prop :=
| sys_start db ts p : starts p -> sys_step (mkSystem db ts) (mkSystem db (ts ++ [([], p)]))
| sys_call db db' ts1 ts2 h e k r :
    answers db e r db' ->
    sys_step (mkSystem db (ts1 ++ (h, Vis e k) :: ts2)) (mkSystem db' (ts1 ++ (Did e r :: h, k r) :: ts2))
| sys_die db ts1 ts2 th : sys_step (mkSystem db (ts1 ++ th :: ts2)) (mkSystem db (ts1 ++ ts2)).

Definition initial : System := mkSystem empty_db [].
Definition reachable (s : System) : Prop := rtc sys_step initial s.

(** ** The stage diagram *)

(** The edges of the diagram of ADR-0009; [submitted -> submitted] is the touch of
    the recovery. *)
Definition stage_edge (x s : ChangeStage) : bool :=
  match x, s with
  | Submitted, (Submitted | PrOpen | UnknownRecovering | Failed) => true
  | UnknownRecovering, (Submitted | PrOpen | Failed) => true
  | PrOpen, (Merged | Rejected | Failed) => true
  | Merged, Applied => true
  | _, _ => false
  end.

(** ** What a thread may ask *)

(** What the store answered to compare-and-sets and submits. *)
Definition honest_stages (h : trace Ans) : Prop :=
  (forall i x s f t v c, Did (ETransition i x s f t v) (inr (Some c)) ∈ h -> cr_stage c = s) /\
  (forall j c, Did (ESubmit j) (inr (c, false)) ∈ h -> cr_stage c = Submitted).

(** The pull request asked for is that of a submitted or listed request. *)
Definition pr_request (h : trace Ans) (i : CreateChangePrInput) : Prop :=
  (exists j c, Did (ESubmit j) (inr (c, false)) ∈ h /\ si_branch j = cc_branch i /\
     si_baseBlobSha j = cc_baseBlobSha i /\ si_sourceCommitSha j = cc_baseCommitSha i) \/
  (exists n l c, Did (EListOpen n) (inr l) ∈ h /\ c ∈ l /\ cr_branch c = cc_branch i /\
     cr_baseBlobSha c = cc_baseBlobSha i /\ cr_sourceCommitSha c = cc_baseCommitSha i).

Definition thread_call (h : trace Ans) (e : Eff) : Prop :=
  match e with
  | ETransition _ x s _ _ _ => honest_stages h -> stage_edge x s = true
  | ECreatePr i => pr_request h i
  | _ => True
  end.

Lemma post_thread principal h e : post_call principal h e -> thread_call h e.
Proof.
  destruct e; try done; cbn [post_call thread_call].
  - intros (j & rec & Hj & _ & -> & Hs) [_ Hsub]. rewrite (Hsub _ _ Hj). by repeat (apply elem_of_cons in Hs as [->|Hs]; [done|]); apply not_elem_of_nil in Hs.
  - intros (p & _ & _ & _ & _ & j & rec & b & c & patch & _ & Hj & _ & _ & _ & Eb & Ebl & _ & Ec & _).
    left. eauto 10.
Qed.

Lemma cancel_thread principal h e : cancel_call principal h e -> thread_call h e.
Proof.
  destruct e; try done; cbn [cancel_call thread_call].
  intros (p & r & _ & _ & (_ & Ha & _) & _ & _ & -> & -> & _) _. unfold ACTIVE_STAGES in Ha.
  by repeat (apply elem_of_cons in Ha as [->|Ha]; [done|]); apply not_elem_of_nil in Ha.
Qed.

Lemma holds_stage h r c :
  honest_stages h -> holds h r c -> recovering h r -> cr_stage c = Submitted \/ cr_stage c = UnknownRecovering.
Proof.
  intros [Ht _] [->|(f & t & Hc)] Hr; [|left; by eapply Ht].
  destruct Hr as [->|[-> _]]; auto.
Qed.

Lemma reconcile_thread r h e l n :
  Did (EListOpen n) (inr l) ∈ h -> r ∈ l -> reconcile_call baseDomain r h e -> thread_call h e.
Proof.
  intros Hl Hr. destruct e; try done; cbn [reconcile_call thread_call].
  - intros ((c & Hm & -> & ->) & _ & Hj) Hh. destruct s; cbn [moves justified] in *.
    + subst c. destruct Hj as ([->|[-> _]] & _); done.
    + destruct Hj as (Hrec & _). by destruct (holds_stage h r c Hh Hm Hrec) as [-> | ->].
    + done.
    + subst c. destruct Hj as (-> & _). done.
    + subst c. destruct Hj as (-> & _). done.
    + subst c. destruct Hj as (-> & _). done.
    + destruct Hj as (Hrec & _). by destruct (holds_stage h r c Hh Hm Hrec) as [-> | ->].
  - intros (_ & _ & (text & groups & change & names & _ & _ & _ & _ & ->) & _). right. exists n, l, r.
    split_and!; done.
Qed.

Lemma tick_thread h e : tick_call baseDomain h e -> thread_call h e.
Proof.
  destruct e; try done; cbn [tick_call]; intros (_ & l & r & Hl & Hr & Hc); by eapply reconcile_thread.
Qed.

Lemma quiet_threads p :
  (exists deps denied principal, p = contractRoute deps denied principal \/
     (exists status, p = listRoute deps denied principal status) \/
     exists valid i, p = getRoute deps denied principal valid i) ->
  always thread_call (fun _ _ => True) [] p.
Proof.
  intros (deps & denied & principal & [->|[[status ->]|(valid & i & ->)]]); walk; exact I.
Qed.

Lemma started_thread p : starts p -> always thread_call (fun _ _ => True) [] p.
Proof.
  intros Hp. destruct Hp; unfold void; (eapply always_bind; [|by intros; exact I]).
  - eapply always_mono; [apply post_calls|apply post_thread|done].
  - apply quiet_threads. eauto 10.
  - apply quiet_threads. eauto 10.
  - eapply always_mono; [apply cancel_calls|apply cancel_thread|done].
  - apply quiet_threads. eauto 10.
  - eapply always_mono; [apply tick_calls|apply tick_thread|done].
Qed.

(** ** What the store does in a step *)

Lemma answers_ops db e r db' : answers db e r db' -> exists ops, db' = exec_ops ops db.
Proof.
  destruct e; cbn [answers]; try (intros ->; by exists []); try (intros [-> _]; by exists []).
  - intros (f & _ & ->). by exists [OpEvent f e].
  - intros (f & ->). by exists [OpEvent f e].
  - intros (f & now & uuid & _ & ->). by exists [OpSubmit f now uuid i].
  - intros (f' & now & _ & ->). by exists [OpTransition f' now i expected s f e version].
Qed.

(** A row of the database with the identity of a pull request. *)
Definition has_row (db : Db) (b blob commit : string) : Prop :=
  exists row, row ∈ requests db /\ branch row = b /\ base_blob_sha row = blob /\ source_commit_sha row = commit.

Lemma has_row_continues db db' b blob commit : continues db db' -> has_row db b blob commit -> has_row db' b blob commit.
Proof.
  intros (added & _ & Hc) (row & Hr & Eb & El & Ec). destruct (Hc row Hr) as (row' & Hr' & Hs & _).
  exists row'. unfold same_request in Hs. intuition congruence.
Qed.

Definition honest_call (db : Db) (c : call Ans) : Prop :=
  match c with
  | Did (ETransition _ _ s _ _ _) (inr (Some r)) => cr_stage r = s
  | Did (ESubmit j) (inr (r, false)) =>
      cr_stage r = Submitted /\ has_row db (si_branch j) (si_baseBlobSha j) (si_sourceCommitSha j)
  | Did (EListOpen _) (inr l) =>
      forall r, r ∈ l -> has_row db (cr_branch r) (cr_baseBlobSha r) (cr_sourceCommitSha r)
  | Did (ECreatePr i) _ => has_row db (cc_branch i) (cc_baseBlobSha i) (cc_baseCommitSha i)
  | _ => True
  end.

Lemma honest_continues db db' c : continues db db' -> honest_call db c -> honest_call db' c.
Proof.
  intros Hc. destruct c as [[] r]; try done; cbn [honest_call].
  - destruct r as [|[r []]]; [done..|]. intros [Hs Hr]. split; [done|]. by eapply has_row_continues.
  - destruct r as [|l]; [done|]. intros Hl r Hr. eapply has_row_continues; [done|by apply Hl].
  - by apply has_row_continues.
Qed.

Lemma honest_history db h : (forall c, c ∈ h -> honest_call db c) -> honest_stages h.
Proof.
  intros Hh. split.
  - intros i x s f t v c Hc. exact (Hh _ Hc).
  - intros j c Hc. by apply (Hh _ Hc).
Qed.

Lemma submit_new f now uuid i db r :
  (submit f now uuid i db).2 = inr (r, false) ->
  cr_stage r = Submitted /\ submitted_row now uuid i ∈ requests (submit f now uuid i db).1.
Proof.
  unfold submit. destruct f; [|done|].
  - destruct (select_one (by_key (si_idempotencyKey i)) db) as [q|]; [cbn [finish snd]; by case_match|].
    destruct (exists_row (by_branch (si_branch i)) db); [done|].
    destruct (exists_row (active_on (si_filePath i)) db); [done|].
    unfold insert_request. destruct (violated _ _); [done|]. cbn [finish fst snd].
    intros [= <-]. split; [done|]. cbn [insert_event requests]. apply elem_of_app. right. left.
  - destruct (select_one _ db); [done|]. destruct (exists_row _ db); [done|].
    destruct (exists_row _ db); [done|]. destruct (insert_request _ db); done.
Qed.

Lemma transition_stage f now i x s t e v db r :
  (transition f now i x s t e v db).2 = inr (Some r) -> cr_stage r = s.
Proof.
  unfold transition. destruct f; [|done|]; destruct (select_one _ db) as [q|]; try done;
    destruct (update_violates _ db); try done. by intros [= <-].
Qed.

Lemma lift_inr {A} (r : result StoreErrorCode A) a : lift r = inr a -> r = inr a.
Proof. by destruct r; [|intros [= ->]]. Qed.

Lemma listOpen_rows f n db l r :
  listOpen f n db = inr l -> r ∈ l -> has_row db (cr_branch r) (cr_baseBlobSha r) (cr_sourceCommitSha r).
Proof.
  unfold listOpen, read. destruct f; [|done..]. intros [= <-] (row & Hrow & ->)%elem_of_map.
  apply subseteq_take, elem_of_js_sort, elem_of_filterb in Hrow as [Hrow _]. by exists row.
Qed.

(** What a call answers is honest about the database it leaves. *)
Lemma honest_answer db h e r db' :
  thread_call h e -> (forall c, c ∈ h -> honest_call db' c) -> answers db e r db' -> honest_call db' (Did e r).
Proof.
  intros Ht Hh. destruct e; try done; cbn [answers honest_call].
  - intros (f & now & uuid & -> & ->). destruct (lift _) as [|[c []]] eqn:E; [done..|].
    apply lift_inr, submit_new in E as [Hs Hr]. split; [done|]. eexists. split; [exact Hr|done].
  - intros (f' & now & -> & _). destruct (lift _) as [|[c|]] eqn:E; [done| |done].
    apply lift_inr in E. by eapply transition_stage.
  - intros [-> (f & ->)]. destruct (lift _) as [|l] eqn:E; [done|]. apply lift_inr in E.
    intros c Hc. by eapply listOpen_rows.
  - intros _. cbn [thread_call] in Ht.
    destruct Ht as [(j & c & Hj & <- & <- & <-)|(n & l & c & Hl & Hc & <- & <- & <-)].
    + by apply (Hh _ Hj).
    + exact (Hh _ Hl c Hc).
Qed.

(** ** Stages only move along the diagram *)

Definition edge (x y : ChangeStage) : Prop := stage_edge x y = true.

(** From one database to a later one: no request is lost or rewritten, and stages
    move along the diagram. *)
Definition follows (db db' : Db) : Prop :=
  forall r, r ∈ requests db ->
    exists r', r' ∈ requests db' /\ same_request r r' /\ rtc edge (stage r) (stage r').

#[local] Instance follows_preorder : PreOrder follows.
Proof.
  split.
  - intros db r Hr. exists r. split_and!; [done|apply same_request_refl|apply rtc_refl].
  - intros a b c Hab Hbc r Hr. destruct (Hab r Hr) as (r1 & H1 & S1 & T1). destruct (Hbc r1 H1) as (r2 & H2 & S2 & T2).
    exists r2. split_and!; [done|by eapply same_request_trans|by etrans].
Qed.

Lemma follows_same db db' : (forall r, r ∈ requests db -> r ∈ requests db') -> follows db db'.
Proof. intros Hr r H1. exists r. split_and!; [auto|apply same_request_refl|apply rtc_refl]. Qed.

Lemma transition_follows f now i x s t e v db : edge x s -> follows db (transition f now i x s t e v db).1.
Proof.
  intros He. unfold transition. destruct f; [|done|].
  all: destruct (select_one (cas_match i x v) db) as [q|] eqn:E; [|by rewrite finish_fst].
  all: destruct (update_violates _ db); [done|]; rewrite finish_fst.
  all: destruct (replace_row_split _ (updated_row now s t q) _ _ E) as (l1 & l2 & El & Er & Hp).
  all: apply cas_match_iff in Hp as (_ & Hx & _); intros r Hr; rewrite El in Hr; cbn [insert_event requests].
  all: rewrite Er; apply elem_of_app in Hr as [Hr|[->|Hr]%elem_of_cons].
  all: try (exists r; split_and!; [set_solver|apply same_request_refl|apply rtc_refl]).
  all: exists (updated_row now s t q); split_and!; [set_solver|done|].
  all: rewrite Hx; by apply rtc_once.
Qed.

Lemma submit_follows f now uuid i db : follows db (submit f now uuid i db).1.
Proof.
  apply follows_same. intros r Hr. unfold submit. destruct f; [|done|].
  all: destruct (select_one _ db); [by rewrite finish_fst|].
  all: destruct (exists_row _ db); [by rewrite finish_fst|]; destruct (exists_row _ db); [by rewrite finish_fst|].
  all: unfold insert_request; destruct (violated _ _); [done|]; rewrite finish_fst; apply elem_of_app; by left.
Qed.

Lemma answers_follow db h e r db' :
  thread_call h e -> honest_stages h -> answers db e r db' -> follows db db'.
Proof.
  intros Ht Hh. destruct e; cbn [answers]; try (by intros ->); try (by intros [-> _]).
  - intros (f & _ & ->). apply follows_same. by destruct f.
  - intros (f & ->). apply follows_same. by destruct f.
  - intros (f & now & uuid & _ & ->). apply submit_follows.
  - intros (f' & now & _ & ->). apply transition_follows. by apply Ht.
Qed.

(** ** The invariant of the system *)

Definition thread_ok (db : Db) (th : thread) : Prop :=
  always thread_call (fun _ _ => True) th.1 th.2 /\ forall c, c ∈ th.1 -> honest_call db c.

Definition system_ok (s : System) : Prop :=
  store_ok (sy_db s) /\ forall th, th ∈ sy_threads s -> thread_ok (sy_db s) th.

Lemma thread_ok_later db db' th : continues db db' -> thread_ok db th -> thread_ok db' th.
Proof. intros Hc [Ha Hh]. split; [done|]. intros c Hin. eapply honest_continues; [done|by apply Hh]. Qed.

Lemma step_system s s' : system_ok s -> sys_step s s' -> system_ok s' /\ follows (sy_db s) (sy_db s').
Proof.
  intros [Hdb Hts] Hs. destruct Hs as [db ts p Hp|db db' ts1 ts2 h e k r Ha|db ts1 ts2 th]; cbn [sy_db sy_threads] in *.
  - split; [|done]. split; [done|]. intros th [Hth| ->%list_elem_of_singleton]%elem_of_app; [auto|].
    split; [by apply started_thread|]. intros c Hc. by apply not_elem_of_nil in Hc.
  - destruct (Hts (h, Vis e k)) as [Hal Hh]; [set_solver|]. cbn [fst snd always] in Hal, Hh.
    destruct Hal as [He Hk]. destruct (answers_ops _ _ _ _ Ha) as [ops Eops].
    assert (continues db db') as Hc by (rewrite Eops; apply exec_ops_continues).
    assert (forall c, c ∈ h -> honest_call db' c) as Hh' by (intros c Hin; eapply honest_continues; [done|by apply Hh]).
    split; [split|].
    + rewrite Eops. by apply exec_ops_ok.
    + intros th [Hth|[->|Hth]%elem_of_cons]%elem_of_app.
      * eapply thread_ok_later; [done|apply Hts; set_solver].
      * split; [apply Hk|]. intros c [->|Hin]%elem_of_cons; [by eapply honest_answer|auto].
      * eapply thread_ok_later; [done|apply Hts; set_solver].
    + eapply answers_follow; [done|by eapply honest_history|done].
  - split; [|done]. split; [done|]. intros t Ht. apply Hts. set_solver.
Qed.

Lemma steps_system s s' : system_ok s -> rtc sys_step s s' -> system_ok s' /\ follows (sy_db s) (sy_db s').
Proof.
  intros Hok Hr. induction Hr as [s|s s1 s' Hs _ IH]; [done|].
  destruct (step_system _ _ Hok Hs) as [H1 F1]. destruct (IH H1) as [H2 F2]. split; [done|by etrans].
Qed.

Lemma reachable_ok s : reachable s -> system_ok s.
Proof.
  intros Hr. apply (steps_system initial); [|done]. split; [apply empty_ok|].
  intros th Hth. by apply not_elem_of_nil in Hth.
Qed.

Lemma ended_edge x y : x ∈ [Applied; Rejected; Failed] -> rtc edge x y -> y = x.
Proof.
  intros Hx Hr. destruct Hr as [|x y z He _]; [done|]. unfold edge in He.
  repeat (apply elem_of_cons in Hx as [->|Hx]; [by destruct y|]). by apply not_elem_of_nil in Hx.
Qed.

(** C7: under every interleaving of submits, cancels, reads and reconciler ticks
    of any number of replicas, with connections failing and handlers dying
    anywhere: the store keeps its invariant, no request is lost or rewritten, its
    stage only moves along the stage diagram, and a request that is applied,
    rejected or failed stays so forever. *)
Theorem stages_follow_diagram s s' r :
  reachable s -> rtc sys_step s s' -> r ∈ requests (sy_db s) ->
  store_ok (sy_db s') /\
  exists r', r' ∈ requests (sy_db s') /\ same_request r r' /\ rtc edge (stage r) (stage r') /\
    (stage r ∈ [Applied; Rejected; Failed] -> stage r' = stage r).
Proof.
  intros Hs Hr Hin. destruct (steps_system s s') as [[Hok _] Hf]; [by apply reachable_ok|done|].
  split; [done|]. destruct (Hf r Hin) as (r' & H1 & H2 & H3). exists r'. split_and!; [done..|].
  intros He. by apply (ended_edge _ _ He).
Qed.

(** C5: whoever asked GitHub for a pull request, a submit or a recovery on any
    replica: a request with that branch, base blob and base commit is committed in
    the audit store (and stays there). *)
Theorem pull_request_has_request s th i w :
  reachable s -> th ∈ sy_threads s -> Did (ECreatePr i) w ∈ th.1 ->
  has_row (sy_db s) (cc_branch i) (cc_baseBlobSha i) (cc_baseCommitSha i).
Proof. intros Hs Hth Hc. destruct (reachable_ok s Hs) as [_ Hts]. exact (proj2 (Hts th Hth) _ Hc). Qed.
End system.

(** ** A concrete execution: one submit *)

Definition demo_store (db : Db) (e : Eff) : Ans e * Db :=
  match e as e return Ans e * Db with
  | ESubmit i => (lift (submit NoFault 1000000 "r-1" i db).2, (submit NoFault 1000000 "r-1" i db).1)
  | ETransition i x s t ev v =>
      (lift (transition NoFault 2000000 i x s t ev v db).2, (transition NoFault 2000000 i x s t ev v db).1)
  | ERecord ev => (lift (recordEvent NoFault ev db).2, (recordEvent NoFault ev db).1)
  | ERecordDetached ev => (tt, (recordEvent NoFault ev db).1)
  | EGet i => (lift (get NoFault i db), db)
  | EFindByKey k => (lift (findByKey NoFault k db), db)
  | EFindByBranch b => (lift (findByBranch NoFault b db), db)
  | EListOpen n => (lift (listOpen NoFault n db), db)
  | EListRecentTerminal since n => (lift (listRecentTerminal NoFault since n db), db)
  | e => (demo_answers (demo_record PrOpen) [] e, db)
  end.

Lemma demo_store_answers db e : answers db e (demo_store db e).1 (demo_store db e).2.
Proof.
  destruct e; cbn [demo_store answers fst snd]; try done; try (split; [done|by exists NoFault]).
  all: first [by exists NoFault | by exists NoFault, 2000000%Z | by exists NoFault, 1000000%Z, "r-1"].
Qed.

Definition demo_step (st : Db * thread) : Db * thread :=
  match st with
  | (db, (h, Vis e k)) => ((demo_store db e).2, (Did e (demo_store db e).1 :: h, k (demo_store db e).1))
  | _ => st
  end.

Definition one_thread (st : Db * thread) : System := mkSystem st.1 [st.2].

Lemma demo_steps `{EditLib} baseDomain n st :
  rtc (sys_step baseDomain) (one_thread st) (one_thread (Nat.iter n demo_step st)).
Proof.
  induction n as [|n IH]; [done|].
  change (Nat.iter (S n) demo_step st) with (demo_step (Nat.iter n demo_step st)). etrans; [exact IH|].
  destruct (Nat.iter n demo_step st) as [db [h [u|e k]]]; [apply rtc_refl|].
  apply rtc_once. apply (sys_call _ db _ [] []). apply demo_store_answers.
Qed.

Definition demo_thread : thread := ([], void demo_submit).
Definition demo_at (n : nat) : Db * thread := Nat.iter n demo_step (empty_db, demo_thread).

Lemma demo_reachable n : @reachable demo_lib "example.org" (one_thread (demo_at n)).
Proof.
  eapply rtc_l; [apply (@sys_start demo_lib "example.org" empty_db [] (void demo_submit)), starts_post|].
  exact (demo_steps "example.org" n (empty_db, demo_thread)).
Qed.

Lemma stages_follow_diagram_witness :
  exists r r', r ∈ requests (demo_at 4).1 /\ stage r = Submitted /\
    r' ∈ requests (demo_at 6).1 /\ rtc edge (stage r) (stage r') /\ events (demo_at 6).1 <> [].
Proof.
  edestruct (@stages_follow_diagram demo_lib "example.org" (one_thread (demo_at 4)) (one_thread (demo_at 6)))
    as [_ (r' & H1 & _ & H2 & _)].
  - apply demo_reachable.
  - apply (demo_steps "example.org" 2 (demo_at 4)).
  - lazy. left.
  - eexists. exists r'. split; [lazy; left|]. split; [reflexivity|]. split; [exact H1|]. split; [exact H2|].
    lazy. discriminate.
Defined.

Lemma pull_request_has_request_witness :
  exists i w, Did (ECreatePr i) w ∈ (demo_at 5).2.1 /\
    has_row (demo_at 5).1 (cc_branch i) (cc_baseBlobSha i) (cc_baseCommitSha i).
Proof.
  eexists. eexists. split; [lazy; left|].
  eapply (@pull_request_has_request demo_lib "example.org" (one_thread (demo_at 5)) (demo_at 5).2).
  - apply demo_reachable.
  - left.
  - lazy. left.
Defined.
